(* ===== verification/_CoqProject ===== *)
-Q . S2P
Prelude.v
Text.v
Utf8.v
Net.v
Identity.v
Event.v
Capture.v
Completion.v
Framing.v
Spool.v
Seams.v
Pipeline.v
Egress.v
NetCapture.v
Classifier.v
Route.v
TlsPolicy.v
Dns.v
Substrate.v
Protocol.v
Exporters.v
Fatal.v
EventRelay.v
Blob.v
BlobDrain.v
Redact.v
Relay.v
Anomaly.v
RunEnd.v
ProxyMeta.v
ProxyTee.v
ProxyHandler.v
Udp.v
Security.v
Routing.v
DnsRelay.v
Stdio.v
Child.v
NetnsRun.v
Otlp.v
GrpcClient.v
BlobUpload.v
Programs.v
Listener.v
Manager.v
NetSession.v
Gateway.v
GatewayConfig.v
BoundConnect.v
Inspect.v
GatewayWorker.v
Cli.v
Session.v
RawLog.v
