(* ===== verification/Prelude.v ===== *)
(** * Hiloop interceptor: a verification development

    hiloop-interceptor wraps a command, captures what it does (standard
    streams, process boundaries, telemetry it exports, HTTP traffic through a
    proxy or through a private network namespace) as events stamped with the
    identity of the run, and ships the events to a gateway without ever failing
    or blocking the command.  Two crates hold the code: hiloop-core (contracts)
    and hiloop-interceptor (the program).  Definitions keep the names of the
    code; a method [T::f] is [f] or [T_f].  A [Result] is [result E A] of this
    file, with stdpp's monadic notation for [?]; a [u64] or [u16] is a [Z] kept
    in range by the code's own checks or by its wrap-around or saturating
    operation; a [str], [Vec<u8>] or [OsString] is the list of its bytes; a map
    is a [gmap].  Concurrent code is a step relation with an executable step
    function: a step is what one task does between two awaits (or under one
    lock), and the scheduler's and the environment's choices are labels.

    ** Parts and files

    Shared ground.
    - Prelude: results, bytes, machine integers, tactics and hints.
    - Text, Utf8: the string, slice and decoding operations of Rust's standard
      library that the code uses; Net: its IP addresses, parsed and printed.

    Contracts (hiloop-core/src).
    - Identity (identity.rs): run identifiers over the ulid crate, the lineage
      path, the run context and the hybrid logical clock.  Every event and every
      component below is keyed by these.
    - Event (event.rs) and Capture (capture.rs): the event schema and the typed
      capture events, built from validated newtypes.
    - Completion (capture/completion.rs): the end-of-run report, its validation
      and its projection to an event.

    From a signal to the gateway (hiloop-interceptor/src).
    - Framing (framing.rs): cutting byte streams into records; Stdio (stdio.rs
      and the pumps of supervisor.rs): the standard streams as signals and log
      events; Child (exec_events.rs and the child's part of supervisor.rs): the
      child's environment, its lifecycle and the forwarded signals; Otlp
      (otlp.rs): the telemetry receiver.
    - Seams (seams.rs): signals, the bounded sink, normalizers and provenance;
      Pipeline (pipeline.rs): source, normalize and export stages.
    - Exporters (exporters.rs, jsonl.rs): the local log, the fan-out and the
      delivery accounting; Spool (spool.rs): the bounded queue with classified
      retry and the run-end drain; GrpcClient (grpc_client.rs, grpc_export.rs):
      the shared credential and one batch as a call.
    - Blob (blob.rs), BlobDrain (blob_drain.rs), BlobUpload (blob_upload.rs):
      the content-addressed store of bodies, and shipping it.
    - Redact (redact.rs): credentials scrubbed from captured copies.
    - RunEnd (supervisor.rs): accounts reconciled, the completion report.
    - Session (session.rs): the library's capture session; RawLog (raw.rs): the
      local log of raw observations; Inspect (inspect.rs, inspect_cli.rs): what
      is made of a local log; Cli (cli.rs): the flags and the run they mean.

    HTTP capture.
    - Egress (egress.rs), NetCapture (net_capture.rs, capture_policy.rs): which
      destinations are allowed, which are passed through, which bodies kept.
    - ProxyMeta, ProxyTee, ProxyHandler (proxy.rs): what is said of an exchange,
      the body tee with its shared budget, the request and response handler.
    - Relay (relay.rs): the fixed relay for bound hosts; BoundConnect
      (bound_connect.rs): the tunnel that reaches it, the wait for its answer and
      the supervised response; Anomaly (anomaly.rs): heuristics over bodies.

    The private network namespace (hiloop-interceptor/src/netns).
    - Substrate (mod.rs) and Protocol (protocol.rs): the commands and facts the
      namespace processes exchange, and the framed protocol that carries them.
    - Classifier (classifier.rs), Dns (dns.rs), Route (route.rs), TlsPolicy
      (tls_policy.rs): what a flow is, which host it is for, whether it may go,
      and whether its TLS is opened.
    - DnsRelay (resolver.rs, dns_relay.rs) and Udp (udp.rs, udp_broker.rs,
      udp_ingress.rs): the dataplane of DNS and of other datagrams.
    - Routing (routing.rs): the set-up and tear-down commands and the text of the
      nftables script; Security (security.rs): descriptors and capabilities given
      up before exec.
    - Programs: code that is a sequence of system calls, as a program over the
      calls and their answers; Listener (listener.rs): sockets and the messages
      that carry them; Manager (manager.rs): the process that makes the
      namespaces, its gateway and workload children and their clean-up;
      NetSession (system.rs, pasta.rs): the host's side of it; Gateway
      (gateway.rs, ingress.rs, tls_transport.rs): the flows of the gateway worker;
      GatewayConfig, GatewayWorker (gateway.rs): how the run's options reach the
      helpers, and the worker's set-up and tasks.
    - EventRelay (event_relay.rs): the events' way out of the namespace; Fatal
      (fatal.rs): runs that a dataplane failure ends; NetnsRun (run.rs): which
      kind of run the options give, and the end of a transparent run.

    ** Interfaces

    Code outside the repository is a class or a parameter, with what its
    documentation promises as a class of laws; each law class has an instance,
    on which the witnesses are evaluated.
    - Identifiers and encodings: [UlidLib] with [UlidLaws] and [UlidText] (the
      ulid crate), [SerdeJson] with [SerdeLaws] and [RelayJsonLaws], [argv_json],
      [parse_json] (serde_json), [Base64] with [Base64Laws], [ProstDecode] with
      [ProstLaws] and [ProbeLen] with [ProbeLenLaws] (prost), [UrlLib] with
      [UrlLaws] (url), [IpNetLib] with [IpNetLaws] (ipnet), [blake3_hex].
    - The http crate's headers: [HeaderLib] with [HeaderLaws]; certificates:
      [X509]; tonic's codes and metadata: [Tonic]; leakguard's scanner: [find];
      [escape_debug] of the standard library's Unicode tables.
    - Worlds, with arbitrary outcomes and delays: [SinkWorld] with [ClockLaws]
      (the exporter a spool wraps and the clock), [Exporter] and
      [CompletionExporter] (a pipeline's end), [Write] and [Read] (streams),
      [DrainWorld] with [DrainLaws] (store and uploader), [CaptureWorld] and
      [HandlerWorld] (what the proxy calls), [DnsNet] (resolvers), [IngestWorld]
      and [BlobWorld] (gRPC calls), [Kernel] with [KernelLaws] (Linux calls).
    - A program over calls [c] with answers of type [answer c] (Programs): [runs]
      relates it to every log of calls and answers it may have, whatever the
      system does; [exec] is its run in a given environment, which the witnesses
      use; [wp], [located] and [shows] say which calls, with which answers, a log
      holds in which order.  A loop without a bound of its own takes a number of
      turns and ends [Unfinished], a run without a result, when they are used up;
      what is stated of such programs holds for every number of turns, and of
      the unfinished runs too where it is about what was done so far.
    - http's and hyper's messages: [HttpLib] with [HttpLaws], [UrlDomains],
      [UrlCanonical]; the JSON of configurations, events and raw records:
      [ConfigJson] with [ConfigJsonLaws], [EventJsonLaws], [RawText] (floats are
      only promised to be alike, since serde_json reads them approximately).
    Components meet at such interfaces: the spool is an [Exporter] of the
    pipeline ([Pipeline.pipeline_over_spool]), the upload client is the drain's
    [DrainWorld] ([grpc_drain_world]), Route takes the evidence the tracker of
    Dns implements, and both ends of a run build the report of Completion.

    ** What is proved

    - Identity: printing and parsing a lineage path are inverse and the parser
      accepts nothing else; the clock's timestamps increase strictly under any
      interleaving and exceed every timestamp observed.
    - Completion, RunEnd, NetnsRun: a report is accepted exactly as documented;
      the report at the end of a run is accepted, says complete exactly when
      nothing was lost, and accounts for every normalized event.
    - Framing, Stdio, Child: streams are copied byte for byte and their records
      lose nothing; a child's life is recorded; its environment is exact.
    - Pipeline: every interleaving of the stages exports what running the
      normalizers in sequence gives, in order, and the pipeline always answers,
      whatever its parts do.
    - Spool, Exporters, EventRelay, BlobDrain: every event (or blob) is
      delivered, queued, dropped or rejected exactly once, within the caps.
    - GrpcClient, BlobUpload: one rotation at a time and no stale bearer rotated;
      a batch's outcome is what the call answered, retried at most once; probes
      fit a frame and answer for every digest; an upload's frames are the blob.
    - Blob: a finalized name always holds the bytes of its digest, whatever the
      interleaving of writers, failures and removals.
    - Redact, ProxyTee: a scrubbed copy replaces exactly the matches; a captured
      copy is a prefix of what was passed on, within the shared budget, and a
      sensitive body is never kept.
    - ProxyHandler, Relay: no request leaves that the policy forbids; every
      exchange has one terminal record; bound requests disclose nothing of the
      proof.
    - Otlp: the guard accepts exactly the envelopes within the limits, memory is
      bounded, and a span becomes the event of its fields.
    - Egress, NetCapture, Classifier, Route, TlsPolicy, Dns, DnsRelay: decisions
      are exact, admitted routes are tied to the socket's destination, verdicts
      are stable, fingerprints do not depend on how a hello is cut, a restrictive
      run never passes TLS through, and evidence is known exactly when a response
      to a query of the workload gave it.
    - Udp, Routing, Security: flows are accounted and quiesce when closed, the
      tear-down removes what the set-up added, and the process that becomes a
      workload keeps no descriptor and no capability beyond the listed ones.
    - Manager, NetSession: the workload starts only after everything that
      captures it stands, an exit is reported only after the clean-up, a launch
      that fails leaves no process unattended, and the exit the host returns is
      the one with which the workload was reaped.
    - Gateway, GatewayConfig, GatewayWorker: flows go only where they were
      admitted to and what is not captured is reported; the run's policies cross
      to the worker; the worker says it is ready only after its set-up.
    - BoundConnect: the tunnel is confined, its waits end, and what its client
      reads is a part of the response.
    - Session, RawLog, Inspect, Cli: the session drains; what is logged is read
      back; the flags mean the run that is planned.

    ** Loops and fuel

    Recursion that is not structural carries fuel that is proved sufficient: the
    framer's loops, the TLS readers, the redactor's scans and the OTLP walk take
    the number of bytes (each turn consumes one); OTLP groups take more than the
    input's length; the DNS name reader takes one more than the packet's length
    and the CNAME correlation two more than the number of records
    ([correlate_complete]); the private DNS stream takes the bytes in transit;
    upload frames take the blob's length and one; the descriptor and capability
    loops run over the exact count of their range; nested tool calls are read to
    the depth the code fixes.  The spool's delivery loop takes the queue's length
    and its drain reports [Spinning] when a loop would not end, which is proved
    impossible for a positive batch size.

    ** Modelling limits

    A cancelled future is dropped at an await, so cancellation happens between
    steps; an export in flight is one step of its stage.  What nftables does with
    the script, pasta with its arguments and the kernel with a namespace is not
    modelled: the theorems are about the calls made and their answers.  A slice
    out of range is a panic ([None]).  Log lines, and error sources that only
    feed them, are left out.

    ** Not modelled

    The accept loop of the explicit proxy and the TLS connectors are hudsucker,
    hyper and rustls; clap's derived parser, derived serde code and generated
    gRPC code are parameters or left out; of supervisor.rs, the set-up of a
    captured run (temporary files, the choice of listeners) and the
    pseudo-terminal code are not modelled; test support and the build script
    are not part of the program. *)
From Stdlib Require Import Strings.Byte.
From Stdlib Require Export ZArith Lia.
From stdpp Require Export base tactics gmap strings list fin_maps numbers.
Export stdpp.list_basics.list stdpp.list_relations.list.

(** ** The [Result] type and its monad

    Rust's [Result<A, E>], its [?] operator as monadic bind (stdpp's
    [x ← m; k] notation), [map_err] and [Option::ok_or]. *)

Inductive result (E A : Type) : Type :=
| Ok (a : A)
| Err (e : E).
Arguments Ok {E A} a.
Arguments Err {E A} e.

#[export] Instance result_ret E : MRet (result E) := λ A a, Ok a.
#[export] Instance result_bind E : MBind (result E) := λ A B f m,
  match m with Ok a => f a | Err e => Err e end.
#[export] Instance result_fmap E : FMap (result E) := λ A B f m,
  match m with Ok a => Ok (f a) | Err e => Err e end.

Definition map_err {E F A} (f : E → F) (m : result E A) : result F A :=
  match m with Ok a => Ok a | Err e => Err (f e) end.

Definition ok_or {E A} (o : option A) (e : E) : result E A :=
  match o with Some a => Ok a | None => Err e end.

Definition is_ok {E A} (m : result E A) : bool :=
  match m with Ok _ => true | Err _ => false end.

#[export] Instance result_eq_dec `{EqDecision E, EqDecision A} : EqDecision (result E A).
Proof. solve_decision. Defined.

Section result_lemmas.
Context {E A B : Type}.
Implicit Types (m : result E A) (f : A → result E B).

Lemma bind_Ok m f b : m ≫= f = Ok b ↔ ∃ a, m = Ok a ∧ f a = Ok b.
Proof. destruct m; naive_solver. Qed.

Lemma bind_Err m f e :
  m ≫= f = Err e ↔ m = Err e ∨ ∃ a, m = Ok a ∧ f a = Err e.
Proof. destruct m; naive_solver. Qed.

Lemma fmap_Ok m (g : A → B) b : g <$> m = Ok b ↔ ∃ a, m = Ok a ∧ g a = b.
Proof. destruct m; naive_solver. Qed.

Lemma ok_or_Ok (o : option A) (e : E) a : ok_or o e = Ok a ↔ o = Some a.
Proof. destruct o; naive_solver. Qed.

Lemma map_err_Ok {F} (g : E → F) m a : map_err g m = Ok a ↔ m = Ok a.
Proof. destruct m; naive_solver. Qed.

Lemma is_ok_spec m : is_ok m = true ↔ ∃ a, m = Ok a.
Proof. destruct m; naive_solver. Qed.
End result_lemmas.

Lemma mapM_Ok {E A B} (f : A → result E B) l k :
  mapM f l = Ok k ↔ Forall2 (λ x y, f x = Ok y) l k.
Proof.
  split.
  - revert k. induction l as [|x l IH]; intros k; simpl.
    + intros [= <-]. constructor.
    + rewrite bind_Ok. intros (y & Hy & Hk). rewrite bind_Ok in Hk.
      destruct Hk as (k' & Hk' & [= <-]). constructor; auto.
  - induction 1 as [|x y l k Hxy _ IH]; [done|]. simpl. by rewrite Hxy, IH.
Qed.

(** ** Tactics of the development *)

(** Invert every successful monadic step in the context. *)
Ltac inv_ok :=
  repeat match goal with
  | H : Ok _ = Ok _ |- _ => injection H as H
  | H : Err _ = Err _ |- _ => injection H as H
  | H : Ok _ = Err _ |- _ => discriminate H
  | H : Err _ = Ok _ |- _ => discriminate H
  | H : _ ≫= _ = Ok _ |- _ => apply bind_Ok in H as (? & ? & ?)
  | H : _ <$> _ = Ok _ |- _ => apply fmap_Ok in H as (? & ? & ?)
  | H : ok_or _ _ = Ok _ |- _ => apply ok_or_Ok in H
  | H : map_err _ _ = Ok _ |- _ => apply map_err_Ok in H
  | H : _ ≫= _ = Some _ |- _ => apply bind_Some in H as (? & ? & ?)
  end; simplify_eq.

(** Case on the innermost scrutinee of a [match] or [if] in the goal or in
    the context, keeping the equation. *)
Ltac case_in H :=
  match type of H with
  | context [match ?x with _ => _ end] =>
      lazymatch x with
      | context [match _ with _ => _ end] => fail
      | _ => let E := fresh "E" in destruct x eqn:E
      end
  end.

Ltac case_goal :=
  match goal with
  | |- context [match ?x with _ => _ end] =>
      lazymatch x with
      | context [match _ with _ => _ end] => fail
      | _ => let E := fresh "E" in destruct x eqn:E
      end
  end.

(** Reflect the boolean tests of the code into propositions. *)
Ltac breflect :=
  repeat match goal with
  | H : _ && _ = true |- _ => apply andb_true_iff in H as [? ?]
  | H : _ || _ = false |- _ => apply orb_false_iff in H as [? ?]
  | H : negb _ = true |- _ => apply negb_true_iff in H
  | H : negb _ = false |- _ => apply negb_false_iff in H
  | H : bool_decide _ = true |- _ => apply bool_decide_eq_true in H
  | H : bool_decide _ = false |- _ => apply bool_decide_eq_false in H
  | H : (_ <? _)%Z = true |- _ => apply Z.ltb_lt in H
  | H : (_ <? _)%Z = false |- _ => apply Z.ltb_ge in H
  | H : (_ <=? _)%Z = true |- _ => apply Z.leb_le in H
  | H : (_ <=? _)%Z = false |- _ => apply Z.leb_gt in H
  | H : (_ =? _)%Z = true |- _ => apply Z.eqb_eq in H
  | H : (_ =? _)%Z = false |- _ => apply Z.eqb_neq in H
  end.

(** Decide a closed goal by evaluating its [Decision] instance. *)
Ltac by_compute := apply (bool_decide_unpack _); vm_compute; exact I.

(** ** Machine integers

    A Rust integer of a fixed width is a [Z]; its range and its checked and
    saturating operations are written out. *)

Definition u8_max : Z := 255.
Definition u16_max : Z := 65535.
Definition u32_max : Z := 4294967295.
Definition u64_max : Z := 18446744073709551615.
Definition i64_max : Z := 9223372036854775807.
Definition usize_max : Z := u64_max.

Definition is_u8 (z : Z) : Prop := (0 ≤ z ≤ u8_max)%Z.
Definition is_u16 (z : Z) : Prop := (0 ≤ z ≤ u16_max)%Z.
Definition is_u32 (z : Z) : Prop := (0 ≤ z ≤ u32_max)%Z.
Definition is_u64 (z : Z) : Prop := (0 ≤ z ≤ u64_max)%Z.

(** [uN::checked_add], [uN::saturating_add], [uN::saturating_sub] and
    [uN::saturating_mul], for the width whose maximum is [max]. *)
Definition checked_add (max a b : Z) : option Z :=
  if (a + b <=? max)%Z then Some (a + b)%Z else None.
Definition saturating_add (max a b : Z) : Z := Z.min max (a + b).
Definition saturating_sub (a b : Z) : Z := Z.max 0 (a - b).
Definition saturating_mul (max a b : Z) : Z := Z.min max (a * b).

Lemma checked_add_Some max a b c :
  checked_add max a b = Some c ↔ c = (a + b)%Z ∧ (a + b ≤ max)%Z.
Proof. unfold checked_add. case_match; breflect; naive_solver lia. Qed.

Lemma checked_add_None max a b :
  checked_add max a b = None ↔ (max < a + b)%Z.
Proof. unfold checked_add. case_match; breflect; naive_solver lia. Qed.

Create HintDb hiloop.
#[export] Hint Resolve Z.le_refl Nat.le_refl : hiloop.
#[export] Hint Extern 2 (_ ≤ _)%Z => lia : hiloop.
#[export] Hint Extern 2 (_ < _)%Z => lia : hiloop.

(** A subsequence of the same length is the sequence itself. *)
Lemma sublist_same_length {A} (l k : list A) :
  sublist l k → length k ≤ length l → l = k.
Proof.
  induction 1 as [|x l k _ IH|x l k Hsub IH]; simpl; intros Hlen; [done|f_equal; apply IH; lia|].
  apply sublist_length in Hsub. lia.
Qed.

(** Sums and concatenations over a list with one element replaced. *)
Lemma sum_list_app l k : sum_list (l ++ k) = sum_list l + sum_list k.
Proof. induction l; simpl; lia. Qed.

Lemma sum_list_insert {A} (f : A → nat) l i x y :
  l !! i = Some x → sum_list (f <$> <[i := y]> l) + f x = sum_list (f <$> l) + f y.
Proof.
  intros Hi. rewrite <- (take_drop_middle l i x Hi) at 2. rewrite insert_take_drop by (by eapply lookup_lt_Some).
  rewrite !fmap_app, !fmap_cons, !sum_list_app. simpl. lia.
Qed.

Lemma bind_insert {A B} (f : A → list B) l i x y :
  l !! i = Some x → ∃ a b, l ≫= f = a ++ f x ++ b ∧ <[i := y]> l ≫= f = a ++ f y ++ b.
Proof.
  intros Hi. exists (take i l ≫= f), (drop (S i) l ≫= f). split.
  - rewrite <- (take_drop_middle l i x Hi) at 1. by rewrite bind_app.
  - rewrite insert_take_drop by (by eapply lookup_lt_Some). by rewrite bind_app.
Qed.

(** ** Bytes *)

#[export] Instance byte_eq_decision : EqDecision byte := Byte.byte_eq_dec.

#[export] Program Instance byte_countable : Countable byte :=
  inj_countable Byte.to_N Byte.of_N Byte.of_to_N.

(** The value of a byte as an integer, and the low byte of an integer. *)
Definition bz (b : byte) : Z := Z.of_N (Byte.to_N b).
Definition byte_of_Z (z : Z) : byte :=
  match Byte.of_N (Z.to_N (z mod 256)) with Some b => b | None => x00 end.

Lemma bz_range b : (0 ≤ bz b < 256)%Z.
Proof. unfold bz. pose proof (Byte.to_N_bounded b). lia. Qed.

Lemma bz_byte_of_Z z : bz (byte_of_Z z) = (z mod 256)%Z.
Proof.
  unfold byte_of_Z, bz. pose proof (Z.mod_pos_bound z 256 ltac:(lia)).
  destruct (Byte.of_N _) eqn:E.
  - apply Byte.to_of_N in E. rewrite E. lia.
  - exfalso. apply Byte.of_N_None_iff in E. lia.
Qed.

Lemma byte_of_Z_bz b : byte_of_Z (bz b) = b.
Proof.
  unfold byte_of_Z, bz. pose proof (Byte.to_N_bounded b).
  rewrite Z.mod_small by lia. by rewrite N2Z.id, Byte.of_to_N.
Qed.

#[export] Instance bz_inj : Inj (=) (=) bz.
Proof. intros a b H. by rewrite <- (byte_of_Z_bz a), H, byte_of_Z_bz. Qed.

(** A Rust string or byte-string literal: a [String] holds UTF-8 bytes, so a
    [str] and a [[u8]] are both lists of bytes. *)
Abbreviation str := (list byte).
Definition bs (s : string) : str := String.list_byte_of_string s.
Arguments bs : simpl never.

(** Two literals are compared by evaluation. *)
Lemma bs_ne (s t : string) : bool_decide (bs s = bs t) = false → bs s ≠ bs t.
Proof. apply bool_decide_eq_false. Qed.
#[export] Hint Extern 1 (bs _ ≠ bs _) => apply bs_ne; vm_compute; reflexivity : core.
