(* ===== verification/Text.v ===== *)
(** * Rust's string and slice operations

    The parts of the Rust standard library that the interceptor applies to
    [str] and [[u8]]: ASCII classes and case folding, [position], [split],
    [split_once], [rsplit_once], [strip_prefix], [strip_suffix],
    [starts_with], [ends_with], [slice::get], [trim().is_empty()],
    [char::is_control]/[is_whitespace] scans, UTF-8 validation, and
    decimal parsing and printing.  A [str] is the list of its UTF-8 bytes. *)
From Stdlib Require Import Strings.Byte.
From stdpp Require Import sorting.
From S2P Require Import Prelude.

(** ** ASCII classes *)

Definition is_ascii_uppercase (b : byte) : bool := (65 <=? bz b)%Z && (bz b <=? 90)%Z.
Definition is_ascii_lowercase (b : byte) : bool := (97 <=? bz b)%Z && (bz b <=? 122)%Z.
Definition is_ascii_digit (b : byte) : bool := (48 <=? bz b)%Z && (bz b <=? 57)%Z.
Definition is_ascii_alphanumeric (b : byte) : bool :=
  is_ascii_uppercase b || is_ascii_lowercase b || is_ascii_digit b.
(** [u8::is_ascii_whitespace]: space, tab, line feed, form feed, carriage return. *)
Definition is_ascii_whitespace (b : byte) : bool :=
  bool_decide (b ∈ [x20; x09; x0a; x0c; x0d]).
Definition is_ascii_byte (b : byte) : bool := (bz b <? 128)%Z.
Definition is_ascii (s : str) : bool := forallb is_ascii_byte s.

Definition to_lower (b : byte) : byte :=
  if is_ascii_uppercase b then byte_of_Z (bz b + 32) else b.
Definition to_ascii_lowercase (s : str) : str := to_lower <$> s.
Definition eq_ignore_ascii_case (s t : str) : bool :=
  bool_decide (to_ascii_lowercase s = to_ascii_lowercase t).

(** ** Searching and splitting *)

(** [iter().position(p)] *)
Fixpoint position {A} (p : A → bool) (l : list A) : option nat :=
  match l with
  | [] => None
  | x :: l => if p x then Some 0 else S <$> position p l
  end.

(** [slice.get(a..b)]: [None] when the range is decreasing or out of bounds. *)
Definition slice_get {A} (l : list A) (a b : nat) : option (list A) :=
  if bool_decide (a ≤ b ∧ b ≤ length l) then Some (take (b - a) (drop a l)) else None.

Definition starts_with {A} `{EqDecision A} (p l : list A) : bool := bool_decide (p `prefix_of` l).
Definition ends_with {A} `{EqDecision A} (p l : list A) : bool := bool_decide (p `suffix_of` l).

Definition strip_prefix {A} `{EqDecision A} (p l : list A) : option (list A) :=
  if starts_with p l then Some (drop (length p) l) else None.
Definition strip_suffix {A} `{EqDecision A} (p l : list A) : option (list A) :=
  if ends_with p l then Some (take (length l - length p) l) else None.

(** [split(|x| p(x))]: one piece more than there are separators. *)
Fixpoint split_on {A} (p : A → bool) (l : list A) : list (list A) :=
  match l with
  | [] => [[]]
  | x :: l =>
      if p x then [] :: split_on p l
      else match split_on p l with
           | piece :: pieces => (x :: piece) :: pieces
           | [] => [[x]]
           end
  end.

(** [pieces.join(sep)] *)
Fixpoint join {A} (sep : list A) (pieces : list (list A)) : list A :=
  match pieces with
  | [] => []
  | [p] => p
  | p :: ps => p ++ sep ++ join sep ps
  end.

Definition byte_is (c b : byte) : bool := bool_decide (b = c).
Definition contains_byte (c : byte) (s : str) : bool := existsb (byte_is c) s.

(** [split_once(c)] and [rsplit_once(c)] *)
Fixpoint split_once (c : byte) (s : str) : option (str * str) :=
  match s with
  | [] => None
  | x :: s => if byte_is c x then Some ([], s)
              else prod_map (cons x) id <$> split_once c s
  end.
Fixpoint rsplit_once (c : byte) (s : str) : option (str * str) :=
  match s with
  | [] => None
  | x :: s =>
      match rsplit_once c s with
      | Some (a, b) => Some (x :: a, b)
      | None => if byte_is c x then Some ([], s) else None
      end
  end.

(** [windows(needle.len()).position(|w| w == needle)] for a non-empty needle. *)
Fixpoint find_bytes (needle s : str) : option nat :=
  if starts_with needle s then Some 0
  else match s with
       | [] => None
       | _ :: s => S <$> find_bytes needle s
       end.

(** ** Whitespace and control characters

    The length of the UTF-8 encoding of a [White_Space] scalar value
    ([char::is_whitespace]) at the head of the string, if there is one:
    U+0009-000D, U+0020, U+0085, U+00A0, U+1680, U+2000-200A, U+2028, U+2029,
    U+202F, U+205F and U+3000. *)
Definition whitespace_len (s : str) : option nat :=
  match s with
  | a :: rest =>
      let za := bz a in
      if ((9 <=? za)%Z && (za <=? 13)%Z) || (za =? 32)%Z then Some 1
      else match rest with
           | b :: rest =>
               let zb := bz b in
               if (za =? 194)%Z && ((zb =? 133)%Z || (zb =? 160)%Z) then Some 2
               else match rest with
                    | c :: _ =>
                        let zc := bz c in
                        if ((za =? 225)%Z && (zb =? 154)%Z && (zc =? 128)%Z)
                           || ((za =? 226)%Z && (zb =? 128)%Z && (128 <=? zc)%Z && (zc <=? 138)%Z)
                           || ((za =? 226)%Z && (zb =? 128)%Z
                               && ((zc =? 168)%Z || (zc =? 169)%Z || (zc =? 175)%Z))
                           || ((za =? 226)%Z && (zb =? 129)%Z && (zc =? 159)%Z)
                           || ((za =? 227)%Z && (zb =? 128)%Z && (zc =? 128)%Z)
                        then Some 3 else None
                    | [] => None
                    end
           | [] => None
           end
  | [] => None
  end.

(** [char::is_control] at the head of the string: U+0000-001F and U+007F-009F. *)
Definition control_at (s : str) : bool :=
  match s with
  | a :: rest =>
      (bz a <? 32)%Z || (bz a =? 127)%Z ||
      match rest with
      | b :: _ => (bz a =? 194)%Z && (128 <=? bz b)%Z && (bz b <=? 159)%Z
      | [] => false
      end
  | [] => false
  end.

(** [s.trim().is_empty()]: every character of the string is whitespace.  The
    fuel is the length of the string: each step consumes a character. *)
Fixpoint is_blank_fuel (fuel : nat) (s : str) : bool :=
  match s with
  | [] => true
  | _ =>
      match fuel with
      | O => false
      | S fuel =>
          match whitespace_len s with
          | Some n => is_blank_fuel fuel (drop n s)
          | None => false
          end
      end
  end.
Definition is_blank (s : str) : bool := is_blank_fuel (length s) s.

(** [str::trim], [str::split_ascii_whitespace] and [str::lines]. *)
Fixpoint trim_start_fuel (fuel : nat) (s : str) : str :=
  match fuel with
  | O => s
  | S fuel => match whitespace_len s with Some n => trim_start_fuel fuel (drop n s) | None => s end
  end.
Definition trim_start (s : str) : str := trim_start_fuel (length s) s.
Fixpoint trim_end (s : str) : str :=
  match s with [] => [] | b :: rest => if is_blank s then [] else b :: trim_end rest end.
Definition trim (s : str) : str := trim_end (trim_start s).
Definition split_ascii_whitespace (s : str) : list str := filter (λ p, p ≠ []) (split_on is_ascii_whitespace s).
Definition str_lines (s : str) : list str :=
  let pieces := split_on (byte_is x0a) s in
  let pieces := match last pieces with Some [] => take (length pieces - 1) pieces | _ => pieces end in
  (λ l, default l (strip_suffix [x0d] l)) <$> pieces.

(** ** UTF-8

    [str::from_utf8] accepts exactly the well-formed byte sequences: no
    overlong form, no surrogate, nothing above U+10FFFF. *)
Definition in_range (lo hi : Z) (b : byte) : bool := (lo <=? bz b)%Z && (bz b <=? hi)%Z.
Definition continuation (b : byte) : bool := in_range 128 191 b.

Fixpoint utf8_valid (s : str) : bool :=
  match s with
  | [] => true
  | a :: s1 =>
      if in_range 0 127 a then utf8_valid s1
      else match s1 with
      | [] => false
      | b :: s2 =>
          if in_range 194 223 a then continuation b && utf8_valid s2
          else match s2 with
          | [] => false
          | c :: s3 =>
              if in_range 224 224 a then in_range 160 191 b && continuation c && utf8_valid s3
              else if in_range 237 237 a then in_range 128 159 b && continuation c && utf8_valid s3
              else if in_range 225 239 a then continuation b && continuation c && utf8_valid s3
              else match s3 with
              | [] => false
              | d :: s4 =>
                  (if in_range 240 240 a then in_range 144 191 b
                   else if in_range 241 243 a then continuation b
                   else if in_range 244 244 a then in_range 128 143 b
                   else false)
                  && continuation c && continuation d && utf8_valid s4
              end
          end
      end
  end.
Definition from_utf8 (s : str) : option str := if utf8_valid s then Some s else None.

(** ** Decimal integers *)

Definition digit_val (b : byte) : option Z :=
  if is_ascii_digit b then Some (bz b - 48)%Z else None.

Fixpoint parse_digits (max acc : Z) (s : str) : option Z :=
  match s with
  | [] => Some acc
  | b :: s =>
      d ← digit_val b;
      let acc := (acc * 10 + d)%Z in
      if (acc <=? max)%Z then parse_digits max acc s else None
  end.

(** [str::parse::<uN>()] for the unsigned width with maximum [max]: an optional
    [+], then at least one digit, no overflow. *)
Definition parse_uint (max : Z) (s : str) : option Z :=
  match s with
  | [] => None
  | b :: rest =>
      if byte_is x2b b
      then match rest with [] => None | _ => parse_digits max 0 rest end
      else parse_digits max 0 s
  end.

Definition digit_byte (d : Z) : byte := byte_of_Z (48 + d).

Fixpoint show_uint_fuel (fuel : nat) (n : Z) : str :=
  match fuel with
  | O => []
  | S fuel =>
      if (n <? 10)%Z then [digit_byte n]
      else show_uint_fuel fuel (n / 10)%Z ++ [digit_byte (n mod 10)]
  end.
(** [Display] of an unsigned integer below [10^20]. *)
Definition show_uint (n : Z) : str := show_uint_fuel 20 n.
Arguments show_uint : simpl never.

(** [{:0width$}] for a value below [10^width]. *)
Fixpoint zero_padded (width : nat) (n : Z) : str :=
  match width with
  | O => []
  | S width => digit_byte (n / 10 ^ Z.of_nat width mod 10) :: zero_padded width n
  end.

(** ** Lemmas *)

Section search_lemmas.
Context {A : Type}.
Implicit Types (p : A → bool) (l k : list A).

Lemma position_app p l k i : position p l = Some i → position p (l ++ k) = Some i.
Proof.
  revert i. induction l as [|x l IH]; intros i; simpl; [done|].
  case_match; [done|]. rewrite !fmap_Some. intros (j & Hj & ->). eauto.
Qed.

Lemma position_None p l : position p l = None ↔ Forall (λ x, p x = false) l.
Proof.
  induction l as [|x l IH]; simpl; [naive_solver|].
  rewrite Forall_cons, <- IH. destruct (p x); [naive_solver|].
  rewrite fmap_None. naive_solver.
Qed.

Lemma position_Some p l i :
  position p l = Some i →
  ∃ l1 x l2, l = l1 ++ x :: l2 ∧ length l1 = i ∧ p x = true ∧ Forall (λ y, p y = false) l1.
Proof.
  revert i. induction l as [|x l IH]; intros i; simpl; [done|].
  destruct (p x) eqn:Hx.
  - intros [= <-]. exists [], x, l. naive_solver.
  - rewrite fmap_Some. intros (j & Hj & ->).
    destruct (IH _ Hj) as (l1 & y & l2 & -> & <- & Hy & Hl1).
    exists (x :: l1), y, l2. naive_solver.
Qed.

Lemma position_first p l1 x l2 :
  Forall (λ y, p y = false) l1 → p x = true →
  position p (l1 ++ x :: l2) = Some (length l1).
Proof. induction 1 as [|y l1 Hy _ IH]; intros Hx; simpl; [by rewrite Hx|]. by rewrite Hy, IH. Qed.

Lemma position_lt p l i : position p l = Some i → i < length l.
Proof.
  intros (l1 & x & l2 & -> & <- & _)%position_Some. rewrite length_app. simpl. lia.
Qed.

Lemma slice_get_Some l a b s :
  slice_get l a b = Some s → s = take (b - a) (drop a l) ∧ a ≤ b ∧ b ≤ length l.
Proof. unfold slice_get. case_bool_decide; naive_solver. Qed.

Lemma slice_get_length l a b s : slice_get l a b = Some s → length s = b - a.
Proof.
  intros (-> & ? & ?)%slice_get_Some. rewrite length_take, length_drop. lia.
Qed.

Lemma slice_get_app l k a b s : slice_get l a b = Some s → slice_get (l ++ k) a b = Some s.
Proof.
  intros (-> & ? & ?)%slice_get_Some. unfold slice_get.
  rewrite bool_decide_true by (rewrite length_app; lia). f_equal.
  rewrite drop_app_le by lia. rewrite take_app_le; [done|]. rewrite length_drop. lia.
Qed.

Lemma slice_get_is_Some l a b : is_Some (slice_get l a b) ↔ a ≤ b ∧ b ≤ length l.
Proof.
  unfold slice_get, is_Some. case_bool_decide; naive_solver.
Qed.

Lemma split_on_ne p l : split_on p l ≠ [].
Proof. destruct l as [|x l]; simpl; [done|]. repeat case_match; done. Qed.

Lemma split_on_free p l : Forall (Forall (λ x, p x = false)) (split_on p l).
Proof.
  induction l as [|x l IH]; simpl; [by repeat constructor|].
  destruct (p x) eqn:Hx; [by constructor|].
  destruct (split_on p l); [by repeat constructor|].
  apply Forall_cons in IH as [? ?]. by repeat constructor.
Qed.

Lemma split_on_none p l : Forall (λ x, p x = false) l → split_on p l = [l].
Proof. induction 1 as [|x l Hx _ IH]; simpl; [done|]. by rewrite Hx, IH. Qed.

Lemma split_on_sep p l x k :
  Forall (λ y, p y = false) l → p x = true →
  split_on p (l ++ x :: k) = l :: split_on p k.
Proof.
  induction 1 as [|y l Hy _ IH]; intros Hx; simpl; [by rewrite Hx|].
  by rewrite Hy, IH.
Qed.
End search_lemmas.

Lemma strip_prefix_Some {A} `{EqDecision A} (p l r : list A) :
  strip_prefix p l = Some r ↔ l = p ++ r.
Proof.
  unfold strip_prefix, starts_with. case_bool_decide as H; split; intros E; simplify_eq.
  - destruct H as [k ->]. by rewrite drop_app_length.
  - by rewrite drop_app_length.
  - exfalso. apply H. by exists r.
Qed.

Lemma strip_suffix_Some {A} `{EqDecision A} (p l r : list A) :
  strip_suffix p l = Some r ↔ l = r ++ p.
Proof.
  unfold strip_suffix, ends_with. case_bool_decide as H; split; intros E; simplify_eq.
  - destruct H as [k ->]. rewrite length_app.
    by rewrite Nat.add_sub, take_app_length.
  - by rewrite length_app, Nat.add_sub, take_app_length.
  - exfalso. apply H. by exists r.
Qed.

Lemma byte_is_true c b : byte_is c b = true ↔ b = c.
Proof. apply bool_decide_eq_true. Qed.
Lemma byte_is_false c b : byte_is c b = false ↔ b ≠ c.
Proof. apply bool_decide_eq_false. Qed.
Lemma byte_is_refl c : byte_is c c = true.
Proof. by apply byte_is_true. Qed.
#[export] Hint Rewrite byte_is_refl : hiloop.

Lemma contains_byte_spec c s : contains_byte c s = true ↔ c ∈ s.
Proof.
  unfold contains_byte. rewrite existsb_exists. setoid_rewrite byte_is_true.
  rewrite list_elem_of_In. naive_solver.
Qed.

Lemma contains_byte_false c s : contains_byte c s = false ↔ Forall (λ b, byte_is c b = false) s.
Proof.
  rewrite <- not_true_iff_false, contains_byte_spec, Forall_forall.
  setoid_rewrite byte_is_false. naive_solver.
Qed.

Lemma join_cons {A} (sep p : list A) ps : ps ≠ [] → join sep (p :: ps) = p ++ sep ++ join sep ps.
Proof. by destruct ps. Qed.

(** Joining the pieces of a split restores the string. *)
Lemma join_split_on c s : join [c] (split_on (byte_is c) s) = s.
Proof.
  induction s as [|x s IH]; simpl; [done|].
  destruct (byte_is c x) eqn:Hx.
  - apply byte_is_true in Hx as ->.
    rewrite join_cons by apply split_on_ne. simpl. by rewrite IH.
  - pose proof (split_on_ne (byte_is c) s) as Hne.
    destruct (split_on (byte_is c) s) as [|p ps]; [done|].
    destruct ps; simpl in *; by rewrite IH.
Qed.

(** Splitting a join of separator-free pieces restores the pieces. *)
Lemma split_on_join c ps :
  ps ≠ [] → Forall (Forall (λ b, byte_is c b = false)) ps →
  split_on (byte_is c) (join [c] ps) = ps.
Proof.
  intros Hne Hps. induction Hps as [|p ps Hp Hps IH]; [done|].
  destruct ps as [|q ps].
  - by apply split_on_none.
  - rewrite join_cons by done. cbn [app]. rewrite split_on_sep; [|done|apply byte_is_refl].
    by rewrite IH.
Qed.

Lemma rsplit_once_Some c s a b :
  rsplit_once c s = Some (a, b) ↔ s = a ++ c :: b ∧ c ∉ b.
Proof.
  split.
  - revert a b. induction s as [|x s IH]; intros a b; simpl; [done|].
    destruct (rsplit_once c s) as [[a' b']|] eqn:E.
    + intros [= <- <-]. destruct (IH _ _ eq_refl) as [-> ?]. done.
    + destruct (byte_is c x) eqn:Hx; intros [= <- <-].
      apply byte_is_true in Hx as ->. split; [done|].
      clear IH. revert E. induction s as [|y s IH]; [set_solver|]. simpl.
      destruct (rsplit_once c s) as [[??]|]; [done|].
      destruct (byte_is c y) eqn:Hy; [done|]. apply byte_is_false in Hy. set_solver.
  - intros [-> Hb]. induction a as [|x a IH]; simpl.
    + assert (rsplit_once c b = None) as ->; [|by rewrite byte_is_refl].
      induction b as [|y b IHb]; simpl; [done|].
      rewrite IHb by set_solver.
      assert (byte_is c y = false) as -> by (apply byte_is_false; set_solver). done.
    + by rewrite IH.
Qed.

Lemma rsplit_once_None c s : rsplit_once c s = None ↔ c ∉ s.
Proof.
  induction s as [|x s IH]; simpl; [set_solver|].
  destruct (rsplit_once c s) as [[a b]|] eqn:E.
  - apply rsplit_once_Some in E as [-> _]. set_solver.
  - destruct (byte_is c x) eqn:Hx; [apply byte_is_true in Hx|apply byte_is_false in Hx]; set_solver.
Qed.

Lemma split_once_Some c s a b :
  split_once c s = Some (a, b) ↔ s = a ++ c :: b ∧ c ∉ a.
Proof.
  split.
  - revert a b. induction s as [|x s IH]; intros a b; simpl; [done|].
    destruct (byte_is c x) eqn:Hx.
    + intros [= <- <-]. apply byte_is_true in Hx as ->. set_solver.
    + rewrite fmap_Some. intros ([a' b'] & Hs & [= -> ->]). apply byte_is_false in Hx.
      destruct (IH _ _ Hs) as [-> ?]. set_solver.
  - intros [-> Ha]. induction a as [|x a IH]; simpl; [by rewrite byte_is_refl|].
    assert (byte_is c x = false) as -> by (apply byte_is_false; set_solver).
    rewrite IH by set_solver. done.
Qed.

Lemma prefix_app_inv_le {A} (p l k : list A) :
  p `prefix_of` l ++ k → length p ≤ length l → p `prefix_of` l.
Proof.
  intros [r Hr] Hle. exists (take (length l - length p) r).
  assert (take (length l) (l ++ k) = take (length l) (p ++ r)) as H by (by rewrite Hr).
  rewrite take_app_length in H. rewrite H at 1. rewrite take_app.
  rewrite take_ge by lia. done.
Qed.

Lemma find_bytes_Some needle s i :
  find_bytes needle s = Some i → needle `prefix_of` drop i s ∧ i ≤ length s.
Proof.
  revert i. induction s as [|x s IH]; intros i; simpl.
  - unfold starts_with. case_bool_decide; [|done]. intros [= <-]. done.
  - unfold starts_with. case_bool_decide as H; [intros [= <-]; split; [done|lia]|].
    rewrite fmap_Some. intros (j & Hj & ->). destruct (IH _ Hj). split; [done|simpl; lia].
Qed.

(** The first occurrence of a needle does not move when bytes are appended. *)
Lemma find_bytes_app needle s k i :
  find_bytes needle s = Some i → find_bytes needle (s ++ k) = Some i.
Proof.
  revert i. induction s as [|x s IH]; intros i.
  - simpl. unfold starts_with. case_bool_decide as H; [|done]. intros [= <-].
    apply prefix_nil_inv in H as ->. destruct k; simpl; done.
  - simpl. unfold starts_with at 1. case_bool_decide as H.
    + intros [= <-]. unfold starts_with. rewrite bool_decide_true; [done|].
      by apply prefix_app_r with (l3:=k) in H.
    + rewrite fmap_Some. intros (j & Hj & ->). unfold starts_with.
      rewrite bool_decide_false.
      { by rewrite (IH _ Hj). }
      intros Hp. apply H. apply (prefix_app_inv_le needle (x :: s) k); [done|].
      destruct (find_bytes_Some _ _ _ Hj) as [Hpre Hle].
      apply prefix_length in Hpre. rewrite length_drop in Hpre. simpl. lia.
Qed.

(** *** Case folding *)

Lemma to_lower_lower b : to_lower (to_lower b) = to_lower b.
Proof. by destruct b. Qed.

Lemma to_ascii_lowercase_idemp s : to_ascii_lowercase (to_ascii_lowercase s) = to_ascii_lowercase s.
Proof.
  unfold to_ascii_lowercase. rewrite <- list_fmap_compose. apply list_fmap_ext.
  intros. apply to_lower_lower.
Qed.

Lemma length_to_ascii_lowercase s : length (to_ascii_lowercase s) = length s.
Proof. apply length_fmap. Qed.

(** *** Blank strings *)

Lemma whitespace_len_pos s n : whitespace_len s = Some n → 1 ≤ n ≤ 3.
Proof.
  unfold whitespace_len. destruct s as [|a [|b [|c s]]]; cbn -[Z.leb Z.eqb]; repeat case_match; naive_solver lia.
Qed.

Lemma is_blank_fuel_enough f1 f2 s :
  length s ≤ f1 → length s ≤ f2 → is_blank_fuel f1 s = is_blank_fuel f2 s.
Proof.
  revert f2 s. induction f1 as [|f1 IH]; intros f2 s H1 H2.
  - destruct s; simpl in *; [by destruct f2|lia].
  - destruct s as [|x s]; [by destruct f2|]. destruct f2 as [|f2]; simpl in H2; [lia|].
    cbn [is_blank_fuel]. destruct (whitespace_len (x :: s)) as [n|] eqn:E; [|done].
    apply whitespace_len_pos in E. simpl in H1.
    apply IH; rewrite length_drop; simpl; lia.
Qed.

Lemma is_blank_nil : is_blank [] = true.
Proof. done. Qed.

Lemma is_blank_step s n :
  whitespace_len s = Some n → is_blank s = is_blank (drop n s).
Proof.
  intros E. unfold is_blank. destruct s as [|x s]; [done|].
  pose proof (whitespace_len_pos _ _ E). cbn [length is_blank_fuel]. rewrite E.
  apply is_blank_fuel_enough; rewrite length_drop; simpl; lia.
Qed.

Lemma is_blank_visible s : s ≠ [] → whitespace_len s = None → is_blank s = false.
Proof. intros Hs E. destruct s as [|x s]; [done|]. unfold is_blank. cbn [length is_blank_fuel]. by rewrite E. Qed.

Lemma split_on_join_app c ps rest :
  ps ≠ [] → Forall (Forall (λ b, byte_is c b = false)) ps →
  split_on (byte_is c) (join [c] ps ++ c :: rest) = ps ++ split_on (byte_is c) rest.
Proof.
  intros Hne Hps. induction Hps as [|p ps Hp Hps IH]; [done|].
  destruct ps as [|q ps].
  - simpl join. by rewrite split_on_sep by (done || apply byte_is_refl).
  - rewrite join_cons by done. rewrite <- app_assoc. cbn [app].
    rewrite split_on_sep by (done || apply byte_is_refl). by rewrite IH.
Qed.

Lemma join_app {A} (sep : list A) ps qs :
  ps ≠ [] → qs ≠ [] → join sep (ps ++ qs) = join sep ps ++ sep ++ join sep qs.
Proof.
  intros Hps Hqs. induction ps as [|p ps IH]; [done|]. destruct ps as [|p' ps].
  - cbn [app]. by rewrite join_cons.
  - cbn [app] in *. rewrite (join_cons sep p) by done. rewrite IH by done.
    rewrite (join_cons sep p) by done. by rewrite <- !app_assoc.
Qed.

(** *** Decimal round trip *)

Lemma parse_digits_app max acc s t :
  parse_digits max acc (s ++ t) = parse_digits max acc s ≫= λ a, parse_digits max a t.
Proof.
  revert acc. induction s as [|b s IH]; intros acc; [done|]. cbn [app parse_digits].
  destruct (digit_val b); [|done]. cbn [mbind option_bind]. case_match; [apply IH|done].
Qed.

Lemma digit_val_byte d : (0 ≤ d < 10)%Z → digit_val (digit_byte d) = Some d.
Proof.
  intros Hd. unfold digit_val, digit_byte, is_ascii_digit. rewrite bz_byte_of_Z, Z.mod_small by lia.
  rewrite (proj2 (Z.leb_le 48 _)), (proj2 (Z.leb_le _ 57)) by lia. simpl. f_equal. lia.
Qed.

Lemma show_uint_fuel_digits f n :
  (0 ≤ n)%Z → Forall (λ b, is_ascii_digit b = true) (show_uint_fuel f n).
Proof.
  assert (∀ d, (0 ≤ d < 10)%Z → is_ascii_digit (digit_byte d) = true) as Hd.
  { intros d Hd. unfold digit_byte, is_ascii_digit. rewrite bz_byte_of_Z, Z.mod_small by lia.
    apply andb_true_iff. split; apply Z.leb_le; lia. }
  revert n. induction f as [|f IH]; intros n Hn; [constructor|]. cbn [show_uint_fuel].
  case_match eqn:Hlt; breflect.
  - constructor; [apply Hd; lia|constructor].
  - apply Forall_app. split; [apply IH, Z.div_pos; lia|].
    constructor; [apply Hd, Z.mod_pos_bound; lia|constructor].
Qed.

Lemma parse_show_fuel max f n :
  (0 ≤ n ≤ max)%Z → (n < 10 ^ Z.of_nat f)%Z → parse_digits max 0 (show_uint_fuel f n) = Some n.
Proof.
  revert n. induction f as [|f IH]; intros n Hn Hf.
  { simpl in *. f_equal. lia. }
  cbn [show_uint_fuel]. case_match eqn:Hlt; breflect.
  - cbn [parse_digits]. rewrite digit_val_byte by lia. cbn [mbind option_bind].
    rewrite (proj2 (Z.leb_le _ max)) by lia. done.
  - rewrite Nat2Z.inj_succ, Z.pow_succ_r in Hf by lia.
    rewrite parse_digits_app, IH.
    + cbn [mbind option_bind parse_digits]. rewrite digit_val_byte by (apply Z.mod_pos_bound; lia).
      cbn [mbind option_bind]. pose proof (Z.div_mod n 10 ltac:(lia)).
      rewrite (proj2 (Z.leb_le _ max)) by lia. f_equal. lia.
    + split; [apply Z.div_pos; lia|]. apply Z.div_le_upper_bound; lia.
    + apply Z.div_lt_upper_bound; lia.
Qed.

Lemma show_uint_ne n : show_uint n ≠ [].
Proof.
  unfold show_uint. change (show_uint_fuel 20 n) with
    (if (n <? 10)%Z then [digit_byte n] else show_uint_fuel 19 (n / 10) ++ [digit_byte (n mod 10)]).
  case_match; [done|]. by destruct (show_uint_fuel 19 _).
Qed.

(** A printed unsigned integer is read back at every width that holds it. *)
Lemma parse_show_uint max n :
  (0 ≤ n ≤ max)%Z → (n ≤ u64_max)%Z → parse_uint max (show_uint n) = Some n.
Proof.
  intros Hn Hmax. assert (parse_digits max 0 (show_uint n) = Some n) as Hp.
  { unfold show_uint. apply parse_show_fuel; [done|]. unfold u64_max in *. simpl. lia. }
  pose proof (show_uint_fuel_digits 20 n ltac:(lia)) as Hd. fold (show_uint n) in Hd.
  pose proof (show_uint_ne n) as Hne. unfold parse_uint.
  destruct (show_uint n) as [|b s]; [done|]. apply Forall_cons in Hd as [Hb _].
  destruct (byte_is x2b b) eqn:E; [|done]. apply byte_is_true in E as ->. done.
Qed.

Lemma show_uint_no c n : (0 ≤ n)%Z → is_ascii_digit c = false → c ∉ show_uint n.
Proof.
  intros Hn Hc Hin. pose proof (show_uint_fuel_digits 20 n Hn) as Hd.
  rewrite Forall_forall in Hd. apply Hd in Hin. congruence.
Qed.

(** ** Order

    [Ord] of [str] and [Vec<u8>]: lexicographic. *)

Fixpoint str_leb (s t : str) : bool :=
  match s, t with
  | [], _ => true
  | _, [] => false
  | a :: s, b :: t => (bz a <? bz b)%Z || ((bz a =? bz b)%Z && str_leb s t)
  end.
Definition str_le (s t : str) : Prop := str_leb s t = true.
#[export] Instance str_le_dec : RelDecision str_le.
Proof. intros s t. unfold str_le. apply _. Defined.

Lemma str_le_cons a b s t : str_le (a :: s) (b :: t) ↔ (bz a < bz b)%Z ∨ bz a = bz b ∧ str_le s t.
Proof. unfold str_le. cbn [str_leb]. rewrite orb_true_iff, andb_true_iff, Z.ltb_lt, Z.eqb_eq. done. Qed.

#[export] Instance str_le_trans : Transitive str_le.
Proof.
  intros s. induction s as [|a s IH]; intros [|b t] [|c u]; try done. rewrite !str_le_cons.
  intros [H1|[H1 H1']] [H2|[H2 H2']]; [left; lia..|]. right. split; [lia|by eapply IH].
Qed.
#[export] Instance str_le_total : Total str_le.
Proof.
  intros s. induction s as [|a s IH]; intros [|b t]; [by left|by left|by right|]. rewrite !str_le_cons.
  destruct (Z.lt_trichotomy (bz a) (bz b)) as [|[|]]; [auto..|auto]. destruct (IH t); auto.
Qed.
#[export] Instance str_le_antisymm : AntiSymm (=) str_le.
Proof.
  intros s. induction s as [|a s IH]; intros [|b t]; try done. rewrite !str_le_cons.
  intros [H1|[H1 H1']] [H2|[H2 H2']]; try lia. f_equal; [by apply (inj bz)|by apply IH].
Qed.

(** A [BTreeMap] in the order of its keys. *)
Definition key_le {A} (a b : str * A) : Prop := str_le a.1 b.1.
#[export] Instance key_le_dec {A} : RelDecision (key_le (A := A)).
Proof. intros a b. unfold key_le. apply _. Defined.
Definition btree_iter {A} (m : gmap str A) : list (str * A) := merge_sort key_le (map_to_list m).

#[export] Instance key_le_trans {A} : Transitive (key_le (A := A)).
Proof. intros a b c. apply str_le_trans. Qed.
#[export] Instance key_le_total {A} : Total (key_le (A := A)).
Proof. intros a b. apply str_le_total. Qed.

Lemma btree_iter_Permutation {A} (m : gmap str A) : btree_iter m ≡ₚ map_to_list m.
Proof. apply merge_sort_Permutation. Qed.
Lemma elem_of_btree_iter {A} (m : gmap str A) kv : kv ∈ btree_iter m ↔ m !! kv.1 = Some kv.2.
Proof. rewrite btree_iter_Permutation. destruct kv. apply elem_of_map_to_list. Qed.
Lemma NoDup_btree_iter {A} (m : gmap str A) : NoDup (btree_iter m).*1.
Proof. rewrite btree_iter_Permutation. apply NoDup_fst_map_to_list. Qed.
Lemma btree_iter_sorted {A} (m : gmap str A) : StronglySorted str_le (btree_iter m).*1.
Proof.
  assert (StronglySorted key_le (btree_iter m)) as Hs by (apply (StronglySorted_merge_sort key_le); apply _).
  induction Hs as [|[k v] l _ IH Hf]; [constructor|]. cbn. constructor; [done|]. by apply Forall_fmap.
Qed.

(** [Vec::dedup] *)
Fixpoint vec_dedup {A} `{EqDecision A} (l : list A) : list A :=
  match l with
  | a :: (b :: _) as rest => if bool_decide (a = b) then vec_dedup rest else a :: vec_dedup rest
  | l => l
  end.

Lemma elem_of_vec_dedup {A} `{EqDecision A} (l : list A) x : x ∈ vec_dedup l ↔ x ∈ l.
Proof.
  induction l as [|a [|b l] IH]; [done..|]. cbn [vec_dedup]. case_bool_decide as Hab.
  - subst. rewrite IH, !elem_of_cons. tauto.
  - rewrite elem_of_cons, IH, !elem_of_cons. tauto.
Qed.

(** [{:0w x}] of an unsigned integer below [16 ^ w]. *)
Definition hex_digit (d : Z) : byte := if (d <? 10)%Z then byte_of_Z (48 + d) else byte_of_Z (87 + d).
Fixpoint hex_padded (width : nat) (n : Z) : str :=
  match width with
  | O => []
  | S width => hex_padded width (n / 16) ++ [hex_digit (n mod 16)]
  end.

Lemma hex_digit_inj a b : (0 ≤ a < 16)%Z → (0 ≤ b < 16)%Z → hex_digit a = hex_digit b → a = b.
Proof.
  intros Ha Hb E. apply (f_equal bz) in E. unfold hex_digit in E.
  destruct (Z.ltb_spec a 10), (Z.ltb_spec b 10); rewrite !bz_byte_of_Z, !Z.mod_small in E by lia; lia.
Qed.

Lemma hex_padded_inj w a b :
  (0 ≤ a < 16 ^ Z.of_nat w)%Z → (0 ≤ b < 16 ^ Z.of_nat w)%Z → hex_padded w a = hex_padded w b → a = b.
Proof.
  revert a b. induction w as [|w IH]; intros a b Ha Hb; cbn [hex_padded].
  { change (16 ^ Z.of_nat 0)%Z with 1%Z in *. lia. }
  rewrite Nat2Z.inj_succ, Z.pow_succ_r in Ha, Hb by lia.
  intros [E1 E2]%app_inj_2; [|done]. injection E2 as E2.
  apply hex_digit_inj in E2; [|apply Z.mod_pos_bound; lia..].
  apply IH in E1; [|split; [apply Z.div_pos; lia|apply Z.div_lt_upper_bound; lia]..].
  rewrite (Z.div_mod a 16), (Z.div_mod b 16) by lia. lia.
Qed.

(** Trimming: whitespace at the head of a prefix is whitespace at the head of
    the whole, so a trimmed string is its own trim. *)
Lemma whitespace_len_app s k n : whitespace_len s = Some n → whitespace_len (s ++ k) = Some n ∧ n ≤ length s.
Proof.
  unfold whitespace_len. destruct s as [|a [|b [|c s]]]; cbn -[Z.leb Z.eqb]; repeat case_match; naive_solver lia.
Qed.

Lemma whitespace_len_prefix p s : p `prefix_of` s → whitespace_len s = None → whitespace_len p = None.
Proof.
  intros [k ->] E. destruct (whitespace_len p) as [n|] eqn:Ep; [|done]. apply (whitespace_len_app _ k) in Ep as [? _]. congruence.
Qed.

Lemma is_blank_app s k : is_blank s = true → is_blank k = true → is_blank (s ++ k) = true.
Proof.
  remember (length s) as n eqn:En. revert s En. induction (lt_wf n) as [n _ IH]. intros s -> Hs Hk.
  destruct s as [|x s]; [done|]. destruct (whitespace_len (x :: s)) as [m|] eqn:E; [|by rewrite is_blank_visible in Hs].
  pose proof (whitespace_len_pos _ _ E). destruct (whitespace_len_app _ k _ E) as [E' Hm].
  rewrite (is_blank_step _ _ E'). rewrite (is_blank_step _ _ E) in Hs. rewrite drop_app_le by done.
  eapply IH; [| |exact Hs|done]; [|reflexivity]. rewrite length_drop. simpl in *. lia.
Qed.

Lemma trim_end_split s : ∃ t, s = trim_end s ++ t ∧ is_blank t = true.
Proof.
  induction s as [|b s (t & Hs & Ht)]; [by exists []|]. cbn [trim_end]. destruct (is_blank (b :: s)) eqn:E; [by exists (b :: s)|].
  exists t. split; [|done]. simpl. by f_equal.
Qed.

Lemma trim_end_visible s p t : trim_end s = p ++ t → t ≠ [] → is_blank t = false.
Proof.
  revert p. induction s as [|b s IH]; intros p Hs Ht; [by destruct p, t|]. cbn [trim_end] in Hs.
  destruct (is_blank (b :: s)) eqn:E; [by destruct p, t|]. destruct p as [|b' p]; [|simplify_eq/=; by eapply IH].
  simpl in Hs. subst t. destruct (is_blank (b :: trim_end s)) eqn:Eb; [|done]. destruct (trim_end_split s) as (k & Hk & Hb).
  pose proof (is_blank_app _ _ Eb Hb) as Hc. simpl in Hc. rewrite <- Hk in Hc. congruence.
Qed.

Lemma trim_end_fix s : (∀ p t, s = p ++ t → t ≠ [] → is_blank t = false) → trim_end s = s.
Proof.
  induction s as [|b s IH]; intros H; [done|]. cbn [trim_end]. rewrite (H [] (b :: s)) by done. f_equal. apply IH.
  intros p t ->. by apply (H (b :: p)).
Qed.

Lemma trim_start_fuel_None fuel s : length s ≤ fuel → whitespace_len (trim_start_fuel fuel s) = None.
Proof.
  revert s. induction fuel as [|fuel IH]; intros s Hl; [by destruct s; simpl in *; [|lia]|]. cbn [trim_start_fuel].
  destruct (whitespace_len s) as [n|] eqn:E; [|done]. pose proof (whitespace_len_pos _ _ E). destruct s as [|b s]; [done|].
  apply IH. rewrite length_drop. simpl in *. lia.
Qed.

Lemma trim_start_visible s : whitespace_len s = None → trim_start s = s.
Proof. intros E. unfold trim_start. destruct s as [|b s]; [done|]. cbn [length trim_start_fuel]. by rewrite E. Qed.

Lemma trim_prefix s : trim s `prefix_of` trim_start s.
Proof. destruct (trim_end_split (trim_start s)) as (t & Ht & _). exists t. exact Ht. Qed.

Lemma trim_idemp s : trim (trim s) = trim s.
Proof.
  unfold trim at 1. rewrite trim_start_visible; [|eapply whitespace_len_prefix; [apply trim_prefix|by apply trim_start_fuel_None]].
  apply trim_end_fix. intros p t. apply trim_end_visible.
Qed.

Lemma trim_start_suffix fuel s : trim_start_fuel fuel s `suffix_of` s.
Proof.
  revert s. induction fuel as [|fuel IH]; intros s; cbn [trim_start_fuel]; [done|]. destruct (whitespace_len s) as [n|]; [|done].
  etrans; [apply IH|apply suffix_drop].
Qed.

Lemma elem_of_trim b s : b ∈ trim s → b ∈ s.
Proof.
  intros Hb. destruct (trim_prefix s) as [k Hk]. destruct (trim_start_suffix (length s) s) as [j Hj].
  assert (b ∈ trim_start s) as Hs by (rewrite Hk; apply elem_of_app; by left). rewrite Hj. apply elem_of_app. by right.
Qed.

Lemma trim_no_final s b : is_blank [b] = true → strip_suffix [b] (trim s) = None.
Proof.
  intros Hb. destruct (strip_suffix [b] (trim s)) as [r|] eqn:E; [|done]. apply strip_suffix_Some in E.
  rewrite (trim_end_visible _ _ _ E) in Hb; [done|by intros ?].
Qed.

(** The lines of a text written line by line. *)
Lemma str_lines_unlines ls :
  Forall (λ l, x0a ∉ l) ls → str_lines (concat ((λ l, l ++ [x0a]) <$> ls)) = (λ l, default l (strip_suffix [x0d] l)) <$> ls.
Proof.
  intros Hls. unfold str_lines.
  assert (split_on (byte_is x0a) (concat ((λ l, l ++ [x0a]) <$> ls)) = ls ++ [[]]) as ->.
  { induction Hls as [|l ls Hl _ IH]; [done|]. cbn [fmap list_fmap concat]. rewrite <- app_assoc. cbn [app].
    rewrite split_on_sep; [by rewrite IH|..|apply byte_is_refl].
    apply Forall_forall. intros b Hb. apply byte_is_false. by intros ->. }
  rewrite last_snoc. cbn [default]. rewrite length_app, Nat.add_sub. by rewrite take_app_length.
Qed.

Lemma str_lines_written ls :
  Forall (λ l, x0a ∉ l ∧ x0d ∉ l) ls → str_lines (concat ((λ l, l ++ [x0a]) <$> ls)) = ls.
Proof.
  intros Hls. rewrite str_lines_unlines by (eapply Forall_impl; [exact Hls|]; by intros l []).
  induction Hls as [|l ls [_ Hr] _ IH]; [done|]. cbn [fmap list_fmap]. f_equal; [|done].
  destruct (strip_suffix [x0d] l) as [r|] eqn:E; [|done]. apply strip_suffix_Some in E as ->. destruct Hr. apply elem_of_app. right. left.
Qed.

Lemma str_lines_free s l : l ∈ str_lines s → x0a ∉ l.
Proof.
  unfold str_lines. intros (k & -> & Hk)%list_elem_of_fmap Hb. assert (x0a ∈ k) as Hin.
  { destruct (strip_suffix [x0d] k) as [r|] eqn:E; [|done]. apply strip_suffix_Some in E as ->. apply elem_of_app. by left. }
  pose proof (split_on_free (byte_is x0a) s) as Hf. rewrite Forall_forall in Hf.
  assert (k ∈ split_on (byte_is x0a) s) as Hs by (destruct (last _) as [[|]|]; [eapply elem_of_take in Hk as (?&?&?); by eapply list_elem_of_lookup_2|done..]).
  specialize (Hf _ Hs). rewrite Forall_forall in Hf. specialize (Hf _ Hin). apply byte_is_false in Hf. done.
Qed.
