(* ===== verification/Utf8.v ===== *)
(** * UTF-8 decoding of arbitrary bytes

    [str::from_utf8]'s error (where the valid prefix ends and how long the
    broken sequence is) and the lossy conversion behind [Path::display], as
    the standard library computes them. *)
From Stdlib Require Import Strings.Byte.
From S2P Require Import Prelude Text.

(** What starts a non-empty byte string: a character of [width] bytes, or a
    broken sequence of [len] bytes ([None]: the input ends inside it). *)
Inductive utf8_head := Char (width : nat) | Broken (len : option nat).

(** The second byte the first one allows. *)
Definition second_ok (a b : byte) : bool :=
  if in_range 224 224 a then in_range 160 191 b
  else if in_range 237 237 a then in_range 128 159 b
  else if in_range 240 240 a then in_range 144 191 b
  else if in_range 244 244 a then in_range 128 143 b
  else continuation b.

(** The bytes after the second, [n] of them expected; [seen] were accepted. *)
Fixpoint utf8_tail (n seen : nat) (s : str) : utf8_head :=
  match n with
  | O => Char seen
  | S n => match s with
           | [] => Broken None
           | c :: s => if continuation c then utf8_tail n (S seen) s else Broken (Some seen)
           end
  end.

Definition utf8_first (a : byte) (s : str) : utf8_head :=
  let wide n := match s with
                | [] => Broken None
                | b :: s => if second_ok a b then utf8_tail n 2 s else Broken (Some 1)
                end in
  if in_range 0 127 a then Char 1
  else if in_range 194 223 a then wide 0
  else if in_range 224 239 a then wide 1
  else if in_range 240 244 a then wide 2
  else Broken (Some 1).

(** [Utf8Error]: [valid_up_to] and [error_len]. *)
Fixpoint utf8_error_from (fuel : nat) (s : str) : option (nat * option nat) :=
  match fuel, s with
  | _, [] => None
  | O, _ => None
  | S fuel, a :: rest =>
      match utf8_first a rest with
      | Broken len => Some (0, len)
      | Char w => (λ '(n, len), (w + n, len)) <$> utf8_error_from fuel (drop w s)
      end
  end.
Definition utf8_error (s : str) : option (nat * option nat) := utf8_error_from (length s) s.

(** [String::from_utf8_lossy]: each broken sequence becomes U+FFFD. *)
Fixpoint lossy_from (fuel : nat) (s : str) : str :=
  match fuel with
  | O => s
  | S fuel =>
      match utf8_error s with
      | None => s
      | Some (n, len) =>
          take n s ++ [xef; xbf; xbd] ++
          (match len with Some k => lossy_from fuel (drop (n + k) s) | None => [] end)
      end
  end.
Definition from_utf8_lossy (s : str) : str := lossy_from (length s) s.

(** ** Lemmas *)

Lemma utf8_tail_bounds n seen s :
  match utf8_tail n seen s with
  | Char w => w = seen + n ∧ n ≤ length s
  | Broken (Some k) => seen ≤ k < seen + n ∧ k - seen < length s
  | Broken None => length s < n
  end.
Proof.
  revert seen s. induction n as [|n IH]; intros seen s; simpl; [lia|]. destruct s as [|c s]; simpl; [lia|].
  destruct (continuation c); [|simpl; lia]. specialize (IH (S seen) s).
  destruct (utf8_tail n (S seen) s) as [w|[k|]]; simpl in *; lia.
Qed.

Lemma utf8_first_bounds a s :
  match utf8_first a s with
  | Char w => 1 ≤ w ≤ 4 ∧ w ≤ S (length s)
  | Broken (Some k) => 1 ≤ k ≤ 3 ∧ k ≤ S (length s)
  | Broken None => length s < 3
  end.
Proof.
  unfold utf8_first. destruct (in_range 0 127 a); [lia|].
  destruct (in_range 194 223 a), (in_range 224 239 a), (in_range 240 244 a); try (simpl; lia);
    destruct s as [|b s]; try (simpl; lia); (destruct (second_ok a b); [|simpl; lia]);
    match goal with |- context [utf8_tail ?n 2 s] => pose proof (utf8_tail_bounds n 2 s); cbn [length];
      destruct (utf8_tail n 2 s) as [w|[k|]]; lia end.
Qed.

(** The fuel is enough: every turn consumes a byte. *)
Lemma utf8_error_from_fuel fuel s : length s ≤ fuel → utf8_error_from fuel s = utf8_error s.
Proof.
  unfold utf8_error. remember (length s) as n eqn:Hn. revert fuel s Hn.
  induction n as [n IH] using lt_wf_ind; intros fuel s Hn Hf.
  destruct s as [|a rest]; [by destruct fuel, n|]. destruct n as [|n]; [done|]. destruct fuel as [|fuel]; [lia|].
  cbn [utf8_error_from]. pose proof (utf8_first_bounds a rest) as Hb.
  destruct (utf8_first a rest) as [w|]; [|done]. simpl in Hn.
  assert (length (drop w (a :: rest)) ≤ n) by (rewrite length_drop; simpl; lia).
  f_equal. rewrite (IH (length (drop w (a :: rest)))) by (done || lia).
  symmetry. rewrite (IH (length (drop w (a :: rest)))) by (done || lia). done.
Qed.

Lemma utf8_error_cons a rest :
  utf8_error (a :: rest) =
  match utf8_first a rest with
  | Broken len => Some (0, len)
  | Char w => (λ '(n, len), (w + n, len)) <$> utf8_error (drop w (a :: rest))
  end.
Proof.
  unfold utf8_error at 1. cbn [length utf8_error_from]. pose proof (utf8_first_bounds a rest) as Hb.
  destruct (utf8_first a rest) as [w|]; [|done]. f_equal. apply utf8_error_from_fuel.
  rewrite length_drop. simpl. lia.
Qed.

(** A well-formed string is one whose first character is whole and whose rest
    is well-formed. *)
Lemma in_range_spec lo hi b : in_range lo hi b = true ↔ (lo ≤ bz b ≤ hi)%Z.
Proof. unfold in_range. rewrite andb_true_iff, !Z.leb_le. done. Qed.

Ltac in_range_cases :=
  repeat match goal with
  | |- context [in_range ?lo ?hi ?b] =>
      let E := fresh "E" in destruct (in_range lo hi b) eqn:E;
      [apply in_range_spec in E
      |assert (¬ (lo ≤ bz b ≤ hi)%Z) by (intros ?%in_range_spec; congruence); clear E]
  end; try lia.

Lemma utf8_valid_cons a rest :
  utf8_valid (a :: rest) =
  match utf8_first a rest with
  | Broken _ => false
  | Char w => utf8_valid (drop w (a :: rest))
  end.
Proof.
  cbn [utf8_valid]. generalize utf8_valid as valid. intros valid. unfold utf8_first, second_ok.
  in_range_cases; try done; destruct rest as [|b [|c [|d rest]]]; simpl; unfold continuation;
    in_range_cases; done.
Qed.

Lemma utf8_tail_take n seen s w k : utf8_tail n seen s = Char w → n ≤ k → utf8_tail n seen (take k s) = Char w.
Proof.
  revert seen s k. induction n as [|n IH]; intros seen s k; simpl; [done|].
  destruct s as [|c s]; [done|]. destruct k as [|k]; [lia|]. simpl. destruct (continuation c); [|done].
  intros. apply IH; [done|lia].
Qed.

(** A whole character is recognized from its own bytes. *)
Lemma utf8_first_take a s w k : utf8_first a s = Char w → w ≤ S k → utf8_first a (take k s) = Char w.
Proof.
  unfold utf8_first. destruct (in_range 0 127 a); [done|].
  destruct (in_range 194 223 a), (in_range 224 239 a), (in_range 240 244 a); try done;
    (destruct s as [|b s]; [done|]); (destruct (second_ok a b) eqn:E2; [|done]); intros H Hk;
    pose proof H as Hw;
    match type of H with utf8_tail ?n 2 s = _ => pose proof (utf8_tail_bounds n 2 s) as Hb end;
    rewrite H in Hb; (destruct k as [|k]; [lia|]); cbn [take]; rewrite E2; (apply utf8_tail_take; [done|lia]).
Qed.

Lemma utf8_error_None s : utf8_error s = None ↔ utf8_valid s = true.
Proof.
  induction s as [s IH] using (induction_ltof1 _ length). unfold ltof in IH.
  destruct s as [|a rest]; [done|]. rewrite utf8_error_cons, utf8_valid_cons.
  pose proof (utf8_first_bounds a rest) as Hb. destruct (utf8_first a rest) as [w|len]; [|done].
  rewrite fmap_None. apply IH. rewrite length_drop. simpl. lia.
Qed.

Lemma utf8_error_Some s n len :
  utf8_error s = Some (n, len) →
  utf8_valid (take n s) = true ∧ n < length s ∧
  match len with Some k => 1 ≤ k ∧ n + k ≤ length s | None => True end.
Proof.
  revert n len. induction s as [s IH] using (induction_ltof1 _ length). unfold ltof in IH. intros n len.
  destruct s as [|a rest]; [done|]. rewrite utf8_error_cons.
  pose proof (utf8_first_bounds a rest) as Hb. destruct (utf8_first a rest) as [w|l] eqn:Ef.
  - intros H. apply fmap_Some in H as ([n' len'] & H & [= -> ->]).
    assert (length (drop w (a :: rest)) < length (a :: rest)) as Hlt by (rewrite length_drop; simpl; lia).
    destruct (IH _ Hlt _ _ H) as (Hv & Hn & Hl). rewrite length_drop in Hn, Hl. simpl in Hn, Hl.
    split_and!; [|simpl; lia|destruct len'; [simpl; lia|done]].
    destruct w as [|w]; [lia|]. cbn [Nat.add take]. rewrite utf8_valid_cons.
    rewrite (utf8_first_take _ _ (S w)) by (done || lia). cbn [drop]. rewrite <- take_drop_commute. done.
  - intros [= <- <-]. simpl. split_and!; [done|lia|destruct l; [simpl; lia|done]].
Qed.

Lemma from_utf8_lossy_valid s : utf8_valid s = true → from_utf8_lossy s = s.
Proof. intros H. apply utf8_error_None in H. unfold from_utf8_lossy. destruct s; simpl; [done|]. by rewrite H. Qed.
