(* ===== verification/Net.v ===== *)
(** * Socket addresses (Rust's [std::net])

    The address types the interceptor matches on, with the standard library's
    textual syntax: the [FromStr] parsers of [Ipv4Addr], [Ipv6Addr] and
    [IpAddr], and the [Display] of [IpAddr] and of a [SocketAddr].  Octets and
    segments are bytes, so every value of these types is an address. *)
From Stdlib Require Import Strings.Byte.
From S2P Require Import Prelude Text.

Record Ipv4Addr := mkIpv4 { v4_a : byte; v4_b : byte; v4_c : byte; v4_d : byte }.

(** A 16-bit segment: its high and low byte. *)
Record segment := mkSeg { seg_hi : byte; seg_lo : byte }.

Record Ipv6Addr := mkIpv6 {
  v6_0 : segment; v6_1 : segment; v6_2 : segment; v6_3 : segment;
  v6_4 : segment; v6_5 : segment; v6_6 : segment; v6_7 : segment }.

Inductive IpAddr :=
| V4 (v4 : Ipv4Addr)
| V6 (v6 : Ipv6Addr).

#[export] Instance ipv4_eq_dec : EqDecision Ipv4Addr.
Proof. solve_decision. Defined.
#[export] Instance segment_eq_dec : EqDecision segment.
Proof. solve_decision. Defined.
#[export] Instance ipv6_eq_dec : EqDecision Ipv6Addr.
Proof. solve_decision. Defined.
#[export] Instance ipaddr_eq_dec : EqDecision IpAddr.
Proof. solve_decision. Defined.

Definition v4_octets (a : Ipv4Addr) : list byte := [v4_a a; v4_b a; v4_c a; v4_d a].
Definition v6_segments (a : Ipv6Addr) : list segment :=
  [v6_0 a; v6_1 a; v6_2 a; v6_3 a; v6_4 a; v6_5 a; v6_6 a; v6_7 a].
Definition seg_octets (s : segment) : list byte := [seg_hi s; seg_lo s].
Definition ip_octets (ip : IpAddr) : list byte :=
  match ip with
  | V4 a => v4_octets a
  | V6 a => v6_segments a ≫= seg_octets
  end.

Definition v4_of_octets (l : list byte) : option Ipv4Addr :=
  match l with [a; b; c; d] => Some (mkIpv4 a b c d) | _ => None end.
Definition v6_of_segments (l : list segment) : option Ipv6Addr :=
  match l with
  | [a; b; c; d; e; f; g; h] => Some (mkIpv6 a b c d e f g h)
  | _ => None
  end.
Definition v6_of_octets (l : list byte) : option Ipv6Addr :=
  match l with
  | [a; a'; b; b'; c; c'; d; d'; e; e'; f; f'; g; g'; h; h'] =>
      Some (mkIpv6 (mkSeg a a') (mkSeg b b') (mkSeg c c') (mkSeg d d')
                   (mkSeg e e') (mkSeg f f') (mkSeg g g') (mkSeg h h'))
  | _ => None
  end.

#[export] Program Instance ipaddr_countable : Countable IpAddr := {|
  encode ip := encode (match ip with V4 _ => true | V6 _ => false end, ip_octets ip);
  decode p :=
    '(v4, l) ← decode p;
    if v4 : bool then V4 <$> v4_of_octets l else V6 <$> v6_of_octets l
|}.
Next Obligation.
  intros [[]|[[] [] [] [] [] [] [] []]]; rewrite decode_encode; done.
Qed.

Definition zero_seg : segment := mkSeg x00 x00.

(** [Ipv6Addr::to_ipv4_mapped]: [::ffff:a.b.c.d]. *)
Definition to_ipv4_mapped (v6 : Ipv6Addr) : option Ipv4Addr :=
  match v6_segments v6 with
  | [s0; s1; s2; s3; s4; s5; s6; s7] =>
      if bool_decide ([s0; s1; s2; s3; s4; s5] =
                      [zero_seg; zero_seg; zero_seg; zero_seg; zero_seg; mkSeg xff xff])
      then Some (mkIpv4 (seg_hi s6) (seg_lo s6) (seg_hi s7) (seg_lo s7))
      else None
  | _ => None
  end.

(** ** Parsing

    The parser of [core::net::parser]: a reader takes the remaining input and
    returns a value and the input left. *)
Definition reader A := str → option (A * str).

Definition hex_val (b : byte) : option Z :=
  if is_ascii_digit b then Some (bz b - 48)%Z
  else let l := to_lower b in
       if (97 <=? bz l)%Z && (bz l <=? 102)%Z then Some (bz l - 87)%Z else None.

Definition digit_in_radix (radix : Z) (b : byte) : option Z :=
  d ← hex_val b; if (d <? radix)%Z then Some d else None.

(** [read_number(radix, Some(max_digits), allow_zero_prefix)]: the longest run
    of digits of the radix, at least one, at most [max_digits], its value at
    most [max]; a leading zero is a number of its own unless allowed. *)
Fixpoint read_digits (radix max : Z) (max_digits digit_count : nat) (acc : Z) (s : str)
  : option (Z * nat * str) :=
  match s with
  | b :: rest =>
      match digit_in_radix radix b with
      | Some d =>
          if bool_decide (max_digits < digit_count + 1) then None
          else let acc := (acc * radix + d)%Z in
               if (max <? acc)%Z then None
               else read_digits radix max max_digits (S digit_count) acc rest
      | None => Some (acc, digit_count, s)
      end
  | [] => Some (acc, digit_count, [])
  end.

Definition read_number (radix max : Z) (max_digits : nat) (allow_zero_prefix : bool) : reader Z :=
  λ s,
    let has_leading_zero := match s with b :: _ => byte_is x30 b | [] => false end in
    '(n, digits, rest) ← read_digits radix max max_digits 0 0 s;
    if bool_decide (digits = 0) then None
    else if negb allow_zero_prefix && has_leading_zero && bool_decide (1 < digits) then None
    else Some (n, rest).

Definition read_given_char (c : byte) : reader unit :=
  λ s, match s with b :: rest => if byte_is c b then Some (tt, rest) else None | [] => None end.

(** [read_separator(sep, index, inner)]: the separator is read before every
    item but the first. *)
Definition read_separator {A} (sep : byte) (index : nat) (inner : reader A) : reader A :=
  λ s, '(_, s) ← (if bool_decide (0 < index) then read_given_char sep s else Some (tt, s)); inner s.

Definition read_octet (index : nat) : reader byte :=
  λ s, '(n, s) ← read_separator x2e index (read_number 10 255 3 false) s; Some (byte_of_Z n, s).

Definition read_ipv4_addr : reader Ipv4Addr := λ s,
  '(a, s) ← read_octet 0 s;
  '(b, s) ← read_octet 1 s;
  '(c, s) ← read_octet 2 s;
  '(d, s) ← read_octet 3 s;
  Some (mkIpv4 a b c d, s).

Definition seg_of_Z (z : Z) : segment := mkSeg (byte_of_Z (z / 256)) (byte_of_Z z).

(** [read_groups]: up to [n] more groups starting with the [i]-th; the groups
    read, whether a trailing IPv4 address was read, and the input left. *)
Fixpoint read_groups (n i : nat) (s : str) : list segment * bool * str :=
  match n with
  | O => ([], false, s)
  | S n' =>
      match (if bool_decide (0 < n') then read_separator x3a i read_ipv4_addr s else None) with
      | Some (v4, s') =>
          ([mkSeg (v4_a v4) (v4_b v4); mkSeg (v4_c v4) (v4_d v4)], true, s')
      | None =>
          match read_separator x3a i (read_number 16 65535 4 true) s with
          | Some (g, s') =>
              let '(gs, v4, s'') := read_groups n' (S i) s' in (seg_of_Z g :: gs, v4, s'')
          | None => ([], false, s)
          end
      end
  end.

Definition read_ipv6_addr : reader Ipv6Addr := λ s,
  let '(head, head_ipv4, s) := read_groups 8 0 s in
  if bool_decide (length head = 8) then v6 ← v6_of_segments head; Some (v6, s)
  else if head_ipv4 then None
  else
    '(_, s) ← read_given_char x3a s;
    '(_, s) ← read_given_char x3a s;
    let '(tail, _, s) := read_groups (8 - (length head + 1)) 0 s in
    v6 ← v6_of_segments (head ++ replicate (8 - length head - length tail) zero_seg ++ tail);
    Some (v6, s).

(** [parse_with]: the whole input must be consumed. *)
Definition parse_with {A} (r : reader A) (s : str) : option A :=
  match r s with Some (a, []) => Some a | _ => None end.

Definition Ipv4Addr_from_str (s : str) : option Ipv4Addr :=
  if bool_decide (15 < length s) then None else parse_with read_ipv4_addr s.
Definition Ipv6Addr_from_str (s : str) : option Ipv6Addr := parse_with read_ipv6_addr s.
Definition IpAddr_from_str (s : str) : option IpAddr :=
  parse_with (λ s, match read_ipv4_addr s with
                   | Some (v4, s) => Some (V4 v4, s)
                   | None => '(v6, s) ← read_ipv6_addr s; Some (V6 v6, s)
                   end) s.

(** ** Printing *)

Definition hex_digit (d : Z) : byte :=
  if (d <? 10)%Z then byte_of_Z (48 + d) else byte_of_Z (87 + d).

Definition seg_Z (s : segment) : Z := (bz (seg_hi s) * 256 + bz (seg_lo s))%Z.

(** [{:x}] of a segment: no leading zeros. *)
Definition fmt_hex (s : segment) : str :=
  let z := seg_Z s in
  if (z <? 16)%Z then [hex_digit z]
  else if (z <? 256)%Z then [hex_digit (z / 16); hex_digit (z mod 16)]
  else if (z <? 4096)%Z then [hex_digit (z / 256); hex_digit (z / 16 mod 16); hex_digit (z mod 16)]
  else [hex_digit (z / 4096); hex_digit (z / 256 mod 16); hex_digit (z / 16 mod 16); hex_digit (z mod 16)].

Definition fmt_octet (b : byte) : str := show_uint (bz b).
Definition fmt_ipv4 (a : Ipv4Addr) : str := join [x2e] (fmt_octet <$> v4_octets a).

(** The longest run of zero segments, the leftmost among equals: its start and
    length ([Span] of the standard library's loop). *)
Fixpoint longest_zeros (i : nat) (current longest : nat * nat) (segs : list segment) : nat * nat :=
  match segs with
  | [] => longest
  | s :: segs =>
      if bool_decide (s = zero_seg) then
        let current := (if bool_decide (current.2 = 0) then i else current.1, current.2 + 1) in
        let longest := if bool_decide (longest.2 < current.2) then current else longest in
        longest_zeros (S i) current longest segs
      else longest_zeros (S i) (0, 0) longest segs
  end.

Definition fmt_subslice (chunk : list segment) : str := join [x3a] (fmt_hex <$> chunk).

Definition fmt_ipv6 (a : Ipv6Addr) : str :=
  match to_ipv4_mapped a with
  | Some v4 => bs "::ffff:" ++ fmt_ipv4 v4
  | None =>
      let segs := v6_segments a in
      let '(start, len) := longest_zeros 0 (0, 0) (0, 0) segs in
      if bool_decide (1 < len)
      then fmt_subslice (take start segs) ++ bs "::" ++ fmt_subslice (drop (start + len) segs)
      else fmt_subslice segs
  end.

Definition fmt_ip (ip : IpAddr) : str :=
  match ip with V4 a => fmt_ipv4 a | V6 a => fmt_ipv6 a end.

(** [SocketAddr::new(ip, port).to_string()]: the flow label and scope of a
    fresh V6 socket address are zero and not printed. *)
Definition fmt_socket_addr (ip : IpAddr) (port : Z) : str :=
  match ip with
  | V4 a => fmt_ipv4 a ++ [x3a] ++ show_uint port
  | V6 a => [x5b] ++ fmt_ipv6 a ++ [x5d; x3a] ++ show_uint port
  end.

Example fmt_ipv6_compresses :
  (fmt_ipv6 <$> Ipv6Addr_from_str (bs "2001:DB8:0:0:1:0:0:1")) = Some (bs "2001:db8::1:0:0:1").
Proof. reflexivity. Qed.
Example fmt_ipv6_loopback : (fmt_ipv6 <$> Ipv6Addr_from_str (bs "::1")) = Some (bs "::1").
Proof. reflexivity. Qed.
Example parse_ipv6_mapped :
  (Ipv6Addr_from_str (bs "::ffff:127.0.0.1") ≫= to_ipv4_mapped) = Some (mkIpv4 x7f x00 x00 x01).
Proof. reflexivity. Qed.
Example parse_ipv4_leading_zero : Ipv4Addr_from_str (bs "127.0.0.01") = None.
Proof. reflexivity. Qed.
Example parse_ipv6_two_gaps : Ipv6Addr_from_str (bs "1::2::3") = None.
Proof. reflexivity. Qed.

(** ** Round trip of the textual form *)

Definition all_bytes : list byte := (λ n, byte_of_Z (Z.of_nat n)) <$> seq 0 256.

Lemma elem_of_all_bytes b : b ∈ all_bytes.
Proof.
  apply list_elem_of_fmap. exists (Z.to_nat (bz b)). pose proof (bz_range b). split.
  - rewrite Z2Nat.id by lia. by rewrite byte_of_Z_bz.
  - apply elem_of_seq. lia.
Qed.

(** A property of all bytes is decided by enumeration. *)
Lemma forall_bytes (P : byte → bool) : forallb P all_bytes = true → ∀ b, P b = true.
Proof.
  rewrite forallb_forall. intros H b. apply H, list_elem_of_In, elem_of_all_bytes.
Qed.

(** The input stops a number of the radix: it is empty or starts with no digit. *)
Definition stops (radix : Z) (s : str) : Prop :=
  match s with [] => True | b :: _ => digit_in_radix radix b = None end.

Lemma read_digits_app radix max m k acc ds n k' rest :
  stops radix rest →
  read_digits radix max m k acc ds = Some (n, k', []) →
  read_digits radix max m k acc (ds ++ rest) = Some (n, k', rest).
Proof.
  intros Hstop. revert k acc. induction ds as [|b ds IH]; intros k acc; simpl.
  - intros [= -> ->]. destruct rest as [|b rest]; [done|]. simpl in *. by rewrite Hstop.
  - destruct (digit_in_radix radix b); [|done]. repeat case_match; try done. apply IH.
Qed.

Lemma read_number_app radix max m z ds n rest :
  stops radix rest → ds ≠ [] →
  read_number radix max m z ds = Some (n, []) →
  read_number radix max m z (ds ++ rest) = Some (n, rest).
Proof.
  intros Hstop Hne. unfold read_number. destruct ds as [|b ds]; [done|].
  destruct (read_digits radix max m 0 0 (b :: ds)) as [[[n' k] r]|] eqn:E; [|done].
  intros H. assert (r = []) as ->.
  { revert H. simpl. by repeat (case_match; try done); intros [= -> ->]. }
  apply (read_digits_app _ _ _ _ _ _ _ _ _ Hstop) in E. cbn [app] in *. rewrite E.
  revert H. simpl. by repeat (case_match; try done); intros [= ->].
Qed.

Lemma read_digits_consumes radix max m k acc s n k' rest :
  read_digits radix max m k acc s = Some (n, k', rest) →
  ∃ ds, s = ds ++ rest ∧ Forall (λ b, is_Some (digit_in_radix radix b)) ds.
Proof.
  revert k acc. induction s as [|b s IH]; intros k acc; simpl.
  { intros [= <- <- <-]. by exists []. }
  destruct (digit_in_radix radix b) as [d|] eqn:Hb.
  - repeat case_match; try done. intros Hrest. destruct (IH _ _ Hrest) as (ds & -> & Hds).
    exists (b :: ds). split; [done|]. constructor; [by rewrite Hb|done].
  - intros [= <- <- <-]. by exists [].
Qed.

Lemma read_number_consumes radix max m z s n rest :
  read_number radix max m z s = Some (n, rest) →
  ∃ ds, s = ds ++ rest ∧ Forall (λ b, is_Some (digit_in_radix radix b)) ds.
Proof.
  unfold read_number. destruct (read_digits _ _ _ _ _ _) as [[[n' k] r]|] eqn:E; [|done].
  simpl. repeat (case_match; try done); intros [= -> ->]; by eapply read_digits_consumes.
Qed.

Lemma fmt_octet_ne b : fmt_octet b ≠ [].
Proof. apply (bool_decide_eq_true_1 (fmt_octet b ≠ [])). revert b. apply forall_bytes. vm_compute. reflexivity. Qed.

Lemma read_fmt_octet b rest :
  stops 10 rest → read_number 10 255 3 false (fmt_octet b ++ rest) = Some (bz b, rest).
Proof.
  intros Hstop. apply read_number_app; [done|apply fmt_octet_ne|].
  apply (bool_decide_eq_true_1 _). revert b. apply forall_bytes. vm_compute. reflexivity.
Qed.

Lemma fmt_hex_ne s : fmt_hex s ≠ [].
Proof. unfold fmt_hex. by repeat case_match. Qed.

Lemma digit_hex d : (0 ≤ d < 16)%Z → digit_in_radix 16 (hex_digit d) = Some d.
Proof.
  intros Hd. assert (Z.to_nat d ∈ seq 0 16) as Hin by (apply elem_of_seq; lia).
  assert (Forall (λ n, digit_in_radix 16 (hex_digit (Z.of_nat n)) = Some (Z.of_nat n)) (seq 0 16))
    as Hall by by_compute.
  rewrite Forall_forall in Hall. specialize (Hall _ Hin). by rewrite Z2Nat.id in Hall by lia.
Qed.

Lemma read_hex_step k acc d s :
  (0 ≤ d < 16)%Z → k < 4 → (acc * 16 + d ≤ 65535)%Z →
  read_digits 16 65535 4 k acc (hex_digit d :: s) = read_digits 16 65535 4 (S k) (acc * 16 + d) s.
Proof.
  intros Hd Hk Hacc. cbn [read_digits]. rewrite digit_hex by done.
  rewrite bool_decide_false by lia. rewrite (proj2 (Z.ltb_ge _ _)) by lia. done.
Qed.

Lemma seg_Z_range s : (0 ≤ seg_Z s < 65536)%Z.
Proof. unfold seg_Z. pose proof (bz_range (seg_hi s)). pose proof (bz_range (seg_lo s)). lia. Qed.

Lemma read_digits_hex s :
  read_digits 16 65535 4 0 0 (fmt_hex s) = Some (seg_Z s, length (fmt_hex s), []).
Proof.
  pose proof (seg_Z_range s) as Hz. unfold fmt_hex. set (z := seg_Z s) in *.
  repeat case_match; breflect.
  all: rewrite !read_hex_step by (lia || (Z.to_euclidean_division_equations; lia)).
  all: cbn [read_digits length]; do 3 f_equal; Z.to_euclidean_division_equations; lia.
Qed.

Lemma read_hex_exact s : read_number 16 65535 4 true (fmt_hex s) = Some (seg_Z s, []).
Proof.
  unfold read_number. rewrite read_digits_hex. simpl mbind. cbv zeta.
  rewrite bool_decide_false; [done|]. pose proof (fmt_hex_ne s). by destruct (fmt_hex s).
Qed.

Lemma read_fmt_hex s rest :
  stops 16 rest → read_number 16 65535 4 true (fmt_hex s ++ rest) = Some (seg_Z s, rest).
Proof. intros Hstop. apply read_number_app; [done|apply fmt_hex_ne|apply read_hex_exact]. Qed.

Lemma fmt_hex_digits s : Forall (λ b, is_Some (digit_in_radix 16 b)) (fmt_hex s).
Proof.
  pose proof (seg_Z_range s) as Hz. unfold fmt_hex. repeat case_match; breflect.
  all: repeat constructor; rewrite digit_hex by (lia || (Z.to_euclidean_division_equations; lia)).
  all: by eexists.
Qed.

Lemma seg_of_Z_seg_Z s : seg_of_Z (seg_Z s) = s.
Proof.
  destruct s as [hi lo]. unfold seg_of_Z, seg_Z. simpl.
  pose proof (bz_range hi). pose proof (bz_range lo). f_equal; apply (inj bz); rewrite bz_byte_of_Z.
  - rewrite Z.div_add_l by lia. rewrite (Z.div_small (bz lo)) by lia. rewrite Z.mod_small; lia.
  - rewrite Z.add_comm, Z.mod_add by lia. by apply Z.mod_small.
Qed.

(** *** IPv4 *)

Lemma read_octet_first b rest :
  stops 10 rest → read_octet 0 (fmt_octet b ++ rest) = Some (b, rest).
Proof.
  intros Hstop. unfold read_octet, read_separator. simpl.
  rewrite read_fmt_octet by done. simpl. by rewrite byte_of_Z_bz.
Qed.

Lemma read_octet_next i b rest :
  stops 10 rest → read_octet (S i) (x2e :: fmt_octet b ++ rest) = Some (b, rest).
Proof.
  intros Hstop. unfold read_octet, read_separator. simpl.
  rewrite read_fmt_octet by done. simpl. by rewrite byte_of_Z_bz.
Qed.

Lemma read_fmt_ipv4 a rest :
  stops 10 rest → read_ipv4_addr (fmt_ipv4 a ++ rest) = Some (a, rest).
Proof.
  intros Hstop. destruct a as [a b c d]. unfold read_ipv4_addr.
  assert (fmt_ipv4 (mkIpv4 a b c d) ++ rest =
          fmt_octet a ++ x2e :: fmt_octet b ++ x2e :: fmt_octet c ++ x2e :: fmt_octet d ++ rest) as ->.
  { unfold fmt_ipv4. simpl. by rewrite <- !app_assoc, <- !app_comm_cons, <- !app_assoc,
      <- !app_comm_cons, <- !app_assoc. }
  rewrite read_octet_first by done. cbn [mbind option_bind].
  do 2 (rewrite read_octet_next by done; cbn [mbind option_bind]).
  rewrite read_octet_next by done. done.
Qed.

Lemma read_ipv4_dot s a rest :
  read_ipv4_addr s = Some (a, rest) →
  ∃ ds s', s = ds ++ x2e :: s' ∧ Forall (λ b, is_Some (digit_in_radix 16 b)) ds.
Proof.
  unfold read_ipv4_addr, read_octet. intros H.
  apply bind_Some in H as ([? s1'] & H1 & H). apply bind_Some in H as ([? s2] & H2 & _).
  apply bind_Some in H1 as ([? s1] & H1 & [= <- <-]).
  apply bind_Some in H2 as ([? ?] & H2 & [= <- <-]).
  unfold read_separator in H1, H2. simpl in H1, H2.
  apply read_number_consumes in H1 as (ds & -> & Hds).
  destruct s1 as [|c s1]; [done|]. simpl in H2. destruct (byte_is x2e c) eqn:Hc; [|done].
  apply byte_is_true in Hc as ->. exists ds, s1. split; [done|].
  eapply Forall_impl; [exact Hds|]. intros b [d Hd]. unfold digit_in_radix in *.
  destruct (hex_val b) as [v|] eqn:Hv; [|done]. simpl in *. destruct (v <? 10)%Z eqn:Hlt; [|done].
  breflect. rewrite (proj2 (Z.ltb_lt v 16)) by lia. by eexists.
Qed.

(** A hexadecimal group followed by the end or by a colon is no IPv4 address. *)
Lemma read_ipv4_hex xs rest :
  Forall (λ b, is_Some (digit_in_radix 16 b)) xs →
  (rest = [] ∨ ∃ r, rest = x3a :: r) →
  read_ipv4_addr (xs ++ rest) = None.
Proof.
  intros Hxs Hrest. destruct (read_ipv4_addr (xs ++ rest)) as [[a r]|] eqn:E; [exfalso|done].
  apply read_ipv4_dot in E as (ds & s' & Heq & Hds). revert ds Hds Heq.
  induction Hxs as [|x xs Hx _ IH]; intros ds Hds Heq.
  - destruct Hrest as [->|[r' ->]]; destruct Hds as [|d ds [v Hv]]; simplify_eq/=; done.
  - destruct Hds as [|d ds Hd Hds]; simplify_eq/=; [by destruct Hx|]. by eapply IH.
Qed.

(** *** IPv6 *)

(** The text of the groups from index [i] on. *)
Fixpoint groups_text (i : nat) (segs : list segment) : str :=
  match segs with
  | [] => []
  | s :: segs => (if bool_decide (0 < i) then [x3a] else []) ++ fmt_hex s ++ groups_text (S i) segs
  end.

Lemma fmt_subslice_text segs : fmt_subslice segs = groups_text 0 segs.
Proof.
  unfold fmt_subslice.
  assert (∀ i segs, groups_text (S i) segs = match segs with [] => [] | _ => x3a :: join [x3a] (fmt_hex <$> segs) end) as H.
  { clear segs. intros i segs. revert i. induction segs as [|s segs IH]; intros i; [done|].
    simpl. rewrite IH. destruct segs; simpl; by rewrite ?app_nil_r. }
  destruct segs as [|s segs]; [done|]. simpl. rewrite H. destruct segs; simpl; by rewrite ?app_nil_r.
Qed.

Definition group_end (rest : str) : Prop := rest = [] ∨ ∃ r, rest = x3a :: x3a :: r.

Lemma read_number_colon radix max m z s :
  (2 ≤ radix ≤ 16)%Z → s = [] ∨ (∃ r, s = x3a :: r) → read_number radix max m z s = None.
Proof. intros _ [->|[r ->]]; done. Qed.

Lemma groups_text_end i segs rest :
  group_end rest → 0 < i → (groups_text i segs ++ rest = [] ∨ ∃ r, groups_text i segs ++ rest = x3a :: r).
Proof.
  intros [->|[r ->]] Hi; destruct segs; simpl; rewrite ?bool_decide_true by done; simpl; eauto.
Qed.

Lemma colon_stops s : s = [] ∨ (∃ r, s = x3a :: r) → stops 16 s.
Proof. intros [->|[r ->]]; done. Qed.

Lemma read_groups_none n i rest :
  group_end rest → read_groups n i rest = ([], false, rest).
Proof.
  intros Hend. destruct n as [|n]; [done|]. cbn [read_groups]. unfold read_separator.
  destruct Hend as [->|[r ->]]; destruct i; simpl; by case_bool_decide.
Qed.

Lemma read_groups_text segs n i rest :
  length segs ≤ n → group_end rest →
  read_groups n i (groups_text i segs ++ rest) = (segs, false, rest).
Proof.
  revert n i. induction segs as [|s segs IH]; intros n i Hn Hend.
  { by apply read_groups_none. }
  destruct n as [|n]; simpl in Hn; [lia|]. cbn [read_groups groups_text].
  rewrite <- !app_assoc. set (more := groups_text (S i) segs ++ rest).
  assert (more = [] ∨ ∃ r, more = x3a :: r) as Hmore by (apply groups_text_end; [done|lia]).
  assert (∀ {A} (inner : reader A),
    read_separator x3a i inner ((if bool_decide (0 < i) then [x3a] else []) ++ fmt_hex s ++ more)
    = inner (fmt_hex s ++ more)) as Hsep.
  { intros A inner. unfold read_separator. by case_bool_decide. }
  rewrite !Hsep, read_ipv4_hex, read_fmt_hex; auto using fmt_hex_digits, colon_stops.
  unfold more. rewrite IH by (done || lia). rewrite seg_of_Z_seg_Z.
  by destruct (bool_decide (0 < n)).
Qed.

(** A run of zero segments inside the address. *)
Definition zero_run (segs : list segment) (r : nat * nat) : Prop :=
  r.1 + r.2 ≤ length segs ∧ ∀ j, r.1 ≤ j < r.1 + r.2 → segs !! j = Some zero_seg.

Lemma longest_zeros_run all pre rest current longest :
  all = pre ++ rest →
  zero_run all longest →
  zero_run all current → (current.2 = 0 ∨ current.1 + current.2 = length pre) →
  zero_run all (longest_zeros (length pre) current longest rest).
Proof.
  revert pre current longest. induction rest as [|s rest IH]; intros pre current longest Hall Hl Hc Hcur.
  { done. }
  cbn [longest_zeros].
  assert (all = (pre ++ [s]) ++ rest) as Hall' by (by rewrite <- app_assoc).
  assert (S (length pre) = length (pre ++ [s])) as Hlen by (rewrite length_app; simpl; lia).
  case_bool_decide as Hs; rewrite Hlen.
  2: { apply IH; auto. split; simpl; [lia|]. intros; lia. }
  (* a zero segment extends or opens the current run *)
  set (current' := (if bool_decide (current.2 = 0) then length pre else current.1, current.2 + 1)).
  assert (zero_run all current' ∧ current'.1 + current'.2 = S (length pre)) as [Hnew Hend].
  { destruct Hc as [Hc1 Hc2]. subst s. unfold current', zero_run. simpl. split_and!.
    - rewrite Hall, !length_app. simpl. case_bool_decide; lia.
    - intros j Hj. destruct (decide (j = length pre)) as [->|Hne].
      + rewrite Hall, lookup_app_r by lia. by rewrite Nat.sub_diag.
      + apply Hc2. case_bool_decide; lia.
    - case_bool_decide; lia. }
  apply IH; auto; [|right; lia].
  fold current'. by destruct (bool_decide (longest.2 < current'.2)).
Qed.

Lemma zero_run_split segs st len :
  zero_run segs (st, len) → segs = take st segs ++ replicate len zero_seg ++ drop (st + len) segs.
Proof.
  intros [Hle Hz]. simpl in *. rewrite <- (take_drop st segs) at 1. f_equal.
  rewrite <- (take_drop len (drop st segs)) at 1. rewrite drop_drop. f_equal.
  apply list_eq. intros j. destruct (decide (j < len)) as [Hj|Hj].
  - rewrite lookup_take_lt, lookup_drop, lookup_replicate_2 by lia. apply Hz. lia.
  - rewrite lookup_take_ge by lia. symmetry. apply lookup_replicate_None. lia.
Qed.

Lemma v6_of_to_segments a : v6_of_segments (v6_segments a) = Some a.
Proof. by destruct a. Qed.

Lemma to_ipv4_mapped_Some v6 v4 :
  to_ipv4_mapped v6 = Some v4 →
  v6_segments v6 = replicate 5 zero_seg ++
    [mkSeg xff xff; mkSeg (v4_a v4) (v4_b v4); mkSeg (v4_c v4) (v4_d v4)].
Proof.
  destruct v6 as [s0 s1 s2 s3 s4 s5 [? ?] [? ?]]. unfold to_ipv4_mapped. simpl.
  case_bool_decide as H; [|done]. intros [= <-]. by simplify_eq/=.
Qed.

(** The mapped form ends in a dotted IPv4 address, read as two groups. *)
Lemma read_mapped_tail v4 :
  read_groups 7 0 (bs "ffff:" ++ fmt_ipv4 v4) =
  ([mkSeg xff xff; mkSeg (v4_a v4) (v4_b v4); mkSeg (v4_c v4) (v4_d v4)], true, []).
Proof.
  change (bs "ffff:" ++ fmt_ipv4 v4) with (fmt_hex (mkSeg xff xff) ++ x3a :: fmt_ipv4 v4).
  cbn [read_groups]. unfold read_separator. simpl bool_decide. cbv iota. cbn [mbind option_bind].
  rewrite read_ipv4_hex by (auto using fmt_hex_digits; eauto).
  rewrite read_fmt_hex by done. cbn [mbind option_bind read_given_char].
  rewrite byte_is_refl. cbn [mbind option_bind].
  pose proof (read_fmt_ipv4 v4 [] I) as H. rewrite app_nil_r in H. rewrite H. reflexivity.
Qed.

(** The [Display] of an IPv6 address is read back, whichever form it takes: the
    mapped form, the compressed form or the plain form. *)
Lemma ipv6_text_roundtrip a : Ipv6Addr_from_str (fmt_ipv6 a) = Some a.
Proof.
  unfold Ipv6Addr_from_str, parse_with, read_ipv6_addr, fmt_ipv6.
  destruct (to_ipv4_mapped a) as [v4|] eqn:Hm.
  - change (bs "::ffff:" ++ fmt_ipv4 v4) with (x3a :: x3a :: bs "ffff:" ++ fmt_ipv4 v4).
    rewrite read_groups_none by (right; eauto). cbn [length app].
    rewrite bool_decide_false by done. cbn [read_given_char]. rewrite byte_is_refl.
    cbn [mbind option_bind read_given_char]. rewrite byte_is_refl. cbn [mbind option_bind].
    rewrite read_mapped_tail. cbn [length]. apply to_ipv4_mapped_Some in Hm.
    change (replicate (8 - 0 - 3) zero_seg) with (replicate 5 zero_seg). rewrite <- Hm.
    by rewrite v6_of_to_segments.
  - destruct (longest_zeros 0 (0, 0) (0, 0) (v6_segments a)) as [st len] eqn:Hl.
    assert (zero_run (v6_segments a) (st, len)) as Hrun.
    { rewrite <- Hl. apply (longest_zeros_run _ [] _); [done| | |by left].
      all: split; simpl; [lia|]; intros; lia. }
    pose proof (zero_run_split _ _ _ Hrun) as Hsplit. destruct Hrun as [Hle _].
    change (length (v6_segments a)) with 8 in Hle. simpl in Hle.
    case_bool_decide as Hlen.
    + set (h := take st (v6_segments a)) in *. set (t := drop (st + len) (v6_segments a)) in *.
      assert (length h = st) as Hh by (unfold h; rewrite length_take; simpl; lia).
      assert (length t = 8 - st - len) as Ht by (unfold t; rewrite length_drop; simpl; lia).
      change (bs "::" ++ fmt_subslice t) with (x3a :: x3a :: fmt_subslice t).
      rewrite !fmt_subslice_text, read_groups_text by (lia || (right; eauto)).
      rewrite bool_decide_false by lia. cbn [read_given_char]. rewrite byte_is_refl.
      cbn [mbind option_bind read_given_char]. rewrite byte_is_refl. cbn [mbind option_bind].
      pose proof (read_groups_text t (8 - (length h + 1)) 0 [] ltac:(lia) ltac:(by left)) as Hread.
      rewrite app_nil_r in Hread. rewrite Hread, Hh, Ht.
      replace (8 - st - (8 - st - len)) with len by lia. rewrite <- Hsplit.
      by rewrite v6_of_to_segments.
    + pose proof (read_groups_text (v6_segments a) 8 0 [] ltac:(simpl; lia) ltac:(by left)) as Hread.
      rewrite app_nil_r in Hread. rewrite fmt_subslice_text, Hread.
      rewrite bool_decide_true by done. by rewrite v6_of_to_segments.
Qed.

Lemma ipv4_text_roundtrip a : parse_with read_ipv4_addr (fmt_ipv4 a) = Some a.
Proof.
  unfold parse_with. pose proof (read_fmt_ipv4 a [] I) as H. rewrite app_nil_r in H. by rewrite H.
Qed.

(** The characters of a printed address: lower-case hexadecimal digits, dots
    and colons. *)
Definition addr_char (b : byte) : bool :=
  is_ascii_digit b || ((97 <=? bz b)%Z && (bz b <=? 102)%Z) || byte_is x2e b || byte_is x3a b.

Lemma addr_chars_join sep ps :
  addr_char sep = true → Forall (Forall (λ b, addr_char b = true)) ps →
  Forall (λ b, addr_char b = true) (join [sep] ps).
Proof.
  intros Hsep. induction 1 as [|p ps Hp Hps IH]; [constructor|].
  destruct ps as [|q ps]; [done|]. rewrite join_cons by done.
  apply Forall_app. split; [done|]. by constructor.
Qed.

Lemma hex_digit_char d : (0 ≤ d < 16)%Z → addr_char (hex_digit d) = true.
Proof.
  intros Hd. assert (d ∈ (Z.of_nat <$> seq 0 16)) as Hin.
  { apply list_elem_of_fmap. exists (Z.to_nat d). rewrite elem_of_seq. lia. }
  clear Hd. revert d Hin. apply Forall_forall. repeat constructor.
Qed.

Lemma fmt_hex_chars s : Forall (λ b, addr_char b = true) (fmt_hex s).
Proof.
  pose proof (seg_Z_range s). unfold fmt_hex.
  repeat case_match; breflect; repeat constructor; apply hex_digit_char;
    try (apply Z.mod_pos_bound; lia);
    (split; [apply Z.div_pos; lia|apply Z.div_lt_upper_bound; lia]) || lia.
Qed.

Lemma digit_addr_char b : is_ascii_digit b = true → addr_char b = true.
Proof. unfold addr_char. by intros ->. Qed.

Lemma show_uint_chars n : (0 ≤ n)%Z → Forall (λ b, addr_char b = true) (show_uint n).
Proof. intros Hn. eapply Forall_impl; [by apply show_uint_fuel_digits|apply digit_addr_char]. Qed.

Lemma fmt_ipv4_chars a : Forall (λ b, addr_char b = true) (fmt_ipv4 a).
Proof.
  apply addr_chars_join; [done|]. apply Forall_fmap, Forall_true. intros b.
  apply show_uint_chars, bz_range.
Qed.

Lemma fmt_subslice_chars segs : Forall (λ b, addr_char b = true) (fmt_subslice segs).
Proof. apply addr_chars_join; [done|]. apply Forall_fmap, Forall_true. apply fmt_hex_chars. Qed.

Lemma fmt_ip_chars ip : Forall (λ b, addr_char b = true) (fmt_ip ip).
Proof.
  destruct ip as [a|a]; [apply fmt_ipv4_chars|]. simpl. unfold fmt_ipv6. case_match.
  - apply Forall_app. split; [repeat constructor|apply fmt_ipv4_chars].
  - case_match. case_match; [|apply fmt_subslice_chars].
    apply Forall_app. split; [apply fmt_subslice_chars|].
    apply Forall_app. split; [repeat constructor|apply fmt_subslice_chars].
Qed.

Lemma fmt_octet_short b : length (fmt_octet b) ≤ 3.
Proof.
  apply Nat.leb_le. apply (forall_bytes (λ b, Nat.leb (length (fmt_octet b)) 3)). vm_compute. reflexivity.
Qed.

Lemma ipv4_from_str_fmt a : Ipv4Addr_from_str (fmt_ipv4 a) = Some a.
Proof.
  unfold Ipv4Addr_from_str. rewrite bool_decide_false; [apply ipv4_text_roundtrip|].
  destruct a as [a b c d]. unfold fmt_ipv4. simpl. rewrite !length_app.
  pose proof (fmt_octet_short a). pose proof (fmt_octet_short b). pose proof (fmt_octet_short c).
  pose proof (fmt_octet_short d). simpl. rewrite !length_app. simpl. rewrite !length_app. simpl. lia.
Qed.

Lemma elem_of_fmt_ipv4 b a : b ∈ fmt_ipv4 a → b = x2e ∨ is_ascii_digit b = true.
Proof.
  assert (∀ x, b ∈ fmt_octet x → is_ascii_digit b = true) as Hoct.
  { intros x Hb. pose proof (show_uint_fuel_digits 20 (bz x) ltac:(apply bz_range)) as H.
    rewrite Forall_forall in H. by apply H. }
  unfold fmt_ipv4. simpl. rewrite !elem_of_app, !elem_of_cons, !elem_of_app, !elem_of_cons, !elem_of_app, !elem_of_cons.
  naive_solver.
Qed.

(** [u16::to_be_bytes] and [from_be_bytes]. *)
Definition u16_to_be_bytes (z : Z) : str := [byte_of_Z (z / 256); byte_of_Z z].
Definition u16_from_be_bytes (hi lo : byte) : Z := (bz hi * 256 + bz lo)%Z.

Lemma u16_be_roundtrip z : is_u16 z → u16_from_be_bytes (byte_of_Z (z / 256)) (byte_of_Z z) = z.
Proof.
  unfold is_u16, u16_max, u16_from_be_bytes. intros Hz. rewrite !bz_byte_of_Z.
  rewrite (Z.mod_small (z / 256) 256) by (split; [apply Z.div_pos; lia|apply Z.div_lt_upper_bound; lia]).
  pose proof (Z.div_mod z 256). lia.
Qed.
Lemma u16_be_exact hi lo : u16_to_be_bytes (u16_from_be_bytes hi lo) = [hi; lo] ∧ is_u16 (u16_from_be_bytes hi lo).
Proof.
  pose proof (bz_range hi). pose proof (bz_range lo). unfold u16_to_be_bytes, u16_from_be_bytes, is_u16, u16_max. split; [|lia].
  rewrite Z.div_add_l, Z.div_small, Z.add_0_r, byte_of_Z_bz by lia. do 2 f_equal. apply (inj bz). rewrite bz_byte_of_Z.
  rewrite Z.add_comm, Z_mod_plus_full. apply Z.mod_small. lia.
Qed.
