(* ===== verification/Identity.v ===== *)
(** * Run-lineage identity (crates/hiloop-core/src/identity.rs)

    Run and event identifiers over the [ulid] crate, the materialized lineage
    path of a run with its parser, printer and ancestor order, the run context,
    and the process-local hybrid logical clock. *)
From Stdlib Require Import Strings.Byte Sorting.Sorted.
From S2P Require Import Prelude Text.

(** ** The [ulid] crate

    The crate is not part of the repository: its identifier type and its codec
    are parameters, and [UlidLaws] states its documented behaviour: printing
    gives a non-empty Crockford base32 text, which never holds a dot, and
    parsing reads a printed identifier back. *)
Class UlidLib := {
  Ulid : Type;
  ulid_eq_dec :: EqDecision Ulid;
  ulid_from_string : str → option Ulid;
  ulid_to_string : Ulid → str;
}.

Class UlidLaws (U : UlidLib) := {
  ulid_roundtrip (u : Ulid) : ulid_from_string (ulid_to_string u) = Some u;
  ulid_text_ne (u : Ulid) : ulid_to_string u ≠ [];
  ulid_no_dot (u : Ulid) : x2e ∉ ulid_to_string u;
}.

Section identity.
Context {U : UlidLib}.

(** ** Identifiers *)

Definition MAX_LINEAGE_PATH_DEPTH : Z := 128.
Definition LINEAGE_SEPARATOR : byte := x2e.

Inductive IdentityError :=
| InvalidUlid (field value : str)
| InvalidLineagePath (value reason : str)
| LineagePathTooDeep (depth max : Z).

Record RunId := mkRunId { run_ulid : Ulid }.
Record EventId := mkEventId { event_ulid : Ulid }.

#[export] Instance run_id_eq_dec : EqDecision RunId.
Proof. solve_decision. Defined.
#[export] Instance event_id_eq_dec : EqDecision EventId.
Proof. solve_decision. Defined.

Definition RunId_fmt (r : RunId) : str := ulid_to_string (run_ulid r).
Definition RunId_from_str (value : str) : result IdentityError RunId :=
  mkRunId <$> ok_or (ulid_from_string value) (InvalidUlid (bs "run_id") value).
Definition EventId_fmt (e : EventId) : str := ulid_to_string (event_ulid e).
Definition EventId_from_str (value : str) : result IdentityError EventId :=
  mkEventId <$> ok_or (ulid_from_string value) (InvalidUlid (bs "event_id") value).

(** ** Lineage paths *)

Record LineagePath := mkLineagePath { segments : list RunId }.

#[export] Instance lineage_path_eq_dec : EqDecision LineagePath.
Proof. solve_decision. Defined.

Definition LineagePath_root (run_id : RunId) : LineagePath := mkLineagePath [run_id].

Definition depth (p : LineagePath) : Z := Z.of_nat (length (segments p)).

Definition invalid_path {T} (value reason : str) : result IdentityError T :=
  Err (InvalidLineagePath value reason).

(** The loop over [value.split(LINEAGE_SEPARATOR)], with [segs] the segments
    pushed so far. *)
Fixpoint parse_components (value : str) (segs : list RunId) (components : list str)
  : result IdentityError (list RunId) :=
  match components with
  | [] => Ok segs
  | component :: components =>
      let depth := (Z.of_nat (length segs) + 1)%Z in
      if (MAX_LINEAGE_PATH_DEPTH <? depth)%Z
      then Err (LineagePathTooDeep depth MAX_LINEAGE_PATH_DEPTH)
      else match component with
           | [] => invalid_path value (bs "lineage path segments must not be empty")
           | _ =>
               run_id ← map_err
                 (λ _, InvalidLineagePath value (bs "lineage path segments must be run ULIDs"))
                 (mkRunId <$> ok_or (ulid_from_string component) tt);
               parse_components value (segs ++ [run_id]) components
           end
  end.

Definition parse_lineage_path (value : str) : result IdentityError (list RunId) :=
  match value with
  | [] => invalid_path value (bs "lineage path must not be empty")
  | _ =>
      if starts_with [LINEAGE_SEPARATOR] value || ends_with [LINEAGE_SEPARATOR] value
      then invalid_path value (bs "lineage path must not have leading or trailing separators")
      else parse_components value [] (split_on (byte_is LINEAGE_SEPARATOR) value)
  end.

Definition LineagePath_parse (value : str) : result IdentityError LineagePath :=
  mkLineagePath <$> parse_lineage_path value.

Definition LineagePath_child (p : LineagePath) (child : RunId) : result IdentityError LineagePath :=
  let depth := (depth p + 1)%Z in
  if (MAX_LINEAGE_PATH_DEPTH <? depth)%Z
  then Err (LineagePathTooDeep depth MAX_LINEAGE_PATH_DEPTH)
  else Ok (mkLineagePath (segments p ++ [child])).

(** [None] is the panic of [expect] on an empty path. *)
Definition LineagePath_run_id (p : LineagePath) : option RunId := last (segments p).

Definition is_ancestor_of (p q : LineagePath) : bool := starts_with (segments p) (segments q).

(** The [Display] loop: a separator before every segment but the first. *)
Fixpoint fmt_segments (index : nat) (segs : list RunId) : str :=
  match segs with
  | [] => []
  | run_id :: segs =>
      (if bool_decide (0 < index) then [LINEAGE_SEPARATOR] else [])
      ++ RunId_fmt run_id ++ fmt_segments (S index) segs
  end.
Definition LineagePath_fmt (p : LineagePath) : str := fmt_segments 0 (segments p).

(** [Serialize] writes the [Display] text; [Deserialize] parses it. *)
Definition LineagePath_serialize (p : LineagePath) : str := LineagePath_fmt p.
Definition LineagePath_deserialize (value : str) : result IdentityError LineagePath :=
  LineagePath_parse value.

(** ** Run context

    A freshly minted identifier is an argument ([minted]). *)
Record RunContext := mkRunContext { ctx_run_id : RunId; ctx_lineage_path : LineagePath }.

#[export] Instance RunContext_eq_dec : EqDecision RunContext.
Proof. solve_decision. Defined.

Definition RunContext_new_local_root (minted : RunId) : RunContext :=
  mkRunContext minted (LineagePath_root minted).

Definition RunContext_new (run_id : RunId) (path : LineagePath)
  : option (result IdentityError RunContext) :=
  leaf ← LineagePath_run_id path;
  Some (if decide (leaf ≠ run_id)
        then Err (InvalidLineagePath (LineagePath_fmt path)
                    (bs "lineage path leaf must equal run_id"))
        else Ok (mkRunContext run_id path)).

Definition RunContext_child (ctx : RunContext) (minted : RunId) : result IdentityError RunContext :=
  path ← LineagePath_child (ctx_lineage_path ctx) minted;
  Ok (mkRunContext minted path).

(** The invariant every constructor keeps: between one and
    [MAX_LINEAGE_PATH_DEPTH] segments; for a context, the leaf is the run. *)
Definition path_wf (p : LineagePath) : Prop := (1 ≤ depth p ≤ MAX_LINEAGE_PATH_DEPTH)%Z.
Definition ctx_wf (c : RunContext) : Prop :=
  path_wf (ctx_lineage_path c) ∧ LineagePath_run_id (ctx_lineage_path c) = Some (ctx_run_id c).
End identity.

(** ** Hybrid logical clock *)

Record Hlc := mkHlc { wall_ns : Z; logical : Z }.

#[export] Instance hlc_eq_dec : EqDecision Hlc.
Proof. solve_decision. Defined.

(** The derived [Ord]: lexicographic on the fields. *)
Definition hlc_lt (a b : Hlc) : Prop :=
  (wall_ns a < wall_ns b ∨ wall_ns a = wall_ns b ∧ logical a < logical b)%Z.

Definition hlc_wf (h : Hlc) : Prop := is_u64 (wall_ns h) ∧ is_u32 (logical h).

Definition increment_at_wall (wall_ns logical : Z) : Hlc :=
  if (logical =? u32_max)%Z
  then mkHlc (saturating_add u64_max wall_ns 1) 0
  else mkHlc wall_ns (logical + 1).

Definition increment_logical (hlc : Hlc) : Hlc := increment_at_wall (wall_ns hlc) (logical hlc).

(** The value of [unix_time_ns]: [since_epoch] is the duration since the Unix
    epoch in nanoseconds, [None] when the system time is before it. *)
Definition unix_time_ns (since_epoch : option Z) : Z :=
  let nanos := default 0%Z since_epoch in
  if (nanos <=? u64_max)%Z then nanos else u64_max.

(** The clock's state is the last timestamp issued; each operation returns the
    next one, which it also stores. *)
Definition tick_with_wall_ns (last : option Hlc) (wall : Z) : Hlc :=
  match last with
  | Some last => if (wall_ns last <? wall)%Z then mkHlc wall 0 else increment_logical last
  | None => mkHlc wall 0
  end.

Definition observe_with_wall_ns (last : option Hlc) (remote : Hlc) (wall : Z) : Hlc :=
  match last with
  | Some last =>
      let max_wall := Z.max (Z.max wall (wall_ns last)) (wall_ns remote) in
      if (max_wall =? wall_ns last)%Z && (max_wall =? wall_ns remote)%Z
      then increment_at_wall max_wall (Z.max (logical last) (logical remote))
      else if (max_wall =? wall_ns last)%Z then increment_at_wall max_wall (logical last)
      else if (max_wall =? wall_ns remote)%Z then increment_at_wall max_wall (logical remote)
      else mkHlc max_wall 0
  | None =>
      if (wall_ns remote <? wall)%Z then mkHlc wall 0
      else increment_at_wall (wall_ns remote) (logical remote)
  end.

(** One operation of the clock, serialized by its mutex, and a run of them:
    the timestamps issued, oldest first. *)
Inductive clock_op :=
| Tick (wall : Z)
| Observe (remote : Hlc) (wall : Z).

Definition clock_step (last : option Hlc) (op : clock_op) : Hlc :=
  match op with
  | Tick wall => tick_with_wall_ns last wall
  | Observe remote wall => observe_with_wall_ns last remote wall
  end.

Fixpoint clock_run (last : option Hlc) (ops : list clock_op) : list Hlc :=
  match ops with
  | [] => []
  | op :: ops => let next := clock_step last op in next :: clock_run (Some next) ops
  end.

(** The readings of an operation are machine values with a wall time at most [W]. *)
Definition op_wall_le (W : Z) (op : clock_op) : Prop :=
  match op with
  | Tick wall => (0 ≤ wall ≤ W)%Z
  | Observe remote wall => (0 ≤ wall ≤ W)%Z ∧ hlc_wf remote ∧ (wall_ns remote ≤ W)%Z
  end.

(** ** Lineage-path lemmas *)

Section identity_lemmas.
Context {U : UlidLib} {UL : UlidLaws U}.

Lemma fmt_segments_S n segs :
  segs ≠ [] → fmt_segments (S n) segs = LINEAGE_SEPARATOR :: fmt_segments 0 segs.
Proof.
  destruct segs as [|r segs]; [done|]. intros _. simpl. f_equal. f_equal.
  assert (∀ i j, fmt_segments (S i) segs = fmt_segments (S j) segs) as H; [|by apply H].
  induction segs as [|s segs IH]; intros i j; [done|]. simpl.
  by rewrite (IH (S i) (S j)).
Qed.

(** [Display] joins the printed segments with dots. *)
Lemma fmt_join segs : fmt_segments 0 segs = join [LINEAGE_SEPARATOR] (RunId_fmt <$> segs).
Proof.
  induction segs as [|r segs IH]; [done|]. destruct segs as [|s segs].
  - simpl. by rewrite app_nil_r.
  - change (fmt_segments 0 (r :: s :: segs)) with (RunId_fmt r ++ fmt_segments 1 (s :: segs)).
    rewrite fmt_segments_S, IH by done. by rewrite (fmap_cons _ r), join_cons.
Qed.

Lemma run_id_text_free (r : RunId) : Forall (λ b, byte_is LINEAGE_SEPARATOR b = false) (RunId_fmt r).
Proof.
  apply Forall_forall. intros b Hb. apply byte_is_false. intros ->.
  by apply (ulid_no_dot (run_ulid r)).
Qed.

Lemma run_id_text_ne (r : RunId) : RunId_fmt r ≠ [].
Proof. apply ulid_text_ne. Qed.

Lemma parse_components_Ok value segs comps out :
  parse_components value segs comps = Ok out →
  ∃ new, out = segs ++ new ∧
    Forall2 (λ c r, c ≠ [] ∧ ulid_from_string c = Some (run_ulid r)) comps new ∧
    (comps = [] ∨ Z.of_nat (length out) ≤ MAX_LINEAGE_PATH_DEPTH)%Z.
Proof.
  revert segs. induction comps as [|c comps IH]; intros segs; simpl.
  { intros [= <-]. exists []. rewrite app_nil_r. auto using Forall2_nil_2. }
  case_match eqn:Hd; [done|]. breflect.
  destruct c as [|b c]; [done|].
  destruct (ulid_from_string (b :: c)) as [u|] eqn:Hu; [|done]. simpl. intros H.
  destruct (IH _ H) as (new & -> & Hnew & Hlen).
  exists (mkRunId u :: new). rewrite <- app_assoc. split_and!; [done| |].
  - by constructor.
  - right. destruct Hlen as [->|?]; [|by rewrite <- app_assoc in *].
    apply Forall2_nil_inv_l in Hnew as ->. rewrite length_app. simpl. lia.
Qed.

Lemma parse_components_fmt value segs rest :
  (Z.of_nat (length segs + length rest) ≤ MAX_LINEAGE_PATH_DEPTH)%Z →
  parse_components value segs (RunId_fmt <$> rest) = Ok (segs ++ rest).
Proof.
  revert segs. induction rest as [|r rest IH]; intros segs Hlen; simpl.
  { by rewrite app_nil_r. }
  simpl in Hlen. case_match eqn:Hd; breflect; [unfold MAX_LINEAGE_PATH_DEPTH in *; lia|].
  destruct (RunId_fmt r) as [|b c] eqn:Hr; [by apply run_id_text_ne in Hr|].
  assert (ulid_from_string (b :: c) = Some (run_ulid r)) as ->.
  { rewrite <- Hr. apply ulid_roundtrip. }
  simpl.
  rewrite IH by (rewrite length_app; simpl; lia).
  rewrite <- app_assoc. by destruct r.
Qed.

Lemma head_join_no_sep ps :
  ps ≠ [] → Forall (λ p, p ≠ [] ∧ Forall (λ b, byte_is LINEAGE_SEPARATOR b = false) p) ps →
  join [LINEAGE_SEPARATOR] ps ≠ [] ∧
  starts_with [LINEAGE_SEPARATOR] (join [LINEAGE_SEPARATOR] ps) = false ∧
  ends_with [LINEAGE_SEPARATOR] (join [LINEAGE_SEPARATOR] ps) = false.
Proof.
  intros Hne Hps. unfold starts_with, ends_with. rewrite !bool_decide_eq_false.
  induction Hps as [|p ps [Hp Hfree] Hps IH]; [done|].
  destruct p as [|b p]; [done|]. apply Forall_cons in Hfree as [Hb Hfree].
  apply byte_is_false in Hb.
  assert (∀ l, ¬ [LINEAGE_SEPARATOR] `prefix_of` (b :: l)) as Hstart.
  { intros l [k Hk]. simpl in Hk. congruence. }
  destruct ps as [|q ps].
  - simpl. split_and!; [done|apply Hstart|]. intros [k Hk].
    assert (LINEAGE_SEPARATOR ∈ b :: p) as Hin by (rewrite Hk; set_solver).
    apply elem_of_cons in Hin as [?|Hin]; [congruence|].
    rewrite Forall_forall in Hfree. apply Hfree in Hin. by rewrite byte_is_refl in Hin.
  - rewrite join_cons by done. split_and!; [done|apply Hstart|].
    destruct (IH ltac:(done)) as (Hj & _ & Hend). intros [k Hk]. apply Hend.
    destruct (exists_last Hj) as (j & y & Hy). rewrite Hy in Hk |- *.
    rewrite !app_assoc in Hk. apply app_inj_tail in Hk as [_ ->]. by exists j.
Qed.
End identity_lemmas.

(** Parsing the printed form of a lineage path restores the path, for every
    path the constructors can build (one to [MAX_LINEAGE_PATH_DEPTH] segments):
    the serialized form loses nothing and needs no escaping. *)
Theorem lineage_path_roundtrip {U : UlidLib} {UL : UlidLaws U} (p : LineagePath) :
  path_wf p → LineagePath_deserialize (LineagePath_serialize p) = Ok p.
Proof.
  destruct p as [segs]. intros [H1 H2]. unfold depth in *. simpl in *.
  unfold LineagePath_deserialize, LineagePath_serialize, LineagePath_parse, LineagePath_fmt.
  simpl. rewrite fmt_join. destruct (head_join_no_sep (RunId_fmt <$> segs)) as (Hne & Hs & He).
  { destruct segs; simpl in *; [lia|done]. }
  { apply Forall_fmap, Forall_true. intros r. split; [apply run_id_text_ne|apply run_id_text_free]. }
  unfold parse_lineage_path. destruct (join _ _) as [|b j] eqn:Hj; [done|].
  rewrite Hs, He. simpl orb. cbv iota. rewrite <- Hj, split_on_join.
  - rewrite parse_components_fmt by (simpl; lia). done.
  - destruct segs; simpl in *; [lia|done].
  - apply Forall_fmap, Forall_true. apply run_id_text_free.
Qed.

(** Every accepted text denotes a well-formed path: the parser never
    returns an empty path nor one deeper than the limit, the number of segments
    is the number of dot-separated components, and each segment is the
    identifier its component denotes. *)
Theorem lineage_path_parse_sound {U : UlidLib} (value : str) (p : LineagePath) :
  LineagePath_parse value = Ok p →
  path_wf p ∧
  Forall2 (λ c r, c ≠ [] ∧ ulid_from_string c = Some (run_ulid r))
    (split_on (byte_is LINEAGE_SEPARATOR) value) (segments p).
Proof.
  unfold LineagePath_parse. intros H. inv_ok. unfold parse_lineage_path in H.
  destruct value as [|b value]; [done|]. case_match; [done|].
  apply parse_components_Ok in H as (new & -> & Hall & Hlen). simpl in *.
  pose proof (split_on_ne (byte_is LINEAGE_SEPARATOR) (b :: value)) as Hne. simpl in Hne.
  destruct Hlen as [?|Hlen]; [done|]. split; [|done].
  pose proof (Forall2_length _ _ _ Hall) as Hl. unfold path_wf, depth. simpl.
  destruct new; simpl in *; [|lia]. by apply length_zero_iff_nil in Hl.
Qed.

Section ancestor_lemmas.
Context {U : UlidLib} {UL : UlidLaws U}.

Lemma is_ancestor_of_spec p q : is_ancestor_of p q = true ↔ segments p `prefix_of` segments q.
Proof. apply bool_decide_eq_true. Qed.

#[export] Instance RunId_fmt_inj : Inj (=) (=) RunId_fmt.
Proof.
  intros [u] [v] H. unfold RunId_fmt in H. simpl in H. f_equal.
  apply (f_equal ulid_from_string) in H. rewrite !ulid_roundtrip in H. by simplify_eq.
Qed.

Lemma prefix_snoc_iff {A} (l k : list A) x : l `prefix_of` k ++ [x] ↔ l = k ++ [x] ∨ l `prefix_of` k.
Proof.
  split.
  - intros [r Hr]. destruct r as [|y r _] using rev_ind.
    + left. by rewrite app_nil_r in Hr.
    + right. rewrite app_assoc in Hr. apply app_inj_tail in Hr as [-> _]. by exists r.
  - intros [->|H]; [done|]. by apply prefix_app_r.
Qed.

Lemma path_wf_ne p : path_wf p → segments p ≠ [].
Proof. destruct p as [[|r segs]]; unfold path_wf, depth; simpl; [lia|done]. Qed.

Lemma path_texts_free (segs : list RunId) :
  Forall (Forall (λ b, byte_is LINEAGE_SEPARATOR b = false)) (RunId_fmt <$> segs).
Proof. apply Forall_fmap, Forall_true, run_id_text_free. Qed.
End ancestor_lemmas.

(** Deriving a child run extends the path by exactly the child: the result
    is well formed, one deeper, addresses the child, and its ancestors are
    itself and the ancestors of its parent; the only error is the depth limit,
    and it is raised exactly when the parent is at the limit. *)
Theorem lineage_child_spec {U : UlidLib} (p : LineagePath) (r : RunId) :
  path_wf p →
  match LineagePath_child p r with
  | Ok q =>
      path_wf q ∧ depth q = (depth p + 1)%Z ∧ LineagePath_run_id q = Some r ∧
      is_ancestor_of q p = false ∧
      ∀ a, is_ancestor_of a q = true ↔ a = q ∨ is_ancestor_of a p = true
  | Err e => e = LineagePathTooDeep (MAX_LINEAGE_PATH_DEPTH + 1) MAX_LINEAGE_PATH_DEPTH ∧
             depth p = MAX_LINEAGE_PATH_DEPTH
  end.
Proof.
  intros [H1 H2]. unfold LineagePath_child. cbv zeta. destruct (_ <? _)%Z eqn:Hd; breflect.
  { assert (depth p = MAX_LINEAGE_PATH_DEPTH) as -> by lia. done. }
  unfold path_wf, LineagePath_run_id, is_ancestor_of, starts_with, depth in *. simpl.
  rewrite length_app, last_snoc. simpl. split_and!; [lia|lia|lia|done| |].
  - apply bool_decide_eq_false. intros Hp%prefix_length. rewrite length_app in Hp. simpl in Hp. lia.
  - intros [a]. rewrite !bool_decide_eq_true, prefix_snoc_iff. simpl. naive_solver.
Qed.

(** The serialized path is prefix-addressable: a run is an ancestor of (or
    the same run as) another exactly when its text equals the other's or is the
    other's up to a separator, so no identifier can be mistaken for a longer
    one. *)
Theorem lineage_prefix_addressable {U : UlidLib} {UL : UlidLaws U} (p q : LineagePath) :
  path_wf p → path_wf q →
  is_ancestor_of p q = true ↔
  LineagePath_fmt p = LineagePath_fmt q ∨
  (LineagePath_fmt p ++ [LINEAGE_SEPARATOR]) `prefix_of` LineagePath_fmt q.
Proof.
  intros Hp%path_wf_ne Hq%path_wf_ne. rewrite is_ancestor_of_spec.
  unfold LineagePath_fmt. rewrite !fmt_join.
  destruct p as [ps], q as [qs]; simpl in *. set (T := RunId_fmt).
  assert (T <$> ps ≠ []) as Hps by (by destruct ps).
  assert (T <$> qs ≠ []) as Hqs by (by destruct qs).
  split.
  - intros [ks ->]. destruct ks as [|k ks]; [left; by rewrite app_nil_r|right].
    exists (join [LINEAGE_SEPARATOR] (T <$> k :: ks)).
    by rewrite fmap_app, join_app, <- app_assoc.
  - intros [Heq|[rest Hrest]].
    + apply (f_equal (split_on (byte_is LINEAGE_SEPARATOR))) in Heq.
      rewrite !split_on_join in Heq by (done || apply path_texts_free).
      apply (inj (fmap T)) in Heq as ->. done.
    + rewrite <- app_assoc in Hrest. simpl in Hrest.
      apply (f_equal (split_on (byte_is LINEAGE_SEPARATOR))) in Hrest.
      rewrite split_on_join_app, split_on_join in Hrest by (done || apply path_texts_free).
      apply fmap_app_inv in Hrest as (l1 & l2 & H1 & _ & ->).
      apply (inj (fmap T)) in H1 as ->. by exists l2.
Qed.

(** ** Clock lemmas *)

Lemma increment_at_wall_spec w l :
  is_u64 w → (w < u64_max)%Z → is_u32 l →
  hlc_wf (increment_at_wall w l) ∧ hlc_lt (mkHlc w l) (increment_at_wall w l) ∧
  (w ≤ wall_ns (increment_at_wall w l) ≤ w + 1)%Z.
Proof.
  unfold hlc_wf, hlc_lt, is_u64, is_u32, increment_at_wall, saturating_add. intros.
  case_match; breflect; simpl; unfold u32_max, u64_max in *; lia.
Qed.

Lemma op_wall_le_mono W W' op : (W ≤ W')%Z → op_wall_le W op → op_wall_le W' op.
Proof. destruct op; simpl; intuition lia. Qed.

Ltac hlc_solve :=
  unfold hlc_wf, hlc_lt, is_u64, is_u32, u64_max, u32_max in *; simpl in *;
  split_and?; intros; simplify_eq; lia.

(** The lower bound an operation must exceed: what was issued, and what was observed. *)
Definition op_remote (op : clock_op) : option Hlc :=
  match op with Tick _ => None | Observe remote _ => Some remote end.

Lemma clock_step_spec B last op :
  (B < u64_max)%Z → op_wall_le B op →
  (∀ l, last = Some l → hlc_wf l ∧ (wall_ns l ≤ B)%Z) →
  let next := clock_step last op in
  hlc_wf next ∧ (wall_ns next ≤ B + 1)%Z ∧
  (∀ l, last = Some l → hlc_lt l next) ∧
  (∀ r, op_remote op = Some r → hlc_lt r next).
Proof.
  intros HB Hop Hlast.
  destruct op as [wall|remote wall]; simpl in *.
  - unfold tick_with_wall_ns, increment_logical. destruct last as [l|]; [|hlc_solve].
    destruct (Hlast _ eq_refl) as [[??] ?]. case_match; breflect; [hlc_solve|].
    destruct (increment_at_wall_spec (wall_ns l) (logical l)) as (?&?&?); [done|lia|done|hlc_solve].
  - destruct Hop as (Hw & [Hr1 Hr2] & Hr). unfold observe_with_wall_ns. destruct last as [l|].
    + destruct (Hlast _ eq_refl) as [[Hl1 Hl2] Hl].
      assert (is_u32 (Z.max (logical l) (logical remote))) by (unfold is_u32 in *; lia).
      assert (is_u64 (Z.max (Z.max wall (wall_ns l)) (wall_ns remote))) by (unfold is_u64 in *; lia).
      assert (Z.max (Z.max wall (wall_ns l)) (wall_ns remote) < u64_max)%Z by lia.
      repeat case_match; breflect; try hlc_solve.
      all: match goal with |- context [increment_at_wall ?w ?l] =>
             destruct (increment_at_wall_spec w l) as (?&?&?); [done|done|done|hlc_solve] end.
    + case_match; breflect; [hlc_solve|].
      destruct (increment_at_wall_spec (wall_ns remote) (logical remote)) as (?&?&?);
        [done|lia|done|hlc_solve].
Qed.

Lemma clock_run_length last ops : length (clock_run last ops) = length ops.
Proof. revert last. induction ops as [|op ops IH]; intros last; simpl; [done|]. by rewrite IH. Qed.

Lemma clock_run_spec W last ops :
  Forall (op_wall_le W) ops → (W + Z.of_nat (length ops) ≤ u64_max)%Z →
  (∀ l, last = Some l → hlc_wf l ∧ (wall_ns l ≤ W)%Z) →
  StronglySorted hlc_lt (clock_run last ops) ∧ Forall hlc_wf (clock_run last ops) ∧
  (∀ l, last = Some l → Forall (hlc_lt l) (clock_run last ops)) ∧
  Forall2 (λ op next, ∀ r, op_remote op = Some r → hlc_lt r next) ops (clock_run last ops).
Proof.
  revert W last. induction ops as [|op ops IH]; intros W last Hops Hlen Hlast; simpl in *.
  { split_and!; auto using SSorted_nil, Forall_nil_2, Forall2_nil_2. }
  apply Forall_cons in Hops as [Hop Hops].
  destruct (clock_step_spec W last op) as (Hwf & Hle & Hlt & Hrem); [lia|done|done|].
  set (next := clock_step last op) in *.
  destruct (IH (W + 1)%Z (Some next)) as (Hsort & Hall & Hafter & Hobs).
  { eapply Forall_impl; [done|]. intros ? ?. eapply op_wall_le_mono; [|done]. lia. }
  { lia. }
  { naive_solver. }
  specialize (Hafter _ eq_refl). split_and!.
  - by constructor.
  - by constructor.
  - intros l Hl. constructor; [by apply Hlt|].
    eapply Forall_impl; [exact Hafter|]. intros h. specialize (Hlt _ Hl). hlc_solve.
  - by constructor.
Qed.

(** C39: hybrid logical clock.  However ticks and observations interleave and
    however the wall clock jumps backwards, every timestamp the clock issues is
    a machine value, strictly later than every earlier one and strictly later
    than the remote timestamp it observed, as long as no reading comes within
    [length ops] of the last representable nanosecond. *)
Theorem hlc_clock_causal (W : Z) (ops : list clock_op) :
  Forall (op_wall_le W) ops → (W + Z.of_nat (length ops) ≤ u64_max)%Z →
  StronglySorted hlc_lt (clock_run None ops) ∧ Forall hlc_wf (clock_run None ops) ∧
  Forall2 (λ op next, ∀ r, op_remote op = Some r → hlc_lt r next) ops (clock_run None ops).
Proof. intros Hops Hlen. destruct (clock_run_spec W None ops) as (?&?&?&?); done. Qed.

(** At the very end of the range the carry saturates: the timestamp after the
    last representable one is earlier than it. *)
Lemma hlc_saturation_regresses :
  let last := mkHlc u64_max u32_max in
  hlc_wf last ∧ hlc_lt (tick_with_wall_ns (Some last) u64_max) last.
Proof. unfold hlc_wf, hlc_lt, is_u64, is_u32. vm_compute. intuition congruence. Qed.

Lemma hlc_clock_causal_witness :
  let ops := [Tick 100; Tick 90; Observe (mkHlc 200 7) 95; Observe (mkHlc 200 u32_max) 95; Tick 201] in
  clock_run None ops =
    [mkHlc 100 0; mkHlc 100 1; mkHlc 200 8; mkHlc 201 0; mkHlc 201 1] ∧
  StronglySorted hlc_lt (clock_run None ops).
Proof.
  split; [reflexivity|].
  apply (hlc_clock_causal 201); [|vm_compute; discriminate].
  repeat constructor; unfold is_u64, is_u32; vm_compute; discriminate.
Defined.

(** ** A concrete identifier codec

    Identifiers as their 26 Crockford base32 digits, the first at most 7 (128
    bits): an instance of the [ulid] interface on which the statements above
    are evaluated. *)
Module CrockfordUlid.

Definition alphabet : str := bs "0123456789ABCDEFGHJKMNPQRSTVWXYZ".
Definition enc_digit (d : nat) : byte := default x30 (alphabet !! d).
Definition dec_digit (b : byte) : option nat := position (λ c, (bz b =? bz c)%Z) alphabet.

Definition valid (ds : list nat) : bool :=
  (length ds =? 26)%nat && forallb (λ d, d <? 32)%nat ds && (nth 0 ds 0 <? 8)%nat.

Record u128 := mkU128 { digits : list nat; digits_ok : valid digits = true }.

Lemma u128_eq a b : digits a = digits b → a = b.
Proof.
  destruct a as [a Ha], b as [b Hb]. simpl. intros ->. f_equal.
  apply Eqdep_dec.UIP_dec, Bool.bool_dec.
Qed.

#[global] Instance u128_eq_dec : EqDecision u128.
Proof.
  intros a b. destruct (decide (digits a = digits b)) as [H|H].
  - left. by apply u128_eq.
  - right. congruence.
Defined.

Definition of_digits (ds : list nat) : option u128 :=
  match Bool.bool_dec (valid ds) true with left H => Some (mkU128 ds H) | right _ => None end.

Definition from_string (s : str) : option u128 := mapM dec_digit s ≫= of_digits.
Definition to_string (u : u128) : str := enc_digit <$> digits u.

Lemma dec_enc_digit d : d < 32 → dec_digit (enc_digit d) = Some d.
Proof.
  intros Hd. assert (d ∈ seq 0 32) as Hin by (apply elem_of_seq; lia).
  assert (Forall (λ n, dec_digit (enc_digit n) = Some n) (seq 0 32)) as Hall by by_compute.
  rewrite Forall_forall in Hall. by apply Hall.
Qed.

Lemma valid_spec ds : valid ds = true → length ds = 26 ∧ Forall (λ d, d < 32) ds.
Proof.
  unfold valid. rewrite !andb_true_iff, forallb_forall. intros [[Hlen Hall] _].
  split; [by apply Nat.eqb_eq|]. apply Forall_forall. intros d Hd.
  apply Nat.ltb_lt, Hall. by apply list_elem_of_In.
Qed.

Lemma mapM_dec_enc ds : Forall (λ d, d < 32) ds → mapM dec_digit (enc_digit <$> ds) = Some ds.
Proof.
  induction 1 as [|d ds Hd _ IH]; [done|]. rewrite fmap_cons. cbn [mapM].
  by rewrite dec_enc_digit, IH.
Qed.
End CrockfordUlid.

Definition crockford_ulid : UlidLib := {|
  Ulid := CrockfordUlid.u128;
  ulid_from_string := CrockfordUlid.from_string;
  ulid_to_string := CrockfordUlid.to_string;
|}.

Lemma crockford_ulid_laws : UlidLaws crockford_ulid.
Proof.
  split; simpl; unfold CrockfordUlid.to_string.
  - intros [ds Hds]. destruct (CrockfordUlid.valid_spec _ Hds) as [Hlen Hall].
    unfold CrockfordUlid.from_string. simpl. rewrite CrockfordUlid.mapM_dec_enc by done.
    cbn [mbind option_bind]. unfold CrockfordUlid.of_digits.
    destruct (Bool.bool_dec _ _) as [Hok|Hok]; [|by destruct Hok].
    f_equal. by apply CrockfordUlid.u128_eq.
  - intros [ds Hds] Hnil. destruct (CrockfordUlid.valid_spec _ Hds) as [Hlen _].
    simpl in Hnil. apply fmap_nil_inv in Hnil as ->. done.
  - intros [ds Hds] (d & Hd & Hin)%list_elem_of_fmap. simpl in Hin.
    destruct (CrockfordUlid.valid_spec _ Hds) as [_ Hall]. rewrite Forall_forall in Hall.
    pose proof (CrockfordUlid.dec_enc_digit d (Hall _ Hin)) as Hdec. rewrite <- Hd in Hdec. by vm_compute in Hdec.
Qed.

(** The identifier whose last digits are [ds], for the concrete instance. *)
Definition sample_run (ds : list nat) : @RunId crockford_ulid :=
  mkRunId (U := crockford_ulid)
    (default (CrockfordUlid.mkU128 (replicate 26 0) eq_refl)
       (CrockfordUlid.of_digits (replicate (26 - length ds) 0 ++ ds))).
Definition sample_path : @LineagePath crockford_ulid := mkLineagePath [sample_run [7]; sample_run [12; 1; 25]].

Lemma lineage_path_roundtrip_witness :
  LineagePath_deserialize (LineagePath_serialize sample_path) = Ok sample_path.
Proof.
  apply (@lineage_path_roundtrip crockford_ulid crockford_ulid_laws sample_path).
  split; vm_compute; discriminate.
Defined.

Lemma lineage_path_parse_sound_witness :
  path_wf (U := crockford_ulid) (mkLineagePath [sample_run [7]; sample_run [12; 1; 25]]).
Proof.
  apply (lineage_path_parse_sound (U := crockford_ulid)
    (bs "00000000000000000000000007.00000000000000000000000C1S")).
  vm_compute. reflexivity.
Defined.

Lemma lineage_child_spec_witness :
  let q := mkLineagePath (segments sample_path ++ [sample_run [3; 3]]) in
  path_wf sample_path ∧ LineagePath_child sample_path (sample_run [3; 3]) = Ok q ∧
  is_ancestor_of q sample_path = false.
Proof.
  assert (path_wf sample_path) as Hwf by (split; vm_compute; discriminate).
  pose proof (lineage_child_spec sample_path (sample_run [3; 3]) Hwf) as H.
  split; [exact Hwf|]. split; [reflexivity|].
  change (LineagePath_child sample_path (sample_run [3; 3]))
    with (@Ok (@IdentityError) _ (mkLineagePath (segments sample_path ++ [sample_run [3; 3]]))) in H.
  exact (proj1 (proj2 (proj2 (proj2 H)))).
Defined.

Lemma lineage_prefix_addressable_witness :
  is_ancestor_of (mkLineagePath [sample_run [7]]) sample_path = true ∧
  (LineagePath_fmt (mkLineagePath [sample_run [7]]) = LineagePath_fmt sample_path ∨
   (LineagePath_fmt (mkLineagePath [sample_run [7]]) ++ [LINEAGE_SEPARATOR])
     `prefix_of` LineagePath_fmt sample_path).
Proof.
  split; [vm_compute; reflexivity|].
  apply (@lineage_prefix_addressable crockford_ulid crockford_ulid_laws);
    [split; vm_compute; discriminate|split; vm_compute; discriminate|vm_compute; reflexivity].
Defined.
