(* ===== verification/Event.v ===== *)
(** * The telemetry event schema (crates/hiloop-core/src/event.rs)

    Validated text newtypes, scalar attribute values, payload references and
    the run-lineage-stamped event with its builder operations. *)
From Stdlib Require Import Strings.Byte SpecFloat.
From S2P Require Import Prelude Text Identity.

(** ** Validated text

    The macro [impl_non_empty_text] gives the four newtypes the same
    operations; [text k] is the newtype of kind [k]. *)
Inductive text_kind := AttributeKeyK | EventNameK | PayloadDigestK | MediaTypeK.

Definition text_field (k : text_kind) : str :=
  match k with
  | AttributeKeyK => bs "attribute key"
  | EventNameK => bs "event name"
  | PayloadDigestK => bs "payload digest"
  | MediaTypeK => bs "media type"
  end.

Record text (k : text_kind) := mkText { as_str : str }.
Arguments mkText {k} _.
Arguments as_str {k} _.

Definition AttributeKey := text AttributeKeyK.
Definition EventName := text EventNameK.
Definition PayloadDigest := text PayloadDigestK.
Definition MediaType := text MediaTypeK.

#[export] Instance text_eq_dec k : EqDecision (text k).
Proof. solve_decision. Defined.
#[export] Instance text_countable k : Countable (text k) :=
  inj_countable' as_str mkText (λ '(mkText s), eq_refl).

(** An [f64] is an IEEE binary64 value. *)
Abbreviation f64 := spec_float.
#[export] Instance f64_eq_dec : EqDecision f64.
Proof. solve_decision. Defined.

Inductive EventError :=
| BlankText (field : str)
| NonFiniteFloat (value : f64).

Definition text_new (k : text_kind) (value : str) : result EventError (text k) :=
  if is_blank value then Err (BlankText (text_field k)) else Ok (mkText value).

(** [from_static]: [None] is the panic on a blank constant. *)
Definition from_static (k : text_kind) (value : str) : option (text k) :=
  if is_blank value then None else Some (mkText value).

(** The constant itself, for the constants checked by [from_static_literal]. *)
Definition lit (k : text_kind) (s : string) : text k := mkText (bs s).
Arguments lit : simpl never.
Abbreviation key s := (lit AttributeKeyK s).
Abbreviation name s := (lit EventNameK s).

Definition text_serialize {k} (t : text k) : str := as_str t.
Definition text_deserialize (k : text_kind) (s : str) : result EventError (text k) := text_new k s.

(** ** Scalar values *)

Record FiniteF64 := mkFiniteF64 { as_f64 : f64 }.

Definition is_finite (value : f64) : bool :=
  match value with
  | S754_zero _ | S754_finite _ _ _ => true
  | S754_infinity _ | S754_nan => false
  end.

Definition FiniteF64_new (value : f64) : result EventError FiniteF64 :=
  if is_finite value then Ok (mkFiniteF64 value) else Err (NonFiniteFloat value).

Inductive AttributeValue :=
| AString (s : str)
| AI64 (z : Z)
| AF64 (f : FiniteF64)
| ABool (b : bool).

Definition AttributeValue_try_from_f64 (value : f64) : result EventError AttributeValue :=
  AF64 <$> FiniteF64_new value.

#[export] Instance FiniteF64_eq_dec : EqDecision FiniteF64.
Proof. solve_decision. Defined.
#[export] Instance AttributeValue_eq_dec : EqDecision AttributeValue.
Proof. solve_decision. Defined.

Abbreviation Attributes := (gmap AttributeKey AttributeValue).

Inductive SignalType := Span | Log | Metric | NetSignal | Exec | Llm | Annotation.

#[export] Instance signal_type_eq_dec : EqDecision SignalType.
Proof. solve_decision. Defined.

Record PayloadRef := mkPayloadRef {
  digest : PayloadDigest;
  media_type : option MediaType;
  size_bytes : option Z;
}.

#[export] Instance PayloadRef_eq_dec : EqDecision PayloadRef.
Proof. solve_decision. Defined.

Definition PayloadRef_new (d : PayloadDigest) : PayloadRef := mkPayloadRef d None None.
Definition with_media_type (p : PayloadRef) (m : MediaType) : PayloadRef :=
  mkPayloadRef (digest p) (Some m) (size_bytes p).
Definition with_size_bytes (p : PayloadRef) (n : Z) : PayloadRef :=
  mkPayloadRef (digest p) (media_type p) (Some n).

(** Attributes alike: a float may have lost its last digit in a JSON text. *)
Definition value_alike (a b : AttributeValue) : Prop := match a, b with AF64 _, AF64 _ => True | a, b => a = b end.
Definition attributes_alike (m m' : Attributes) : Prop := ∀ k, option_relation value_alike (λ _, False) (λ _, False) (m !! k) (m' !! k).
Lemma attributes_alike_refl (m : Attributes) : attributes_alike m m.
Proof. intros k. destruct (m !! k) as [[]|]; done. Qed.

(** ** Events *)

Section event.
Context {U : UlidLib}.

Record Event := mkEvent {
  event_id : EventId;
  ts : Hlc;
  run_id : RunId;
  lineage_path : LineagePath;
  signal : SignalType;
  event_name : EventName;
  attributes : Attributes;
  payload_ref : option PayloadRef;
}.

#[export] Instance Event_eq_dec : EqDecision Event.
Proof. solve_decision. Defined.

(** [minted] is the identifier [EventId::new] draws. *)
Definition Event_new (minted : EventId) (context : RunContext) (ts : Hlc) (signal : SignalType)
    (name : EventName) : Event :=
  mkEvent minted ts (ctx_run_id context) (ctx_lineage_path context) signal name ∅ None.

Definition with_attribute (e : Event) (k : AttributeKey) (v : AttributeValue) : Event :=
  mkEvent (event_id e) (ts e) (run_id e) (lineage_path e) (signal e) (event_name e)
    (<[k := v]> (attributes e)) (payload_ref e).

Definition with_payload_ref (e : Event) (p : PayloadRef) : Event :=
  mkEvent (event_id e) (ts e) (run_id e) (lineage_path e) (signal e) (event_name e)
    (attributes e) (Some p).

(** Attribute lookup by key text. *)
Definition attr (e : Event) (k : string) : option AttributeValue := attributes e !! key k.
End event.

(** ** Lemmas *)

Lemma text_new_Ok k s t : text_new k s = Ok t ↔ is_blank s = false ∧ t = mkText s.
Proof. unfold text_new. destruct (is_blank s); naive_solver. Qed.

Lemma lit_ne k (s t : string) : bool_decide (bs s = bs t) = false → lit k s ≠ lit k t.
Proof. intros H. apply bool_decide_eq_false in H. unfold lit. congruence. Qed.
#[export] Hint Extern 1 (lit _ _ ≠ lit _ _) => apply lit_ne; vm_compute; reflexivity : core.

(** A fixed attribute key or event name passes [from_static]'s assertion. *)
Definition literal_ok (s : string) : bool := negb (is_blank (bs s)).
Lemma from_static_literal k s : literal_ok s = true → from_static k (bs s) = Some (lit k s).
Proof. unfold literal_ok, from_static. destruct (is_blank (bs s)); done. Qed.

Section event_lemmas.
Context {U : UlidLib}.
Implicit Types (e : Event).

Lemma attr_with_attribute e k v : attr (with_attribute e (key k) v) k = Some v.
Proof. apply lookup_insert_eq. Qed.

Lemma attr_with_attribute_ne e k k' v :
  key k ≠ key k' → attr (with_attribute e (key k) v) k' = attr e k'.
Proof. apply lookup_insert_ne. Qed.

Lemma dom_with_attribute e k v : dom (attributes (with_attribute e k v)) = {[k]} ∪ dom (attributes e).
Proof. apply dom_insert_L. Qed.

(** The spine: identity, ordering, family and name of an event. *)
Definition spine e := (event_id e, ts e, run_id e, lineage_path e, signal e, event_name e).

Lemma spine_with_attribute e k v : spine (with_attribute e k v) = spine e.
Proof. done. Qed.

Lemma payload_with_attribute e k v : payload_ref (with_attribute e k v) = payload_ref e.
Proof. done. Qed.
End event_lemmas.

#[export] Hint Rewrite @attr_with_attribute @spine_with_attribute @payload_with_attribute : hiloop.

(** Evaluate attribute lookups on a chain of builder calls with fixed keys. *)
Ltac solve_attr :=
  repeat first
    [ rewrite attr_with_attribute
    | rewrite attr_with_attribute_ne by auto ];
  try reflexivity.
