(* ===== verification/Capture.v ===== *)
(** * Typed capture contracts (crates/hiloop-core/src/capture.rs)

    Closed reason sets with their wire texts, validated destinations, flow
    identities and byte counts, and the constructors of the five
    transparent-capture events. *)
From Stdlib Require Import Strings.Byte.
From S2P Require Import Prelude Text Net Identity Event.

(** ** OTLP queue override *)

Definition CAPTURE_OTLP_MAX_EXPORT_BATCH_SIZE : Z := 64.

Definition capture_otlp_queue_override (current : option str) : option Z :=
  queue ← current ≫= parse_uint usize_max;
  if (0 <? queue)%Z && (queue <? CAPTURE_OTLP_MAX_EXPORT_BATCH_SIZE)%Z
  then Some CAPTURE_OTLP_MAX_EXPORT_BATCH_SIZE
  else None.

(** ** Attribute keys *)

Definition CLIENT_HELLO_FINGERPRINT : AttributeKey := key "client_hello_fingerprint".
Definition DOWNSTREAM_BYTES : AttributeKey := key "downstream_bytes".
Definition L7_CAPTURE : AttributeKey := key "l7_capture".
Definition ORIGINAL_DESTINATION_IP : AttributeKey := key "original_destination.ip".
Definition ORIGINAL_DESTINATION_PORT : AttributeKey := key "original_destination.port".
Definition REASON : AttributeKey := key "reason".
Definition SERVER_NAME : AttributeKey := key "server_name".
Definition UPSTREAM_BYTES : AttributeKey := key "upstream_bytes".

Inductive CaptureContractError :=
| Blank (field : str)
| PortError
| IntegerRange (field : str) (value : Z).

(** ** Closed string enumerations ([string_enum!]) *)

(** What the macro gives each enumeration: its [Display]. *)
Class StringEnum (A : Type) := to_string : A → str.

Inductive NetCaptureMode := ModeAuto | ModeNetns | ModeProxy | ModeOff.
#[export] Instance NetCaptureMode_fmt : StringEnum NetCaptureMode := λ m,
  match m with
  | ModeAuto => bs "auto" | ModeNetns => bs "netns" | ModeProxy => bs "proxy" | ModeOff => bs "off"
  end.

Record ParseNetCaptureModeError := mkParseError { parse_error_value : str }.

Definition NetCaptureMode_from_str (value : str) : result ParseNetCaptureModeError NetCaptureMode :=
  if bool_decide (value = bs "auto") then Ok ModeAuto
  else if bool_decide (value = bs "netns") then Ok ModeNetns
  else if bool_decide (value = bs "proxy") then Ok ModeProxy
  else if bool_decide (value = bs "off") then Ok ModeOff
  else Err (mkParseError value).

Inductive SelectedNetCaptureMode := SelNetns | SelProxy | SelOff | SelNone.
#[export] Instance SelectedNetCaptureMode_fmt : StringEnum SelectedNetCaptureMode := λ m,
  match m with
  | SelNetns => bs "netns" | SelProxy => bs "proxy" | SelOff => bs "off" | SelNone => bs "none"
  end.

Inductive CapturePolicy := PolicyObserve | PolicyStrict.
#[export] Instance CapturePolicy_fmt : StringEnum CapturePolicy := λ p,
  match p with PolicyObserve => bs "observe" | PolicyStrict => bs "policy_strict" end.

Inductive CapturePreflight := PreflightPassed | PreflightFailed | PreflightNotApplicable.
#[export] Instance CapturePreflight_fmt : StringEnum CapturePreflight := λ p,
  match p with
  | PreflightPassed => bs "passed"
  | PreflightFailed => bs "failed"
  | PreflightNotApplicable => bs "not_applicable"
  end.

Inductive CaptureTransportDegradationReason :=
| UnsupportedPlatform | UserNamespaceDenied | TproxyUnavailable | TunUnavailable
| PastaMissing | Ipv6Unavailable | ResolverUnavailable | NetnsStartupFailed.
#[export] Instance CaptureTransportDegradationReason_fmt :
  StringEnum CaptureTransportDegradationReason := λ r,
  match r with
  | UnsupportedPlatform => bs "unsupported_platform"
  | UserNamespaceDenied => bs "user_namespace_denied"
  | TproxyUnavailable => bs "tproxy_unavailable"
  | TunUnavailable => bs "tun_unavailable"
  | PastaMissing => bs "pasta_missing"
  | Ipv6Unavailable => bs "ipv6_unavailable"
  | ResolverUnavailable => bs "resolver_unavailable"
  | NetnsStartupFailed => bs "netns_startup_failed"
  end.

Inductive TlsInterceptionFailedReason :=
| ClientTrustRejected | AmbiguousHandshakeAbort | ProtocolMismatch | ServerHandshakeFailed
| PolicyPassthroughForbidden | InternalError.
#[export] Instance TlsInterceptionFailedReason_fmt : StringEnum TlsInterceptionFailedReason := λ r,
  match r with
  | ClientTrustRejected => bs "client_trust_rejected"
  | AmbiguousHandshakeAbort => bs "ambiguous_handshake_abort"
  | ProtocolMismatch => bs "protocol_mismatch"
  | ServerHandshakeFailed => bs "server_handshake_failed"
  | PolicyPassthroughForbidden => bs "policy_passthrough_forbidden"
  | InternalError => bs "internal_error"
  end.

Inductive TlsPassthroughReason :=
| PreclassifiedTrustIncompatible | LearnedTrustRejection | EncryptedClientHello.
#[export] Instance TlsPassthroughReason_fmt : StringEnum TlsPassthroughReason := λ r,
  match r with
  | PreclassifiedTrustIncompatible => bs "preclassified_trust_incompatible"
  | LearnedTrustRejection => bs "learned_trust_rejection"
  | EncryptedClientHello => bs "encrypted_client_hello"
  end.

Inductive NetPassthroughReason := UnsupportedApplicationProtocol | UnsupportedTransportCapture.
#[export] Instance NetPassthroughReason_fmt : StringEnum NetPassthroughReason := λ r,
  match r with
  | UnsupportedApplicationProtocol => bs "unsupported_application_protocol"
  | UnsupportedTransportCapture => bs "unsupported_transport_capture"
  end.

Inductive TransportProtocol := Tcp | Udp.
#[export] Instance TransportProtocol_fmt : StringEnum TransportProtocol := λ t,
  match t with Tcp => bs "tcp" | Udp => bs "udp" end.

Inductive CaptureFatalReason := DataplaneFailed.
#[export] Instance CaptureFatalReason_fmt : StringEnum CaptureFatalReason := λ r,
  match r with DataplaneFailed => bs "dataplane_failed" end.

#[export] Instance CapturePolicy_eq_dec : EqDecision CapturePolicy.
Proof. solve_decision. Defined.
#[export] Instance TlsInterceptionFailedReason_eq_dec : EqDecision TlsInterceptionFailedReason.
Proof. solve_decision. Defined.
#[export] Instance TlsPassthroughReason_eq_dec : EqDecision TlsPassthroughReason.
Proof. solve_decision. Defined.
#[export] Instance Degradation_eq_dec : EqDecision CaptureTransportDegradationReason.
Proof. solve_decision. Defined.

(** ** Destinations, flow identities and byte counts *)

Record OriginalDestination := mkOriginalDestination { od_ip : IpAddr; od_port : Z }.

#[export] Instance OriginalDestination_eq_dec : EqDecision OriginalDestination.
Proof. solve_decision. Defined.

Definition OriginalDestination_new (ip : IpAddr) (port : Z)
  : result CaptureContractError OriginalDestination :=
  if (port =? 0)%Z then Err PortError else Ok (mkOriginalDestination ip port).

Definition nonblank (field value : str) : result CaptureContractError str :=
  if is_blank value then Err (Blank field) else Ok value.

Definition event_i64 (field : str) (value : Z) : result CaptureContractError Z :=
  if (value <=? i64_max)%Z then Ok value else Err (IntegerRange field value).

Record TlsFlowIdentity := mkTlsFlowIdentity {
  tf_destination : OriginalDestination;
  tf_server_name : option str;
  tf_fingerprint : option str;
}.

Definition TlsFlowIdentity_new (d : OriginalDestination) : TlsFlowIdentity :=
  mkTlsFlowIdentity d None None.

Definition with_server_name (f : TlsFlowIdentity) (server_name : str)
  : result CaptureContractError TlsFlowIdentity :=
  s ← nonblank (bs "server_name") server_name;
  Ok (mkTlsFlowIdentity (tf_destination f) (Some s) (tf_fingerprint f)).

Definition with_client_hello_fingerprint (f : TlsFlowIdentity) (fingerprint : str)
  : result CaptureContractError TlsFlowIdentity :=
  s ← nonblank (bs "client_hello_fingerprint") fingerprint;
  Ok (mkTlsFlowIdentity (tf_destination f) (tf_server_name f) (Some s)).

Record ByteCounts := mkByteCounts { upstream : Z; downstream : Z }.

Definition ByteCounts_new (up down : Z) : result CaptureContractError ByteCounts :=
  u ← event_i64 (bs "upstream_bytes") up;
  d ← event_i64 (bs "downstream_bytes") down;
  Ok (mkByteCounts u d).

(** ** Event constructors *)

Section capture_events.
Context {U : UlidLib}.

Definition with_destination (event : Event) (d : OriginalDestination) : Event :=
  with_attribute
    (with_attribute event ORIGINAL_DESTINATION_IP (AString (fmt_ip (od_ip d))))
    ORIGINAL_DESTINATION_PORT (AI64 (od_port d)).

Definition with_tls_flow (event : Event) (flow : TlsFlowIdentity) : Event :=
  let event := with_destination event (tf_destination flow) in
  let event :=
    match tf_server_name flow with
    | Some server_name => with_attribute event SERVER_NAME (AString server_name)
    | None => event
    end in
  match tf_fingerprint flow with
  | Some fingerprint => with_attribute event CLIENT_HELLO_FINGERPRINT (AString fingerprint)
  | None => event
  end.

Definition with_byte_counts (event : Event) (counts : ByteCounts) : Event :=
  with_attribute
    (with_attribute event UPSTREAM_BYTES (AI64 (upstream counts)))
    DOWNSTREAM_BYTES (AI64 (downstream counts)).

Definition tls_interception_failed (minted : EventId) (context : RunContext) (ts : Hlc)
    (reason : TlsInterceptionFailedReason) (flow : TlsFlowIdentity) (retry_required : bool) : Event :=
  let event := Event_new minted context ts NetSignal (name "tls.interception_failed") in
  let event := with_attribute event REASON (AString (to_string reason)) in
  let event := with_attribute event L7_CAPTURE (ABool false) in
  let event := with_attribute event (key "retry_required") (ABool retry_required) in
  with_tls_flow event flow.

Definition tls_passthrough (minted : EventId) (context : RunContext) (ts : Hlc)
    (reason : TlsPassthroughReason) (flow : TlsFlowIdentity) (counts : ByteCounts) : Event :=
  let event := Event_new minted context ts NetSignal (name "tls.passthrough") in
  let event := with_attribute event REASON (AString (to_string reason)) in
  let event := with_attribute event L7_CAPTURE (ABool false) in
  with_byte_counts (with_tls_flow event flow) counts.

Definition net_passthrough (minted : EventId) (context : RunContext) (ts : Hlc)
    (transport : TransportProtocol) (destination : OriginalDestination)
    (reason : NetPassthroughReason) (counts : ByteCounts) : Event :=
  let event := Event_new minted context ts NetSignal (name "net.passthrough") in
  let event := with_attribute event (key "transport") (AString (to_string transport)) in
  let event := with_attribute event REASON (AString (to_string reason)) in
  let event := with_attribute event L7_CAPTURE (ABool false) in
  with_byte_counts (with_destination event destination) counts.

Definition capture_transport (minted : EventId) (context : RunContext) (ts : Hlc)
    (requested : NetCaptureMode) (selected : SelectedNetCaptureMode)
    (capture_policy : CapturePolicy) (preflight : CapturePreflight)
    (ipv4_available ipv6_available : bool)
    (degradation_reason : option CaptureTransportDegradationReason) : Event :=
  let event := Event_new minted context ts NetSignal (name "capture.transport") in
  let event := with_attribute event (key "requested") (AString (to_string requested)) in
  let event := with_attribute event (key "selected") (AString (to_string selected)) in
  let event := with_attribute event (key "capture_policy") (AString (to_string capture_policy)) in
  let event := with_attribute event (key "preflight_result") (AString (to_string preflight)) in
  let event := with_attribute event (key "ipv4_available") (ABool ipv4_available) in
  let event := with_attribute event (key "ipv6_available") (ABool ipv6_available) in
  match degradation_reason with
  | Some reason => with_attribute event (key "degradation_reason") (AString (to_string reason))
  | None => event
  end.

Definition capture_fatal (minted : EventId) (context : RunContext) (ts : Hlc)
    (reason : CaptureFatalReason) : Event :=
  with_attribute (Event_new minted context ts NetSignal (name "capture.fatal"))
    REASON (AString (to_string reason)).
End capture_events.

(** ** Properties *)

(** The capture-mode selector is exact and case sensitive: a text is
    accepted as a mode exactly when it is that mode's own text, and every other
    text is refused with itself as the reported value. *)
Theorem net_capture_mode_exact (s : str) (m : NetCaptureMode) :
  (NetCaptureMode_from_str s = Ok m ↔ s = to_string m) ∧
  (∀ e, NetCaptureMode_from_str s = Err e →
        parse_error_value e = s ∧ ∀ m' : NetCaptureMode, s ≠ to_string m').
Proof.
  unfold NetCaptureMode_from_str. split; [split|].
  - repeat case_bool_decide; intros; simplify_eq; done.
  - intros ->. by destruct m.
  - repeat case_bool_decide; intros e [= <-]. split; [done|]. intros []; assumption.
Qed.

(** A byte counter becomes an event integer exactly when it fits a signed
    64-bit value, unchanged; otherwise the first counter out of range is named,
    upstream before downstream. *)
Theorem byte_counts_exact (up down : Z) :
  is_u64 up → is_u64 down →
  match ByteCounts_new up down with
  | Ok c => upstream c = up ∧ downstream c = down ∧ (up ≤ i64_max)%Z ∧ (down ≤ i64_max)%Z
  | Err e => (i64_max < up)%Z ∧ e = IntegerRange (bs "upstream_bytes") up ∨
             (up ≤ i64_max < down)%Z ∧ e = IntegerRange (bs "downstream_bytes") down
  end.
Proof.
  intros _ _. unfold ByteCounts_new, event_i64.
  destruct (up <=? i64_max)%Z eqn:Hu; destruct (down <=? i64_max)%Z eqn:Hd; breflect; simpl; auto.
Qed.

Lemma byte_counts_exact_witness :
  ByteCounts_new 7 9 = Ok (mkByteCounts 7 9) ∧
  (upstream (mkByteCounts 7 9) = 7 ∧ downstream (mkByteCounts 7 9) = 9 ∧ 7 ≤ i64_max ∧ 9 ≤ i64_max)%Z.
Proof.
  split; [reflexivity|].
  apply (byte_counts_exact 7 9); unfold is_u64; vm_compute; split; discriminate.
Defined.

(** The opaque-flow events are metadata only and keep the run's spine:
    whatever the reason, the flow and the counters, an interception failure, a
    TLS passthrough and a network passthrough carry the run identity of the
    context, the closed reason text, [l7_capture = false], the original
    destination and (for passthroughs) both counters, and never a payload. *)
Theorem opaque_flow_events_metadata {U : UlidLib} minted (ctx : RunContext) t
    (flow : TlsFlowIdentity) (counts : ByteCounts) (rf : TlsInterceptionFailedReason)
    (rp : TlsPassthroughReason) (rn : NetPassthroughReason) (retry : bool) (transport : TransportProtocol) :
  let metadata (e : Event) (n : string) (reason : str) :=
    spine e = (minted, t, ctx_run_id ctx, ctx_lineage_path ctx, NetSignal, name n) ∧
    payload_ref e = None ∧ attr e "reason" = Some (AString reason) ∧
    attr e "l7_capture" = Some (ABool false) ∧
    attr e "original_destination.ip" = Some (AString (fmt_ip (od_ip (tf_destination flow)))) ∧
    attr e "original_destination.port" = Some (AI64 (od_port (tf_destination flow))) in
  let counted (e : Event) :=
    attr e "upstream_bytes" = Some (AI64 (upstream counts)) ∧
    attr e "downstream_bytes" = Some (AI64 (downstream counts)) in
  metadata (tls_interception_failed minted ctx t rf flow retry) "tls.interception_failed" (to_string rf) ∧
  metadata (tls_passthrough minted ctx t rp flow counts) "tls.passthrough" (to_string rp) ∧
  counted (tls_passthrough minted ctx t rp flow counts) ∧
  metadata (net_passthrough minted ctx t transport (tf_destination flow) rn counts)
    "net.passthrough" (to_string rn) ∧
  counted (net_passthrough minted ctx t transport (tf_destination flow) rn counts).
Proof.
  destruct flow as [d [sn|] [fp|]]; cbv zeta.
  all: split_and!; try reflexivity.
  all: unfold tls_interception_failed, tls_passthrough, net_passthrough, with_byte_counts,
    with_tls_flow, with_destination; simpl; unfold REASON, L7_CAPTURE, ORIGINAL_DESTINATION_IP,
    ORIGINAL_DESTINATION_PORT, SERVER_NAME, CLIENT_HELLO_FINGERPRINT, UPSTREAM_BYTES, DOWNSTREAM_BYTES;
    solve_attr.
Qed.

(** Every key and name the constructors fix passes the non-blank assertion, so
    none of them can panic. *)
Lemma capture_literals_ok :
  forallb literal_ok
    ["client_hello_fingerprint"; "downstream_bytes"; "l7_capture"; "original_destination.ip";
     "original_destination.port"; "reason"; "server_name"; "upstream_bytes"; "retry_required";
     "transport"; "requested"; "selected"; "capture_policy"; "preflight_result"; "ipv4_available";
     "ipv6_available"; "degradation_reason"; "tls.interception_failed"; "tls.passthrough";
     "net.passthrough"; "capture.transport"; "capture.fatal"] = true.
Proof. vm_compute. reflexivity. Qed.
