(* ===== verification/Completion.v ===== *)
(** * Capture completion (crates/hiloop-core/src/capture/completion.rs)

    Source coverage, event and blob delivery accounting, the validated
    completion report and its projection to an event. *)
From Stdlib Require Import Strings.Byte.
From S2P Require Import Prelude Text Net Identity Event Capture.

Inductive CaptureEvidenceTrust := PlatformObserved | WorkloadReported.
#[export] Instance CaptureEvidenceTrust_fmt : StringEnum CaptureEvidenceTrust := λ t,
  match t with
  | PlatformObserved => bs "platform_observed"
  | WorkloadReported => bs "workload_reported"
  end.

Inductive CaptureSourceDegradation := StartupFailed | RuntimeFailed | OpaqueNetworkTraffic.
#[export] Instance CaptureSourceDegradation_fmt : StringEnum CaptureSourceDegradation := λ d,
  match d with
  | StartupFailed => bs "startup_failed"
  | RuntimeFailed => bs "runtime_failed"
  | OpaqueNetworkTraffic => bs "opaque_network_traffic"
  end.

(** A [NonZeroU64] is its value; the constructors below only build non-zero ones. *)
Definition NonZeroU64_new (n : Z) : option Z := if (n =? 0)%Z then None else Some n.

Inductive CaptureSourceState :=
| OffByPolicy
| ConfiguredUnavailable (reason : CaptureSourceDegradation)
| AttachedNoData
| AttachedFull (events : Z)
| AttachedMetadataOnly (events : Z) (reason : CaptureSourceDegradation)
| AttachedMixed (full_events metadata_only_events : Z) (reason : CaptureSourceDegradation).

Definition state_name (s : CaptureSourceState) : str :=
  match s with
  | OffByPolicy => bs "off_by_policy"
  | ConfiguredUnavailable _ => bs "configured_unavailable"
  | AttachedNoData => bs "attached_no_data"
  | AttachedFull _ => bs "attached_full"
  | AttachedMetadataOnly _ _ => bs "attached_metadata_only"
  | AttachedMixed _ _ _ => bs "attached_mixed"
  end.

Definition is_unavailable (s : CaptureSourceState) : bool :=
  match s with ConfiguredUnavailable _ => true | _ => false end.

Record CaptureSourceReport := mkSourceReport {
  trust : CaptureEvidenceTrust;
  state : CaptureSourceState;
}.

Definition off_by_policy (t : CaptureEvidenceTrust) : CaptureSourceReport :=
  mkSourceReport t OffByPolicy.
Definition configured_unavailable (t : CaptureEvidenceTrust) (r : CaptureSourceDegradation)
  : CaptureSourceReport := mkSourceReport t (ConfiguredUnavailable r).
Definition attached_no_data (t : CaptureEvidenceTrust) : CaptureSourceReport :=
  mkSourceReport t AttachedNoData.

Definition attached_full (t : CaptureEvidenceTrust) (events : Z) : CaptureSourceReport :=
  match NonZeroU64_new events with
  | None => attached_no_data t
  | Some events => mkSourceReport t (AttachedFull events)
  end.

Definition attached_metadata_only (t : CaptureEvidenceTrust) (events : Z)
    (reason : CaptureSourceDegradation) : CaptureSourceReport :=
  match NonZeroU64_new events with
  | None => attached_no_data t
  | Some events => mkSourceReport t (AttachedMetadataOnly events reason)
  end.

Definition attached_mixed (t : CaptureEvidenceTrust) (full_events metadata_only_events : Z)
    (reason : CaptureSourceDegradation) : CaptureSourceReport :=
  match NonZeroU64_new full_events with
  | None => attached_metadata_only t metadata_only_events reason
  | Some full_events =>
      match NonZeroU64_new metadata_only_events with
      | None => attached_full t full_events
      | Some metadata_only_events =>
          mkSourceReport t (AttachedMixed full_events metadata_only_events reason)
      end
  end.

Definition from_event_counts (t : CaptureEvidenceTrust) (full_events metadata_only_events : Z)
    (degradation : CaptureSourceDegradation) : CaptureSourceReport :=
  if (full_events =? 0)%Z && (metadata_only_events =? 0)%Z then attached_no_data t
  else if (metadata_only_events =? 0)%Z then attached_full t full_events
  else if (full_events =? 0)%Z then attached_metadata_only t metadata_only_events degradation
  else attached_mixed t full_events metadata_only_events degradation.

Record CaptureSourcesReport := mkSourcesReport {
  process : CaptureSourceReport;
  stdio : CaptureSourceReport;
  network : CaptureSourceReport;
  otlp : CaptureSourceReport;
}.

Definition has_unavailable_source (s : CaptureSourcesReport) : bool :=
  existsb (λ source, is_unavailable (state source)) [process s; stdio s; network s; otlp s].

Record CaptureEventDelivery := mkEventDelivery {
  observed : Z; spooled : Z; landed : Z; dropped : Z; rejected : Z; pending : Z;
}.

Record CaptureBlobDelivery := mkBlobDelivery {
  found : Z; blobs_landed : Z; missing : Z; oversize : Z; missing_bytes : Z;
}.

Record CaptureCompletionReport := mkCompletionReport {
  sources : CaptureSourcesReport;
  events : CaptureEventDelivery;
  blobs : option CaptureBlobDelivery;
  auth_refreshes : option Z;
  error : option str;
}.

Inductive CaptureCompletionError := EventAccounting | SpoolAccounting | BlobAccounting.

#[export] Instance CaptureCompletionError_eq_dec : EqDecision CaptureCompletionError.
Proof. solve_decision. Defined.

Definition check_blobs (blobs : CaptureBlobDelivery) : result CaptureCompletionError unit :=
  accounted ← ok_or (a ← checked_add u64_max (blobs_landed blobs) (missing blobs);
                     checked_add u64_max a (oversize blobs)) BlobAccounting;
  if negb (accounted =? found blobs)%Z then Err BlobAccounting
  else if (missing blobs =? 0)%Z && negb (missing_bytes blobs =? 0)%Z then Err BlobAccounting
  else Ok tt.

Definition CaptureCompletionReport_new (sources : CaptureSourcesReport)
    (events : CaptureEventDelivery) (blobs : option CaptureBlobDelivery)
    (auth_refreshes : option Z) (error : option str)
  : result CaptureCompletionError CaptureCompletionReport :=
  accounted ← ok_or (a ← checked_add u64_max (landed events) (dropped events);
                     b ← checked_add u64_max a (rejected events);
                     checked_add u64_max b (pending events)) EventAccounting;
  if negb (accounted =? observed events)%Z then Err EventAccounting
  else if (observed events <? spooled events)%Z then Err SpoolAccounting
  else if (spooled events <? pending events)%Z then Err SpoolAccounting
  else
    _ ← match blobs with Some blobs => check_blobs blobs | None => Ok tt end;
    Ok (mkCompletionReport sources events blobs auth_refreshes error).

(** [Deserialize] re-validates the wire fields, which are the report's own. *)
Definition CaptureCompletionReport_deserialize (wire : CaptureCompletionReport)
  : result CaptureCompletionError CaptureCompletionReport :=
  CaptureCompletionReport_new (sources wire) (events wire) (blobs wire)
    (auth_refreshes wire) (error wire).

Definition is_complete (r : CaptureCompletionReport) : bool :=
  match error r with None => true | Some _ => false end
  && negb (has_unavailable_source (sources r))
  && (dropped (events r) =? 0)%Z
  && (rejected (events r) =? 0)%Z
  && (pending (events r) =? 0)%Z
  && match blobs r with
     | None => true
     | Some b => (missing b =? 0)%Z && (oversize b =? 0)%Z
     end.

(** [i64::try_from(value).unwrap_or(i64::MAX)] *)
Definition event_count (value : Z) : Z := if (value <=? i64_max)%Z then value else i64_max.

Definition source_key (source field : string) : AttributeKey :=
  key ("capture.source." +:+ source +:+ "." +:+ field).

Section to_event.
Context {U : UlidLib}.

Definition with_count (event : Event) (k : string) (n : Z) : Event :=
  with_attribute event (key k) (AI64 (event_count n)).

Definition with_source_report (event : Event) (source : string) (report : CaptureSourceReport) : Event :=
  let event := with_attribute event (source_key source "trust") (AString (to_string (trust report))) in
  let event := with_attribute event (source_key source "state") (AString (state_name (state report))) in
  match state report with
  | OffByPolicy | AttachedNoData => event
  | ConfiguredUnavailable reason =>
      with_attribute event (source_key source "degradation") (AString (to_string reason))
  | AttachedFull events =>
      with_attribute event (source_key source "events") (AI64 (event_count events))
  | AttachedMetadataOnly events reason =>
      let event := with_attribute event (source_key source "events") (AI64 (event_count events)) in
      with_attribute event (source_key source "degradation") (AString (to_string reason))
  | AttachedMixed full_events metadata_only_events reason =>
      let event := with_attribute event (source_key source "full_events")
                     (AI64 (event_count full_events)) in
      let event := with_attribute event (source_key source "metadata_only_events")
                     (AI64 (event_count metadata_only_events)) in
      with_attribute event (source_key source "degradation") (AString (to_string reason))
  end.

Definition to_event (r : CaptureCompletionReport) (minted : EventId) (context : RunContext) (ts : Hlc)
  : Event :=
  let event := Event_new minted context ts Log (name "capture.drain") in
  let event := with_source_report event "process" (process (sources r)) in
  let event := with_source_report event "stdio" (stdio (sources r)) in
  let event := with_source_report event "network" (network (sources r)) in
  let event := with_source_report event "otlp" (otlp (sources r)) in
  let event := with_count event "capture.events.observed" (observed (events r)) in
  let event := with_count event "capture.events.spooled" (spooled (events r)) in
  let event := with_count event "capture.events.landed" (landed (events r)) in
  let event := with_count event "capture.events.dropped" (dropped (events r)) in
  let event := with_count event "capture.events.rejected" (rejected (events r)) in
  let event := with_count event "capture.events.pending" (pending (events r)) in
  let event :=
    match blobs r with
    | Some b =>
        let event := with_count event "capture.blobs.found" (found b) in
        let event := with_count event "capture.blobs.landed" (blobs_landed b) in
        let event := with_count event "capture.blobs.missing" (missing b) in
        let event := with_count event "capture.blobs.oversize" (oversize b) in
        with_count event "capture.blobs.missing_bytes" (missing_bytes b)
    | None => event
    end in
  let event :=
    match auth_refreshes r with
    | Some refreshes => with_count event "capture.auth.refreshes" refreshes
    | None => event
    end in
  let event :=
    match error r with
    | Some error => with_attribute event (key "capture.error") (AString error)
    | None => event
    end in
  with_attribute event (key "capture.complete") (ABool (is_complete r)).
End to_event.

(** ** Properties *)

(** The machine ranges of the counters. *)
Definition delivery_wf (e : CaptureEventDelivery) : Prop :=
  is_u64 (observed e) ∧ is_u64 (spooled e) ∧ is_u64 (landed e) ∧
  is_u64 (dropped e) ∧ is_u64 (rejected e) ∧ is_u64 (pending e).
Definition blobs_wf (b : CaptureBlobDelivery) : Prop :=
  is_u64 (found b) ∧ is_u64 (blobs_landed b) ∧ is_u64 (missing b) ∧
  is_u64 (oversize b) ∧ is_u64 (missing_bytes b).

(** What a consistent account is: every observed event and every found blob is
    in exactly one terminal bucket, over the integers (no overflow), spooling
    never exceeds observation, and only spooled events can be pending. *)
Definition events_account (e : CaptureEventDelivery) : Prop :=
  (landed e + dropped e + rejected e + pending e = observed e ∧
   pending e ≤ spooled e ≤ observed e)%Z.
Definition blobs_account (b : CaptureBlobDelivery) : Prop :=
  (blobs_landed b + missing b + oversize b = found b ∧ (missing b = 0 → missing_bytes b = 0))%Z.

Lemma check_blobs_spec b :
  blobs_wf b → (check_blobs b = Ok tt ↔ blobs_account b) ∧ (∀ e, check_blobs b = Err e → e = BlobAccounting).
Proof.
  unfold blobs_wf, is_u64, check_blobs, blobs_account, checked_add. intros Hwf.
  split; [|intros e; repeat (case_goal; simpl); naive_solver].
  repeat (case_goal; simpl); breflect; (split; [intros; simplify_eq; lia|intros; try done; lia]).
Qed.

Lemma events_account_checked e :
  delivery_wf e →
  (∀ a, (a ← checked_add u64_max (landed e) (dropped e);
         b ← checked_add u64_max a (rejected e);
         checked_add u64_max b (pending e)) = Some a ↔
        a = (landed e + dropped e + rejected e + pending e)%Z ∧ (a ≤ u64_max)%Z).
Proof.
  unfold delivery_wf, is_u64, checked_add. intros Hwf a.
  repeat (case_goal; simpl); breflect; split; intros; simplify_eq; try lia; f_equal; lia.
Qed.

Lemma completion_new_Ok s e b a err r :
  delivery_wf e → (∀ b', b = Some b' → blobs_wf b') →
  CaptureCompletionReport_new s e b a err = Ok r →
  r = mkCompletionReport s e b a err ∧ events_account e ∧ ∀ b', b = Some b' → blobs_account b'.
Proof.
  intros He Hb. unfold CaptureCompletionReport_new. rewrite bind_Ok. intros (n & Hn & H).
  apply ok_or_Ok, (events_account_checked e He) in Hn as [-> Hle].
  repeat (case_in H; [done|]). apply bind_Ok in H as ([] & Hc & [= <-]). breflect.
  unfold events_account. split_and!; [done|lia|lia|lia|]. intros b' ->.
  by apply (check_blobs_spec b' (Hb _ eq_refl)).
Qed.

(** C40: a completion report is accepted exactly when its accounts are
    consistent, and then it is the fields it was given; otherwise the error
    names the account that fails, events before spool before blobs.  The
    checked additions reject the overflows that wrap-around would hide. *)
Theorem completion_report_validated s e b a err :
  delivery_wf e → (∀ b', b = Some b' → blobs_wf b') →
  match CaptureCompletionReport_new s e b a err with
  | Ok r => r = mkCompletionReport s e b a err ∧ events_account e ∧
            ∀ b', b = Some b' → blobs_account b'
  | Err EventAccounting => (landed e + dropped e + rejected e + pending e ≠ observed e)%Z
  | Err SpoolAccounting =>
      (landed e + dropped e + rejected e + pending e = observed e)%Z ∧
      ¬ (pending e ≤ spooled e ≤ observed e)%Z
  | Err BlobAccounting => events_account e ∧ ∃ b', b = Some b' ∧ ¬ blobs_account b'
  end.
Proof.
  intros He Hb. unfold CaptureCompletionReport_new, ok_or, events_account.
  pose proof (events_account_checked e He) as Hsum.
  destruct (_ ≫= _) as [n|] eqn:E; simpl.
  2: { intros Heq. unfold delivery_wf, is_u64 in He.
       assert (None = Some (observed e)) by (apply Hsum; lia). done. }
  destruct (proj1 (Hsum n) eq_refl) as [-> Hle]. clear E Hsum.
  destruct (negb _) eqn:E1; [breflect; lia|].
  destruct (observed e <? spooled e)%Z eqn:E2; [breflect; lia|].
  destruct (spooled e <? pending e)%Z eqn:E3; [breflect; lia|]. breflect.
  destruct b as [b|]; simpl; [|split_and!; done || lia].
  destruct (check_blobs_spec b (Hb _ eq_refl)) as [Hok Herr].
  destruct (check_blobs b) as [[]|e']; simpl.
  - split_and!; try done; try lia. intros ? [= <-]. by apply Hok.
  - pose proof (Herr _ eq_refl) as ->. split; [lia|]. exists b. split; [done|].
    intros Hacc. by apply Hok in Hacc.
Qed.

Lemma completion_report_validated_witness :
  let e := mkEventDelivery 10 4 6 1 2 1 in
  let b := mkBlobDelivery 3 2 1 0 512 in
  let s := mkSourcesReport (attached_full PlatformObserved 8) (off_by_policy PlatformObserved)
             (attached_mixed PlatformObserved 1 1 OpaqueNetworkTraffic)
             (attached_no_data WorkloadReported) in
  CaptureCompletionReport_new s e (Some b) None None = Ok (mkCompletionReport s e (Some b) None None) ∧
  events_account e.
Proof.
  intros e b s. split; [reflexivity|].
  assert (delivery_wf e) as He by (unfold delivery_wf, is_u64; vm_compute; intuition discriminate).
  assert (∀ b', Some b = Some b' → blobs_wf b') as Hb.
  { intros ? [= <-]. unfold blobs_wf, is_u64. vm_compute. intuition discriminate. }
  exact (proj1 (proj2 (completion_report_validated s e (Some b) None None He Hb))).
Defined.

(** A report claims completeness exactly when nothing was lost: for a
    validated report, [is_complete] holds if and only if there was no terminal
    error, no configured source was unavailable, every observed event landed
    and every found blob landed. *)
Theorem completion_complete_iff_lossless s e b a err r :
  delivery_wf e → (∀ b', b = Some b' → blobs_wf b') →
  CaptureCompletionReport_new s e b a err = Ok r →
  is_complete r = true ↔
    error r = None ∧ has_unavailable_source (sources r) = false ∧
    landed (events r) = observed (events r) ∧
    ∀ b', blobs r = Some b' → blobs_landed b' = found b'.
Proof.
  intros He Hb Hr.
  destruct (completion_new_Ok s e b a err r He Hb Hr) as (-> & [Hsum Hsp] & Hblobs).
  unfold is_complete. simpl. rewrite !andb_true_iff, negb_true_iff, !Z.eqb_eq.
  unfold delivery_wf, is_u64 in He.
  assert ((match b with None => true | Some b => (missing b =? 0)%Z && (oversize b =? 0)%Z end = true)
          ↔ ∀ b', b = Some b' → blobs_landed b' = found b') as ->.
  { destruct b as [b|]; [|naive_solver]. destruct (Hblobs b eq_refl) as [Hacc _].
    pose proof (Hb b eq_refl) as Hwf. unfold blobs_wf, is_u64 in Hwf.
    rewrite andb_true_iff, !Z.eqb_eq. split; [intros ? ? [= <-]; lia|].
    intros Hall. specialize (Hall _ eq_refl). lia. }
  destruct err; split; intros; destruct_and?; split_and?; try done; lia.
Qed.

Lemma completion_complete_iff_lossless_witness :
  let e := mkEventDelivery 5 2 5 0 0 0 in
  let s := mkSourcesReport (attached_full PlatformObserved 5) (off_by_policy PlatformObserved)
             (attached_no_data PlatformObserved) (attached_no_data WorkloadReported) in
  let r := mkCompletionReport s e None None None in
  is_complete r = true ∧ landed (events r) = observed (events r).
Proof.
  intros e s r. split; [reflexivity|].
  apply (completion_complete_iff_lossless s e None None None r);
    [unfold delivery_wf, is_u64; vm_compute; intuition discriminate|discriminate|reflexivity|reflexivity].
Defined.

Section projection_lemmas.
Context {U : UlidLib}.

(** The fields [with_source_report] may set. *)
Definition source_fields : list string :=
  ["trust"; "state"; "degradation"; "events"; "full_events"; "metadata_only_events"].

Lemma with_source_report_other (e : Event) src rep k :
  Forall (λ f, source_key src f ≠ key k) source_fields →
  attr (with_source_report e src rep) k = attr e k.
Proof.
  unfold source_fields. rewrite !Forall_cons. intros (? & ? & ? & ? & ? & ? & _).
  unfold with_source_report, attr. destruct (state rep); simpl; rewrite !lookup_insert_ne by done; done.
Qed.

Lemma with_source_report_state (e : Event) src rep :
  source_key src "state" ≠ source_key src "degradation" →
  source_key src "state" ≠ source_key src "events" →
  source_key src "state" ≠ source_key src "full_events" →
  source_key src "state" ≠ source_key src "metadata_only_events" →
  attributes (with_source_report e src rep) !! source_key src "state" =
  Some (AString (state_name (state rep))).
Proof.
  intros. unfold with_source_report. destruct (state rep); simpl;
    rewrite ?lookup_insert_ne by congruence; apply lookup_insert_eq.
Qed.

Lemma with_source_report_spine (e : Event) src rep :
  spine (with_source_report e src rep) = spine e ∧
  payload_ref (with_source_report e src rep) = payload_ref e.
Proof. unfold with_source_report. by destruct (state rep). Qed.

Lemma event_count_bounds n : (0 ≤ n)%Z → (0 ≤ event_count n ≤ i64_max)%Z.
Proof. unfold event_count. intros. case_match; breflect; unfold i64_max in *; lia. Qed.
End projection_lemmas.

Ltac solve_completion_attr :=
  repeat first
    [ rewrite attr_with_attribute
    | rewrite attr_with_attribute_ne by auto
    | rewrite with_source_report_other by (repeat constructor; auto) ];
  try reflexivity.

(** The event projection tells the report's truth: it is the run's
    [capture.drain] log event without a payload, its [capture.complete] flag is
    [is_complete], each delivery counter is the report's clamped to the event
    integer range (exact below it), the error text is present exactly when
    there is one, and every source's state name is the one reported. *)
Theorem completion_event_projection {U : UlidLib} (r : CaptureCompletionReport) minted (ctx : RunContext) t :
  let e := to_event r minted ctx t in
  spine e = (minted, t, ctx_run_id ctx, ctx_lineage_path ctx, Log, name "capture.drain") ∧
  payload_ref e = None ∧
  attr e "capture.complete" = Some (ABool (is_complete r)) ∧
  attr e "capture.events.observed" = Some (AI64 (event_count (observed (events r)))) ∧
  attr e "capture.events.landed" = Some (AI64 (event_count (landed (events r)))) ∧
  attr e "capture.events.dropped" = Some (AI64 (event_count (dropped (events r)))) ∧
  attr e "capture.events.rejected" = Some (AI64 (event_count (rejected (events r)))) ∧
  attr e "capture.events.pending" = Some (AI64 (event_count (pending (events r)))) ∧
  attr e "capture.error" = AString <$> error r ∧
  attr e "capture.blobs.landed" = (λ b, AI64 (event_count (blobs_landed b))) <$> blobs r ∧
  attr e "capture.source.network.state" = Some (AString (state_name (state (network (sources r))))) ∧
  attr e "capture.source.otlp.state" = Some (AString (state_name (state (otlp (sources r))))).
Proof.
  unfold to_event, with_count. cbv zeta.
  destruct (blobs r), (auth_refreshes r), (error r); split_and!; try done.
  all: try (rewrite ?spine_with_attribute, ?payload_with_attribute;
            rewrite ?(proj1 (with_source_report_spine _ _ _)), ?(proj2 (with_source_report_spine _ _ _));
            reflexivity).
  all: solve_completion_attr.
  all: apply with_source_report_state; auto.
Qed.
