(* ===== verification/Framing.v ===== *)
(** * Line framing of byte streams (crates/hiloop-interceptor/src/framing.rs)

    [LineFramer] splits an arbitrarily chunked byte stream into
    newline-delimited records, with unterminated records cut at a bound.  The
    two [while] loops of [push] are recursions whose fuel is the length of the
    buffer: each iteration removes at least one byte. *)
From Stdlib Require Import Strings.Byte.
From S2P Require Import Prelude Text.

Definition LF : byte := x0a.
Definition CR : byte := x0d.

Record LineFramer := mkLineFramer { fr_pending : str; max_record_bytes : nat }.

(** [None] is the panic of the assertion. *)
Definition LineFramer_new (max_record_bytes : nat) : option LineFramer :=
  if bool_decide (0 < max_record_bytes) then Some (mkLineFramer [] max_record_bytes) else None.

(** [if record.last() == Some(&c) { record.pop(); }] *)
Definition pop_if (c : byte) (record : str) : str :=
  match last record with
  | Some b => if byte_is c b then removelast record else record
  | None => record
  end.

Definition trim_line_ending (record : str) : str := pop_if CR (pop_if LF record).

Fixpoint drain_lines (fuel : nat) (pending : str) : list str * str :=
  match fuel, position (byte_is LF) pending with
  | S fuel, Some newline =>
      let record := trim_line_ending (take (S newline) pending) in
      let '(records, pending) := drain_lines fuel (drop (S newline) pending) in
      (record :: records, pending)
  | _, _ => ([], pending)
  end.

Fixpoint drain_chunks (max fuel : nat) (pending : str) : list str * str :=
  match fuel with
  | S fuel =>
      if bool_decide (max < length pending) then
        let '(records, rest) := drain_chunks max fuel (drop max pending) in
        (take max pending :: records, rest)
      else ([], pending)
  | O => ([], pending)
  end.

Definition push (f : LineFramer) (bytes : str) : list str * LineFramer :=
  let pending := fr_pending f ++ bytes in
  let '(lines, pending) := drain_lines (length pending) pending in
  let '(chunks, pending) := drain_chunks (max_record_bytes f) (length pending) pending in
  (lines ++ chunks, mkLineFramer pending (max_record_bytes f)).

Definition flush (f : LineFramer) : option str * LineFramer :=
  match fr_pending f with
  | [] => (None, f)
  | _ => (Some (fr_pending f), mkLineFramer [] (max_record_bytes f))
  end.

(** A whole stream: pushes in order, then a flush. *)
Fixpoint push_all (f : LineFramer) (chunks : list str) : list str * LineFramer :=
  match chunks with
  | [] => ([], f)
  | c :: chunks =>
      let '(r1, f) := push f c in
      let '(r2, f) := push_all f chunks in
      (r1 ++ r2, f)
  end.

Definition frame_stream (f : LineFramer) (chunks : list str) : list str :=
  let '(records, f) := push_all f chunks in records ++ option_list (flush f).1.

(** ** Specification *)

(** What a record is of the bytes it was cut from: a terminated line without
    its LF and at most one CR, or an unterminated piece within the bound,
    verbatim. *)
Definition strip_cr (line : str) : str := pop_if CR line.
Definition no_lf (s : str) : Prop := LF ∉ s.
Definition record_of (max : nat) (raw record : str) : Prop :=
  (∃ line, raw = line ++ [LF] ∧ no_lf line ∧ record = strip_cr line) ∨
  (no_lf raw ∧ record = raw ∧ 0 < length raw ≤ max).

(** The reference framing of a whole stream: its LF-separated lines, each
    without a trailing CR, and the unterminated tail verbatim when there is
    one. *)
Fixpoint lines_of (parts : list str) : list str :=
  match parts with
  | [] => []
  | [tail] => if bool_decide (tail = []) then [] else [tail]
  | line :: parts => strip_cr line :: lines_of parts
  end.
Definition reference_lines (s : str) : list str := lines_of (split_on (byte_is LF) s).

(** ** Lemmas *)

Lemma pop_if_snoc c l b : pop_if c (l ++ [b]) = if byte_is c b then l else l ++ [b].
Proof.
  unfold pop_if. rewrite last_snoc. destruct (byte_is c b); [|done]. apply removelast_last.
Qed.

Lemma trim_line l : trim_line_ending (l ++ [LF]) = strip_cr l.
Proof. unfold trim_line_ending. rewrite pop_if_snoc, byte_is_refl. done. Qed.

Lemma no_lf_position s : position (byte_is LF) s = None ↔ no_lf s.
Proof.
  rewrite position_None. unfold no_lf. rewrite Forall_forall. setoid_rewrite byte_is_false. naive_solver.
Qed.

Lemma position_LF s i :
  position (byte_is LF) s = Some i →
  ∃ l r, s = l ++ LF :: r ∧ length l = i ∧ no_lf l.
Proof.
  intros (l & b & r & -> & <- & Hb & Hl)%position_Some. apply byte_is_true in Hb as ->.
  exists l, r. split_and!; [done|done|]. apply no_lf_position. by apply position_None.
Qed.

(** The line loop peels every terminated line off the front. *)
Lemma drain_lines_spec fuel s records rest :
  length s ≤ fuel → drain_lines fuel s = (records, rest) →
  no_lf rest ∧ ∃ lines, s = concat ((λ l, l ++ [LF]) <$> lines) ++ rest ∧
    Forall no_lf lines ∧ records = strip_cr <$> lines.
Proof.
  revert s records rest. induction fuel as [|fuel IH]; intros s records rest Hlen; cbn [drain_lines].
  { intros [= <- <-]. destruct s; [|simpl in Hlen; lia]. split; [unfold no_lf; set_solver|].
    by exists []. }
  destruct (position (byte_is LF) s) as [i|] eqn:Hp.
  - apply position_LF in Hp as (l & r & -> & <- & Hl).
    replace (take (S (length l)) (l ++ LF :: r)) with (l ++ [LF])
      by (rewrite (cons_middle LF l r), app_assoc, take_app_length'; [done|rewrite length_app; simpl; lia]).
    replace (drop (S (length l)) (l ++ LF :: r)) with r
      by (rewrite (cons_middle LF l r), app_assoc, drop_app_length'; [done|rewrite length_app; simpl; lia]).
    rewrite length_app in Hlen. simpl in Hlen.
    destruct (drain_lines fuel r) as [rs rest'] eqn:Hr. intros [= <- <-].
    destruct (IH r rs rest' ltac:(lia) Hr) as (Hrest & lines & -> & Hlines & ->).
    split; [done|]. exists (l :: lines). rewrite trim_line. split_and!; [|by constructor|done].
    simpl. by rewrite <- !app_assoc.
  - intros [= <- <-]. apply no_lf_position in Hp. split; [done|]. by exists [].
Qed.

(** The chunk loop cuts the unterminated rest down to the bound. *)
Lemma drain_chunks_spec max fuel s chunks rest :
  0 < max → length s ≤ fuel → drain_chunks max fuel s = (chunks, rest) →
  length rest ≤ max ∧ s = concat chunks ++ rest ∧ Forall (λ c, length c = max) chunks.
Proof.
  intros Hmax. revert s chunks rest. induction fuel as [|fuel IH]; intros s chunks rest Hlen; simpl.
  { intros [= <- <-]. split_and!; [lia|done|constructor]. }
  case_bool_decide as Hlt.
  - destruct (drain_chunks max fuel (drop max s)) as [cs r] eqn:E. intros [= <- <-].
    apply IH in E as (Hr & Hs & Hcs); [|rewrite length_drop; lia]. split_and!; [done| |].
    + simpl. rewrite <- app_assoc, <- Hs. by rewrite take_drop.
    + constructor; [rewrite length_take; lia|done].
  - intros [= <- <-]. split_and!; [lia|done|constructor].
Qed.

Lemma no_lf_app s t : no_lf (s ++ t) ↔ no_lf s ∧ no_lf t.
Proof. unfold no_lf. set_solver. Qed.

Lemma no_lf_free s : no_lf s ↔ Forall (λ b, byte_is LF b = false) s.
Proof. by rewrite <- no_lf_position, position_None. Qed.

Lemma record_of_lines max lines :
  Forall no_lf lines → Forall2 (record_of max) ((λ l, l ++ [LF]) <$> lines) (strip_cr <$> lines).
Proof. induction 1 as [|l lines Hl _ IH]; constructor; [left; eauto|done]. Qed.

Lemma record_of_chunks max chunks :
  0 < max → no_lf (concat chunks) → Forall (λ c, length c = max) chunks →
  Forall2 (record_of max) chunks chunks.
Proof.
  intros Hmax. induction chunks as [|c chunks IH]; intros Hlf Hlen; constructor;
    apply no_lf_app in Hlf as [? ?]; apply Forall_cons in Hlen as [? ?].
  - right. split_and!; [done|done|lia..].
  - auto.
Qed.

(** One push consumes exactly the bytes of the records it returns, and what
    stays buffered is an unterminated piece within the bound. *)
Lemma push_spec f bytes records f' :
  0 < max_record_bytes f → push f bytes = (records, f') →
  max_record_bytes f' = max_record_bytes f ∧ no_lf (fr_pending f') ∧
  length (fr_pending f') ≤ max_record_bytes f ∧
  ∃ raws, fr_pending f ++ bytes = concat raws ++ fr_pending f' ∧
    Forall2 (record_of (max_record_bytes f)) raws records.
Proof.
  intros Hmax. unfold push.
  destruct (drain_lines _ _) as [ls rest] eqn:E1.
  apply drain_lines_spec in E1 as (Hrest & lines & Hs & Hlines & ->); [|done].
  destruct (drain_chunks _ _ _) as [cs rest'] eqn:E2.
  apply drain_chunks_spec in E2 as (Hlen & -> & Hcs); [|done|done].
  intros [= <- <-]. simpl. apply no_lf_app in Hrest as [? ?]. split_and!; [done|done|done|].
  exists (((λ l, l ++ [LF]) <$> lines) ++ cs). split.
  - rewrite Hs, concat_app. by rewrite app_assoc.
  - apply Forall2_app; [by apply record_of_lines|by apply record_of_chunks].
Qed.

Lemma push_all_spec f chunks records f' :
  0 < max_record_bytes f → no_lf (fr_pending f) → length (fr_pending f) ≤ max_record_bytes f →
  push_all f chunks = (records, f') →
  max_record_bytes f' = max_record_bytes f ∧ no_lf (fr_pending f') ∧
  length (fr_pending f') ≤ max_record_bytes f ∧
  ∃ raws, fr_pending f ++ concat chunks = concat raws ++ fr_pending f' ∧
    Forall2 (record_of (max_record_bytes f)) raws records.
Proof.
  revert f records. induction chunks as [|c chunks IH]; intros f records Hmax Hlf Hlen; simpl.
  { intros [= <- <-]. split_and!; [done..|]. exists []. split; [by rewrite app_nil_r|constructor]. }
  destruct (push f c) as [r1 f1] eqn:E1.
  apply push_spec in E1 as (Hm1 & Hlf1 & Hlen1 & raws1 & Hs1 & Hr1); [|done].
  destruct (push_all f1 chunks) as [r2 f2] eqn:E2. intros [= <- <-].
  apply IH in E2 as (Hm2 & Hlf2 & Hlen2 & raws2 & Hs2 & Hr2); [|rewrite ?Hm1; done..].
  rewrite Hm1 in *. split_and!; [done..|]. exists (raws1 ++ raws2). split; [|by apply Forall2_app].
  by rewrite app_assoc, Hs1, <- app_assoc, Hs2, concat_app, app_assoc.
Qed.

Lemma split_on_prefix s t :
  no_lf s → split_on (byte_is LF) (s ++ t) =
    match split_on (byte_is LF) t with piece :: ps => (s ++ piece) :: ps | [] => [] end.
Proof.
  intros Hs%no_lf_free. induction Hs as [|b s Hb _ IH]; simpl.
  - by destruct (split_on _ t).
  - rewrite Hb, IH. pose proof (split_on_ne (byte_is LF) t). by destruct (split_on _ t).
Qed.

Lemma split_on_lines lines t :
  Forall no_lf lines →
  split_on (byte_is LF) (concat ((λ l, l ++ [LF]) <$> lines) ++ t) = lines ++ split_on (byte_is LF) t.
Proof.
  induction 1 as [|l lines Hl _ IH]; [done|]. simpl. rewrite <- !app_assoc. cbn [app].
  rewrite split_on_sep; [f_equal; exact IH|by apply no_lf_free|apply byte_is_refl].
Qed.

Lemma lines_of_app lines parts : parts ≠ [] → lines_of (lines ++ parts) = (strip_cr <$> lines) ++ lines_of parts.
Proof.
  intros Hne. induction lines as [|l lines IH]; [done|].
  rewrite fmap_cons, <- !app_comm_cons, <- IH. simpl.
  destruct (lines ++ parts) eqn:E; [|done]. by apply app_eq_nil in E as [_ ?].
Qed.

Lemma drain_chunks_short max fuel s : length s ≤ max → drain_chunks max fuel s = ([], s).
Proof. intros. destruct fuel; simpl; [done|]. case_bool_decide; [lia|done]. Qed.

Lemma frame_stream_reference f chunks :
  no_lf (fr_pending f) →
  Forall (λ line, length line ≤ max_record_bytes f)
    (split_on (byte_is LF) (fr_pending f ++ concat chunks)) →
  frame_stream f chunks = reference_lines (fr_pending f ++ concat chunks).
Proof.
  unfold reference_lines. revert f. induction chunks as [|c chunks IH]; intros [p max] Hlf Hlines;
    simpl in *; unfold frame_stream; simpl.
  { rewrite app_nil_r in *. rewrite split_on_none by (by apply no_lf_free). by destruct p. }
  unfold push. simpl. destruct (drain_lines _ _) as [ls rest] eqn:E1.
  apply drain_lines_spec in E1 as (Hrest & lines & Hs & Hl & ->); [|done].
  rewrite app_assoc, Hs, <- app_assoc, split_on_lines in Hlines by done.
  rewrite app_assoc, Hs, <- app_assoc, split_on_lines, lines_of_app by (done || apply split_on_ne).
  apply Forall_app in Hlines as [_ Hlines].
  rewrite drain_chunks_short; [|].
  2:{ pose proof (split_on_ne (byte_is LF) (concat chunks)) as Hne.
      rewrite split_on_prefix in Hlines by done. destruct (split_on _ (concat chunks)); [done|].
      apply Forall_cons in Hlines as [H _]. rewrite length_app in H. lia. }
  specialize (IH (mkLineFramer rest max) Hrest Hlines). unfold frame_stream in IH. simpl in IH.
  destruct (push_all _ chunks) as [r2 f2]. by rewrite app_nil_r, <- app_assoc, IH.
Qed.

Lemma LineFramer_new_Some max f :
  LineFramer_new max = Some f → 0 < max ∧ f = mkLineFramer [] max.
Proof. unfold LineFramer_new. case_bool_decide; naive_solver. Qed.

(** ** Properties *)

(** Framing loses and invents nothing.  However a stream is cut into
    reads, the records returned by the pushes and the final flush come, in
    order, from consecutive slices whose concatenation is exactly the stream;
    each is either a terminated line less its LF and at most one CR, or an
    unterminated non-empty piece within [max_record_bytes], verbatim.  *)
Theorem framing_lossless (max : nat) (f : LineFramer) (chunks : list str) :
  LineFramer_new max = Some f →
  ∃ raws, concat raws = concat chunks ∧ Forall2 (record_of max) raws (frame_stream f chunks).
Proof.
  intros [Hmax ->]%LineFramer_new_Some. unfold frame_stream.
  destruct (push_all _ chunks) as [records f'] eqn:E.
  apply push_all_spec in E as (Hm & Hlf & Hlen & raws & Hs & Hr); simpl in *;
    [|done|unfold no_lf; set_solver|lia].
  rewrite Hs. unfold flush. destruct (fr_pending f') as [|b p] eqn:Hp; simpl.
  - exists raws. by rewrite !app_nil_r.
  - exists (raws ++ [b :: p]). rewrite concat_app. simpl. rewrite app_nil_r. split; [done|].
    apply Forall2_app; [done|]. constructor; [|constructor]. right.
    split_and!; [done|done|simpl; lia|done].
Qed.

Lemma framing_lossless_witness :
  ∃ raws, concat raws = concat [bs "ab"; bs "cde"] ∧
    Forall2 (record_of 4) raws (frame_stream (mkLineFramer [] 4) [bs "ab"; bs "cde"]).
Proof. apply (framing_lossless 4 _ [bs "ab"; bs "cde"]). reflexivity. Defined.

(** While the lines of a stream fit the bound, the records do not depend
    on how the stream was cut into reads: they are the reference framing of
    the concatenation, the CRs and LFs trimmed, empty lines kept and the
    unterminated tail last.  *)
Theorem framing_chunking_independent (max : nat) (f : LineFramer) (chunks : list str) :
  LineFramer_new max = Some f →
  Forall (λ line, length line ≤ max) (split_on (byte_is LF) (concat chunks)) →
  frame_stream f chunks = reference_lines (concat chunks).
Proof.
  intros [Hmax ->]%LineFramer_new_Some Hlines. apply (frame_stream_reference (mkLineFramer [] max) chunks); [|done].
  unfold no_lf. set_solver.
Qed.

Lemma framing_chunking_independent_witness :
  frame_stream (mkLineFramer [] 3) [[x61; CR]; [LF; LF; x62; x63]; [x64]] = [[x61]; []; [x62; x63; x64]].
Proof.
  rewrite (framing_chunking_independent 3 _ [[x61; CR]; [LF; LF; x62; x63]; [x64]]);
    [reflexivity|reflexivity|by_compute].
Defined.

(** Memory stays bounded.  After any pushes the buffer holds at most
    [max_record_bytes] bytes and no line end.  *)
Theorem framing_buffer_bounded (max : nat) (f : LineFramer) (chunks : list str) :
  LineFramer_new max = Some f →
  length (fr_pending (push_all f chunks).2) ≤ max ∧ no_lf (fr_pending (push_all f chunks).2).
Proof.
  intros [Hmax ->]%LineFramer_new_Some.
  destruct (push_all _ chunks) as [records f'] eqn:E.
  apply push_all_spec in E as (_ & Hlf & Hlen & _); simpl in *; [done|done|unfold no_lf; set_solver|lia].
Qed.

Lemma framing_buffer_bounded_witness :
  length (fr_pending (push_all (mkLineFramer [] 2) [bs "abcde"]).2) ≤ 2.
Proof. apply (framing_buffer_bounded 2 _ [bs "abcde"]). reflexivity. Defined.
