(* ===== verification/Spool.v ===== *)
(** * The event spool (crates/hiloop-interceptor/src/spool.rs)

    [SpoolingExporter] decorates a single-shot exporter with a bounded queue,
    classified retry and in-order redelivery.  The wrapped exporter and the
    clock are the class [SinkWorld]: a world that every call threads, so that
    outcomes and elapsed time are the environment's choice.  The spool's mutex
    serialises its operations, so an operation is one function on the state.

    Instants and durations are nanoseconds.  [u64] counters wrap, as in the
    release profile.  A [tokio::time::timeout] that fires drops the call under
    way: [abandon_export] and [abandon_completion] give the world it leaves at
    the deadline. *)
From Stdlib Require Import Strings.Byte.
From S2P Require Import Prelude Text Net Identity Event Capture Completion.

(** ** Errors and outcomes *)

Inductive ExportError :=
| Backpressure (exporter message : str)
| Unavailable (exporter message : str)
| Rejected (exporter message : str)
| Other (exporter message : str).

Definition ExportError_fmt (e : ExportError) : str :=
  let show exporter infix message := bs "exporter `" ++ exporter ++ bs infix ++ message in
  match e with
  | Backpressure x m => show x "` is applying back-pressure: " m
  | Unavailable x m => show x "` is unavailable: " m
  | Rejected x m => show x "` rejected the batch: " m
  | Other x m => show x "` failed: " m
  end.

Inductive AttemptFailure := Transient (m : str) | Permanent (m : str) | Ambiguous (m : str).

Definition message (f : AttemptFailure) : str :=
  match f with Transient m | Permanent m | Ambiguous m => m end.

Definition classify (error : ExportError) : AttemptFailure :=
  let message := ExportError_fmt error in
  match error with
  | Backpressure _ _ | Unavailable _ _ => Transient message
  | Rejected _ _ => Permanent message
  | Other _ _ => Ambiguous message
  end.

(** What awaiting an operation gives: its value, the operation dropped by the
    deadline around it, or an exhausted iteration budget. *)
Inductive Await (A : Type) := Ready (a : A) | Dropped | Spinning.
Arguments Ready {A} a.
Arguments Dropped {A}.
Arguments Spinning {A}.

(** ** Durations *)

Definition duration_max : Z := u64_max * 1000000000 + 999999999.
Definition millis (n : Z) : Z := n * 1000000.
Definition secs (n : Z) : Z := n * 1000000000.

(** [{:?}] of a [Duration]: the largest unit that is not zero, with its
    fraction's trailing zeros trimmed. *)
Fixpoint trim_zeros (s : str) : str :=
  match s with
  | [] => []
  | b :: s => match trim_zeros s with
              | [] => if byte_is x30 b then [] else [b]
              | t => b :: t
              end
  end.
Definition fmt_decimal (integer fraction : Z) (width : nat) (unit : string) : str :=
  let digits := trim_zeros (zero_padded width fraction) in
  show_uint integer ++ (if bool_decide (digits = []) then [] else x2e :: digits) ++ bs unit.
Definition fmt_duration (d : Z) : str :=
  if (d <? 1000)%Z then fmt_decimal d 0 0 "ns"
  else if (d <? 1000000)%Z then fmt_decimal (d / 1000) (d mod 1000) 3 "µs"
  else if (d <? 1000000000)%Z then fmt_decimal (d / 1000000) (d mod 1000000) 6 "ms"
  else fmt_decimal (d / 1000000000) (d mod 1000000000) 9 "s".

(** ** Policy and report *)

Definition DEFAULT_EXPORT_BATCH_SIZE : nat := 128.

Record SpoolPolicy := mkSpoolPolicy {
  max_events : nat;
  max_bytes : Z;
  initial_backoff : Z;
  max_backoff : Z;
  attempt_timeout : Z;
  drain_batch_size : nat;
}.

Definition SpoolPolicy_default : SpoolPolicy :=
  mkSpoolPolicy (Z.to_nat 8192) (32 * 1024 * 1024) (millis 500) (secs 30) (secs 10)
    DEFAULT_EXPORT_BATCH_SIZE.

Record DrainRetryPolicy := mkDrainRetryPolicy { attempts : Z; retry_initial_backoff : Z }.
Definition DrainRetryPolicy_default : DrainRetryPolicy := mkDrainRetryPolicy 3 (millis 500).

Record SpoolReport := mkSpoolReport {
  rp_spooled_events : Z;
  rp_delivered_events : Z;
  rp_pending_events : nat;
  rp_pending_bytes : Z;
  rp_dropped_events : Z;
  rp_rejected_events : Z;
  rp_completion_pending : bool;
  rp_completion_rejected : bool;
}.

Definition is_clean (r : SpoolReport) : bool :=
  Nat.eqb (rp_pending_events r) 0 && (rp_dropped_events r =? 0)%Z && (rp_rejected_events r =? 0)%Z
  && negb (rp_completion_pending r) && negb (rp_completion_rejected r).

Definition is_lossless_so_far (r : SpoolReport) : bool :=
  (rp_dropped_events r =? 0)%Z && (rp_rejected_events r =? 0)%Z.

(** ** State *)

Section spool.
Context {U : UlidLib}.

Record SpooledEvent := mkSpooled { sp_event : Event; sp_bytes : Z }.
Record TerminalEvent := mkTerminal { t_event : Event; t_report : CaptureCompletionReport }.

Record SpoolState := mkSpoolState {
  queue : list SpooledEvent;
  terminal : option TerminalEvent;
  terminal_seen : bool;
  terminal_rejected : bool;
  queued_bytes : Z;
  dropped_events : Z;
  rejected_events : Z;
  spooled_events : Z;
  delivered_events : Z;
  consecutive_failures : Z;
  next_attempt_at : option Z;
  last_failure : option str;
  drop_warned : bool;
}.

Definition SpoolState_default : SpoolState :=
  mkSpoolState [] None false false 0 0 0 0 0 0 None None false.

(** Field updates. *)
Definition set_queue (s : SpoolState) (q : list SpooledEvent) (bytes : Z) : SpoolState :=
  mkSpoolState q (terminal s) (terminal_seen s) (terminal_rejected s) bytes (dropped_events s)
    (rejected_events s) (spooled_events s) (delivered_events s) (consecutive_failures s)
    (next_attempt_at s) (last_failure s) (drop_warned s).
Definition set_terminal (s : SpoolState) (t : option TerminalEvent) (seen rejected : bool) : SpoolState :=
  mkSpoolState (queue s) t seen rejected (queued_bytes s) (dropped_events s)
    (rejected_events s) (spooled_events s) (delivered_events s) (consecutive_failures s)
    (next_attempt_at s) (last_failure s) (drop_warned s).
Definition set_counts (s : SpoolState) (dropped rejected spooled delivered : Z) (warned : bool) : SpoolState :=
  mkSpoolState (queue s) (terminal s) (terminal_seen s) (terminal_rejected s) (queued_bytes s) dropped
    rejected spooled delivered (consecutive_failures s) (next_attempt_at s) (last_failure s) warned.
Definition set_retry (s : SpoolState) (failures : Z) (next : option Z) (last : option str) : SpoolState :=
  mkSpoolState (queue s) (terminal s) (terminal_seen s) (terminal_rejected s) (queued_bytes s)
    (dropped_events s) (rejected_events s) (spooled_events s) (delivered_events s) failures next last
    (drop_warned s).

Definition add_u64 (a b : Z) : Z := ((a + b) mod (u64_max + 1))%Z.

Definition in_backoff (s : SpoolState) (now : Z) : bool :=
  match next_attempt_at s with Some at_ => (now <? at_)%Z | None => false end.

Definition report (s : SpoolState) : SpoolReport :=
  mkSpoolReport (spooled_events s) (delivered_events s) (length (queue s)) (queued_bytes s)
    (dropped_events s) (rejected_events s) (bool_decide (is_Some (terminal s))) (terminal_rejected s).

Definition on_success (s : SpoolState) : SpoolState := set_retry s 0 None (last_failure s).

Definition on_failure (s : SpoolState) (policy : SpoolPolicy) (now : Z) (message : str) : SpoolState :=
  let exponent := Z.min (consecutive_failures s) 16 in
  let failures := saturating_add u32_max (consecutive_failures s) 1 in
  let backoff := Z.min (saturating_mul duration_max (initial_backoff policy) (Z.min u32_max (2 ^ exponent)))
                   (max_backoff policy) in
  set_retry s failures (Some (now + backoff)%Z) (Some message).

(** [while] either cap is exceeded, the oldest event goes. *)
Fixpoint enforce_caps (policy : SpoolPolicy) (q : list SpooledEvent) (bytes dropped : Z) (warned : bool)
    : list SpooledEvent * Z * Z * bool :=
  if bool_decide (max_events policy < length q) || (max_bytes policy <? bytes)%Z then
    match q with
    | [] => (q, bytes, dropped, warned)
    | oldest :: q =>
        enforce_caps policy q (saturating_sub bytes (sp_bytes oldest)) (add_u64 dropped 1) true
    end
  else (q, bytes, dropped, warned).

Fixpoint pop_front (s : SpoolState) (count : nat) : SpoolState :=
  match count with
  | O => s
  | S count =>
      match queue s with
      | [] => pop_front s count
      | spooled :: q => pop_front (set_queue s q (saturating_sub (queued_bytes s) (sp_bytes spooled))) count
      end
  end.

(** ** The wrapped exporter *)

(** The exporter behind the spool, the clock and the serializer. *)
Class SinkWorld (W : Type) := {
  now : W → Z;
  sleep_until : W → Z → W;
  sink_export : W → list Event → W * result ExportError unit;
  abandon_export : W → list Event → Z → W;
  sink_completion : W → Event → CaptureCompletionReport → W * result ExportError unit;
  abandon_completion : W → Event → CaptureCompletionReport → Z → W;
  sink_flush : W → W * result ExportError unit;
  serialized_len : Event → option Z;
}.

(** The clock reads the deadline when a sleep or a dropped call ends there. *)
Class ClockLaws (W : Type) {SW : SinkWorld W} := {
  now_sleep : ∀ w d, (now w ≤ d)%Z → now (sleep_until w d) = d;
  now_abandon_export : ∀ w es d, now (abandon_export w es d) = d;
  now_abandon_completion : ∀ w e r d, now (abandon_completion w e r d) = d;
}.

Context {W : Type} {SW : SinkWorld W} (policy : SpoolPolicy).

Definition approx_event_bytes (event : Event) : Z := default 1024%Z (serialized_len event).

(** [timeout(at - now, call)] inside a future that is itself dropped at [outer]. *)
Definition timeout_call (outer : option Z) (at_ : Z) (call : W * result ExportError unit)
    (drop_at : Z → W) : W * Await (option (result ExportError unit)) :=
  let '(w, outcome) := call in
  let cut := match outer with Some d => (d <? at_)%Z && (d <? now w)%Z | None => false end in
  if cut then (drop_at (default at_ outer), Dropped)
  else if (now w <=? at_)%Z then (w, Ready (Some outcome))
  else (drop_at at_, Ready None).

Definition classify_attempt (what : string) (r : option (result ExportError unit)) : result AttemptFailure unit :=
  match r with
  | Some (Ok _) => Ok ()
  | Some (Err error) => Err (classify error)
  | None => Err (Transient (bs what ++ bs " attempt timed out after " ++ fmt_duration (attempt_timeout policy)))
  end.

Definition await_map {A B} (f : A → B) (a : Await A) : Await B :=
  match a with Ready a => Ready (f a) | Dropped => Dropped | Spinning => Spinning end.

Definition attempt (outer : option Z) (w : W) (events : list Event) : W * Await (result AttemptFailure unit) :=
  let '(w', r) := timeout_call outer (now w + attempt_timeout policy) (sink_export w events)
                    (abandon_export w events) in
  (w', await_map (classify_attempt "export") r).

Definition deliver (outer : option Z) (w : W) (events : list Event) : W * Await (result AttemptFailure unit) :=
  match attempt outer w events with
  | (w, Ready (Err (Ambiguous _))) => attempt outer w events
  | outcome => outcome
  end.

Definition attempt_completion (outer : option Z) (w : W) (t : TerminalEvent)
    : W * Await (result AttemptFailure unit) :=
  let '(w', r) := timeout_call outer (now w + attempt_timeout policy) (sink_completion w (t_event t) (t_report t))
                    (abandon_completion w (t_event t) (t_report t)) in
  (w', await_map (classify_attempt "completion export") r).

(** The inline retry of an ambiguous completion attempt. *)
Definition deliver_completion (outer : option Z) (w : W) (t : TerminalEvent)
    : W * Await (result AttemptFailure unit) :=
  match attempt_completion outer w t with
  | (w, Ready (Err (Ambiguous _))) => attempt_completion outer w t
  | outcome => outcome
  end.

Definition deliver_terminal (outer : option Z) (w : W) (s : SpoolState)
    : W * SpoolState * Await (result unit unit) :=
  match terminal s with
  | None => (w, s, Ready (Ok ()))
  | Some t =>
      let '(w, outcome) := deliver_completion outer w t in
      match outcome with
      | Ready (Ok _) =>
          (w, on_success (set_terminal s None (terminal_seen s) (terminal_rejected s)), Ready (Ok ()))
      | Ready (Err (Permanent _)) => (w, set_terminal s None (terminal_seen s) true, Ready (Ok ()))
      | Ready (Err failure) => (w, on_failure s policy (now w) (message failure), Ready (Err ()))
      | Dropped => (w, s, Dropped)
      | Spinning => (w, s, Spinning)
      end
  end.

Definition add_delivered (s : SpoolState) (n : nat) : SpoolState :=
  set_counts s (dropped_events s) (rejected_events s) (spooled_events s)
    (add_u64 (delivered_events s) (Z.of_nat n)) (drop_warned s).
Definition add_rejected (s : SpoolState) (n : nat) : SpoolState :=
  set_counts s (dropped_events s) (add_u64 (rejected_events s) (Z.of_nat n)) (spooled_events s)
    (delivered_events s) (drop_warned s).

Fixpoint deliver_queue (fuel : nat) (outer : option Z) (w : W) (s : SpoolState)
    : W * SpoolState * Await (result unit unit) :=
  match queue s, fuel with
  | [], _ => (w, s, Ready (Ok ()))
  | _, O => (w, s, Spinning)
  | _, S fuel =>
      let chunk_len := Nat.min (length (queue s)) (drain_batch_size policy) in
      let chunk := sp_event <$> take chunk_len (queue s) in
      let '(w, outcome) := deliver outer w chunk in
      match outcome with
      | Ready (Ok _) => deliver_queue fuel outer w (on_success (pop_front (add_delivered s chunk_len) chunk_len))
      | Ready (Err (Permanent _)) => deliver_queue fuel outer w (add_rejected (pop_front s chunk_len) chunk_len)
      | Ready (Err failure) => (w, on_failure s policy (now w) (message failure), Ready (Err ()))
      | Dropped => (w, s, Dropped)
      | Spinning => (w, s, Spinning)
      end
  end.

(** Every iteration removes at least one event, so the queue's length bounds
    the iterations (see [deliver_queue_inv]). *)
Definition deliver_backlog (outer : option Z) (w : W) (s : SpoolState)
    : W * SpoolState * Await (result unit unit) :=
  deliver_queue (length (queue s)) outer w s.

Definition deliver_all (outer : option Z) (w : W) (s : SpoolState)
    : W * SpoolState * Await (result unit unit) :=
  if terminal_seen s && negb (bool_decide (queue s = [])) then (w, s, Ready (Err ()))
  else match deliver_backlog outer w s with
       | (w, s, Ready (Ok _)) => deliver_terminal outer w s
       | stopped => stopped
       end.

Definition push_back (s : SpoolState) (event : Event) : SpoolState :=
  let bytes := approx_event_bytes event in
  set_queue s (queue s ++ [mkSpooled event bytes]) (add_u64 (queued_bytes s) bytes).

Definition enqueue (s : SpoolState) (events : list Event) : SpoolState :=
  let s := set_counts s (dropped_events s) (rejected_events s)
             (add_u64 (spooled_events s) (Z.of_nat (length events))) (delivered_events s) (drop_warned s) in
  let s := foldl push_back s events in
  let '(q, bytes, dropped, warned) :=
    enforce_caps policy (queue s) (queued_bytes s) (dropped_events s) (drop_warned s) in
  set_counts (set_queue s q bytes) dropped (rejected_events s) (spooled_events s) (delivered_events s) warned.

(** ** The [Exporter] operations *)

Definition spool_export (w : W) (s : SpoolState) (events : list Event)
    : W * SpoolState * Await (result ExportError unit) :=
  if bool_decide (events = []) then (w, s, Ready (Ok ()))
  else if terminal_seen s then
    (w, s, Ready (Err (Rejected (bs "event-spool")
                         (bs "capture completion has already closed the event stream"))))
  else if in_backoff s (now w) then (w, enqueue s events, Ready (Ok ()))
  else match deliver_backlog None w s with
       | (w, s, Ready (Err _)) => (w, enqueue s events, Ready (Ok ()))
       | (w, s, Ready (Ok _)) =>
           let '(w, outcome) := deliver None w events in
           match outcome with
           | Ready (Ok _) => (w, on_success (add_delivered s (length events)), Ready (Ok ()))
           | Ready (Err (Permanent _)) => (w, add_rejected s (length events), Ready (Ok ()))
           | Ready (Err failure) =>
               (w, enqueue (on_failure s policy (now w) (message failure)) events, Ready (Ok ()))
           | Dropped => (w, s, Dropped)
           | Spinning => (w, s, Spinning)
           end
       | (w, s, Dropped) => (w, s, Dropped)
       | (w, s, Spinning) => (w, s, Spinning)
       end.

Definition spool_export_completion (s : SpoolState) (event : Event) (report : CaptureCompletionReport)
    : SpoolState * result ExportError unit :=
  if terminal_seen s then
    (s, Err (Rejected (bs "event-spool") (bs "capture completion was already queued")))
  else (set_terminal s (Some (mkTerminal event report)) true (terminal_rejected s), Ok ()).

Definition spool_flush (w : W) (s : SpoolState) : W * SpoolState * Await (result ExportError unit) :=
  let '(w, s, backlog) :=
    if negb (terminal_seen s) && negb (bool_decide (queue s = [])) && negb (in_backoff s (now w))
    then deliver_backlog None w s else (w, s, Ready (Ok ())) in
  match backlog with
  | Ready _ => let '(w, r) := sink_flush w in (w, s, Ready r)
  | Dropped => (w, s, Dropped)
  | Spinning => (w, s, Spinning)
  end.

(** ** Run-end drain *)

Fixpoint phase_budget_from (n : nat) (budget backoff : Z) : Z :=
  match n with
  | O => budget
  | S n => phase_budget_from n (saturating_add duration_max budget backoff) (saturating_mul duration_max backoff 2)
  end.

Definition drain_phase_budget (retry : DrainRetryPolicy) : Z :=
  let attempts := Z.max (attempts retry) 1 in
  phase_budget_from (Z.to_nat (attempts - 1)) (saturating_mul duration_max (attempt_timeout policy) attempts)
    (retry_initial_backoff retry).

(** [sleep(backoff)] under the phase deadline. *)
Definition sleep (deadline : Z) (w : W) (backoff : Z) : W * Await unit :=
  if (deadline <? now w + backoff)%Z then (sleep_until w deadline, Dropped)
  else (sleep_until w (now w + backoff)%Z, Ready ()).

(** Passes left after the current one; [first] skips the sleep. *)
Fixpoint drain_passes (n : nat) (first : bool) (deadline backoff : Z) (w : W) (s : SpoolState)
    : W * SpoolState * Await unit :=
  match n with
  | O => (w, s, Ready ())
  | S n =>
      let '(w, woke) := if first then (w, Ready ()) else sleep deadline w backoff in
      match woke with
      | Ready _ =>
          let backoff := if first then backoff else saturating_mul duration_max backoff 2 in
          match deliver_all (Some deadline) w s with
          | (w, s, Ready (Ok _)) => (w, s, Ready ())
          | (w, s, Ready (Err _)) => drain_passes n false deadline backoff w s
          | (w, s, Dropped) => (w, s, Dropped)
          | (w, s, Spinning) => (w, s, Spinning)
          end
      | Dropped => (w, s, Dropped)
      | Spinning => (w, s, Spinning)
      end
  end.

Definition drain (w : W) (s : SpoolState) (retry : DrainRetryPolicy) : W * SpoolState * Await SpoolReport :=
  if terminal_seen s && negb (bool_decide (queue s = [])) then (w, s, Ready (report s))
  else
    let budget := drain_phase_budget retry in
    match drain_passes (Z.to_nat (Z.max (attempts retry) 1)) true (now w + budget)
            (retry_initial_backoff retry) w s with
    | (w, s, Ready _) => (w, s, Ready (report s))
    | (w, s, Dropped) =>
        let s := set_retry s (consecutive_failures s) (next_attempt_at s)
                   (Some (bs "run-end drain phase timed out after " ++ fmt_duration budget)) in
        (w, s, Ready (report s))
    | (w, s, Spinning) => (w, s, Spinning)
    end.
End spool.

(** ** Specification *)

(** What the wrapped exporter has acknowledged, in order.  [logged_world]
    watches any world and records it; a dropped call acknowledges nothing. *)
Section logged.
Context {U : UlidLib} {W : Type} {SW : SinkWorld W}.

Record SinkLog := mkLog { acked : list Event; completions : list TerminalEvent }.

#[export] Instance logged_world : SinkWorld (W * SinkLog) := {|
  now w := now w.1;
  sleep_until w d := (sleep_until w.1 d, w.2);
  sink_export w es :=
    let '(w', r) := sink_export w.1 es in
    (w', if is_ok r then mkLog (acked w.2 ++ es) (completions w.2) else w.2, r);
  abandon_export w es d := (abandon_export w.1 es d, w.2);
  sink_completion w e rep :=
    let '(w', r) := sink_completion w.1 e rep in
    (w', if is_ok r then mkLog (acked w.2) (completions w.2 ++ [mkTerminal e rep]) else w.2, r);
  abandon_completion w e rep d := (abandon_completion w.1 e rep d, w.2);
  sink_flush w := let '(w', r) := sink_flush w.1 in (w', w.2, r);
  serialized_len := serialized_len;
|}.

(** Operations in the order the mutex serialises them, with the events and
    the completion the spool has accepted so far. *)
Inductive spool_op :=
| OpExport (events : list Event)
| OpCompletion (event : Event) (report : CaptureCompletionReport)
| OpFlush
| OpDrain (retry : DrainRetryPolicy)
| OpWait (until : Z).

Record Run := mkRun {
  run_world : W * SinkLog;
  run_state : SpoolState;
  accepted : list Event;
  submitted : option TerminalEvent;
}.

Context (policy : SpoolPolicy).

Definition run_step (r : Run) (op : spool_op) : Run :=
  let s := run_state r in
  match op with
  | OpExport es =>
      let '(w, s', _) := spool_export policy (run_world r) s es in
      mkRun w s' (if terminal_seen s then accepted r else accepted r ++ es) (submitted r)
  | OpCompletion e rep =>
      mkRun (run_world r) (spool_export_completion s e rep).1 (accepted r)
        (if terminal_seen s then submitted r else Some (mkTerminal e rep))
  | OpFlush => let '(w, s', _) := spool_flush policy (run_world r) s in mkRun w s' (accepted r) (submitted r)
  | OpDrain retry =>
      let '(w, s', _) := drain policy (run_world r) s retry in mkRun w s' (accepted r) (submitted r)
  | OpWait d => mkRun (sleep_until (run_world r) d) s (accepted r) (submitted r)
  end.

Definition run_init (w : W) : Run := mkRun (w, mkLog [] []) SpoolState_default [] None.
Definition run_ops (w : W) (ops : list spool_op) : Run := foldl run_step (run_init w) ops.

Definition bytes_of (q : list SpooledEvent) : Z := foldr (λ x n, (sp_bytes x + n)%Z) 0%Z q.
Definition park (e : Event) : SpooledEvent := mkSpooled e (approx_event_bytes e).

(** A batch's bytes fit the byte counter on top of a full spool. *)
Definition batch_fits (es : list Event) : Prop :=
  (max_bytes policy + bytes_of (park <$> es) ≤ u64_max)%Z.
Definition op_fits (op : spool_op) : Prop :=
  match op with OpExport es => batch_fits es | _ => True end.
Definition op_events (op : spool_op) : nat :=
  match op with OpExport es => length es | _ => 0 end.

Definition within_caps (q : list SpooledEvent) : Prop :=
  length q ≤ max_events policy ∧ (bytes_of q ≤ max_bytes policy)%Z.

(** The terminal lane: nothing submitted, waiting, refused or acknowledged;
    in the last two cases the data queue had been settled. *)
Definition terminal_inv (sub : option TerminalEvent) (l : SinkLog) (s : SpoolState) : Prop :=
  match sub with
  | None => terminal_seen s = false ∧ terminal s = None ∧ terminal_rejected s = false ∧ completions l = []
  | Some t =>
      terminal_seen s = true ∧
      ((terminal s = Some t ∧ terminal_rejected s = false ∧ completions l = []) ∨
       (terminal s = None ∧ queue s = [] ∧ terminal_rejected s = true ∧ completions l = []) ∨
       (terminal s = None ∧ queue s = [] ∧ terminal_rejected s = false ∧ completions l = [t]))
  end.

(** The data lane: the acknowledged events followed by the waiting ones are a
    subsequence of the accepted ones, every accepted event is in exactly one
    account, and the byte account is exact. *)
Definition data_inv (acc : list Event) (l : SinkLog) (s : SpoolState) : Prop :=
  sublist (acked l ++ (sp_event <$> queue s)) acc ∧
  delivered_events s = Z.of_nat (length (acked l)) ∧
  (0 ≤ dropped_events s)%Z ∧ (0 ≤ rejected_events s)%Z ∧
  (delivered_events s + dropped_events s + rejected_events s + Z.of_nat (length (queue s))
   = Z.of_nat (length acc))%Z ∧
  queued_bytes s = bytes_of (queue s) ∧
  Forall (λ x, sp_bytes x = approx_event_bytes (sp_event x)) (queue s).

Definition state_inv (acc : list Event) (sub : option TerminalEvent) (l : SinkLog) (s : SpoolState) : Prop :=
  data_inv acc l s ∧ within_caps (queue s) ∧ terminal_inv sub l s.
Definition spool_inv (r : Run) : Prop :=
  state_inv (accepted r) (submitted r) (run_world r).2 (run_state r).
End logged.

(** Byte lengths are lengths. *)
Class SerializerLaws (W : Type) {U : UlidLib} {SW : SinkWorld W} : Prop :=
  serialized_len_nonneg : ∀ e n, serialized_len e = Some n → (0 ≤ n)%Z.

(** ** Lemmas *)

Lemma add_u64_small a b : (0 ≤ a + b ≤ u64_max)%Z → add_u64 a b = (a + b)%Z.
Proof. intros. apply Z.mod_small. lia. Qed.

Section queue_lemmas.
Context {U : UlidLib} {W : Type} {SW : SinkWorld W} {SL : SerializerLaws W} (policy : SpoolPolicy).
Implicit Types (q : list SpooledEvent) (s : SpoolState) (es : list Event).

Definition sized q : Prop := Forall (λ x, sp_bytes x = approx_event_bytes (sp_event x)) q.

Lemma approx_nonneg e : (0 ≤ approx_event_bytes e)%Z.
Proof.
  unfold approx_event_bytes. destruct (serialized_len e) eqn:E; simpl; [|lia].
  by eapply serialized_len_nonneg.
Qed.

Lemma bytes_of_app q q' : bytes_of (q ++ q') = (bytes_of q + bytes_of q')%Z.
Proof. induction q; simpl; lia. Qed.

Lemma bytes_of_nonneg q : sized q → (0 ≤ bytes_of q)%Z.
Proof.
  induction 1 as [|x q Hx _ IH]; simpl; [lia|]. rewrite Hx. pose proof (approx_nonneg (sp_event x)). lia.
Qed.

Lemma sized_park es : sized (park <$> es).
Proof. induction es; constructor; done. Qed.

Lemma park_events es : sp_event <$> (park <$> es) = es.
Proof. induction es; csimpl; congruence. Qed.

Lemma sized_drop k q : sized q → sized (drop k q).
Proof. apply Forall_drop. Qed.

Lemma pop_front_spec s n :
  sized (queue s) → queued_bytes s = bytes_of (queue s) →
  pop_front s n = set_queue s (drop n (queue s)) (bytes_of (drop n (queue s))).
Proof.
  revert s. induction n as [|n IH]; intros s Hs Hb; simpl.
  { rewrite drop_0, <- Hb. by destruct s. }
  destruct (queue s) as [|x q] eqn:Hq; simpl.
  - rewrite IH by (rewrite Hq; done). rewrite Hq. by rewrite drop_nil.
  - apply Forall_cons in Hs as [Hx Hs]. pose proof (bytes_of_nonneg q Hs).
    assert (saturating_sub (queued_bytes s) (sp_bytes x) = bytes_of q) as Heq
      by (rewrite Hb; unfold saturating_sub; simpl; lia).
    by rewrite IH by (simpl; done).
Qed.

(** The cap loop drops the fewest oldest events that satisfy both caps. *)
Lemma enforce_caps_spec q dropped warned :
  (0 ≤ max_bytes policy)%Z → sized q → (0 ≤ dropped)%Z → (dropped + Z.of_nat (length q) ≤ u64_max)%Z →
  ∃ k warned', k ≤ length q ∧
    enforce_caps policy q (bytes_of q) dropped warned =
      (drop k q, bytes_of (drop k q), dropped + Z.of_nat k, warned')%Z ∧
    within_caps policy (drop k q) ∧ (∀ j, j < k → ¬ within_caps policy (drop j q)).
Proof.
  intros Hmax Hs. revert dropped warned. induction Hs as [|x q Hx Hs IH]; intros dropped warned Hd Hlen.
  { exists 0, warned. unfold within_caps. simpl.
    split_and!; [lia| |simpl; lia|simpl; lia|lia].
    rewrite Z.add_0_r. by case_match. }
  cbn [enforce_caps]. destruct (bool_decide _ || _) eqn:Hover.
  - pose proof (bytes_of_nonneg q Hs). simpl in Hlen.
    assert (saturating_sub (bytes_of (x :: q)) (sp_bytes x) = bytes_of q) as ->
      by (unfold saturating_sub; simpl; lia).
    rewrite add_u64_small by lia.
    destruct (IH (dropped + 1)%Z true) as (k & warned' & Hk & -> & Hcaps & Hmin); [lia|lia|].
    exists (S k), warned'.
    replace (dropped + Z.of_nat (S k))%Z with (dropped + 1 + Z.of_nat k)%Z by lia.
    split_and!; [simpl; lia|done| apply Hcaps..|].
    intros [|j] Hj; [|apply Hmin; lia]. simpl. intros [Hl Hb].
    apply orb_true_iff in Hover as [?%bool_decide_eq_true|?%Z.ltb_lt]; lia.
  - apply orb_false_iff in Hover as [?%bool_decide_eq_false ?%Z.ltb_ge].
    exists 0, warned. rewrite drop_0, Z.add_0_r. split_and!; [lia|done|split; lia|lia].
Qed.

Lemma bytes_of_park_cons e es :
  bytes_of (park <$> e :: es) = (approx_event_bytes e + bytes_of (park <$> es))%Z.
Proof. done. Qed.

Lemma push_all_back s es :
  (0 ≤ queued_bytes s)%Z → (queued_bytes s + bytes_of (park <$> es) ≤ u64_max)%Z →
  foldl push_back s es = set_queue s (queue s ++ (park <$> es)) (queued_bytes s + bytes_of (park <$> es))%Z.
Proof.
  revert s. induction es as [|e es IH]; intros s Hb Hmax; cbn [foldl].
  { simpl. rewrite app_nil_r, Z.add_0_r. by destruct s. }
  rewrite bytes_of_park_cons in *. pose proof (approx_nonneg e). pose proof (bytes_of_nonneg _ (sized_park es)).
  unfold push_back at 2. rewrite add_u64_small by lia. rewrite IH by (simpl; lia).
  unfold set_queue. cbn. f_equal; [by rewrite <- app_assoc|lia].
Qed.

(** Parking a batch appends it and then keeps the longest suffix of the queue
    that satisfies both caps. *)
Lemma enqueue_spec s es :
  (0 ≤ max_bytes policy)%Z → sized (queue s) → queued_bytes s = bytes_of (queue s) →
  (queued_bytes s + bytes_of (park <$> es) ≤ u64_max)%Z → (0 ≤ dropped_events s)%Z →
  (dropped_events s + Z.of_nat (length (queue s) + length es) ≤ u64_max)%Z →
  let all := queue s ++ (park <$> es) in
  ∃ k warned', k ≤ length all ∧
    enqueue policy s es =
      set_counts (set_queue s (drop k all) (bytes_of (drop k all)))
        (dropped_events s + Z.of_nat k)%Z (rejected_events s)
        (add_u64 (spooled_events s) (Z.of_nat (length es))) (delivered_events s) warned' ∧
    within_caps policy (drop k all) ∧ (∀ j, j < k → ¬ within_caps policy (drop j all)).
Proof.
  intros Hmax Hs Hb Hfit Hd Hcount all. pose proof (bytes_of_nonneg _ Hs).
  unfold enqueue. rewrite push_all_back by (simpl; lia). cbn [queue queued_bytes set_queue set_counts].
  rewrite Hb, <- bytes_of_app. fold all.
  destruct (enforce_caps_spec all (dropped_events s) (drop_warned s)) as (k & warned' & Hk & E & Hrest);
    [done| |done| |].
  { apply Forall_app. split; [done|apply sized_park]. }
  { unfold all. rewrite length_app, length_fmap. lia. }
  simpl. rewrite E. by exists k, warned'.
Qed.
End queue_lemmas.

Section run_lemmas.
Context {U : UlidLib} {W : Type} {SW : SinkWorld W} {SL : SerializerLaws W} (policy : SpoolPolicy).
Implicit Types (w : W) (l : SinkLog) (s : SpoolState) (es acc : list Event).

#[export] Instance logged_serializer : SerializerLaws (W * SinkLog).
Proof. intros e n. apply (serialized_len_nonneg (W := W)). Qed.

Definition acks (r : Await (result AttemptFailure unit)) es : list Event :=
  match r with Ready (Ok _) => es | _ => [] end.

Lemma attempt_log outer w l es w' l' r :
  attempt policy outer (w, l) es = ((w', l'), r) →
  l' = mkLog (acked l ++ acks r es) (completions l) ∧ r ≠ Spinning ∧ (outer = None → r ≠ Dropped).
Proof.
  unfold attempt, timeout_call. simpl. destruct (sink_export w es) as [w1 [[]|e]], l, outer as [d|];
    simpl; intros H; repeat case_match; simplify_eq/=; rewrite ?app_nil_r; naive_solver.
Qed.

Lemma deliver_log outer w l es w' l' r :
  deliver policy outer (w, l) es = ((w', l'), r) →
  l' = mkLog (acked l ++ acks r es) (completions l) ∧ r ≠ Spinning ∧ (outer = None → r ≠ Dropped).
Proof.
  unfold deliver. destruct (attempt policy outer (w, l) es) as [[w1 l1] r1] eqn:E1.
  apply attempt_log in E1 as (-> & Hs & Hd).
  destruct r1 as [[[]|[]]| |]; try (intros [= <- <- <-]; done).
  simpl. rewrite app_nil_r. intros H. apply attempt_log in H. done.
Qed.

(** An acknowledged prefix of the queue moves to the delivered account. *)
Lemma data_inv_delivered acc l s n c :
  (Z.of_nat (length acc) ≤ u64_max)%Z → n ≤ length (queue s) → data_inv acc l s →
  data_inv acc (mkLog (acked l ++ (sp_event <$> take n (queue s))) c) (pop_front (add_delivered s n) n).
Proof.
  intros Hmax Hn (Hsub & Hdel & Hdrop & Hrej & Hsum & Hb & Hsz).
  rewrite pop_front_spec by done. unfold data_inv. simpl.
  rewrite add_u64_small by lia. split_and!; [| |done|done| |done|by apply sized_drop].
  - rewrite <- app_assoc, <- fmap_app, take_drop. done.
  - rewrite length_app, length_fmap, length_take. lia.
  - rewrite length_drop. lia.
Qed.

(** A refused prefix of the queue moves to the rejected account. *)
Lemma data_inv_rejected acc l s n :
  (Z.of_nat (length acc) ≤ u64_max)%Z → n ≤ length (queue s) → data_inv acc l s →
  data_inv acc l (add_rejected (pop_front s n) n).
Proof.
  intros Hmax Hn (Hsub & Hdel & Hdrop & Hrej & Hsum & Hb & Hsz).
  rewrite pop_front_spec by done. unfold data_inv. simpl.
  rewrite add_u64_small by lia. split_and!; [|done|done|lia| |done|by apply sized_drop].
  - etrans; [|exact Hsub]. apply sublist_app; [done|]. rewrite fmap_drop. apply sublist_drop.
  - rewrite length_drop. lia.
Qed.

(** The data lane does not read the retry fields. *)
Lemma data_inv_retry acc l s f a m : data_inv acc l s → data_inv acc l (set_retry s f a m).
Proof. done. Qed.

Definition lane s := (terminal s, terminal_seen s, terminal_rejected s).

Lemma lane_pop_front s n : lane (pop_front s n) = lane s.
Proof. revert s. induction n as [|n IH]; intros s; simpl; [done|]. case_match; by rewrite IH. Qed.

Lemma queue_pop_front s n : queue (pop_front s n) = drop n (queue s).
Proof.
  revert s. induction n as [|n IH]; intros s; simpl; [done|].
  destruct (queue s) eqn:E; rewrite IH; simpl; [by rewrite E, drop_nil|done].
Qed.

(** A delivery pass keeps the data lane consistent, removes a prefix of the
    queue, leaves the terminal lane alone, ends with an empty queue when it
    succeeds, and runs out of neither time nor iterations on its own. *)
Lemma deliver_queue_inv fuel outer w l s acc w' l' s' r :
  (Z.of_nat (length acc) ≤ u64_max)%Z → data_inv acc l s →
  deliver_queue policy fuel outer (w, l) s = ((w', l'), s', r) →
  data_inv acc l' s' ∧ completions l' = completions l ∧ lane s' = lane s ∧
  (∃ k, queue s' = drop k (queue s)) ∧ (r = Ready (Ok ()) → queue s' = []) ∧
  (outer = None → r ≠ Dropped) ∧
  (0 < drain_batch_size policy → length (queue s) ≤ fuel → r ≠ Spinning).
Proof.
  intros Hmax. revert w l s. induction fuel as [|fuel IH]; intros w l s Hinv; simpl.
  { destruct (queue s) eqn:Hq; intros [= <- <- <- <-]; rewrite ?Hq; split_and!; try done;
      try (by exists 0); simpl; lia. }
  destruct (queue s) as [|x q] eqn:Hq.
  { intros [= <- <- <- <-]. rewrite Hq. split_and!; try done. by exists 0. }
  rewrite <- Hq. set (n := length (queue s) `min` drain_batch_size policy).
  assert (n ≤ length (queue s)) as Hn by lia.
  assert (length (queue s) = S (length q)) as Hlen by (by rewrite Hq).
  destruct (deliver policy outer (w, l) _) as [[w1 l1] r1] eqn:E1.
  apply deliver_log in E1 as (-> & Hspin & Hdrop).
  destruct r1 as [[[]|[m|m|m]]| |]; simpl.
  - intros H. apply IH in H as (Hi & Hc & Hl & [k Hk] & Hok & Hd & Hf).
    + split_and!; try done.
      * rewrite Hl. unfold on_success. apply (lane_pop_front (add_delivered s n) n).
      * exists (n + k). rewrite Hk. simpl. rewrite queue_pop_front. simpl. by rewrite drop_drop.
      * intros Hb Hfuel. apply Hf; [done|]. simpl. rewrite queue_pop_front. simpl.
        rewrite length_drop. lia.
    + apply data_inv_retry. by apply data_inv_delivered.
  - rewrite app_nil_r. intros [= <- <- <- <-]. split_and!; try done; by exists 0.
  - rewrite app_nil_r. intros H. apply IH in H as (Hi & Hc & Hl & [k Hk] & Hok & Hd & Hf).
    + split_and!; try done.
      * rewrite Hl. unfold add_rejected. apply (lane_pop_front s n).
      * exists (n + k). rewrite Hk. simpl. rewrite queue_pop_front. by rewrite drop_drop.
      * intros Hb Hfuel. apply Hf; [done|]. simpl. rewrite queue_pop_front.
        rewrite length_drop. lia.
    + destruct l. by apply data_inv_rejected.
  - rewrite app_nil_r. intros [= <- <- <- <-]. split_and!; try done; by exists 0.
  - rewrite app_nil_r. intros [= <- <- <- <-]. split_and!; try done; [by exists 0|].
    intros Ho. by destruct (Hdrop Ho).
  - done.
Qed.

Lemma within_caps_drop q k : sized q → within_caps policy q → within_caps policy (drop k q).
Proof.
  intros Hs [Hl Hb]. split; [rewrite length_drop; lia|].
  rewrite <- (take_drop k q) in Hs, Hb. rewrite bytes_of_app in Hb.
  apply Forall_app in Hs as [Hs _]. pose proof (bytes_of_nonneg _ Hs). lia.
Qed.

Lemma terminal_inv_drop sub l s l' s' k :
  terminal_inv sub l s → lane s' = lane s → completions l' = completions l →
  queue s' = drop k (queue s) → terminal_inv sub l' s'.
Proof.
  unfold terminal_inv, lane. intros H [= -> -> ->] -> ->. destruct sub; [|done].
  destruct H as [? [?|[(?&->&?)|(?&->&?)]]]; rewrite ?drop_nil; naive_solver.
Qed.

Lemma deliver_backlog_inv outer w l s acc sub w' l' s' r :
  (Z.of_nat (length acc) ≤ u64_max)%Z → 0 < drain_batch_size policy → state_inv policy acc sub l s →
  deliver_backlog policy outer (w, l) s = ((w', l'), s', r) →
  state_inv policy acc sub l' s' ∧ lane s' = lane s ∧ (r = Ready (Ok ()) → queue s' = []) ∧
  (outer = None → r ≠ Dropped) ∧ r ≠ Spinning.
Proof.
  intros Hmax Hbatch (Hd & Hc & Ht) E.
  apply (deliver_queue_inv _ _ _ _ _ acc) in E as (Hd' & Hcl & Hl & [k Hk] & Hok & Hdr & Hsp); [|done..].
  split_and!; auto. unfold state_inv. split_and!; [done| |by eapply terminal_inv_drop].
  rewrite Hk. apply within_caps_drop; [apply Hd|done].
Qed.

Lemma attempt_completion_log outer w l t w' l' r :
  attempt_completion policy outer (w, l) t = ((w', l'), r) →
  l' = mkLog (acked l) (completions l ++ match r with Ready (Ok _) => [t] | _ => [] end) ∧ r ≠ Spinning.
Proof.
  unfold attempt_completion, timeout_call. simpl.
  destruct (sink_completion w (t_event t) (t_report t)) as [w1 [[]|e]], l, t, outer as [d|];
    simpl; intros H; repeat case_match; simplify_eq/=; rewrite ?app_nil_r; naive_solver.
Qed.

Lemma deliver_completion_log outer w l t w' l' r :
  deliver_completion policy outer (w, l) t = ((w', l'), r) →
  l' = mkLog (acked l) (completions l ++ match r with Ready (Ok _) => [t] | _ => [] end) ∧ r ≠ Spinning.
Proof.
  unfold deliver_completion. destruct (attempt_completion policy outer (w, l) t) as [[w1 l1] r1] eqn:E.
  apply attempt_completion_log in E as [-> Hs].
  destruct r1 as [[[]|[]]| |]; try (intros [= <- <- <-]; done).
  rewrite app_nil_r. intros H. by apply attempt_completion_log in H.
Qed.

(** Once the data is settled, the terminal lane moves from waiting to
    acknowledged or refused, or stays. *)
Lemma deliver_terminal_inv outer w l s acc sub w' l' s' r :
  state_inv policy acc sub l s → queue s = [] →
  deliver_terminal policy outer (w, l) s = ((w', l'), s', r) →
  state_inv policy acc sub l' s' ∧ r ≠ Spinning.
Proof.
  intros (Hd & Hc & Ht) Hq. unfold deliver_terminal.
  destruct (terminal s) as [t|] eqn:Hts; [|by intros [= <- <- <- <-]].
  assert (sub = Some t ∧ terminal_seen s = true ∧ terminal_rejected s = false ∧ completions l = [])
    as (-> & Hseen & Hrej & Hcl).
  { unfold terminal_inv in Ht. destruct sub; naive_solver. }
  destruct (deliver_completion policy outer (w, l) t) as [[w1 l1] r1] eqn:E.
  apply deliver_completion_log in E as [-> Hsp]. rewrite Hcl. cbn [app].
  assert (∀ c, data_inv acc (mkLog (acked l) c) s) as Hd' by done.
  destruct r1 as [[[]|[]]| |]; intros [= <- <- <- <-]; (split; [|done]);
    (split_and!; [apply Hd'|done|]); unfold terminal_inv; simpl; rewrite ?Hseen; naive_solver.
Qed.

Lemma deliver_all_inv outer w l s acc sub w' l' s' r :
  (Z.of_nat (length acc) ≤ u64_max)%Z → 0 < drain_batch_size policy → state_inv policy acc sub l s →
  deliver_all policy outer (w, l) s = ((w', l'), s', r) →
  state_inv policy acc sub l' s' ∧ r ≠ Spinning.
Proof.
  intros Hmax Hbatch Hinv. unfold deliver_all. case_match; [by intros [= <- <- <- <-]|].
  destruct (deliver_backlog policy outer (w, l) s) as [[[w1 l1] s1] r1] eqn:E.
  apply (deliver_backlog_inv _ _ _ _ acc sub) in E as (Hinv1 & _ & Hok & _ & Hsp); [|done..].
  destruct r1 as [[[]|[]]| |]; try (by intros [= <- <- <- <-]).
  apply deliver_terminal_inv; auto.
Qed.
End run_lemmas.

Lemma accepted_le {U : UlidLib} {W : Type} {SW : SinkWorld W} (policy : SpoolPolicy) (r : @Run U W) op :
  length (accepted (run_step policy r op)) ≤ length (accepted r) + op_events op.
Proof. destruct op; simpl; repeat case_match; simpl; rewrite ?length_app; lia. Qed.

Section op_lemmas.
Context {U : UlidLib} {W : Type} {SW : SinkWorld W} {SL : SerializerLaws W} (policy : SpoolPolicy).
Implicit Types (w : W) (l : SinkLog) (s : SpoolState) (es acc : list Event).
Hypothesis max_bytes_nonneg : (0 ≤ max_bytes policy)%Z.
Hypothesis batch_positive : 0 < drain_batch_size policy.

Lemma enqueue_inv acc l s es :
  (Z.of_nat (length (acc ++ es)) ≤ u64_max)%Z → batch_fits policy es →
  state_inv policy acc None l s → state_inv policy (acc ++ es) None l (enqueue policy s es).
Proof.
  intros Hmax Hfit ((Hsub & Hdel & Hdrop & Hrej & Hsum & Hb & Hsz) & [Hcl Hcb] & Ht).
  rewrite length_app in Hmax. unfold batch_fits in Hfit. pose proof (bytes_of_nonneg _ Hsz).
  destruct (enqueue_spec policy s es) as (k & warned & Hk & -> & Hcaps & _); [lia|done|done|lia|done|lia|].
  rewrite length_app, length_fmap in Hk.
  split_and!; [|done|done]. unfold data_inv. simpl. split_and!; [|done|lia|done| |done|].
  - etrans; [|apply (sublist_app _ _ es es Hsub); done]. rewrite <- app_assoc.
    apply sublist_app; [done|]. rewrite fmap_drop, fmap_app, park_events. apply sublist_drop.
  - rewrite !length_drop, !length_app, length_fmap. lia.
  - apply sized_drop, Forall_app. split; [done|]. exact (sized_park (W := W) es).
Qed.

Lemma terminal_inv_open sub l s : terminal_inv sub l s → terminal_seen s = false → sub = None.
Proof. destruct sub; [intros [H _]; congruence|done]. Qed.

(** A batch the sink took, or refused, when nothing was waiting. *)
Lemma data_inv_direct acc l s es c :
  (Z.of_nat (length (acc ++ es)) ≤ u64_max)%Z → data_inv acc l s → queue s = [] →
  data_inv (acc ++ es) (mkLog (acked l ++ es) c) (add_delivered s (length es)) ∧
  data_inv (acc ++ es) l (add_rejected s (length es)).
Proof.
  rewrite length_app. intros Hmax (Hsub & Hdel & Hdrop & Hrej & Hsum & Hb & Hsz) Hq.
  rewrite Hq in *. simpl in *. rewrite app_nil_r in Hsub. unfold data_inv. simpl.
  rewrite !add_u64_small, !length_app, Hq by lia. simpl. rewrite !app_nil_r.
  split; split_and!; try done; try lia; [by apply sublist_app|by apply sublist_inserts_r].
Qed.

Lemma spool_export_inv acc sub w l s es w' l' s' r :
  (Z.of_nat (length (acc ++ es)) ≤ u64_max)%Z → batch_fits policy es → state_inv policy acc sub l s →
  spool_export policy (w, l) s es = ((w', l'), s', r) →
  if terminal_seen s then l' = l ∧ s' = s ∧ (es ≠ [] → ∃ m, r = Ready (Err (Rejected (bs "event-spool") m)))
  else state_inv policy (acc ++ es) sub l' s' ∧ r = Ready (Ok ()).
Proof.
  intros Hmax Hfit Hinv. unfold spool_export. case_bool_decide as Hes.
  { intros [= <- <- <- <-]. subst es. rewrite app_nil_r. case_match; [|done]. split_and!; done. }
  destruct (terminal_seen s) eqn:Hseen.
  { intros [= <- <- <- <-]. split_and!; [done|done|eauto]. }
  assert (sub = None) as -> by (eapply terminal_inv_open; [apply Hinv|done]).
  case_match; [intros [= <- <- <- <-]; split; [by apply enqueue_inv|done]|].
  destruct (deliver_backlog policy None (w, l) s) as [[[w1 l1] s1] r1] eqn:E.
  apply (deliver_backlog_inv _ _ _ _ _ acc None) in E as (Hinv1 & _ & Hok & Hnd & Hsp);
    [|rewrite length_app in Hmax; lia|done..].
  destruct r1 as [[[]|[]]| |]; [|intros [= <- <- <- <-]; split; [by apply enqueue_inv|done]|by destruct Hnd|done].
  specialize (Hok eq_refl).
  destruct (deliver policy None (w1, l1) es) as [[w2 l2] r2] eqn:E2.
  apply deliver_log in E2 as (-> & Hsp2 & Hd2). pose proof Hinv1 as (Hdata & Hcaps & Hterm).
  pose proof (data_inv_direct acc l1 s1 es (completions l1) Hmax Hdata Hok) as [Hdel Hrej].
  destruct r2 as [[[]|[]]| |]; [..|by destruct Hd2|done]; simpl; rewrite ?app_nil_r;
    intros [= <- <- <- <-]; (split; [|done]).
  - split_and!; done.
  - apply enqueue_inv; done.
  - split_and!; done.
  - apply enqueue_inv; done.
Qed.

Lemma sink_flush_log w l w' l' f : sink_flush (w, l) = ((w', l'), f) → l' = l.
Proof. simpl. destruct (sink_flush w). naive_solver. Qed.

Lemma spool_flush_inv acc sub w l s w' l' s' r :
  (Z.of_nat (length acc) ≤ u64_max)%Z → state_inv policy acc sub l s →
  spool_flush policy (w, l) s = ((w', l'), s', r) →
  state_inv policy acc sub l' s' ∧ ∃ x, r = Ready x.
Proof.
  intros Hmax Hinv. unfold spool_flush. destruct (negb _ && _ && _).
  - destruct (deliver_backlog policy None (w, l) s) as [[[w1 l1] s1] r1] eqn:E.
    apply (deliver_backlog_inv _ _ _ _ _ acc sub) in E as (Hinv1 & _ & _ & Hnd & Hsp); [|done..].
    destruct r1; [|by destruct Hnd|done]. 
    destruct (sink_flush (w1, l1)) as [[w2 l2] f] eqn:Ef. apply sink_flush_log in Ef as ->.
    intros [= <- <- <- <-]. eauto.
  - destruct (sink_flush (w, l)) as [[w2 l2] f] eqn:Ef. apply sink_flush_log in Ef as ->.
    intros [= <- <- <- <-]. eauto.
Qed.

Lemma drain_passes_inv n first deadline backoff acc sub w l s w' l' s' r :
  (Z.of_nat (length acc) ≤ u64_max)%Z → state_inv policy acc sub l s →
  drain_passes policy n first deadline backoff (w, l) s = ((w', l'), s', r) →
  state_inv policy acc sub l' s' ∧ r ≠ Spinning.
Proof.
  intros Hmax. revert first backoff w l s. induction n as [|n IH]; intros first backoff w l s Hinv; simpl.
  { by intros [= <- <- <- <-]. }
  destruct (if first then _ else _) as [[w1 l1] r1] eqn:E1.
  assert (l1 = l ∧ r1 ≠ Spinning) as [-> Hsp].
  { unfold sleep in E1. repeat case_match; simplify_eq/=; done. }
  destruct r1; [|by intros [= <- <- <- <-]|done].
  destruct (deliver_all policy _ (w1, l) s) as [[[w2 l2] s2] r2] eqn:E2.
  apply (deliver_all_inv _ _ _ _ _ acc sub) in E2 as [Hinv2 Hsp2]; [|done..].
  destruct r2 as [[]| |]; try (by intros [= <- <- <- <-]). by apply IH.
Qed.

Lemma drain_inv acc sub w l s retry w' l' s' r :
  (Z.of_nat (length acc) ≤ u64_max)%Z → state_inv policy acc sub l s →
  drain policy (w, l) s retry = ((w', l'), s', r) →
  state_inv policy acc sub l' s' ∧ r = Ready (report s').
Proof.
  intros Hmax Hinv. unfold drain. case_match; [by intros [= <- <- <- <-]|].
  destruct (drain_passes _ _ _ _ _ _ _) as [[[w1 l1] s1] r1] eqn:E.
  apply (drain_passes_inv _ _ _ _ acc sub) in E as [Hinv1 Hsp]; [|done..].
  destruct r1; try done; intros [= <- <- <- <-]; done.
Qed.

(** Every operation preserves the spool's invariant. *)
Lemma run_step_inv r op :
  (Z.of_nat (length (accepted r) + op_events op) ≤ u64_max)%Z → op_fits policy op →
  spool_inv policy r → spool_inv policy (run_step policy r op).
Proof.
  destruct r as [[w l] s acc sub]. unfold spool_inv. simpl. intros Hmax Hfit Hinv.
  destruct op as [es|e rep| |retry|d]; simpl in *.
  - destruct (spool_export policy (w, l) s es) as [[[w' l'] s'] r'] eqn:E.
    apply (spool_export_inv acc sub) in E; [|rewrite length_app; lia|done|done]. simpl.
    destruct (terminal_seen s); [by destruct E as (-> & -> & _)|by destruct E].
  - destruct Hinv as (Hd & Hc & Ht). unfold spool_export_completion.
    destruct (terminal_seen s) eqn:Hseen; [done|]. simpl.
    assert (sub = None) as -> by (by eapply terminal_inv_open). destruct Ht as (_ & _ & Hrej & Hcl).
    split_and!; [done|done|]. split; [done|]. left. split_and!; done.
  - destruct (spool_flush policy (w, l) s) as [[[w' l'] s'] r'] eqn:E.
    apply (spool_flush_inv acc sub) in E; [by destruct E|lia|done].
  - destruct (drain policy (w, l) s retry) as [[[w' l'] s'] r'] eqn:E.
    apply (drain_inv acc sub) in E; [by destruct E|lia|done].
  - done.
Qed.

Lemma run_ops_inv w ops :
  Forall (op_fits policy) ops → (Z.of_nat (sum_list (op_events <$> ops)) ≤ u64_max)%Z →
  spool_inv policy (run_ops policy w ops).
Proof.
  unfold run_ops. intros Hfit Hmax.
  assert (∀ r, spool_inv policy r →
    (Z.of_nat (length (accepted r) + sum_list (op_events <$> ops)) ≤ u64_max)%Z →
    spool_inv policy (foldl (run_step policy) r ops)) as Hgen.
  { clear Hmax w. induction Hfit as [|op ops Hop _ IH]; intros r Hr Hmax; [done|]. cbn [foldl].
    cbn [fmap list_fmap sum_list sum_list_with] in Hmax. pose proof (accepted_le policy r op).
    apply IH; [apply run_step_inv; [|done..]|]; unfold sum_list in *; simpl in *; lia. }
  apply Hgen; [|simpl; lia]. split_and!; [|split; simpl; lia|done].
  unfold data_inv. simpl. split_and!; try done. 
Qed.

Lemma accepted_run_le w ops : length (accepted (run_ops policy w ops)) ≤ sum_list (op_events <$> ops).
Proof.
  unfold run_ops. assert (∀ r, length (accepted (foldl (run_step policy) r ops))
    ≤ length (accepted r) + sum_list (op_events <$> ops)) as H; [|apply (H (run_init w))].
  induction ops as [|op ops IH]; intros r; [simpl; lia|]. cbn [foldl].
  change (sum_list (op_events <$> op :: ops)) with (op_events op + sum_list (op_events <$> ops)).
  pose proof (accepted_le policy r op). pose proof (IH (run_step policy r op)). lia.
Qed.
End op_lemmas.

(** *** The count of parked events *)

Section spooled_lemmas.
Context {U : UlidLib} {W : Type} {SW : SinkWorld W} (policy : SpoolPolicy).
Implicit Types (w : W) (s : SpoolState) (es acc : list Event).

(** Every waiting event was counted as parked, and only accepted events are. *)
Definition spooled_inv acc s : Prop :=
  (Z.of_nat (length (queue s)) ≤ spooled_events s ≤ Z.of_nat (length acc))%Z.

(** The delivery passes park nothing. *)
Definition parks_nothing s s' : Prop :=
  spooled_events s' = spooled_events s ∧ length (queue s') ≤ length (queue s).

Lemma parks_nothing_trans s1 s2 s3 : parks_nothing s1 s2 → parks_nothing s2 s3 → parks_nothing s1 s3.
Proof. unfold parks_nothing. intros [-> ?] [-> ?]. split; [done|lia]. Qed.

Lemma pop_front_parks s n : parks_nothing s (pop_front s n).
Proof.
  split; [|rewrite queue_pop_front, length_drop; lia].
  revert s. induction n as [|n IH]; intros s; [done|]. cbn [pop_front]. case_match; by rewrite IH.
Qed.

Lemma deliver_queue_parks fuel outer w s w' s' r :
  deliver_queue policy fuel outer w s = (w', s', r) → parks_nothing s s'.
Proof.
  revert w s. induction fuel as [|fuel IH]; intros w s; cbn [deliver_queue].
  { destruct (queue s) eqn:Hq; intros [= <- <- <-]; split; done. }
  destruct (queue s) eqn:Hq; [intros [= <- <- <-]; split; done|]. rewrite <- Hq.
  destruct (deliver policy outer w _) as [w1 [[[]|[]]| |]]; try (intros [= <- <- <-]; split; done).
  - intros H. apply IH in H. eapply parks_nothing_trans; [|exact H].
    apply (pop_front_parks (add_delivered s _)).
  - intros H. apply IH in H. eapply parks_nothing_trans; [|exact H]. apply (pop_front_parks s).
Qed.

Lemma deliver_all_parks outer w s w' s' r :
  deliver_all policy outer w s = (w', s', r) → parks_nothing s s'.
Proof.
  unfold deliver_all. case_match; [intros [= <- <- <-]; split; done|].
  destruct (deliver_backlog policy outer w s) as [[w1 s1] r1] eqn:E.
  unfold deliver_backlog in E. apply deliver_queue_parks in E.
  destruct r1 as [[]| |]; try (by intros [= <- <- <-]).
  unfold deliver_terminal. destruct (terminal s1); [|by intros [= <- <- <-]].
  destruct (deliver_completion _ _ _ _) as [w2 [[[]|[]]| |]]; intros [= <- <- <-];
    (eapply parks_nothing_trans; [exact E|split; done]).
Qed.

Lemma drain_parks w s retry w' s' r : drain policy w s retry = (w', s', r) → parks_nothing s s'.
Proof.
  assert (∀ n first deadline backoff w s w' s' r,
    drain_passes policy n first deadline backoff w s = (w', s', r) → parks_nothing s s') as Hpasses.
  { clear. intros n. induction n as [|n IH]; intros first deadline backoff w s w' s' r; cbn [drain_passes].
    { intros [= <- <- <-]. split; done. }
    destruct (if first then _ else _) as [w1 [u| |]]; try (intros [= <- <- <-]; split; done).
    destruct (deliver_all policy _ w1 s) as [[w2 s2] r2] eqn:E. apply deliver_all_parks in E.
    destruct r2 as [[]| |]; try (by intros [= <- <- <-]). intros H. apply IH in H. by eapply parks_nothing_trans. }
  unfold drain. case_match; [intros [= <- <- <-]; split; done|].
  destruct (drain_passes _ _ _ _ _ _ _) as [[w1 s1] [u| |]] eqn:E; apply Hpasses in E; by intros [= <- <- <-].
Qed.

Lemma enforce_caps_shorter q bytes d b : length (enforce_caps policy q bytes d b).1.1.1 ≤ length q.
Proof.
  revert bytes d b. induction q as [|x q IH]; intros bytes d b; cbn [enforce_caps]; [by case_match|].
  case_match; [|done]. etrans; [apply IH|]. simpl. lia.
Qed.

Lemma enqueue_parks acc s es :
  (Z.of_nat (length (acc ++ es)) ≤ u64_max)%Z → spooled_inv acc s → spooled_inv (acc ++ es) (enqueue policy s es).
Proof.
  rewrite length_app. intros Hmax Hs. unfold spooled_inv in *.
  assert (∀ s, spooled_events (foldl push_back s es) = spooled_events s
    ∧ length (queue (foldl push_back s es)) = length (queue s) + length es) as Hpush.
  { clear. induction es as [|e es IH]; intros s; cbn [foldl length]; [lia|].
    destruct (IH (push_back s e)) as [-> ->]. cbn. rewrite length_app. cbn. split; [done|lia]. }
  unfold enqueue. match goal with |- context [foldl push_back ?s0 es] => destruct (Hpush s0) as [H1 H2]; set (s1 := foldl push_back s0 es) in * end.
  pose proof (enforce_caps_shorter (queue s1) (queued_bytes s1) (dropped_events s1) (drop_warned s1)) as Hlen.
  destruct (enforce_caps _ _ _ _ _) as [[[q b] d] wn]. cbn in *. rewrite add_u64_small in H1 by lia.
  rewrite length_app. lia.
Qed.

Lemma parks_nothing_inv acc s s' : parks_nothing s s' → spooled_inv acc s → spooled_inv acc s'.
Proof. unfold parks_nothing, spooled_inv. intros [-> ?]. lia. Qed.

Lemma spooled_inv_app acc es s : spooled_inv acc s → spooled_inv (acc ++ es) s.
Proof. unfold spooled_inv. rewrite length_app. lia. Qed.

Lemma spool_export_parks acc w s es w' s' r :
  (Z.of_nat (length (acc ++ es)) ≤ u64_max)%Z → spooled_inv acc s →
  spool_export policy w s es = (w', s', r) → spooled_inv (if terminal_seen s then acc else acc ++ es) s'.
Proof.
  intros Hmax Hs. unfold spool_export. case_bool_decide as Hes.
  { intros [= <- <- <-]. subst es. by rewrite app_nil_r; case_match. }
  destruct (terminal_seen s); [by intros [= <- <- <-]|].
  case_match; [intros [= <- <- <-]; by apply enqueue_parks|].
  destruct (deliver_backlog policy None w s) as [[w1 s1] r1] eqn:E. apply deliver_queue_parks in E.
  apply (parks_nothing_inv acc) in E; [|done].
  destruct r1 as [[]| |].
  - destruct (deliver policy None w1 es) as [w2 [[[]|[]]| |]]; intros [= <- <- <-];
      try (by apply spooled_inv_app); by apply enqueue_parks.
  - intros [= <- <- <-]. by apply enqueue_parks.
  - intros [= <- <- <-]. by apply spooled_inv_app.
  - intros [= <- <- <-]. by apply spooled_inv_app.
Qed.

Lemma spool_flush_parks w s w' s' r : spool_flush policy w s = (w', s', r) → parks_nothing s s'.
Proof.
  unfold spool_flush. destruct (if _ && _ then _ else _) as [[w1 s1] r1] eqn:E.
  assert (parks_nothing s s1) as H.
  { destruct (_ && _); [by eapply deliver_queue_parks|]. injection E as <- <- <-. split; done. }
  destruct r1; [destruct (sink_flush w1)|..]; by intros [= <- <- <-].
Qed.
End spooled_lemmas.

Lemma run_ops_spooled {U : UlidLib} {W : Type} {SW : SinkWorld W} (policy : SpoolPolicy) (w : W) ops :
  (Z.of_nat (sum_list (op_events <$> ops)) ≤ u64_max)%Z →
  spooled_inv (accepted (run_ops policy w ops)) (run_state (run_ops policy w ops)).
Proof.
  unfold run_ops. intros Hmax.
  assert (∀ r, spooled_inv (accepted r) (run_state r) →
    (Z.of_nat (length (accepted r) + sum_list (op_events <$> ops)) ≤ u64_max)%Z →
    spooled_inv (accepted (foldl (run_step policy) r ops)) (run_state (foldl (run_step policy) r ops))) as Hgen.
  { clear Hmax w. induction ops as [|op ops IH]; intros r Hr Hmax; [done|]. cbn [foldl].
    change (sum_list (op_events <$> op :: ops)) with (op_events op + sum_list (op_events <$> ops)) in Hmax.
    pose proof (accepted_le policy r op). apply IH; [|lia].
    destruct r as [[w l] s acc sub]. cbn in *. destruct op as [es|e rep| |retry|d]; cbn in *.
    - destruct (spool_export policy (w, l) s es) as [[w' s'] r'] eqn:E.
      apply (spool_export_parks policy acc) in E; [done|rewrite length_app; lia|done].
    - unfold spool_export_completion. by destruct (terminal_seen s).
    - destruct (spool_flush policy (w, l) s) as [[w' s'] r'] eqn:E. apply spool_flush_parks in E.
      by eapply parks_nothing_inv.
    - destruct (drain policy (w, l) s retry) as [[w' s'] r'] eqn:E. apply drain_parks in E.
      by eapply parks_nothing_inv.
    - done. }
  apply Hgen; [done|]. cbn. lia.
Qed.

(** *** The drain's clock *)

Section clock_lemmas.
Context {U : UlidLib} {W : Type} {SW : SinkWorld W} {CL : ClockLaws W} (policy : SpoolPolicy).
Implicit Types (w : W) (s : SpoolState).

Lemma timeout_call_clock d at_ call (drop_at : Z → W) w r :
  (∀ t, now (drop_at t) = t) → timeout_call (Some d) at_ call drop_at = (w, r) → (now w ≤ d)%Z.
Proof.
  intros Hdrop. unfold timeout_call. destruct call as [w1 o]. simpl.
  destruct ((d <? at_) && (d <? now w1))%Z eqn:Hcut; [intros [= <- <-]; rewrite Hdrop; done|].
  apply andb_false_iff in Hcut. case_match; intros [= <- <-]; breflect; rewrite ?Hdrop;
    destruct Hcut; breflect; lia.
Qed.

Lemma attempt_clock d w es w' r : attempt policy (Some d) w es = (w', r) → (now w' ≤ d)%Z.
Proof.
  unfold attempt. destruct (timeout_call _ _ _ _) as [w1 r1] eqn:E. intros [= <- <-].
  eapply timeout_call_clock; [|exact E]. apply now_abandon_export.
Qed.

Lemma deliver_clock d w es w' r : deliver policy (Some d) w es = (w', r) → (now w' ≤ d)%Z.
Proof.
  unfold deliver. destruct (attempt _ _ w es) as [w1 r1] eqn:E. apply attempt_clock in E.
  destruct r1 as [[[]|[]]| |]; try (by intros [= <- <-]). apply attempt_clock.
Qed.

Lemma attempt_completion_clock d w t w' r : attempt_completion policy (Some d) w t = (w', r) → (now w' ≤ d)%Z.
Proof.
  unfold attempt_completion. destruct (timeout_call _ _ _ _) as [w1 r1] eqn:E. intros [= <- <-].
  eapply timeout_call_clock; [|exact E]. apply now_abandon_completion.
Qed.

Lemma deliver_queue_clock d fuel w s w' s' r :
  (now w ≤ d)%Z → deliver_queue policy fuel (Some d) w s = (w', s', r) → (now w' ≤ d)%Z.
Proof.
  revert w s. induction fuel as [|fuel IH]; intros w s Hw; simpl.
  { case_match; by intros [= <- <- <-]. }
  case_match; [by intros [= <- <- <-]|].
  destruct (deliver _ _ _ _) as [w1 r1] eqn:E. apply deliver_clock in E.
  destruct r1 as [[[]|[]]| |]; try (by intros [= <- <- <-]); by apply IH.
Qed.

Lemma deliver_terminal_clock d w s w' s' r :
  (now w ≤ d)%Z → deliver_terminal policy (Some d) w s = (w', s', r) → (now w' ≤ d)%Z.
Proof.
  intros Hw. unfold deliver_terminal. destruct (terminal s) as [t|]; [|by intros [= <- <- <-]].
  destruct (deliver_completion _ _ _ _) as [w1 r1] eqn:E.
  assert (now w1 ≤ d)%Z.
  { unfold deliver_completion in E. destruct (attempt_completion _ _ w t) as [w2 r2] eqn:E2.
    apply attempt_completion_clock in E2.
    destruct r2 as [[[]|[]]| |]; simplify_eq/=; try done. by apply attempt_completion_clock in E. }
  destruct r1 as [[[]|[]]| |]; by intros [= <- <- <-].
Qed.

Lemma deliver_all_clock d w s w' s' r :
  (now w ≤ d)%Z → deliver_all policy (Some d) w s = (w', s', r) → (now w' ≤ d)%Z.
Proof.
  intros Hw. unfold deliver_all. case_match; [by intros [= <- <- <-]|].
  destruct (deliver_backlog _ _ _ _) as [[w1 s1] r1] eqn:E. apply deliver_queue_clock in E; [|done].
  destruct r1 as [[]| |]; try (by intros [= <- <- <-]). by apply deliver_terminal_clock.
Qed.

Lemma drain_passes_clock n first d backoff w s w' s' r :
  (0 ≤ backoff)%Z → (now w ≤ d)%Z →
  drain_passes policy n first d backoff w s = (w', s', r) → (now w' ≤ d)%Z.
Proof.
  revert first backoff w s. induction n as [|n IH]; intros first backoff w s Hb Hw; simpl.
  { by intros [= <- <- <-]. }
  destruct (if first then _ else _) as [w1 r1] eqn:E1.
  assert (now w1 ≤ d)%Z.
  { unfold sleep in E1. repeat case_match; simplify_eq/=; breflect; try done; rewrite now_sleep; lia. }
  destruct r1; try (by intros [= <- <- <-]).
  destruct (deliver_all _ _ _ _) as [[w2 s2] r2] eqn:E2. apply deliver_all_clock in E2; [|done].
  destruct r2 as [[]| |]; try (by intros [= <- <- <-]).
  apply IH; [|done]. unfold saturating_mul, duration_max, u64_max. case_match; lia.
Qed.

Lemma phase_budget_from_nonneg n budget backoff :
  (0 ≤ budget)%Z → (0 ≤ backoff)%Z → (0 ≤ phase_budget_from n budget backoff)%Z.
Proof.
  revert budget backoff. induction n as [|n IH]; intros budget backoff ??; simpl; [done|].
  apply IH; unfold saturating_add, saturating_mul, duration_max, u64_max; lia.
Qed.
End clock_lemmas.

(** ** A scripted sink for concrete runs *)

Module Scripted.
Inductive Respond := Deliver | RespondUnavailable | RespondRejected | RespondOther | Hang.
Record FakeSink := mkFakeSink { clock : Z; script : list Respond }.

Definition respond (w : FakeSink) : FakeSink * result ExportError unit :=
  match script w with
  | [] | Deliver :: _ => (mkFakeSink (clock w) (tail (script w)), Ok ())
  | RespondUnavailable :: k => (mkFakeSink (clock w) k, Err (Unavailable (bs "fake") (bs "down")))
  | RespondRejected :: k => (mkFakeSink (clock w) k, Err (Rejected (bs "fake") (bs "no")))
  | RespondOther :: k => (mkFakeSink (clock w) k, Err (Other (bs "fake") (bs "blip")))
  | Hang :: k => (mkFakeSink (clock w + secs 3600) k, Ok ())
  end.
Definition abandon (w : FakeSink) (d : Z) : FakeSink := mkFakeSink d (tail (script w)).

Definition fake_sink {U : UlidLib} : SinkWorld FakeSink := {|
  now := clock;
  sleep_until w d := mkFakeSink (Z.max (clock w) d) (script w);
  sink_export w _ := respond w;
  abandon_export w _ d := abandon w d;
  sink_completion w _ _ := respond w;
  abandon_completion w _ _ d := abandon w d;
  sink_flush w := (w, Ok ());
  serialized_len _ := Some 100%Z;
|}.
#[export] Existing Instance fake_sink.

#[export] Instance fake_clock {U : UlidLib} : ClockLaws FakeSink.
Proof. split; simpl; [intros; lia|done|done]. Qed.
#[export] Instance fake_serializer {U : UlidLib} : SerializerLaws FakeSink.
Proof. intros e n [= <-]. lia. Qed.

#[local] Existing Instance crockford_ulid.
Definition ctx : RunContext := RunContext_new_local_root (sample_run [7]).
Definition ev (n : Z) : Event :=
  Event_new (mkEventId (run_ulid (sample_run [1]))) ctx (mkHlc n 0) Log (name "exec.stdout").
Definition source : CaptureSourceReport := off_by_policy PlatformObserved.
Definition done_report : CaptureCompletionReport :=
  mkCompletionReport (mkSourcesReport source source source source)
    (mkEventDelivery 0 0 0 0 0 0) None None None.
Definition policy : SpoolPolicy := mkSpoolPolicy 2 250 (millis 500) (secs 30) (secs 10) 1.
End Scripted.

(** ** Properties *)

(** C7: whatever the sink and the clock do, after any sequence of operations
    every accepted event is in exactly one account (delivered, dropped,
    rejected or pending), the acknowledged events followed by the waiting ones
    are a subsequence of the accepted ones in arrival order, the byte account
    is the queue's serialized size, and both caps hold.  *)
Theorem spool_accounting {U : UlidLib} {W : Type} {SW : SinkWorld W} {SL : SerializerLaws W}
    (policy : SpoolPolicy) (w : W) (ops : list spool_op) :
  (0 ≤ max_bytes policy)%Z → 0 < drain_batch_size policy →
  Forall (op_fits policy) ops → (Z.of_nat (sum_list (op_events <$> ops)) ≤ u64_max)%Z →
  let r := run_ops policy w ops in
  let s := run_state r in
  let l := (run_world r).2 in
  sublist (acked l ++ (sp_event <$> queue s)) (accepted r) ∧
  delivered_events s = Z.of_nat (length (acked l)) ∧
  (delivered_events s + dropped_events s + rejected_events s + Z.of_nat (length (queue s))
   = Z.of_nat (length (accepted r)))%Z ∧
  queued_bytes s = bytes_of (queue s) ∧
  length (queue s) ≤ max_events policy ∧ (queued_bytes s ≤ max_bytes policy)%Z.
Proof.
  intros Hmax Hbatch Hfit Hlen r s l.
  destruct (run_ops_inv policy Hmax Hbatch w ops Hfit Hlen)
    as ((Hsub & Hdel & _ & _ & Hsum & Hb & _) & [Hcl Hcb] & _).
  fold r in Hsub, Hdel, Hsum, Hb, Hcl, Hcb. fold s l in Hsub, Hdel, Hsum, Hb, Hcl, Hcb.
  split_and!; [done..|lia].
Qed.

(** A clean report means complete delivery: after any operations whose
    report [is_clean], the sink has acknowledged exactly the accepted events,
    all of them and in arrival order, and the submitted completion once.  *)
Theorem spool_clean_delivered {U : UlidLib} {W : Type} {SW : SinkWorld W} {SL : SerializerLaws W}
    (policy : SpoolPolicy) (w : W) (ops : list spool_op) :
  (0 ≤ max_bytes policy)%Z → 0 < drain_batch_size policy →
  Forall (op_fits policy) ops → (Z.of_nat (sum_list (op_events <$> ops)) ≤ u64_max)%Z →
  let r := run_ops policy w ops in
  is_clean (report (run_state r)) = true →
  acked (run_world r).2 = accepted r ∧ completions (run_world r).2 = option_list (submitted r).
Proof.
  intros Hmax Hbatch Hfit Hlen r Hclean.
  destruct (run_ops_inv policy Hmax Hbatch w ops Hfit Hlen)
    as ((Hsub & Hdel & _ & _ & Hsum & _) & _ & Ht).
  fold r in Hsub, Hdel, Hsum, Ht. unfold is_clean in Hclean. simpl in Hclean. breflect.
  assert (queue (run_state r) = []) as Hq by (apply nil_length_inv, Nat.eqb_eq; done).
  rewrite Hq in *. simpl in *. rewrite app_nil_r in Hsub. split.
  - apply sublist_same_length; [done|]. lia.
  - unfold terminal_inv in Ht. destruct (submitted r) as [t|]; [|naive_solver].
    destruct Ht as [_ [(Ht & _)|[(_ & _ & Hr & _)|(_ & _ & _ & ->)]]]; [|congruence|done].
    rewrite Ht in *. by destruct select (¬ is_Some (Some t)).
Qed.

(** The completion record goes last and at most once: it is acknowledged
    only in states where no data is waiting, and from the moment it is
    submitted the spool refuses further events and a second completion
    without changing anything.  *)
Theorem spool_completion_last {U : UlidLib} {W : Type} {SW : SinkWorld W} {SL : SerializerLaws W}
    (policy : SpoolPolicy) (w : W) (ops : list spool_op) :
  (0 ≤ max_bytes policy)%Z → 0 < drain_batch_size policy →
  Forall (op_fits policy) ops → (Z.of_nat (sum_list (op_events <$> ops)) ≤ u64_max)%Z →
  let r := run_ops policy w ops in
  (completions (run_world r).2 ≠ [] →
     queue (run_state r) = [] ∧ completions (run_world r).2 = option_list (submitted r)) ∧
  (submitted r ≠ None →
     (∀ es, es ≠ [] → ∃ m, spool_export policy (run_world r) (run_state r) es
        = (run_world r, run_state r, Ready (Err (Rejected (bs "event-spool") m)))) ∧
     (∀ e rep, ∃ m, spool_export_completion (run_state r) e rep
        = (run_state r, Err (Rejected (bs "event-spool") m)))).
Proof.
  intros Hmax Hbatch Hfit Hlen r.
  destruct (run_ops_inv policy Hmax Hbatch w ops Hfit Hlen) as (_ & _ & Ht). fold r in Ht.
  unfold terminal_inv in Ht. destruct (submitted r) as [t|].
  - destruct Ht as [Hseen Ht]. split.
    + destruct Ht as [(_ & _ & ->)|[(_ & _ & _ & ->)|(_ & -> & _ & ->)]]; done.
    + intros _. split; intros; unfold spool_export, spool_export_completion; rewrite Hseen; [|eauto].
      rewrite bool_decide_eq_false_2 by done. eauto.
  - split; [naive_solver|done].
Qed.

(** Capture never fails or stalls on the sink: on an open spool every
    export returns [Ok] (delivered, parked or dropped with its count), and
    flush and drain return too, after finitely many deliveries.  *)
Theorem spool_export_always_ok {U : UlidLib} {W : Type} {SW : SinkWorld W} {SL : SerializerLaws W}
    (policy : SpoolPolicy) (w : W) (ops : list spool_op) (es : list Event) :
  (0 ≤ max_bytes policy)%Z → 0 < drain_batch_size policy →
  Forall (op_fits policy) ops → batch_fits policy es →
  (Z.of_nat (sum_list (op_events <$> ops) + length es) ≤ u64_max)%Z →
  let r := run_ops policy w ops in
  (submitted r = None → (spool_export policy (run_world r) (run_state r) es).2 = Ready (Ok ())) ∧
  (∃ x, (spool_flush policy (run_world r) (run_state r)).2 = Ready x) ∧
  (∀ retry, ∃ x, (drain policy (run_world r) (run_state r) retry).2 = Ready x).
Proof.
  intros Hmax Hbatch Hfit Hes Hlen r.
  assert (spool_inv policy r) as Hinv by (apply run_ops_inv; [done..|lia]).
  assert (length (accepted r) ≤ sum_list (op_events <$> ops)) as Hacc by (by apply accepted_run_le).
  unfold spool_inv in Hinv. destruct r as [[w' l] s acc sub]. simpl in *. split_and!.
  - intros ->. destruct (spool_export policy (w', l) s es) as [[[w1 l1] s1] r1] eqn:E.
    apply (spool_export_inv policy Hmax Hbatch acc None) in E; [|rewrite length_app; lia|done|done].
    destruct Hinv as (_ & _ & Hseen & _). rewrite Hseen in E. by destruct E.
  - destruct (spool_flush policy (w', l) s) as [[[w1 l1] s1] r1] eqn:E.
    apply (spool_flush_inv policy Hbatch acc sub) in E; [by destruct E|lia|done].
  - intros retry. destruct (drain policy (w', l) s retry) as [[[w1 l1] s1] r1] eqn:E.
    apply (drain_inv policy Hbatch acc sub) in E; [|lia|done]. destruct E as [_ ->]. by eexists.
Qed.

(** The run-end drain ends within its phase budget on the clock,
    whatever the sink does, stalls included.  *)
Theorem drain_within_budget {U : UlidLib} {W : Type} {SW : SinkWorld W} {CL : ClockLaws W}
    (policy : SpoolPolicy) (w : W) (s : SpoolState) (retry : DrainRetryPolicy) :
  (0 ≤ attempt_timeout policy)%Z → (0 ≤ retry_initial_backoff retry)%Z →
  (now (drain policy w s retry).1.1 ≤ now w + drain_phase_budget policy retry)%Z.
Proof.
  intros Ht Hb. unfold drain.
  assert (0 ≤ drain_phase_budget policy retry)%Z as Hbudget.
  { apply phase_budget_from_nonneg; [|done]. unfold saturating_mul, duration_max, u64_max. lia. }
  case_match; [simpl; lia|].
  destruct (drain_passes _ _ _ _ _ _ _) as [[w1 s1] r1] eqn:E.
  apply drain_passes_clock in E; [|done|lia]. destruct r1; done.
Qed.

(** Parking a batch keeps the longest suffix of the queue with the batch
    appended that satisfies both caps: the oldest events go first, no more of
    them than needed, and each one is counted.  *)
Theorem enqueue_keeps_longest_suffix {U : UlidLib} {W : Type} {SW : SinkWorld W} {SL : SerializerLaws W}
    (policy : SpoolPolicy) (s : SpoolState) (es : list Event) :
  (0 ≤ max_bytes policy)%Z → sized (queue s) → queued_bytes s = bytes_of (queue s) →
  (queued_bytes s + bytes_of (park <$> es) ≤ u64_max)%Z → (0 ≤ dropped_events s)%Z →
  (dropped_events s + Z.of_nat (length (queue s) + length es) ≤ u64_max)%Z →
  let all := queue s ++ (park <$> es) in
  ∃ k, queue (enqueue policy s es) = drop k all ∧
    dropped_events (enqueue policy s es) = (dropped_events s + Z.of_nat k)%Z ∧
    within_caps policy (drop k all) ∧ ∀ j, j < k → ¬ within_caps policy (drop j all).
Proof.
  intros Hmax Hs Hb Hfit Hd Hc all.
  destruct (enqueue_spec policy s es Hmax Hs Hb Hfit Hd Hc) as (k & warned & _ & -> & Hrest).
  exists k. simpl. split_and!; [done|done|apply Hrest|apply Hrest].
Qed.

(** *** Witnesses on the scripted sink *)

Section witnesses.
#[local] Existing Instance crockford_ulid.
Import Scripted.

(** An outage parks two events, a blip is retried inline, the backlog drains
    in order and the completion follows. *)
Definition outage_ops : list spool_op :=
  [OpExport [ev 1]; OpExport [ev 2]; OpWait (secs 60); OpExport [ev 3]; OpCompletion (ev 4) done_report;
   OpDrain DrainRetryPolicy_default].
Definition outage : FakeSink := mkFakeSink 0 [RespondUnavailable; RespondOther; Deliver].

Lemma outage_fits : Forall (op_fits policy) outage_ops.
Proof. repeat constructor; vm_compute; discriminate. Qed.

Lemma spool_accounting_witness :
  let s := run_state (run_ops policy outage outage_ops) in
  (delivered_events s + dropped_events s + rejected_events s + Z.of_nat (length (queue s)) = 3)%Z.
Proof.
  destruct (spool_accounting policy outage outage_ops) as (_ & _ & H & _);
    [vm_compute; discriminate|vm_compute; lia|exact outage_fits|vm_compute; discriminate|].
  cbv zeta in *. rewrite H. vm_compute. reflexivity.
Defined.

Lemma spool_clean_delivered_witness :
  acked (run_world (run_ops policy outage outage_ops)).2 = [ev 1; ev 2; ev 3].
Proof.
  destruct (spool_clean_delivered policy outage outage_ops) as [H _];
    [vm_compute; discriminate|vm_compute; lia|exact outage_fits|vm_compute; discriminate|vm_compute; reflexivity|].
  rewrite H. vm_compute. reflexivity.
Defined.

Lemma spool_completion_last_witness :
  queue (run_state (run_ops policy outage outage_ops)) = [].
Proof.
  apply (spool_completion_last policy outage outage_ops);
    [vm_compute; discriminate|vm_compute; lia|exact outage_fits|vm_compute; discriminate|vm_compute; discriminate].
Defined.

Lemma spool_export_always_ok_witness :
  (spool_export policy (mkFakeSink 0 [Hang], mkLog [] []) SpoolState_default [ev 1]).2 = Ready (Ok ()).
Proof.
  apply (spool_export_always_ok policy (mkFakeSink 0 [Hang]) [] [ev 1]);
    [vm_compute; discriminate|vm_compute; lia|constructor|vm_compute; discriminate|vm_compute; discriminate|reflexivity].
Defined.

Lemma drain_within_budget_witness :
  let w := mkFakeSink 0 [Hang; Hang; Hang; Hang] in
  let s := enqueue (W := FakeSink) policy SpoolState_default [ev 1; ev 2] in
  (now (drain policy w s DrainRetryPolicy_default).1.1
   ≤ now w + drain_phase_budget policy DrainRetryPolicy_default)%Z.
Proof.
  apply (drain_within_budget policy (mkFakeSink 0 [Hang; Hang; Hang; Hang])
    (enqueue (W := FakeSink) policy SpoolState_default [ev 1; ev 2]) DrainRetryPolicy_default);
    vm_compute; discriminate.
Defined.

Lemma enqueue_keeps_longest_suffix_witness :
  ∃ k, queue (enqueue (W := FakeSink) policy SpoolState_default [ev 1; ev 2; ev 3])
    = drop k (park (W := FakeSink) <$> [ev 1; ev 2; ev 3]).
Proof.
  destruct (enqueue_keeps_longest_suffix (W := FakeSink) policy SpoolState_default [ev 1; ev 2; ev 3])
    as (k & H & _);
    [vm_compute; discriminate|constructor|reflexivity|vm_compute; discriminate|vm_compute; discriminate
    |vm_compute; discriminate|].
  exists k. exact H.
Defined.
End witnesses.
