(* ===== verification/Seams.v ===== *)
(** * Wrapper seams (crates/hiloop-interceptor/src/seams.rs)

    Raw signals, the bounded sink sources deliver them to, normalizers with
    their router, and the provenance every normalized event is stamped with.
    A normalizer is a record of its methods over a world [N] that it threads
    (identifiers it mints, stores it writes); [argv_json] is serde_json's text
    of an argument list. *)
From Stdlib Require Import Strings.Byte.
From S2P Require Import Prelude Text Utf8 Identity Event Spool.

(** ** Provenance keys *)

Definition EXECUTION_ID := "execution.id"%string.
Definition NORMALIZER_NAME := "normalizer.name"%string.
Definition NORMALIZER_VERSION := "normalizer.version"%string.
Definition NORMALIZER_OUTPUT_SCHEMA_VERSION := "normalizer.output_schema_version"%string.
Definition PROCESS_COMMAND := "process.command"%string.
Definition PROCESS_COMMAND_ARGS := "process.command_args"%string.
Definition PROCESS_CWD := "process.cwd"%string.
Definition PROCESS_PID := "process.pid"%string.
Definition PRODUCER_ID := "producer.id"%string.
Definition RAW_OBSERVATION_ID := "raw.observation_id"%string.
Definition RAW_SOURCE := "raw.source"%string.
Definition RAW_KIND := "raw.kind"%string.
Definition RAW_RETENTION := "raw.retention"%string.
Definition WRAPPER_INVOCATION_ID := "wrapper.invocation_id"%string.
Definition WRAPPER_NAME := "wrapper.name"%string.
Definition WRAPPER_VERSION := "wrapper.version"%string.

(** ** Raw signals *)

Record ProcessContext := mkProcess {
  pc_pid : option Z; pc_command : option str; pc_argv : list str; pc_cwd : option str }.

Record ObservationContext := mkObservation {
  oc_producer_id : str; oc_execution_id : option str; oc_process : option ProcessContext }.

Record RawSignal := mkRaw {
  raw_source : str; raw_kind : str; observed_at : Hlc;
  raw_attributes : gmap str str; raw_body : str;
  raw_payload_ref : option PayloadRef;
  observation_context : option ObservationContext }.

Definition RawSignal_new (source kind : str) (observed_at : Hlc) (body : str) : RawSignal :=
  mkRaw source kind observed_at ∅ body None None.
Definition RawSignal_with_attribute (r : RawSignal) (k v : str) : RawSignal :=
  mkRaw (raw_source r) (raw_kind r) (observed_at r) (<[k := v]> (raw_attributes r)) (raw_body r)
    (raw_payload_ref r) (observation_context r).
Definition RawSignal_with_payload_ref (r : RawSignal) (p : PayloadRef) : RawSignal :=
  mkRaw (raw_source r) (raw_kind r) (observed_at r) (raw_attributes r) (raw_body r) (Some p)
    (observation_context r).
Definition with_observation_context (r : RawSignal) (c : ObservationContext) : RawSignal :=
  mkRaw (raw_source r) (raw_kind r) (observed_at r) (raw_attributes r) (raw_body r) (raw_payload_ref r)
    (Some c).

(** ** The bounded sink *)

Inductive SourceError :=
| SourceStopped (source_name reason : str)
| SourceBackpressure (source_name : str) (dropped : Z)
| SourceOther (source_name message : str).

Inductive SinkSend := Delivered | Full | Closed.
Definition is_open (s : SinkSend) : bool := match s with Closed => false | _ => true end.

(** A bounded [tokio::sync::mpsc] channel. *)
Record channel (A : Type) := mkChannel { ch_items : list A; ch_capacity : nat; ch_rx_open : bool }.
Arguments mkChannel {A}.
Arguments ch_items {A}.
Arguments ch_capacity {A}.
Arguments ch_rx_open {A}.

Definition channel_push {A} (c : channel A) (a : A) : channel A :=
  mkChannel (ch_items c ++ [a]) (ch_capacity c) (ch_rx_open c).

Definition try_send (c : channel (result SourceError RawSignal)) (raw : RawSignal)
    : channel (result SourceError RawSignal) * SinkSend :=
  if negb (ch_rx_open c) then (c, Closed)
  else if bool_decide (ch_capacity c ≤ length (ch_items c)) then (c, Full)
  else (channel_push c (Ok raw), Delivered).

(** [Sender::send]: [None] while it awaits capacity. *)
Definition send_result (c : channel (result SourceError RawSignal)) (item : result SourceError RawSignal)
    : option (channel (result SourceError RawSignal) * SinkSend) :=
  if negb (ch_rx_open c) then Some (c, Closed)
  else if bool_decide (ch_capacity c ≤ length (ch_items c)) then None
  else Some (channel_push c item, Delivered).
Definition send c raw := send_result c (Ok raw).
Definition send_error c error := send_result c (Err error).

(** ** Normalization context *)

Record WrapperContext := mkWrapper { wrapper_name : str; wrapper_version : str }.
(** [env!("CARGO_PKG_NAME")] and [env!("CARGO_PKG_VERSION")] of the crate. *)
Definition WrapperContext_current : WrapperContext := mkWrapper (bs "hiloop-interceptor") (bs "0.1.0").

Inductive RawRetentionPolicy := Preserve | DiscardAfterNormalize.
#[export] Instance retention_eq_dec : EqDecision RawRetentionPolicy.
Proof. solve_decision. Defined.
Definition retention_as_str (p : RawRetentionPolicy) : str :=
  match p with Preserve => bs "preserve" | DiscardAfterNormalize => bs "discard_after_normalize" end.

Inductive DiagnosticSeverity := SevDebug | SevInfo | SevWarn | SevError.
Record NormalizationDiagnostic := mkDiagnostic { severity : DiagnosticSeverity; diagnostic_message : str }.

Inductive NormalizeError :=
| Unsupported (normalizer source_name kind : str)
| Decode (source_name kind message : str)
| PayloadOffload (source_name kind message : str)
| InvalidOutput (normalizer message : str).

Inductive RawStoreError := BlankId | RawStoreOther (store message : str).

Record RawObservationRef := mkObservationRef { observation_id : str }.
Definition RawObservationRef_new (id : str) : result RawStoreError RawObservationRef :=
  if is_blank id then Err BlankId else Ok (mkObservationRef id).

Record NormalizerDescriptor := mkDescriptor {
  descriptor_name : str; descriptor_version : str; output_schema_version : str }.

Inductive NormalizerSupport := NotSupported | Fallback | Exact.
Definition is_supported (s : NormalizerSupport) : bool :=
  match s with NotSupported => false | _ => true end.
(** The derived [Ord]. *)
Definition support_rank (s : NormalizerSupport) : nat :=
  match s with NotSupported => 0 | Fallback => 1 | Exact => 2 end.

Section seams.
Context {U : UlidLib} (argv_json : list str → str).

Record NormalizationContext := mkNormalization {
  run_context : RunContext;
  nx_attributes : Attributes;
  nx_process : option ProcessContext;
  wrapper : WrapperContext }.

Definition NormalizationContext_new (run : RunContext) : NormalizationContext :=
  mkNormalization run ∅ None WrapperContext_current.
Definition with_attributes (c : NormalizationContext) (a : Attributes) : NormalizationContext :=
  mkNormalization (run_context c) a (nx_process c) (wrapper c).
Definition with_process (c : NormalizationContext) (p : ProcessContext) : NormalizationContext :=
  mkNormalization (run_context c) (nx_attributes c) (Some p) (wrapper c).

Definition stamp_if {A} (v : option A) (f : A → Event → Event) (e : Event) : Event :=
  match v with Some a => f a e | None => e end.
Definition non_empty (v : option str) : option str :=
  match v with Some [] => None | v => v end.

Definition stamp_process (p : ProcessContext) (e : Event) : Event :=
  let e := stamp_if (pc_pid p) (λ pid e, with_attribute e (key PROCESS_PID) (AI64 pid)) e in
  let e := stamp_if (non_empty (pc_command p))
             (λ c e, with_attribute e (key PROCESS_COMMAND) (AString (from_utf8_lossy c))) e in
  let e := if bool_decide (pc_argv p = []) then e
           else with_attribute e (key PROCESS_COMMAND_ARGS) (AString (argv_json (pc_argv p))) in
  stamp_if (non_empty (pc_cwd p))
    (λ c e, with_attribute e (key PROCESS_CWD) (AString (from_utf8_lossy c))) e.

Definition stamp_signal_provenance (c : NormalizationContext) (e : Event)
    (observation : option ObservationContext) : Event :=
  let e := map_fold (λ k v e, with_attribute e k v) e (nx_attributes c) in
  let e := with_attribute e (key WRAPPER_NAME) (AString (wrapper_name (wrapper c))) in
  let e := with_attribute e (key WRAPPER_VERSION) (AString (wrapper_version (wrapper c))) in
  let e := stamp_if observation (λ o e,
             let e := if bool_decide (oc_producer_id o = []) then e
                      else with_attribute e (key PRODUCER_ID) (AString (oc_producer_id o)) in
             stamp_if (non_empty (oc_execution_id o))
               (λ x e, with_attribute e (key EXECUTION_ID) (AString x)) e) e in
  let process := match observation ≫= oc_process with Some p => Some p | None => nx_process c end in
  stamp_if process stamp_process e.

Definition stamp_provenance (c : NormalizationContext) (e : Event) : Event :=
  stamp_signal_provenance c e None.

(** ** Normalizers and their router *)

Record NormalizationOutcome := mkOutcome {
  outcome_events : list Event;
  outcome_diagnostics : list NormalizationDiagnostic;
  raw_retention : RawRetentionPolicy }.

Definition from_events (events : list Event) : NormalizationOutcome := mkOutcome events [] DiscardAfterNormalize.
Definition with_raw_retention (o : NormalizationOutcome) (p : RawRetentionPolicy) : NormalizationOutcome :=
  mkOutcome (outcome_events o) (outcome_diagnostics o) p.
Definition with_diagnostic (o : NormalizationOutcome) (d : NormalizationDiagnostic) : NormalizationOutcome :=
  mkOutcome (outcome_events o) (outcome_diagnostics o ++ [d]) (raw_retention o).

Record Normalizer (N : Type) := mkNormalizer {
  descriptor : NormalizerDescriptor;
  supports : RawSignal → NormalizerSupport;
  normalize : N → NormalizationContext → RawSignal → N * result NormalizeError NormalizationOutcome }.
Arguments descriptor {N} _.
Arguments supports {N} _ _.
Arguments normalize {N} _ _ _ _.

Record SelectedNormalizer (N : Type) := mkSelected { selected : Normalizer N; support : NormalizerSupport }.
Arguments mkSelected {N}.
Arguments selected {N}.
Arguments support {N}.

Context {N : Type}.

(** The router is its non-empty list of normalizers. *)
Definition NormalizerRouter_new (l : list (Normalizer N)) : option (list (Normalizer N)) :=
  match l with [] => None | _ => Some l end.
Definition NormalizerRouter_single (n : Normalizer N) : list (Normalizer N) := [n].

Fixpoint select_all (router : list (Normalizer N)) (raw : RawSignal) : list (SelectedNormalizer N) :=
  match router with
  | [] => []
  | n :: router =>
      let support := supports n raw in
      if is_supported support then mkSelected n support :: select_all router raw
      else select_all router raw
  end.

Definition select (router : list (Normalizer N)) (raw : RawSignal) : option (SelectedNormalizer N) :=
  fold_left (λ best selection,
    match best with
    | Some b => if Nat.ltb (support_rank (support b)) (support_rank (support selection))
                then Some selection else best
    | None => Some selection
    end) (select_all router raw) None.

End seams.

Arguments mkOutcome {U}.
Arguments mkNormalizer {U N}.
Arguments descriptor {U N} _.
Arguments supports {U N} _ _.
Arguments normalize {U N} _ _ _ _.
Arguments mkSelected {U N}.
Arguments selected {U N}.
Arguments support {U N}.

(** ** Provenance as a map

    Stamping writes a list of fixed keys over the context's attributes, which
    overwrite the event's own. *)

Abbreviation stamp := (string * AttributeValue)%type.

Section provenance.
Context {U : UlidLib} (argv_json : list str → str).
Implicit Types (e : Event) (c : NormalizationContext).

Definition apply_stamp e (s : stamp) : Event := with_attribute e (key s.1) s.2.
Definition apply_stamps e (l : list stamp) : Event := foldl apply_stamp e l.
Definition stamps_map (l : list stamp) : Attributes := list_to_map ((λ s : stamp, (key s.1, s.2)) <$> reverse l).

Definition when {A} (v : option A) (f : A → stamp) : list stamp :=
  match v with Some a => [f a] | None => [] end.

Definition process_stamps (p : ProcessContext) : list stamp :=
  when (pc_pid p) (λ pid, (PROCESS_PID, AI64 pid)) ++
  when (non_empty (pc_command p)) (λ s, (PROCESS_COMMAND, AString (from_utf8_lossy s))) ++
  when (if bool_decide (pc_argv p = []) then None else Some (pc_argv p))
    (λ l, (PROCESS_COMMAND_ARGS, AString (argv_json l))) ++
  when (non_empty (pc_cwd p)) (λ s, (PROCESS_CWD, AString (from_utf8_lossy s))).

Definition observation_stamps (o : ObservationContext) : list stamp :=
  when (non_empty (Some (oc_producer_id o))) (λ s, (PRODUCER_ID, AString s)) ++
  when (non_empty (oc_execution_id o)) (λ s, (EXECUTION_ID, AString s)).

Definition signal_stamps c (o : option ObservationContext) : list stamp :=
  [(WRAPPER_NAME, AString (wrapper_name (wrapper c))); (WRAPPER_VERSION, AString (wrapper_version (wrapper c)))] ++
  from_option observation_stamps [] o ++
  from_option process_stamps [] (match o ≫= oc_process with Some p => Some p | None => nx_process c end).

Lemma apply_stamps_app e l k : apply_stamps e (l ++ k) = apply_stamps (apply_stamps e l) k.
Proof. apply foldl_app. Qed.

Lemma apply_when {A} (v : option A) (f : A → stamp) e :
  apply_stamps e (when v f) = stamp_if v (λ a e, with_attribute e (key (f a).1) (f a).2) e.
Proof. by destruct v. Qed.

Lemma stamp_process_stamps p e : stamp_process argv_json p e = apply_stamps e (process_stamps p).
Proof.
  unfold stamp_process, process_stamps. rewrite !apply_stamps_app, !apply_when. by case_bool_decide.
Qed.

Lemma stamp_signal_stamps c e o :
  stamp_signal_provenance argv_json c e o =
  apply_stamps (map_fold (λ k v e, with_attribute e k v) e (nx_attributes c)) (signal_stamps c o).
Proof.
  unfold stamp_signal_provenance, signal_stamps. rewrite !apply_stamps_app.
  assert (∀ p e, stamp_if p (stamp_process argv_json) e = apply_stamps e (from_option process_stamps [] p)) as Hp.
  { intros [p|] e'; [apply stamp_process_stamps|done]. }
  rewrite Hp. do 2 f_equal. destruct o as [o|]; [|done]. cbn [stamp_if from_option]. unfold observation_stamps.
  rewrite apply_stamps_app, !apply_when. cbn [fst snd]. f_equal.
  destruct (oc_producer_id o); [by rewrite bool_decide_true|by rewrite bool_decide_false].
Qed.

Lemma spine_apply_stamps e l : spine (apply_stamps e l) = spine e ∧ payload_ref (apply_stamps e l) = payload_ref e.
Proof. revert e. induction l as [|s l IH]; intros e; [done|]. apply (IH (apply_stamp e s)). Qed.

Lemma attributes_apply_stamps e l : attributes (apply_stamps e l) = stamps_map l ∪ attributes e.
Proof.
  unfold apply_stamps, stamps_map. induction l as [|s l IH] using rev_ind; [by rewrite reverse_nil, fmap_nil, list_to_map_nil, (left_id_L ∅ (∪))|].
  rewrite foldl_app, reverse_snoc, fmap_cons, list_to_map_cons. cbn [foldl fst snd].
  unfold apply_stamp at 1, with_attribute. cbn [attributes]. rewrite IH. apply insert_union_l.
Qed.

Lemma stamp_context_attributes (m : Attributes) e :
  let e' := map_fold (λ k v e, with_attribute e k v) e m in
  attributes e' = m ∪ attributes e ∧ spine e' = spine e ∧ payload_ref e' = payload_ref e.
Proof.
  apply (map_fold_weak_ind (λ e' m, attributes e' = m ∪ attributes e ∧ spine e' = spine e ∧ payload_ref e' = payload_ref e)).
  - by rewrite (left_id_L ∅ (∪)).
  - intros k v m' e' Hk (Ha & Hs & Hp). split_and!; [|done..]. unfold with_attribute. cbn [attributes].
    by rewrite Ha, insert_union_l.
Qed.

(** What stamping does, exactly. *)
Lemma stamp_signal_exact c e o :
  let e' := stamp_signal_provenance argv_json c e o in
  attributes e' = stamps_map (signal_stamps c o) ∪ (nx_attributes c ∪ attributes e) ∧
  spine e' = spine e ∧ payload_ref e' = payload_ref e.
Proof.
  cbv zeta. rewrite stamp_signal_stamps.
  destruct (stamp_context_attributes (nx_attributes c) e) as (Ha & Hs & Hp).
  set (e1 := map_fold _ _ _) in *.
  destruct (spine_apply_stamps e1 (signal_stamps c o)) as [Hs' Hp'].
  rewrite attributes_apply_stamps, Ha, Hs', Hp', Hs, Hp. done.
Qed.
End provenance.

(** ** The router picks the first strongest match *)

Section router.
Context {U : UlidLib} {N : Type}.
Implicit Types (router : list (Normalizer N)) (l : list (SelectedNormalizer N)).

Lemma select_all_spec router raw :
  select_all router raw =
  (λ n, mkSelected n (supports n raw)) <$> filter (λ n, is_supported (supports n raw) = true) router.
Proof.
  induction router as [|n router IH]; [done|]. cbn [select_all]. rewrite filter_cons, IH.
  by destruct (is_supported (supports n raw)).
Qed.

Definition rank (s : SelectedNormalizer N) : nat := support_rank (support s).

Definition strongest_first l (s : SelectedNormalizer N) : Prop :=
  ∃ before after, l = before ++ s :: after ∧ Forall (λ x, rank x < rank s) before ∧
    Forall (λ x, rank x ≤ rank s) after.

Definition pick (best : option (SelectedNormalizer N)) (s : SelectedNormalizer N) : option (SelectedNormalizer N) :=
  match best with
  | Some b => if Nat.ltb (rank b) (rank s) then Some s else best
  | None => Some s
  end.

Lemma pick_strongest l :
  match fold_left pick l None with Some s => strongest_first l s | None => l = [] end.
Proof.
  induction l as [|x l IH] using rev_ind; [done|]. rewrite fold_left_app. cbn [fold_left].
  destruct (fold_left pick l None) as [b|]; simpl.
  - destruct IH as (before & after & -> & Hb & Ha). destruct (Nat.ltb_spec (rank b) (rank x)).
    + exists (before ++ b :: after), []. split_and!; [by rewrite <- app_assoc| |constructor].
      rewrite Forall_app, Forall_cons. split_and!; [|done|].
      * eapply Forall_impl; [exact Hb|]. intros; simpl in *; lia.
      * eapply Forall_impl; [exact Ha|]. intros; simpl in *; lia.
    + exists before, (after ++ [x]). split_and!; [by rewrite <- app_assoc|done|].
      rewrite Forall_app, Forall_singleton. done.
  - subst l. exists [], []. done.
Qed.

Lemma select_strongest router raw :
  match select router raw with
  | Some s => strongest_first (select_all router raw) s
  | None => ∀ n, n ∈ router → supports n raw = NotSupported
  end.
Proof.
  pose proof (pick_strongest (select_all router raw)) as H. unfold select.
  change (fold_left _ (select_all router raw) None) with (fold_left pick (select_all router raw) None).
  destruct (fold_left pick _ None) as [s|]; [done|]. intros n Hn. rewrite select_all_spec in H.
  apply fmap_nil_inv in H. destruct (supports n raw) eqn:E; [done|..];
    (assert (n ∈ filter (λ n, is_supported (supports n raw) = true) router) as Hin
      by (apply list_elem_of_filter; split; [by rewrite E|done]); rewrite H in Hin; by apply not_elem_of_nil in Hin).
Qed.
End router.
