(* ===== verification/Pipeline.v ===== *)
(** * The capture pipeline (crates/hiloop-interceptor/src/pipeline.rs)

    Three stages run concurrently over two bounded channels: the source stage
    forwards raw signals, the normalize stage turns each into stamped events,
    the export stage batches events for the exporter.  A state holds the three
    stages and the two queues; a step is one stage's move between two awaits,
    the age trigger of a waiting batch, or the final join.  Which stage moves
    next, and when the age trigger fires, is the scheduler's choice.

    The normalizers and the raw store share the world [N], the exporter has
    the world [X]: each belongs to one stage.  An awaited export is one step,
    since nothing outside its stage sees it half done. *)
From Stdlib Require Import Strings.Byte Relations Wellfounded.
From stdpp Require Import relations.
From S2P Require Import Prelude Text Utf8 Identity Event Capture Spool Seams.

(** ** Options *)

Definition DEFAULT_EXPORT_FLUSH_INTERVAL_MS : Z := 1000.
Definition DEFAULT_EXPORT_FLUSH_INTERVAL : Z := millis DEFAULT_EXPORT_FLUSH_INTERVAL_MS.

Record PipelineOptions := mkOptions {
  raw_queue_capacity : nat;
  event_queue_capacity : nat;
  export_batch_size : nat;
  export_flush_interval : option Z;
  raw_retention_override : option RawRetentionPolicy;
}.

Inductive PipelineOptionsError := ZeroCapacity (field : str).

Definition PipelineOptions_new (raw_queue_capacity event_queue_capacity export_batch_size : nat)
    : result PipelineOptionsError PipelineOptions :=
  if Nat.eqb raw_queue_capacity 0 then Err (ZeroCapacity (bs "raw_queue_capacity"))
  else if Nat.eqb event_queue_capacity 0 then Err (ZeroCapacity (bs "event_queue_capacity"))
  else if Nat.eqb export_batch_size 0 then Err (ZeroCapacity (bs "export_batch_size"))
  else Ok (mkOptions raw_queue_capacity event_queue_capacity export_batch_size
             (Some DEFAULT_EXPORT_FLUSH_INTERVAL) None).

Definition PipelineOptions_default : PipelineOptions :=
  mkOptions 1024 1024 DEFAULT_EXPORT_BATCH_SIZE (Some DEFAULT_EXPORT_FLUSH_INTERVAL) None.

Definition with_export_batch_size (o : PipelineOptions) (size : nat) : PipelineOptions :=
  mkOptions (raw_queue_capacity o) (event_queue_capacity o) (Nat.max size 1) (export_flush_interval o)
    (raw_retention_override o).
Definition with_export_flush_interval (o : PipelineOptions) (interval : option Z) : PipelineOptions :=
  mkOptions (raw_queue_capacity o) (event_queue_capacity o) (export_batch_size o)
    (d ← interval; if (d =? 0)%Z then None else Some d) (raw_retention_override o).
Definition with_raw_retention_override (o : PipelineOptions) (p : RawRetentionPolicy) : PipelineOptions :=
  mkOptions (raw_queue_capacity o) (event_queue_capacity o) (export_batch_size o) (export_flush_interval o)
    (Some p).

(** What every constructor and override guarantees. *)
Definition options_wf (o : PipelineOptions) : Prop :=
  0 < raw_queue_capacity o ∧ 0 < event_queue_capacity o ∧ 0 < export_batch_size o ∧
  export_flush_interval o ≠ Some 0%Z.

(** ** Reports and errors *)

Record PipelineSourceReport := mkSourceReport { full_events : nat; metadata_only_events : nat }.
Definition PipelineSourceReport_default : PipelineSourceReport := mkSourceReport 0 0.

Record PipelineReport := mkPipelineReport {
  rep_raw_signals : nat; rep_events : nat; rep_diagnostics : nat; rep_raw_observations : nat;
  rep_export_batches : nat; rep_sources : gmap str PipelineSourceReport }.

Inductive PipelineError :=
| PSource (e : SourceError)
| PNormalize (e : NormalizeError)
| PExport (e : ExportError)
| PRawStore (e : RawStoreError)
| RawRetentionUnavailable (normalizer source_name kind : str)
| ChannelClosed (stage : str).

Definition EXEC_SOURCE : str := bs "supervisor".
Definition STDIO_SOURCE : str := bs "stdio".
Definition PROXY_SOURCE : str := bs "proxy".
Definition OTLP_SOURCE : str := bs "otlp".

Definition source_bucket (source : str) : str :=
  if bool_decide (source = EXEC_SOURCE) then EXEC_SOURCE
  else if bool_decide (source = STDIO_SOURCE) then STDIO_SOURCE
  else if bool_decide (source = PROXY_SOURCE) then PROXY_SOURCE
  else if bool_decide (source = OTLP_SOURCE) then OTLP_SOURCE
  else bs "other".

(** ** Interfaces *)

(** [trait Exporter] *)
Class Exporter {U : UlidLib} (X : Type) := {
  export : X → list Event → X * result ExportError unit;
  export_flush : X → X * result ExportError unit;
}.

(** [trait RawStore] *)
Record RawStore {U : UlidLib} (N : Type) := mkRawStore {
  store : N → NormalizationContext → RawSignal → N * result RawStoreError RawObservationRef;
  store_flush : N → N * result RawStoreError unit }.
Arguments mkRawStore {U N}.
Arguments store {U N}.
Arguments store_flush {U N}.

Section pipeline.
Context {U : UlidLib} (argv_json : list str → str) {N X : Type} {EX : Exporter X}.
Context (context : NormalizationContext) (router : list (Normalizer N)) (raw_store : option (RawStore N)).
Context (options : PipelineOptions).

(** ** Stamping *)

Definition stamp_normalization_metadata (e : Event) (observation : option ObservationContext)
    (d : NormalizerDescriptor) (retention : RawRetentionPolicy) (source kind : str)
    (raw_observation : option RawObservationRef) : Event :=
  let e := stamp_signal_provenance argv_json context e observation in
  let e := with_attribute e (key NORMALIZER_NAME) (AString (descriptor_name d)) in
  let e := with_attribute e (key NORMALIZER_VERSION) (AString (descriptor_version d)) in
  let e := with_attribute e (key NORMALIZER_OUTPUT_SCHEMA_VERSION) (AString (output_schema_version d)) in
  let e := with_attribute e (key RAW_SOURCE) (AString source) in
  let e := with_attribute e (key RAW_KIND) (AString kind) in
  let e := with_attribute e (key RAW_RETENTION) (AString (retention_as_str retention)) in
  match raw_observation with
  | Some r => with_attribute e (key RAW_OBSERVATION_ID) (AString (observation_id r))
  | None => e
  end.

(** ** One raw signal through the normalize stage *)

(** The loop over the selected normalizers; [counter] is the shared event
    counter, which keeps what was added before a failure. *)
Fixpoint run_selections (n : N) (counter : Z) (raw : RawSignal) (selections : list (SelectedNormalizer N))
    : N * Z * result PipelineError (list (NormalizerDescriptor * NormalizationOutcome)) :=
  match selections with
  | [] => (n, counter, Ok [])
  | selection :: selections =>
      let '(n, r) := normalize (selected selection) n context raw in
      match r with
      | Err e => (n, counter, Err (PNormalize e))
      | Ok outcome =>
          let counter := add_u64 counter (Z.of_nat (length (outcome_events outcome))) in
          let '(n, counter, r) := run_selections n counter raw selections in
          (n, counter, (λ l, (descriptor (selected selection), outcome) :: l) <$> r)
      end
  end.

(** The retention asked for, and by which normalizer: the last to ask. *)
Definition requested_retention (l : list (NormalizerDescriptor * NormalizationOutcome))
    : RawRetentionPolicy * str :=
  fold_left (λ acc p, if bool_decide (raw_retention p.2 = Preserve) then (Preserve, descriptor_name p.1) else acc)
    l (DiscardAfterNormalize, bs "pipeline").

(** What one raw signal contributes: its events with their source bucket, and
    the counts. *)
Record processed := mkProcessed {
  pd_events : list (str * Event); pd_count : nat; pd_diagnostics : nat; pd_stored : nat }.

Definition process_raw (n : N) (counter : Z) (raw : RawSignal) : N * Z * result PipelineError processed :=
  match select_all router raw with
  | [] => (n, counter,
           Err (PNormalize (Unsupported (bs "normalizer-router") (raw_source raw) (raw_kind raw))))
  | selections =>
      let '(n, counter, r) := run_selections n counter raw selections in
      match r with
      | Err e => (n, counter, Err e)
      | Ok normalized =>
          let '(requested, requester) := requested_retention normalized in
          let retention := default requested (raw_retention_override options) in
          let '(n, observation) :=
            if bool_decide (retention = Preserve) then
              match raw_store with
              | None => (n, Err (RawRetentionUnavailable requester (raw_source raw) (raw_kind raw)))
              | Some st => let '(n, r) := store st n context raw in (n, Some <$> map_err PRawStore r)
              end
            else (n, Ok None) in
          match observation with
          | Err e => (n, counter, Err e)
          | Ok observation =>
              let events := normalized ≫= λ p, (λ e,
                (source_bucket (raw_source raw),
                 stamp_normalization_metadata e (observation_context raw) p.1 retention
                   (raw_source raw) (raw_kind raw) observation)) <$> outcome_events p.2 in
              (n, counter, Ok (mkProcessed events
                 (sum_list ((λ p, length (outcome_events p.2)) <$> normalized))
                 (sum_list ((λ p, length (outcome_diagnostics p.2)) <$> normalized))
                 (if bool_decide (retention = Preserve) then 1 else 0)))
          end
      end
  end.

(** The per-source tally of an event about to be sent. *)
Definition metadata_only (e : Event) : bool :=
  match attributes e !! L7_CAPTURE with Some (ABool false) => true | _ => false end.
Definition tally (sources : gmap str PipelineSourceReport) (p : str * Event) : gmap str PipelineSourceReport :=
  let r := default PipelineSourceReport_default (sources !! p.1) in
  <[p.1 := if metadata_only p.2 then mkSourceReport (full_events r) (S (metadata_only_events r))
           else mkSourceReport (S (full_events r)) (metadata_only_events r)]> sources.

(** ** The stages' state *)

Record source_stage := mkSourceStage {
  ss_stream : list (result SourceError RawSignal);  (* what the stream still yields *)
  ss_count : nat;
  ss_done : bool }.
Record normalize_stage := mkNormalizeStage {
  ns_world : N;
  ns_pending : list (str * Event);  (* stamped events not yet sent *)
  ns_events : nat; ns_diagnostics : nat; ns_raw_observations : nat;
  ns_sources : gmap str PipelineSourceReport;
  ns_counter : Z;
  ns_done : bool }.
Record export_stage := mkExportStage {
  es_world : X;
  es_batch : list Event;
  es_armed : bool;  (* the deadline is set *)
  es_batches : nat;
  es_acked : list (list Event);  (* the batches the exporter accepted *)
  es_done : bool }.
Record state := mkState {
  source : source_stage; raw_q : list RawSignal; norm : normalize_stage; event_q : list Event;
  exporting : export_stage; outcome : option (result PipelineError PipelineReport) }.

Definition fail (s : state) (e : PipelineError) : state :=
  mkState (source s) (raw_q s) (norm s) (event_q s) (exporting s) (Some (Err e)).

(** ** Steps *)

Definition source_step (s : state) : option state :=
  let st := source s in
  if ss_done st then None
  else match ss_stream st with
       | [] => Some (mkState (mkSourceStage [] (ss_count st) true) (raw_q s) (norm s) (event_q s) (exporting s) None)
       | Err e :: _ => Some (fail s (PSource e))
       | Ok raw :: stream =>
           if ns_done (norm s) then Some (fail s (ChannelClosed (bs "raw signal")))
           else if bool_decide (length (raw_q s) < raw_queue_capacity options) then
             Some (mkState (mkSourceStage stream (S (ss_count st)) false) (raw_q s ++ [raw]) (norm s)
                     (event_q s) (exporting s) None)
           else None
       end.

Definition normalize_step (s : state) : option state :=
  let st := norm s in
  if ns_done st then None
  else match ns_pending st with
       | p :: pending =>
           if bool_decide (length (event_q s) < event_queue_capacity options) then
             Some (mkState (source s) (raw_q s)
                     (mkNormalizeStage (ns_world st) pending (ns_events st) (ns_diagnostics st)
                        (ns_raw_observations st) (tally (ns_sources st) p) (ns_counter st) false)
                     (event_q s ++ [p.2]) (exporting s) None)
           else None
       | [] =>
           match raw_q s with
           | raw :: q =>
               let '(n, counter, r) := process_raw (ns_world st) (ns_counter st) raw in
               match r with
               | Err e =>
                   Some (fail (mkState (source s) q
                     (mkNormalizeStage n [] (ns_events st) (ns_diagnostics st) (ns_raw_observations st)
                        (ns_sources st) counter false) (event_q s) (exporting s) None) e)
               | Ok p =>
                   Some (mkState (source s) q
                     (mkNormalizeStage n (pd_events p) (ns_events st + pd_count p)
                        (ns_diagnostics st + pd_diagnostics p) (ns_raw_observations st + pd_stored p)
                        (ns_sources st) counter false) (event_q s) (exporting s) None)
               end
           | [] =>
               if ss_done (source s) then
                 Some (mkState (source s) []
                   (mkNormalizeStage (ns_world st) [] (ns_events st) (ns_diagnostics st)
                      (ns_raw_observations st) (ns_sources st) (ns_counter st) true)
                   (event_q s) (exporting s) None)
               else None
           end
       end.

(** Ship the batch; [rest] says how the stage continues when it is accepted. *)
Definition ship (s : state) (q : list Event) (batch : list Event) (rest : export_stage → state) : state :=
  let st := exporting s in
  let '(x, r) := export (es_world st) batch in
  match r with
  | Ok _ => rest (mkExportStage x [] false (S (es_batches st)) (es_acked st ++ [batch]) false)
  | Err e => fail (mkState (source s) (raw_q s) (norm s) q
                     (mkExportStage x batch (es_armed st) (es_batches st) (es_acked st) false) None) (PExport e)
  end.

(** After the last event: the rest of the batch, then the flush. *)
Definition close_export (s : state) (st : export_stage) : state :=
  let '(x, r) := export_flush (es_world st) in
  let st' := mkExportStage x [] false (es_batches st) (es_acked st) (match r with Ok _ => true | Err _ => false end) in
  let s' := mkState (source s) (raw_q s) (norm s) [] st' None in
  match r with Ok _ => s' | Err e => fail s' (PExport e) end.

Definition export_step (s : state) : option state :=
  let st := exporting s in
  if es_done st then None
  else match event_q s with
       | event :: q =>
           let armed := if bool_decide (es_batch st = []) then bool_decide (is_Some (export_flush_interval options))
                        else es_armed st in
           let batch := es_batch st ++ [event] in
           Some (if bool_decide (export_batch_size options ≤ length batch)
                 then ship s q batch (λ st, mkState (source s) (raw_q s) (norm s) q st None)
                 else mkState (source s) (raw_q s) (norm s) q
                        (mkExportStage (es_world st) batch armed (es_batches st) (es_acked st) false) None)
       | [] =>
           if ns_done (norm s) then
             Some (if bool_decide (es_batch st = []) then close_export s st
                   else ship s [] (es_batch st) (close_export s))
           else None
       end.

(** The age trigger; the biased select prefers a ready event or the end. *)
Definition age_step (s : state) : option state :=
  let st := exporting s in
  if es_done st || negb (es_armed st) then None
  else match event_q s with
       | _ :: _ => None
       | [] =>
           if ns_done (norm s) then None
           else Some (if bool_decide (es_batch st = [])
                      then mkState (source s) (raw_q s) (norm s) []
                             (mkExportStage (es_world st) [] false (es_batches st) (es_acked st) false) None
                      else ship s [] (es_batch st) (λ st, mkState (source s) (raw_q s) (norm s) [] st None))
       end.

(** The join of the three stages, the raw store's flush and the report. *)
Definition finish_step (s : state) : option state :=
  if ss_done (source s) && ns_done (norm s) && es_done (exporting s) then
    let '(n, r) := match raw_store with
                   | Some st => store_flush st (ns_world (norm s))
                   | None => (ns_world (norm s), Ok ())
                   end in
    let st := norm s in
    let norm' := mkNormalizeStage n (ns_pending st) (ns_events st) (ns_diagnostics st) (ns_raw_observations st)
                   (ns_sources st) (ns_counter st) (ns_done st) in
    Some (mkState (source s) (raw_q s) norm' (event_q s) (exporting s)
      (Some (match r with
             | Err e => Err (PRawStore e)
             | Ok _ => Ok (mkPipelineReport (ss_count (source s)) (ns_events st) (ns_diagnostics st)
                             (ns_raw_observations st) (es_batches (exporting s)) (ns_sources st))
             end)))
  else None.

Inductive label := SourceMoves | NormalizeMoves | ExportMoves | AgeTrigger | Join.

Definition step (l : label) (s : state) : option state :=
  match outcome s with
  | Some _ => None
  | None =>
      match l with
      | SourceMoves => source_step s
      | NormalizeMoves => normalize_step s
      | ExportMoves => export_step s
      | AgeTrigger => age_step s
      | Join => finish_step s
      end
  end.

Definition pipeline_step (s s' : state) : Prop := ∃ l, step l s = Some s'.

Definition initial (n : N) (x : X) (counter : Z) (stream : list (result SourceError RawSignal)) : state :=
  mkState (mkSourceStage stream 0 false) []
    (mkNormalizeStage n [] 0 0 0 ∅ counter false) [] (mkExportStage x [] false 0 [] false) None.

(** A schedule; a label that cannot move is skipped. *)
Fixpoint run_schedule (s : state) (ls : list label) : state :=
  match ls with
  | [] => s
  | l :: ls => run_schedule (default s (step l s)) ls
  end.

(** ** Specification: one signal after the other *)

Fixpoint sequential (n : N) (counter : Z) (raws : list RawSignal) : N * Z * result PipelineError (list processed) :=
  match raws with
  | [] => (n, counter, Ok [])
  | raw :: raws =>
      let '(n, counter, r) := process_raw n counter raw in
      match r with
      | Err e => (n, counter, Err e)
      | Ok p => let '(n, counter, r) := sequential n counter raws in (n, counter, (λ l, p :: l) <$> r)
      end
  end.

Definition all_events (ps : list processed) : list (str * Event) := ps ≫= pd_events.

End pipeline.

(** ** The invariant *)

Section invariant.
Context {U : UlidLib} (argv_json : list str → str) {N X : Type} {EX : Exporter X}.
Context (context : NormalizationContext) (router : list (Normalizer N)) (raw_store : option (RawStore N)).
Context (options : PipelineOptions).
Context (n0 : N) (c0 : Z) (x0 : X) (stream0 : list (result SourceError RawSignal)).

Abbreviation pstate := (@state U N X).
Abbreviation in_turn := (sequential argv_json context router raw_store options).
Abbreviation process_one := (process_raw argv_json context router raw_store options).
Abbreviation do_step := (step argv_json context router raw_store options).
Implicit Types (s : pstate) (ps : list processed).

Definition totals ps : nat * nat * nat :=
  (sum_list (pd_count <$> ps), sum_list (pd_diagnostics <$> ps), sum_list (pd_stored <$> ps)).
Definition batch_ok (b : list Event) : Prop := 0 < length b ≤ export_batch_size options.

(** The exporter's world after it accepted these batches one after the other. *)
Inductive shipped : list (list Event) → X → Prop :=
| shipped_none : shipped [] x0
| shipped_batch acked x b x' : shipped acked x → export x b = (x', Ok ()) → shipped (acked ++ [b]) x'.

(** The signals [taken] from the stream, those [normalized], what they gave,
    and the events [sent] to the export stage. *)
Record running (taken normalized : list RawSignal) ps (sent : list (str * Event)) s : Prop := {
  rn_stream : stream0 = (Ok <$> taken) ++ ss_stream (source s);
  rn_taken : taken = normalized ++ raw_q s;
  rn_count : ss_count (source s) = length taken;
  rn_seq : in_turn n0 c0 normalized = (ns_world (norm s), ns_counter (norm s), Ok ps);
  rn_events : all_events ps = sent ++ ns_pending (norm s);
  rn_sent : sent.*2 = concat (es_acked (exporting s)) ++ es_batch (exporting s) ++ event_q s;
  rn_sources : ns_sources (norm s) = foldl tally ∅ sent;
  rn_totals : (ns_events (norm s), ns_diagnostics (norm s), ns_raw_observations (norm s)) = totals ps;
  rn_raw_cap : length (raw_q s) ≤ raw_queue_capacity options;
  rn_event_cap : length (event_q s) ≤ event_queue_capacity options;
  rn_batch : length (es_batch (exporting s)) < export_batch_size options;
  rn_batches : es_batches (exporting s) = length (es_acked (exporting s));
  rn_acked : Forall batch_ok (es_acked (exporting s));
  rn_armed : es_armed (exporting s) = bool_decide (es_batch (exporting s) ≠ [] ∧ is_Some (export_flush_interval options));
  rn_source_done : ss_done (source s) = true → ss_stream (source s) = [];
  rn_norm_done : ns_done (norm s) = true → ss_done (source s) = true ∧ raw_q s = [] ∧ ns_pending (norm s) = [];
  rn_export_done : es_done (exporting s) = true →
    ns_done (norm s) = true ∧ event_q s = [] ∧ es_batch (exporting s) = [];
  rn_world : if es_done (exporting s)
    then ∃ x, shipped (es_acked (exporting s)) x ∧ export_flush x = (es_world (exporting s), Ok ())
    else shipped (es_acked (exporting s)) (es_world (exporting s));
}.

(** What a run that returned [Ok] has done. *)
Definition completed (rep : PipelineReport) (acked : list (list Event)) (world : X) : Prop :=
  (∃ x, shipped acked x ∧ export_flush x = (world, Ok ())) ∧
  ∃ raws n c ps, stream0 = Ok <$> raws ∧ in_turn n0 c0 raws = (n, c, Ok ps) ∧
    concat acked = (all_events ps).*2 ∧ Forall batch_ok acked ∧
    rep = mkPipelineReport (length raws) (sum_list (pd_count <$> ps)) (sum_list (pd_diagnostics <$> ps))
            (sum_list (pd_stored <$> ps)) (length acked) (foldl tally ∅ (all_events ps)).

(** What the exporter has accepted at any time: a prefix of the events of the
    signals normalized so far, in order, in batches within the bound. *)
Definition delivered_prefix (taken normalized : list RawSignal) (acked : list (list Event)) : Prop :=
  normalized `prefix_of` taken ∧
  ∃ n c ps, in_turn n0 c0 normalized = (n, c, Ok ps) ∧
    concat acked `prefix_of` (all_events ps).*2 ∧ Forall batch_ok acked.

(** The exporter refused the next batch, or its last flush. *)
Definition export_refused (normalized : list RawSignal) (acked : list (list Event)) (ee : ExportError) : Prop :=
  ∃ x, shipped acked x ∧
    ((∃ b n c ps, batch_ok b ∧ in_turn n0 c0 normalized = (n, c, Ok ps) ∧
        (concat acked ++ b) `prefix_of` (all_events ps).*2 ∧ (export x b).2 = Err ee) ∨
     (export_flush x).2 = Err ee).

(** What a run that returned an error has done, and where the error is from:
    the stream, the normalization of the next signal, the exporter or the raw
    store. *)
Definition failed_because (e : PipelineError) (acked : list (list Event)) : Prop :=
  ∃ taken rest normalized, stream0 = (Ok <$> taken) ++ rest ∧ delivered_prefix taken normalized acked ∧
  match e with
  | PSource se => ∃ rest', rest = Err se :: rest'
  | PExport ee => export_refused normalized acked ee
  | ChannelClosed _ => False
  | PRawStore se => (∃ raw, (normalized ++ [raw]) `prefix_of` taken ∧
                       (in_turn n0 c0 (normalized ++ [raw])).2 = Err e) ∨
                    (∃ st n, raw_store = Some st ∧ (store_flush st n).2 = Err se)
  | PNormalize _ | RawRetentionUnavailable _ _ _ =>
      ∃ raw, (normalized ++ [raw]) `prefix_of` taken ∧ (in_turn n0 c0 (normalized ++ [raw])).2 = Err e
  end.

Definition settled s : Prop :=
  match outcome s with
  | None => ∃ taken normalized ps sent, running taken normalized ps sent s
  | Some (Ok rep) => completed rep (es_acked (exporting s)) (es_world (exporting s))
  | Some (Err e) => failed_because e (es_acked (exporting s))
  end.

Lemma sequential_snoc n c l raw n' c' ps :
  in_turn n c l = (n', c', Ok ps) →
  in_turn n c (l ++ [raw]) =
  match process_one n' c' raw with
  | (n, c, Ok p) => (n, c, Ok (ps ++ [p]))
  | (n, c, Err e) => (n, c, Err e)
  end.
Proof.
  revert n c ps. induction l as [|r l IH]; intros n c ps; cbn [sequential app].
  - intros [= -> -> <-]. destruct (process_one n' c' raw) as [[n2 c2] [p|e]]; done.
  - destruct (process_one n c r) as [[n1 c1] [p|e]]; [|done].
    destruct (in_turn n1 c1 l) as [[n2 c2] [ps1|e]] eqn:E; [|done]. intros [= <- <- <-].
    rewrite (IH _ _ _ E). destruct (process_one n2 c2 raw) as [[n3 c3] [p'|e]]; done.
Qed.

Lemma running_delivered taken normalized ps sent s :
  running taken normalized ps sent s → delivered_prefix taken normalized (es_acked (exporting s)).
Proof.
  intros R. split; [exists (raw_q s); apply R|]. eexists _, _, ps. split; [apply R|]. split; [|apply R].
  rewrite (rn_events _ _ _ _ _ R), fmap_app, (rn_sent _ _ _ _ _ R), <- app_assoc. apply prefix_app_r. done.
Qed.

Lemma process_raw_error n c raw n' c' e :
  process_one n c raw = (n', c', Err e) →
  match e with PNormalize _ | RawRetentionUnavailable _ _ _ | PRawStore _ => True | _ => False end.
Proof.
  unfold process_raw. destruct (select_all router raw) as [|sel sels]; [by intros [= _ _ <-]|].
  assert (∀ (n : N) c (sels : list (SelectedNormalizer N)) (n' : N) c' e, run_selections context n c raw sels = (n', c', Err e) → ∃ x, e = PNormalize x) as Hsel.
  { clear. intros n c sels. revert n c. induction sels as [|s sels IH]; intros n c n' c' e; cbn [run_selections]; [done|].
    destruct (normalize _ _ _ _) as [n1 [o|x]]; [|intros [= _ _ <-]; eauto].
    destruct (run_selections _ n1 _ raw sels) as [[n2 c2] [l|x]] eqn:E; [done|]. intros [= _ _ <-].
    by apply IH in E. }
  destruct (run_selections _ _ _ _ _) as [[n1 c1] [l|x]] eqn:E.
  - destruct (requested_retention l) as [req who]. case_bool_decide; [|done].
    destruct raw_store as [st|]; [|by intros [= _ _ <-]].
    destruct (store st _ _ _) as [n2 [o|x]]; [done|]. by intros [= _ _ <-].
  - intros [= _ _ <-]. destruct (Hsel _ _ _ _ _ _ E) as [y ->]. done.
Qed.

Lemma source_step_settled taken normalized ps sent s s' :
  running taken normalized ps sent s → source_step options s = Some s' → settled s'.
Proof.
  intros R. unfold source_step. destruct (ss_done (source s)) eqn:Ed; [done|].
  destruct (ss_stream (source s)) as [|[raw|e] stream] eqn:Es.
  - intros [= <-]. unfold settled. cbn [outcome]. exists taken, normalized, ps, sent.
    split; cbn; try apply R; [rewrite (rn_stream _ _ _ _ _ R); by rewrite Es|done|].
    intros H. apply (rn_norm_done _ _ _ _ _ R) in H as (H & _). congruence.
  - destruct (ns_done (norm s)) eqn:En.
    { apply (rn_norm_done _ _ _ _ _ R) in En as (H & _). congruence. }
    case_bool_decide as Hcap; [|done]. intros [= <-]. unfold settled. cbn [outcome].
    exists (taken ++ [raw]), normalized, ps, sent. split; cbn; try apply R.
    + rewrite fmap_app, <- app_assoc. rewrite (rn_stream _ _ _ _ _ R). by rewrite Es.
    + rewrite (rn_taken _ _ _ _ _ R). by rewrite <- app_assoc.
    + rewrite length_app, (rn_count _ _ _ _ _ R). simpl. lia.
    + rewrite length_app. simpl. lia.
    + done.
    + congruence.
  - intros [= <-]. unfold settled. cbn [outcome fail exporting].
    exists taken, (Err e :: stream), normalized. split_and!.
    + rewrite (rn_stream _ _ _ _ _ R). by rewrite Es.
    + by eapply running_delivered.
    + eauto.
Qed.

Lemma normalize_step_settled taken normalized ps sent s s' :
  running taken normalized ps sent s →
  normalize_step argv_json context router raw_store options s = Some s' → settled s'.
Proof.
  intros R. unfold normalize_step. destruct (ns_done (norm s)) eqn:En; [done|].
  destruct (ns_pending (norm s)) as [|p pending] eqn:Ep.
  - destruct (raw_q s) as [|raw q] eqn:Eq.
    + destruct (ss_done (source s)) eqn:Es; [|done]. intros [= <-]. unfold settled. cbn [outcome].
      exists taken, normalized, ps, sent. split; cbn; try apply R; try done.
      * rewrite <- Eq. apply R.
      * rewrite <- Ep. apply R.
      * simpl. lia.
      * intros H. apply (rn_export_done _ _ _ _ _ R) in H as [H _]. congruence.
    + destruct (process_one (ns_world (norm s)) (ns_counter (norm s)) raw) as [[n c] [p|e]] eqn:Epr.
      * intros [= <-]. unfold settled. cbn [outcome].
        exists taken, (normalized ++ [raw]), (ps ++ [p]), sent. split; cbn; try apply R; try done.
        -- rewrite (rn_taken _ _ _ _ _ R), Eq, <- app_assoc. done.
        -- rewrite (sequential_snoc _ _ _ _ _ _ _ (rn_seq _ _ _ _ _ R)), Epr. done.
        -- unfold all_events. rewrite bind_app. fold (all_events ps). rewrite (rn_events _ _ _ _ _ R), Ep, app_nil_r.
           cbn. by rewrite app_nil_r.
        -- pose proof (rn_totals _ _ _ _ _ R) as Ht. unfold totals in *. injection Ht as -> -> ->.
           rewrite !fmap_app, !sum_list_app. cbn. by rewrite !Nat.add_0_r.
        -- pose proof (rn_raw_cap _ _ _ _ _ R) as Hc. rewrite Eq in Hc. simpl in Hc. lia.
        -- intros H. apply (rn_export_done _ _ _ _ _ R) in H as [H _]. congruence.
      * intros [= <-]. unfold settled. cbn [outcome fail exporting].
        exists taken, (ss_stream (source s)), normalized. split_and!; [apply R|by eapply running_delivered|].
        assert (∃ raw, (normalized ++ [raw]) `prefix_of` taken ∧ (in_turn n0 c0 (normalized ++ [raw])).2 = Err e) as Hraw.
        { exists raw. split.
          - exists q. rewrite (rn_taken _ _ _ _ _ R), Eq, <- app_assoc. done.
          - rewrite (sequential_snoc _ _ _ _ _ _ _ (rn_seq _ _ _ _ _ R)), Epr. done. }
        apply process_raw_error in Epr. destruct e; try done. by left.
  - case_bool_decide as Hcap; [|done]. intros [= <-]. unfold settled. cbn [outcome].
    exists taken, normalized, ps, (sent ++ [p]). split; cbn; try apply R; try done.
    + rewrite <- app_assoc. rewrite (rn_events _ _ _ _ _ R), Ep. done.
    + rewrite fmap_app, (rn_sent _ _ _ _ _ R), <- !app_assoc. done.
    + rewrite foldl_app, (rn_sources _ _ _ _ _ R). done.
    + rewrite length_app. simpl. lia.
    + intros H. apply (rn_export_done _ _ _ _ _ R) in H as [H _]. congruence.
Qed.

Lemma ship_settled taken normalized ps sent s q batch rest :
  running taken normalized ps sent s → es_done (exporting s) = false → batch_ok batch →
  es_batch (exporting s) ++ event_q s = batch ++ q →
  (∀ x, shipped (es_acked (exporting s) ++ [batch]) x →
     let st := mkExportStage x [] false (S (es_batches (exporting s))) (es_acked (exporting s) ++ [batch]) false in
     settled (rest st)) →
  settled (ship s q batch rest).
Proof.
  intros R Hd Hb E Hrest. unfold ship.
  pose proof (rn_world _ _ _ _ _ R) as Hw. rewrite Hd in Hw.
  destruct (export (es_world (exporting s)) batch) as [x [[]|e]] eqn:Ex.
  { apply Hrest. by eapply shipped_batch. }
  unfold settled. cbn [outcome fail exporting es_acked]. exists taken, (ss_stream (source s)), normalized.
  split_and!; [apply R|by eapply running_delivered|]. exists (es_world (exporting s)). split; [done|].
  left. eexists batch, _, _, ps. split_and!; [done|apply R| |by rewrite Ex].
  rewrite (rn_events _ _ _ _ _ R), fmap_app, (rn_sent _ _ _ _ _ R), E.
  exists (q ++ (ns_pending (norm s)).*2). by rewrite <- !app_assoc.
Qed.

(** The export stage after a batch was accepted, with [q] left to receive. *)
Lemma running_shipped taken normalized ps sent s q batch x :
  running taken normalized ps sent s → shipped (es_acked (exporting s) ++ [batch]) x →
  es_batch (exporting s) ++ event_q s = batch ++ q → batch_ok batch → length q ≤ length (event_q s) →
  0 < export_batch_size options →
  running taken normalized ps sent (mkState (source s) (raw_q s) (norm s) q
    (mkExportStage x [] false (S (es_batches (exporting s))) (es_acked (exporting s) ++ [batch]) false) None).
Proof.
  intros R Hw E Hb Hq Hsize. split; cbn; try apply R; try done.
  - rewrite concat_app. cbn. rewrite app_nil_r, <- app_assoc, <- E. apply R.
  - pose proof (rn_event_cap _ _ _ _ _ R). lia.
  - rewrite length_app, (rn_batches _ _ _ _ _ R). simpl. lia.
  - apply Forall_app. split; [apply R|by constructor].
Qed.

Lemma close_export_settled taken normalized ps sent s st :
  running taken normalized ps sent (mkState (source s) (raw_q s) (norm s) [] st None) →
  es_batch st = [] → es_done st = false → ns_done (norm s) = true → settled (close_export s st).
Proof.
  intros R Hb Hd Hn. unfold close_export. pose proof (rn_world _ _ _ _ _ R) as Hw. cbn in Hw. rewrite Hd in Hw. destruct (export_flush (es_world st)) as [x [[]|e]] eqn:Ex.
  - unfold settled. cbn [outcome]. exists taken, normalized, ps, sent. split; cbn; try apply R; try done.
    + pose proof (rn_sent _ _ _ _ _ R) as H. cbn in H. by rewrite Hb in H.
    + pose proof (rn_batch _ _ _ _ _ R) as H. cbn in H. by rewrite Hb in H.
    + eauto.
  - unfold settled. cbn [outcome fail exporting es_acked]. exists taken, (ss_stream (source s)), normalized.
    split_and!; [apply R|eapply (running_delivered _ _ _ _ _ R)|]. exists (es_world st). split; [done|]. right. by rewrite Ex.
Qed.

Lemma export_step_settled taken normalized ps sent s s' :
  0 < export_batch_size options →
  running taken normalized ps sent s → export_step options s = Some s' → settled s'.
Proof.
  intros Hsize R. unfold export_step. destruct (es_done (exporting s)) eqn:Ed; [done|].
  pose proof (rn_batch _ _ _ _ _ R) as Hlen.
  destruct (event_q s) as [|event q] eqn:Eq.
  - destruct (ns_done (norm s)) eqn:En; [|done]. intros [= <-]. case_bool_decide as Hb.
    + eapply close_export_settled; [|done..]. rewrite <- Eq. split; apply R.
    + assert (batch_ok (es_batch (exporting s))) as Hok.
      { split; [|lia]. destruct (es_batch (exporting s)); [done|simpl; lia]. }
      eapply ship_settled; [exact R|done|done|by rewrite Eq|]. intros x Hx st.
      eapply close_export_settled; [|done..].
      eapply running_shipped; [exact R|done|by rewrite Eq|done|simpl; lia|done].
  - intros [= <-]. case_bool_decide as Hfull.
    + assert (batch_ok (es_batch (exporting s) ++ [event])) as Hok.
      { rewrite length_app in Hfull. unfold batch_ok. rewrite length_app. simpl in *. lia. }
      eapply ship_settled; [exact R|done|done|by rewrite Eq, <- app_assoc|]. intros x Hx st. unfold settled. cbn [outcome].
      exists taken, normalized, ps, sent.
      eapply running_shipped; [exact R|done|by rewrite Eq, <- app_assoc|done|rewrite Eq; simpl; lia|done].
    + unfold settled. cbn [outcome]. exists taken, normalized, ps, sent.
      pose proof (rn_world _ _ _ _ _ R) as Hw. rewrite Ed in Hw.
      split; cbn; try apply R; try done.
      * rewrite <- app_assoc. cbn. rewrite <- Eq. apply R.
      * pose proof (rn_event_cap _ _ _ _ _ R) as Hc. rewrite Eq in Hc. simpl in Hc. lia.
      * lia.
      * rewrite (rn_armed _ _ _ _ _ R). destruct (es_batch (exporting s)); simpl.
        -- apply bool_decide_ext. naive_solver.
        -- apply bool_decide_ext. naive_solver.
Qed.

Lemma age_step_settled taken normalized ps sent s s' :
  0 < export_batch_size options →
  running taken normalized ps sent s → age_step s = Some s' → settled s'.
Proof.
  intros Hsize R. unfold age_step. pose proof (rn_armed _ _ _ _ _ R) as Ha.
  destruct (es_done (exporting s)) eqn:Ed; [done|]. destruct (es_armed (exporting s)); [|done].
  symmetry in Ha. apply bool_decide_eq_true in Ha as [Hne Hi]. cbn [orb negb].
  destruct (event_q s) as [|event q] eqn:Eq; [|done]. destruct (ns_done (norm s)) eqn:En; [done|].
  rewrite bool_decide_false by done. intros [= <-].
  assert (batch_ok (es_batch (exporting s))) as Hok.
  { pose proof (rn_batch _ _ _ _ _ R). split; [|lia]. destruct (es_batch (exporting s)); [done|simpl; lia]. }
  eapply ship_settled; [exact R|done|done|by rewrite Eq|]. intros x Hx st.
  unfold settled. cbn [outcome]. exists taken, normalized, ps, sent.
  eapply running_shipped; [exact R|done|by rewrite Eq|done|simpl; lia|done].
Qed.

Lemma finish_step_settled taken normalized ps sent s s' :
  running taken normalized ps sent s → finish_step raw_store s = Some s' → settled s'.
Proof.
  intros R. unfold finish_step. destruct (ss_done (source s)) eqn:Es; [|done].
  destruct (ns_done (norm s)) eqn:En; [|done]. destruct (es_done (exporting s)) eqn:Ee; [|done]. cbn [andb].
  assert (∀ r : result RawStoreError unit, (∀ e, r = Err e → ∃ st n, raw_store = Some st ∧ (store_flush st n).2 = Err e) → ∀ n,
    settled (mkState (source s) (raw_q s)
      (mkNormalizeStage n (ns_pending (norm s)) (ns_events (norm s)) (ns_diagnostics (norm s))
         (ns_raw_observations (norm s)) (ns_sources (norm s)) (ns_counter (norm s)) true) (event_q s) (exporting s)
      (Some (match r with
             | Err e => Err (PRawStore e)
             | Ok _ => Ok (mkPipelineReport (ss_count (source s)) (ns_events (norm s)) (ns_diagnostics (norm s))
                             (ns_raw_observations (norm s)) (es_batches (exporting s)) (ns_sources (norm s)))
             end)))) as Hend.
  { intros r Hr n. destruct (rn_norm_done _ _ _ _ _ R En) as (_ & Hq & Hp).
    destruct (rn_export_done _ _ _ _ _ R Ee) as (_ & Heq & Hbt).
    pose proof (rn_source_done _ _ _ _ _ R Es) as Hss. unfold settled. cbn [outcome exporting].
    destruct r as [[]|e].
    - pose proof (rn_world _ _ _ _ _ R) as Hw. rewrite Ee in Hw. split; [done|].
      exists taken, (ns_world (norm s)), (ns_counter (norm s)), ps.
      pose proof (rn_sent _ _ _ _ _ R) as Hsent. rewrite Heq, Hbt, !app_nil_r in Hsent.
      pose proof (rn_events _ _ _ _ _ R) as Hev. rewrite Hp, app_nil_r in Hev.
      pose proof (rn_totals _ _ _ _ _ R) as Ht. unfold totals in Ht. injection Ht as -> -> ->.
      split_and!; [by rewrite (rn_stream _ _ _ _ _ R), Hss, app_nil_r| |by rewrite Hev|apply R|].
      + rewrite (rn_taken _ _ _ _ _ R), Hq, app_nil_r. apply R.
      + rewrite (rn_count _ _ _ _ _ R), (rn_batches _ _ _ _ _ R), (rn_sources _ _ _ _ _ R), Hev. done.
    - exists taken, (ss_stream (source s)), normalized. split_and!; [apply R|by eapply running_delivered|].
      right. apply Hr. done. }
  destruct raw_store as [st|].
  - destruct (store_flush st (ns_world (norm s))) as [n r] eqn:Ef. intros [= <-]. apply Hend.
    intros e ->. exists st, (ns_world (norm s)). by rewrite Ef.
  - intros [= <-]. apply (Hend (Ok ())). done.
Qed.

Lemma step_settled l s s' :
  options_wf options → outcome s = None → settled s → do_step l s = Some s' → settled s'.
Proof.
  intros (_ & _ & Hsize & _) Ho Hs. unfold settled in Hs. rewrite Ho in Hs.
  destruct Hs as (taken & normalized & ps & sent & R). unfold step. rewrite Ho. destruct l.
  - by eapply source_step_settled.
  - by eapply normalize_step_settled.
  - by eapply export_step_settled.
  - by eapply age_step_settled.
  - by eapply finish_step_settled.
Qed.

Lemma initial_settled : options_wf options → settled (initial n0 x0 c0 stream0).
Proof.
  intros (? & ? & ? & _). unfold settled. cbn [outcome initial]. exists [], [], [], [].
  split; cbn; try done; (lia || constructor).
Qed.

(** Every reachable state is settled. *)
Lemma reachable_settled s :
  options_wf options → rtc (pipeline_step argv_json context router raw_store options) (initial n0 x0 c0 stream0) s →
  settled s.
Proof.
  intros Hwf. apply (rtc_ind_r (λ s, settled s)); [by apply initial_settled|].
  intros s1 s2 _ [l Hl] Hs. eapply step_settled; [done| |done|exact Hl].
  unfold step in Hl. by destruct (outcome s1).
Qed.

(** ** The exporter's world, failed runs included *)

(** [acked] followed by [b] is among the events of the stream's first signals. *)
Definition exported_part (acked : list (list Event)) (b : list Event) : Prop :=
  ∃ normalized n c ps, (Ok <$> normalized) `prefix_of` stream0 ∧ in_turn n0 c0 normalized = (n, c, Ok ps) ∧
    (concat acked ++ b) `prefix_of` (all_events ps).*2.

(** After the accepted batches, the exporter has seen nothing more, its flush,
    or one batch of the following events. *)
Definition exporter_world s : Prop :=
  ∃ x b, shipped (es_acked (exporting s)) x ∧ exported_part (es_acked (exporting s)) b ∧
    (b = [] ∧ (es_world (exporting s) = x ∨ es_world (exporting s) = (export_flush x).1) ∨
     es_world (exporting s) = (export x b).1).

Lemma running_part taken normalized ps sent s b q :
  running taken normalized ps sent s → es_batch (exporting s) ++ event_q s = b ++ q →
  exported_part (es_acked (exporting s)) b.
Proof.
  intros R E. exists normalized, (ns_world (norm s)), (ns_counter (norm s)), ps. split_and!; [|apply R|].
  - rewrite (rn_stream _ _ _ _ _ R), (rn_taken _ _ _ _ _ R), fmap_app, <- app_assoc. by eexists.
  - rewrite (rn_events _ _ _ _ _ R), fmap_app, (rn_sent _ _ _ _ _ R), E.
    exists (q ++ (ns_pending (norm s)).*2). by rewrite <- !app_assoc.
Qed.

Lemma running_world taken normalized ps sent s : running taken normalized ps sent s → exporter_world s.
Proof.
  intros R. pose proof (rn_world _ _ _ _ _ R) as Hw.
  pose proof (running_part _ _ _ _ _ [] _ R eq_refl) as Hp. destruct (es_done (exporting s)).
  - destruct Hw as (x & Hx & Hf). exists x, []. split_and!; [done..|]. left. split; [done|]. right. by rewrite Hf.
  - exists (es_world (exporting s)), []. auto 8.
Qed.

Lemma close_export_world s st :
  shipped (es_acked st) (es_world st) → exported_part (es_acked st) [] → exporter_world (close_export s st).
Proof.
  intros Hx Hp. unfold close_export. destruct (export_flush (es_world st)) as [x [[]|e]] eqn:Ex;
    exists (es_world st), []; (split_and!; [done..|]; left; split; [done|]; right; by rewrite Ex).
Qed.

Lemma ship_world taken normalized ps sent s q batch rest :
  running taken normalized ps sent s → es_done (exporting s) = false →
  es_batch (exporting s) ++ event_q s = batch ++ q →
  (∀ x, shipped (es_acked (exporting s) ++ [batch]) x → exported_part (es_acked (exporting s) ++ [batch]) [] →
     exporter_world (rest (mkExportStage x [] false (S (es_batches (exporting s))) (es_acked (exporting s) ++ [batch]) false))) →
  exporter_world (ship s q batch rest).
Proof.
  intros R Hd E Hrest. unfold ship. pose proof (rn_world _ _ _ _ _ R) as Hw. rewrite Hd in Hw.
  pose proof (running_part _ _ _ _ _ _ _ R E) as Hp.
  destruct (export (es_world (exporting s)) batch) as [x [[]|e]] eqn:Ex.
  - apply Hrest; [by eapply shipped_batch|]. destruct Hp as (raws & n & c & ps' & H1 & H2 & H3).
    exists raws, n, c, ps'. split_and!; [done..|]. by rewrite concat_app; cbn; rewrite !app_nil_r.
  - exists (es_world (exporting s)), batch. split_and!; [done..|]. right. by rewrite Ex.
Qed.

Lemma step_world l s s' : settled s → do_step l s = Some s' → exporter_world s'.
Proof.
  unfold settled, step. destruct (outcome s); [done|]. intros (taken & normalized & ps & sent & R).
  pose proof (running_world _ _ _ _ _ R) as Hw.
  destruct l.
  - unfold source_step. repeat case_match; intros; simplify_eq; exact Hw.
  - unfold normalize_step. repeat case_match; intros; simplify_eq; exact Hw.
  - unfold export_step. destruct (es_done (exporting s)) eqn:Ed; [done|]. destruct (event_q s) as [|event q] eqn:Eq.
    + destruct (ns_done (norm s)) eqn:En; [|done]. intros [= <-]. pose proof (rn_world _ _ _ _ _ R) as Hx.
      rewrite Ed in Hx. case_bool_decide.
      * apply close_export_world; [done|]. by eapply running_part.
      * eapply ship_world; [exact R|done|by rewrite Eq|]. intros x Hx' Hp. by apply close_export_world.
    + intros [= <-]. case_bool_decide; [|exact Hw].
      eapply ship_world; [exact R|done|by rewrite Eq, <- app_assoc|]. intros x Hx Hp. exists x, []. cbn. auto 8.
  - unfold age_step. destruct (es_done (exporting s)) eqn:Ed; [done|]. destruct (negb (es_armed (exporting s))); [done|].
    cbn [orb]. destruct (event_q s) as [|event q] eqn:Eq; [|done]. destruct (ns_done (norm s)); [done|].
    intros [= <-]. case_bool_decide as Hb.
    + exact Hw.
    + eapply ship_world; [exact R|done|by rewrite Eq|]. intros x Hx Hp. exists x, []. cbn. auto 8.
  - unfold finish_step. repeat case_match; intros; simplify_eq; exact Hw.
Qed.

Lemma reachable_world s :
  options_wf options → rtc (pipeline_step argv_json context router raw_store options) (initial n0 x0 c0 stream0) s →
  exporter_world s.
Proof.
  intros Hwf H. apply rtc_inv_r in H as [<-|(s1 & H & l & Hl)].
  - exists x0, []. split; [constructor|]. split; [|auto 8]. exists [], n0, c0, []. split; [by eexists|]. done.
  - eapply step_world; [|exact Hl]. by apply reachable_settled.
Qed.

(** ** Progress and termination *)

Definition b2n (b : bool) : nat := if b then 1 else 0.

(** The moves left outside the event path, and the weight of the events in it. *)
Definition moves_left s : nat :=
  2 * length (ss_stream (source s)) + length (raw_q s) + b2n (negb (ss_done (source s)))
  + b2n (negb (ns_done (norm s))) + b2n (negb (es_done (exporting s)))
  + match outcome s with None => 1 | Some _ => 0 end.
Definition event_weight s : nat :=
  3 * length (ns_pending (norm s)) + 2 * length (event_q s) + length (es_batch (exporting s)).

Definition smaller (s' s : pstate) : Prop :=
  moves_left s' < moves_left s ∨ (moves_left s' = moves_left s ∧ event_weight s' < event_weight s).

Lemma smaller_wf : well_founded smaller.
Proof.
  intros s. remember (moves_left s) as m eqn:Hm. revert s Hm. induction m as [m IHm] using lt_wf_ind.
  intros s. remember (event_weight s) as w eqn:Hw. revert s Hw. induction w as [w IHw] using lt_wf_ind.
  intros s Hw Hm. constructor. intros s' [H|[H1 H2]]; subst; [by eapply IHm|].
  eapply IHw; [exact H2|done|by rewrite H1].
Qed.

Lemma step_smaller l s s' : settled s → do_step l s = Some s' → smaller s' s.
Proof.
  intros Hs. unfold step. destruct (outcome s) eqn:Ho; [done|]. unfold settled in Hs. rewrite Ho in Hs.
  destruct Hs as (taken & normalized & ps & sent & R). unfold smaller, moves_left, event_weight. rewrite Ho.
  destruct l.
  - unfold source_step. destruct (ss_done (source s)) eqn:Ed; [done|].
    destruct (ss_stream (source s)) as [|[raw|e] stream] eqn:Es.
    + intros [= <-]. cbn. lia.
    + destruct (ns_done (norm s)) eqn:En; [intros [= <-]; cbn; rewrite Es, Ed, En; cbn; lia|].
      case_bool_decide; [|done]. intros [= <-]. cbn. rewrite En, length_app. cbn. lia.
    + intros [= <-]. cbn. rewrite Es, Ed. cbn. lia.
  - unfold normalize_step. destruct (ns_done (norm s)) eqn:En; [done|].
    destruct (ns_pending (norm s)) as [|p pending] eqn:Ep.
    + destruct (raw_q s) as [|raw q] eqn:Eq.
      * destruct (ss_done (source s)) eqn:Ed; [|done]. intros [= <-]. cbn. rewrite Ed. cbn. lia.
      * destruct (process_one _ _ raw) as [[n c] [p|e]]; intros [= <-]; cbn; lia.
    + case_bool_decide; [|done]. intros [= <-]. cbn. rewrite length_app. cbn. lia.
  - unfold export_step. destruct (es_done (exporting s)) eqn:Ed; [done|].
    destruct (event_q s) as [|event q] eqn:Eq.
    + destruct (ns_done (norm s)) eqn:En; [|done]. intros [= <-]. unfold ship, close_export.
      case_bool_decide; repeat case_match; simplify_eq/=; cbn; rewrite ?En; cbn; lia.
    + intros [= <-]. unfold ship. case_bool_decide; [|cbn; rewrite length_app; cbn; lia].
      repeat case_match; simplify_eq/=; cbn; lia.
  - unfold age_step. destruct (es_done (exporting s)) eqn:Ed; [done|].
    pose proof (rn_armed _ _ _ _ _ R) as Ha.
    destruct (es_armed (exporting s)); [|done]. symmetry in Ha. apply bool_decide_eq_true in Ha as [Hne _].
    cbn [orb negb]. destruct (event_q s) as [|event q] eqn:Eq; [|done]. destruct (ns_done (norm s)) eqn:En; [done|].
    rewrite bool_decide_false by done. intros [= <-]. unfold ship.
    destruct (es_batch (exporting s)); [done|]. repeat case_match; simplify_eq/=; cbn; rewrite ?En; cbn; lia.
  - unfold finish_step. destruct (ss_done (source s)) eqn:Ed; [|done]. destruct (ns_done (norm s)) eqn:En; [|done].
    destruct (es_done (exporting s)) eqn:Ee; [|done]. cbn [andb].
    repeat case_match; intros [= <-]; simplify_eq/=; cbn; rewrite ?Ed, ?En, ?Ee; cbn; lia.
Qed.

Lemma step_progress s :
  options_wf options → settled s → outcome s = None → ∃ l s', do_step l s = Some s'.
Proof.
  intros (Hraw & Hev & _ & _) Hs Ho. unfold settled in Hs. rewrite Ho in Hs.
  destruct Hs as (taken & normalized & ps & sent & R).
  destruct (es_done (exporting s)) eqn:Ee.
  { destruct (rn_export_done _ _ _ _ _ R Ee) as (Hn & _). destruct (rn_norm_done _ _ _ _ _ R Hn) as (Hsd & _).
    exists Join. unfold step, finish_step. rewrite Ho, Hsd, Hn, Ee. cbn [andb].
    destruct raw_store as [st|]; [destruct (store_flush st _)|]; eauto. }
  destruct (event_q s) as [|event q] eqn:Eq.
  2:{ exists ExportMoves. unfold step, export_step. rewrite Ho, Ee, Eq. eauto. }
  destruct (ns_done (norm s)) eqn:En.
  { exists ExportMoves. unfold step, export_step. rewrite Ho, Ee, Eq, En. eauto. }
  destruct (ns_pending (norm s)) as [|p pending] eqn:Ep.
  2:{ exists NormalizeMoves. unfold step, normalize_step. rewrite Ho, En, Ep, Eq. simpl.
      rewrite bool_decide_true by done. eauto. }
  destruct (raw_q s) as [|raw rq] eqn:Erq.
  2:{ exists NormalizeMoves. unfold step, normalize_step. rewrite Ho, En, Ep, Erq.
      destruct (process_one _ _ raw) as [[n c] [p|e]]; eauto. }
  destruct (ss_done (source s)) eqn:Es.
  { exists NormalizeMoves. unfold step, normalize_step. rewrite Ho, En, Ep, Erq, Es. eauto. }
  exists SourceMoves. unfold step, source_step. rewrite Ho, Es, En, Erq.
  destruct (ss_stream (source s)) as [|[r|e] stream]; eauto. simpl. rewrite bool_decide_true by done. eauto.
Qed.
End invariant.

(** ** What an exported event carries *)

Section stamped.
Context {U : UlidLib} (argv_json : list str → str) {N X : Type} {EX : Exporter X}.
Context (context : NormalizationContext) (router : list (Normalizer N)) (raw_store : option (RawStore N)).
Context (options : PipelineOptions).

Definition metadata_stamps (observation : option ObservationContext) (d : NormalizerDescriptor)
    (retention : RawRetentionPolicy) (source kind : str) (raw_observation : option RawObservationRef) : list stamp :=
  signal_stamps argv_json context observation ++
  [(NORMALIZER_NAME, AString (descriptor_name d)); (NORMALIZER_VERSION, AString (descriptor_version d));
   (NORMALIZER_OUTPUT_SCHEMA_VERSION, AString (output_schema_version d));
   (RAW_SOURCE, AString source); (RAW_KIND, AString kind); (RAW_RETENTION, AString (retention_as_str retention))] ++
  when raw_observation (λ r, (RAW_OBSERVATION_ID, AString (observation_id r))).

Lemma stamp_metadata_exact e observation d retention source kind robs :
  let e' := stamp_normalization_metadata argv_json context e observation d retention source kind robs in
  attributes e' = stamps_map (metadata_stamps observation d retention source kind robs)
                  ∪ (nx_attributes context ∪ attributes e) ∧
  spine e' = spine e ∧ payload_ref e' = payload_ref e.
Proof.
  cbv zeta.
  assert (stamp_normalization_metadata argv_json context e observation d retention source kind robs =
    apply_stamps (map_fold (λ k v e, with_attribute e k v) e (nx_attributes context))
      (metadata_stamps observation d retention source kind robs)) as ->.
  { unfold stamp_normalization_metadata, metadata_stamps. rewrite !apply_stamps_app, stamp_signal_stamps.
    by destruct robs. }
  destruct (stamp_context_attributes (nx_attributes context) e) as (Ha & Hs & Hp).
  set (e1 := map_fold _ _ _) in *.
  destruct (spine_apply_stamps e1 (metadata_stamps observation d retention source kind robs)) as [Hs' Hp'].
  rewrite attributes_apply_stamps, Ha, Hs', Hp', Hs, Hp. done.
Qed.

Lemma run_selections_Ok (n : N) c raw (sels : list (SelectedNormalizer N)) (n' : N) c' l :
  run_selections context n c raw sels = (n', c', Ok l) →
  l.*1 = (λ s, descriptor (selected s)) <$> sels.
Proof.
  revert n c l. induction sels as [|s sels IH]; intros n c l; cbn [run_selections]; [by intros [= _ _ <-]|].
  destruct (normalize _ _ _ _) as [n1 [o|x]]; [|done].
  destruct (run_selections context n1 _ raw sels) as [[n2 c2] [k|x]] eqn:E; [|done]. intros [= <- <- <-].
  rewrite !fmap_cons. f_equal. apply (IH _ _ _ E).
Qed.

Lemma process_raw_Ok n c raw n' c' p :
  process_raw argv_json context router raw_store options n c raw = (n', c', Ok p) →
  pd_count p = length (pd_events p) ∧
  ∀ b e, (b, e) ∈ pd_events p → b = source_bucket (raw_source raw) ∧
    ∃ (normalizer : Normalizer N) e0 retention robs, normalizer ∈ router ∧ is_supported (supports normalizer raw) = true ∧
      (retention = Preserve ↔ is_Some robs) ∧
      attributes e = stamps_map (metadata_stamps (observation_context raw) (descriptor normalizer) retention
                       (raw_source raw) (raw_kind raw) robs) ∪ (nx_attributes context ∪ attributes e0) ∧
      spine e = spine e0 ∧ payload_ref e = payload_ref e0.
Proof.
  unfold process_raw. destruct (select_all router raw) as [|sel sels] eqn:Esel; [done|].
  destruct (run_selections _ _ _ _ _) as [[n1 c1] [l|x]] eqn:El; [|done].
  apply run_selections_Ok in El. destruct (requested_retention l) as [req who].
  set (retention := default req (raw_retention_override options)).
  destruct (if bool_decide (retention = Preserve) then _ else _) as [n2 [robs|x]] eqn:Eobs; [|done].
  intros [= _ _ <-]. cbn [pd_count pd_events].
  assert (retention = Preserve ↔ is_Some robs) as Hrobs.
  { revert Eobs. case_bool_decide as Hr; [|intros [= _ <-]; split; [done|by intros [? ?]]].
    destruct raw_store as [st|]; [|done]. destruct (store st _ _ _) as [n3 [o|x]]; [|done].
    intros [= _ <-]. split; [eauto|done]. }
  split.
  - clear El Esel. induction l as [|[d o] l IH]; [done|]. cbn. rewrite length_app, length_fmap. cbn in IH. by rewrite IH.
  - intros b e He. apply list_elem_of_bind in He as ([d o] & He & Hl).
    apply list_elem_of_fmap in He as (e0 & [= -> ->] & _). split; [done|].
    assert (d ∈ l.*1) as Hd by (apply list_elem_of_fmap; by exists (d, o)).
    rewrite El, <- Esel, select_all_spec in Hd. apply list_elem_of_fmap in Hd as (s & -> & Hs).
    apply list_elem_of_fmap in Hs as (nz & -> & Hnz). apply list_elem_of_filter in Hnz as [Hsup Hnz].
    exists nz, e0, retention, robs. destruct (stamp_metadata_exact e0 (observation_context raw) (descriptor nz)
      retention (raw_source raw) (raw_kind raw) robs) as (Ha & Hs' & Hp). done.
Qed.

Lemma sequential_Ok n c raws n' c' ps :
  sequential argv_json context router raw_store options n c raws = (n', c', Ok ps) →
  Forall2 (λ raw p, ∃ n c n' c', process_raw argv_json context router raw_store options n c raw = (n', c', Ok p)) raws ps.
Proof.
  revert n c ps. induction raws as [|raw raws IH]; intros n c ps; cbn [sequential]; [intros [= _ _ <-]; constructor|].
  destruct (process_raw _ _ _ _ _ n c raw) as [[n1 c1] [p|e]] eqn:Ep; [|done].
  destruct (sequential _ _ _ _ _ n1 c1 raws) as [[n2 c2] [k|e]] eqn:E; [|done]. intros [= <- <- <-].
  constructor; [by eexists _, _, _, _|by eapply IH].
Qed.

Lemma sequential_count n c raws n' c' ps :
  sequential argv_json context router raw_store options n c raws = (n', c', Ok ps) →
  sum_list (pd_count <$> ps) = length (all_events ps).
Proof.
  intros H. apply sequential_Ok in H. induction H as [|raw p raws ps (? & ? & ? & ? & Hp) _ IH]; [done|].
  apply process_raw_Ok in Hp as [Hp _]. cbn. rewrite length_app, Hp. cbn in IH. by rewrite IH.
Qed.
End stamped.

(** ** The pipeline over the spool

    The run's exporter is the spool; what its sink acknowledges is logged.  An
    export or a flush of the spool returns ([spool_export_inv],
    [spool_flush_inv]), so the two other outcomes of awaiting it stand for
    nothing. *)

Section over_spool.
Context {U : UlidLib} {W : Type} {SW : SinkWorld W} {SL : SerializerLaws W} (policy : SpoolPolicy).

Definition awaited (r : Await (result ExportError unit)) : result ExportError unit :=
  match r with Ready r => r | Dropped | Spinning => Err (Other (bs "event-spool") []) end.

#[export] Instance spool_exporter : Exporter ((W * SinkLog) * SpoolState) := {
  export x es := let '(w, s, r) := spool_export policy x.1 x.2 es in (w, s, awaited r);
  export_flush x := let '(w, s, r) := spool_flush policy x.1 x.2 in (w, s, awaited r);
}.

Definition events_fit (es : list Event) : Prop :=
  (Z.of_nat (length es) ≤ u64_max)%Z ∧ batch_fits policy es.

Lemma batch_fits_infix pre b post : batch_fits policy (pre ++ b ++ post) → batch_fits policy b.
Proof.
  unfold batch_fits. rewrite !fmap_app, !bytes_of_app.
  pose proof (bytes_of_nonneg _ (sized_park pre)). pose proof (bytes_of_nonneg _ (sized_park post)). lia.
Qed.

Lemma events_fit_split a b k :
  events_fit (a ++ b ++ k) → (Z.of_nat (length (a ++ b)) ≤ u64_max)%Z ∧ events_fit a ∧ batch_fits policy b.
Proof.
  intros [Hlen Hb]. rewrite !length_app in Hlen. rewrite length_app. split; [lia|]. split; [split; [lia|]|].
  - by apply (batch_fits_infix [] a (b ++ k)).
  - by apply (batch_fits_infix a b k).
Qed.

Context (Hmax : (0 ≤ max_bytes policy)%Z) (Hdrain : 0 < drain_batch_size policy).

Lemma spool_step_open acc w l s es w' l' s' r :
  (Z.of_nat (length (acc ++ es)) ≤ u64_max)%Z → batch_fits policy es → state_inv policy acc None l s →
  spool_export policy (w, l) s es = ((w', l'), s', r) →
  state_inv policy (acc ++ es) None l' s' ∧ r = Ready (Ok ()).
Proof.
  intros Hlen Hfit Hinv E. pose proof (spool_export_inv policy Hmax Hdrain acc None _ _ _ _ _ _ _ _ Hlen Hfit Hinv E) as H.
  destruct Hinv as (_ & _ & Hseen & _). by rewrite Hseen in H.
Qed.

Lemma shipped_spool w0 acked x :
  events_fit (concat acked) → shipped ((w0, mkLog [] []), SpoolState_default) acked x →
  state_inv policy (concat acked) None x.1.2 x.2.
Proof.
  intros Hfit H. induction H as [|acked x b x' Hs IH Hx].
  - split_and!; [|split; simpl; lia|done]. unfold data_inv. simpl. done.
  - rewrite concat_app in *. cbn in *. rewrite app_nil_r in *. destruct Hfit as [Hlen Hb].
    assert (events_fit (concat acked)) as Hfit0.
    { split; [rewrite length_app in Hlen; lia|]. apply (batch_fits_infix [] _ b). done. }
    specialize (IH Hfit0). destruct x as [[w l] s]. cbn in *.
    destruct (spool_export policy (w, l) s b) as [[[w1 l1] s1] r1] eqn:E.
    assert (batch_fits policy b) as Hb'.
    { apply (batch_fits_infix (concat acked) b []). by rewrite app_nil_r. }
    destruct (spool_step_open _ _ _ _ _ _ _ _ _ Hlen Hb' IH E) as [Hinv _].
    injection Hx as <- _. done.
Qed.
Lemma spool_flush_sink (w : W * SinkLog) s w' s' e :
  spool_flush policy w s = (w', s', Ready (Err e)) → ∃ w1 : W * SinkLog, (sink_flush w1).2 = Err e.
Proof.
  unfold spool_flush. destruct (if _ && _ then _ else _) as [[w1 s1] [r| |]]; try done.
  destruct (sink_flush w1) as [w2 r2] eqn:E. intros [= _ _ ->]. exists w1. by rewrite E.
Qed.

(** The spool refuses no batch; only the sink's flush can fail. *)
Lemma spool_export_refused w0 acked b k x e :
  events_fit (concat acked ++ b ++ k) → shipped ((w0, mkLog [] []), SpoolState_default) acked x →
  (export x b).2 ≠ Err e.
Proof.
  intros (Hlen & Ha & Hb)%events_fit_split Hx. apply shipped_spool in Hx; [|done]. destruct x as [[w l] sp]. cbn in *.
  destruct (spool_export policy (w, l) sp b) as [[[w1 l1] sp1] r1] eqn:E.
  eapply spool_step_open in E as [_ ->]; done.
Qed.

Lemma spool_flush_refused w0 acked x e :
  events_fit (concat acked) → shipped ((w0, mkLog [] []), SpoolState_default) acked x →
  (export_flush x).2 = Err e → ∃ w1 : W * SinkLog, (sink_flush w1).2 = Err e.
Proof.
  intros Hfit Hx He. apply shipped_spool in Hx; [|done]. destruct x as [[w l] sp]. cbn in *.
  destruct (spool_flush policy (w, l) sp) as [[[w1 l1] sp1] r1] eqn:E. cbn in He.
  pose proof E as E'. apply (spool_flush_inv policy Hdrain (concat acked) None) in E' as [_ [r ->]]; [|apply Hfit|done].
  cbn in He. subst r. by eapply spool_flush_sink.
Qed.

(** The accounts after the last flush. *)
Lemma spool_completed w0 acked x world r :
  events_fit (concat acked) → shipped ((w0, mkLog [] []), SpoolState_default) acked x →
  export_flush x = (world, r) → state_inv policy (concat acked) None world.1.2 world.2.
Proof.
  intros Hfit Hx He. apply shipped_spool in Hx; [|done]. destruct x as [[w l] sp]. cbn in *.
  destruct (spool_flush policy (w, l) sp) as [[[w1 l1] sp1] r1] eqn:E.
  apply (spool_flush_inv policy Hdrain (concat acked) None) in E as [Hinv _]; [|apply Hfit|done].
  by injection He as <- _.
Qed.

Lemma clean_all_acked acc l sp :
  data_inv acc l sp → is_clean (report sp) = true → Spool.acked l = acc.
Proof.
  intros (Hsub & Hdel & _ & _ & Hsum & _) Hclean. unfold is_clean in Hclean. simpl in Hclean. breflect.
  assert (queue sp = []) as Hq by (apply nil_length_inv, Nat.eqb_eq; done).
  rewrite Hq in *. cbn in Hsub, Hsum. rewrite app_nil_r in Hsub. apply sublist_same_length; [done|]. lia.
Qed.
End over_spool.

(** A schedule is a run. *)
Lemma run_schedule_rtc {U : UlidLib} argv_json {N X : Type} {EX : Exporter X} context (router : list (Normalizer N))
    raw_store options (s : @state U N X) ls :
  rtc (pipeline_step argv_json context router raw_store options) s
    (run_schedule argv_json context router raw_store options s ls).
Proof.
  revert s. induction ls as [|l ls IH]; intros s; cbn [run_schedule]; [done|].
  destruct (step _ _ _ _ _ l s) as [s'|] eqn:E; cbn [default]; [|apply IH].
  eapply rtc_l; [by exists l|apply IH].
Qed.

(** ** Properties *)

(** C10: the concurrent pipeline refines normalizing one signal after the
    other.  Under every schedule of its stages and every firing of the age
    trigger, what the exporter has accepted is a prefix of the events of the
    signals normalized so far, in order, in batches between one event and the
    batch size, and the queues stay within their capacities.  A run that
    returns a report has delivered exactly the events of the whole stream and
    reports their counts.  A run that returns an error has one from the
    stream, the normalization of the next signal, the exporter or the raw
    store; the channels between the stages never close early. *)
Theorem pipeline_refines_sequential {U : UlidLib} (argv_json : list str → str) {N X : Type} {EX : Exporter X}
    (context : NormalizationContext) (router : list (Normalizer N)) (raw_store : option (RawStore N))
    (options : PipelineOptions) (n0 : N) (c0 : Z) (x0 : X) (stream : list (result SourceError RawSignal)) s :
  options_wf options →
  rtc (pipeline_step argv_json context router raw_store options) (initial n0 x0 c0 stream) s →
  match outcome s with
  | Some (Ok rep) =>
      completed argv_json context router raw_store options n0 c0 x0 stream rep (es_acked (exporting s))
        (es_world (exporting s))
  | Some (Err e) =>
      failed_because argv_json context router raw_store options n0 c0 x0 stream e (es_acked (exporting s))
  | None =>
      length (raw_q s) ≤ raw_queue_capacity options ∧ length (event_q s) ≤ event_queue_capacity options ∧
      length (es_batch (exporting s)) < export_batch_size options ∧
      ∃ taken normalized, stream = (Ok <$> taken) ++ ss_stream (source s) ∧
        delivered_prefix argv_json context router raw_store options n0 c0 taken normalized (es_acked (exporting s))
  end.
Proof.
  intros Hwf Hs.
  pose proof (reachable_settled argv_json context router raw_store options n0 c0 x0 stream s Hwf Hs) as H.
  unfold settled in H. destruct (outcome s) as [[rep|e]|]; [done..|].
  destruct H as (taken & normalized & ps & sent & R). split_and!; [apply R..|].
  exists taken, normalized. split; [apply R|by eapply running_delivered].
Qed.

(** C13: the pipeline always answers.  No run is infinite, and a run can stop
    only with its outcome: no stage waits forever on a full or empty queue. *)
Theorem pipeline_always_answers {U : UlidLib} (argv_json : list str → str) {N X : Type} {EX : Exporter X}
    (context : NormalizationContext) (router : list (Normalizer N)) (raw_store : option (RawStore N))
    (options : PipelineOptions) (n0 : N) (c0 : Z) (x0 : X) (stream : list (result SourceError RawSignal)) :
  options_wf options →
  let R := pipeline_step argv_json context router raw_store options in
  sn R (initial n0 x0 c0 stream) ∧
  ∀ s, rtc R (initial n0 x0 c0 stream) s → nf R s ↔ is_Some (outcome s).
Proof.
  intros Hwf R.
  assert (∀ s, rtc R (initial n0 x0 c0 stream) s →
    settled argv_json context router raw_store options n0 c0 x0 stream s) as Hset.
  { intros s. by apply reachable_settled. }
  split.
  - assert (∀ s, rtc R (initial n0 x0 c0 stream) s → sn R s) as H; [|apply H; done].
    intros s. induction (smaller_wf s) as [s _ IH]. intros Hs. constructor. intros s' Hstep.
    pose proof Hstep as [l Hl]. apply IH; [|by eapply rtc_r].
    eapply step_smaller; [apply Hset, Hs|exact Hl].
  - intros s Hs. split.
    + intros Hnf. destruct (outcome s) eqn:Ho; [eauto|]. destruct Hnf.
      destruct (step_progress argv_json context router raw_store options n0 c0 x0 stream s Hwf (Hset s Hs) Ho)
        as (l & s' & Hl). exists s', l. exact Hl.
    + intros [o Ho] [s' [l Hl]]. unfold step in Hl. by rewrite Ho in Hl.
Qed.


(** The last stamp of a key decides. *)
Lemma stamps_map_lookup k v l1 l2 :
  Forall (λ s : stamp, key s.1 ≠ key k) l2 → stamps_map (l1 ++ (k, v) :: l2) !! key k = Some v.
Proof.
  intros H. unfold stamps_map. rewrite reverse_app, reverse_cons, <- app_assoc, fmap_app, list_to_map_app.
  apply lookup_union_Some_raw. right. split.
  - apply not_elem_of_list_to_map_1. intros Hin. apply list_elem_of_fmap in Hin as ([k' v'] & Hk & Hin).
    apply list_elem_of_fmap in Hin as (s & [= -> ->] & Hin). rewrite elem_of_reverse in Hin.
    rewrite Forall_forall in H. apply (H s Hin). by symmetry.
  - cbn [app fmap list_fmap]. apply lookup_insert_eq.
Qed.

Lemma Forall_when {A} (P : stamp → Prop) (v : option A) f : (∀ a, P (f a)) → Forall P (when v f).
Proof. intros H. destruct v; repeat constructor; apply H. Qed.

Ltac other_keys :=
  repeat (apply Forall_app; split);
  repeat first [apply Forall_when; intros; cbn; discriminate | constructor; [cbn; discriminate|] | by constructor].

Section provenance_lookup.
Context {U : UlidLib} (argv_json : list str → str) (context : NormalizationContext).
Abbreviation stamps := (metadata_stamps argv_json context).

Lemma metadata_raw_source obs d r source kind robs :
  stamps_map (stamps obs d r source kind robs) !! key RAW_SOURCE = Some (AString source).
Proof.
  unfold metadata_stamps. rewrite app_assoc.
  match goal with |- stamps_map ((?a ++ [?s1; ?s2; ?s3; ?s4; ?s5; ?s6]) ++ ?t) !! _ = _ =>
    replace ((a ++ [s1; s2; s3; s4; s5; s6]) ++ t) with ((a ++ [s1; s2; s3]) ++ s4 :: ([s5; s6] ++ t))
      by (rewrite <- !app_assoc; reflexivity) end.
  apply stamps_map_lookup. other_keys.
Qed.

Lemma metadata_normalizer_name obs d r source kind robs :
  stamps_map (stamps obs d r source kind robs) !! key NORMALIZER_NAME = Some (AString (descriptor_name d)).
Proof. unfold metadata_stamps. cbn [app]. apply stamps_map_lookup. other_keys. Qed.

Lemma metadata_wrapper_name obs d r source kind robs :
  stamps_map (stamps obs d r source kind robs) !! key WRAPPER_NAME = Some (AString (wrapper_name (wrapper context))).
Proof.
  unfold metadata_stamps, signal_stamps. cbn [app]. apply (stamps_map_lookup _ _ []).
  constructor; [cbn; discriminate|]. repeat (apply Forall_app; split); [| |other_keys..].
  - destruct obs; cbn; [|constructor]. unfold observation_stamps. other_keys.
  - destruct (match _ with Some p => Some p | None => _ end); cbn; [|constructor]. unfold process_stamps. other_keys.
Qed.
End provenance_lookup.

(** Every event of a processed signal carries that signal's provenance.
    Its attributes are the pipeline's stamps over the run's attributes over
    those the normalizer gave, so that neither a normalizer nor the run can
    forge the source, the normalizer or the wrapper; its spine and payload
    are untouched; it comes from a normalizer of the router that supports the
    signal; and it has a stored observation exactly when the raw signal is
    preserved. *)
Theorem exported_events_stamped {U : UlidLib} (argv_json : list str → str) {N : Type}
    (context : NormalizationContext) (router : list (Normalizer N)) (raw_store : option (RawStore N))
    (options : PipelineOptions) (n : N) (c : Z) (raws : list RawSignal) n' c' ps :
  sequential argv_json context router raw_store options n c raws = (n', c', Ok ps) →
  Forall2 (λ raw p, ∀ b e, (b, e) ∈ pd_events p →
    b = source_bucket (raw_source raw) ∧
    ∃ normalizer e0 retention robs,
      normalizer ∈ router ∧ is_supported (supports normalizer raw) = true ∧ (retention = Preserve ↔ is_Some robs) ∧
      attributes e = stamps_map (metadata_stamps argv_json context (observation_context raw) (descriptor normalizer)
                       retention (raw_source raw) (raw_kind raw) robs) ∪ (nx_attributes context ∪ attributes e0) ∧
      spine e = spine e0 ∧ payload_ref e = payload_ref e0 ∧
      attributes e !! key RAW_SOURCE = Some (AString (raw_source raw)) ∧
      attributes e !! key NORMALIZER_NAME = Some (AString (descriptor_name (descriptor normalizer))) ∧
      attributes e !! key WRAPPER_NAME = Some (AString (wrapper_name (wrapper context)))) raws ps.
Proof.
  intros H. apply sequential_Ok in H. eapply Forall2_impl; [exact H|].
  intros raw p (? & ? & ? & ? & Hp) b e He. apply process_raw_Ok in Hp as [_ Hp].
  destruct (Hp b e He) as (-> & nz & e0 & retention & robs & Hin & Hsup & Hrobs & Ha & Hs & Hpl).
  split; [done|]. exists nz, e0, retention, robs. split_and!; try done; rewrite Ha; apply lookup_union_Some_l.
  - apply metadata_raw_source.
  - apply metadata_normalizer_name.
  - apply metadata_wrapper_name.
Qed.

(** C14: the pipeline over the spool.  Whatever the sink and the scheduler
    do, an export never fails the run: an export error can only be the sink's
    own answer to the final flush.  A run that returns a report leaves every
    event of every signal, as normalizing them in turn gives it, in exactly
    one of the spool's accounts, and the sink holds a subsequence of them in
    order; when the spool's report is clean it holds exactly all of them. *)
Theorem pipeline_over_spool {U : UlidLib} (argv_json : list str → str) {N W : Type} {SW : SinkWorld W}
    {SL : SerializerLaws W} (policy : SpoolPolicy) (context : NormalizationContext) (router : list (Normalizer N))
    (raw_store : option (RawStore N)) (options : PipelineOptions) (n0 : N) (c0 : Z) (w0 : W)
    (stream : list (result SourceError RawSignal)) (s : @state U N ((W * SinkLog) * SpoolState)) :
  options_wf options → (0 ≤ max_bytes policy)%Z → 0 < drain_batch_size policy →
  (∀ raws n c ps, (Ok <$> raws) `prefix_of` stream →
     sequential argv_json context router raw_store options n0 c0 raws = (n, c, Ok ps) →
     events_fit (W := W) policy (all_events ps).*2) →
  rtc (pipeline_step (EX := spool_exporter policy) argv_json context router raw_store options)
    (initial n0 ((w0, mkLog [] []), SpoolState_default) c0 stream) s →
  match outcome s with
  | Some (Err (PExport e)) => ∃ w : W * SinkLog, (sink_flush w).2 = Err e
  | Some (Ok rep) =>
      ∃ raws n c ps, stream = Ok <$> raws ∧
        sequential argv_json context router raw_store options n0 c0 raws = (n, c, Ok ps) ∧
        let log := (es_world (exporting s)).1.2 in
        let spool := (es_world (exporting s)).2 in
        rep_raw_signals rep = length raws ∧ rep_events rep = length (all_events ps) ∧
        sublist (acked log ++ (sp_event <$> queue spool)) (all_events ps).*2 ∧
        (delivered_events spool + dropped_events spool + rejected_events spool + Z.of_nat (length (queue spool))
         = Z.of_nat (rep_events rep))%Z ∧
        (is_clean (report spool) = true → acked log = (all_events ps).*2)
  | _ => True
  end.
Proof.
  intros Hwf Hmax Hdrain Hfit Hs.
  pose proof (reachable_settled (EX := spool_exporter policy) argv_json context router raw_store options n0 c0 _ stream s Hwf Hs) as H.
  unfold settled in H. destruct (outcome s) as [[rep|[e|e|e|e|? ? ?|?]]|]; try done.
  - destruct H as ((x & Hx & Hflush) & raws & n & c & ps & Hst & Hseq & Hacked & _ & ->).
    pose proof (sequential_count _ _ _ _ _ _ _ _ _ _ _ Hseq) as Hcount.
    assert (events_fit (W := W) policy (concat (es_acked (exporting s)))) as Hev
      by (rewrite Hacked; eapply Hfit; [by rewrite Hst|done]).
    destruct (spool_completed policy Hmax Hdrain _ _ _ _ _ Hev Hx Hflush) as [Hdata _]. rewrite Hacked in Hdata.
    pose proof Hdata as (Hsub & _ & _ & _ & Hsum & _). rewrite length_fmap in Hsum.
    exists raws, n, c, ps. cbn [rep_raw_signals rep_events]. rewrite Hcount. split_and!; try done.
    by apply (clean_all_acked policy).
  - destruct H as (taken & rest & normalized & Hst & [[k ->] (n & c & ps & Hseq & [post Hpost] & _)] & x & Hx & Hcase).
    rewrite fmap_app, <- app_assoc in Hst.
    assert (∀ n c ps, sequential argv_json context router raw_store options n0 c0 normalized = (n, c, Ok ps) →
      events_fit (W := W) policy (all_events ps).*2) as Hn by (intros n' c' ps'; apply Hfit; by eexists).
    destruct Hcase as [(b & n' & c' & ps' & _ & Hseq' & [k' Hk] & Hex)|Hex].
    + specialize (Hn _ _ _ Hseq'). rewrite Hk, <- app_assoc in Hn.
      by destruct (spool_export_refused policy Hmax Hdrain _ _ _ _ _ e Hn Hx).
    + specialize (Hn _ _ _ Hseq). rewrite Hpost in Hn.
      eapply (spool_flush_refused policy Hmax Hdrain); [|exact Hx|exact Hex].
      by apply (events_fit_split policy _ [] post) in Hn as (_ & Hn & _).
Qed.

(** *** Witnesses: one event per line, a memory exporter and the scripted sink *)

Module LineRun.
#[local] Existing Instances crockford_ulid Scripted.fake_sink Scripted.fake_serializer.

(** A normalizer that numbers its events. *)
Definition lines : Normalizer nat := mkNormalizer (mkDescriptor (bs "lines") (bs "1") (bs "1"))
  (λ raw, if bool_decide (raw_kind raw = bs "line") then Exact else NotSupported)
  (λ n _ _, (S n, Ok (from_events [Scripted.ev (Z.of_nat n)]))).
Definition line (text : string) : RawSignal := RawSignal_new (bs "stdio") (bs "line") (mkHlc 1 0) (bs text).
Definition signals : list (result SourceError RawSignal) := [Ok (line "a"); Ok (line "b"); Ok (line "c")].
Definition context : NormalizationContext := NormalizationContext_new Scripted.ctx.
Definition argv_json (_ : list str) : str := [].
(** Queues of one, batches of two. *)
Definition options : PipelineOptions := mkOptions 1 1 2 (Some DEFAULT_EXPORT_FLUSH_INTERVAL) None.
Definition schedule : list label :=
  concat (replicate 8 [SourceMoves; NormalizeMoves; NormalizeMoves; ExportMoves; AgeTrigger]) ++ [ExportMoves; Join].

Definition memory_exporter : Exporter (list (list Event)) := {|
  export x es := (x ++ [es], Ok ());
  export_flush x := (x, Ok ());
|}.
#[export] Existing Instance memory_exporter.

Definition final : @state crockford_ulid nat (list (list Event)) :=
  run_schedule argv_json context [lines] None options (initial 0 [] 0%Z signals) schedule.
Definition start_spooled : @state crockford_ulid nat ((Scripted.FakeSink * SinkLog) * SpoolState) :=
  initial 0 ((Scripted.mkFakeSink 0 [Scripted.RespondOther], mkLog [] []), SpoolState_default) 0%Z signals.
Definition final_spooled : @state crockford_ulid nat ((Scripted.FakeSink * SinkLog) * SpoolState) :=
  run_schedule (EX := spool_exporter Scripted.policy) argv_json context [lines] None options start_spooled schedule.

Definition is_report (o : option (result PipelineError PipelineReport)) : bool :=
  match o with Some (Ok _) => true | _ => false end.
End LineRun.

Section witnesses.
#[local] Existing Instances crockford_ulid Scripted.fake_sink Scripted.fake_serializer.
Import LineRun.

Lemma options_ok : options_wf options.
Proof. unfold options_wf. simpl. split_and!; [lia..|done]. Qed.

Lemma pipeline_refines_sequential_witness :
  ∃ rep, outcome final = Some (Ok rep) ∧
    completed argv_json context [lines] None options 0 0%Z [] signals rep (es_acked (exporting final))
      (es_world (exporting final)).
Proof.
  pose proof (pipeline_refines_sequential argv_json context [lines] None options 0 0%Z [] signals final
    options_ok (run_schedule_rtc _ _ _ _ _ _ _)) as H.
  assert (is_report (outcome final) = true) as Hr by (vm_compute; reflexivity).
  destruct (outcome final) as [[rep|]|]; [|discriminate..]. eauto.
Defined.

Lemma pipeline_always_answers_witness :
  sn (pipeline_step argv_json context [lines] None options) (initial 0 [] 0%Z signals) ∧
  nf (pipeline_step argv_json context [lines] None options) final.
Proof.
  destruct (pipeline_always_answers argv_json context [lines] None options 0 0%Z [] signals options_ok) as [Hsn Hnf].
  split; [exact Hsn|]. apply Hnf; [apply run_schedule_rtc|].
  assert (is_report (outcome final) = true) as Hr by (vm_compute; reflexivity).
  destruct (outcome final); [eauto|discriminate].
Defined.

Definition line_result : nat * Z * result PipelineError (list processed) :=
  sequential argv_json context [lines] None options 0 0%Z [line "a"].

Lemma exported_events_stamped_witness :
  ∃ ps, line_result.2 = Ok ps ∧ length ps = 1 ∧ ∀ b e, (b, e) ∈ all_events ps → b = bs "stdio" ∧
    attributes e !! key NORMALIZER_NAME = Some (AString (bs "lines")).
Proof.
  assert (match line_result.2 with Ok _ => true | Err _ => false end = true) as Hok by (vm_compute; reflexivity).
  destruct line_result as [[n c] [ps|e]] eqn:E; [clear Hok|discriminate].
  exists ps. pose proof (exported_events_stamped argv_json context [lines] None options 0 0%Z [line "a"] n c ps E) as H.
  split; [reflexivity|]. split; [by apply Forall2_length in H|].
  intros b e He. apply list_elem_of_bind in He as (p & He & Hp).
  destruct (list_elem_of_lookup_1 _ _ Hp) as [i Hi].
  destruct (Forall2_lookup_r _ _ _ _ _ H Hi) as (raw & Hraw & Hall).
  destruct i; [|discriminate]. injection Hraw as <-.
  destruct (Hall b e He) as (-> & nz & _ & _ & _ & Hnz & _ & _ & _ & _ & _ & _ & Hname & _).
  split; [reflexivity|]. apply list_elem_of_singleton in Hnz as ->. exact Hname.
Defined.

(** [events_fit], decided. *)
Definition fits (r : nat * Z * result PipelineError (list processed)) : bool :=
  match r.2 with
  | Ok ps => let es := (all_events ps).*2 in
      (Z.of_nat (length es) <=? u64_max)%Z &&
      (max_bytes Scripted.policy + bytes_of (park (W := Scripted.FakeSink) <$> es) <=? u64_max)%Z
  | Err _ => false
  end.

Lemma lines_fit raws n c ps :
  (Ok <$> raws) `prefix_of` signals →
  sequential argv_json context [lines] None options 0 0%Z raws = (n, c, Ok ps) →
  events_fit (W := Scripted.FakeSink) Scripted.policy (all_events ps).*2.
Proof.
  intros [k Hk] E.
  assert (raws = [] ∨ raws = [line "a"] ∨ raws = [line "a"; line "b"] ∨ raws = [line "a"; line "b"; line "c"]) as Hr.
  { destruct raws as [|a raws]; [auto|]. injection Hk as -> Hk.
    destruct raws as [|b raws]; [auto|]. injection Hk as -> Hk.
    destruct raws as [|d raws]; [auto|]. injection Hk as -> Hk.
    destruct raws; [auto|discriminate]. }
  assert (fits (sequential argv_json context [lines] None options 0 0%Z raws) = true) as Hf
    by (destruct Hr as [-> | [-> | [-> | ->]]]; vm_compute; reflexivity).
  rewrite E in Hf. cbn in Hf. apply andb_true_iff in Hf as [Hl Hb]. apply Z.leb_le in Hl, Hb. done.
Qed.

Lemma pipeline_over_spool_witness :
  ∃ raws n c ps, signals = Ok <$> raws ∧
    sequential argv_json context [lines] None options 0 0%Z raws = (n, c, Ok ps) ∧
    acked (es_world (exporting final_spooled)).1.2 = (all_events ps).*2.
Proof.
  assert (∀ s, rtc (pipeline_step (EX := spool_exporter Scripted.policy) argv_json context [lines] None options)
      start_spooled s → is_report (outcome s) = true → is_clean (report (es_world (exporting s)).2) = true →
    ∃ raws n c ps, signals = Ok <$> raws ∧
      sequential argv_json context [lines] None options 0 0%Z raws = (n, c, Ok ps) ∧
      acked (es_world (exporting s)).1.2 = (all_events ps).*2) as Hgen.
  { intros s Hs Hr Hc.
    pose proof (pipeline_over_spool argv_json Scripted.policy context [lines] None options 0 0%Z
      (Scripted.mkFakeSink 0 [Scripted.RespondOther]) signals s options_ok
      ltac:(vm_compute; discriminate) ltac:(vm_compute; lia) lines_fit Hs) as H.
    destruct (outcome s) as [[rep|]|]; [|discriminate..].
    destruct H as (raws & n & c & ps & Hst & Hseq & _ & _ & _ & _ & Hclean). exists raws, n, c, ps.
    split; [exact Hst|]. split; [exact Hseq|]. exact (Hclean Hc). }
  apply Hgen; [apply run_schedule_rtc|vm_compute; reflexivity|vm_compute; reflexivity].
Defined.
End witnesses.
