(* ===== verification/Egress.v ===== *)
(** * Egress policy (crates/hiloop-interceptor/src/egress.rs)

    Canonicalization of a destination authority and its evaluation against an
    allow-list or deny-list of domains and networks.  The WHATWG host parser
    (the [url] crate) and the network types (the [ipnet] crate) are the classes
    [UrlLib] and [IpNetLib], with the documented behaviour the theorems use in
    [IpNetLaws]. *)
From Stdlib Require Import Strings.Byte.
From S2P Require Import Prelude Text Net.

(** ** Libraries *)

Inductive Host := HostDomain (domain : str) | HostIpv4 (v4 : Ipv4Addr) | HostIpv6 (v6 : Ipv6Addr).

Class UrlLib := { Host_parse : str → option Host }.

(** An IPv4 address in its printed form is parsed as that address. *)
Class UrlLaws (L : UrlLib) : Prop := Host_parse_ipv4 : ∀ a, Host_parse (fmt_ipv4 a) = Some (HostIpv4 a).

Class IpNetLib := {
  Ipv4Net : Type;
  Ipv6Net : Type;
  Ipv4Net_new : Ipv4Addr → Z → option Ipv4Net;
  v4net_addr : Ipv4Net → Ipv4Addr;
  v4net_prefix_len : Ipv4Net → Z;
  v6net_addr : Ipv6Net → Ipv6Addr;
  v6net_prefix_len : Ipv6Net → Z;
  v4net_host : Ipv4Addr → Ipv4Net;
  v6net_host : Ipv6Addr → Ipv6Net;
  v4net_contains : Ipv4Net → Ipv4Addr → bool;
  v6net_contains : Ipv6Net → Ipv6Addr → bool;
  ipnet_from_str : str → option (Ipv4Net + Ipv6Net);
  ipnet_to_string : Ipv4Net + Ipv6Net → str;
}.

(** The bits of an address, most significant first. *)
Definition byte_bits (b : byte) : list bool := (λ i, Z.testbit (bz b) i) <$> [7; 6; 5; 4; 3; 2; 1; 0]%Z.
Definition ip_bits (ip : IpAddr) : list bool := ip_octets ip ≫= byte_bits.

Definition same_network (prefix : Z) (a b : IpAddr) : Prop :=
  take (Z.to_nat prefix) (ip_bits a) = take (Z.to_nat prefix) (ip_bits b).

Class IpNetLaws (N : IpNetLib) : Prop := {
  Ipv4Net_new_Some : ∀ a p, (0 ≤ p ≤ 32)%Z →
    ∃ n, Ipv4Net_new a p = Some n ∧ v4net_addr n = a ∧ v4net_prefix_len n = p;
  v4net_host_spec : ∀ a, v4net_addr (v4net_host a) = a ∧ v4net_prefix_len (v4net_host a) = 32%Z;
  v6net_host_spec : ∀ a, v6net_addr (v6net_host a) = a ∧ v6net_prefix_len (v6net_host a) = 128%Z;
  v4net_contains_spec : ∀ n a,
    v4net_contains n a = true ↔ same_network (v4net_prefix_len n) (V4 a) (V4 (v4net_addr n));
  v6net_contains_spec : ∀ n a,
    v6net_contains n a = true ↔ same_network (v6net_prefix_len n) (V6 a) (V6 (v6net_addr n));
  v6net_prefix_range : ∀ n, (0 ≤ v6net_prefix_len n ≤ 128)%Z;
}.

(** ** Data *)

Inductive EgressMode := ModeAllow | ModeDeny.
#[export] Instance egress_mode_eq_dec : EqDecision EgressMode.
Proof. solve_decision. Defined.
Definition EgressMode_default : EgressMode := ModeAllow.
Definition EgressMode_fmt (m : EgressMode) : str :=
  match m with ModeAllow => bs "allow" | ModeDeny => bs "deny" end.

Inductive CanonicalHost := Domain (domain : str) | Ip (ip : IpAddr).
#[export] Instance canonical_host_eq_dec : EqDecision CanonicalHost.
Proof. solve_decision. Defined.
Definition CanonicalHost_fmt (h : CanonicalHost) : str :=
  match h with Domain domain => domain | Ip ip => fmt_ip ip end.

Record Destination := mkDestination { dest_host : CanonicalHost; dest_port : option Z }.
Definition with_default_port (d : Destination) (port : Z) : Destination :=
  mkDestination (dest_host d) (Some (default port (dest_port d))).
Definition host_str (d : Destination) : str := CanonicalHost_fmt (dest_host d).

Inductive CanonicalizeError := IllegalCharacter | Userinfo | Empty | Invalid.
Definition CanonicalizeError_fmt (e : CanonicalizeError) : str :=
  match e with
  | IllegalCharacter => bs "host contains a control, NUL, percent, or whitespace character"
  | Userinfo => bs "host must not carry userinfo"
  | Empty => bs "host is empty"
  | Invalid => bs "host is not a valid domain or IP literal"
  end.

Inductive EgressPolicyError := RuleDomain (rule : str) | RuleCidr (rule : str).
Definition EgressPolicyError_fmt (e : EgressPolicyError) : str :=
  match e with
  | RuleDomain rule => bs "invalid egress domain rule `" ++ rule ++ bs "`"
  | RuleCidr rule => bs "invalid egress CIDR rule `" ++ rule ++ bs "`"
  end.

Record EgressDecision := mkDecision { allowed : bool; rule_matched : option str }.

(** ** Canonicalization *)

Definition parse_port (port : str) : result CanonicalizeError Z := ok_or (parse_uint u16_max port) Invalid.

Definition split_host_port (authority : str) : result CanonicalizeError (str * option Z * bool) :=
  match strip_prefix (bs "[") authority with
  | Some rest =>
      '(addr, tail) ← ok_or (split_once x5d rest) Invalid;
      port ← match tail with
             | [] => Ok None
             | _ => digits ← ok_or (strip_prefix (bs ":") tail) Invalid;
                    Some <$> parse_port digits
             end;
      Ok (addr, port, true)
  | None =>
      match rsplit_once x3a authority with
      | Some (host, port) =>
          if contains_byte x3a host then Ok (authority, None, false)
          else p ← parse_port port; Ok (host, Some p, false)
      | None => Ok (authority, None, false)
      end
  end.

Definition normalize_ip (ip : IpAddr) : IpAddr :=
  match ip with
  | V6 v6 => match to_ipv4_mapped v6 with Some v4 => V4 v4 | None => V6 v6 end
  | V4 _ => ip
  end.

(** [chars().any(|c| c.is_control() || c.is_whitespace() || c == '%' || c == '\0')]:
    a multi-byte character is recognised at its first byte. *)
Definition illegal_at (s : str) : bool :=
  control_at s || bool_decide (is_Some (whitespace_len s)) ||
  match s with b :: _ => byte_is x25 b || byte_is x00 b | [] => false end.
Fixpoint any_illegal (s : str) : bool :=
  match s with [] => false | _ :: rest => illegal_at s || any_illegal rest end.

Section canonicalize.
Context {L : UrlLib}.

Definition canonicalize_host (authority : str) : result CanonicalizeError Destination :=
  if bool_decide (authority = []) then Err Empty
  else if any_illegal authority then Err IllegalCharacter
  else if contains_byte x40 authority then Err Userinfo
  else
    let lowered := to_ascii_lowercase authority in
    '(host_part, port, bracketed) ← split_host_port lowered;
    if bool_decide (host_part = []) then Err Empty
    else if (bracketed : bool) then
      v6 ← ok_or (Ipv6Addr_from_str host_part) Invalid;
      Ok (mkDestination (Ip (normalize_ip (V6 v6))) port)
    else
      parsed ← ok_or (Host_parse host_part) Invalid;
      host ← match parsed with
             | HostDomain domain =>
                 let domain := default domain (strip_suffix (bs ".") domain) in
                 if bool_decide (domain = []) then Err Empty else Ok (Domain domain)
             | HostIpv4 v4 => Ok (Ip (normalize_ip (V4 v4)))
             | HostIpv6 v6 => Ok (Ip (normalize_ip (V6 v6)))
             end;
      Ok (mkDestination host port).
End canonicalize.

(** ** Rules *)

Definition domain_matches (domain rule : str) : bool :=
  bool_decide (domain = rule) ||
  match strip_suffix rule domain with Some prefix => ends_with (bs ".") prefix | None => false end.

Section policy.
Context {L : UrlLib} {N : IpNetLib}.

Inductive IpNet := NetV4 (net : Ipv4Net) | NetV6 (net : Ipv6Net).
Definition to_sum (n : IpNet) : Ipv4Net + Ipv6Net := match n with NetV4 n => inl n | NetV6 n => inr n end.
Definition of_sum (n : Ipv4Net + Ipv6Net) : IpNet := match n with inl n => NetV4 n | inr n => NetV6 n end.

(** [IpNet::contains]: the families must agree. *)
Definition net_contains (n : IpNet) (ip : IpAddr) : bool :=
  match n, ip with
  | NetV4 n, V4 a => v4net_contains n a
  | NetV6 n, V6 a => v6net_contains n a
  | _, _ => false
  end.
(** [IpNet::from(ip)]: the host route. *)
Definition net_from (ip : IpAddr) : IpNet :=
  match ip with V4 a => NetV4 (v4net_host a) | V6 a => NetV6 (v6net_host a) end.

(** The last [None] is the panic of an [expect] on the constant prefix 32. *)
Definition normalize_net (net : IpNet) : IpNet :=
  match net with
  | NetV6 v6 =>
      match to_ipv4_mapped (v6net_addr v6) with
      | Some v4 =>
          if (96 <=? v6net_prefix_len v6)%Z then
            match Ipv4Net_new v4 (v6net_prefix_len v6 - 96) with
            | Some n => NetV4 n
            | None => match Ipv4Net_new v4 32 with Some n => NetV4 n | None => net end
            end
          else net
      | None => net
      end
  | NetV4 _ => net
  end.

Definition parse_cidr_rule (rule : str) : option IpNet :=
  match ipnet_from_str rule with
  | Some net => Some (normalize_net (of_sum net))
  | None => ip ← IpAddr_from_str rule; Some (net_from (normalize_ip ip))
  end.

Record EgressPolicy := mkPolicy { policy_mode : EgressMode; domains : list str; cidrs : list IpNet }.

Definition EgressPolicy_default : EgressPolicy := mkPolicy EgressMode_default [] [].

Definition domain_rule (rule : str) : result EgressPolicyError str :=
  match canonicalize_host rule with
  | Ok (mkDestination (Domain domain) _) => Ok domain
  | _ => Err (RuleDomain rule)
  end.
Definition cidr_rule (rule : str) : result EgressPolicyError IpNet := ok_or (parse_cidr_rule rule) (RuleCidr rule).

Definition EgressPolicy_new (mode : EgressMode) (domains cidrs : list str) : result EgressPolicyError EgressPolicy :=
  ds ← mapM domain_rule domains;
  cs ← mapM cidr_rule cidrs;
  Ok (mkPolicy mode ds cs).

Definition is_allow_all (p : EgressPolicy) : bool :=
  bool_decide (policy_mode p = ModeAllow) && Nat.eqb (length (domains p)) 0 && Nat.eqb (length (cidrs p)) 0.

Definition cidr_rules (p : EgressPolicy) : list str := (λ n, ipnet_to_string (to_sum n)) <$> cidrs p.

Definition matching_rule (p : EgressPolicy) (host : CanonicalHost) : option str :=
  match host with
  | Domain domain => List.find (domain_matches domain) (domains p)
  | Ip ip =>
      let ip := normalize_ip ip in
      (λ n, ipnet_to_string (to_sum n)) <$> List.find (λ n, net_contains n ip) (cidrs p)
  end.

Definition evaluate (p : EgressPolicy) (destination : Destination) : EgressDecision :=
  let matched := matching_rule p (dest_host destination) in
  let allowed :=
    match policy_mode p with
    | ModeAllow => bool_decide (matched = None)
    | ModeDeny => bool_decide (is_Some matched)
    end in
  mkDecision allowed matched.
End policy.

(** ** Specification *)

(** The labels of a domain, and what it means for a host to be covered. *)
Definition labels (d : str) : list str := split_on (byte_is x2e) d.

Definition covered {N : IpNetLib} (p : EgressPolicy) (h : CanonicalHost) : Prop :=
  match h with
  | Domain d => ∃ rule, rule ∈ domains p ∧ labels rule `suffix_of` labels d
  | Ip ip => ∃ net, net ∈ cidrs p ∧ net_contains net (normalize_ip ip) = true
  end.

(** ** Lemmas *)

Lemma split_on_app_sep c l k :
  split_on (byte_is c) (l ++ c :: k) = split_on (byte_is c) l ++ split_on (byte_is c) k.
Proof.
  induction l as [|x l IH]; cbn [app split_on]; [by rewrite byte_is_refl|].
  rewrite IH. destruct (byte_is c x); [done|].
  pose proof (split_on_ne (byte_is c) l). by destruct (split_on (byte_is c) l).
Qed.

Lemma domain_matches_spec d r :
  domain_matches d r = true ↔ labels r `suffix_of` labels d.
Proof.
  unfold domain_matches, labels. split.
  - intros [->%bool_decide_eq_true|H]%orb_true_iff; [done|].
    destruct (strip_suffix r d) as [p|] eqn:E; [|done]. apply strip_suffix_Some in E as ->.
    unfold ends_with in H. apply bool_decide_eq_true in H as [q ->].
    rewrite <- app_assoc. change (bs "." ++ r) with (x2e :: r).
    rewrite split_on_app_sep. by eexists.
  - intros [ls Hls]. apply orb_true_iff. destruct ls as [|l ls].
    + left. apply bool_decide_eq_true. simpl in Hls.
      rewrite <- (join_split_on x2e d), Hls. apply join_split_on.
    + right. assert (d = join [x2e] (l :: ls) ++ [x2e] ++ r) as ->.
      { rewrite <- (join_split_on x2e d), Hls, join_app by (done || apply split_on_ne).
        by rewrite join_split_on. }
      rewrite app_assoc. rewrite (proj2 (strip_suffix_Some r _ (join [x2e] (l :: ls) ++ [x2e])) eq_refl).
      apply bool_decide_eq_true. by exists (join [x2e] (l :: ls)).
Qed.

Lemma find_is_Some {A} (f : A → bool) l : is_Some (List.find f l) ↔ ∃ x, x ∈ l ∧ f x = true.
Proof.
  split.
  - intros [x Hx]. apply List.find_some in Hx as [Hin Hf]. exists x. by rewrite list_elem_of_In.
  - intros (x & Hin & Hf). destruct (List.find f l) eqn:E; [by eexists|].
    apply list_elem_of_In in Hin. eapply List.find_none in E; [|done]. congruence.
Qed.

Section policy_lemmas.
Context {L : UrlLib} {N : IpNetLib}.

Lemma matching_rule_covered p h : is_Some (matching_rule p h) ↔ covered p h.
Proof.
  destruct h as [d|ip]; simpl.
  - rewrite find_is_Some. by setoid_rewrite domain_matches_spec.
  - rewrite fmap_is_Some, find_is_Some. done.
Qed.

Lemma normalize_ip_unmapped ip a : normalize_ip ip = V6 a → to_ipv4_mapped a = None.
Proof. destruct ip as [|v6]; simpl; [done|]. destruct (to_ipv4_mapped v6) eqn:E; naive_solver. Qed.

Lemma normalize_ip_idemp ip : normalize_ip (normalize_ip ip) = normalize_ip ip.
Proof.
  destruct ip as [|v6]; simpl; [done|]. destruct (to_ipv4_mapped v6) eqn:E; simpl; [done|by rewrite E].
Qed.
End policy_lemmas.

(** *** Mapped networks *)

Definition mapped_bits : list bool := replicate 80 false ++ replicate 16 true.

Lemma ip_bits_length_v6 a : length (ip_bits (V6 a)) = 128.
Proof. by destruct a as [[] [] [] [] [] [] [] []]. Qed.

Lemma ip_bits_mapped m a : to_ipv4_mapped m = Some a → ip_bits (V6 m) = mapped_bits ++ ip_bits (V4 a).
Proof.
  intros H%to_ipv4_mapped_Some. unfold ip_bits. cbn [ip_octets]. rewrite H. destruct a. reflexivity.
Qed.

Lemma byte_bits_inj a b : byte_bits a = byte_bits b → a = b.
Proof.
  intros H. apply bz_inj. apply Z.bits_inj_iff'. intros n Hn.
  destruct (decide (n < 8)%Z) as [Hlt|Hge].
  - unfold byte_bits in H. simpl in H. simplify_eq.
    assert (n = 0 ∨ n = 1 ∨ n = 2 ∨ n = 3 ∨ n = 4 ∨ n = 5 ∨ n = 6 ∨ n = 7)%Z
      as [->|[->|[->|[->|[->|[->|[->| ->]]]]]]] by lia; done.
  - pose proof (bz_range a). pose proof (bz_range b).
    rewrite !Z.bits_above_log2; [done|lia| |lia|];
      destruct (decide (0 < bz a)%Z), (decide (0 < bz b)%Z);
      try (apply Z.log2_lt_pow2; [lia|]; apply Z.lt_le_trans with (2 ^ 8)%Z; [lia|apply Z.pow_le_mono_r; lia]);
      try (replace (bz a) with 0%Z by lia; simpl; lia); replace (bz b) with 0%Z by lia; simpl; lia.
Qed.

Lemma mapped_of_bits m rest : ip_bits (V6 m) = mapped_bits ++ rest → is_Some (to_ipv4_mapped m).
Proof.
  destruct m as [[a a'] [b b'] [c c'] [d d'] [e e'] [f f'] [g g'] [h h']]. unfold ip_bits. simpl ip_octets.
  intros H. assert (∀ x, byte_bits x = replicate 8 false → x = x00) as H0.
  { intros x Hx. apply byte_bits_inj. by rewrite Hx. }
  assert (∀ x, byte_bits x = replicate 8 true → x = xff) as H1.
  { intros x Hx. apply byte_bits_inj. by rewrite Hx. }
  unfold mapped_bits in H. simpl in H. simplify_eq.
  rewrite (H0 a), (H0 a'), (H0 b), (H0 b'), (H0 c), (H0 c'), (H0 d), (H0 d'), (H0 e), (H0 e'), (H1 f), (H1 f')
    by (unfold byte_bits; simpl; congruence). by eexists.
Qed.

(** A domain it returns is one the host parser gave, without a trailing dot. *)
Lemma canonicalize_domain {L : UrlLib} a d domain :
  canonicalize_host a = Ok d → dest_host d = Domain domain →
  ∃ s parsed, Host_parse s = Some (HostDomain parsed) ∧ domain = default parsed (strip_suffix (bs ".") parsed).
Proof.
  unfold canonicalize_host. intros Hd Hh. destruct (bool_decide (a = [])), (any_illegal a), (contains_byte x40 a); try done.
  apply bind_Ok in Hd as ([[hp port] br] & _ & Hd). destruct (bool_decide (hp = [])); [done|]. destruct br; inv_ok; simpl in Hh.
  subst. revert select (match _ with HostDomain _ => _ | _ => _ end = Ok _).
  repeat case_match; intros; simplify_eq; eauto.
Qed.

Section mapped_lemmas.
Context {L : UrlLib} {N : IpNetLib} {NL : IpNetLaws N}.

Lemma take_mapped p (xs ys : list bool) :
  (96 ≤ p)%Z →
  take (Z.to_nat p) (mapped_bits ++ xs) = take (Z.to_nat p) (mapped_bits ++ ys) ↔
  take (Z.to_nat (p - 96)) xs = take (Z.to_nat (p - 96)) ys.
Proof.
  intros Hp. replace (Z.to_nat p) with (length mapped_bits + Z.to_nat (p - 96)) by (simpl; lia).
  rewrite !take_app_add. split; [apply (inj (app mapped_bits))|congruence].
Qed.

Lemma normalize_net_contains n m v4 :
  to_ipv4_mapped (v6net_addr n) = Some v4 → (96 ≤ v6net_prefix_len n)%Z →
  net_contains (normalize_net (NetV6 n)) (normalize_ip (V6 m)) = v6net_contains n m.
Proof.
  intros Hn Hp. pose proof (v6net_prefix_range n). cbn [normalize_net normalize_ip]. rewrite Hn, (proj2 (Z.leb_le _ _) Hp).
  destruct (Ipv4Net_new_Some v4 (v6net_prefix_len n - 96) ltac:(lia)) as (n4 & -> & Ha & Hpl).
  apply eq_true_iff_eq. rewrite v6net_contains_spec. unfold same_network.
  rewrite (ip_bits_mapped _ _ Hn). destruct (to_ipv4_mapped m) as [a|] eqn:Hm; cbn [net_contains].
  - rewrite v4net_contains_spec, (ip_bits_mapped _ _ Hm), take_mapped by done.
    unfold same_network. by rewrite Ha, Hpl.
  - split; [done|]. intros Heq. exfalso.
    assert (take 96 (ip_bits (V6 m)) = mapped_bits) as H96.
    { apply (f_equal (take 96)) in Heq. rewrite !take_take in Heq.
      replace (96 `min` Z.to_nat (v6net_prefix_len n)) with 96 in Heq by lia.
      rewrite Heq. apply (take_app_length' mapped_bits). done. }
    destruct (mapped_of_bits m (drop 96 (ip_bits (V6 m)))) as [a Ha']; [|congruence].
    by rewrite <- H96, take_drop.
Qed.
End mapped_lemmas.

(** *** Case and illegal characters *)

Lemma bz_to_lower b :
  bz (to_lower b) = bz b ∧ ¬ (65 ≤ bz b ≤ 90)%Z ∨ bz (to_lower b) = (bz b + 32)%Z ∧ (65 ≤ bz b ≤ 90)%Z.
Proof.
  unfold to_lower, is_ascii_uppercase. pose proof (bz_range b). destruct (_ && _) eqn:E; breflect.
  - right. rewrite bz_byte_of_Z, Z.mod_small by lia. lia.
  - left. split; [done|]. apply andb_false_iff in E as [?|?]; breflect; lia.
Qed.

Ltac lower_test b :=
  apply eq_true_iff_eq; rewrite ?Z.eqb_eq, ?Z.leb_le, ?Z.ltb_lt; destruct (bz_to_lower b); lia.

Lemma to_lower_eqb b k : (k < 65 ∨ 122 < k)%Z → (bz (to_lower b) =? k)%Z = (bz b =? k)%Z.
Proof. intros. lower_test b. Qed.
Lemma to_lower_leb b k : (k < 65 ∨ 122 ≤ k)%Z → (bz (to_lower b) <=? k)%Z = (bz b <=? k)%Z.
Proof. intros. lower_test b. Qed.
Lemma leb_to_lower b k : (k ≤ 65 ∨ 122 < k)%Z → (k <=? bz (to_lower b))%Z = (k <=? bz b)%Z.
Proof. intros. lower_test b. Qed.
Lemma to_lower_ltb b k : (k ≤ 65 ∨ 122 < k)%Z → (bz (to_lower b) <? k)%Z = (bz b <? k)%Z.
Proof. intros. lower_test b. Qed.

Lemma byte_is_eqb c b : byte_is c b = (bz b =? bz c)%Z.
Proof.
  unfold byte_is. apply eq_true_iff_eq. rewrite bool_decide_eq_true, Z.eqb_eq.
  split; [by intros ->|apply bz_inj].
Qed.

Lemma byte_is_to_lower c b : (bz c < 65 ∨ 122 < bz c)%Z → byte_is c (to_lower b) = byte_is c b.
Proof. intros. rewrite !byte_is_eqb. by apply to_lower_eqb. Qed.

Lemma whitespace_len_lower s : whitespace_len (to_ascii_lowercase s) = whitespace_len s.
Proof.
  destruct s as [|a [|b [|c s]]]; unfold whitespace_len; simpl;
    repeat first [rewrite to_lower_eqb by lia|rewrite to_lower_leb by lia|rewrite leb_to_lower by lia]; done.
Qed.

Lemma control_at_lower s : control_at (to_ascii_lowercase s) = control_at s.
Proof.
  destruct s as [|a [|b s]]; unfold control_at; simpl;
    repeat first [rewrite to_lower_ltb by lia|rewrite to_lower_eqb by lia
                 |rewrite to_lower_leb by lia|rewrite leb_to_lower by lia]; done.
Qed.

Lemma any_illegal_lower s : any_illegal (to_ascii_lowercase s) = any_illegal s.
Proof.
  induction s as [|b s IH]; [done|]. 
  change (any_illegal (to_ascii_lowercase (b :: s)))
    with (illegal_at (to_ascii_lowercase (b :: s)) || any_illegal (to_ascii_lowercase s)).
  rewrite IH. cbn [any_illegal]. f_equal. unfold illegal_at. rewrite control_at_lower, whitespace_len_lower. simpl.
  by rewrite !byte_is_to_lower by (left; vm_compute; reflexivity).
Qed.

Lemma contains_byte_lower c s :
  (bz c < 65 ∨ 122 < bz c)%Z → contains_byte c (to_ascii_lowercase s) = contains_byte c s.
Proof.
  intros Hc. induction s as [|b s IH]; [done|]. unfold contains_byte in *. simpl.
  by rewrite byte_is_to_lower, IH.
Qed.

Lemma canonicalize_lower {L : UrlLib} s :
  canonicalize_host (to_ascii_lowercase s) = canonicalize_host s.
Proof.
  unfold canonicalize_host. rewrite any_illegal_lower, to_ascii_lowercase_idemp.
  rewrite contains_byte_lower by (left; vm_compute; reflexivity).
  destruct s; [done|]. by rewrite !bool_decide_eq_false_2 by done.
Qed.

(** *** Printed addresses *)

Lemma addr_char_ok b :
  addr_char b = true →
  to_lower b = b ∧ byte_is x5d b = false ∧ byte_is x40 b = false ∧ ∀ s, illegal_at (b :: s) = false.
Proof.
  intros Hb. pose proof (forall_bytes (λ b, implb (addr_char b)
    (byte_is b (to_lower b) && negb (byte_is x5d b) && negb (byte_is x40 b) &&
     (33 <=? bz b)%Z && (bz b <=? 126)%Z && negb (byte_is x25 b))) ltac:(vm_compute; reflexivity) b) as H.
  cbv beta in H. rewrite Hb in H. cbn [implb] in H. breflect. split_and!; [by apply byte_is_true|done..|]. intros s.
  assert (byte_is x00 b = false) as H00 by (rewrite byte_is_eqb; apply Z.eqb_neq; vm_compute bz at 2; lia).
  unfold illegal_at. rewrite H00.
  replace (byte_is x25 b) with false by done.
  assert (∀ k, (k < 33 ∨ 126 < k)%Z → (bz b =? k)%Z = false) as Hne by (intros; apply Z.eqb_neq; lia).
  assert ((bz b <=? 13)%Z = false) as Hle by (apply Z.leb_gt; lia).
  assert ((bz b <? 32)%Z = false) as Hlt by (apply Z.ltb_ge; lia).
  assert (whitespace_len (b :: s) = None) as ->.
  { unfold whitespace_len. rewrite Hle, andb_false_r. destruct s as [|? [|? ?]]; by rewrite !Hne by lia. }
  unfold control_at. rewrite Hlt, Hne by lia. destruct s; by rewrite ?Hne by lia.
Qed.

Lemma any_illegal_addr s t :
  Forall (λ b, addr_char b = true) s → any_illegal (s ++ t) = any_illegal t.
Proof.
  induction 1 as [|b s Hb _ IH]; [done|]. cbn [app any_illegal]. rewrite IH.
  by destruct (addr_char_ok b Hb) as (_ & _ & _ & ->).
Qed.

Lemma lower_addr s : Forall (λ b, addr_char b = true) s → to_ascii_lowercase s = s.
Proof.
  induction 1 as [|b s Hb _ IH]; [done|]. unfold to_ascii_lowercase in *. rewrite fmap_cons, IH. f_equal.
  by destruct (addr_char_ok b Hb).
Qed.

Lemma addr_free s : Forall (λ b, addr_char b = true) s → x5d ∉ s ∧ x40 ∉ s.
Proof.
  intros Hs. split; intros Hin; rewrite Forall_forall in Hs; apply Hs, addr_char_ok in Hin as (_ & H5 & H4 & _); done.
Qed.

Lemma canonicalize_socket_v6 {L : UrlLib} a port :
  is_u16 port →
  canonicalize_host (fmt_socket_addr (V6 a) port) = Ok (mkDestination (Ip (normalize_ip (V6 a))) (Some port)).
Proof.
  intros Hport. pose proof (fmt_ip_chars (V6 a)) as Ha. simpl in Ha.
  pose proof (show_uint_chars port ltac:(destruct Hport; lia)) as Hp.
  destruct (addr_free _ Ha) as [Ha5 Ha4], (addr_free _ Hp) as [Hp5 Hp4].
  assert (fmt_socket_addr (V6 a) port = x5b :: fmt_ipv6 a ++ x5d :: x3a :: show_uint port) as ->.
  { unfold fmt_socket_addr. rewrite <- ?app_assoc. reflexivity. }
  unfold canonicalize_host. rewrite bool_decide_eq_false_2 by done.
  assert (any_illegal (x5b :: fmt_ipv6 a ++ x5d :: x3a :: show_uint port) = false) as ->.
  { cbn [any_illegal]. rewrite any_illegal_addr by done. cbn [any_illegal].
    rewrite <- (app_nil_r (show_uint port)), any_illegal_addr by done.
    by destruct (fmt_ipv6 a) as [|? [|? ?]], (show_uint port) as [|? [|? ?]]. }
  assert (contains_byte x40 (x5b :: fmt_ipv6 a ++ x5d :: x3a :: show_uint port) = false) as ->.
  { apply not_true_iff_false. rewrite contains_byte_spec, !elem_of_cons, elem_of_app, !elem_of_cons. naive_solver. }
  assert (to_ascii_lowercase (x5b :: fmt_ipv6 a ++ x5d :: x3a :: show_uint port)
          = x5b :: fmt_ipv6 a ++ x5d :: x3a :: show_uint port) as ->.
  { unfold to_ascii_lowercase. rewrite fmap_cons, fmap_app, !fmap_cons.
    fold (to_ascii_lowercase (fmt_ipv6 a)). fold (to_ascii_lowercase (show_uint port)).
    by rewrite !lower_addr. }
  unfold split_host_port.
  rewrite (proj2 (strip_prefix_Some (bs "[") _ (fmt_ipv6 a ++ x5d :: x3a :: show_uint port)) eq_refl).
  rewrite (proj2 (split_once_Some _ _ _ _) (conj eq_refl Ha5)). cbn [ok_or mbind result_bind].
  rewrite (proj2 (strip_prefix_Some (bs ":") _ (show_uint port)) eq_refl). cbn [ok_or mbind result_bind].
  unfold parse_port. rewrite parse_show_uint by (unfold is_u16, u16_max, u64_max in *; lia).
  cbn [ok_or fmap result_fmap mbind result_bind].
  assert (fmt_ipv6 a ≠ []) as Hne. { intros E. pose proof (ipv6_text_roundtrip a) as H. by rewrite E in H. }
  rewrite bool_decide_eq_false_2 by done. by rewrite ipv6_text_roundtrip.
Qed.

Lemma canonicalize_socket_v4 {L : UrlLib} {UL : UrlLaws L} a port :
  is_u16 port →
  canonicalize_host (fmt_socket_addr (V4 a) port) = Ok (mkDestination (Ip (V4 a)) (Some port)).
Proof.
  intros Hport. pose proof (fmt_ipv4_chars a) as Ha.
  pose proof (show_uint_chars port ltac:(destruct Hport; lia)) as Hp.
  assert (∀ b, b ∈ fmt_ipv4 a → b ≠ x3a ∧ b ≠ x5b) as Hno.
  { intros b [->|Hd]%elem_of_fmt_ipv4; [done|].
    split; intros ->; done. }
  unfold fmt_socket_addr. set (s := fmt_ipv4 a ++ [x3a] ++ show_uint port).
  assert (Forall (λ b, addr_char b = true) s) as Hs.
  { apply Forall_app. split; [done|]. by constructor. }
  assert (fmt_ipv4 a ≠ []) as Hne. { intros E. pose proof (ipv4_text_roundtrip a) as H. by rewrite E in H. }
  unfold canonicalize_host. rewrite bool_decide_eq_false_2.
  2:{ unfold s. by destruct (fmt_ipv4 a). }
  rewrite <- (app_nil_r s), any_illegal_addr, app_nil_r by done. cbn [any_illegal].
  rewrite (proj2 (contains_byte_false x40 s)).
  2:{ eapply Forall_impl; [exact Hs|]. intros b Hb. by destruct (addr_char_ok b Hb) as (_ & _ & ? & _). }
  rewrite lower_addr by done. unfold split_host_port.
  destruct (strip_prefix (bs "[") s) as [rest|] eqn:Hstrip.
  { apply strip_prefix_Some in Hstrip. unfold s in Hstrip. destruct (fmt_ipv4 a) as [|b t]; [done|].
    simpl in Hstrip. injection Hstrip as -> _. destruct (Hno x5b) as [_ ?]; [left|done]. }
  rewrite (proj2 (rsplit_once_Some _ _ (fmt_ipv4 a) (show_uint port))).
  2:{ split; [done|]. apply show_uint_no; [destruct Hport; lia|done]. }
  rewrite (proj2 (contains_byte_false x3a (fmt_ipv4 a))).
  2:{ apply Forall_forall. intros b Hb. apply byte_is_false. intros ->. by destruct (Hno x3a Hb). }
  unfold parse_port. rewrite parse_show_uint by (unfold is_u16, u16_max, u64_max in *; lia).
  cbn [ok_or fmap result_fmap mbind result_bind]. rewrite bool_decide_eq_false_2 by done.
  by rewrite Host_parse_ipv4.
Qed.

Lemma canonicalize_socket {L : UrlLib} {UL : UrlLaws L} ip port :
  is_u16 port →
  canonicalize_host (fmt_socket_addr ip port) = Ok (mkDestination (Ip (normalize_ip ip)) (Some port)).
Proof. destruct ip; [apply canonicalize_socket_v4|apply canonicalize_socket_v6]. Qed.

(** ** Concrete libraries for the witnesses *)

Module Sample.
#[export] Instance url_lib : UrlLib := {|
  Host_parse s := match Ipv4Addr_from_str s with Some v4 => Some (HostIpv4 v4) | None => Some (HostDomain s) end
|}.

#[export] Instance url_laws : UrlLaws url_lib.
Proof. intros a. simpl. by rewrite ipv4_from_str_fmt. Qed.

Record net (A : Type) := mkNet { addr : A; prefix : Z }.
Arguments mkNet {A} addr prefix.
Arguments addr {A} n.
Arguments prefix {A} n.
Definition clamp (hi p : Z) : Z := Z.max 0 (Z.min hi p).
Definition bits_eq (p : Z) (a b : IpAddr) : bool :=
  bool_decide (take (Z.to_nat p) (ip_bits a) = take (Z.to_nat p) (ip_bits b)).

#[export] Instance ipnet_lib : IpNetLib := {|
  Ipv4Net := net Ipv4Addr;
  Ipv6Net := net Ipv6Addr;
  Ipv4Net_new a p := if ((0 <=? p) && (p <=? 32))%Z then Some (mkNet a p) else None;
  v4net_addr := addr;
  v4net_prefix_len := prefix;
  v6net_addr := addr;
  v6net_prefix_len n := clamp 128 (prefix n);
  v4net_host a := mkNet a 32;
  v6net_host a := mkNet a 128;
  v4net_contains n a := bits_eq (prefix n) (V4 a) (V4 (addr n));
  v6net_contains n a := bits_eq (clamp 128 (prefix n)) (V6 a) (V6 (addr n));
  ipnet_from_str s :=
    match split_once x2f s with
    | Some (a, p) =>
        ip ← IpAddr_from_str a;
        p ← parse_uint u8_max p;
        match ip with
        | V4 v4 => if (p <=? 32)%Z then Some (inl (mkNet v4 p)) else None
        | V6 v6 => if (p <=? 128)%Z then Some (inr (mkNet v6 p)) else None
        end
    | None => None
    end;
  ipnet_to_string n :=
    match n with
    | inl n => fmt_ipv4 (addr n) ++ bs "/" ++ show_uint (prefix n)
    | inr n => fmt_ipv6 (addr n) ++ bs "/" ++ show_uint (prefix n)
    end;
|}.

#[export] Instance ipnet_laws : IpNetLaws ipnet_lib.
Proof.
  split; simpl.
  - intros a p [H0 H1]. rewrite (proj2 (Z.leb_le 0 p)), (proj2 (Z.leb_le p 32)) by lia. simpl. eauto.
  - done.
  - done.
  - intros n a. unfold bits_eq. by rewrite bool_decide_eq_true.
  - intros n a. unfold bits_eq. by rewrite bool_decide_eq_true.
  - intros n. unfold clamp. lia.
Qed.
End Sample.

(** ** Properties *)

(** Domain rules are anchored at a label boundary: a rule covers a host
    exactly when the rule's labels are a suffix of the host's labels, so
    [example.com] covers [api.example.com] and never [evil-example.com].  *)
Theorem domain_rule_label_suffix (domain rule : str) :
  domain_matches domain rule = true ↔ labels rule `suffix_of` labels domain.
Proof. apply domain_matches_spec. Qed.

(** A decision follows the mode and the rules alone: in allow mode a
    destination is permitted exactly when no rule covers its host, in deny
    mode exactly when some rule does; a rule is reported exactly when one
    covers the host; and the default policy permits everything.  *)
Theorem egress_decision_exact {N : IpNetLib} (p : EgressPolicy) (d : Destination) :
  (allowed (evaluate p d) = true ↔
     match policy_mode p with
     | ModeAllow => ¬ covered p (dest_host d)
     | ModeDeny => covered p (dest_host d)
     end) ∧
  (is_Some (rule_matched (evaluate p d)) ↔ covered p (dest_host d)) ∧
  (is_allow_all p = true → allowed (evaluate p d) = true ∧ rule_matched (evaluate p d) = None).
Proof.
  unfold evaluate. simpl. pose proof (matching_rule_covered p (dest_host d)) as Hcov. split_and!; [|done|].
  - destruct (policy_mode p); rewrite bool_decide_eq_true, <- Hcov; [|done]. apply eq_None_not_Some.
  - unfold is_allow_all. intros H. breflect.
    assert (domains p = []) as Hd by (apply nil_length_inv, Nat.eqb_eq; done).
    assert (cidrs p = []) as Hc by (apply nil_length_inv, Nat.eqb_eq; done).
    assert (matching_rule p (dest_host d) = None) as ->.
    { unfold matching_rule. rewrite Hd, Hc. by destruct (dest_host d). }
    revert select (policy_mode p = _). by intros ->.
Qed.

Lemma egress_decision_exact_witness :
  let p := mkPolicy (N := Sample.ipnet_lib) ModeDeny [bs "example.com"] [] in
  let d := mkDestination (Domain (bs "evil-example.com")) None in
  ¬ allowed (evaluate p d) = true ∧
  allowed (evaluate (N := Sample.ipnet_lib) EgressPolicy_default d) = true.
Proof.
  intros p d. split.
  - vm_compute. discriminate.
  - apply (egress_decision_exact (N := Sample.ipnet_lib) EgressPolicy_default d). reflexivity.
Defined.

(** Canonicalization is insensitive to ASCII case; a printed IPv6
    destination is read back as the address it denotes, with its port; an
    address it returns is never left in IPv4-mapped form; and an authority it
    accepts has no control, whitespace or percent character and no userinfo.  *)
Theorem canonicalize_host_sound {L : UrlLib} :
  (∀ a b, to_ascii_lowercase a = to_ascii_lowercase b → canonicalize_host a = canonicalize_host b) ∧
  (∀ v6 port, is_u16 port →
     canonicalize_host (fmt_socket_addr (V6 v6) port)
     = Ok (mkDestination (Ip (normalize_ip (V6 v6))) (Some port))) ∧
  (∀ a d v6, canonicalize_host a = Ok d → dest_host d = Ip (V6 v6) → to_ipv4_mapped v6 = None) ∧
  (∀ a d, canonicalize_host a = Ok d → any_illegal a = false ∧ x40 ∉ a).
Proof.
  split_and!.
  - intros a b H. rewrite <- (canonicalize_lower a), H. apply canonicalize_lower.
  - apply canonicalize_socket_v6.
  - intros a d v6 Hd Hh. unfold canonicalize_host in Hd.
    destruct (bool_decide (a = [])), (any_illegal a), (contains_byte x40 a); try done.
    apply bind_Ok in Hd as ([[hp port] br] & _ & Hd).
    destruct (bool_decide (hp = [])); [done|]. destruct br; inv_ok; simpl in Hh.
    + injection Hh as Hh. exact (normalize_ip_unmapped (V6 _) _ Hh).
    + subst. revert select (match _ with HostDomain _ => _ | _ => _ end = Ok _).
      case_match; [case_match|..]; intros [= E]; subst; simplify_eq/=.
      exact (normalize_ip_unmapped (V6 _) _ E).
  - intros a d Hd. unfold canonicalize_host in Hd. rewrite <- contains_byte_spec.
    destruct (bool_decide (a = [])); [done|]. destruct (any_illegal a); [done|].
    by destruct (contains_byte x40 a).
Qed.

(** A rule written as an IPv4-mapped network covers exactly the
    addresses of that network, whether a destination spells them in IPv4 or
    in mapped form.  *)
Theorem mapped_network_exact {N : IpNetLib} {NL : IpNetLaws N}
    (n : Ipv6Net) (m : Ipv6Addr) (v4 : Ipv4Addr) :
  to_ipv4_mapped (v6net_addr n) = Some v4 → (96 ≤ v6net_prefix_len n)%Z →
  net_contains (normalize_net (NetV6 n)) (normalize_ip (V6 m)) = v6net_contains n m.
Proof. apply normalize_net_contains. Qed.

Lemma mapped_network_exact_witness :
  let v6 a b c d := mkIpv6 zero_seg zero_seg zero_seg zero_seg zero_seg (mkSeg xff xff) (mkSeg a b) (mkSeg c d) in
  net_contains (normalize_net (NetV6 (N := Sample.ipnet_lib) (Sample.mkNet (v6 x0a x00 x00 x00) 104)))
    (normalize_ip (V6 (v6 x0a x01 x02 x03))) = true.
Proof.
  cbv zeta. rewrite (mapped_network_exact (NL := Sample.ipnet_laws) _ _ (mkIpv4 x0a x00 x00 x00));
    [vm_compute; reflexivity|reflexivity|vm_compute; discriminate].
Defined.

(** A policy is built only from well-formed rules, in order, and each of
    its domain rules then covers the host it names: a rule and a request are
    compared in the same canonical form.  *)
Theorem egress_policy_rules {L : UrlLib} {N : IpNetLib} (mode : EgressMode) (ds cs : list str) (p : EgressPolicy) :
  EgressPolicy_new mode ds cs = Ok p →
  policy_mode p = mode ∧
  Forall2 (λ rule d, ∃ port, canonicalize_host rule = Ok (mkDestination (Domain d) port)) ds (domains p) ∧
  Forall2 (λ rule n, parse_cidr_rule rule = Some n) cs (cidrs p) ∧
  ∀ rule d, rule ∈ ds → canonicalize_host rule = Ok d → is_Some (rule_matched (evaluate p d)).
Proof.
  unfold EgressPolicy_new. intros H. inv_ok. simpl.
  apply mapM_Ok in H, H0. 
  assert (Forall2 (λ rule d, ∃ port, canonicalize_host rule = Ok (mkDestination (Domain d) port)) ds x) as Hds.
  { eapply Forall2_impl; [exact H|]. intros rule d. unfold domain_rule. simpl.
    repeat case_match; intros; inv_ok; eauto. }
  split_and!; [done|done| |].
  - eapply Forall2_impl; [exact H0|]. intros rule n. unfold cidr_rule. simpl. by rewrite ok_or_Ok.
  - intros rule d Hin Hd. simpl. apply matching_rule_covered.
    apply list_elem_of_lookup in Hin as [i Hi]. destruct (Forall2_lookup_l _ _ _ _ _ Hds Hi) as (d' & Hd' & port & E).
    rewrite Hd in E. inv_ok. simpl. exists d'. split; [by eapply list_elem_of_lookup_2|done].
Qed.

Lemma egress_policy_rules_witness :
  let d := mkDestination (Domain (bs "example.com")) (Some 443%Z) in
  is_Some (rule_matched (evaluate (N := Sample.ipnet_lib) (mkPolicy ModeDeny [bs "example.com"] []) d)).
Proof.
  apply (egress_policy_rules (L := Sample.url_lib) (N := Sample.ipnet_lib) ModeDeny [bs "Example.COM.:443"] []
    (mkPolicy ModeDeny [bs "example.com"] [])) with (rule := bs "Example.COM.:443");
    [reflexivity|constructor|reflexivity].
Defined.

Lemma canonicalize_host_sound_witness :
  canonicalize_host (L := Sample.url_lib) (bs "[::FFFF:7F00:1]:443")
  = canonicalize_host (L := Sample.url_lib) (bs "[::ffff:7f00:1]:443").
Proof. apply (canonicalize_host_sound (L := Sample.url_lib)). reflexivity. Defined.
