(* ===== verification/NetCapture.v ===== *)
(** * Capture configuration contracts
    (crates/hiloop-interceptor/src/net_capture.rs and capture_policy.rs)

    The compatibility registry of endpoints whose TLS is passed through on the
    first connection, with its validation, and the disposition of exchanges
    whose bodies stay out of telemetry. *)
From Stdlib Require Import Strings.Byte.
From S2P Require Import Prelude Text Net Egress.

Inductive RegistryError :=
| ErrVersion
| ErrHost (value : str)
| ErrPort
| ErrBlank (field : str)
| ErrRevalidationDate (value : str)
| ErrDuplicate (host : str) (port : Z).

Record CompatibilityRegistryEntry := mkEntry {
  entry_host : CanonicalHost;
  entry_port : Z;
  evidence : str;
  owner : str;
  revalidate_on : str;
}.

Definition nonblank_field (field : string) (value : str) : result RegistryError str :=
  if is_blank value then Err (ErrBlank (bs field)) else Ok value.

Definition leap_year (year : Z) : bool :=
  (year mod 4 =? 0)%Z && (negb (year mod 100 =? 0)%Z || (year mod 400 =? 0)%Z).

Definition days_in_month (year month : Z) : Z :=
  if bool_decide (month ∈ [1; 3; 5; 7; 8; 10; 12]%Z) then 31
  else if bool_decide (month ∈ [4; 6; 9; 11]%Z) then 30
  else if (month =? 2)%Z then (if leap_year year then 29 else 28)
  else 0.

(** The shape test of the date text. *)
Definition date_shape (bytes : str) : bool :=
  Nat.eqb (length bytes) 10
  && bool_decide (bytes !! 4 = Some x2d)
  && bool_decide (bytes !! 7 = Some x2d)
  && forallb is_ascii_digit (take 4 bytes)
  && forallb is_ascii_digit (take 2 (drop 5 bytes))
  && forallb is_ascii_digit (drop 8 bytes).

Definition revalidation_date (text : str) : result RegistryError str :=
  value ← nonblank_field "revalidate_on" text;
  if negb (date_shape value) then Err (ErrRevalidationDate value)
  else
    year ← ok_or (parse_uint u16_max (take 4 value)) (ErrRevalidationDate value);
    month ← ok_or (parse_uint u8_max (take 2 (drop 5 value))) (ErrRevalidationDate value);
    day ← ok_or (parse_uint u8_max (drop 8 value)) (ErrRevalidationDate value);
    if (day =? 0)%Z || (days_in_month year month <? day)%Z then Err (ErrRevalidationDate value)
    else Ok value.

Definition CompatibilityRegistryEntry_new {L : UrlLib} (host : str) (port : Z) (evidence owner revalidate_on : str)
    : result RegistryError CompatibilityRegistryEntry :=
  if contains_byte x2a host then Err (ErrHost host)
  else
    destination ← map_err (λ _, ErrHost host) (canonicalize_host host);
    if bool_decide (is_Some (dest_port destination)) then Err (ErrHost host)
    else if (port =? 0)%Z then Err ErrPort
    else
      evidence ← nonblank_field "evidence" evidence;
      owner ← nonblank_field "owner" owner;
      revalidate_on ← revalidation_date revalidate_on;
      Ok (mkEntry (dest_host destination) port evidence owner revalidate_on).

Record CompatibilityRegistry := mkRegistry { registry_version : Z; entries : list CompatibilityRegistryEntry }.

Definition CompatibilityRegistry_current : CompatibilityRegistry :=
  mkRegistry 1 [mkEntry (Domain (bs "api.modal.com")) 443
    (bs "clean-environment Modal certificate-pinning fixture") (bs "capture-runtime") (bs "2026-10-14")].

(** The key an entry is unique by. *)
Definition endpoint (e : CompatibilityRegistryEntry) : str * Z := (CanonicalHost_fmt (entry_host e), entry_port e).

Fixpoint check_endpoints (seen : gset (str * Z)) (es : list CompatibilityRegistryEntry) : result RegistryError unit :=
  match es with
  | [] => Ok ()
  | e :: es =>
      if bool_decide (endpoint e ∈ seen) then Err (ErrDuplicate (endpoint e).1 (entry_port e))
      else check_endpoints ({[endpoint e]} ∪ seen) es
  end.

Definition CompatibilityRegistry_new (version : Z) (entries : list CompatibilityRegistryEntry)
    : result RegistryError CompatibilityRegistry :=
  if (version =? 0)%Z then Err ErrVersion
  else _ ← check_endpoints ∅ entries; Ok (mkRegistry version entries).

Definition registry_contains (r : CompatibilityRegistry) (host : CanonicalHost) (port : Z) : bool :=
  existsb (λ e, bool_decide (entry_host e = host) && (entry_port e =? port)%Z) (entries r).

(** ** Capture disposition *)

Inductive SensitiveExchange := OAuthToken | BoundSecret.
Inductive CaptureDisposition := Full | MetadataOnly (e : SensitiveExchange).

Definition sensitive_endpoints : list (str * str) :=
  [(bs "platform.claude.com", bs "/v1/oauth/token");
   (bs "auth.openai.com", bs "/api/accounts/deviceauth/usercode");
   (bs "auth.openai.com", bs "/api/accounts/deviceauth/token");
   (bs "auth.openai.com", bs "/oauth/token")].

Definition capture_disposition (method : str) (host : option str) (path : str) : CaptureDisposition :=
  if negb (bool_decide (method = bs "POST")) then Full
  else
    let sensitive := match host with Some h => bool_decide ((h, path) ∈ sensitive_endpoints) | None => false end in
    if sensitive then MetadataOnly OAuthToken else Full.

Definition omission_reason (e : SensitiveExchange) : str :=
  match e with OAuthToken => bs "oauth_token_exchange" | BoundSecret => bs "bound_secret_exchange" end.

(** ** Specification *)

(** A date of the Gregorian calendar with a four-digit year, written out. *)
Definition calendar_date (y m d : Z) : Prop :=
  (0 ≤ y ≤ 9999)%Z ∧ (1 ≤ m ≤ 12)%Z ∧ (1 ≤ d ≤ days_in_month y m)%Z.
Definition date_text (y m d : Z) : str :=
  zero_padded 4 y ++ [x2d] ++ zero_padded 2 m ++ [x2d] ++ zero_padded 2 d.

(** ** Lemmas *)

Lemma digit_byte_digit d : (0 ≤ d ≤ 9)%Z → is_ascii_digit (digit_byte d) = true ∧ bz (digit_byte d) = (48 + d)%Z.
Proof.
  intros Hd. unfold is_ascii_digit, digit_byte. rewrite bz_byte_of_Z, Z.mod_small by lia.
  split; [apply andb_true_iff; split; apply Z.leb_le; lia|done].
Qed.

Lemma digit_byte_is_digit d : (0 ≤ d ≤ 9)%Z → is_ascii_digit (digit_byte d) = true.
Proof. apply digit_byte_digit. Qed.

Lemma digit_of_byte b : is_ascii_digit b = true → ∃ d, (0 ≤ d ≤ 9)%Z ∧ b = digit_byte d.
Proof.
  unfold is_ascii_digit. intros H. breflect. exists (bz b - 48)%Z. split; [lia|].
  unfold digit_byte. rewrite <- (byte_of_Z_bz b) at 1. f_equal. lia.
Qed.

Lemma digit_not_plus d : (0 ≤ d ≤ 9)%Z → byte_is x2b (digit_byte d) = false.
Proof.
  intros Hd. apply byte_is_false. intros E. destruct (digit_byte_digit d Hd) as [_ H]. rewrite E in H.
  change (bz x2b) with 43%Z in H. lia.
Qed.

Lemma parse_two max a b :
  (0 ≤ a ≤ 9)%Z → (0 ≤ b ≤ 9)%Z → (99 ≤ max)%Z →
  parse_uint max [digit_byte a; digit_byte b] = Some (10 * a + b)%Z.
Proof.
  intros Ha Hb Hm. unfold parse_uint. rewrite digit_not_plus by done. cbn [parse_digits].
  rewrite !digit_val_byte by lia. cbn [mbind option_bind].
  rewrite !(proj2 (Z.leb_le _ _)) by lia. f_equal. lia.
Qed.

Lemma parse_four max a b c d :
  (0 ≤ a ≤ 9)%Z → (0 ≤ b ≤ 9)%Z → (0 ≤ c ≤ 9)%Z → (0 ≤ d ≤ 9)%Z → (9999 ≤ max)%Z →
  parse_uint max [digit_byte a; digit_byte b; digit_byte c; digit_byte d]
  = Some (1000 * a + 100 * b + 10 * c + d)%Z.
Proof.
  intros Ha Hb Hc Hd Hm. unfold parse_uint. rewrite digit_not_plus by done. cbn [parse_digits].
  rewrite !digit_val_byte by lia. cbn [mbind option_bind].
  rewrite !(proj2 (Z.leb_le _ _)) by lia. f_equal. lia.
Qed.

(** A text passes the shape test exactly when it is ten such characters. *)
Lemma date_shape_spec s :
  date_shape s = true ↔ ∃ y1 y2 y3 y4 m1 m2 d1 d2,
    Forall (λ d, 0 ≤ d ≤ 9)%Z [y1; y2; y3; y4; m1; m2; d1; d2] ∧
    s = (digit_byte <$> [y1; y2; y3; y4]) ++ [x2d] ++ (digit_byte <$> [m1; m2]) ++ [x2d] ++
        (digit_byte <$> [d1; d2]).
Proof.
  split.
  - unfold date_shape. intros H. breflect. revert select (Nat.eqb _ _ = true). intros Hl%Nat.eqb_eq.
    destruct s as [|b0 [|b1 [|b2 [|b3 [|b4 [|b5 [|b6 [|b7 [|b8 [|b9 [|]]]]]]]]]]]; try done.
    simpl in *. breflect. simplify_eq/=.
    repeat match goal with
    | H : is_ascii_digit ?b = true |- _ => apply digit_of_byte in H as (? & ? & ->)
    end.
    do 8 eexists. split; [|reflexivity]. repeat constructor; lia.
  - intros (y1 & y2 & y3 & y4 & m1 & m2 & d1 & d2 & H & ->).
    repeat match goal with H : Forall _ (_ :: _) |- _ => apply Forall_cons in H as [? ?] end.
    unfold date_shape. simpl. rewrite !digit_byte_is_digit by done. reflexivity.
Qed.

Lemma zero_padded_digits y1 y2 y3 y4 m1 m2 d1 d2 :
  Forall (λ d, 0 ≤ d ≤ 9)%Z [y1; y2; y3; y4; m1; m2; d1; d2] →
  (digit_byte <$> [y1; y2; y3; y4]) ++ [x2d] ++ (digit_byte <$> [m1; m2]) ++ [x2d] ++ (digit_byte <$> [d1; d2])
  = date_text (1000 * y1 + 100 * y2 + 10 * y3 + y4) (10 * m1 + m2) (10 * d1 + d2).
Proof.
  intros H. repeat match goal with H : Forall _ (_ :: _) |- _ => apply Forall_cons in H as [? ?] end.
  unfold date_text, zero_padded. simpl.
  repeat f_equal; Z.to_euclidean_division_equations; lia.
Qed.

Lemma date_text_digits y m d :
  (0 ≤ y ≤ 9999)%Z → (0 ≤ m ≤ 99)%Z → (0 ≤ d ≤ 99)%Z →
  ∃ y1 y2 y3 y4 m1 m2 d1 d2, Forall (λ d, 0 ≤ d ≤ 9)%Z [y1; y2; y3; y4; m1; m2; d1; d2] ∧
    y = (1000 * y1 + 100 * y2 + 10 * y3 + y4)%Z ∧ m = (10 * m1 + m2)%Z ∧ d = (10 * d1 + d2)%Z.
Proof.
  intros Hy Hm Hd.
  exists (y / 1000)%Z, (y / 100 mod 10)%Z, (y / 10 mod 10)%Z, (y mod 10)%Z, (m / 10)%Z, (m mod 10)%Z,
    (d / 10)%Z, (d mod 10)%Z.
  split_and!; [repeat constructor|..]; Z.to_euclidean_division_equations; lia.
Qed.

Lemma days_in_month_range y m : (1 ≤ days_in_month y m)%Z → (1 ≤ m ≤ 12)%Z.
Proof.
  unfold days_in_month. repeat case_bool_decide; [set_solver by lia|set_solver by lia|].
  destruct (m =? 2)%Z eqn:E; breflect; lia.
Qed.

Lemma days_in_month_le y m : (days_in_month y m ≤ 31)%Z.
Proof. unfold days_in_month. repeat case_match; lia. Qed.

Lemma revalidation_date_digits y1 y2 y3 y4 m1 m2 d1 d2 :
  Forall (λ d, 0 ≤ d ≤ 9)%Z [y1; y2; y3; y4; m1; m2; d1; d2] →
  let y := (1000 * y1 + 100 * y2 + 10 * y3 + y4)%Z in
  let m := (10 * m1 + m2)%Z in
  let d := (10 * d1 + d2)%Z in
  revalidation_date (date_text y m d) =
    if (d =? 0)%Z || (days_in_month y m <? d)%Z then Err (ErrRevalidationDate (date_text y m d))
    else Ok (date_text y m d).
Proof.
  intros H y m d. unfold y, m, d. rewrite <- zero_padded_digits by done.
  match goal with |- revalidation_date ?s = _ => assert (date_shape s = true) as Hshape end.
  { apply date_shape_spec. do 8 eexists. split; [exact H|reflexivity]. }
  repeat match goal with H : Forall _ (_ :: _) |- _ => apply Forall_cons in H as [? ?] end.
  unfold revalidation_date, nonblank_field. rewrite is_blank_visible; [|done|].
  2:{ destruct (digit_byte_digit y1) as [_ Hb]; [done|]. simpl. unfold whitespace_len. rewrite Hb.
      repeat match goal with |- context [(?a =? ?b)%Z] => rewrite (proj2 (Z.eqb_neq a b)) by lia end.
      by rewrite (proj2 (Z.leb_gt _ 13)), andb_false_r by lia. }
  cbn [mbind result_bind].
  rewrite Hshape. cbn [negb].
  change (take 4 _) with [digit_byte y1; digit_byte y2; digit_byte y3; digit_byte y4].
  rewrite (parse_four u16_max y1 y2 y3 y4) by (done || unfold u16_max; lia). cbn [ok_or mbind result_bind].
  change (take 2 (drop 5 _)) with [digit_byte m1; digit_byte m2].
  rewrite (parse_two u8_max m1 m2) by (done || unfold u8_max; lia). cbn [ok_or mbind result_bind].
  change (drop 8 _) with [digit_byte d1; digit_byte d2].
  rewrite (parse_two u8_max d1 d2) by (done || unfold u8_max; lia). done.
Qed.

Lemma check_endpoints_spec seen es :
  check_endpoints seen es = Ok () ↔ NoDup (endpoint <$> es) ∧ ∀ e, e ∈ es → endpoint e ∉ seen.
Proof.
  revert seen. induction es as [|e es IH]; intros seen; cbn [check_endpoints].
  - split; [|done]. intros _. split; [constructor|set_solver].
  - rewrite fmap_cons, NoDup_cons. case_bool_decide as Hin.
    { split; [done|]. intros [_ H]. by destruct (H e (list_elem_of_here e es)). }
    rewrite IH, list_elem_of_fmap. split.
    + intros [Hnd Hs]. split_and!; [|done|].
      * intros (e' & He & Hin'). apply (Hs e' Hin'), elem_of_union_l, elem_of_singleton. done.
      * intros e' [->|Hin']%elem_of_cons; [done|]. intros Hin''. by apply (Hs e' Hin'), elem_of_union_r.
    + intros [[Hne Hnd] Hs]. split; [done|].
      intros e' Hin' [Heq%elem_of_singleton|Hin'']%elem_of_union.
      * apply Hne. by exists e'.
      * by apply (Hs e'); [right|].
Qed.

(** ** Properties *)

(** A revalidation date is accepted exactly when it is the ten-character
    ISO-8601 text of a date of the Gregorian calendar, leap years included,
    and it is kept verbatim.  *)
Theorem revalidation_date_calendar (s t : str) :
  revalidation_date s = Ok t ↔ t = s ∧ ∃ y m d, calendar_date y m d ∧ s = date_text y m d.
Proof.
  split.
  - intros H. pose proof H as Hs. apply bind_Ok in Hs as (v & Hv & Hs).
    unfold nonblank_field in Hv. destruct (is_blank s); [done|]. injection Hv as <-.
    destruct (date_shape s) eqn:Hshape; [|done].
    apply date_shape_spec in Hshape as (y1 & y2 & y3 & y4 & m1 & m2 & d1 & d2 & Hd & ->).
    rewrite zero_padded_digits in H |- * by done. rewrite revalidation_date_digits in H by done.
    destruct (_ || _) eqn:E; [done|]. breflect. simplify_eq. split; [done|].
    do 3 eexists. split; [|reflexivity].
    repeat match goal with H : Forall _ (_ :: _) |- _ => apply Forall_cons in H as [? ?] end.
    match goal with H : (_ ≤ days_in_month ?y ?m)%Z |- _ => pose proof (days_in_month_range y m ltac:(lia)) end.
    split_and!; lia.
  - intros [-> (y & m & d & (Hy & Hm & Hd) & ->)]. pose proof (days_in_month_le y m).
    destruct (date_text_digits y m d) as (y1 & y2 & y3 & y4 & m1 & m2 & d1 & d2 & Hall & -> & -> & ->); [lia..|].
    rewrite revalidation_date_digits by done.
    by rewrite (proj2 (Z.eqb_neq _ _)), (proj2 (Z.ltb_ge _ _)) by lia.
Qed.

(** A registry is accepted exactly when its version is positive and no
    two rows name the same endpoint; the rows are kept, and an endpoint is in
    the registry exactly when some row is for that very host and port.  *)
Theorem registry_exact (version : Z) (es : list CompatibilityRegistryEntry) (r : CompatibilityRegistry) :
  (CompatibilityRegistry_new version es = Ok r ↔
     version ≠ 0%Z ∧ NoDup (endpoint <$> es) ∧ r = mkRegistry version es) ∧
  (∀ host port, registry_contains r host port = true ↔
     ∃ e, e ∈ entries r ∧ entry_host e = host ∧ entry_port e = port).
Proof.
  split.
  - unfold CompatibilityRegistry_new. destruct (version =? 0)%Z eqn:E; breflect; [naive_solver|].
    rewrite bind_Ok. split.
    + intros ([] & H & [= <-]). apply check_endpoints_spec in H as [? _]. done.
    + intros (_ & Hnd & ->). exists tt. split; [|done]. apply check_endpoints_spec. set_solver.
  - intros host port. unfold registry_contains. rewrite existsb_exists.
    setoid_rewrite andb_true_iff. setoid_rewrite bool_decide_eq_true. setoid_rewrite Z.eqb_eq.
    setoid_rewrite list_elem_of_In. done.
Qed.

Example shipped_registry : CompatibilityRegistry_new 1 (entries CompatibilityRegistry_current)
  = Ok CompatibilityRegistry_current.
Proof. reflexivity. Qed.
