(* ===== verification/Classifier.v ===== *)
(** * TCP prefix classification (crates/hiloop-interceptor/src/netns/classifier.rs)

    Incremental classification of the untouched client prefix of a flow:
    cleartext HTTP/1, the HTTP/2 preface, a TLS ClientHello over one or more
    records, or another protocol.  The BLAKE3 digest is the parameter
    [blake3_hex].

    Loops over a reader carry the number of bytes as fuel: each iteration
    consumes at least one byte, so the fuel is never exhausted
    ([read_loop_fuel], [classify_tls_fuel]). *)
From Stdlib Require Import Strings.Byte.
From stdpp Require Import sorting.
From S2P Require Import Prelude Text Net Identity Event Capture.

Definition MAX_CLASSIFICATION_BYTES : nat := Z.to_nat 65536.
Definition MAX_TLS_RECORD_BYTES : Z := 18 * 1024.
Definition MAX_HTTP_METHOD_BYTES : nat := 32.
Definition ECH_EXTENSION : Z := 65037.
Definition HTTP2_PREFACE : str :=
  bs "PRI * HTTP/2.0" ++ [x0d; x0a; x0d; x0a] ++ bs "SM" ++ [x0d; x0a; x0d; x0a].

Record HttpIdentity := mkHttpIdentity { http_authority : option str }.
Record ClientHelloIdentity := mkClientHello {
  hello_server_name : option str;
  hello_fingerprint : str;
  encrypted_client_hello : bool;
}.
Inductive TcpProtocol :=
| CleartextHttp (identity : HttpIdentity)
| TlsClientHello (hello : ClientHelloIdentity)
| OtherTcp.
Inductive ClassificationProgress := NeedMore | Classified (p : TcpProtocol).
Inductive ClassificationError := MalformedHttp | MalformedTls | PrefixTooLarge.

Abbreviation classify_result := (result ClassificationError ClassificationProgress).

Definition flow_identity (h : ClientHelloIdentity) (destination : OriginalDestination)
    : result CaptureContractError TlsFlowIdentity :=
  identity ← with_client_hello_fingerprint (TlsFlowIdentity_new destination) (hello_fingerprint h);
  match hello_server_name h with
  | Some server_name => with_server_name identity server_name
  | None => Ok identity
  end.

(** ** Cleartext HTTP *)

Definition is_token_byte (b : byte) : bool :=
  is_ascii_alphanumeric b || bool_decide (b ∈ bs "!#$%&'*+-.^_`|~").

Fixpoint trim_start (s : str) : str :=
  match s with
  | b :: rest => if is_ascii_whitespace b then trim_start rest else s
  | [] => []
  end.
Definition trim_ascii_whitespace (s : str) : str := reverse (trim_start (reverse (trim_start s))).

Fixpoint parse_http_lines (lines : list str) (authority : option str)
    : result ClassificationError (option str) :=
  match lines with
  | [] => Ok authority
  | line :: lines =>
      if bool_decide (line = []) then parse_http_lines lines authority
      else
        line ← ok_or (strip_suffix [x0d] line) MalformedHttp;
        match position (byte_is x3a) line with
        | None => Err MalformedHttp
        | Some colon =>
            let name := take colon line in
            if bool_decide (name = []) || negb (forallb is_token_byte name) then Err MalformedHttp
            else if eq_ignore_ascii_case name (bs "host") then
              if bool_decide (is_Some authority) then Err MalformedHttp
              else
                let value := trim_ascii_whitespace (drop (colon + 1) line) in
                if bool_decide (value = []) then Err MalformedHttp
                else v ← ok_or (from_utf8 value) MalformedHttp; parse_http_lines lines (Some v)
            else parse_http_lines lines authority
        end
  end.

Definition parse_http_host (headers : str) : result ClassificationError (option str) :=
  parse_http_lines (split_on (byte_is x0a) headers) None.

(** The three words of a request line. *)
Definition valid_request_line (line : str) : bool :=
  match split_on (byte_is x20) line with
  | [_; target; version] =>
      negb (bool_decide (target = [])) && bool_decide (version ∈ [bs "HTTP/1.0"; bs "HTTP/1.1"])
  | _ => false
  end.

Definition classify_http_or_other (prefix : str) : classify_result :=
  match prefix with
  | [] => Ok NeedMore
  | first :: _ =>
      if starts_with HTTP2_PREFACE prefix then Ok (Classified (CleartextHttp (mkHttpIdentity None)))
      else if starts_with prefix HTTP2_PREFACE then Ok NeedMore
      else if negb (is_ascii_uppercase first) then Ok (Classified OtherTcp)
      else match position (byte_is x20) prefix with
      | None =>
          if bool_decide (length prefix ≤ MAX_HTTP_METHOD_BYTES) && forallb is_token_byte prefix
          then Ok NeedMore else Ok (Classified OtherTcp)
      | Some method_end =>
          if bool_decide (method_end = 0) || bool_decide (MAX_HTTP_METHOD_BYTES < method_end)
             || negb (forallb is_token_byte (take method_end prefix))
          then Ok (Classified OtherTcp)
          else match find_bytes [x0d; x0a] prefix with
          | None => Ok NeedMore
          | Some request_line_end =>
              if negb (valid_request_line (take request_line_end prefix)) then Ok (Classified OtherTcp)
              else match find_bytes [x0d; x0a; x0d; x0a] prefix with
              | None => Ok NeedMore
              | Some head_end =>
                  headers ← ok_or (slice_get prefix (request_line_end + 2) (head_end + 2)) MalformedHttp;
                  authority ← parse_http_host headers;
                  Ok (Classified (CleartextHttp (mkHttpIdentity authority)))
              end
          end
      end
  end.

(** ** TLS *)

Definition be16 (a b : byte) : Z := (bz a * 256 + bz b)%Z.

Record TlsReader := mkReader { rd_bytes : str; rd_offset : nat }.
Definition TlsReader_new (bytes : str) : TlsReader := mkReader bytes 0.
Definition rd_is_empty (r : TlsReader) : bool := Nat.eqb (rd_offset r) (length (rd_bytes r)).

(** An offset that overflows [usize] is out of range too, so both failures of
    the source are the failure of [slice_get]. *)
Definition rd_take (n : nat) (r : TlsReader) : result ClassificationError (str * TlsReader) :=
  let end_ := rd_offset r + n in
  value ← ok_or (slice_get (rd_bytes r) (rd_offset r) end_) MalformedTls;
  Ok (value, mkReader (rd_bytes r) end_).
Definition rd_u8 (r : TlsReader) : result ClassificationError (Z * TlsReader) :=
  '(v, r) ← rd_take 1 r;
  match v with [a] => Ok (bz a, r) | _ => Err MalformedTls end.
Definition rd_u16 (r : TlsReader) : result ClassificationError (Z * TlsReader) :=
  '(v, r) ← rd_take 2 r;
  match v with [a; b] => Ok (be16 a b, r) | _ => Err MalformedTls end.
Definition vector_u8 (r : TlsReader) : result ClassificationError (str * TlsReader) :=
  '(n, r) ← rd_u8 r; rd_take (Z.to_nat n) r.
Definition vector_u16 (r : TlsReader) : result ClassificationError (str * TlsReader) :=
  '(n, r) ← rd_u16 r; rd_take (Z.to_nat n) r.
Definition finish (r : TlsReader) : result ClassificationError unit :=
  if rd_is_empty r then Ok () else Err MalformedTls.

(** [while !reader.is_empty() { ... }]: the body threads an accumulator. *)
Fixpoint read_loop {A} (body : A → TlsReader → result ClassificationError (A * TlsReader))
    (fuel : nat) (acc : A) (r : TlsReader) : result ClassificationError A :=
  if rd_is_empty r then Ok acc
  else match fuel with
       | O => Err MalformedTls
       | S fuel => '(acc, r) ← body acc r; read_loop body fuel acc r
       end.
Definition read_all {A} (body : A → TlsReader → result ClassificationError (A * TlsReader))
    (acc : A) (bytes : str) : result ClassificationError A :=
  read_loop body (length bytes) acc (TlsReader_new bytes).

Definition extension_step (exts : gmap Z str) (r : TlsReader) : result ClassificationError (gmap Z str * TlsReader) :=
  '(kind, r) ← rd_u16 r;
  '(n, r) ← rd_u16 r;
  '(payload, r) ← rd_take (Z.to_nat n) r;
  if bool_decide (is_Some (exts !! kind)) then Err MalformedTls else Ok (<[kind := payload]> exts, r).
Definition parse_extensions (bytes : str) : result ClassificationError (gmap Z str) :=
  read_all extension_step ∅ bytes.

Definition server_name_step (server_name : option str) (r : TlsReader)
    : result ClassificationError (option str * TlsReader) :=
  '(name_type, r) ← rd_u8 r;
  '(name, r) ← vector_u16 r;
  if (name_type =? 0)%Z then
    if bool_decide (name = []) || bool_decide (is_Some server_name) then Err MalformedTls
    else n ← ok_or (from_utf8 name) MalformedTls; Ok (Some n, r)
  else Ok (server_name, r).
Definition parse_server_name (payload : str) : result ClassificationError (option str) :=
  '(names, r) ← vector_u16 (TlsReader_new payload);
  _ ← finish r;
  read_all server_name_step None names.

Fixpoint u16_chunks (bytes : str) : list Z :=
  match bytes with a :: b :: rest => be16 a b :: u16_chunks rest | _ => [] end.
Definition parse_u16_values (bytes : str) : result ClassificationError (list Z) :=
  if negb (Nat.even (length bytes)) then Err MalformedTls else Ok (u16_chunks bytes).

Definition is_grease (v : Z) : bool :=
  (Z.land v 3855 =? 2570)%Z && (Z.shiftr v 8 =? Z.land v 255)%Z.

(** A [BTreeSet] read in order: sorted, without duplicates. *)
Definition btree_set (l : list Z) : list Z := merge_sort Z.le (elements (list_to_set l : gset Z)).
Definition normalize_u16_values (values : list Z) : list Z :=
  btree_set (filter (λ v, is_grease v = false) values).

Definition parse_optional_u16_extension (exts : gmap Z str) (kind : Z) : result ClassificationError (list Z) :=
  match exts !! kind with
  | None => Ok []
  | Some payload =>
      '(bytes, r) ← vector_u16 (TlsReader_new payload);
      values ← parse_u16_values bytes;
      _ ← finish r;
      Ok (normalize_u16_values values)
  end.

Definition parse_supported_versions (exts : gmap Z str) : result ClassificationError (list Z) :=
  match exts !! 43%Z with
  | None => Ok []
  | Some payload =>
      '(bytes, r) ← vector_u8 (TlsReader_new payload);
      values ← parse_u16_values bytes;
      _ ← finish r;
      Ok (normalize_u16_values values)
  end.

Definition alpn_step (values : list str) (r : TlsReader) : result ClassificationError (list str * TlsReader) :=
  '(value, r) ← vector_u8 r;
  if bool_decide (value = []) then Err MalformedTls else Ok (values ++ [value], r).
Definition parse_alpn (exts : gmap Z str) : result ClassificationError (list str) :=
  match exts !! 16%Z with
  | None => Ok []
  | Some payload =>
      '(protocols, r) ← vector_u16 (TlsReader_new payload);
      _ ← finish r;
      read_all alpn_step [] protocols
  end.

(** ** The normalized fingerprint *)

Fixpoint be_bytes (width : nat) (z : Z) : str :=
  match width with
  | O => []
  | S width => byte_of_Z (z / 256 ^ Z.of_nat width) :: be_bytes width z
  end.

Definition append_length (bytes : str) (value : nat) : str := bytes ++ be_bytes 8 (Z.of_nat value).
Definition append_u16_set (bytes : str) (tag : byte) (values : list Z) : str :=
  append_length (bytes ++ [tag]) (length values) ++ (values ≫= be_bytes 2).
Definition append_u8_set (bytes : str) (tag : byte) (values : str) : str :=
  append_length (bytes ++ [tag]) (length values) ++ values.
Definition append_byte_strings (bytes : str) (tag : byte) (values : list str) : str :=
  foldl (λ bytes value, append_length bytes (length value) ++ value)
    (append_length (bytes ++ [tag]) (length values)) values.

Definition byte_le (a b : byte) : Prop := (bz a ≤ bz b)%Z.
#[export] Instance byte_le_dec : RelDecision byte_le.
Proof. intros a b. unfold byte_le. apply _. Defined.

(** [Vec::dedup]: consecutive repetitions go. *)
Fixpoint dedup (l : str) : str :=
  match l with
  | a :: (b :: _) as rest => if bool_decide (a = b) then dedup rest else a :: dedup rest
  | l => l
  end.

Definition normalized_hello (legacy_version : Z) (suites : list Z) (compression : str)
    (extension_types groups signatures versions : list Z) (alpn : list str) : str :=
  let n := bs "hiloop-client-hello-v1" ++ [x00] ++ be_bytes 2 legacy_version in
  let n := append_u16_set n x01 (merge_sort Z.le suites) in
  let n := append_u8_set n x02 (dedup (merge_sort byte_le compression)) in
  let n := append_u16_set n x03 (merge_sort Z.le extension_types) in
  let n := append_u16_set n x04 (merge_sort Z.le groups) in
  let n := append_u16_set n x05 (merge_sort Z.le signatures) in
  let n := append_u16_set n x06 (merge_sort Z.le versions) in
  append_byte_strings n x07 (merge_sort str_le alpn).

Section fingerprint.
Context (blake3_hex : str → str).

(** From the parsed fields to the identity: the server name, the normalized
    sets and their digest. *)
Definition hello_identity (legacy_version : Z) (cipher_suites : list Z) (compression : str)
    (extensions : gmap Z str) : result ClassificationError ClientHelloIdentity :=
  server_name ← match extensions !! 0%Z with
                | None => Ok None
                | Some payload => parse_server_name payload
                end;
  let suites := normalize_u16_values cipher_suites in
  let extension_types := normalize_u16_values (map_to_list extensions).*1 in
  groups ← parse_optional_u16_extension extensions 10;
  signatures ← parse_optional_u16_extension extensions 13;
  versions ← parse_supported_versions extensions;
  alpn ← parse_alpn extensions;
  let normalized := normalized_hello legacy_version suites compression extension_types groups signatures
                      versions alpn in
  Ok (mkClientHello server_name (bs "ch1:" ++ blake3_hex normalized)
        (bool_decide (is_Some (extensions !! ECH_EXTENSION)))).

Definition parse_client_hello (body : str) : result ClassificationError ClientHelloIdentity :=
  '(legacy_version, r) ← rd_u16 (TlsReader_new body);
  '(_, r) ← rd_take 32 r;
  '(_, r) ← vector_u8 r;
  '(suite_bytes, r) ← vector_u16 r;
  cipher_suites ← parse_u16_values suite_bytes;
  '(compression, r) ← vector_u8 r;
  if bool_decide (cipher_suites = []) || bool_decide (compression = []) then Err MalformedTls
  else
    '(extension_bytes, r) ← (if rd_is_empty r then Ok ([], r) else vector_u16 r);
    _ ← finish r;
    extensions ← parse_extensions extension_bytes;
    hello_identity legacy_version cipher_suites compression extensions.

Fixpoint classify_tls (fuel offset : nat) (handshake prefix : str) : classify_result :=
  match fuel with
  | O => Ok NeedMore
  | S fuel =>
      match slice_get prefix offset (offset + 5) with
      | Some [h0; h1; h2; h3; h4] =>
          if negb (bz h0 =? 22)%Z || negb (bz h1 =? 3)%Z || (4 <? bz h2)%Z then Err MalformedTls
          else
            let record_length := be16 h3 h4 in
            if (record_length =? 0)%Z || (MAX_TLS_RECORD_BYTES <? record_length)%Z then Err MalformedTls
            else
              let record_end := offset + 5 + Z.to_nat record_length in
              match slice_get prefix (offset + 5) record_end with
              | None => Ok NeedMore
              | Some fragment =>
                  let handshake := handshake ++ fragment in
                  if bool_decide (MAX_CLASSIFICATION_BYTES < length handshake) then Err PrefixTooLarge
                  else match handshake with
                  | h0 :: h1 :: h2 :: h3 :: rest =>
                      if negb (bz h0 =? 1)%Z then Err MalformedTls
                      else
                        let body_length := (bz h1 * 65536 + bz h2 * 256 + bz h3)%Z in
                        if (Z.of_nat MAX_CLASSIFICATION_BYTES <? 4 + body_length)%Z then Err PrefixTooLarge
                        else match slice_get rest 0 (Z.to_nat body_length) with
                        | Some body =>
                            (λ identity, Classified (TlsClientHello identity)) <$> parse_client_hello body
                        | None => classify_tls fuel record_end handshake prefix
                        end
                  | _ => classify_tls fuel record_end handshake prefix
                  end
              end
      | _ => Ok NeedMore
      end
  end.

Definition classify_tcp_prefix (prefix : str) : classify_result :=
  let bounded := default prefix (slice_get prefix 0 MAX_CLASSIFICATION_BYTES) in
  progress ← match bounded with
             | b :: _ => if (bz b =? 22)%Z then classify_tls (length bounded) 0 [] bounded
                         else classify_http_or_other bounded
             | [] => classify_http_or_other bounded
             end;
  match progress with
  | NeedMore => if bool_decide (MAX_CLASSIFICATION_BYTES ≤ length prefix) then Err PrefixTooLarge else Ok NeedMore
  | _ => Ok progress
  end.
End fingerprint.

(** ** Lemmas *)

Lemma slice_get_app_le {A} (l k : list A) a b : b ≤ length l → slice_get (l ++ k) a b = slice_get l a b.
Proof.
  intros Hb. destruct (slice_get l a b) eqn:E; [by apply slice_get_app|].
  unfold slice_get in *. rewrite length_app. case_bool_decide; [done|].
  by rewrite bool_decide_false by lia.
Qed.

Lemma starts_with_app_l (p l k : str) : starts_with p l = true → starts_with p (l ++ k) = true.
Proof.
  unfold starts_with. rewrite !bool_decide_eq_true. intros. by apply prefix_app_r.
Qed.

(** Two strings neither of which is a prefix of the other have no common
    extension. *)
Lemma incomparable_app (q p k : str) :
  starts_with q p = false → starts_with p q = false →
  starts_with q (p ++ k) = false ∧ starts_with (p ++ k) q = false.
Proof.
  unfold starts_with. rewrite !bool_decide_eq_false. intros H1 H2. split.
  - intros H. destruct (prefix_weak_total q p (p ++ k)); [done|by apply prefix_app_r|done..].
  - intros H. apply H2. etrans; [|exact H]. by apply prefix_app_r.
Qed.

Lemma find_bytes_fits needle s i : find_bytes needle s = Some i → i + length needle ≤ length s.
Proof.
  intros [Hp Hi]%find_bytes_Some. apply prefix_length in Hp. rewrite length_drop in Hp. lia.
Qed.

Lemma forallb_take_false {A} (f : A → bool) p k m :
  length p ≤ m → forallb f p = false → forallb f (take m (p ++ k)) = false.
Proof. intros Hm Hf. rewrite take_app_ge by done. by rewrite forallb_app, Hf. Qed.

(** A prefix without a space that is no method stays no method. *)
Lemma no_method_app p k :
  position (byte_is x20) p = None →
  bool_decide (length p ≤ MAX_HTTP_METHOD_BYTES) && forallb is_token_byte p = false →
  match position (byte_is x20) (p ++ k) with
  | None => bool_decide (length (p ++ k) ≤ MAX_HTTP_METHOD_BYTES) && forallb is_token_byte (p ++ k) = false
  | Some m => bool_decide (MAX_HTTP_METHOD_BYTES < m) || negb (forallb is_token_byte (take m (p ++ k))) = true
  end.
Proof.
  intros Hp Hbad. apply andb_false_iff in Hbad.
  destruct (position (byte_is x20) (p ++ k)) as [m|] eqn:E.
  - assert (length p ≤ m) as Hm.
    { destruct (decide (length p ≤ m)) as [|Hlt]; [done|exfalso].
      apply position_Some in E as (l1 & x & l2 & Heq & <- & Hx & _).
      apply position_None in Hp. rewrite Forall_lookup in Hp. specialize (Hp (length l1) x).
      rewrite Hp in Hx; [done|]. rewrite <- (lookup_app_l p k) by lia. by rewrite Heq, list_lookup_middle. }
    apply orb_true_iff. destruct Hbad as [Hl|Ht].
    + left. apply bool_decide_eq_false in Hl. apply bool_decide_eq_true. lia.
    + right. by rewrite forallb_take_false.
  - apply andb_false_iff. rewrite length_app, forallb_app. destruct Hbad as [Hl|Ht].
    + left. apply bool_decide_eq_false in Hl. apply bool_decide_eq_false. lia.
    + right. by rewrite Ht.
Qed.

Lemma classify_http_stable p k :
  classify_http_or_other p ≠ Ok NeedMore →
  classify_http_or_other (p ++ k) = classify_http_or_other p.
Proof.
  destruct p as [|first p]; [done|]. cbn [app]. cbv beta iota delta [classify_http_or_other].
  change (first :: p ++ k) with ((first :: p) ++ k). generalize (first :: p). intros q.
  destruct (starts_with HTTP2_PREFACE q) eqn:H1; [by rewrite starts_with_app_l|].
  destruct (starts_with q HTTP2_PREFACE) eqn:H2; [done|].
  destruct (incomparable_app _ _ k H1 H2) as [-> ->].
  destruct (negb (is_ascii_uppercase first)); [done|].
  destruct (position (byte_is x20) q) as [m|] eqn:Hm.
  - rewrite (position_app _ _ k m Hm). apply position_lt in Hm. rewrite take_app_le by lia.
    destruct (_ || negb _); [done|].
    destruct (find_bytes [x0d; x0a] q) as [i|] eqn:Hi; [|done].
    rewrite (find_bytes_app _ _ k i Hi). apply find_bytes_fits in Hi. simpl in Hi.
    rewrite take_app_le by lia. destruct (negb (valid_request_line _)); [done|].
    destruct (find_bytes [x0d; x0a; x0d; x0a] q) as [j|] eqn:Hj; [|done].
    rewrite (find_bytes_app _ _ k j Hj). apply find_bytes_fits in Hj. simpl in Hj.
    by rewrite slice_get_app_le by lia.
  - pose proof (no_method_app q k Hm) as Hno.
    destruct (bool_decide (length q ≤ _) && _) eqn:Hb; [done|]. specialize (Hno eq_refl). intros _.
    destruct (position (byte_is x20) (q ++ k)) as [m|]; [|by rewrite Hno].
    by rewrite <- orb_assoc, Hno, orb_true_r.
Qed.

Section tls_lemmas.
Context (blake3_hex : str → str).

Lemma classify_tls_stable fuel fuel' offset handshake p k :
  fuel ≤ fuel' → classify_tls blake3_hex fuel offset handshake p ≠ Ok NeedMore →
  classify_tls blake3_hex fuel' offset handshake (p ++ k) = classify_tls blake3_hex fuel offset handshake p.
Proof.
  revert fuel' offset handshake. induction fuel as [|fuel IH]; intros fuel' offset handshake Hf; [done|].
  destruct fuel' as [|fuel']; [lia|]. cbn [classify_tls].
  destruct (slice_get p offset (offset + 5)) as [header|] eqn:E1; [|done].
  rewrite (slice_get_app _ k _ _ _ E1). apply slice_get_length in E1.
  destruct header as [|h0 [|h1 [|h2 [|h3 [|h4 [|]]]]]]; try done.
  destruct (_ || _); [done|]. destruct (_ || _); [done|].
  destruct (slice_get p (offset + 5) _) as [fragment|] eqn:E2; [|done].
  rewrite (slice_get_app _ k _ _ _ E2). destruct (bool_decide _); [done|].
  destruct (handshake ++ fragment) as [|b0 [|b1 [|b2 [|b3 rest]]]]; try (apply IH; lia).
  destruct (negb _); [done|]. destruct (_ <? _)%Z; [done|].
  destruct (slice_get rest 0 _); [done|]. apply IH. lia.
Qed.

(** The fuel is enough: more of it changes nothing. *)
Lemma classify_tls_fuel fuel extra offset handshake p :
  length p ≤ offset + fuel →
  classify_tls blake3_hex (fuel + extra) offset handshake p = classify_tls blake3_hex fuel offset handshake p.
Proof.
  revert offset handshake. induction fuel as [|fuel IH]; intros offset handshake Hf.
  { simpl. destruct extra; [done|]. cbn [classify_tls].
    destruct (slice_get p offset (offset + 5)) eqn:E; [|done].
    apply slice_get_Some in E as (_ & _ & ?). lia. }
  cbn [Nat.add classify_tls]. destruct (slice_get p offset (offset + 5)) as [header|] eqn:E1; [|done].
  destruct header as [|h0 [|h1 [|h2 [|h3 [|h4 [|]]]]]]; try done.
  destruct (_ || _); [done|]. destruct (_ || _); [done|].
  destruct (slice_get p (offset + 5) _) as [fragment|] eqn:E2; [|done].
  destruct (bool_decide _); [done|].
  destruct (handshake ++ fragment) as [|b0 [|b1 [|b2 [|b3 rest]]]]; try (apply IH; lia).
  destruct (negb _); [done|]. destruct (_ <? _)%Z; [done|].
  destruct (slice_get rest 0 _); [done|]. apply IH. lia.
Qed.

(** The bounded view of a longer prefix extends the bounded view, or is the
    same when the budget is used up. *)
Lemma bounded_app (p k : str) :
  let bounded l := default l (slice_get l 0 MAX_CLASSIFICATION_BYTES) in
  ∃ k', bounded (p ++ k) = bounded p ++ k' ∧ (MAX_CLASSIFICATION_BYTES ≤ length p → k' = []).
Proof.
  intros bounded. unfold bounded, slice_get. generalize MAX_CLASSIFICATION_BYTES as n. intros n.
  rewrite Nat.sub_0_r, !drop_0, length_app.
  destruct (decide (n ≤ length p)) as [Hle|Hgt].
  - rewrite !bool_decide_true by lia. exists []. simpl. rewrite app_nil_r, take_app_le by done. done.
  - rewrite (bool_decide_false (0 ≤ n ∧ n ≤ length p)) by lia. simpl.
    case_bool_decide.
    + exists (take (n - length p) k). simpl. rewrite take_app_ge by lia. split; [done|lia].
    + exists k. split; [done|lia].
Qed.

Lemma classify_stable p k :
  classify_tcp_prefix blake3_hex p ≠ Ok NeedMore →
  classify_tcp_prefix blake3_hex (p ++ k) = classify_tcp_prefix blake3_hex p.
Proof.
  unfold classify_tcp_prefix. destruct (bounded_app p k) as (k' & -> & Hk').
  set (b := default p _) in *. rewrite length_app.
  set (classify := λ b, match b with
    | c :: _ => if (bz c =? 22)%Z then classify_tls blake3_hex (length b) 0 [] b else classify_http_or_other b
    | [] => classify_http_or_other b end).
  change (match b with [] => _ | _ => _ end) with (classify b).
  change (match b ++ k' with [] => _ | _ => _ end) with (classify (b ++ k')).
  assert (classify b ≠ Ok NeedMore → classify (b ++ k') = classify b) as Hstable.
  { unfold classify. destruct b as [|c b']; [done|]. cbn [app].
    destruct (bz c =? 22)%Z; [|apply (classify_http_stable (c :: b'))].
    intros H. apply (classify_tls_stable _ _ 0 [] (c :: b')); [simpl; rewrite length_app; lia|done]. }
  destruct (classify b) as [[|proto]|e] eqn:E; cbn [mbind result_bind].
  - case_bool_decide as Hlen; [|done]. intros _. rewrite Hk', app_nil_r, E by done. cbn [mbind result_bind].
    rewrite bool_decide_true by lia. done.
  - intros _. by rewrite Hstable.
  - intros _. by rewrite Hstable.
Qed.
End tls_lemmas.

(** *** Loops over a reader *)

Lemma rd_take_Ok n r v r' :
  rd_take n r = Ok (v, r') →
  rd_bytes r' = rd_bytes r ∧ rd_offset r' = rd_offset r + n ∧ rd_offset r' ≤ length (rd_bytes r) ∧ length v = n.
Proof.
  unfold rd_take. intros H. inv_ok. simpl. pose proof (slice_get_length _ _ _ _ H).
  apply slice_get_Some in H as (_ & _ & ?). split_and!; [done|done|done|lia].
Qed.

Definition advances (r r' : TlsReader) : Prop :=
  rd_bytes r' = rd_bytes r ∧ rd_offset r < rd_offset r' ∧ rd_offset r' ≤ length (rd_bytes r).

(** A body that consumes a byte per iteration never runs out of fuel. *)
Lemma read_loop_fuel {A} (body : A → TlsReader → result ClassificationError (A * TlsReader)) fuel extra acc r :
  (∀ acc r acc' r', body acc r = Ok (acc', r') → advances r r') →
  rd_offset r ≤ length (rd_bytes r) → length (rd_bytes r) ≤ rd_offset r + fuel →
  read_loop body (fuel + extra) acc r = read_loop body fuel acc r.
Proof.
  intros Hadv. revert acc r. induction fuel as [|fuel IH]; intros acc r Hle Hf.
  - assert (rd_is_empty r = true) as He by (apply Nat.eqb_eq; lia).
    destruct extra; simpl; by rewrite He.
  - simpl. destruct (rd_is_empty r); [done|]. destruct (body acc r) as [[acc' r']|] eqn:E; [|done].
    simpl. apply Hadv in E as (Hb & ? & ?). apply IH; rewrite Hb; lia.
Qed.

(** *** Encoded ClientHellos *)

(** A ClientHello as a client writes it. *)
Record Hello := mkHello {
  h_legacy : Z;
  h_random : str;
  h_session : str;
  h_suites : list Z;
  h_compression : str;
  h_extensions : list (Z * str);
}.

Definition vec8 (x : str) : str := be_bytes 1 (Z.of_nat (length x)) ++ x.
Definition vec16 (x : str) : str := be_bytes 2 (Z.of_nat (length x)) ++ x.
Definition encode_extension (e : Z * str) : str := be_bytes 2 e.1 ++ vec16 e.2.
Definition encode_hello (h : Hello) : str :=
  be_bytes 2 (h_legacy h) ++ h_random h ++ vec8 (h_session h) ++ vec16 (h_suites h ≫= be_bytes 2) ++
  vec8 (h_compression h) ++ vec16 (h_extensions h ≫= encode_extension).

Definition hello_wf (h : Hello) : Prop :=
  is_u16 (h_legacy h) ∧ length (h_random h) = 32 ∧ (length (h_session h) < 256) ∧
  (h_suites h ≠ [] ∧ Forall is_u16 (h_suites h) ∧ Z.of_nat (2 * length (h_suites h)) ≤ u16_max)%Z ∧
  (h_compression h ≠ [] ∧ length (h_compression h) < 256) ∧
  (Forall (λ e, is_u16 e.1 ∧ Z.of_nat (length e.2) ≤ u16_max) (h_extensions h) ∧ NoDup (h_extensions h).*1 ∧
   Z.of_nat (length (h_extensions h ≫= encode_extension)) ≤ u16_max)%Z.

Definition rest_is (r : TlsReader) (rest : str) : Prop :=
  rd_offset r ≤ length (rd_bytes r) ∧ drop (rd_offset r) (rd_bytes r) = rest.

Lemma rest_is_new bytes : rest_is (TlsReader_new bytes) bytes.
Proof. split; simpl; [lia|done]. Qed.

Lemma rest_is_empty r rest : rest_is r rest → rd_is_empty r = bool_decide (rest = []).
Proof.
  intros [Hle <-]. unfold rd_is_empty. apply eq_true_iff_eq. rewrite Nat.eqb_eq, bool_decide_eq_true.
  split; [intros ->; apply drop_all|]. intros H%(f_equal length). rewrite length_drop in H. simpl in H. lia.
Qed.

Lemma rd_take_at r x rest n :
  rest_is r (x ++ rest) → length x = n → ∃ r', rd_take n r = Ok (x, r') ∧ rest_is r' rest.
Proof.
  intros [Hle Hd] <-. unfold rd_take, slice_get.
  assert (length (drop (rd_offset r) (rd_bytes r)) = length x + length rest) as Hl
    by (by rewrite Hd, length_app).
  rewrite length_drop in Hl. rewrite bool_decide_true by lia. cbn [ok_or mbind result_bind].
  replace (rd_offset r + length x - rd_offset r) with (length x) by lia. rewrite Hd, take_app_length.
  eexists. split; [done|]. split; simpl; [lia|]. by rewrite <- drop_drop, Hd, drop_app_length.
Qed.

Lemma bz_mod z : bz (byte_of_Z z) = (z mod 256)%Z.
Proof. apply bz_byte_of_Z. Qed.

Lemma be16_bytes v : is_u16 v → ∃ a b, be_bytes 2 v = [a; b] ∧ be16 a b = v.
Proof.
  intros Hv. do 2 eexists. split; [reflexivity|]. unfold be16. rewrite !bz_mod. cbn.
  unfold is_u16, u16_max in Hv. rewrite Z.div_1_r.
  change (Z.pow_pos 256 1) with 256%Z. Z.to_euclidean_division_equations; lia.
Qed.

Lemma rd_u16_at r v rest : is_u16 v → rest_is r (be_bytes 2 v ++ rest) → ∃ r', rd_u16 r = Ok (v, r') ∧ rest_is r' rest.
Proof.
  intros Hv Hr. destruct (rd_take_at r _ rest 2 Hr eq_refl) as (r' & E & Hr'). exists r'. split; [|done].
  unfold rd_u16. rewrite E. cbn [mbind result_bind].
  destruct (be16_bytes v Hv) as (a & b & -> & ->). done.
Qed.

Lemma vector_u16_at r x rest :
  (Z.of_nat (length x) ≤ u16_max)%Z → rest_is r (vec16 x ++ rest) →
  ∃ r', vector_u16 r = Ok (x, r') ∧ rest_is r' rest.
Proof.
  intros Hx Hr. unfold vec16 in Hr. rewrite <- app_assoc in Hr.
  destruct (rd_u16_at r _ _ (conj (Nat2Z.is_nonneg _) Hx) Hr) as (r1 & E1 & Hr1).
  destruct (rd_take_at r1 x rest (length x) Hr1 eq_refl) as (r2 & E2 & Hr2).
  exists r2. split; [|done]. unfold vector_u16. rewrite E1. cbn [mbind result_bind]. by rewrite Nat2Z.id.
Qed.

Lemma vector_u8_at r x rest :
  length x < 256 → rest_is r (vec8 x ++ rest) → ∃ r', vector_u8 r = Ok (x, r') ∧ rest_is r' rest.
Proof.
  intros Hx Hr. unfold vec8 in Hr. rewrite <- app_assoc in Hr.
  destruct (rd_take_at r _ _ 1 Hr eq_refl) as (r1 & E1 & Hr1).
  destruct (rd_take_at r1 x rest (length x) Hr1 eq_refl) as (r2 & E2 & Hr2).
  exists r2. split; [|done]. unfold vector_u8, rd_u8. rewrite E1. cbn [mbind result_bind be_bytes].
  rewrite bz_mod. cbn [Z.of_nat]. rewrite Z.pow_0_r, Z.div_1_r, Z.mod_small by lia. by rewrite Nat2Z.id.
Qed.

Lemma u16_chunks_bytes vs : Forall is_u16 vs → u16_chunks (vs ≫= be_bytes 2) = vs.
Proof.
  induction 1 as [|v vs Hv _ IH]; [done|]. cbn [mbind list_bind].
  destruct (be16_bytes v Hv) as (a & b & -> & Hab). cbn [app u16_chunks]. by rewrite Hab, IH.
Qed.

Lemma u16_bytes_length vs : length (vs ≫= be_bytes 2) = 2 * length vs.
Proof. induction vs as [|v vs IH]; [done|]. cbn [mbind list_bind]. rewrite length_app, IH. simpl. lia. Qed.

Lemma parse_u16_bytes vs : Forall is_u16 vs → parse_u16_values (vs ≫= be_bytes 2) = Ok vs.
Proof.
  intros H. unfold parse_u16_values. rewrite u16_bytes_length, u16_chunks_bytes by done.
  by rewrite Nat.even_mul.
Qed.

(** Extensions are read back into a map with exactly the encoded pairs. *)
Lemma read_extensions exts fuel m r :
  Forall (λ e, is_u16 e.1 ∧ Z.of_nat (length e.2) ≤ u16_max)%Z exts → NoDup exts.*1 →
  (∀ k, k ∈ exts.*1 → m !! k = None) →
  rest_is r (exts ≫= encode_extension) → length (exts ≫= encode_extension) ≤ fuel →
  ∃ m', read_loop extension_step fuel m r = Ok m' ∧
    ∀ k p, m' !! k = Some p ↔ (k, p) ∈ exts ∨ m !! k = Some p.
Proof.
  revert fuel m r. induction exts as [|[k p] exts IH]; intros fuel m r Hwf Hnd Hm Hr Hf.
  { exists m. split; [|set_solver]. destruct fuel; simpl; by rewrite (rest_is_empty _ _ Hr). }
  cbn [mbind list_bind] in Hr, Hf. apply Forall_cons in Hwf as [[Hk Hp] Hwf]. simpl in Hk, Hp.
  apply NoDup_cons in Hnd as [Hni Hnd]. rewrite length_app in Hf.
  assert (4 ≤ length (encode_extension (k, p))) by (unfold encode_extension, vec16; rewrite !length_app; simpl; lia).
  destruct fuel as [|fuel]; [lia|]. cbn [read_loop]. rewrite (rest_is_empty _ _ Hr).
  rewrite bool_decide_false by (unfold encode_extension; simpl; discriminate).
  unfold encode_extension in Hr. cbn [fst snd] in Hr. rewrite <- app_assoc in Hr.
  destruct (rd_u16_at r k _ Hk Hr) as (r1 & E1 & Hr1).
  unfold vec16 in Hr1. rewrite <- app_assoc in Hr1.
  destruct (rd_u16_at r1 _ _ (conj (Nat2Z.is_nonneg _) Hp) Hr1) as (r2 & E2 & Hr2).
  destruct (rd_take_at r2 p _ (length p) Hr2 eq_refl) as (r3 & E3 & Hr3).
  unfold extension_step. rewrite E1. cbn [mbind result_bind]. rewrite E2. cbn [mbind result_bind].
  rewrite Nat2Z.id, E3. cbn [mbind result_bind]. rewrite (Hm k) by (left).
  rewrite bool_decide_false by (intros [? ?]; done). cbn [mbind result_bind].
  destruct (IH fuel (<[k := p]> m) r3) as (m' & E & Hm'); [done|done| |done|lia|].
  { intros k' Hk'. rewrite lookup_insert_ne by (intros ->; done). apply Hm. by right. }
  exists m'. split; [exact E|]. intros k' p'. rewrite Hm', elem_of_cons, lookup_insert_Some.
  assert (m !! k = None) as Hmk by (apply Hm; left).
  split; [intros [?|[[-> ->]|[? ?]]]; auto|].
  intros [[Heq|?]|Hold]; [simplify_eq; auto|auto|]. right. right. split; [|done]. congruence.
Qed.

Section hello_lemmas.
Context (blake3_hex : str → str).

Lemma parse_client_hello_encode h :
  hello_wf h → ∃ m, (∀ k p, m !! k = Some p ↔ (k, p) ∈ h_extensions h) ∧
    parse_client_hello blake3_hex (encode_hello h)
    = hello_identity blake3_hex (h_legacy h) (h_suites h) (h_compression h) m.
Proof.
  intros (Hlegacy & Hrandom & Hsession & (Hsne & Hsuites & Hslen) & (Hcne & Hcomp) & (Hexts & Hnd & Helen)).
  pose proof (rest_is_new (encode_hello h)) as Hr. unfold encode_hello in Hr at 2.
  destruct (rd_u16_at _ _ _ Hlegacy Hr) as (r1 & E1 & Hr1).
  destruct (rd_take_at _ _ _ _ Hr1 Hrandom) as (r2 & E2 & Hr2).
  destruct (vector_u8_at _ _ _ Hsession Hr2) as (r3 & E3 & Hr3).
  destruct (vector_u16_at r3 (h_suites h ≫= be_bytes 2) _ ltac:(rewrite u16_bytes_length; done) Hr3)
    as (r4 & E4 & Hr4).
  destruct (vector_u8_at _ _ _ Hcomp Hr4) as (r5 & E5 & Hr5).
  rewrite <- (app_nil_r (vec16 _)) in Hr5.
  destruct (vector_u16_at r5 _ _ Helen Hr5) as (r6 & E6 & Hr6).
  destruct (read_extensions (h_extensions h) (length (h_extensions h ≫= encode_extension)) ∅
    (TlsReader_new (h_extensions h ≫= encode_extension)) Hexts Hnd) as (m & E7 & Hm);
    [done|apply rest_is_new|lia|].
  exists m. split; [intros k p; rewrite Hm, lookup_empty; naive_solver|].
  unfold parse_client_hello. rewrite E1. cbn [mbind result_bind]. rewrite E2. cbn [mbind result_bind].
  rewrite E3. cbn [mbind result_bind]. rewrite E4. cbn [mbind result_bind].
  rewrite parse_u16_bytes by done. cbn [mbind result_bind]. rewrite E5. cbn [mbind result_bind].
  rewrite !bool_decide_false by done. cbn [orb]. rewrite (rest_is_empty _ _ Hr5), bool_decide_false
    by (intros H%(f_equal length); unfold vec16 in H; rewrite !length_app in H; simpl in H; lia).
  rewrite E6. cbn [mbind result_bind]. unfold finish. rewrite (rest_is_empty _ _ Hr6).
  cbn [mbind result_bind]. unfold parse_extensions, read_all. by rewrite E7.
Qed.

(** *** Sets, order and GREASE *)

Lemma normalize_same l1 l2 :
  (∀ v, is_grease v = false → v ∈ l1 ↔ v ∈ l2) → normalize_u16_values l1 = normalize_u16_values l2.
Proof.
  intros H. unfold normalize_u16_values, btree_set. do 2 f_equal. apply set_eq. intros v.
  rewrite !elem_of_list_to_set, !list_elem_of_filter. naive_solver.
Qed.

Definition byte_lt (a b : byte) : Prop := (bz a < bz b)%Z.

Lemma dedup_cons a c l : dedup (a :: c :: l) = if bool_decide (a = c) then dedup (c :: l) else a :: dedup (c :: l).
Proof. done. Qed.

Lemma elem_of_dedup b l : b ∈ dedup l ↔ b ∈ l.
Proof.
  induction l as [|a l IH]; [done|]. destruct l as [|c l]; [done|]. rewrite dedup_cons.
  case_bool_decide as Ha; [subst; rewrite IH, !elem_of_cons; naive_solver|].
  by rewrite elem_of_cons, IH, (elem_of_cons (c :: l)).
Qed.

Lemma dedup_sorted l : StronglySorted byte_le l → StronglySorted byte_lt (dedup l).
Proof.
  induction 1 as [|a l Hs IH Ha]; [constructor|]. destruct l as [|c l]; [repeat constructor|].
  rewrite dedup_cons. case_bool_decide as Hac; [done|]. constructor; [done|].
  apply Forall_forall. intros x Hx. rewrite elem_of_dedup in Hx. apply Forall_cons in Ha as [Hac' _].
  apply StronglySorted_inv in Hs as [_ Hc]. unfold byte_le, byte_lt in *.
  assert (bz a ≠ bz c) by (intros E; apply Hac; by apply bz_inj).
  apply elem_of_cons in Hx as [->|Hx]; [lia|]. rewrite Forall_forall in Hc. specialize (Hc x Hx). lia.
Qed.

Lemma byte_lt_sorted_NoDup l : StronglySorted byte_lt l → NoDup l.
Proof.
  induction 1 as [|a l Hs IH Ha]; constructor; [|done]. intros Hin.
  rewrite Forall_forall in Ha. specialize (Ha a Hin). unfold byte_lt in Ha. lia.
Qed.

#[local] Instance byte_le_total : Total byte_le.
Proof. intros a b. unfold byte_le. lia. Qed.
#[local] Instance byte_le_trans : Transitive byte_le.
Proof. intros a b c. unfold byte_le. lia. Qed.
#[local] Instance byte_lt_antisymm : AntiSymm (=) byte_lt.
Proof. intros a b. unfold byte_lt. lia. Qed.

Lemma dedup_same c1 c2 :
  (∀ b, b ∈ c1 ↔ b ∈ c2) → dedup (merge_sort byte_le c1) = dedup (merge_sort byte_le c2).
Proof.
  intros H. pose proof (dedup_sorted _ (StronglySorted_merge_sort byte_le c1)) as H1.
  pose proof (dedup_sorted _ (StronglySorted_merge_sort byte_le c2)) as H2.
  apply (StronglySorted_unique byte_lt); [done|done|]. apply NoDup_Permutation; [by apply byte_lt_sorted_NoDup..|].
  intros b. rewrite !elem_of_dedup, !merge_sort_Permutation. apply H.
Qed.

Lemma hello_identity_same legacy s1 s2 c1 c2 (m1 m2 : gmap Z str) :
  (∀ v, is_grease v = false → v ∈ s1 ↔ v ∈ s2) → (∀ b, b ∈ c1 ↔ b ∈ c2) →
  (∀ k, is_grease k = false → m1 !! k = m2 !! k) →
  hello_identity blake3_hex legacy s1 c1 m1 = hello_identity blake3_hex legacy s2 c2 m2.
Proof.
  intros Hs Hc Hm. unfold hello_identity, parse_optional_u16_extension, parse_supported_versions, parse_alpn.
  rewrite !Hm by reflexivity. unfold normalized_hello.
  rewrite (normalize_same s1 s2 Hs), (dedup_same c1 c2 Hc).
  rewrite (normalize_same (map_to_list m1).*1 (map_to_list m2).*1); [done|].
  intros v Hv. assert (∀ m : gmap Z str, v ∈ (map_to_list m).*1 ↔ is_Some (m !! v)) as Hkeys.
  { intros m. rewrite list_elem_of_fmap. split.
    - intros ([k p] & -> & Hin%elem_of_map_to_list). simpl. eauto.
    - intros [p Hp]. exists (v, p). split; [done|]. by apply elem_of_map_to_list. }
  by rewrite !Hkeys, Hm.
Qed.

(** *** Fragmentation over records *)

Definition record (v : byte) (fragment : str) : str :=
  [x16; x03; v] ++ be_bytes 2 (Z.of_nat (length fragment)) ++ fragment.
Definition handshake_message (body : str) : str := x01 :: be_bytes 3 (Z.of_nat (length body)) ++ body.

Lemma be24_bytes n : (0 ≤ n < 16777216)%Z →
  ∃ a b c, be_bytes 3 n = [a; b; c] ∧ (bz a * 65536 + bz b * 256 + bz c)%Z = n.
Proof.
  intros Hn. do 3 eexists. split; [reflexivity|]. rewrite !bz_mod. cbn.
  change (Z.pow_pos 256 2) with 65536%Z. change (Z.pow_pos 256 1) with 256%Z. rewrite Z.div_1_r.
  Z.to_euclidean_division_equations; lia.
Qed.

Lemma record_slices done_ v f rest :
  (0 < Z.of_nat (length f) ≤ MAX_TLS_RECORD_BYTES)%Z →
  let p := done_ ++ record v f ++ rest in
  ∃ a b, slice_get p (length done_) (length done_ + 5) = Some [x16; x03; v; a; b] ∧
    be16 a b = Z.of_nat (length f) ∧
    slice_get p (length done_ + 5) (length done_ + 5 + length f) = Some f.
Proof.
  intros Hf p. destruct (be16_bytes (Z.of_nat (length f))) as (a & b & E & Hab).
  { unfold is_u16, u16_max, MAX_TLS_RECORD_BYTES in *. lia. }
  exists a, b. unfold p, record. rewrite E. unfold slice_get. rewrite !length_app. simpl.
  rewrite !bool_decide_true by lia. split_and!; [|done|].
  - replace (length done_ + 5 - length done_) with 5 by lia. by rewrite drop_app_length.
  - replace (length done_ + 5 + length f - (length done_ + 5)) with (length f) by lia.
    rewrite drop_app_ge by lia. replace (length done_ + 5 - length done_) with 5 by lia. simpl.
    by rewrite drop_0, take_app_length.
Qed.

(** What one loop iteration does with a handshake prefix. *)
Lemma handshake_header (body hs more : str) (y : classify_result) :
  (Z.of_nat (4 + length body) ≤ 65536)%Z → handshake_message body = hs ++ more →
  match hs with
  | h0 :: h1 :: h2 :: h3 :: rest =>
      if negb (bz h0 =? 1)%Z then Err MalformedTls
      else
        let body_length := (bz h1 * 65536 + bz h2 * 256 + bz h3)%Z in
        if (Z.of_nat MAX_CLASSIFICATION_BYTES <? 4 + body_length)%Z then Err PrefixTooLarge
        else match slice_get rest 0 (Z.to_nat body_length) with
        | Some body => (λ identity, Classified (TlsClientHello identity)) <$> parse_client_hello blake3_hex body
        | None => y
        end
  | _ => y
  end = if bool_decide (more = [])
        then (λ identity, Classified (TlsClientHello identity)) <$> parse_client_hello blake3_hex body else y.
Proof.
  intros Hb Hm. unfold handshake_message in Hm.
  destruct (be24_bytes (Z.of_nat (length body))) as (a & b & c & E & Habc); [lia|]. rewrite E in Hm.
  destruct hs as [|h0 [|h1 [|h2 [|h3 rest]]]]; simpl in Hm;
    try (destruct more; [by simplify_eq|done]).
  simplify_eq.
  rewrite Habc. cbn [negb Z.eqb]. change (negb (bz x01 =? 1)%Z) with false. cbv iota zeta.
  rewrite (proj2 (Z.ltb_ge _ _)) by (unfold MAX_CLASSIFICATION_BYTES; lia).
  rewrite Nat2Z.id. unfold slice_get. rewrite length_app, Nat.sub_0_r, drop_0.
  case_bool_decide as H1; case_bool_decide as H2.
  - subst. by rewrite app_nil_r, take_ge by lia.
  - destruct more; [done|]. simpl in H1. lia.
  - subst. simpl in H1. lia.
  - done.
Qed.

Lemma classify_tls_records v body frags fuel done_ hs :
  (bz v ≤ 4)%Z → (Z.of_nat (4 + length body) ≤ 65536)%Z →
  Forall (λ f, 0 < Z.of_nat (length f) ≤ MAX_TLS_RECORD_BYTES)%Z frags → frags ≠ [] →
  hs ++ concat frags = handshake_message body → length frags ≤ fuel →
  classify_tls blake3_hex fuel (length done_) hs (done_ ++ concat (record v <$> frags))
  = (λ identity, Classified (TlsClientHello identity)) <$> parse_client_hello blake3_hex body.
Proof.
  intros Hv Hbody Hfrags Hne. revert fuel done_ hs.
  induction Hfrags as [|f frags Hf Hfrags IH]; intros fuel done_ hs Hmsg Hfuel; [done|].
  destruct fuel as [|fuel]; [simpl in Hfuel; lia|].
  change (concat (record v <$> f :: frags)) with (record v f ++ concat (record v <$> frags)).
  destruct (record_slices done_ v f (concat (record v <$> frags)) Hf) as (a & b & E1 & Hab & E2).
  cbn [classify_tls]. rewrite E1. change (negb (bz x16 =? 22)%Z) with false.
  change (negb (bz x03 =? 3)%Z) with false. rewrite (proj2 (Z.ltb_ge 4 (bz v))) by lia. cbn [orb].
  rewrite Hab. rewrite (proj2 (Z.eqb_neq _ _)), (proj2 (Z.ltb_ge _ _)) by lia. cbn [orb].
  rewrite Nat2Z.id, E2. cbn [concat] in Hmsg. rewrite app_assoc in Hmsg.
  rewrite bool_decide_false.
  2:{ apply (f_equal length) in Hmsg. unfold handshake_message in Hmsg. rewrite length_app in Hmsg. simpl in Hmsg.
      unfold MAX_CLASSIFICATION_BYTES. lia. }
  rewrite (handshake_header body (hs ++ f) (concat frags)) by done.
  case_bool_decide as Hmore; [done|]. destruct frags as [|g frags]; [done|].
  replace (done_ ++ record v f ++ concat (record v <$> g :: frags))
    with ((done_ ++ record v f) ++ concat (record v <$> g :: frags)) by (by rewrite app_assoc).
  replace (length done_ + 5 + length f) with (length (done_ ++ record v f))
    by (unfold record; rewrite !length_app; simpl; lia).
  apply IH; [done|done|simpl in *; lia].
Qed.
End hello_lemmas.

Lemma bounded_small (p : str) n : length p ≤ n → default p (slice_get p 0 n) = p.
Proof.
  intros Hlen. unfold slice_get. case_bool_decide as H; [|done]. simpl. rewrite Nat.sub_0_r, drop_0. by apply take_ge.
Qed.

Lemma classify_records blake3_hex v body frags :
  (bz v ≤ 4)%Z → (Z.of_nat (4 + length body) ≤ 65536)%Z →
  Forall (λ f, 0 < Z.of_nat (length f) ≤ MAX_TLS_RECORD_BYTES)%Z frags →
  concat frags = handshake_message body →
  length (concat (record v <$> frags)) ≤ MAX_CLASSIFICATION_BYTES →
  classify_tcp_prefix blake3_hex (concat (record v <$> frags))
  = (λ identity, Classified (TlsClientHello identity)) <$> parse_client_hello blake3_hex body.
Proof.
  intros Hv Hbody Hfrags Hmsg Hlen. set (p := concat (record v <$> frags)) in *.
  assert (frags ≠ []) as Hne by (by intros ->).
  assert (length frags ≤ length p) as Hfuel.
  { unfold p. clear Hne Hlen p Hmsg. induction Hfrags as [|f frags Hf _ IH]; [done|].
    change (concat (record v <$> f :: frags)) with (record v f ++ concat (record v <$> frags)).
    rewrite length_app. unfold record at 1. rewrite length_app. cbn [length]. lia. }
  pose proof (classify_tls_records blake3_hex v body frags (length p) [] [] Hv Hbody Hfrags Hne Hmsg Hfuel) as Htls.
  cbn [app length] in Htls. fold p in Htls. unfold classify_tcp_prefix.
  rewrite (bounded_small p) by done.
  assert (∃ p', p = x16 :: p') as [p' Hp].
  { unfold p. destruct frags as [|f frags]; [done|]. by eexists. }
  rewrite Hp in *. change (bz x16 =? 22)%Z with true. cbv iota. rewrite Htls.
  by destruct (parse_client_hello blake3_hex body).
Qed.

(** ** Properties *)

(** Classification is stable: once a prefix is classified or refused,
    more bytes from the client never change the verdict, and by
    [MAX_CLASSIFICATION_BYTES] there is a verdict.  *)
Theorem classify_prefix_stable (blake3_hex : str → str) (prefix more : str) :
  (classify_tcp_prefix blake3_hex prefix ≠ Ok NeedMore →
     classify_tcp_prefix blake3_hex (prefix ++ more) = classify_tcp_prefix blake3_hex prefix) ∧
  (MAX_CLASSIFICATION_BYTES ≤ length prefix → classify_tcp_prefix blake3_hex prefix ≠ Ok NeedMore).
Proof.
  split; [apply classify_stable|]. intros Hlen. unfold classify_tcp_prefix.
  destruct (match default prefix _ with [] => _ | _ => _ end) as [[|proto]|e]; cbn [mbind result_bind]; [|done..].
  by rewrite bool_decide_true.
Qed.

Lemma classify_prefix_stable_witness :
  classify_tcp_prefix id (bs "SSH-2.0-OpenSSH" ++ bs " 9.6") = Ok (Classified OtherTcp) ∨
  classify_tcp_prefix id (bs "ssh" ++ bs " x") = classify_tcp_prefix id (bs "ssh").
Proof. right. apply (classify_prefix_stable id (bs "ssh") (bs " x")). vm_compute. discriminate. Defined.

(** The fingerprint identifies a client, not one connection: two
    well-formed ClientHellos that offer the same cipher suites, compression
    methods and extensions up to order, repetition and GREASE values are
    given the same identity, whatever their randoms and session identifiers.  *)
Theorem client_hello_fingerprint_invariant (blake3_hex : str → str) (h1 h2 : Hello) :
  hello_wf h1 → hello_wf h2 → h_legacy h1 = h_legacy h2 →
  (∀ v, is_grease v = false → v ∈ h_suites h1 ↔ v ∈ h_suites h2) →
  (∀ b, b ∈ h_compression h1 ↔ b ∈ h_compression h2) →
  (∀ k p, is_grease k = false → (k, p) ∈ h_extensions h1 ↔ (k, p) ∈ h_extensions h2) →
  parse_client_hello blake3_hex (encode_hello h1) = parse_client_hello blake3_hex (encode_hello h2).
Proof.
  intros Hw1 Hw2 Hl Hs Hc He.
  destruct (parse_client_hello_encode blake3_hex h1 Hw1) as (m1 & Hm1 & ->).
  destruct (parse_client_hello_encode blake3_hex h2 Hw2) as (m2 & Hm2 & ->).
  rewrite Hl. apply hello_identity_same; [done..|]. intros k Hk. apply option_eq. intros p.
  by rewrite Hm1, Hm2, He.
Qed.

Definition sample_hello (random : byte) (suites : list Z) (exts : list (Z * str)) : Hello :=
  mkHello 771 (replicate 32 random) [] suites [x00] exts.

Lemma sample_hello_wf random suites exts :
  suites ≠ [] → forallb (λ s, (0 <=? s) && (s <=? 65535))%Z suites = true → length suites ≤ 10 →
  forallb (λ e, (0 <=? e.1) && (e.1 <=? 65535) && (Z.of_nat (length e.2) <=? 65535))%Z exts = true →
  bool_decide (NoDup exts.*1) = true → (Z.of_nat (length (exts ≫= encode_extension)) <=? 65535)%Z = true →
  hello_wf (sample_hello random suites exts).
Proof.
  intros Hne Hs Hlen He Hnd Hb. apply bool_decide_eq_true in Hnd. apply Z.leb_le in Hb.
  rewrite forallb_forall in Hs, He. unfold hello_wf, sample_hello, is_u16, u16_max. cbn [h_legacy h_random h_session h_suites h_compression h_extensions].
  split_and!; try done; try lia.
  - simpl. lia.
  - apply Forall_forall. intros x Hx%list_elem_of_In. specialize (Hs x Hx). breflect. lia.
  - simpl. lia.
  - apply Forall_forall. intros x Hx%list_elem_of_In. specialize (He x Hx). breflect. lia.
Qed.

Lemma client_hello_fingerprint_invariant_witness :
  parse_client_hello id (encode_hello (sample_hello x01 [4865; 4866; 2570]%Z [(43%Z, [x02; x03; x04]); (2570%Z, [])]))
  = parse_client_hello id (encode_hello (sample_hello x02 [4866; 4865]%Z [(43%Z, [x02; x03; x04])])).
Proof.
  apply (client_hello_fingerprint_invariant id);
    [apply sample_hello_wf; [discriminate|reflexivity|simpl; lia|reflexivity..]
    |apply sample_hello_wf; [discriminate|reflexivity|simpl; lia|reflexivity..]
    |reflexivity| |reflexivity|].
  - intros v Hv. simpl. rewrite !elem_of_cons. split; [intros [->|[->|[->|H]]]|intros [->|[->|H]]]; auto. done.
  - intros k p Hk. simpl. rewrite !elem_of_cons. split; [intros [E|[E|H]]|intros [E|H]]; auto.
    exfalso. injection E as -> _. done.
Defined.

(** The verdict on a ClientHello does not depend on how it is cut into
    TLS records or on what follows it: any records whose fragments
    concatenate to the handshake message give the identity parsed from its
    body, or that parse's error.  *)
Theorem client_hello_fragmentation (blake3_hex : str → str) (v : byte) (body : str) (frags : list str) (more : str) :
  (bz v ≤ 4)%Z → (Z.of_nat (4 + length body) ≤ 65536)%Z →
  Forall (λ f, 0 < Z.of_nat (length f) ≤ MAX_TLS_RECORD_BYTES)%Z frags →
  concat frags = handshake_message body →
  length (concat (record v <$> frags)) ≤ MAX_CLASSIFICATION_BYTES →
  classify_tcp_prefix blake3_hex (concat (record v <$> frags) ++ more)
  = (λ identity, Classified (TlsClientHello identity)) <$> parse_client_hello blake3_hex body.
Proof.
  intros Hv Hbody Hfrags Hmsg Hlen. pose proof (classify_records blake3_hex v body frags Hv Hbody Hfrags Hmsg Hlen) as H.
  rewrite classify_stable; [done|]. rewrite H. by destruct (parse_client_hello blake3_hex body).
Qed.

Lemma client_hello_fragmentation_witness :
  let body := encode_hello (sample_hello x01 [4865]%Z []) in
  let m := handshake_message body in
  classify_tcp_prefix id (concat (record x01 <$> [take 2 m; drop 2 m]) ++ [x17])
  = (λ identity, Classified (TlsClientHello identity)) <$> parse_client_hello id body.
Proof.
  apply (client_hello_fragmentation id x01 (encode_hello (sample_hello x01 [4865]%Z [])));
    [vm_compute; discriminate|vm_compute; discriminate
    |repeat constructor; vm_compute; (reflexivity || discriminate)|vm_compute; reflexivity|].
  apply Nat.leb_le. vm_compute. reflexivity.
Defined.
