(* ===== verification/Route.v ===== *)
(** * Route authorization (crates/hiloop-interceptor/src/netns/route.rs)

    A transparent flow is admitted only after its visible identity is
    normalized, reconciled with the destination the socket was opened to and
    judged by the egress policy.  The DNS evidence is the argument [dns] (see
    the Dns file for its implementation). *)
From Stdlib Require Import Strings.Byte.
From S2P Require Import Prelude Text Net Identity Event Capture Egress Classifier.

(** [DnsAnswerEvidence::contains_unexpired] *)
Definition DnsAnswerEvidence := str → IpAddr → bool.
Definition NoDnsAnswerEvidence : DnsAnswerEvidence := λ _ _, false.

Inductive RoutingIdentitySource := FromHttpHost | FromTlsServerName | FromOriginalDestination.
#[export] Instance routing_source_eq_dec : EqDecision RoutingIdentitySource.
Proof. solve_decision. Defined.

Record AuthorizedRoute := mkRoute {
  original_destination : OriginalDestination;
  route_identity : Destination;
  identity_source : RoutingIdentitySource;
}.

Inductive RouteDenial :=
| IdentityUnavailable
| InvalidIdentity (source : CanonicalizeError)
| DestinationMismatch
| PolicyDenied (rule_matched : option str).

Section route.
Context {L : UrlLib} {N : IpNetLib}.
Implicit Types (policy : EgressPolicy) (dns : DnsAnswerEvidence).

Definition policy_denial (decision : EgressDecision) : RouteDenial := PolicyDenied (rule_matched decision).

Definition require_policy policy (identity : Destination) : result RouteDenial unit :=
  let decision := evaluate policy identity in
  if allowed decision then Ok () else Err (policy_denial decision).

Definition authorize_original policy (dest : OriginalDestination) (original_identity : Destination)
    : result RouteDenial AuthorizedRoute :=
  _ ← require_policy policy original_identity;
  Ok (mkRoute dest original_identity FromOriginalDestination).

(** What an identity that cannot be seen means under the policy. *)
Definition no_identity policy : result RouteDenial (option (Destination * RoutingIdentitySource)) :=
  if is_allow_all policy then Ok None else Err IdentityUnavailable.

Definition visible_identity policy (dest : OriginalDestination) (protocol : TcpProtocol)
    : result RouteDenial (option (Destination * RoutingIdentitySource)) :=
  let visible (authority : option str) (source : RoutingIdentitySource) :=
    match authority with
    | None => no_identity policy
    | Some authority =>
        identity ← map_err InvalidIdentity (canonicalize_host authority);
        if bool_decide (source = FromTlsServerName)
           && (bool_decide (is_Some (dest_port identity))
               || negb match dest_host identity with Domain _ => true | Ip _ => false end)
        then Err (InvalidIdentity Invalid)
        else if match dest_port identity with Some port => negb (port =? od_port dest)%Z | None => false end
        then Err DestinationMismatch
        else Ok (Some (with_default_port identity (od_port dest), source))
    end in
  match protocol with
  | TlsClientHello hello =>
      if encrypted_client_hello hello then no_identity policy
      else visible (hello_server_name hello) FromTlsServerName
  | CleartextHttp http => visible (http_authority http) FromHttpHost
  | OtherTcp => visible None FromOriginalDestination
  end.

(** The reconciliation and policy checks on a visible identity. *)
Definition admit_identity policy dns (dest : OriginalDestination) (original_identity identity : Destination)
    : result RouteDenial unit :=
  match dest_host identity with
  | Ip _ =>
      if bool_decide (dest_host identity = dest_host original_identity) then require_policy policy identity
      else Err DestinationMismatch
  | Domain hostname =>
      if is_allow_all policy then Ok ()
      else
        let decision := evaluate policy identity in
        match policy_mode policy, allowed decision with
        | ModeDeny, true => if dns hostname (od_ip dest) then Ok () else Err DestinationMismatch
        | ModeAllow, false => Err (policy_denial decision)
        | _, _ => require_policy policy original_identity
        end
  end.

Definition authorize_route policy dns (dest : OriginalDestination) (protocol : TcpProtocol)
    : result RouteDenial AuthorizedRoute :=
  original_identity ← map_err InvalidIdentity (canonicalize_host (fmt_socket_addr (od_ip dest) (od_port dest)));
  visible ← visible_identity policy dest protocol;
  match visible with
  | None => authorize_original policy dest original_identity
  | Some (identity, source) =>
      _ ← admit_identity policy dns dest original_identity identity;
      Ok (mkRoute dest identity source)
  end.
End route.

(** ** Specification *)

(** The destination the socket was opened to, as the policy sees it. *)
Definition pinned (dest : OriginalDestination) : Destination :=
  mkDestination (Ip (normalize_ip (od_ip dest))) (Some (od_port dest)).

(** Evidence that ties a route to its destination under a restrictive policy:
    an address identity is the pinned address and is permitted; a domain
    identity is permitted together with the pinned address, or, in deny mode,
    is covered by a rule and was resolved to the pinned address, or the
    address itself is covered. *)
Definition reconciled {L : UrlLib} {N : IpNetLib} (policy : EgressPolicy) (dns : DnsAnswerEvidence)
    (dest : OriginalDestination) (identity : Destination) : Prop :=
  match dest_host identity with
  | Ip ip => ip = normalize_ip (od_ip dest) ∧ allowed (evaluate policy identity) = true
  | Domain hostname =>
      match policy_mode policy with
      | ModeDeny =>
          (covered policy (Domain hostname) ∧ dns hostname (od_ip dest) = true) ∨
          (¬ covered policy (Domain hostname) ∧ covered policy (dest_host (pinned dest)))
      | ModeAllow => ¬ covered policy (Domain hostname) ∧ ¬ covered policy (dest_host (pinned dest))
      end
  end.

(** ** Lemmas *)

Section route_lemmas.
Context {L : UrlLib} {UL : UrlLaws L} {N : IpNetLib}.
Implicit Types (policy : EgressPolicy).

Lemma require_policy_Ok policy d : require_policy policy d = Ok () ↔ allowed (evaluate policy d) = true.
Proof. unfold require_policy. destruct (allowed _); naive_solver. Qed.

Lemma allowed_covered policy d :
  allowed (evaluate policy d) = true ↔
  match policy_mode policy with
  | ModeAllow => ¬ covered policy (dest_host d)
  | ModeDeny => covered policy (dest_host d)
  end.
Proof.
  unfold evaluate. simpl. pose proof (matching_rule_covered policy (dest_host d)) as Hcov.
  destruct (policy_mode policy); rewrite bool_decide_eq_true, <- Hcov; [|done]. apply eq_None_not_Some.
Qed.

Lemma allow_all_allowed policy d : is_allow_all policy = true → allowed (evaluate policy d) = true.
Proof.
  intros H. apply allowed_covered. unfold is_allow_all in H. breflect.
  revert select (policy_mode policy = _). intros ->.
  assert (domains policy = []) as Hd by (apply nil_length_inv, Nat.eqb_eq; done).
  assert (cidrs policy = []) as Hc by (apply nil_length_inv, Nat.eqb_eq; done).
  unfold covered. rewrite Hd, Hc. destruct (dest_host d); intros (? & H' & _); by apply not_elem_of_nil in H'.
Qed.

Lemma original_identity_pinned dest :
  is_u16 (od_port dest) → canonicalize_host (fmt_socket_addr (od_ip dest) (od_port dest)) = Ok (pinned dest).
Proof. apply canonicalize_socket. Qed.

(** A visible identity has the destination's port, and under a restrictive
    policy the flow showed it. *)
Lemma visible_identity_Ok policy dest protocol v :
  visible_identity policy dest protocol = Ok v →
  match v with
  | None => is_allow_all policy = true
  | Some (identity, source) =>
      dest_port identity = Some (od_port dest) ∧ source ≠ FromOriginalDestination ∧
      ∃ authority d, canonicalize_host authority = Ok d ∧ dest_host identity = dest_host d ∧
        match protocol with
        | TlsClientHello hello =>
            encrypted_client_hello hello = false ∧ hello_server_name hello = Some authority ∧
            source = FromTlsServerName
        | CleartextHttp http => http_authority http = Some authority ∧ source = FromHttpHost
        | OtherTcp => False
        end
  end.
Proof.
  assert (∀ v, no_identity policy = Ok v → v = None ∧ is_allow_all policy = true) as Hno.
  { unfold no_identity. intros v'. destruct (is_allow_all policy); naive_solver. }
  unfold visible_identity. destruct protocol as [http|hello|].
  - destruct (http_authority http) as [authority|] eqn:Ha; intros H; [|apply Hno in H as [-> ?]; done].
    apply bind_Ok in H as (d & Hd & H). apply map_err_Ok in Hd. simpl in H.
    destruct (dest_port d) as [port|] eqn:Hp; [destruct (negb _) eqn:Hport; [done|]|]; inv_ok; breflect; simpl;
      rewrite ?Hp; (split_and!; [simpl; congruence|done|exists authority, d; done]).
  - destruct (encrypted_client_hello hello) eqn:He; [intros H; apply Hno in H as [-> ?]; done|].
    destruct (hello_server_name hello) as [authority|] eqn:Ha; intros H; [|apply Hno in H as [-> ?]; done].
    apply bind_Ok in H as (d & Hd & H). apply map_err_Ok in Hd.
    destruct (_ && _); [done|].
    destruct (dest_port d) as [port|] eqn:Hp; [destruct (negb _) eqn:Hport; [done|]|]; inv_ok; breflect; simpl;
      rewrite ?Hp; (split_and!; [simpl; congruence|done|exists authority, d; done]).
  - intros H. apply Hno in H as [-> ?]. done.
Qed.

Lemma admit_identity_Ok policy dns dest identity :
  admit_identity policy dns dest (pinned dest) identity = Ok () →
  (match dest_host identity with Ip ip => ip = normalize_ip (od_ip dest) | Domain _ => True end) ∧
  (is_allow_all policy = false → reconciled policy dns dest identity).
Proof.
  unfold admit_identity, reconciled. destruct (dest_host identity) as [hostname|ip] eqn:Hh.
  - intros H. split; [done|]. intros Hr. rewrite Hr in H.
    pose proof (allowed_covered policy identity) as Hid. rewrite Hh in Hid.
    pose proof (allowed_covered policy (pinned dest)) as Hpin.
    destruct (policy_mode policy), (allowed (evaluate policy identity)) eqn:Ha; try done.
    + rewrite require_policy_Ok in H. naive_solver.
    + destruct (dns hostname (od_ip dest)) eqn:Hdns; [|done]. naive_solver.
    + rewrite require_policy_Ok in H. right. split; [|by apply Hpin].
      intros Hc. apply Hid in Hc. done.
  - case_bool_decide as He; [|done]. rewrite require_policy_Ok. simpl in He. naive_solver.
Qed.

Lemma reconciled_admitted policy dns dest identity :
  reconciled policy dns dest identity → admit_identity policy dns dest (pinned dest) identity = Ok ().
Proof.
  unfold admit_identity, reconciled. destruct (dest_host identity) as [hostname|ip] eqn:Hh.
  - intros H. destruct (is_allow_all policy); [done|].
    pose proof (allowed_covered policy identity) as Hid. rewrite Hh in Hid.
    pose proof (allowed_covered policy (pinned dest)) as Hpin.
    destruct (policy_mode policy), (allowed (evaluate policy identity)) eqn:Ha.
    + apply require_policy_Ok. naive_solver.
    + naive_solver.
    + destruct H as [[_ ->]|[Hn _]]; [done|]. destruct Hn. by apply Hid.
    + apply require_policy_Ok. destruct H as [[Hc _]|[_ Hc]]; [|by apply Hpin].
      apply Hid in Hc. done.
  - intros [-> Ha]. rewrite bool_decide_true by done. by apply require_policy_Ok.
Qed.
(** What an admitted route names: its own destination's port, and the pinned
    address or a host that canonicalization gave. *)
Lemma authorize_route_Ok policy dns dest protocol r :
  is_u16 (od_port dest) → authorize_route policy dns dest protocol = Ok r →
  original_destination r = dest ∧ dest_port (route_identity r) = Some (od_port dest) ∧
  match dest_host (route_identity r) with
  | Ip ip => ip = normalize_ip (od_ip dest)
  | Domain hostname => ∃ authority d, canonicalize_host authority = Ok d ∧ dest_host d = Domain hostname
  end.
Proof.
  intros Hport H. unfold authorize_route in H. rewrite original_identity_pinned in H by done.
  cbn [map_err mbind result_bind] in H.
  apply bind_Ok in H as (v & Hv & H). apply visible_identity_Ok in Hv. destruct v as [[identity source]|].
  - apply bind_Ok in H as ([] & Hadm & [= <-]). apply admit_identity_Ok in Hadm as [Hip _].
    destruct Hv as (Hp & _ & authority & d & Hd & Hh & _). simpl. split_and!; [done..|].
    destruct (dest_host identity) eqn:E; [|done]. exists authority, d. by rewrite <- Hh.
  - unfold authorize_original in H. apply bind_Ok in H as ([] & _ & [= <-]). done.
Qed.
End route_lemmas.

(** ** Properties *)

(** C36: an admitted route is tied to the socket it came from.  It keeps the
    original destination and its port; an address identity is the pinned
    address; under a restrictive policy the flow showed an identity (no
    encrypted ClientHello, no unclassified protocol) and that identity is
    reconciled with the pinned address by policy and DNS evidence, so a flow
    cannot name a permitted host while connecting elsewhere.  Conversely a
    flow whose visible identity is reconciled is admitted under it.  *)
Theorem authorize_route_pinned {L : UrlLib} {UL : UrlLaws L} {N : IpNetLib} (policy : EgressPolicy)
    (dns : DnsAnswerEvidence) (dest : OriginalDestination) (protocol : TcpProtocol) :
  is_u16 (od_port dest) →
  (∀ r, authorize_route policy dns dest protocol = Ok r →
     original_destination r = dest ∧ dest_port (route_identity r) = Some (od_port dest) ∧
     (match dest_host (route_identity r) with Ip ip => ip = normalize_ip (od_ip dest) | Domain _ => True end) ∧
     (is_allow_all policy = false →
        reconciled policy dns dest (route_identity r) ∧
        match protocol with
        | TlsClientHello hello => encrypted_client_hello hello = false ∧ identity_source r = FromTlsServerName
        | CleartextHttp _ => identity_source r = FromHttpHost
        | OtherTcp => False
        end)) ∧
  (∀ identity source, visible_identity policy dest protocol = Ok (Some (identity, source)) →
     reconciled policy dns dest identity →
     authorize_route policy dns dest protocol = Ok (mkRoute dest identity source)).
Proof.
  intros Hport. unfold authorize_route. rewrite original_identity_pinned by done.
  cbn [map_err mbind result_bind]. split.
  - intros r H. apply bind_Ok in H as (v & Hv & H).
    apply visible_identity_Ok in Hv. destruct v as [[identity source]|].
    + apply bind_Ok in H as ([] & Hadm & [= <-]). apply admit_identity_Ok in Hadm as [Hip Hrec].
      destruct Hv as (Hp & _ & authority & d & _ & _ & Hproto). simpl. split_and!; [done|done|done|].
      intros Hr. split; [by apply Hrec|]. destruct protocol; naive_solver.
    + unfold authorize_original in H. apply bind_Ok in H as ([] & _ & [= <-]). simpl.
      split_and!; [done..|congruence].
  - intros identity source -> Hrec. cbn [mbind result_bind]. by rewrite reconciled_admitted.
Qed.

(** Observation never blocks on identity, restriction fails closed.
    Under the allow-all policy a flow without a visible identity is admitted
    to its original destination; under any other policy it is refused, and
    without DNS evidence a deny policy admits no host by name alone.  *)
Theorem authorize_route_identity {L : UrlLib} {UL : UrlLaws L} {N : IpNetLib} (policy : EgressPolicy)
    (dns : DnsAnswerEvidence) (dest : OriginalDestination) :
  is_u16 (od_port dest) →
  (∀ hello, encrypted_client_hello hello = true ∨ hello_server_name hello = None →
     authorize_route policy dns dest (TlsClientHello hello)
     = if is_allow_all policy then Ok (mkRoute dest (pinned dest) FromOriginalDestination)
       else Err IdentityUnavailable) ∧
  authorize_route policy dns dest OtherTcp
    = (if is_allow_all policy then Ok (mkRoute dest (pinned dest) FromOriginalDestination)
       else Err IdentityUnavailable) ∧
  (∀ protocol r, policy_mode policy = ModeDeny → cidrs policy = [] →
     authorize_route policy NoDnsAnswerEvidence dest protocol ≠ Ok r).
Proof.
  intros Hport.
  assert (∀ v, v = no_identity policy →
    (visible ← v; match visible with
                  | None => authorize_original policy dest (pinned dest)
                  | Some (identity, source) =>
                      _ ← admit_identity policy dns dest (pinned dest) identity; Ok (mkRoute dest identity source)
                  end)
    = if is_allow_all policy then Ok (mkRoute dest (pinned dest) FromOriginalDestination)
      else Err IdentityUnavailable) as Hno.
  { intros v ->. unfold no_identity. destruct (is_allow_all policy) eqn:Ha; [|done].
    cbn [mbind result_bind]. unfold authorize_original, require_policy.
    by rewrite (allow_all_allowed policy (pinned dest) Ha). }
  split_and!.
  - intros hello Hh. unfold authorize_route. rewrite original_identity_pinned by done.
    cbn [map_err mbind result_bind]. apply Hno. unfold visible_identity.
    destruct (encrypted_client_hello hello); [done|]. by destruct Hh as [?| ->].
  - unfold authorize_route. rewrite original_identity_pinned by done.
    cbn [map_err mbind result_bind]. by apply Hno.
  - intros protocol r Hmode Hc. unfold authorize_route. rewrite original_identity_pinned by done.
    cbn [map_err mbind result_bind]. intros H. apply bind_Ok in H as (v & Hv & H).
    assert (is_allow_all policy = false) as Hr by (unfold is_allow_all; by rewrite Hmode).
    assert (∀ ip, ¬ covered policy (Ip ip)) as Hnc.
    { intros ip (net & Hin & _). rewrite Hc in Hin. by apply not_elem_of_nil in Hin. }
    apply visible_identity_Ok in Hv. destruct v as [[identity source]|]; [|congruence].
    apply bind_Ok in H as ([] & Hadm & _). apply admit_identity_Ok in Hadm as [_ Hrec].
    specialize (Hrec Hr). unfold reconciled in Hrec. destruct (dest_host identity) as [h|ip] eqn:Hh.
    + rewrite Hmode in Hrec. destruct Hrec as [[_ ?]|[_ Hcov]]; [done|]. by apply Hnc in Hcov.
    + destruct Hrec as [_ Ha]. apply allowed_covered in Ha. rewrite Hmode, Hh in Ha. by apply Hnc in Ha.
Qed.

Definition sample_dest : OriginalDestination := mkOriginalDestination (V4 (mkIpv4 x0a x00 x00 x01)) 443.

Lemma authorize_route_pinned_witness :
  let policy := mkPolicy (N := Sample.ipnet_lib) ModeDeny [bs "example.com"] [] in
  let hello := mkClientHello (Some (bs "api.example.com")) [] false in
  let dns := λ host ip, bool_decide (ip = od_ip sample_dest) in
  reconciled (L := Sample.url_lib) policy dns sample_dest (mkDestination (Domain (bs "api.example.com")) (Some 443%Z)).
Proof.
  intros policy hello dns.
  apply (authorize_route_pinned (L := Sample.url_lib) (UL := Sample.url_laws) policy dns sample_dest
    (TlsClientHello hello)) with (r := mkRoute sample_dest (mkDestination (Domain (bs "api.example.com")) (Some 443%Z))
      FromTlsServerName); [vm_compute; split; discriminate|reflexivity|reflexivity].
Defined.

Lemma authorize_route_identity_witness :
  authorize_route (L := Sample.url_lib) (N := Sample.ipnet_lib) EgressPolicy_default NoDnsAnswerEvidence sample_dest OtherTcp
  = Ok (mkRoute sample_dest (pinned sample_dest) FromOriginalDestination).
Proof.
  apply (authorize_route_identity (L := Sample.url_lib) (UL := Sample.url_laws) (N := Sample.ipnet_lib)
    EgressPolicy_default NoDnsAnswerEvidence sample_dest).
  vm_compute. split; discriminate.
Defined.
