(* ===== verification/TlsPolicy.v ===== *)
(** * TLS transport policy (crates/hiloop-interceptor/src/netns/tls_policy.rs)

    The transport action for an admitted flow, and the run-scoped learning of
    endpoints whose client rejected interception.  The learned set is behind
    an [RwLock]; each method takes the lock once, so a run is a sequence of
    [decide] and [record_handshake_failure] steps on the set. *)
From Stdlib Require Import Strings.Byte.
From S2P Require Import Prelude Text Net Identity Event Capture Egress NetCapture Classifier Route.

Inductive TlsPolicyFlow :=
| FlowDenied (denial : RouteDenial)
| FlowAdmitted (route : AuthorizedRoute) (protocol : TcpProtocol).

Inductive TlsTransportDecision :=
| Denied (denial : RouteDenial)
| TerminateTls
| CaptureHttp
| PassthroughTls (reason : TlsPassthroughReason)
| PassthroughTcp.

Inductive TrustAlert := UnknownCa | BadCertificate | CertificateUnknown.

Inductive HandshakeFailure :=
| ClientTrustAlert (alert : TrustAlert)
| Eof
| Timeout
| Reset
| ServerHandshake
| FailureMalformedTls
| FailureProtocolMismatch
| Internal.

Record HandshakeFailureDecision := mkFailed {
  failed_reason : TlsInterceptionFailedReason;
  retry_required : bool;
}.

Inductive RunPosture := Observe | PolicyStrict.
#[export] Instance posture_eq_dec : EqDecision RunPosture.
Proof. solve_decision. Defined.

Record LearnedTlsKey := mkKey { key_server_name : str; key_port : Z; key_fingerprint : str }.
#[export] Instance learned_key_eq_dec : EqDecision LearnedTlsKey.
Proof. solve_decision. Defined.
#[export] Program Instance learned_key_countable : Countable LearnedTlsKey :=
  inj_countable' (λ k, (key_server_name k, key_port k, key_fingerprint k))
    (λ t, mkKey t.1.1 t.1.2 t.2) _.
Next Obligation. by intros []. Qed.

(** The engine: the posture and the registry never change, the learned set
    grows. *)
Record TlsPolicyEngine := mkEngine {
  posture : RunPosture;
  engine_registry : CompatibilityRegistry;
  learned : gset LearnedTlsKey;
}.

Section engine.
Context {L : UrlLib} {N : IpNetLib}.

Definition TlsPolicyEngine_new (egress : EgressPolicy) (registry : CompatibilityRegistry) : TlsPolicyEngine :=
  mkEngine (if is_allow_all egress then Observe else PolicyStrict) registry ∅.

Definition capture_policy (e : TlsPolicyEngine) : CapturePolicy :=
  match posture e with Observe => PolicyObserve | PolicyStrict => Capture.PolicyStrict end.

Definition decide_policy_strict (protocol : TcpProtocol) : TlsTransportDecision :=
  match protocol with
  | TlsClientHello hello =>
      if encrypted_client_hello hello then Denied IdentityUnavailable else TerminateTls
  | CleartextHttp _ => CaptureHttp
  | OtherTcp => Denied IdentityUnavailable
  end.

Definition learned_key (route : AuthorizedRoute) (hello : ClientHelloIdentity) : option LearnedTlsKey :=
  _ ← hello_server_name hello;
  match dest_host (route_identity route) with
  | Domain server_name =>
      Some (mkKey server_name (od_port (original_destination route)) (hello_fingerprint hello))
  | Ip _ => None
  end.

Definition decide_observe (e : TlsPolicyEngine) (route : AuthorizedRoute) (protocol : TcpProtocol)
    : TlsTransportDecision :=
  match protocol with
  | TlsClientHello hello =>
      if registry_contains (engine_registry e) (dest_host (route_identity route))
           (od_port (original_destination route))
      then PassthroughTls PreclassifiedTrustIncompatible
      else if encrypted_client_hello hello then PassthroughTls EncryptedClientHello
      else match learned_key route hello with
           | Some key => if bool_decide (key ∈ learned e) then PassthroughTls LearnedTrustRejection else TerminateTls
           | None => TerminateTls
           end
  | CleartextHttp _ => CaptureHttp
  | OtherTcp => PassthroughTcp
  end.

Definition decide (e : TlsPolicyEngine) (flow : TlsPolicyFlow) : TlsTransportDecision :=
  match flow with
  | FlowDenied denial => Denied denial
  | FlowAdmitted route protocol =>
      match posture e with
      | PolicyStrict => decide_policy_strict protocol
      | Observe => decide_observe e route protocol
      end
  end.

Definition failure_reason (failure : HandshakeFailure) : TlsInterceptionFailedReason :=
  match failure with
  | ClientTrustAlert _ => ClientTrustRejected
  | Eof | Timeout | Reset => AmbiguousHandshakeAbort
  | ServerHandshake => ServerHandshakeFailed
  | FailureMalformedTls | FailureProtocolMismatch => ProtocolMismatch
  | Internal => InternalError
  end.

Definition record_handshake_failure (e : TlsPolicyEngine) (flow : TlsPolicyFlow) (failure : HandshakeFailure)
    : TlsPolicyEngine * HandshakeFailureDecision :=
  match flow with
  | FlowAdmitted route (TlsClientHello hello) =>
      let definitive := match failure with ClientTrustAlert _ => true | _ => false end in
      let '(e', retry_required) :=
        match posture e, definitive, learned_key route hello with
        | Observe, true, Some key => (mkEngine (posture e) (engine_registry e) ({[key]} ∪ learned e), true)
        | _, _, _ => (e, false)
        end in
      let reason := match posture e, definitive with
                    | PolicyStrict, true => PolicyPassthroughForbidden
                    | _, _ => failure_reason failure
                    end in
      (e', mkFailed reason retry_required)
  | _ => (e, mkFailed InternalError false)
  end.

Definition validate_request_authority (route : AuthorizedRoute) (authority : str) : result RouteDenial unit :=
  match canonicalize_host authority with
  | Ok destination =>
      let destination := with_default_port destination (od_port (original_destination route)) in
      if bool_decide (dest_host destination = dest_host (route_identity route))
         && bool_decide (dest_port destination = dest_port (route_identity route))
      then Ok () else Err DestinationMismatch
  | Err _ => Err DestinationMismatch
  end.
End engine.

(** ** Specification *)

(** The failures recorded over a run, in order. *)
Definition run_failures (e : TlsPolicyEngine) (fs : list (TlsPolicyFlow * HandshakeFailure)) : TlsPolicyEngine :=
  foldl (λ e f, (record_handshake_failure e f.1 f.2).1) e fs.

(** A recorded failure in which the client itself rejected the interception
    certificate, on a flow with key [k]. *)
Definition trust_rejected (k : LearnedTlsKey) (f : TlsPolicyFlow * HandshakeFailure) : Prop :=
  ∃ route hello alert, f = (FlowAdmitted route (TlsClientHello hello), ClientTrustAlert alert) ∧
    learned_key route hello = Some k.

(** ** Lemmas *)

Lemma record_fixed e flow failure :
  let e' := (record_handshake_failure e flow failure).1 in
  posture e' = posture e ∧ engine_registry e' = engine_registry e.
Proof. unfold record_handshake_failure. simpl. repeat (case_match; simplify_eq/=); done. Qed.

Lemma record_learned e flow failure k :
  k ∈ learned (record_handshake_failure e flow failure).1 ↔
  k ∈ learned e ∨ (posture e = Observe ∧ trust_rejected k (flow, failure)).
Proof.
  unfold trust_rejected, record_handshake_failure.
  destruct flow as [d|route [http|hello|]]; [naive_solver..| |naive_solver].
  destruct (posture e) eqn:Hp; simpl; [|naive_solver].
  destruct failure as [alert| | | | | | |]; simpl; [|naive_solver..].
  destruct (learned_key route hello) as [k'|] eqn:Hk; simpl; [|naive_solver].
  rewrite elem_of_union, elem_of_singleton. split.
  - intros [->|?]; [|by left]. right. split; [done|]. by exists route, hello, alert.
  - intros [?|[_ (r & h & a & [= <- <- <-] & E)]]; [by right|]. left. congruence.
Qed.

Lemma run_failures_spec e fs :
  posture (run_failures e fs) = posture e ∧ engine_registry (run_failures e fs) = engine_registry e ∧
  ∀ k, k ∈ learned (run_failures e fs) ↔
    k ∈ learned e ∨ (posture e = Observe ∧ ∃ f, f ∈ fs ∧ trust_rejected k f).
Proof.
  unfold run_failures. revert e. induction fs as [|[flow failure] fs IH]; intros e; simpl.
  { split_and!; [done|done|]. intros k. split; [by left|].
    intros [?|(_ & f & Hin & _)]; [done|by apply not_elem_of_nil in Hin]. }
  destruct (IH (record_handshake_failure e flow failure).1) as (Hp & Hr & Hk).
  destruct (record_fixed e flow failure) as [Hp' Hr']. split_and!; [congruence|congruence|].
  intros k. rewrite Hk, Hp', record_learned. setoid_rewrite elem_of_cons. naive_solver.
Qed.

Lemma validate_request_authority_spec {L : UrlLib} route authority :
  validate_request_authority route authority = Ok () ↔
  ∃ d, canonicalize_host authority = Ok d ∧
    with_default_port d (od_port (original_destination route)) = route_identity route.
Proof.
  unfold validate_request_authority. destruct (canonicalize_host authority) as [d|]; [|naive_solver].
  destruct (route_identity route) as [h p]. unfold with_default_port. simpl.
  case_bool_decide; case_bool_decide; simpl; naive_solver.
Qed.

(** ** Properties *)

(** C37: a restricted run never gives up inspection: with any egress policy
    but allow-all, after any handshake failures, no flow is passed through;
    encrypted ClientHellos and unclassified protocols are refused, nothing is
    learned, and a client's trust rejection is reported as a forbidden
    passthrough without a retry.  *)
Theorem strict_never_passes_through {N : IpNetLib} (egress : EgressPolicy) (registry : CompatibilityRegistry)
    (fs : list (TlsPolicyFlow * HandshakeFailure)) :
  is_allow_all egress = false →
  let e := run_failures (TlsPolicyEngine_new egress registry) fs in
  learned e = ∅ ∧
  (∀ flow, match decide e flow with
           | Denied _ | TerminateTls | CaptureHttp => True
           | PassthroughTls _ | PassthroughTcp => False
           end) ∧
  (∀ route hello, encrypted_client_hello hello = true →
     decide e (FlowAdmitted route (TlsClientHello hello)) = Denied IdentityUnavailable) ∧
  (∀ route hello alert, record_handshake_failure e (FlowAdmitted route (TlsClientHello hello)) (ClientTrustAlert alert)
     = (e, mkFailed PolicyPassthroughForbidden false)).
Proof.
  intros Hr e. unfold e. clear e.
  destruct (run_failures_spec (TlsPolicyEngine_new egress registry) fs) as (Hp & _ & Hk).
  set (e := run_failures _ fs) in *. unfold TlsPolicyEngine_new in Hp, Hk. rewrite Hr in Hp, Hk. simpl in Hp, Hk.
  split_and!.
  - apply set_eq. intros k. rewrite Hk. split; [|by left]. intros [?|[? _]]; done.
  - intros [d|route protocol]; simpl; [done|]. rewrite Hp. unfold decide_policy_strict.
    destruct protocol as [|hello|]; try done. by destruct (encrypted_client_hello hello).
  - intros route hello He. simpl. rewrite Hp. simpl. by rewrite He.
  - intros route hello alert. unfold record_handshake_failure. rewrite Hp. done.
Qed.

(** Retry learning is exact.  In an observing run a TLS flow is spliced
    as a learned trust rejection exactly when its endpoint is not
    preclassified, its ClientHello is not encrypted, and some earlier flow to
    the same server name and port with the same fingerprint failed with a
    client trust alert: no other failure, and no other client, server or
    port, ever opens a bypass.  *)
Theorem learned_passthrough_exact {N : IpNetLib} (egress : EgressPolicy) (registry : CompatibilityRegistry)
    (fs : list (TlsPolicyFlow * HandshakeFailure)) (route : AuthorizedRoute) (hello : ClientHelloIdentity) :
  is_allow_all egress = true →
  let e := run_failures (TlsPolicyEngine_new egress registry) fs in
  decide e (FlowAdmitted route (TlsClientHello hello)) = PassthroughTls LearnedTrustRejection ↔
  registry_contains registry (dest_host (route_identity route)) (od_port (original_destination route)) = false ∧
  encrypted_client_hello hello = false ∧
  ∃ k f, learned_key route hello = Some k ∧ f ∈ fs ∧ trust_rejected k f.
Proof.
  intros Hr e. unfold e. clear e.
  destruct (run_failures_spec (TlsPolicyEngine_new egress registry) fs) as (Hp & Hreg & Hk).
  set (e := run_failures _ fs) in *. unfold TlsPolicyEngine_new in Hp, Hk, Hreg. rewrite Hr in Hp, Hk. simpl in Hp, Hk, Hreg.
  simpl. rewrite Hp. simpl. rewrite Hreg. destruct (registry_contains _ _ _); [naive_solver|].
  destruct (encrypted_client_hello hello); [naive_solver|].
  destruct (learned_key route hello) as [k|] eqn:Hkey; [|naive_solver].
  case_bool_decide as Hin; rewrite Hk in Hin; split; try done.
  - intros _. split_and!; [done|done|]. destruct Hin as [Hin|(_ & f & Hf & Ht)]; [by apply not_elem_of_empty in Hin|].
    by exists k, f.
  - intros (_ & _ & k' & f & [= <-] & Hf & Ht). exfalso. apply Hin. right. split; [done|]. by exists f.
Qed.

Definition sample_route : AuthorizedRoute :=
  mkRoute sample_dest (mkDestination (Domain (bs "api.example.com")) (Some 443%Z)) FromTlsServerName.
Definition sample_client : ClientHelloIdentity := mkClientHello (Some (bs "api.example.com")) (bs "ch1:ab") false.
Definition sample_failure : TlsPolicyFlow * HandshakeFailure :=
  (FlowAdmitted sample_route (TlsClientHello sample_client), ClientTrustAlert UnknownCa).

Lemma strict_never_passes_through_witness :
  let egress := mkPolicy (N := Sample.ipnet_lib) ModeDeny [bs "example.com"] [] in
  learned (run_failures (TlsPolicyEngine_new egress CompatibilityRegistry_current) [sample_failure]) = ∅.
Proof.
  apply (strict_never_passes_through (N := Sample.ipnet_lib) (mkPolicy ModeDeny [bs "example.com"] [])
    CompatibilityRegistry_current [sample_failure]).
  reflexivity.
Defined.

Lemma learned_passthrough_exact_witness :
  decide (run_failures (TlsPolicyEngine_new (N := Sample.ipnet_lib) EgressPolicy_default CompatibilityRegistry_current)
            [sample_failure])
    (FlowAdmitted sample_route (TlsClientHello sample_client)) = PassthroughTls LearnedTrustRejection.
Proof.
  apply (learned_passthrough_exact (N := Sample.ipnet_lib) EgressPolicy_default CompatibilityRegistry_current
    [sample_failure] sample_route sample_client); [reflexivity|].
  split; [reflexivity|]. split; [reflexivity|].
  exists (mkKey (bs "api.example.com") 443 (bs "ch1:ab")), sample_failure.
  split; [reflexivity|]. split; [left|].
  exists sample_route, sample_client, UnknownCa. split; reflexivity.
Defined.
