(* ===== verification/Dns.v ===== *)
(** * DNS answer evidence (crates/hiloop-interceptor/src/netns/dns.rs)

    The run-scoped tracker that ties host names to the addresses the resolver
    returned for them: the parser of DNS messages with compressed names, the
    correlation of address records with questions over CNAME chains, and the
    table of unexpired answers behind a mutex.

    Instants are nanoseconds, unbounded above.  [read_name] may visit each
    offset of the packet once, so its fuel is the packet's length plus one;
    a CNAME chain may visit each target once, so the fuel of the correlation
    is the number of CNAME records plus two. *)
From Stdlib Require Import Strings.Byte.
From S2P Require Import Prelude Text Net.

Definition DNS_HEADER_LENGTH : nat := 12.
Definition DNS_CLASS_IN : Z := 1.
Definition DNS_TYPE_A : Z := 1.
Definition DNS_TYPE_CNAME : Z := 5.
Definition DNS_TYPE_AAAA : Z := 28.
Definition DNS_RESPONSE : Z := 32768.
Definition DNS_COMPRESSION_POINTER : Z := 192.

Record Question := mkQuestion { q_name : str; q_kind : Z; q_class : Z }.
#[export] Instance question_eq_dec : EqDecision Question.
Proof. solve_decision. Defined.
Record AddressAnswer := mkAddress { a_name : str; a_address : IpAddr; a_ttl : Z }.
Record CnameAnswer := mkCname { c_name : str; c_target : str; c_ttl : Z }.
Record ParsedResponse := mkResponse {
  r_id : Z;
  r_questions : list Question;
  r_addresses : list AddressAnswer;
  r_cnames : list CnameAnswer;
}.
Record Header := mkHeader { h_id : Z; h_flags : Z; h_question_count : Z; h_answer_count : Z }.

(** ** Reading a packet *)

Fixpoint be_value (acc : Z) (bytes : str) : Z :=
  match bytes with [] => acc | b :: bytes => be_value (acc * 256 + bz b) bytes end.

Definition read_u16 (packet : str) (offset : nat) : option Z :=
  be_value 0 <$> slice_get packet offset (offset + 2).
Definition read_u32 (packet : str) (offset : nat) : option Z :=
  be_value 0 <$> slice_get packet offset (offset + 4).

Definition Header_parse (packet : str) : option Header :=
  id ← read_u16 packet 0;
  flags ← read_u16 packet 2;
  question_count ← read_u16 packet 4;
  answer_count ← read_u16 packet 6;
  if bool_decide (DNS_HEADER_LENGTH ≤ length packet)
  then Some (mkHeader id flags question_count answer_count) else None.

(** The accumulated length of the labels, one separator each. *)
Definition labels_length (labels : list str) : nat := sum_list (length <$> labels) + length labels.

Definition valid_label (length_byte : Z) (label : str) : bool :=
  negb ((63 <? length_byte)%Z || negb (is_ascii label) || contains_byte x2e label).

Fixpoint read_name_from (fuel : nat) (packet : str) (offset : nat) (labels : list str) (next : option nat)
    (visited : gset nat) : option (str * nat) :=
  match fuel with
  | O => None
  | S fuel =>
      if bool_decide (offset ∈ visited) then None
      else
        b ← packet !! offset;
        let length_byte := bz b in
        let visited := {[offset]} ∪ visited in
        let tag := Z.land length_byte DNS_COMPRESSION_POINTER in
        if (tag =? DNS_COMPRESSION_POINTER)%Z then
          low ← packet !! (offset + 1);
          let pointer := Z.to_nat (Z.lor (Z.shiftl (Z.land length_byte 63) 8) (bz low)) in
          let next := Some (default (offset + 2) next) in
          read_name_from fuel packet pointer labels next visited
        else if negb (tag =? 0)%Z then None
        else
          let offset := offset + 1 in
          if (length_byte =? 0)%Z then
            let name := join (bs ".") labels in
            if bool_decide (name = []) then None else Some (name, default offset next)
          else
            let end_ := offset + Z.to_nat length_byte in
            label ← slice_get packet offset end_;
            if negb (valid_label length_byte label) then None
            else
              label ← from_utf8 (to_ascii_lowercase label);
              let labels := labels ++ [label] in
              if bool_decide (255 < labels_length labels) then None
              else read_name_from fuel packet end_ labels next visited
  end.

Definition read_name (packet : str) (start : nat) : option (str * nat) :=
  read_name_from (S (length packet)) packet start [] None ∅.

Fixpoint questions_from (packet : str) (count : nat) (offset : nat) : option (list Question * nat) :=
  match count with
  | O => Some ([], offset)
  | S count =>
      '(name, next) ← read_name packet offset;
      kind ← read_u16 packet next;
      class ← read_u16 packet (next + 2);
      '(rest, offset) ← questions_from packet count (next + 4);
      Some (mkQuestion name kind class :: rest, offset)
  end.
Definition questions (packet : str) (count : Z) : option (list Question * nat) :=
  questions_from packet (Z.to_nat count) DNS_HEADER_LENGTH.

Definition parse_questions (packet : str) : option (Z * list Question) :=
  header ← Header_parse packet;
  '(qs, _) ← questions packet (h_question_count header);
  Some (h_id header, qs).

(** The records an answer contributes. *)
Definition answer_records (packet name : str) (kind class ttl : Z) (data : str) (data_offset data_end : nat)
    : option (list AddressAnswer * list CnameAnswer) :=
  if negb (class =? DNS_CLASS_IN)%Z then Some ([], [])
  else if (kind =? DNS_TYPE_A)%Z && Nat.eqb (length data) 4 then
    v4 ← v4_of_octets data; Some ([mkAddress name (V4 v4) ttl], [])
  else if (kind =? DNS_TYPE_AAAA)%Z && Nat.eqb (length data) 16 then
    v6 ← v6_of_octets data; Some ([mkAddress name (V6 v6) ttl], [])
  else if (kind =? DNS_TYPE_CNAME)%Z then
    '(target, name_end) ← read_name packet data_offset;
    if bool_decide (data_end < name_end) then None else Some ([], [mkCname name target ttl])
  else Some ([], []).

Fixpoint answers_from (packet : str) (count offset : nat) : option (list AddressAnswer * list CnameAnswer) :=
  match count with
  | O => Some ([], [])
  | S count =>
      '(name, offset) ← read_name packet offset;
      kind ← read_u16 packet offset;
      class ← read_u16 packet (offset + 2);
      ttl ← read_u32 packet (offset + 4);
      data_length ← read_u16 packet (offset + 8);
      let data_offset := offset + 10 in
      let data_end := data_offset + Z.to_nat data_length in
      data ← slice_get packet data_offset data_end;
      '(addresses, cnames) ← answer_records packet name kind class ttl data data_offset data_end;
      '(addresses', cnames') ← answers_from packet count data_end;
      Some (addresses ++ addresses', cnames ++ cnames')
  end.

Definition parse_response (packet : str) : option ParsedResponse :=
  header ← Header_parse packet;
  if (Z.land (h_flags header) DNS_RESPONSE =? 0)%Z then None
  else
    '(qs, offset) ← questions packet (h_question_count header);
    '(addresses, cnames) ← answers_from packet (Z.to_nat (h_answer_count header)) offset;
    Some (mkResponse (h_id header) qs addresses cnames).

(** ** Correlation *)

Abbreviation evidence := (str * IpAddr * Z)%type.

Definition limit_ttl (ttl_limit : option Z) (ttl : Z) : Z :=
  match ttl_limit with Some limit => Z.min limit ttl | None => ttl end.

(** The entries one call pushes; the visited names of the caller are restored
    when it returns. *)
Fixpoint correlate_question (fuel : nat) (name : str) (ttl_limit : option Z) (addresses : list AddressAnswer)
    (cnames : list CnameAnswer) (visited : gset str) : list evidence :=
  match fuel with
  | O => []
  | S fuel =>
      if bool_decide (name ∈ visited) then []
      else
        let visited := {[name]} ∪ visited in
        ((λ a, (name, a_address a, limit_ttl ttl_limit (a_ttl a)))
           <$> filter (λ a, a_name a = name) addresses) ++
        (filter (λ c, c_name c = name) cnames ≫= λ c,
           (λ e : evidence, (name, e.1.2, e.2))
             <$> correlate_question fuel (c_target c) (Some (limit_ttl ttl_limit (c_ttl c))) addresses cnames visited)
  end.

Definition correlated (m : ParsedResponse) (qs : list Question) : list evidence :=
  ((λ a, (a_name a, a_address a, a_ttl a)) <$> r_addresses m) ++
  (qs ≫= λ q, correlate_question (length (r_cnames m) + 2) (q_name q) None (r_addresses m) (r_cnames m) ∅).

(** ** The tracker *)

Abbreviation DnsAnswerTracker := (gmap (str * IpAddr) Z).

Definition retain (answers : DnsAnswerTracker) (now : Z) : DnsAnswerTracker :=
  filter (λ e, (now < e.2)%Z) answers.

Definition shortest_ttls (es : list evidence) : gmap (str * IpAddr) Z :=
  foldl (λ m e, <[e.1 := match m !! e.1 with Some current => Z.min current e.2 | None => e.2 end]> m) ∅ es.

Definition nanos (secs : Z) : Z := secs * 1000000000.

Definition record_response_at (answers : DnsAnswerTracker) (query response : str) (now : Z) : DnsAnswerTracker :=
  match parse_questions query, parse_response response with
  | Some (query_id, qs), Some m =>
      if negb (r_id m =? query_id)%Z || negb (bool_decide (r_questions m = qs)) then answers
      else
        let fresh := shortest_ttls (filter (λ e, (0 < e.2)%Z) (correlated m qs)) in
        ((λ ttl, (now + nanos ttl)%Z) <$> fresh) ∪ retain answers now
  | _, _ => answers
  end.

Definition canonical_dns_name (name : str) : option str :=
  let name := default name (strip_suffix (bs ".") name) in
  if bool_decide (name = []) || negb (is_ascii name) then None
  else
    let canonical := to_ascii_lowercase name in
    if forallb (λ label, negb (bool_decide (label = [])) && bool_decide (length label ≤ 63))
         (split_on (byte_is x2e) canonical)
    then from_utf8 canonical else None.

Definition contains_at (answers : DnsAnswerTracker) (hostname : str) (address : IpAddr) (now : Z)
    : DnsAnswerTracker * bool :=
  match canonical_dns_name hostname with
  | None => (answers, false)
  | Some hostname =>
      let answers := retain answers now in
      (answers, match answers !! (hostname, address) with Some expiry => (now <? expiry)%Z | None => false end)
  end.

(** ** Specification *)

(** What a response says of a name: an address record for it, or a CNAME
    record to a name it says it of; the time to live is the chain's shortest. *)
Inductive resolves (m : ParsedResponse) : str → IpAddr → Z → Prop :=
| resolves_address a : a ∈ r_addresses m → resolves m (a_name a) (a_address a) (a_ttl a)
| resolves_cname c ip ttl :
    c ∈ r_cnames m → resolves m (c_target c) ip ttl → resolves m (c_name c) ip (Z.min (c_ttl c) ttl).

(** A response accepted for its query. *)
Definition answers_query (query response : str) (m : ParsedResponse) : Prop :=
  parse_response response = Some m ∧ parse_questions query = Some (r_id m, r_questions m).

Definition exchange := (str * str * Z)%type.
Definition run_tracker (xs : list exchange) : DnsAnswerTracker :=
  foldl (λ t x, record_response_at t x.1.1 x.1.2 x.2) ∅ xs.

(** A name on the wire. *)
Definition encode_labels (ls : list str) : str := ls ≫= λ l, byte_of_Z (Z.of_nat (length l)) :: l.
Definition pointer_to (offset : nat) : str :=
  [byte_of_Z (192 + Z.of_nat offset / 256); byte_of_Z (Z.of_nat offset)].
Definition label_wf (l : str) : Prop := 0 < length l ≤ 63 ∧ is_ascii l = true ∧ x2e ∉ l.

(** ** Lemmas *)

Lemma correlate_sound m fuel name lim visited e :
  e ∈ correlate_question fuel name lim (r_addresses m) (r_cnames m) visited →
  e.1.1 = name ∧ ∃ ttl, resolves m name e.1.2 ttl ∧ e.2 = limit_ttl lim ttl.
Proof.
  revert name lim visited e. induction fuel as [|fuel IH]; intros name lim visited e; simpl.
  { intros H. by apply not_elem_of_nil in H. }
  case_bool_decide; [intros H'; by apply not_elem_of_nil in H'|].
  rewrite elem_of_app, list_elem_of_fmap. intros [(a & -> & Ha)|Hc].
  - apply list_elem_of_filter in Ha as [<- Ha]. simpl. split; [done|]. eexists. split; [|done]. by constructor.
  - apply list_elem_of_bind in Hc as (c & He & Hc). apply list_elem_of_filter in Hc as [<- Hc].
    apply list_elem_of_fmap in He as (e' & -> & He'). apply IH in He' as (_ & ttl & Hres & Httl). simpl.
    split; [done|]. exists (Z.min (c_ttl c) ttl). split; [by constructor|].
    rewrite Httl. unfold limit_ttl. destruct lim; lia.
Qed.

Lemma correlated_sound m qs e : e ∈ correlated m qs → resolves m e.1.1 e.1.2 e.2.
Proof.
  unfold correlated. rewrite elem_of_app, list_elem_of_fmap. intros [(a & -> & Ha)|Hq]; [by constructor|].
  apply list_elem_of_bind in Hq as (q & He & _). apply correlate_sound in He as (-> & ttl & Hres & ->). done.
Qed.

Lemma shortest_ttls_sound es k ttl : shortest_ttls es !! k = Some ttl → (k, ttl) ∈ es.
Proof.
  unfold shortest_ttls. assert (∀ m : gmap (str * IpAddr) Z, foldl (λ m e, <[e.1 := match m !! e.1 with Some current => Z.min current e.2 | None => e.2 end]> m) m es !! k = Some ttl →
    (k, ttl) ∈ es ∨ m !! k = Some ttl) as H.
  { induction es as [|[ke te] es IH]; intros m; simpl; [by right|]. intros H. apply IH in H as [H|H].
    - left. by right.
    - apply lookup_insert_Some in H as [[He Ht]|[_ H]]; [|by right].
      destruct (m !! ke) as [cur|] eqn:Hm.
      + destruct (Z.min_spec cur te) as [[_ Hmin]|[_ Hmin]]; rewrite Hmin in Ht; subst; [by right|].
        left. left.
      + left. subst. left. }
  intros Hk. apply H in Hk as [?|Hk]; [done|]. by rewrite lookup_empty in Hk.
Qed.

Lemma record_response_sound t query response now k expiry :
  record_response_at t query response now !! k = Some expiry →
  t !! k = Some expiry ∨
  ∃ m ttl, answers_query query response m ∧ resolves m k.1 k.2 ttl ∧ (0 < ttl)%Z ∧ expiry = (now + nanos ttl)%Z.
Proof.
  unfold record_response_at. destruct (parse_questions query) as [[id qs]|] eqn:Eq; [|by left].
  destruct (parse_response response) as [m|] eqn:Er; [|by left].
  destruct (_ || _) eqn:Emis; [by left|]. breflect. intros Hk.
  apply lookup_union_Some_raw in Hk as [Hk|[_ Hk]].
  - right. apply lookup_fmap_Some in Hk as (ttl & <- & Hk). apply shortest_ttls_sound in Hk.
    apply list_elem_of_filter in Hk as [Hpos Hk]. apply correlated_sound in Hk. simpl in *.
    exists m, ttl. split_and!; [|done..]. unfold answers_query. split; [done|]. rewrite Eq. by subst.
  - left. unfold retain in Hk. by apply map_lookup_filter_Some in Hk as [? _].
Qed.

Lemma run_tracker_sound xs k expiry :
  run_tracker xs !! k = Some expiry →
  ∃ query response t m ttl, (query, response, t) ∈ xs ∧ answers_query query response m ∧
    resolves m k.1 k.2 ttl ∧ (0 < ttl)%Z ∧ expiry = (t + nanos ttl)%Z.
Proof.
  unfold run_tracker. induction xs as [|[[q r] t] xs IH] using rev_ind; [done|].
  rewrite foldl_app. simpl. intros H. apply record_response_sound in H as [H|(m & ttl & H)].
  - destruct (IH H) as (q' & r' & t' & m & ttl & Hin & H'). exists q', r', t', m, ttl.
    split; [by apply elem_of_app; left|done].
  - exists q, r, t, m, ttl. split; [by apply elem_of_app; right; left|done].
Qed.

(** A chain of records with the names it visits. *)
Inductive chain (m : ParsedResponse) : list str → str → IpAddr → Z → Prop :=
| chain_address a : a ∈ r_addresses m → chain m [a_name a] (a_name a) (a_address a) (a_ttl a)
| chain_cname c names ip ttl :
    c ∈ r_cnames m → chain m names (c_target c) ip ttl →
    chain m (c_name c :: names) (c_name c) ip (Z.min (c_ttl c) ttl).

Lemma resolves_chain m name ip ttl : resolves m name ip ttl → ∃ names, chain m names name ip ttl.
Proof.
  induction 1 as [a Ha|c ip ttl Hc _ [names IH]]; [by eexists; constructor|].
  exists (c_name c :: names). by constructor.
Qed.

Lemma chain_suffix m names name ip ttl x :
  chain m names name ip ttl → x ∈ names →
  ∃ names' ttl', chain m names' x ip ttl' ∧ names' `suffix_of` names ∧ (ttl ≤ ttl')%Z.
Proof.
  induction 1 as [a Ha|c names ip ttl Hc Hch IH].
  - intros ->%list_elem_of_singleton. exists [a_name a], (a_ttl a). split_and!; [by constructor|done|lia].
  - intros [->|Hx]%elem_of_cons.
    + eexists _, _. split_and!; [by apply chain_cname|done|lia].
    + destruct (IH Hx) as (names' & ttl' & ? & ? & ?). exists names', ttl'.
      split_and!; [done|by apply suffix_cons_r|lia].
Qed.

(** Cutting its loops out of a chain leaves a time to live no shorter. *)
Lemma chain_simple m names name ip ttl :
  chain m names name ip ttl → ∃ names' ttl', chain m names' name ip ttl' ∧ NoDup names' ∧ (ttl ≤ ttl')%Z.
Proof.
  induction 1 as [a Ha|c names ip ttl Hc _ (names' & ttl' & Hch & Hnd & Hle)].
  - exists [a_name a], (a_ttl a). split_and!; [by constructor|apply NoDup_singleton|lia].
  - destruct (decide (c_name c ∈ names')) as [Hin|Hin].
    + destruct (chain_suffix _ _ _ _ _ _ Hch Hin) as (ns & t & ? & [k ->] & ?).
      exists ns, t. apply NoDup_app in Hnd as (_ & _ & ?). split_and!; [done..|lia].
    + exists (c_name c :: names'), (Z.min (c_ttl c) ttl').
      split_and!; [by constructor|by apply NoDup_cons|lia].
Qed.

Lemma chain_length m names name ip ttl :
  chain m names name ip ttl → NoDup names → length names ≤ length (r_cnames m) + 1.
Proof.
  intros Hch Hnd.
  assert (∃ front end_, names = front ++ [end_] ∧ front ⊆ c_name <$> r_cnames m) as (front & end_ & -> & Hf).
  { clear Hnd. induction Hch as [a|c names ip ttl Hc _ (front & e & -> & IH)]; [exists [], (a_name a); split; [done|apply list_subseteq_nil]|].
    exists (c_name c :: front), e. split; [done|]. intros x [->|Hx]%elem_of_cons; [|by apply IH].
    apply list_elem_of_fmap. eauto. }
  apply NoDup_app in Hnd as (Hnd & _ & _). apply (NoDup_submseteq _ (c_name <$> r_cnames m)) in Hnd; [|exact Hf].
  apply submseteq_length in Hnd. rewrite length_fmap in Hnd. rewrite length_app. simpl. lia.
Qed.

(** The correlation follows every simple chain: its fuel is never what stops it. *)
Lemma correlate_complete m names name ip ttl fuel lim visited :
  chain m names name ip ttl → NoDup names → (∀ x, x ∈ names → x ∉ visited) → length names ≤ fuel →
  (name, ip, limit_ttl lim ttl) ∈ correlate_question fuel name lim (r_addresses m) (r_cnames m) visited.
Proof.
  intros Hch. revert fuel lim visited.
  induction Hch as [a Ha|c names ip ttl Hc Hch IH]; intros fuel lim visited Hnd Hv Hf;
    (destruct fuel as [|fuel]; [simpl in Hf; lia|]); cbn [correlate_question];
    rewrite bool_decide_false by (apply Hv; left); rewrite elem_of_app.
  - left. apply list_elem_of_fmap. exists a. split; [done|]. by apply list_elem_of_filter.
  - right. apply NoDup_cons in Hnd as [Hc' Hnd]. apply list_elem_of_bind. exists c. split; [|by apply list_elem_of_filter].
    apply list_elem_of_fmap. eexists. split; [|apply IH].
    + simpl. f_equal. unfold limit_ttl. destruct lim; lia.
    + done.
    + intros x Hx [->%elem_of_singleton|Hx']%elem_of_union; [done|]. by apply (Hv x); [right|].
    + simpl in Hf. lia.
Qed.

Lemma correlated_complete m qs q ip ttl :
  q ∈ qs → resolves m (q_name q) ip ttl → ∃ ttl', (q_name q, ip, ttl') ∈ correlated m qs ∧ (ttl ≤ ttl')%Z.
Proof.
  intros Hq Hres. destruct (resolves_chain _ _ _ _ Hres) as [names0 H0].
  destruct (chain_simple _ _ _ _ _ H0) as (names & ttl' & Hch & Hnd & Hle). exists ttl'. split; [|done].
  apply elem_of_app. right. apply list_elem_of_bind. exists q. split; [|done].
  apply (correlate_complete m names _ _ ttl' _ None); [done..|set_solver|].
  apply chain_length in Hch; [lia|done].
Qed.

Lemma shortest_ttls_complete es k ttl : (k, ttl) ∈ es → is_Some (shortest_ttls es !! k).
Proof.
  unfold shortest_ttls. generalize (∅ : gmap (str * IpAddr) Z) as m. intros m Hin.
  assert (is_Some (m !! k) ∨ (k, ttl) ∈ es) as H by (by right). clear Hin. revert m H.
  induction es as [|e es IH]; intros m H; simpl.
  - destruct H as [?|H]; [done|by apply not_elem_of_nil in H].
  - apply IH. destruct H as [H|[<-|H]%elem_of_cons]; [left|left|by right].
    + rewrite lookup_insert_is_Some'. by right.
    + rewrite lookup_insert_is_Some'. by left.
Qed.

Lemma record_response_complete t query response now m q ip ttl :
  answers_query query response m → q ∈ r_questions m → resolves m (q_name q) ip ttl → (0 < ttl)%Z →
  ∃ ttl', record_response_at t query response now !! (q_name q, ip) = Some (now + nanos ttl')%Z ∧
    (0 < ttl')%Z ∧ resolves m (q_name q) ip ttl'.
Proof.
  intros [Hr Hq] Hin Hres Hpos. unfold record_response_at. rewrite Hq, Hr.
  rewrite Z.eqb_refl, bool_decide_true by done. cbn [negb orb].
  destruct (correlated_complete m (r_questions m) q ip ttl Hin Hres) as (ttl1 & Hin1 & Hle).
  set (es := filter _ (correlated m (r_questions m))).
  assert ((q_name q, ip, ttl1) ∈ es) as Hes by (apply list_elem_of_filter; simpl; split; [lia|done]).
  destruct (shortest_ttls_complete _ _ _ Hes) as [ttl' E]. exists ttl'.
  pose proof (shortest_ttls_sound _ _ _ E) as Hs. apply list_elem_of_filter in Hs as [Hs1 Hs2].
  apply correlated_sound in Hs2. split_and!; [|done..].
  apply lookup_union_Some_l. by rewrite lookup_fmap, E.
Qed.

(** *** Names *)

Lemma ascii_valid s : is_ascii s = true → utf8_valid s = true.
Proof.
  unfold is_ascii. induction s as [|b s IH]; [done|]. cbn [forallb]. intros [Hb Hs]%andb_true_iff.
  cbn [utf8_valid]. unfold is_ascii_byte in Hb. breflect. pose proof (bz_range b). unfold in_range at 1.
  rewrite (proj2 (Z.leb_le 0 (bz b))), (proj2 (Z.leb_le (bz b) 127)) by lia. by apply IH.
Qed.

Lemma ascii_lower s : is_ascii s = true → is_ascii (to_ascii_lowercase s) = true.
Proof.
  unfold is_ascii, to_ascii_lowercase. rewrite !forallb_forall. intros Hs b Hb.
  apply list_elem_of_In, list_elem_of_fmap in Hb as (c & -> & Hc). apply list_elem_of_In in Hc.
  specialize (Hs c Hc). unfold is_ascii_byte in *. revert Hs. clear. by destruct c.
Qed.

(** The reader stops on every packet: the fuel is never exhausted. *)
Lemma read_name_from_fuel fuel extra packet offset labels next visited :
  visited ⊆ set_seq 0 (length packet) → S (length packet) ≤ fuel + size visited →
  read_name_from (fuel + extra) packet offset labels next visited
  = read_name_from fuel packet offset labels next visited.
Proof.
  revert offset labels next visited. induction fuel as [|fuel IH]; intros offset labels next visited Hsub Hf.
  { exfalso. apply subseteq_size in Hsub. rewrite size_set_seq in Hsub. lia. }
  cbn [Nat.add read_name_from]. case_bool_decide as Hv; [done|].
  destruct (packet !! offset) as [b|] eqn:Hb; [|done]. cbn [mbind option_bind].
  assert ({[offset]} ∪ visited ⊆ (set_seq 0 (length packet) : gset nat)) as Hsub'.
  { apply union_subseteq. split; [|done]. apply singleton_subseteq_l, elem_of_set_seq.
    apply lookup_lt_Some in Hb. lia. }
  assert (S (length packet) ≤ fuel + size ({[offset]} ∪ visited)) as Hf'.
  { rewrite size_union, size_singleton by set_solver. lia. }
  destruct (_ =? DNS_COMPRESSION_POINTER)%Z.
  - destruct (packet !! (offset + 1)); [|done]. cbn [mbind option_bind]. by apply IH.
  - destruct (negb _); [done|]. destruct (_ =? 0)%Z; [done|].
    destruct (slice_get packet _ _) as [label|]; [|done]. cbn [mbind option_bind].
    destruct (negb _); [done|]. destruct (from_utf8 _); [|done]. cbn [mbind option_bind].
    case_bool_decide; [done|]. by apply IH.
Qed.

Lemma length_byte_ok l : label_wf l →
  let b := byte_of_Z (Z.of_nat (length l)) in
  bz b = Z.of_nat (length l) ∧ Z.land (bz b) DNS_COMPRESSION_POINTER = 0%Z.
Proof.
  intros [Hl _] b. assert (bz b = Z.of_nat (length l)) as Hb by (unfold b; rewrite bz_byte_of_Z, Z.mod_small by lia; done).
  split; [done|]. rewrite Hb. generalize (length l) Hl. clear. intros n Hn.
  assert (n ∈ seq 1 63) as Hin by (apply elem_of_seq; lia). clear Hn. revert n Hin.
  apply Forall_forall. vm_compute. repeat constructor.
Qed.

Lemma labels_length_app a b : labels_length (a ++ b) = labels_length a + labels_length b.
Proof.
  unfold labels_length. rewrite fmap_app, length_app. 
  assert (∀ x y : list nat, sum_list (x ++ y) = sum_list x + sum_list y) as ->; [|lia].
  intros x y. induction x as [|n x IH]; [done|]. simpl. lia.
Qed.

(** Reading a run of labels. *)
Lemma read_labels ls fuel pre post acc next visited :
  Forall label_wf ls →
  (∀ o, o ∈ visited → ¬ length pre ≤ o < length pre + length (encode_labels ls)) →
  labels_length (acc ++ (to_ascii_lowercase <$> ls)) ≤ 255 →
  let packet := pre ++ encode_labels ls ++ post in
  ∃ visited', (∀ o, o ∈ visited' → o ∈ visited ∨ length pre ≤ o < length pre + length (encode_labels ls)) ∧
    read_name_from (length ls + fuel) packet (length pre) acc next visited
    = read_name_from fuel packet (length pre + length (encode_labels ls))
        (acc ++ (to_ascii_lowercase <$> ls)) next visited'.
Proof.
  revert pre acc visited. induction ls as [|l ls IH]; intros pre acc visited Hls Hv Hlen packet.
  { exists visited. simpl. rewrite Nat.add_0_r, app_nil_r. split; [by left|done]. }
  apply Forall_cons in Hls as [Hl Hls]. pose proof (length_byte_ok l Hl) as [Hb Hland].
  set (b := byte_of_Z (Z.of_nat (length l))) in *.
  assert (packet = (pre ++ b :: l) ++ encode_labels ls ++ post) as Hp.
  { unfold packet, encode_labels. cbn [mbind list_bind]. fold b. by rewrite <- !app_assoc. }
  assert (length (encode_labels (l :: ls)) = 1 + length l + length (encode_labels ls)) as He.
  { unfold encode_labels. cbn [mbind list_bind]. rewrite length_app. done. }
  destruct (IH (pre ++ b :: l) (acc ++ [to_ascii_lowercase l]) ({[length pre]} ∪ visited)) as (v' & Hv' & Hread).
  { done. }
  { intros o [->%elem_of_singleton|Ho]%elem_of_union; rewrite length_app; simpl; [lia|]. apply Hv in Ho. rewrite He in Ho. lia. }
  { by rewrite <- app_assoc. }
  exists v'. split.
  { intros o Ho. apply Hv' in Ho. rewrite length_app, He in *. simpl in *. 
    destruct Ho as [[->%elem_of_singleton|Ho]%elem_of_union|Ho]; [right; lia|by left|right; lia]. }
  cbn [length Nat.add read_name_from]. rewrite bool_decide_false by (intros Ho%Hv; rewrite He in Ho; lia).
  assert (packet !! length pre = Some b) as ->.
  { rewrite Hp, <- app_assoc. by apply list_lookup_middle. }
  cbn [mbind option_bind]. rewrite Hland. change (0 =? DNS_COMPRESSION_POINTER)%Z with false. cbn [negb Z.eqb].
  destruct Hl as (Hl & Hascii & Hdot). rewrite Hb, (proj2 (Z.eqb_neq _ 0)) by lia. rewrite Nat2Z.id.
  assert (slice_get packet (length pre + 1) (length pre + 1 + length l) = Some l) as ->.
  { rewrite Hp. unfold slice_get. rewrite !length_app. simpl. rewrite bool_decide_true by lia.
    replace (length pre + 1 + length l - (length pre + 1)) with (length l) by lia.
    rewrite <- app_assoc. rewrite drop_app_ge by lia. replace (length pre + 1 - length pre) with 1 by lia.
    simpl. by rewrite drop_0, take_app_length. }
  cbn [mbind option_bind]. unfold valid_label. rewrite (proj2 (Z.ltb_ge 63 _)), Hascii by lia.
  assert (contains_byte x2e l = false) as -> by (apply not_true_iff_false; by rewrite contains_byte_spec).
  cbn [negb orb].
  unfold from_utf8. rewrite (ascii_valid (to_ascii_lowercase l)) by (by apply ascii_lower). cbn [mbind option_bind].
  rewrite fmap_cons in Hlen. rewrite labels_length_app in Hlen.
  change (labels_length (to_ascii_lowercase l :: (to_ascii_lowercase <$> ls)))
    with (labels_length ([to_ascii_lowercase l] ++ (to_ascii_lowercase <$> ls))) in Hlen.
  rewrite labels_length_app in Hlen.
  rewrite bool_decide_false by (rewrite labels_length_app; lia).
  replace (length pre + 1 + length l) with (length (pre ++ b :: l)) by (rewrite length_app; simpl; lia).
  rewrite Hp, Hread, He, <- app_assoc. cbn [app]. rewrite fmap_cons, length_app. cbn [length].
  rewrite <- (app_assoc acc). by replace (length pre + S (length l) + length (encode_labels ls))
    with (length pre + (1 + length l + length (encode_labels ls))) by lia.
Qed.

Lemma read_end packet offset fuel labels next visited :
  packet !! offset = Some x00 → offset ∉ visited → join (bs ".") labels ≠ [] →
  read_name_from (S fuel) packet offset labels next visited
  = Some (join (bs ".") labels, default (offset + 1) next).
Proof.
  intros Hb Hv Hne. cbn [read_name_from]. rewrite bool_decide_false by done. rewrite Hb.
  cbn [mbind option_bind]. change (bz x00) with 0%Z. cbn [Z.land Z.eqb negb].
  change (0 =? DNS_COMPRESSION_POINTER)%Z with false. cbv iota. by rewrite bool_decide_false.
Qed.

Lemma low_byte_lor h l : (0 ≤ l < 256)%Z → Z.lor (Z.shiftl h 8) l = (h * 256 + l)%Z.
Proof.
  intros Hl. assert (Z.land (Z.shiftl h 8) l = 0%Z) as H0.
  { apply Z.bits_inj_iff'. intros n Hn. rewrite Z.land_spec, Z.bits_0. apply andb_false_iff.
    destruct (decide (n < 8)%Z); [left; by apply Z.shiftl_spec_low|right].
    destruct (decide (l = 0)%Z) as [->|]; [apply Z.bits_0|].
    apply Z.bits_above_log2; [lia|]. apply Z.log2_lt_pow2; [lia|].
    apply Z.lt_le_trans with (2 ^ 8)%Z; [lia|]. apply Z.pow_le_mono_r; lia. }
  rewrite <- Z.lxor_lor by done. rewrite <- Z.add_nocarry_lxor by done.
  by rewrite Z.shiftl_mul_pow2 by lia.
Qed.

Lemma tag_bits h : (0 ≤ h < 64)%Z → (Z.land (192 + h) 192 = 192 ∧ Z.land (192 + h) 63 = h)%Z.
Proof.
  intros Hh. assert (h ∈ (Z.of_nat <$> seq 0 64)) as Hin.
  { apply list_elem_of_fmap. exists (Z.to_nat h). rewrite elem_of_seq. lia. }
  clear Hh. revert h Hin. apply Forall_forall. vm_compute. repeat constructor.
Qed.

Lemma pointer_bytes p :
  (Z.of_nat p < 16384)%Z →
  ∃ hi lo, pointer_to p = [hi; lo] ∧ (Z.land (bz hi) DNS_COMPRESSION_POINTER = DNS_COMPRESSION_POINTER)%Z ∧
    Z.to_nat (Z.lor (Z.shiftl (Z.land (bz hi) 63) 8) (bz lo)) = p.
Proof.
  intros Hp. do 2 eexists. split; [reflexivity|]. rewrite !bz_byte_of_Z.
  set (h := (Z.of_nat p / 256)%Z). set (l := (Z.of_nat p mod 256)%Z).
  assert (0 ≤ h < 64)%Z as Hh by (unfold h; split; [apply Z.div_pos; lia|apply Z.div_lt_upper_bound; lia]).
  assert (0 ≤ l < 256)%Z as Hl by (unfold l; apply Z.mod_pos_bound; lia).
  rewrite (Z.mod_small (192 + h)) by lia.
  destruct (tag_bits h Hh) as [H1 H2].
  unfold DNS_COMPRESSION_POINTER. split; [done|]. rewrite H2.
  rewrite low_byte_lor by done.
  unfold h, l. Z.to_euclidean_division_equations; lia.
Qed.

Lemma read_pointer packet offset fuel labels visited p :
  (Z.of_nat p < 16384)%Z → slice_get packet offset (offset + 2) = Some (pointer_to p) → offset ∉ visited →
  read_name_from (S fuel) packet offset labels None visited
  = read_name_from fuel packet p labels (Some (offset + 2)) ({[offset]} ∪ visited).
Proof.
  intros Hp Hs Hv. destruct (pointer_bytes p Hp) as (hi & lo & Hpb & Hland & Hval). rewrite Hpb in Hs.
  apply slice_get_Some in Hs as (Hs & _ & Hlen).
  assert (packet !! offset = Some hi ∧ packet !! (offset + 1) = Some lo) as [H0 H1].
  { rewrite <- (take_drop offset packet). replace (offset + 2 - offset) with 2 in Hs by lia.
    assert (length (take offset packet) = offset) as Ht by (rewrite length_take; lia).
    destruct (drop offset packet) as [|a [|c rest]]; try done. simpl in Hs. injection Hs as <- <-.
    rewrite !lookup_app_r by lia. rewrite Ht, Nat.sub_diag. replace (offset + 1 - offset) with 1 by lia. done. }
  cbn [read_name_from]. rewrite bool_decide_false by done. rewrite H0. cbn [mbind option_bind].
  rewrite Hland, Z.eqb_refl, H1. cbn [mbind option_bind]. by rewrite Hval.
Qed.

Lemma join_labels_ne (ls : list str) : ls ≠ [] → Forall (λ l, l ≠ []) ls → join (bs ".") ls ≠ [].
Proof.
  intros Hne Hls. destruct Hls as [|l ls Hl Hls]; [done|]. destruct ls; [done|].
  rewrite join_cons by done. by destruct l.
Qed.

Lemma lower_label_ne l : label_wf l → to_ascii_lowercase l ≠ [].
Proof. intros [Hl _] E%(f_equal length). unfold to_ascii_lowercase in E. rewrite length_fmap in E. simpl in E. lia. Qed.

Lemma lower_labels_ne ls : Forall label_wf ls → Forall (λ l, l ≠ []) (to_ascii_lowercase <$> ls).
Proof. intros H. apply Forall_fmap. eapply Forall_impl; [exact H|]. apply lower_label_ne. Qed.

Lemma encode_labels_fits ls : Forall label_wf ls → length ls ≤ length (encode_labels ls).
Proof.
  induction 1 as [|l ls _ _ IH]; [done|]. 
  change (encode_labels (l :: ls)) with ((byte_of_Z (Z.of_nat (length l)) :: l) ++ encode_labels ls).
  rewrite length_app. cbn [length]. lia.
Qed.

Lemma labels_length_lower ls : labels_length (to_ascii_lowercase <$> ls) = labels_length ls.
Proof.
  induction ls as [|l ls IH]; [done|]. rewrite fmap_cons.
  change (labels_length ([to_ascii_lowercase l] ++ (to_ascii_lowercase <$> ls)) = labels_length ([l] ++ ls)).
  rewrite !labels_length_app, IH. f_equal. unfold labels_length, to_ascii_lowercase. simpl. by rewrite length_fmap.
Qed.

Lemma read_plain_name pre ls post :
  Forall label_wf ls → ls ≠ [] → labels_length ls ≤ 255 →
  read_name (pre ++ encode_labels ls ++ [x00] ++ post) (length pre)
  = Some (join (bs ".") (to_ascii_lowercase <$> ls), length pre + length (encode_labels ls) + 1).
Proof.
  intros Hls Hne Hlen. pose proof (encode_labels_fits ls Hls) as Hfits. unfold read_name.
  set (packet := pre ++ encode_labels ls ++ [x00] ++ post).
  assert (length packet = length pre + length (encode_labels ls) + 1 + length post) as Hl
    by (unfold packet; rewrite !length_app; simpl; lia).
  replace (S (length packet)) with (length ls + S (length packet - length ls)) by lia.
  destruct (read_labels ls (S (length packet - length ls)) pre ([x00] ++ post) [] None ∅ Hls)
    as (visited & Hv & E); [set_solver|by rewrite app_nil_l, labels_length_lower|].
  fold packet in E. rewrite E, app_nil_l. apply read_end.
  - unfold packet. rewrite app_assoc. apply list_lookup_middle. by rewrite length_app.
  - intros Hin. apply Hv in Hin as [Hin|?]; [set_solver|lia].
  - apply join_labels_ne; [by destruct ls|by apply lower_labels_ne].
Qed.

(** The labels read at [before] stop at a pointer to the tail at [pre]. *)
Lemma read_compressed_name pre tail mid ls post :
  Forall label_wf (ls ++ tail) → ls ++ tail ≠ [] → labels_length (ls ++ tail) ≤ 255 →
  (Z.of_nat (length pre) < 16384)%Z →
  let before := pre ++ encode_labels tail ++ [x00] ++ mid in
  read_name (before ++ encode_labels ls ++ pointer_to (length pre) ++ post) (length before)
  = Some (join (bs ".") (to_ascii_lowercase <$> (ls ++ tail)), length before + length (encode_labels ls) + 2).
Proof.
  intros Hwf Hne Hlen Hp before. apply Forall_app in Hwf as [Hls Htl].
  pose proof (encode_labels_fits ls Hls). pose proof (encode_labels_fits tail Htl).
  set (packet := before ++ encode_labels ls ++ pointer_to (length pre) ++ post).
  assert (length before = length pre + length (encode_labels tail) + 1 + length mid) as Hb
    by (unfold before; rewrite !length_app; simpl; lia).
  assert (length packet = length before + length (encode_labels ls) + 2 + length post) as Hl
    by (unfold packet; rewrite !length_app; simpl; lia).
  rewrite labels_length_app in Hlen. unfold read_name.
  set (rest := length packet - length ls - length tail - 1).
  replace (S (length packet)) with (length ls + S (length tail + S rest)) by lia.
  destruct (read_labels ls (S (length tail + S rest)) before (pointer_to (length pre) ++ post) [] None ∅ Hls)
    as (v1 & Hv1 & E1); [set_solver|rewrite app_nil_l, labels_length_lower; lia|].
  fold packet in E1. rewrite E1. clear E1. rewrite app_nil_l.
  rewrite (read_pointer packet _ _ _ _ (length pre)); [|done| |].
  2:{ unfold packet, slice_get. rewrite bool_decide_true by (rewrite !length_app; simpl; lia).
      rewrite app_assoc, <- length_app, drop_app_length.
      by replace (length (before ++ encode_labels ls) + 2 - length (before ++ encode_labels ls)) with 2 by lia. }
  2:{ intros Hin. apply Hv1 in Hin as [Hin|?]; [set_solver|lia]. }
  assert (packet = pre ++ encode_labels tail ++ [x00] ++ mid ++ encode_labels ls ++ pointer_to (length pre) ++ post)
    as Hpk by (unfold packet, before; by rewrite <- !app_assoc).
  set (v2 := {[length before + length (encode_labels ls)]} ∪ v1).
  assert (∀ o, o ∈ v2 → length before ≤ o) as Hv2.
  { unfold v2. intros o [->%elem_of_singleton|Ho]%elem_of_union; [lia|]. apply Hv1 in Ho as [Ho|?]; [set_solver|lia]. }
  destruct (read_labels tail (S rest) pre
    ([x00] ++ mid ++ encode_labels ls ++ pointer_to (length pre) ++ post)
    (to_ascii_lowercase <$> ls) (Some (length before + length (encode_labels ls) + 2)) v2 Htl)
    as (v3 & Hv3 & E2); [intros o Ho%Hv2; lia| |].
  { rewrite labels_length_app, !labels_length_lower. lia. }
  rewrite <- Hpk in E2. rewrite E2. clear E2. rewrite <- fmap_app. apply read_end.
  - rewrite Hpk, app_assoc. apply list_lookup_middle. by rewrite length_app.
  - intros Hin. apply Hv3 in Hin as [Hin%Hv2|?]; lia.
  - apply join_labels_ne; [by intros E%fmap_nil_inv|]. apply lower_labels_ne. by apply Forall_app.
Qed.

(** ** Properties *)

(** DNS evidence is exact.  If the tracker says that a host was resolved
    to an address, some recorded response answered its query exactly (same
    identifier, same questions), said so of the canonical host name by an
    address record or a chain of CNAME records, and is still within the
    shortest time to live of that chain.  Conversely, when a recorded response
    answers its query and resolves a question's name through records that may
    be kept, however its CNAME records are ordered or looped, the tracker
    knows the answer until the time to live of such a chain is over.  *)
Theorem dns_evidence_exact :
  (∀ (xs : list exchange) (hostname : str) (address : IpAddr) (now : Z),
     (contains_at (run_tracker xs) hostname address now).2 = true →
     ∃ query response t m name ttl,
       (query, response, t) ∈ xs ∧ answers_query query response m ∧
       canonical_dns_name hostname = Some name ∧ resolves m name address ttl ∧
       (0 < ttl)%Z ∧ (now < t + nanos ttl)%Z) ∧
  (∀ (xs : list exchange) (query response : str) (t : Z) m q (hostname : str) (address : IpAddr) ttl,
     answers_query query response m → q ∈ r_questions m →
     canonical_dns_name hostname = Some (q_name q) → resolves m (q_name q) address ttl → (0 < ttl)%Z →
     ∃ ttl', (0 < ttl')%Z ∧ resolves m (q_name q) address ttl' ∧
       ∀ now, (now < t + nanos ttl')%Z →
         (contains_at (run_tracker (xs ++ [(query, response, t)])) hostname address now).2 = true).
Proof.
  split.
  - intros xs hostname address now. unfold contains_at.
    destruct (canonical_dns_name hostname) as [name|]; [|done]. simpl.
    destruct (retain _ _ !! _) as [expiry|] eqn:E; [|done]. intros Hnow. breflect.
    unfold retain in E. apply map_lookup_filter_Some in E as [E _]. apply run_tracker_sound in E
      as (query & response & t & m & ttl & Hin & Hans & Hres & Hpos & ->).
    exists query, response, t, m, name, ttl. done.
  - intros xs query response t m q hostname address ttl Hans Hq Hname Hres Hpos.
    destruct (record_response_complete (run_tracker xs) query response t m q address ttl)
      as (ttl' & E & Hpos' & Hres'); [done..|].
    exists ttl'. split_and!; [done..|]. intros now Hnow. unfold contains_at. rewrite Hname. cbn [snd].
    unfold run_tracker. rewrite foldl_app. cbn [foldl fst snd]. fold (run_tracker xs). unfold retain.
    rewrite (map_lookup_filter_Some_2 _ _ _ _ E) by done. by apply Z.ltb_lt.
Qed.

(** Reading a compressed name is total and exact.  On any packet the
    reader stops by itself, pointer loops included; it reads back a name
    written as labels, lower-cased, and one whose tail is a pointer to labels
    elsewhere, and returns the offset right after what was written there.  *)
Theorem read_name_exact :
  (∀ packet start extra,
     read_name_from (S (length packet) + extra) packet start [] None ∅ = read_name packet start) ∧
  (∀ pre ls post, Forall label_wf ls → ls ≠ [] → labels_length ls ≤ 255 →
     read_name (pre ++ encode_labels ls ++ [x00] ++ post) (length pre)
     = Some (join (bs ".") (to_ascii_lowercase <$> ls), length pre + length (encode_labels ls) + 1)) ∧
  (∀ pre tail mid ls post, Forall label_wf (ls ++ tail) → ls ++ tail ≠ [] → labels_length (ls ++ tail) ≤ 255 →
     (Z.of_nat (length pre) < 16384)%Z →
     let before := pre ++ encode_labels tail ++ [x00] ++ mid in
     read_name (before ++ encode_labels ls ++ pointer_to (length pre) ++ post) (length before)
     = Some (join (bs ".") (to_ascii_lowercase <$> (ls ++ tail)),
             length before + length (encode_labels ls) + 2)).
Proof.
  split_and!.
  - intros packet start extra. apply read_name_from_fuel; [set_solver|]. rewrite size_empty. lia.
  - apply read_plain_name.
  - apply read_compressed_name.
Qed.

(** A query for [api.example] and its answer, the owner name compressed. *)
Definition sample_question : str := encode_labels [bs "api"; bs "example"] ++ [x00; x00; x01; x00; x01].
Definition sample_query : str :=
  [x12; x34; x01; x00; x00; x01; x00; x00; x00; x00; x00; x00] ++ sample_question.
Definition sample_response : str :=
  [x12; x34; x81; x80; x00; x01; x00; x01; x00; x00; x00; x00] ++ sample_question ++
  pointer_to 12 ++ [x00; x01; x00; x01; x00; x00; x00; x3c; x00; x04; xc0; x00; x02; x0a].

Definition sample_message : ParsedResponse :=
  mkResponse 4660 [mkQuestion (bs "api.example") 1 1]
    [mkAddress (bs "api.example") (V4 (mkIpv4 xc0 x00 x02 x0a)) 60] [].

Lemma dns_evidence_exact_witness :
  (∃ name ttl, canonical_dns_name (bs "API.example.") = Some name ∧ (5 < 1 + nanos ttl)%Z) ∧
  (contains_at (run_tracker [(sample_query, sample_response, 1%Z)]) (bs "api.Example")
     (V4 (mkIpv4 xc0 x00 x02 x0a)) 1).2 = true.
Proof.
  destruct dns_evidence_exact as [Hsound Hcomplete]. split.
  - destruct (Hsound [(sample_query, sample_response, 1%Z)] (bs "API.example.")
      (V4 (mkIpv4 xc0 x00 x02 x0a)) 5%Z) as (query & response & t & m & name & ttl & Hin & _ & Hname & _ & _ & Ht);
      [vm_compute; reflexivity|].
    exists name, ttl. split; [exact Hname|]. apply list_elem_of_singleton in Hin. by injection Hin as _ _ ->.
  - destruct (Hcomplete [] sample_query sample_response 1%Z sample_message (mkQuestion (bs "api.example") 1 1)
      (bs "api.Example") (V4 (mkIpv4 xc0 x00 x02 x0a)) 60%Z) as (ttl' & Hpos & _ & Hnow).
    + split; vm_compute; reflexivity.
    + left.
    + vm_compute. reflexivity.
    + apply (resolves_address sample_message (mkAddress (bs "api.example") (V4 (mkIpv4 xc0 x00 x02 x0a)) 60)). left.
    + lia.
    + apply Hnow. unfold nanos. lia.
Defined.

Lemma read_name_exact_witness :
  read_name ([x00] ++ encode_labels [bs "API"; bs "example"] ++ [x00] ++ [x07]) 1
  = Some (bs "api.example", 14).
Proof.
  destruct read_name_exact as (_ & H & _).
  etransitivity; [apply (H [x00] [bs "API"; bs "example"] [x07])|].
  - repeat constructor; by_compute.
  - discriminate.
  - vm_compute. repeat constructor.
  - vm_compute. reflexivity.
Defined.
