(* ===== verification/Substrate.v ===== *)
(** * The transparent-capture substrate's values (crates/hiloop-interceptor/src/netns/mod.rs)

    The commands run inside the namespaces, the provisioning request, the
    validated network facts a provisioner returns, Linux signal numbers, the
    workload's exit and the startup stages.  [OsString] and [PathBuf] are byte
    strings; the environment's [BTreeMap] is a finite map whose iteration
    order is that of the names' bytes. *)
From Stdlib Require Import Strings.Byte Sorting.Sorted.
From stdpp Require Import sorting.
From S2P Require Import Prelude Text Net Capture.

(** ** Preflight report *)

Record PreflightReport := mkPreflight {
  pf_result : CapturePreflight; pf_ipv4 : bool; pf_ipv6 : bool;
  pf_reason : option CaptureTransportDegradationReason; pf_diagnostic : option str }.

Definition passed (ipv6_available : bool) : PreflightReport :=
  mkPreflight PreflightPassed true ipv6_available None None.
Definition failed (reason : CaptureTransportDegradationReason) (diagnostic : str)
    (ipv4_available ipv6_available : bool) : PreflightReport :=
  mkPreflight PreflightFailed ipv4_available ipv6_available (Some reason) (Some diagnostic).

(** ** Commands *)

Abbreviation OsString := str (only parsing).

Record NamespaceCommand := mkCommand {
  nc_program : OsString;
  nc_args : list OsString;
  nc_environment : gmap OsString (option OsString);
  nc_current_dir : option OsString;
}.

Definition NamespaceCommand_new (program : OsString) : NamespaceCommand := mkCommand program [] ∅ None.

Definition arg (c : NamespaceCommand) (a : OsString) : NamespaceCommand :=
  mkCommand (nc_program c) (nc_args c ++ [a]) (nc_environment c) (nc_current_dir c).
Definition args (c : NamespaceCommand) (l : list OsString) : NamespaceCommand :=
  mkCommand (nc_program c) (nc_args c ++ l) (nc_environment c) (nc_current_dir c).
Definition env (c : NamespaceCommand) (name value : OsString) : NamespaceCommand :=
  mkCommand (nc_program c) (nc_args c) (<[name := Some value]> (nc_environment c)) (nc_current_dir c).
Definition env_remove (c : NamespaceCommand) (name : OsString) : NamespaceCommand :=
  mkCommand (nc_program c) (nc_args c) (<[name := None]> (nc_environment c)) (nc_current_dir c).
Definition current_dir (c : NamespaceCommand) (path : OsString) : NamespaceCommand :=
  mkCommand (nc_program c) (nc_args c) (nc_environment c) (Some path).

(** Byte-wise lexicographic order, that of [OsString]'s [Ord]. *)
Fixpoint name_leb (s t : OsString) : bool :=
  match s, t with
  | [], _ => true
  | _ :: _, [] => false
  | a :: s, b :: t => (bz a <? bz b)%Z || ((bz a =? bz b)%Z && name_leb s t)
  end.

Abbreviation environment_entry := (OsString * option OsString)%type.
Definition entry_le (e f : environment_entry) : Prop := name_leb e.1 f.1 = true.
#[export] Instance entry_le_dec e f : Decision (entry_le e f).
Proof. unfold entry_le. solve_decision. Defined.

(** [BTreeMap::iter] *)
Definition environment_iter (m : gmap OsString (option OsString)) : list environment_entry :=
  merge_sort entry_le (map_to_list m).

(** ** Provisioning request *)

Record ProvisionRequest := mkRequest {
  pr_workload : NamespaceCommand; pr_gateway_worker : NamespaceCommand; pr_intercept_port : option Z }.

Definition ProvisionRequest_new (workload gateway_worker : NamespaceCommand) : ProvisionRequest :=
  mkRequest workload gateway_worker None.
Definition with_intercept_port (r : ProvisionRequest) (port : Z) : ProvisionRequest :=
  mkRequest (pr_workload r) (pr_gateway_worker r) (Some port).

(** [NonZeroU16::new]; the type's values are the nonzero 16-bit integers. *)
Definition NonZeroU16_new (port : Z) : option Z := if (port =? 0)%Z then None else Some port.
Definition nonzero_u16 (port : Z) : Prop := is_u16 port ∧ port ≠ 0%Z.

Definition request_wf (r : ProvisionRequest) : Prop := ∀ port, pr_intercept_port r = Some port → nonzero_u16 port.

(** ** Network facts *)

Inductive FragmentedUdpBehavior := DropFragments.

Record SubstrateInfo := mkInfo {
  si_intercept_port : Z; si_mtu : Z;
  si_gateway_ipv4 : Ipv4Addr; si_gateway_ipv6 : Ipv6Addr;
  si_host_loopback_ipv4 : Ipv4Addr; si_host_loopback_ipv6 : Ipv6Addr;
  si_fragmented_udp : FragmentedUdpBehavior }.

Definition MIN_SUBSTRATE_MTU : Z := 1280.

Inductive SubstrateInfoError :=
| MtuTooSmall (mtu : Z)
| InvalidAddress (field : str) (address : IpAddr)
| DuplicateAddress (first second : str) (address : IpAddr).

#[export] Instance SubstrateInfoError_eq_dec : EqDecision SubstrateInfoError.
Proof. solve_decision. Defined.

(** [IpAddr::is_unspecified], [is_loopback] and [is_multicast] *)
Definition is_unspecified (ip : IpAddr) : bool := forallb (λ b, (bz b =? 0)%Z) (ip_octets ip).
Definition is_loopback (ip : IpAddr) : bool :=
  match ip with
  | V4 a => (bz (v4_a a) =? 127)%Z
  | V6 a => bool_decide (bz <$> ip_octets (V6 a) = replicate 15 0%Z ++ [1%Z])
  end.
Definition is_multicast (ip : IpAddr) : bool :=
  match ip with
  | V4 a => (224 <=? bz (v4_a a))%Z && (bz (v4_a a) <=? 239)%Z
  | V6 a => match ip_octets (V6 a) with b :: _ => (bz b =? 255)%Z | [] => false end
  end.

Definition validate_substrate_address (field : str) (address : IpAddr) : result SubstrateInfoError unit :=
  if is_unspecified address || is_loopback address || is_multicast address
  then Err (InvalidAddress field address) else Ok tt.

Definition require_distinct_addresses (first : str) (first_address : IpAddr) (second : str)
    (second_address : IpAddr) : result SubstrateInfoError unit :=
  if bool_decide (first_address = second_address) then Err (DuplicateAddress first second first_address)
  else Ok tt.

Definition SubstrateInfo_new (intercept_port mtu : Z) (gateway_ipv4 : Ipv4Addr) (gateway_ipv6 : Ipv6Addr)
    (host_loopback_ipv4 : Ipv4Addr) (host_loopback_ipv6 : Ipv6Addr) (fragmented_udp : FragmentedUdpBehavior)
    : result SubstrateInfoError SubstrateInfo :=
  if (mtu <? MIN_SUBSTRATE_MTU)%Z then Err (MtuTooSmall mtu)
  else
    _ ← validate_substrate_address (bs "gateway_ipv4") (V4 gateway_ipv4);
    _ ← validate_substrate_address (bs "gateway_ipv6") (V6 gateway_ipv6);
    _ ← validate_substrate_address (bs "host_loopback_ipv4") (V4 host_loopback_ipv4);
    _ ← validate_substrate_address (bs "host_loopback_ipv6") (V6 host_loopback_ipv6);
    _ ← require_distinct_addresses (bs "gateway_ipv4") (V4 gateway_ipv4)
          (bs "host_loopback_ipv4") (V4 host_loopback_ipv4);
    _ ← require_distinct_addresses (bs "gateway_ipv6") (V6 gateway_ipv6)
          (bs "host_loopback_ipv6") (V6 host_loopback_ipv6);
    Ok (mkInfo intercept_port mtu gateway_ipv4 gateway_ipv6 host_loopback_ipv4 host_loopback_ipv6
          fragmented_udp).

(** ** Signals, exits and stages *)

Definition MAX_LINUX_SIGNAL : Z := 64.

Record LinuxSignal := mkSignal { get_signal : Z }.
Record InvalidLinuxSignal := mkInvalidSignal { invalid_value : Z }.

Definition LinuxSignal_new (value : Z) : result InvalidLinuxSignal LinuxSignal :=
  if (1 <=? value)%Z && (value <=? MAX_LINUX_SIGNAL)%Z then Ok (mkSignal value) else Err (mkInvalidSignal value).

Inductive SubstrateExit := ExitCode (code : Z) | ExitSignal (signal : LinuxSignal).

Definition exit_wf (e : SubstrateExit) : Prop :=
  match e with ExitCode _ => True | ExitSignal s => (1 ≤ get_signal s ≤ MAX_LINUX_SIGNAL)%Z end.

Inductive StartupStage := StagePasta | StageNamespace | StageVeth | StageRouting | StageGatewayWorker | StageWorkload.

Definition StartupStage_fmt (s : StartupStage) : str :=
  match s with
  | StagePasta => bs "pasta"
  | StageNamespace => bs "namespace"
  | StageVeth => bs "veth"
  | StageRouting => bs "routing"
  | StageGatewayWorker => bs "gateway_worker"
  | StageWorkload => bs "workload"
  end.

(** ** What the constructors guarantee *)

(** An address an infrastructure role may have. *)
Definition endpoint_ok (ip : IpAddr) : Prop :=
  is_unspecified ip = false ∧ is_loopback ip = false ∧ is_multicast ip = false.

Definition info_wf (i : SubstrateInfo) : Prop :=
  (MIN_SUBSTRATE_MTU ≤ si_mtu i)%Z ∧
  endpoint_ok (V4 (si_gateway_ipv4 i)) ∧ endpoint_ok (V6 (si_gateway_ipv6 i)) ∧
  endpoint_ok (V4 (si_host_loopback_ipv4 i)) ∧ endpoint_ok (V6 (si_host_loopback_ipv6 i)) ∧
  si_gateway_ipv4 i ≠ si_host_loopback_ipv4 i ∧ si_gateway_ipv6 i ≠ si_host_loopback_ipv6 i.

Lemma validate_address_Ok field ip : validate_substrate_address field ip = Ok tt ↔ endpoint_ok ip.
Proof.
  unfold validate_substrate_address, endpoint_ok.
  destruct (is_unspecified ip), (is_loopback ip), (is_multicast ip); cbn; intuition congruence.
Qed.

Lemma distinct_Ok first a second b : require_distinct_addresses first a second b = Ok tt ↔ a ≠ b.
Proof. unfold require_distinct_addresses. case_bool_decide; intuition congruence. Qed.

Lemma SubstrateInfo_new_Ok port mtu g4 g6 h4 h6 frag info :
  SubstrateInfo_new port mtu g4 g6 h4 h6 frag = Ok info ↔
  info = mkInfo port mtu g4 g6 h4 h6 frag ∧ info_wf info.
Proof.
  unfold SubstrateInfo_new, info_wf. split.
  - destruct (Z.ltb_spec mtu MIN_SUBSTRATE_MTU) as [|Hm]; [done|]. rewrite !bind_Ok.
    intros ([] & H1 & H). apply bind_Ok in H as ([] & H2 & H). apply bind_Ok in H as ([] & H3 & H).
    apply bind_Ok in H as ([] & H4 & H). apply bind_Ok in H as ([] & H5 & H).
    apply bind_Ok in H as ([] & H6 & H). simplify_eq.
    apply validate_address_Ok in H1, H2, H3, H4. apply distinct_Ok in H5, H6.
    cbn. intuition congruence.
  - intros [-> (Hm & H1 & H2 & H3 & H4 & H5 & H6)]. cbn in *. rewrite (proj2 (Z.ltb_ge _ _)) by done.
    do 4 (rewrite (proj2 (validate_address_Ok _ _)) by done; cbn [mbind result_bind]).
    do 2 (rewrite (proj2 (distinct_Ok _ _ _ _)) by congruence; cbn [mbind result_bind]). done.
Qed.

Lemma LinuxSignal_new_Ok v s :
  LinuxSignal_new v = Ok s ↔ s = mkSignal v ∧ (1 ≤ v ≤ MAX_LINUX_SIGNAL)%Z.
Proof.
  unfold LinuxSignal_new. destruct (Z.leb_spec 1 v), (Z.leb_spec v MAX_LINUX_SIGNAL); cbn;
    split; intros; destruct_and?; simplify_eq; try done; lia.
Qed.

(** ** The environment's iteration order *)

Lemma name_leb_total s t : name_leb s t = true ∨ name_leb t s = true.
Proof.
  revert t. induction s as [|a s IH]; intros [|b t]; cbn; try tauto.
  destruct (Z.ltb_spec (bz a) (bz b)), (Z.ltb_spec (bz b) (bz a)); cbn; try tauto; try lia.
  rewrite !(proj2 (Z.eqb_eq _ _)) by lia. apply IH.
Qed.

#[export] Instance entry_le_total : Total entry_le.
Proof. intros e f. apply name_leb_total. Qed.

Lemma environment_iter_perm m : environment_iter m ≡ₚ map_to_list m.
Proof. apply merge_sort_Permutation. Qed.

Lemma environment_iter_sorted m : Sorted entry_le (environment_iter m).
Proof. apply Sorted_merge_sort, entry_le_total. Qed.

Lemma environment_iter_map m : list_to_map (environment_iter m) = m.
Proof.
  rewrite <- (list_to_map_to_list m) at 2. apply list_to_map_proper, environment_iter_perm.
  rewrite environment_iter_perm. apply NoDup_fst_map_to_list.
Qed.

Lemma environment_iter_NoDup m : NoDup (environment_iter m).*1.
Proof. rewrite environment_iter_perm. apply NoDup_fst_map_to_list. Qed.
