(* ===== verification/Protocol.v ===== *)
(** * The namespace control protocol (crates/hiloop-interceptor/src/netns/protocol.rs)

    Length-prefixed JSON frames between the supervisor, the namespace manager
    and the workload, and the conversions between the substrate's values and
    what travels in the frames.

    JSON itself ([serde_json]) and the stream a frame is written to or read
    from are interfaces: [SerdeJson], [Write] and [Read].  The asynchronous
    [send_async] and [receive_async] are the same sequence of operations as
    [send_sync] and [receive_sync]. *)
From Stdlib Require Import Strings.Byte Sorting.Sorted.
From S2P Require Import Prelude Text Net Capture Substrate.

(** ** Errors and interfaces *)

Inductive IoErrorKind :=
  InvalidData | UnexpectedEof | TimedOut | PermissionDenied | InvalidInput | BrokenPipe | Interrupted
| ConnectionReset | ConnectionAborted | NotFound | OtherKind.
Inductive IoErrorSource :=
| ErrorText (message : str)
| ErrorSubstrate (error : SubstrateInfoError)
| ErrorSignal (error : InvalidLinuxSignal).
Record IoError := mkIoError { io_kind : IoErrorKind; io_source : IoErrorSource }.

Definition io_error (kind : IoErrorKind) (text : str) : IoError := mkIoError kind (ErrorText text).
(** [io::Error::other] *)
Definition io_other (text : str) : IoError := io_error OtherKind text.

Definition show_int (z : Z) : str := if (z <? 0)%Z then bs "-" ++ show_uint (- z) else show_uint z.

Definition SubstrateInfoError_fmt (e : SubstrateInfoError) : str :=
  match e with
  | MtuTooSmall mtu =>
      bs "substrate MTU " ++ show_uint mtu ++ bs " is smaller than the required minimum " ++ show_uint MIN_SUBSTRATE_MTU
  | InvalidAddress field address =>
      field ++ bs " address " ++ fmt_ip address ++ bs " must not be unspecified, loopback, or multicast"
  | DuplicateAddress first second address =>
      first ++ bs " and " ++ second ++ bs " must use distinct addresses, both were " ++ fmt_ip address
  end.
Definition InvalidLinuxSignal_fmt (e : InvalidLinuxSignal) : str :=
  bs "invalid Linux signal number " ++ show_int (invalid_value e) ++ bs "; expected 1..=" ++ show_uint MAX_LINUX_SIGNAL.
Definition IoError_fmt (e : IoError) : str :=
  match io_source e with
  | ErrorText text => text
  | ErrorSubstrate error => SubstrateInfoError_fmt error
  | ErrorSignal error => InvalidLinuxSignal_fmt error
  end.

(** [serde_json::to_vec] and [from_slice] at one message type; an error is
    its text. *)
Class SerdeJson (T : Type) := {
  to_vec : T → result str str;
  from_slice : str → result str T;
}.
Class SerdeLaws (T : Type) `{SerdeJson T} :=
  from_slice_to_vec : ∀ v payload, to_vec v = Ok payload → from_slice payload = Ok v.

(** [std::io::Write] and [Read]: the stream after the call, and its outcome. *)
Class Write (W : Type) := {
  write_all : W → str → W * result IoError unit;
  flush : W → W * result IoError unit;
}.
Class Read (R : Type) := read_exact : R → nat → R * result IoError str.

(** [impl Write for Vec<u8>] and [impl Read for &[u8]] *)
#[export] Instance vec_write : Write str := {
  write_all w s := (w ++ s, Ok tt);
  flush w := (w, Ok tt);
}.
#[export] Instance slice_read : Read str := λ r n,
  if bool_decide (length r < n) then ([], Err (mkIoError UnexpectedEof (ErrorText (bs "failed to fill whole buffer"))))
  else (drop n r, Ok (take n r)).

(** A codec that writes one value only, as a given text: the least that
    satisfies the laws of a witness. *)
Module Single.
Definition codec {T} `{EqDecision T} (text : str) (v0 : T) : SerdeJson T := {|
  to_vec v := if decide (v = v0) then Ok text else Err (bs "unexpected value");
  from_slice s := if decide (s = text) then Ok v0 else Err (bs "unexpected text");
|}.
Lemma single_written {T} `{EqDecision T} text (v0 v : T) payload : @to_vec _ (codec text v0) v = Ok payload → v = v0 ∧ payload = text.
Proof. simpl. destruct (decide (v = v0)) as [->|]; [|done]. by intros [= <-]. Qed.
Lemma single_writes {T} `{EqDecision T} text (v0 : T) : @to_vec _ (codec text v0) v0 = Ok text.
Proof. simpl. by rewrite decide_True. Qed.
Lemma single_reads {T} `{EqDecision T} text (v0 : T) : @from_slice _ (codec text v0) text = Ok v0.
Proof. simpl. by rewrite decide_True. Qed.
Lemma single_laws {T} `{EqDecision T} text (v0 : T) : @SerdeLaws T (codec text v0).
Proof. intros v payload [-> ->]%single_written. apply single_reads. Qed.
End Single.

(** ** Frames *)

Definition MAX_FRAME_BYTES : Z := 1024 * 1024.

Definition invalid_data (error : str) : IoError := mkIoError InvalidData (ErrorText error).
Definition frame_too_large : IoError := invalid_data (bs "namespace control frame exceeds 1 MiB").

Definition checked_length (length : Z) : result IoError Z :=
  if (MAX_FRAME_BYTES <? length)%Z then Err frame_too_large
  else if (length <=? u32_max)%Z then Ok length else Err (invalid_data (bs "control frame is too large")).

Definition u32_to_be_bytes (z : Z) : str :=
  [byte_of_Z (z / 16777216); byte_of_Z (z / 65536); byte_of_Z (z / 256); byte_of_Z z].
Definition u32_from_be_bytes (s : str) : Z := fold_left (λ acc b, acc * 256 + bz b)%Z s 0%Z.

Definition frame_length (bytes : str) : result IoError Z :=
  let length := u32_from_be_bytes bytes in
  if (MAX_FRAME_BYTES <? length)%Z then Err frame_too_large else Ok length.

Section frames.
Context {T : Type} `{SerdeJson T}.

Definition send_sync {W} `{Write W} (writer : W) (value : T) : W * result IoError unit :=
  match map_err invalid_data (to_vec value) with
  | Err e => (writer, Err e)
  | Ok payload =>
      match checked_length (Z.of_nat (length payload)) with
      | Err e => (writer, Err e)
      | Ok len =>
          match write_all writer (u32_to_be_bytes len) with
          | (writer, Err e) => (writer, Err e)
          | (writer, Ok _) =>
              match write_all writer payload with
              | (writer, Err e) => (writer, Err e)
              | (writer, Ok _) => flush writer
              end
          end
      end
  end.

Definition receive_sync {R} `{Read R} (reader : R) : R * result IoError T :=
  match read_exact reader 4 with
  | (reader, Err e) => (reader, Err e)
  | (reader, Ok header) =>
      match frame_length header with
      | Err e => (reader, Err e)
      | Ok len =>
          match read_exact reader (Z.to_nat len) with
          | (reader, Err e) => (reader, Err e)
          | (reader, Ok payload) => (reader, map_err invalid_data (from_slice payload))
          end
      end
  end.

(** A peer sending, and one receiving, several messages in turn. *)
Fixpoint send_all {W} `{Write W} (writer : W) (values : list T) : W * result IoError unit :=
  match values with
  | [] => (writer, Ok tt)
  | v :: values =>
      match send_sync writer v with
      | (writer, Err e) => (writer, Err e)
      | (writer, Ok _) => send_all writer values
      end
  end.

Fixpoint receive_n {R} `{Read R} (reader : R) (n : nat) : R * result IoError (list T) :=
  match n with
  | O => (reader, Ok [])
  | S n =>
      match receive_sync reader with
      | (reader, Err e) => (reader, Err e)
      | (reader, Ok v) =>
          match receive_n reader n with
          | (reader, Err e) => (reader, Err e)
          | (reader, Ok vs) => (reader, Ok (v :: vs))
          end
      end
  end.

End frames.

(** The values a frame can carry. *)
Definition sendable {T} `{SerdeJson T} (v : T) : Prop :=
  ∃ payload, to_vec v = Ok payload ∧ (Z.of_nat (length payload) ≤ MAX_FRAME_BYTES)%Z.

Definition frame (payload : str) : str := u32_to_be_bytes (Z.of_nat (length payload)) ++ payload.

(** ** Wire values *)

Module Wire.

Inductive DegradationReason :=
| UnsupportedPlatform | UserNamespaceDenied | TproxyUnavailable | TunUnavailable
| PastaMissing | Ipv6Unavailable | ResolverUnavailable | NetnsStartupFailed.

Definition of_reason (r : CaptureTransportDegradationReason) : DegradationReason :=
  match r with
  | Capture.UnsupportedPlatform => UnsupportedPlatform
  | Capture.UserNamespaceDenied => UserNamespaceDenied
  | Capture.TproxyUnavailable => TproxyUnavailable
  | Capture.TunUnavailable => TunUnavailable
  | Capture.PastaMissing => PastaMissing
  | Capture.Ipv6Unavailable => Ipv6Unavailable
  | Capture.ResolverUnavailable => ResolverUnavailable
  | Capture.NetnsStartupFailed => NetnsStartupFailed
  end.

Definition to_reason (r : DegradationReason) : CaptureTransportDegradationReason :=
  match r with
  | UnsupportedPlatform => Capture.UnsupportedPlatform
  | UserNamespaceDenied => Capture.UserNamespaceDenied
  | TproxyUnavailable => Capture.TproxyUnavailable
  | TunUnavailable => Capture.TunUnavailable
  | PastaMissing => Capture.PastaMissing
  | Ipv6Unavailable => Capture.Ipv6Unavailable
  | ResolverUnavailable => Capture.ResolverUnavailable
  | NetnsStartupFailed => Capture.NetnsStartupFailed
  end.

Inductive Stage := Pasta | Namespace | Veth | Routing | GatewayWorker | Workload.

Definition of_stage (s : StartupStage) : Stage :=
  match s with
  | StagePasta => Pasta | StageNamespace => Namespace | StageVeth => Veth
  | StageRouting => Routing | StageGatewayWorker => GatewayWorker | StageWorkload => Workload
  end.

Definition to_stage (s : Stage) : StartupStage :=
  match s with
  | Pasta => StagePasta | Namespace => StageNamespace | Veth => StageVeth
  | Routing => StageRouting | GatewayWorker => StageGatewayWorker | Workload => StageWorkload
  end.

Inductive Exit := Code (code : Z) | Signal (signal : Z).

Definition of_exit (e : SubstrateExit) : Exit :=
  match e with ExitCode c => Code c | ExitSignal s => Signal (get_signal s) end.

Definition to_exit (e : Exit) : result IoError SubstrateExit :=
  match e with
  | Code c => Ok (ExitCode c)
  | Signal s => map_err (λ error, mkIoError InvalidData (ErrorSignal error)) (ExitSignal <$> LinuxSignal_new s)
  end.

Record Command := mkCommand {
  program : str; args : list str;
  environment : list (str * option str);
  current_dir : option str }.

Definition of_command (c : NamespaceCommand) : Command :=
  mkCommand (nc_program c) (nc_args c) (environment_iter (nc_environment c)) (nc_current_dir c).

Definition set_variable (c : NamespaceCommand) (e : environment_entry) : NamespaceCommand :=
  match e.2 with
  | Some value => env c e.1 value
  | None => env_remove c e.1
  end.

Definition into_command (w : Command) : NamespaceCommand :=
  let command := Substrate.args (NamespaceCommand_new (program w)) (args w) in
  let command := fold_left set_variable (environment w) command in
  match current_dir w with
  | Some dir => Substrate.current_dir command dir
  | None => command
  end.

Record ExecCommand := mkExec { exec_program : str; exec_args : list str }.
Definition ExecCommand_new (program : str) (args : list str) : ExecCommand := mkExec program args.
Definition exec_into_parts (e : ExecCommand) : str * list str := (exec_program e, exec_args e).

Record Provision := mkProvision {
  workload : Command; gateway_worker : Command; intercept_port : option Z;
  require_ipv6 : bool; validate_dataplane : bool; resolv_conf : str }.

Definition from_request (r : ProvisionRequest) (require_ipv6 validate_dataplane : bool) (resolv_conf : str)
    : Provision :=
  mkProvision (of_command (pr_workload r)) (of_command (pr_gateway_worker r)) (pr_intercept_port r)
    require_ipv6 validate_dataplane resolv_conf.

Record ProvisionParts := mkParts {
  p_workload : Command; p_gateway_worker : Command; p_port : option Z;
  p_require_ipv6 : bool; p_validate_dataplane : bool; p_resolv_conf : str }.

Definition into_parts (w : Provision) : result IoError ProvisionParts :=
  port ← match intercept_port w with
         | None => Ok None
         | Some port => Some <$> ok_or (NonZeroU16_new port) (invalid_data (bs "intercept port must be nonzero"))
         end;
  Ok (mkParts (workload w) (gateway_worker w) port (require_ipv6 w) (validate_dataplane w) (resolv_conf w)).

Record Info := mkInfo {
  i_intercept_port : Z; i_mtu : Z;
  i_gateway_ipv4 : Ipv4Addr; i_gateway_ipv6 : Ipv6Addr;
  i_host_loopback_ipv4 : Ipv4Addr; i_host_loopback_ipv6 : Ipv6Addr }.

Definition of_info (i : SubstrateInfo) : Info :=
  mkInfo (si_intercept_port i) (si_mtu i) (si_gateway_ipv4 i) (si_gateway_ipv6 i)
    (si_host_loopback_ipv4 i) (si_host_loopback_ipv6 i).

Definition to_info (i : Info) : result IoError SubstrateInfo :=
  port ← ok_or (NonZeroU16_new (i_intercept_port i)) (invalid_data (bs "manager returned port zero"));
  map_err (λ error, mkIoError InvalidData (ErrorSubstrate error))
    (SubstrateInfo_new port (i_mtu i) (i_gateway_ipv4 i) (i_gateway_ipv6 i) (i_host_loopback_ipv4 i)
       (i_host_loopback_ipv6 i) DropFragments).

End Wire.

(** ** Messages *)

Inductive SupervisorMessage :=
| IdMapsInstalled | PastaReady | Configure (request : Wire.Provision) | Shutdown.

Inductive ManagerMessage :=
| UserNamespaceReady
| GatewayNamespaceReady (pid : Z)
| Ready (info : Wire.Info)
| WorkloadExited (exit : Wire.Exit)
| ManagerFailed (stage : Wire.Stage) (reason : Wire.DegradationReason) (diagnostic : str)
| CleanupComplete (failures : list str).

Inductive WorkloadMessage :=
| WorkloadConfigure (commands : list Wire.ExecCommand) (hosts_path resolv_path : str)
| WorkloadStart (command : Wire.Command)
| WorkloadShutdown.

Inductive WorkloadReply :=
| WorkloadReady
| ExecFailed (diagnostic : str)
| WorkloadFailed (reason : Wire.DegradationReason) (diagnostic : str).

(** ** Frame lemmas *)

Lemma u32_from_to z : (0 ≤ z ≤ u32_max)%Z → u32_from_be_bytes (u32_to_be_bytes z) = z.
Proof.
  unfold u32_max. intros Hz. unfold u32_from_be_bytes, u32_to_be_bytes. cbn [fold_left].
  rewrite !bz_byte_of_Z. Z.to_euclidean_division_equations; lia.
Qed.

Lemma div_octet x b : ((x * 256 + bz b) / 256 = x)%Z.
Proof. pose proof (bz_range b). rewrite Z.div_add_l, Z.div_small by lia. lia. Qed.

Lemma byte_of_octet x b : byte_of_Z (x * 256 + bz b) = b.
Proof.
  apply (inj bz). pose proof (bz_range b).
  rewrite bz_byte_of_Z, Z.add_comm, Z.mod_add, Z.mod_small by lia. done.
Qed.

Lemma u32_to_from s : length s = 4 → u32_to_be_bytes (u32_from_be_bytes s) = s.
Proof.
  destruct s as [|a [|b [|c [|d [|]]]]]; intros [=]. unfold u32_from_be_bytes, u32_to_be_bytes. cbn [fold_left].
  change 16777216%Z with (256 * 256 * 256)%Z. change 65536%Z with (256 * 256)%Z.
  rewrite <- !Z.div_div, !div_octet by lia. rewrite !byte_of_octet. done.
Qed.

Lemma u32_from_range s : length s = 4 → (0 ≤ u32_from_be_bytes s ≤ u32_max)%Z.
Proof.
  destruct s as [|a [|b [|c [|d [|]]]]]; intros [=]. unfold u32_from_be_bytes, u32_max. cbn [fold_left].
  pose proof (bz_range a). pose proof (bz_range b). pose proof (bz_range c). pose proof (bz_range d). lia.
Qed.

Lemma checked_length_Ok n : (n ≤ MAX_FRAME_BYTES)%Z → checked_length n = Ok n.
Proof.
  unfold checked_length, MAX_FRAME_BYTES, u32_max. intros.
  rewrite (proj2 (Z.ltb_ge _ _)), (proj2 (Z.leb_le _ _)) by lia. done.
Qed.

Lemma frame_length_Ok n : (0 ≤ n ≤ MAX_FRAME_BYTES)%Z → frame_length (u32_to_be_bytes n) = Ok n.
Proof.
  intros Hn. assert (0 ≤ n ≤ u32_max)%Z by (unfold MAX_FRAME_BYTES, u32_max in *; lia).
  unfold frame_length. rewrite u32_from_to by done. rewrite (proj2 (Z.ltb_ge _ _)) by lia. done.
Qed.

Lemma slice_read_Ok (r : str) n s r' : read_exact r n = (r', Ok s) ↔ r = s ++ r' ∧ length s = n.
Proof.
  unfold read_exact, slice_read. split.
  - case_bool_decide; intros; simplify_eq. rewrite take_drop, length_take. split; [done|lia].
  - intros [-> <-]. rewrite bool_decide_false by (rewrite length_app; lia).
    rewrite drop_app_length, take_app_length. done.
Qed.

Lemma slice_read_short (r : str) n :
  length r < n → ∃ source, read_exact r n = ([], Err (mkIoError UnexpectedEof source)).
Proof. intros. unfold read_exact, slice_read. rewrite bool_decide_true by done. eauto. Qed.

Section frame_lemmas.
Context {T : Type} `{SerdeJson T}.
Implicit Types (r w payload : str) (v : T).

Lemma receive_sync_Ok r r' v :
  receive_sync r = (r', Ok v) ↔
  ∃ payload, r = frame payload ++ r' ∧ (Z.of_nat (length payload) ≤ MAX_FRAME_BYTES)%Z ∧
    from_slice payload = Ok v.
Proof.
  unfold receive_sync. split.
  - destruct (read_exact r 4) as [r1 [header|e]] eqn:E1; [|done]. apply slice_read_Ok in E1 as [-> Hh].
    unfold frame_length. pose proof (u32_from_range _ Hh).
    destruct (Z.ltb_spec MAX_FRAME_BYTES (u32_from_be_bytes header)); [done|].
    destruct (read_exact r1 _) as [r2 [payload|e]] eqn:E2; [|done]. apply slice_read_Ok in E2 as [-> Hp].
    intros [= -> Hv]. exists payload. apply map_err_Ok in Hv. split_and!; [|lia|done].
    unfold frame. rewrite <- app_assoc, Hp, Z2Nat.id, u32_to_from by (lia || done). done.
  - intros (payload & -> & Hl & Hv). unfold frame. rewrite <- app_assoc.
    rewrite (proj2 (slice_read_Ok _ _ _ _)) by done. rewrite frame_length_Ok by lia. rewrite Nat2Z.id.
    rewrite (proj2 (slice_read_Ok _ _ _ _)) by done. rewrite Hv. done.
Qed.

Lemma send_sync_Ok w v payload :
  to_vec v = Ok payload → (Z.of_nat (length payload) ≤ MAX_FRAME_BYTES)%Z →
  send_sync w v = (w ++ frame payload, Ok tt).
Proof.
  intros Hv Hl. unfold send_sync, frame. rewrite Hv. cbn [map_err].
  rewrite checked_length_Ok by done. cbn -[u32_to_be_bytes]. rewrite <- app_assoc. done.
Qed.

Lemma receive_truncated payload r :
  (Z.of_nat (length payload) ≤ MAX_FRAME_BYTES)%Z → (∃ rest, rest ≠ [] ∧ r ++ rest = frame payload) →
  ∃ r' source, receive_sync r = (r', Err (mkIoError UnexpectedEof source)).
Proof.
  intros Hl (rest & Hne & E). unfold receive_sync. destruct (decide (length r < 4)) as [Hs|Hs].
  { destruct (slice_read_short r 4 Hs) as [src ->]. eauto. }
  assert (∃ p, r = u32_to_be_bytes (Z.of_nat (length payload)) ++ p ∧ payload = p ++ rest) as (p & -> & ->).
  { exists (drop 4 r). unfold frame in E. rewrite <- (take_drop 4 r), <- app_assoc in E.
    apply app_inj_1 in E as [E1 E2]; [|rewrite length_take_le by lia; done]. rewrite <- E1, take_drop. done. }
  rewrite (proj2 (slice_read_Ok _ _ _ _)) by done. rewrite frame_length_Ok by lia. rewrite Nat2Z.id.
  destruct (slice_read_short p (length (p ++ rest))) as [src ->]; [|eauto].
  rewrite length_app. destruct rest; [done|cbn; lia].
Qed.

End frame_lemmas.

(** ** Wire lemmas *)

Lemma to_of_reason r : Wire.to_reason (Wire.of_reason r) = r.
Proof. by destruct r. Qed.
Lemma to_of_stage s : Wire.to_stage (Wire.of_stage s) = s.
Proof. by destruct s. Qed.

Lemma set_variables_spec env0 es c :
  nc_environment c = env0 → NoDup es.*1 →
  fold_left Wire.set_variable es c =
    Substrate.mkCommand (nc_program c) (nc_args c) (list_to_map es ∪ env0) (nc_current_dir c).
Proof.
  revert c env0. induction es as [|[n v] es IH]; intros c env0 Hc Hes.
  { cbn. rewrite (left_id_L ∅ (∪)), <- Hc. destruct c; done. }
  cbn [fmap list_fmap fst] in Hes. apply NoDup_cons in Hes as [Hn Hes]. cbn [fold_left].
  rewrite (IH _ (<[n:=v]> env0)); [|destruct v; cbn; rewrite Hc; done|done].
  assert ((list_to_map es : gmap str (option str)) !! n = None) as Hnone by (by apply not_elem_of_list_to_map_1).
  assert ((list_to_map es : gmap str (option str)) ∪ <[n:=v]> env0 = <[n:=v]> (list_to_map es) ∪ env0) as Hu.
  { rewrite <- insert_union_r by done. apply insert_union_l. }
  rewrite list_to_map_cons, <- Hu. destruct v; done.
Qed.

Lemma into_of_command c : Wire.into_command (Wire.of_command c) = c.
Proof.
  unfold Wire.into_command, Wire.of_command. cbn [Wire.program Wire.args Wire.environment Wire.current_dir].
  rewrite (set_variables_spec ∅) by (done || apply environment_iter_NoDup).
  rewrite environment_iter_map, (right_id_L ∅ (∪)). destruct c as [p a e [d|]]; done.
Qed.

(** ** Properties *)

Section properties.
Context {T : Type} `{SerdeLaws T}.

(** Sending messages one after the other on a stream and receiving the
    same number of frames gives back exactly these messages in their order and
    leaves what follows them on the stream untouched, provided each message
    serializes to at most 1 MiB. *)
Theorem control_frames_roundtrip (msgs : list T) (before : str) :
  Forall sendable msgs →
  ∃ wire, send_all before msgs = (before ++ wire, Ok tt) ∧
    ∀ rest, receive_n (wire ++ rest) (length msgs) = (rest, Ok msgs).
Proof.
  intros Hs. revert before. induction Hs as [|v msgs (payload & Hv & Hl) _ IH]; intros before.
  { exists []. rewrite app_nil_r. done. }
  destruct (IH (before ++ frame payload)) as (wire & E & Hr). exists (frame payload ++ wire). split.
  - cbn [send_all]. rewrite (send_sync_Ok _ _ payload) by done. rewrite E, <- app_assoc. done.
  - intros rest. cbn [receive_n length].
    rewrite (proj2 (receive_sync_Ok _ (wire ++ rest) v)).
    + rewrite Hr. done.
    + exists payload. rewrite <- app_assoc. eauto using from_slice_to_vec.
Qed.

(** A message is received exactly when the stream starts with a frame of
    at most 1 MiB whose payload parses to it, and exactly that frame is
    consumed.  A header announcing more is refused before its payload is read,
    a stream that ends inside a frame is an unexpected end of file, and on any
    writer an oversized message is refused with nothing written. *)
Theorem control_frame_exact :
  (∀ (r r' : str) (v : T), receive_sync r = (r', Ok v) ↔
     ∃ payload, r = frame payload ++ r' ∧ (Z.of_nat (length payload) ≤ MAX_FRAME_BYTES)%Z ∧
       from_slice payload = Ok v) ∧
  (∀ (header rest : str), length header = 4 → (MAX_FRAME_BYTES < u32_from_be_bytes header)%Z →
     receive_sync (T := T) (header ++ rest) = (rest, Err frame_too_large)) ∧
  (∀ (payload r : str), (Z.of_nat (length payload) ≤ MAX_FRAME_BYTES)%Z →
     (∃ rest, rest ≠ [] ∧ r ++ rest = frame payload) →
     ∃ r' source, receive_sync (T := T) r = (r', Err (mkIoError UnexpectedEof source))) ∧
  (∀ {W} `{Write W} (w : W) (v : T) payload, to_vec v = Ok payload →
     (MAX_FRAME_BYTES < Z.of_nat (length payload))%Z → send_sync w v = (w, Err frame_too_large)).
Proof.
  split_and!.
  - apply receive_sync_Ok.
  - intros header rest Hh Hl. unfold receive_sync, frame_length.
    rewrite (proj2 (slice_read_Ok _ _ header rest)) by done. rewrite (proj2 (Z.ltb_lt _ _)) by done. done.
  - apply receive_truncated.
  - intros W ? w v payload Hv Hl. unfold send_sync, checked_length. rewrite Hv. cbn [map_err].
    rewrite (proj2 (Z.ltb_lt _ _)) by done. done.
Qed.

End properties.

(** A provisioning request survives the wire: the receiver rebuilds both
    commands exactly, with non-UTF-8 arguments, environment overrides and
    removals and the working directory, and the other settings; the
    environment travels once per name in the names' order.  A request with
    port zero is refused, and degradation reasons and startup stages are
    carried without loss. *)
Theorem provision_request_roundtrip (r : ProvisionRequest) (v6 validate : bool) (resolv : str) :
  request_wf r →
  (∃ parts, Wire.into_parts (Wire.from_request r v6 validate resolv) = Ok parts ∧
     Wire.into_command (Wire.p_workload parts) = pr_workload r ∧
     Wire.into_command (Wire.p_gateway_worker parts) = pr_gateway_worker r ∧
     Wire.p_port parts = pr_intercept_port r ∧
     (Wire.p_require_ipv6 parts, Wire.p_validate_dataplane parts, Wire.p_resolv_conf parts)
       = (v6, validate, resolv) ∧
     Sorted entry_le (Wire.environment (Wire.p_workload parts)) ∧
     NoDup (Wire.environment (Wire.p_workload parts)).*1) ∧
  (∀ w, Wire.intercept_port w = Some 0%Z → ∃ source, Wire.into_parts w = Err (mkIoError InvalidData source)) ∧
  (∀ reason, Wire.to_reason (Wire.of_reason reason) = reason) ∧
  (∀ stage, Wire.to_stage (Wire.of_stage stage) = stage).
Proof.
  intros Hwf. split_and!; [|intros w Hw; unfold Wire.into_parts; rewrite Hw; cbn; eauto
                           |apply to_of_reason|apply to_of_stage].
  set (w := Wire.from_request r v6 validate resolv).
  exists (Wire.mkParts (Wire.workload w) (Wire.gateway_worker w) (pr_intercept_port r) v6 validate resolv).
  split_and!; try apply into_of_command; try done.
  - unfold Wire.into_parts, NonZeroU16_new. cbn. destruct (pr_intercept_port r) as [p|] eqn:Ep; [|done].
    destruct (Hwf p Ep) as [_ Hp]. apply Z.eqb_neq in Hp. cbn. rewrite Hp. done.
  - apply environment_iter_sorted.
  - apply environment_iter_NoDup.
Qed.

(** Network facts and exits are validated again where they arrive.
    Facts built by the provisioner are rebuilt exactly; whatever a peer sends,
    accepted facts have a nonzero port, an MTU of at least 1280, usable
    gateway and host addresses and distinct roles, anything else is invalid
    data; and a signal is accepted exactly between 1 and 64. *)
Theorem substrate_info_validated :
  (∀ info, info_wf info → si_intercept_port info ≠ 0%Z → Wire.to_info (Wire.of_info info) = Ok info) ∧
  (∀ w info, Wire.to_info w = Ok info →
     info_wf info ∧ si_intercept_port info ≠ 0%Z ∧ Wire.of_info info = w) ∧
  (∀ w e, Wire.to_info w = Err e → io_kind e = InvalidData) ∧
  (∀ exit, exit_wf exit → Wire.to_exit (Wire.of_exit exit) = Ok exit) ∧
  (∀ s, is_ok (Wire.to_exit (Wire.Signal s)) = true ↔ (1 ≤ s ≤ MAX_LINUX_SIGNAL)%Z).
Proof.
  split_and!.
  - intros info Hwf Hp. unfold Wire.to_info, NonZeroU16_new. cbn -[SubstrateInfo_new].
    apply Z.eqb_neq in Hp. rewrite Hp. cbn -[SubstrateInfo_new].
    rewrite (proj2 (SubstrateInfo_new_Ok _ _ _ _ _ _ _ info)); [done|].
    split; [|done]. destruct info as [????? ? []]; done.
  - intros w info E. unfold Wire.to_info, NonZeroU16_new in E. apply bind_Ok in E as (p & Hp & E).
    apply ok_or_Ok in Hp. apply map_err_Ok, SubstrateInfo_new_Ok in E as [-> Hwf].
    destruct (Z.eqb_spec (Wire.i_intercept_port w) 0); simplify_eq. destruct w; done.
  - intros w e. unfold Wire.to_info. destruct (NonZeroU16_new _); cbn -[SubstrateInfo_new].
    + destruct (SubstrateInfo_new _ _ _ _ _ _ _); cbn; intros; simplify_eq; done.
    + intros; simplify_eq; done.
  - intros [c|[s]] Hwf; [done|]. unfold Wire.to_exit, Wire.of_exit. cbn [get_signal].
    rewrite (proj2 (LinuxSignal_new_Ok s (mkSignal s))); done.
  - intros s. unfold Wire.to_exit. rewrite is_ok_spec. split.
    + intros (e & E). apply map_err_Ok, fmap_Ok in E as (sig & E & _). apply LinuxSignal_new_Ok in E as [_ ?]. done.
    + intros Hs. exists (ExitSignal (mkSignal s)). apply map_err_Ok, fmap_Ok. eexists. split; [|done].
      by apply LinuxSignal_new_Ok.
Qed.

(** ** Concrete instances

    The stage of a failure as serde_json writes a unit variant: its quoted
    name. *)
Module StageJson.

Definition quoted (s : string) : str := [x22] ++ bs s ++ [x22].
Definition write_stage (s : Wire.Stage) : str :=
  match s with
  | Wire.Pasta => quoted "Pasta" | Wire.Namespace => quoted "Namespace" | Wire.Veth => quoted "Veth"
  | Wire.Routing => quoted "Routing" | Wire.GatewayWorker => quoted "GatewayWorker"
  | Wire.Workload => quoted "Workload"
  end.
Definition stages := [Wire.Pasta; Wire.Namespace; Wire.Veth; Wire.Routing; Wire.GatewayWorker; Wire.Workload].

#[export] Instance stage_json : SerdeJson Wire.Stage := {
  to_vec s := Ok (write_stage s);
  from_slice t := ok_or (List.find (λ s, bool_decide (write_stage s = t)) stages) (bs "unknown variant");
}.
#[export] Instance stage_laws : SerdeLaws Wire.Stage.
Proof. intros s payload [= <-]. destruct s; reflexivity. Qed.

End StageJson.
Import StageJson.

Lemma control_frames_roundtrip_witness :
  let msgs := [Wire.Veth; Wire.Pasta] in
  Forall (sendable (T := Wire.Stage)) msgs ∧
  send_all [] msgs = (frame (StageJson.quoted "Veth") ++ frame (StageJson.quoted "Pasta"), Ok tt) ∧
  ∃ wire, send_all [x00] msgs = ([x00] ++ wire, Ok tt) ∧
    ∀ rest, receive_n (wire ++ rest) 2 = (rest, Ok msgs).
Proof.
  assert (Forall (sendable (T := Wire.Stage)) [Wire.Veth; Wire.Pasta]) as Hs.
  { repeat constructor; (eexists; split; [reflexivity|]); vm_compute; discriminate. }
  split_and!; [done|reflexivity|]. apply (control_frames_roundtrip (T := Wire.Stage) [Wire.Veth; Wire.Pasta] [x00] Hs).
Defined.

Lemma control_frame_exact_witness :
  receive_sync (T := Wire.Stage) (frame (StageJson.quoted "Veth") ++ [x01]) = ([x01], Ok Wire.Veth) ∧
  receive_sync (T := Wire.Stage) [x00; x10; x00; x01; x41] = ([x41], Err frame_too_large).
Proof.
  split; [reflexivity|].
  apply (proj1 (proj2 (control_frame_exact (T := Wire.Stage))) [x00; x10; x00; x01] [x41]); reflexivity.
Defined.

Lemma provision_request_roundtrip_witness :
  let command := env_remove (env (arg (NamespaceCommand_new (bs "sh")) [x61; xff]) [x4b; xfe] [xfd]) (bs "HOME") in
  let request := with_intercept_port (ProvisionRequest_new (current_dir command (bs "/t")) command) 8080 in
  Wire.environment (Wire.of_command command) = [(bs "HOME", None); ([x4b; xfe], Some [xfd])] ∧
  ∃ parts, Wire.into_parts (Wire.from_request request true false []) = Ok parts ∧
    Wire.into_command (Wire.p_workload parts) = pr_workload request ∧ Wire.p_port parts = Some 8080%Z.
Proof.
  split; [reflexivity|].
  set (command := env_remove (env (arg (NamespaceCommand_new (bs "sh")) [x61; xff]) [x4b; xfe] [xfd]) (bs "HOME")).
  set (request := with_intercept_port (ProvisionRequest_new (current_dir command (bs "/t")) command) 8080).
  assert (request_wf request) as Hwf by (intros p [= <-]; unfold nonzero_u16, is_u16, u16_max; lia).
  destruct (provision_request_roundtrip request true false [] Hwf) as [(parts & E & Hw & _ & Hp & _) _].
  exists parts. split_and!; [exact E|exact Hw|rewrite Hp; reflexivity].
Defined.

Lemma substrate_info_validated_witness :
  let v4 a := mkIpv4 x0a x00 x00 a in
  let v6 a := mkIpv6 (mkSeg xfd x00) zero_seg zero_seg zero_seg zero_seg zero_seg zero_seg (mkSeg x00 a) in
  let w := Wire.mkInfo 8080 1500 (v4 x01) (v6 x01) (v4 x02) (v6 x02) in
  (∃ info, Wire.to_info w = Ok info ∧ info_wf info) ∧
  (∃ e, Wire.to_info (Wire.mkInfo 8080 1279 (v4 x01) (v6 x01) (v4 x02) (v6 x02)) = Err e ∧ io_kind e = InvalidData).
Proof.
  set (w mtu := Wire.mkInfo 8080 mtu (mkIpv4 x0a x00 x00 x01)
    (mkIpv6 (mkSeg xfd x00) zero_seg zero_seg zero_seg zero_seg zero_seg zero_seg (mkSeg x00 x01))
    (mkIpv4 x0a x00 x00 x02)
    (mkIpv6 (mkSeg xfd x00) zero_seg zero_seg zero_seg zero_seg zero_seg zero_seg (mkSeg x00 x02))).
  destruct substrate_info_validated as (_ & Hok & Herr & _ & _). split.
  - destruct (Wire.to_info (w 1500%Z)) as [info|e] eqn:E; [|vm_compute in E; discriminate].
    exists info. split; [exact E|]. apply (Hok _ _ E).
  - destruct (Wire.to_info (w 1279%Z)) as [info|e] eqn:E; [vm_compute in E; discriminate|].
    exists e. split; [exact E|]. apply (Herr _ _ E).
Defined.
