(* ===== verification/Exporters.v ===== *)
(** * Exporters (crates/hiloop-interceptor/src/exporters.rs, jsonl.rs, and the
    delivery accounting of supervisor.rs)

    The local JSONL log, the fan-out that gives every sink each batch, and the
    accounting exporter a run's pipeline exports through.  The default methods
    of [trait Exporter] (seams.rs) are here too.  A file is a [Write] world. *)
From Stdlib Require Import Strings.Byte.
From S2P Require Import Prelude Text Net Identity Event Capture Completion Spool Pipeline Protocol.

(** ** The terminal report *)

(** [Exporter::export_completion]; an exporter that does not override it
    exports the report's event projection. *)
Class CompletionExporter {U : UlidLib} (X : Type) := {
  export_completion : X → Event → CaptureCompletionReport → X * result ExportError unit;
}.

(** The instances below are found from the type alone. *)
#[export] Hint Mode Exporter - ! : typeclass_instances.
#[export] Hint Mode CompletionExporter - ! : typeclass_instances.

Definition default_export_completion {U : UlidLib} {X} {EX : Exporter X} (x : X) (event : Event)
    (_ : CaptureCompletionReport) : X * result ExportError unit := export x [event].

(** [Arc<SpoolingExporter>] *)
#[export] Instance spool_completion {U : UlidLib} {W : Type} : CompletionExporter ((W * SinkLog) * SpoolState) := {|
  export_completion x event rep := let '(s, r) := spool_export_completion x.2 event rep in ((x.1, s), r);
|}.

(** ** The JSONL log *)

Section jsonl.
Context {U : UlidLib} {JE : SerdeJson Event} {F : Type} {FW : Write F}.

(** [JsonlWriter::write_line] *)
Definition write_line (file : F) (line : str) : F * result IoError unit :=
  match write_all file line with
  | (file, Err e) => (file, Err e)
  | (file, Ok _) => write_all file [x0a]
  end.

Definition jsonl_error_with (message : string) : ExportError := Other (bs "jsonl") (bs message).

Fixpoint jsonl_export (file : F) (events : list Event) : F * result ExportError unit :=
  match events with
  | [] => (file, Ok ())
  | event :: events =>
      match to_vec event with
      | Err _ => (file, Err (jsonl_error_with "failed to encode event as JSON"))
      | Ok line =>
          match write_line file line with
          | (file, Err _) => (file, Err (jsonl_error_with "failed to write event"))
          | (file, Ok _) => jsonl_export file events
          end
      end
  end.

Definition jsonl_flush (file : F) : F * result ExportError unit :=
  let '(file, r) := flush file in (file, map_err (λ _, jsonl_error_with "failed to flush events") r).

Record JsonlExporter := mkJsonl { jsonl_file : F }.

#[export] Instance jsonl_exporter : Exporter JsonlExporter := {
  export x es := let '(file, r) := jsonl_export (jsonl_file x) es in (mkJsonl file, r);
  export_flush x := let '(file, r) := jsonl_flush (jsonl_file x) in (mkJsonl file, r);
}.
#[export] Instance jsonl_completion : CompletionExporter JsonlExporter := {|
  export_completion := default_export_completion;
|}.
End jsonl.
Arguments JsonlExporter F : clear implicits.

(** ** Several sinks *)

(** [Box<dyn Exporter>]: either kind of sink. *)
#[export] Instance sum_exporter {U : UlidLib} {X Y : Type} {EX : Exporter X} {EY : Exporter Y} : Exporter (X + Y) := {
  export z es := match z with
                 | inl x => let '(x, r) := export x es in (inl x, r)
                 | inr y => let '(y, r) := export y es in (inr y, r)
                 end;
  export_flush z := match z with
                    | inl x => let '(x, r) := export_flush x in (inl x, r)
                    | inr y => let '(y, r) := export_flush y in (inr y, r)
                    end;
}.
#[export] Instance sum_completion {U : UlidLib} {X Y : Type} {EX : CompletionExporter X} {EY : CompletionExporter Y} :
    CompletionExporter (X + Y) := {|
  export_completion z event rep :=
    match z with
    | inl x => let '(x, r) := export_completion x event rep in (inl x, r)
    | inr y => let '(y, r) := export_completion y event rep in (inr y, r)
    end;
|}.

Fixpoint first_error (results : list (result ExportError unit)) : result ExportError unit :=
  match results with
  | [] => Ok ()
  | Err e :: _ => Err e
  | Ok _ :: results => first_error results
  end.

(** [join_all] then [first_error]: each sink owns its state, so the calls do
    not see each other. *)
Definition join_all {X} (call : X → X * result ExportError unit) (exporters : list X)
    : list X * result ExportError unit :=
  let settled := call <$> exporters in (settled.*1, first_error settled.*2).

(** [FanOutExporter] *)
#[export] Instance fan_out_exporter {U : UlidLib} {X : Type} {EX : Exporter X} : Exporter (list X) := {
  export exporters es := join_all (λ x, export x es) exporters;
  export_flush exporters := join_all export_flush exporters;
}.
#[export] Instance fan_out_completion {U : UlidLib} {X : Type} {EX : CompletionExporter X} :
    CompletionExporter (list X) := {|
  export_completion exporters event rep := join_all (λ x, export_completion x event rep) exporters;
|}.

(** ** Delivery accounting *)

Definition CaptureEventDelivery_default : CaptureEventDelivery := mkEventDelivery 0 0 0 0 0 0.

(** Before the inner export: the batch counts as dropped until it settles. *)
Definition count_attempt (d : CaptureEventDelivery) (count : Z) : CaptureEventDelivery :=
  mkEventDelivery (saturating_add u64_max (observed d) count) (spooled d) (landed d)
    (saturating_add u64_max (dropped d) count) (rejected d) (pending d).

Definition count_outcome (d : CaptureEventDelivery) (count : Z) (r : result ExportError unit) : CaptureEventDelivery :=
  match r with
  | Ok _ => mkEventDelivery (observed d) (spooled d) (saturating_add u64_max (landed d) count)
              (saturating_sub (dropped d) count) (rejected d) (pending d)
  | Err (Rejected _ _) => mkEventDelivery (observed d) (spooled d) (landed d) (saturating_sub (dropped d) count)
                            (saturating_add u64_max (rejected d) count) (pending d)
  | Err _ => d
  end.

(** [DeliveryAccountingExporter]: the inner exporter and the account. *)
Record Accounting (X : Type) := mkAccounting { inner : X; delivery : CaptureEventDelivery }.
Arguments mkAccounting {X}.
Arguments inner {X}.
Arguments delivery {X}.

Definition DeliveryAccountingExporter_new {X} (x : X) : Accounting X := mkAccounting x CaptureEventDelivery_default.

#[export] Instance accounting_exporter {U : UlidLib} {X : Type} {EX : Exporter X} : Exporter (Accounting X) := {
  export a es :=
    let count := Z.of_nat (length es) in
    let d := count_attempt (delivery a) count in
    let '(x, r) := export (inner a) es in
    (mkAccounting x (count_outcome d count r), r);
  export_flush a := let '(x, r) := export_flush (inner a) in (mkAccounting x (delivery a), r);
}.
#[export] Instance accounting_completion {U : UlidLib} {X : Type} {EX : CompletionExporter X} :
    CompletionExporter (Accounting X) := {|
  export_completion a event rep :=
    let '(x, r) := export_completion (inner a) event rep in (mkAccounting x (delivery a), r);
|}.

(** Events normalized but never offered count as dropped. *)
Definition reconcile_normalized (d : CaptureEventDelivery) (normalized : Z) : CaptureEventDelivery :=
  let unattempted := saturating_sub normalized (observed d) in
  mkEventDelivery (saturating_add u64_max (observed d) unattempted) (spooled d) (landed d)
    (saturating_add u64_max (dropped d) unattempted) (rejected d) (pending d).

(** ** Specification *)

(** A sequence of calls of an exporter, and what each answered. *)
Inductive call {U : UlidLib} :=
| CallExport (events : list Event)
| CallFlush
| CallCompletion (event : Event) (report : CaptureCompletionReport).

Section calls.
Context {U : UlidLib} {X : Type} {EX : Exporter X} {CX : CompletionExporter X}.

Definition do_call (x : X) (c : call) : X * result ExportError unit :=
  match c with
  | CallExport es => export x es
  | CallFlush => export_flush x
  | CallCompletion event rep => export_completion x event rep
  end.

Fixpoint run_calls (x : X) (cs : list call) : X * list (result ExportError unit) :=
  match cs with
  | [] => (x, [])
  | c :: cs => let '(x, r) := do_call x c in let '(x, rs) := run_calls x cs in (x, r :: rs)
  end.
End calls.

Definition call_events {U : UlidLib} (c : call) : nat := match c with CallExport es => length es | _ => 0 end.

Definition is_rejected (r : result ExportError unit) : bool :=
  match r with Err (Rejected _ _) => true | _ => false end.
Definition is_lost (r : result ExportError unit) : bool := negb (is_ok r) && negb (is_rejected r).

(** The events of the calls whose answer satisfies [p]. *)
Definition events_answered {U : UlidLib} (p : result ExportError unit → bool) (cs : list call)
    (rs : list (result ExportError unit)) : nat :=
  sum_list (zip_with (λ c r, if p r then call_events c else 0) cs rs).

(** ** Lemmas *)

Lemma first_error_Ok rs : first_error rs = Ok () ↔ Forall (λ r, r = Ok ()) rs.
Proof.
  induction rs as [|[[]|e] rs IH]; cbn [first_error]; rewrite ?Forall_cons.
  - naive_solver.
  - rewrite IH. naive_solver.
  - naive_solver.
Qed.

Lemma first_error_Err rs e :
  first_error rs = Err e ↔ ∃ i, rs !! i = Some (Err e) ∧ ∀ j, j < i → rs !! j = Some (Ok ()).
Proof.
  induction rs as [|[[]|e'] rs IH]; cbn [first_error].
  - split; [done|]. by intros (i & H & _).
  - rewrite IH. split.
    + intros (i & Hi & Hj). exists (S i). split; [done|]. intros [|j] Hlt; [done|]. apply (Hj j). lia.
    + intros ([|i] & Hi & Hj); [done|]. exists i. split; [done|]. intros j Hlt. apply (Hj (S j)). lia.
  - split; [intros [= <-]; exists 0; split; [done|lia]|].
    intros ([|i] & Hi & Hj); [by injection Hi as ->|]. specialize (Hj 0 ltac:(lia)). done.
Qed.

Section accounting.
Context {U : UlidLib} {X : Type} {EX : Exporter X} {CX : CompletionExporter X}.
Implicit Types (a : Accounting X) (d : CaptureEventDelivery) (r : result ExportError unit).

(** The account of [n] events, of which the batches landed and were rejected
    as given; nothing is spooled here. *)
Definition settled_account (n l j : nat) d : Prop :=
  d = mkEventDelivery (Z.of_nat n) 0 (Z.of_nat l) (Z.of_nat n - Z.of_nat l - Z.of_nat j) (Z.of_nat j) 0
  ∧ l + j ≤ n.

Lemma count_settled n l j d (k : nat) r :
  settled_account n l j d → (Z.of_nat (n + k) ≤ u64_max)%Z →
  settled_account (n + k) (if is_ok r then l + k else l) (if is_rejected r then j + k else j)
    (count_outcome (count_attempt d (Z.of_nat k)) (Z.of_nat k) r).
Proof.
  intros [-> Hle] Hn. unfold count_outcome, count_attempt, saturating_add, saturating_sub. cbn.
  destruct r as [[]|[]]; cbn; (split; [f_equal; lia|lia]).
Qed.

Lemma do_call_account a c n l j :
  settled_account n l j (delivery a) → (Z.of_nat (n + call_events c) ≤ u64_max)%Z →
  let r := (do_call a c).2 in
  inner (do_call a c).1 = (do_call (inner a) c).1 ∧ r = (do_call (inner a) c).2 ∧
  settled_account (n + call_events c) (if is_ok r then l + call_events c else l)
    (if is_rejected r then j + call_events c else j) (delivery (do_call a c).1).
Proof.
  intros Hd Hn. destruct c as [es| |event rep]; cbn [do_call call_events] in *; cbn.
  - pose proof (count_settled n l j (delivery a) (length es) (export (inner a) es).2 Hd Hn) as H.
    destruct (export (inner a) es) as [x r]. done.
  - destruct (export_flush (inner a)) as [x r]. cbn. rewrite !Nat.add_0_r. by destruct (is_ok r), (is_rejected r).
  - destruct (export_completion (inner a) event rep) as [x r]. cbn. rewrite !Nat.add_0_r.
    by destruct (is_ok r), (is_rejected r).
Qed.

Lemma run_calls_account a cs n l j :
  settled_account n l j (delivery a) → (Z.of_nat (n + sum_list (call_events <$> cs)) ≤ u64_max)%Z →
  let rs := (run_calls a cs).2 in
  inner (run_calls a cs).1 = (run_calls (inner a) cs).1 ∧ rs = (run_calls (inner a) cs).2 ∧
  settled_account (n + sum_list (call_events <$> cs)) (l + events_answered is_ok cs rs)
    (j + events_answered is_rejected cs rs) (delivery (run_calls a cs).1).
Proof.
  revert a n l j. induction cs as [|c cs IH]; intros a n l j Hd Hn; cbn [run_calls].
  - cbn. rewrite !Nat.add_0_r. done.
  - change (sum_list (call_events <$> c :: cs)) with (call_events c + sum_list (call_events <$> cs)) in *.
    unfold events_answered in *.
    destruct (do_call_account a c n l j Hd ltac:(lia)) as (Hi & Hr & Hd').
    destruct (do_call a c) as [a1 r], (do_call (inner a) c) as [x1 r']. cbn in *. subst r' x1.
    specialize (IH a1 _ _ _ Hd' ltac:(lia)).
    destruct (run_calls a1 cs) as [a2 rs], (run_calls (inner a1) cs) as [x2 rs']. cbn in *.
    destruct IH as (-> & -> & Hacc). split_and!; [done..|].
    replace (n + (call_events c + sum_list (call_events <$> cs))) with (n + call_events c + sum_list (call_events <$> cs)) by lia.
    destruct (is_ok r), (is_rejected r); by rewrite ?Nat.add_assoc in *; rewrite ?Nat.add_0_r in *.
Qed.

Lemma fan_out_call (sinks : list X) c :
  (do_call sinks c).1 = (λ x, (do_call x c).1) <$> sinks ∧
  (do_call sinks c).2 = first_error ((λ x, (do_call x c).2) <$> sinks).
Proof. destruct c; cbn; by rewrite <- !list_fmap_compose. Qed.

Lemma run_calls_cons {Y} {EY : Exporter Y} {CY : CompletionExporter Y} (y : Y) c cs :
  run_calls y (c :: cs) = ((run_calls (do_call y c).1 cs).1, (do_call y c).2 :: (run_calls (do_call y c).1 cs).2).
Proof. cbn [run_calls]. destruct (do_call y c) as [y1 r1]. cbn. by destruct (run_calls y1 cs). Qed.

(** The [i]-th answer of the fan-out is [r]: the first failure among the
    sinks' own [i]-th answers, in their order. *)
Definition joint_answer (sinks : list X) cs i r : Prop :=
  (r = Ok () ↔ ∀ k x, sinks !! k = Some x → (run_calls x cs).2 !! i = Some (Ok ())) ∧
  (∀ e, r = Err e ↔ ∃ k x, sinks !! k = Some x ∧ (run_calls x cs).2 !! i = Some (Err e) ∧
     ∀ k' x', k' < k → sinks !! k' = Some x' → (run_calls x' cs).2 !! i = Some (Ok ())).

Lemma joint_answer_head (sinks : list X) c cs :
  joint_answer sinks (c :: cs) 0 (first_error ((λ x, (do_call x c).2) <$> sinks)).
Proof.
  unfold joint_answer. split.
  - rewrite first_error_Ok, Forall_lookup. split.
    + intros H k x Hx. rewrite run_calls_cons. cbn. f_equal. apply (H k). by rewrite list_lookup_fmap, Hx.
    + intros H k r Hr. rewrite list_lookup_fmap in Hr. destruct (sinks !! k) as [x|] eqn:Ex; [|done]. injection Hr as <-.
      specialize (H k x Ex). rewrite run_calls_cons in H. by injection H.
  - intros e. rewrite first_error_Err. split.
    + intros (k & Hk & Hlt). rewrite list_lookup_fmap in Hk. destruct (sinks !! k) as [x|] eqn:Ex; [|done].
      exists k, x. rewrite run_calls_cons. split_and!; [done|exact Hk|]. intros k' x' Hk' Hx'.
      specialize (Hlt _ Hk'). rewrite list_lookup_fmap, Hx' in Hlt. by rewrite run_calls_cons.
    + intros (k & x & Hx & He & Hlt). exists k. rewrite list_lookup_fmap, Hx. rewrite run_calls_cons in He. split; [done|].
      intros k' Hk'. rewrite list_lookup_fmap. apply lookup_lt_Some in Hx.
      destruct (sinks !! k') as [x'|] eqn:Ex'; [|apply lookup_ge_None in Ex'; lia].
      specialize (Hlt _ _ Hk' Ex'). by rewrite run_calls_cons in Hlt.
Qed.

Lemma joint_answer_tail (sinks : list X) c cs i r :
  joint_answer ((λ x, (do_call x c).1) <$> sinks) cs i r → joint_answer sinks (c :: cs) (S i) r.
Proof.
  assert (∀ (x : X) (q : result ExportError unit),
    (run_calls x (c :: cs)).2 !! S i = Some q ↔ (run_calls (do_call x c).1 cs).2 !! i = Some q) as Hx
    by (intros x q; by rewrite run_calls_cons).
  unfold joint_answer. intros [H1 H2]. split.
  - rewrite H1. setoid_rewrite list_lookup_fmap_Some. setoid_rewrite Hx. naive_solver.
  - intros e. rewrite H2. setoid_rewrite list_lookup_fmap_Some. setoid_rewrite Hx. split.
    + intros (k & x & (x0 & -> & Hk) & He & Hlt). exists k, x0. naive_solver.
    + intros (k & x & Hk & He & Hlt). exists k, (do_call x c).1. naive_solver.
Qed.

Lemma fan_out_calls (sinks : list X) cs :
  (run_calls sinks cs).1 = (λ x, (run_calls x cs).1) <$> sinks ∧
  ∀ i r, (run_calls sinks cs).2 !! i = Some r → joint_answer sinks cs i r.
Proof.
  revert sinks. induction cs as [|c cs IH]; intros sinks; [cbn; by rewrite list_fmap_id|].
  rewrite run_calls_cons. destruct (fan_out_call sinks c) as [-> ->]. cbn [fst snd].
  destruct (IH ((λ x, (do_call x c).1) <$> sinks)) as [-> IHr]. split.
  - rewrite <- list_fmap_compose. apply list_fmap_ext. intros k x _. cbn [compose]. unfold compose. by rewrite run_calls_cons.
  - intros [|i] r Hi; [injection Hi as <-; apply joint_answer_head|]. by apply joint_answer_tail, IHr.
Qed.
End accounting.

Lemma run_calls_length {U : UlidLib} {X} {EX : Exporter X} {CX : CompletionExporter X} (x : X) cs :
  length (run_calls x cs).2 = length cs.
Proof. revert x. induction cs as [|c cs IH]; intros x; [done|]. rewrite run_calls_cons. cbn. f_equal. apply IH. Qed.

Lemma events_answered_split {U : UlidLib} cs rs :
  length rs = length cs →
  events_answered is_ok cs rs + events_answered is_rejected cs rs + events_answered is_lost cs rs
  = sum_list (call_events <$> cs).
Proof.
  unfold events_answered, is_lost. revert rs. induction cs as [|c cs IH]; intros [|r rs] H; try done.
  injection H as H. specialize (IH rs H).
  change (sum_list (call_events <$> c :: cs)) with (call_events c + sum_list (call_events <$> cs)).
  set (n := sum_list (call_events <$> cs)) in *. clearbody n. destruct r as [[]|[]]; simpl; lia.
Qed.

(** An appended file gets one line per event, or those before the first that
    has no encoding. *)
Lemma jsonl_export_lines {U : UlidLib} {JE : SerdeJson Event} (file : str) (es : list Event) (lines : list str) :
  Forall2 (λ e line, to_vec e = Ok line) es lines →
  jsonl_export file es = (file ++ concat ((λ line, line ++ [x0a]) <$> lines), Ok ()).
Proof.
  intros H. revert file. induction H as [|e line es lines He _ IH]; intros file; cbn [jsonl_export].
  - by rewrite app_nil_r.
  - rewrite He. cbn. rewrite IH. by rewrite <- !app_assoc.
Qed.

(** ** Properties *)

(** The run's account is exact and no sink affects another.  After any
    sequence of exports, flushes and completions through the accounting
    exporter over any sinks, each sink is what the same calls alone would have
    made of it; each call's answer is its first failure in the sinks' order
    and success only when every sink succeeded; and the account is that of the
    answers: every observed event is landed, rejected or dropped, by the answer
    to its batch.  Reconciling with the number of normalized events adds the
    ones that were never offered to the dropped ones. *)
Theorem delivery_accounting_exact {U : UlidLib} {X : Type} {EX : Exporter X} {CX : CompletionExporter X}
    (sinks : list X) (cs : list call) (normalized : Z) :
  let total := Z.of_nat (sum_list (call_events <$> cs)) in
  (total ≤ u64_max)%Z → (total ≤ normalized ≤ u64_max)%Z →
  let a := (run_calls (DeliveryAccountingExporter_new sinks) cs).1 in
  let rs := (run_calls (DeliveryAccountingExporter_new sinks) cs).2 in
  inner a = (λ x, (run_calls x cs).1) <$> sinks ∧
  length rs = length cs ∧ (∀ i r, rs !! i = Some r → joint_answer sinks cs i r) ∧
  delivery a = mkEventDelivery total 0 (Z.of_nat (events_answered is_ok cs rs))
    (Z.of_nat (events_answered is_lost cs rs)) (Z.of_nat (events_answered is_rejected cs rs)) 0 ∧
  reconcile_normalized (delivery a) normalized =
    mkEventDelivery normalized 0 (Z.of_nat (events_answered is_ok cs rs))
      (Z.of_nat (events_answered is_lost cs rs) + (normalized - total))
      (Z.of_nat (events_answered is_rejected cs rs)) 0.
Proof.
  intros total Ht Hn a rs.
  destruct (run_calls_account (DeliveryAccountingExporter_new sinks) cs 0 0 0) as (Hi & Hr & [Hd _]);
    [by split|exact Ht|]. fold a in Hi, Hd. fold rs in Hr, Hd. cbn [inner DeliveryAccountingExporter_new] in Hi, Hr.
  assert (length rs = length cs) as Hlen by apply run_calls_length.
  pose proof (events_answered_split cs rs Hlen) as Hs.
  assert (delivery a = mkEventDelivery total 0 (Z.of_nat (events_answered is_ok cs rs))
    (Z.of_nat (events_answered is_lost cs rs)) (Z.of_nat (events_answered is_rejected cs rs)) 0) as ->.
  { rewrite Hd. cbn [plus]. unfold total. f_equal. lia. }
  destruct (fan_out_calls sinks cs) as [Hsinks Hans]. rewrite <- Hr in Hans. split_and!; [by rewrite Hi|done..|].
  unfold reconcile_normalized, saturating_add, saturating_sub. cbn. f_equal; lia.
Qed.

Section witnesses.
#[local] Existing Instance crockford_ulid.

(** A sink that keeps its batches and refuses those of more than one event. *)
#[local] Instance picky : Exporter (list (list Event)) := {
  export x es := if Nat.leb (length es) 1 then (x ++ [es], Ok ()) else (x, Err (Rejected (bs "picky") []));
  export_flush x := (x, Ok ());
}.
#[local] Instance picky_completion : CompletionExporter (list (list Event)) := {|
  export_completion x _ _ := (x, Ok ()); |}.

Definition sample_calls : list call :=
  [CallExport [Scripted.ev 1]; CallExport [Scripted.ev 2; Scripted.ev 3]; CallFlush].

Lemma delivery_accounting_exact_witness :
  let a := (run_calls (DeliveryAccountingExporter_new [[]; [[Scripted.ev 0]]]) sample_calls).1 in
  reconcile_normalized (delivery a) 5 = mkEventDelivery 5 0 1 2 2 0.
Proof.
  intros a.
  destruct (delivery_accounting_exact [[]; [[Scripted.ev 0]]] sample_calls 5) as (_ & _ & _ & _ & H);
    [vm_compute; discriminate|split; vm_compute; discriminate|].
  unfold a. rewrite H. vm_compute. reflexivity.
Defined.
End witnesses.
