(* ===== verification/Fatal.v ===== *)
(** * Fatal runs (crates/hiloop-interceptor/src/netns/fatal.rs, with the error
    type of netns/mod.rs)

    A dataplane failure ends the run with a fatal result that is kept apart
    from whether its event could be persisted: the event is exported once,
    after the session is torn down, and whoever composes the run attaches the
    exporter's flush.  A boxed error source is not kept, as it only feeds a
    message.  The clock's reading and the minted identifier are arguments. *)
From Stdlib Require Import Strings.Byte.
From S2P Require Import Prelude Text Net Identity Event Capture Completion Spool Pipeline Substrate Exporters.

(** ** Errors *)

Inductive ProvisionError :=
| ProvisionUnavailable (reason : CaptureTransportDegradationReason) (diagnostic : str)
| ProvisionStartup (stage : StartupStage) (reason : CaptureTransportDegradationReason) (diagnostic : str)
| ProvisionDataplane (component diagnostic : str)
| ProvisionCleanup (diagnostic : str).

Definition ProvisionError_fmt (e : ProvisionError) : str :=
  match e with
  | ProvisionUnavailable reason diagnostic =>
      bs "transparent network substrate unavailable: " ++ to_string reason ++ bs ": " ++ diagnostic
  | ProvisionStartup stage reason diagnostic =>
      bs "transparent network substrate " ++ StartupStage_fmt stage ++ bs " startup failed (" ++ to_string reason
      ++ bs "): " ++ diagnostic
  | ProvisionDataplane component diagnostic =>
      bs "transparent network substrate dataplane failed: " ++ component ++ bs ": " ++ diagnostic
  | ProvisionCleanup diagnostic => bs "transparent network substrate cleanup failed: " ++ diagnostic
  end.

Record FatalRunResult := mkFatalResult { fatal_reason : CaptureFatalReason }.
(** [NonZeroU8::MIN] *)
Definition fatal_exit_code (_ : FatalRunResult) : Z := 1.

Record FatalPersistenceFailure := mkPersistenceFailure {
  pf_export : option ExportError; pf_flush : option ExportError }.
Inductive FatalPersistence := PersistPending | Persisted | PersistFailed (failure : FatalPersistenceFailure).

Definition FatalPersistenceFailure_fmt (f : FatalPersistenceFailure) : str :=
  match pf_export f, pf_flush f with
  | Some export, Some flush =>
      ExportError_fmt export ++ bs "; final exporter flush also failed: " ++ ExportError_fmt flush
  | Some error, None | None, Some error => ExportError_fmt error
  | None, None => bs "fatal event persistence failed"
  end.

Record FatalRunError := mkFatalError {
  fr_result : FatalRunResult; fr_substrate_error : option ProvisionError; fr_persistence : FatalPersistence }.

Definition FatalRunError_fmt (e : FatalRunError) : str :=
  bs "transparent capture run failed fatally: " ++ to_string (fatal_reason (fr_result e)).

Definition event_persisted (e : FatalRunError) : bool :=
  match fr_persistence e with Persisted => true | _ => false end.

Definition fatal_delivery (e : FatalRunError) : CaptureEventDelivery :=
  match fr_persistence e with
  | PersistPending | Persisted => mkEventDelivery 1 0 1 0 0 0
  | PersistFailed (mkPersistenceFailure (Some (Rejected _ _)) _) => mkEventDelivery 1 0 0 0 1 0
  | PersistFailed (mkPersistenceFailure (Some _) _) => mkEventDelivery 1 0 0 1 0 0
  | PersistFailed (mkPersistenceFailure None _) => mkEventDelivery 1 0 1 0 0 0
  end.

Definition persistence_error (e : FatalRunError) : option ExportError :=
  match fr_persistence e with
  | PersistFailed failure => match pf_export failure with Some x => Some x | None => pf_flush failure end
  | _ => None
  end.

Inductive SupervisedRunError := Fatal (e : FatalRunError) | Provision (e : ProvisionError).

Definition SupervisedRunError_fmt (e : SupervisedRunError) : str :=
  match e with Fatal e => FatalRunError_fmt e | Provision e => ProvisionError_fmt e end.

Definition fatal_event_delivery (e : SupervisedRunError) : CaptureEventDelivery :=
  match e with Fatal e => fatal_delivery e | Provision _ => CaptureEventDelivery_default end.
Definition into_fatal (e : SupervisedRunError) : option FatalRunError :=
  match e with Fatal e => Some e | Provision _ => None end.

(** ** The supervisor *)

Section supervisor.
Context {U : UlidLib} {X : Type} {EX : Exporter X}.

Record FatalRunSupervisor := mkFatalSupervisor {
  fs_context : RunContext; fs_clock : option Hlc; fs_exporter : X }.

Definition FatalRunSupervisor_new (context : RunContext) (exporter : X) : FatalRunSupervisor :=
  mkFatalSupervisor context None exporter.

Definition persist (s : FatalRunSupervisor) (minted : EventId) (wall : Z) (reason : CaptureFatalReason)
    (substrate_error : option ProvisionError) : FatalRunSupervisor * FatalRunError :=
  let ts := tick_with_wall_ns (fs_clock s) wall in
  let event := capture_fatal minted (fs_context s) ts reason in
  let '(x, r) := export (fs_exporter s) [event] in
  let persistence := match r with
                     | Ok _ => PersistPending
                     | Err error => PersistFailed (mkPersistenceFailure (Some error) None)
                     end in
  (mkFatalSupervisor (fs_context s) (Some ts) x, mkFatalError (mkFatalResult reason) substrate_error persistence).

Definition finish_wait (s : FatalRunSupervisor) (minted : EventId) (wall : Z) (r : result ProvisionError SubstrateExit)
    : FatalRunSupervisor * result SupervisedRunError SubstrateExit :=
  match r with
  | Ok exit => (s, Ok exit)
  | Err (ProvisionDataplane component diagnostic as error) =>
      let '(s, e) := persist s minted wall DataplaneFailed (Some error) in (s, Err (Fatal e))
  | Err error => (s, Err (Provision error))
  end.

Definition record_flush (r : result SupervisedRunError SubstrateExit) (flush : result ExportError unit)
    : result SupervisedRunError SubstrateExit * result ExportError unit :=
  match r with
  | Err (Fatal e) =>
      let persistence :=
        match fr_persistence e, flush with
        | PersistPending, Ok _ | Persisted, _ => Persisted
        | PersistPending, Err flush => PersistFailed (mkPersistenceFailure None (Some flush))
        | PersistFailed failure, Err flush => PersistFailed (mkPersistenceFailure (pf_export failure) (Some flush))
        | PersistFailed failure, Ok _ => PersistFailed (mkPersistenceFailure (pf_export failure) (pf_flush failure))
        end in
      (Err (Fatal (mkFatalError (fr_result e) (fr_substrate_error e) persistence)), flush)
  | _ => (r, flush)
  end.

(** [wait]: the flush is called only for a fatal result. *)
Definition wait (s : FatalRunSupervisor) (minted : EventId) (wall : Z) (session : result ProvisionError SubstrateExit)
    : FatalRunSupervisor * result SupervisedRunError SubstrateExit :=
  let '(s, r) := finish_wait s minted wall session in
  match r with
  | Err (Fatal _) =>
      let '(x, flush) := export_flush (fs_exporter s) in
      (mkFatalSupervisor (fs_context s) (fs_clock s) x, (record_flush r flush).1)
  | _ => (s, r)
  end.
End supervisor.
Arguments FatalRunSupervisor {U} X.

(** ** Properties *)

(** How the event stands after its export and the flushes recorded since. *)
Definition persistence_of (exported : result ExportError unit) (flushes : list (result ExportError unit)) : FatalPersistence :=
  match exported, flushes with
  | Ok _, [] => PersistPending
  | Ok _, Ok _ :: _ => Persisted
  | Ok _, Err e :: later => PersistFailed (mkPersistenceFailure None
                              (Some (fold_left (λ e r, match r with Err e' => e' | Ok _ => e end) later e)))
  | Err e, flushes => PersistFailed (mkPersistenceFailure (Some e)
                        (fold_left (λ e r, match r with Err e' => Some e' | Ok _ => e end) flushes None))
  end.

(** The flushes a composing boundary records, one after the other. *)
Definition record_flushes (r : result SupervisedRunError SubstrateExit) (flushes : list (result ExportError unit)) :=
  fold_left (λ r flush, (record_flush r flush).1) flushes r.

Lemma record_flushes_fatal result_ sub exported flushes f :
  f = mkFatalError result_ sub (persistence_of exported []) →
  record_flushes (Err (Fatal f)) flushes = Err (Fatal (mkFatalError result_ sub (persistence_of exported flushes))).
Proof.
  intros ->. unfold record_flushes. induction flushes as [|flush flushes IH] using rev_ind; [done|].
  rewrite fold_left_app, IH. cbn [fold_left]. cbn.
  destruct exported as [[]|e]; cbn.
  - destruct flushes as [|[[]|e1] later]; cbn; [by destruct flush as [[]|]..|].
    rewrite fold_left_app. by destruct flush as [[]|].
  - rewrite fold_left_app. by destruct flush as [[]|].
Qed.

Lemma record_flushes_other r flushes : (∀ f, r ≠ Err (Fatal f)) → record_flushes r flushes = r.
Proof.
  intros Hr. unfold record_flushes. induction flushes as [|flush flushes IH]; [done|]. cbn.
  destruct r as [exit|[f|e]]; [done|by destruct (Hr f)|done].
Qed.

Definition fatal_account (exported : result ExportError unit) : CaptureEventDelivery :=
  match exported with
  | Ok _ => mkEventDelivery 1 0 1 0 0 0
  | Err (Rejected _ _) => mkEventDelivery 1 0 0 0 1 0
  | Err _ => mkEventDelivery 1 0 0 1 0 0
  end.

(** A fatal run's outcome never depends on whether its event persists.
    A normal exit and any failure outside the dataplane pass through without
    touching the exporter.  A dataplane failure exports exactly one event, the
    run's [capture.fatal], and whatever the exporter and
    any later flushes answer, the run ends with that reason, exit code 1 and
    the original failure; the event is persisted exactly when its export and
    the first flush succeeded; its account is settled by the export alone and
    is consistent; and the persistence error is the export's, or else that of
    a first flush that failed, as replaced by later failures.  Waiting on a
    session is this with the exporter's own flush. *)
Theorem fatal_run_outcome {U : UlidLib} {X : Type} {EX : Exporter X} (s : FatalRunSupervisor X) (minted : EventId)
    (wall : Z) (session : result ProvisionError SubstrateExit) (flushes : list (result ExportError unit)) :
  let out := finish_wait s minted wall session in
  let r := record_flushes out.2 flushes in
  (wait s minted wall session).2 = record_flushes out.2 [(export_flush (fs_exporter out.1)).2] ∧
  match session with
  | Ok exit => out = (s, Ok exit) ∧ r = Ok exit
  | Err (ProvisionDataplane component diagnostic) =>
      let ts := tick_with_wall_ns (fs_clock s) wall in
      let call := export (fs_exporter s) [capture_fatal minted (fs_context s) ts DataplaneFailed] in
      out.1 = mkFatalSupervisor (fs_context s) (Some ts) call.1 ∧
      ∃ f, r = Err (Fatal f) ∧
        fatal_reason (fr_result f) = DataplaneFailed ∧ fatal_exit_code (fr_result f) = 1%Z ∧
        fr_substrate_error f = Some (ProvisionDataplane component diagnostic) ∧
        (event_persisted f = true ↔ is_ok call.2 = true ∧ head flushes = Some (Ok ())) ∧
        fatal_event_delivery (Fatal f) = fatal_account call.2 ∧ events_account (fatal_account call.2) ∧
        (persistence_error f = None ↔ is_ok call.2 = true ∧ ∀ e, head flushes ≠ Some (Err e)) ∧
        (∀ e, call.2 = Err e → persistence_error f = Some e)
  | Err e => out = (s, Err (Provision e)) ∧ r = Err (Provision e) ∧
             fatal_event_delivery (Provision e) = CaptureEventDelivery_default
  end.
Proof.
  intros out r. split.
  { unfold wait. fold out. destruct out as [s1 [exit|[f|e]]]; [done| |done]. cbn [snd fst].
    by destruct (export_flush (fs_exporter s1)). }
  destruct session as [exit|e]; [split; [done|by apply record_flushes_other]|].
  destruct e as [| |component diagnostic|]; try (split_and!; [done|by apply record_flushes_other|done]).
  intros ts call. unfold r, out, finish_wait, persist. fold ts. fold call. destruct call as [x exported]. cbn [fst snd].
  split; [done|].
  eexists. split; [eapply (record_flushes_fatal _ _ exported); by destruct exported as [[]|]|]. cbn.
  split_and!; [done..| | | | |].
  - destruct exported as [[]|e]; cbn; [destruct flushes as [|[[]|e] later]; cbn; naive_solver|].
    split; [done|]. by intros [[=] _].
  - destruct exported as [[]|[]]; cbn; [by destruct flushes as [|[[]|e] later]|done..].
  - by destruct exported as [[]|[]].
  - destruct exported as [[]|e]; cbn; [destruct flushes as [|[[]|e] later]; cbn; naive_solver|].
    split; [done|]. by intros [[=] _].
  - intros e [= ->]. done.
Qed.

Section witnesses.
#[local] Existing Instance crockford_ulid.

(** An exporter that rejects everything. *)
#[local] Instance refusing : Exporter nat := {
  export n es := (n + length es, Err (Rejected (bs "x") []));
  export_flush n := (n, Ok ());
}.
Definition failed_session : result ProvisionError SubstrateExit := Err (ProvisionDataplane (bs "gateway") (bs "exited")).

Example fatal_run_rejected :
  (wait (FatalRunSupervisor_new Scripted.ctx 0) (event_id (Scripted.ev 1)) 7 failed_session).2
  = Err (Fatal (mkFatalError (mkFatalResult DataplaneFailed) (Some (ProvisionDataplane (bs "gateway") (bs "exited")))
                  (PersistFailed (mkPersistenceFailure (Some (Rejected (bs "x") [])) None)))).
Proof. vm_compute. reflexivity. Qed.
End witnesses.
