(* ===== verification/EventRelay.v ===== *)
(** * The private event relay (crates/hiloop-interceptor/src/netns/event_relay.rs)

    Capture processes inside the namespace send their events to the host over
    a Unix socket: framed requests, single-use tokens that fix a connection's
    role, and a count of every event on the host.

    A server state holds what the connections share (credentials, capture
    state, the exporter's world) and each connection's point in its code
    between two awaits.  A step is one connection's move, the accept loop's, or
    the abort of a connection at shutdown; which comes next is the
    scheduler's choice. *)
From Stdlib Require Import Strings.Byte.
From stdpp Require Import relations.
From S2P Require Import Prelude Text Identity Event Capture Completion Spool Seams Pipeline Protocol.

Definition MAX_FRAME_BYTES : Z := 4 * 1024 * 1024.
Definition MAX_CONNECTIONS : nat := 16.

(** ** Messages and frames *)

Section messages.
Context {U : UlidLib}.

Record RelayCompletion := mkRelayCompletion { rc_report : CaptureCompletionReport; rc_event : Event }.

Inductive RelayRequest :=
| Authenticate (token : str)
| Export (events : list Event)
| Completion (completion : RelayCompletion)
| Flush.

Inductive RelayResponse := ResponseOk | ResponseError (message : str).
End messages.

Definition frame_too_large : IoError := invalid_data (bs "netns event-relay frame exceeds 4 MiB").

Definition write_frame {T W} `{SerdeJson T, Write W} (writer : W) (value : T) : W * result IoError unit :=
  match map_err invalid_data (to_vec value) with
  | Err e => (writer, Err e)
  | Ok payload =>
      let len := Z.of_nat (length payload) in
      if (MAX_FRAME_BYTES <? len)%Z then (writer, Err frame_too_large)
      else if (u32_max <? len)%Z then (writer, Err (invalid_data (bs "out of range integral type conversion attempted")))
      else match write_all writer (u32_to_be_bytes len) with
           | (writer, Err e) => (writer, Err e)
           | (writer, Ok _) =>
               match write_all writer payload with
               | (writer, Err e) => (writer, Err e)
               | (writer, Ok _) => flush writer
               end
           end
  end.

Definition read_frame {T R} `{SerdeJson T, Read R} (reader : R) : R * result IoError T :=
  match read_exact reader 4 with
  | (reader, Err e) => (reader, Err e)
  | (reader, Ok header) =>
      let len := u32_from_be_bytes header in
      if (MAX_FRAME_BYTES <? len)%Z then (reader, Err frame_too_large)
      else match read_exact reader (Z.to_nat len) with
           | (reader, Err e) => (reader, Err e)
           | (reader, Ok payload) => (reader, map_err invalid_data (from_slice payload))
           end
  end.

Definition RELAY_EXPORTER : str := bs "netns-event-relay".
Definition relay_export_error (_ : IoError) : ExportError := Other RELAY_EXPORTER (bs "private event relay failed").

(** ** The namespace side *)

Section client.
Context {U : UlidLib} {JR : SerdeJson RelayRequest} {JP : SerdeJson RelayResponse} {JE : SerdeJson Event}.

Section stream.
Context {S : Type} {WS : Write S} {RS : Read S}.

Definition request_on (stream : S) (request : RelayRequest) : S * result ExportError unit :=
  match write_frame stream request with
  | (stream, Err e) => (stream, Err (relay_export_error e))
  | (stream, Ok _) =>
      match read_frame stream with
      | (stream, Err e) => (stream, Err (relay_export_error e))
      | (stream, Ok ResponseOk) => (stream, Ok ())
      | (stream, Ok (ResponseError message)) => (stream, Err (Other RELAY_EXPORTER message))
      end
  end.

Definition authenticate (stream : S) (token : str) : S * result IoError unit :=
  match write_frame stream (Authenticate token) with
  | (stream, Err e) => (stream, Err e)
  | (stream, Ok _) =>
      match read_frame stream with
      | (stream, Err e) => (stream, Err e)
      | (stream, Ok ResponseOk) => (stream, Ok ())
      | (stream, Ok (ResponseError message)) => (stream, Err (mkIoError PermissionDenied (ErrorText message)))
      end
  end.
End stream.

(** The exporter's methods over [send], the exchange of one request. *)
Section requests.
Context {S : Type} (send : S → RelayRequest → S * result ExportError unit).

Definition serialized_bytes {T} `{SerdeJson T} (v : T) : result ExportError Z :=
  map_err (λ e, relay_export_error (invalid_data e)) ((λ payload, Z.of_nat (length payload)) <$> to_vec v).

Fixpoint export_loop (stream : S) (empty_frame_bytes : Z) (batch : list Event) (frame_bytes : Z)
    (events : list Event) : S * result ExportError (list Event) :=
  match events with
  | [] => (stream, Ok batch)
  | event :: events =>
      match serialized_bytes event with
      | Err e => (stream, Err e)
      | Ok event_bytes =>
          let separator := if bool_decide (batch = []) then 0%Z else 1%Z in
          let '(stream, sent) :=
            if negb (bool_decide (batch = []))
               && (MAX_FRAME_BYTES <? saturating_add usize_max (saturating_add usize_max frame_bytes separator) event_bytes)%Z
            then let '(stream, r) := send stream (Export batch) in (stream, (λ _, ([], empty_frame_bytes)) <$> r)
            else (stream, Ok (batch, frame_bytes)) in
          match sent with
          | Err e => (stream, Err e)
          | Ok (batch, frame_bytes) =>
              let separator := if bool_decide (batch = []) then 0%Z else 1%Z in
              export_loop stream empty_frame_bytes (batch ++ [event])
                (saturating_add usize_max (saturating_add usize_max frame_bytes separator) event_bytes) events
          end
      end
  end.

Definition relay_export (stream : S) (events : list Event) : S * result ExportError unit :=
  match serialized_bytes (Export []) with
  | Err e => (stream, Err e)
  | Ok empty_frame_bytes =>
      match export_loop stream empty_frame_bytes [] empty_frame_bytes events with
      | (stream, Err e) => (stream, Err e)
      | (stream, Ok []) => (stream, Ok ())
      | (stream, Ok batch) => send stream (Export batch)
      end
  end.

Definition relay_flush (stream : S) : S * result ExportError unit := send stream Flush.

Definition relay_export_completion (can_complete : bool) (stream : S) (event : Event)
    (report : CaptureCompletionReport) : S * result ExportError unit :=
  if negb can_complete then
    (stream, Err (Rejected RELAY_EXPORTER (bs "this relay connection cannot publish capture completion")))
  else send stream (Completion (mkRelayCompletion report event)).
End requests.
End client.

(** ** The host side *)

Section server.
Context {U : UlidLib} {X : Type} {EX : Exporter X}.

Record RelayCredentials := mkCredentials { gateway_token : option str; workload_token : option str }.
Record NetworkObservations := mkNetwork { full : Z; metadata_only_observations : Z }.
Record RelayEventDelivery := mkDelivery { observed : Z; landed : Z; dropped : Z; rejected : Z }.
Record RelayCaptureState := mkCaptureState {
  network : NetworkObservations;
  events : RelayEventDelivery;
  completion : option (CaptureCompletionReport * Event) }.
Definition RelayCaptureState_default : RelayCaptureState := mkCaptureState (mkNetwork 0 0) (mkDelivery 0 0 0 0) None.

Inductive RelayRole := Gateway | Workload.
#[export] Instance role_eq_dec : EqDecision RelayRole.
Proof. solve_decision. Defined.

Definition is_network (e : Event) : bool :=
  match attributes e !! key RAW_SOURCE with
  | Some (AString source) => bool_decide (source = PROXY_SOURCE)
  | _ => false
  end || bool_decide (signal e = NetSignal).

Definition observe_network (n : NetworkObservations) (e : Event) : NetworkObservations :=
  if negb (is_network e) then n
  else if metadata_only e then mkNetwork (full n) (add_u64 (metadata_only_observations n) 1)
  else mkNetwork (add_u64 (full n) 1) (metadata_only_observations n).

Definition record_relay_attempt (c : RelayCaptureState) (es : list Event) : RelayCaptureState :=
  let count := Z.of_nat (length es) in
  let d := events c in
  mkCaptureState (fold_left observe_network es (network c))
    (mkDelivery (saturating_add u64_max (observed d) count) (landed d)
       (saturating_add u64_max (dropped d) count) (rejected d))
    (completion c).

Definition record_relay_outcome (c : RelayCaptureState) (count : nat) (r : result ExportError unit)
    : RelayCaptureState :=
  let count := Z.of_nat count in
  let d := events c in
  let d := match r with
           | Ok _ => mkDelivery (observed d) (saturating_add u64_max (landed d) count)
                       (saturating_sub (dropped d) count) (rejected d)
           | Err (Rejected _ _) => mkDelivery (observed d) (landed d) (saturating_sub (dropped d) count)
                                     (saturating_add u64_max (rejected d) count)
           | Err _ => d
           end in
  mkCaptureState (network c) d (completion c).

(** [RelayCaptureReport::take_completion] *)
Definition take_completion (c : RelayCaptureState) : RelayCaptureState * option (CaptureCompletionReport * Event) :=
  (mkCaptureState (network c) (events c) None, completion c).

(** The credential check: a token is used up by the connection it admits. *)
Definition admit_token (c : RelayCredentials) (token : str) : RelayCredentials * option RelayRole :=
  if bool_decide (workload_token c = Some token) then (mkCredentials (gateway_token c) None, Some Workload)
  else if bool_decide (gateway_token c = Some token) then (mkCredentials None (workload_token c), Some Gateway)
  else (c, None).

(** A connection's point in [serve_connection]. *)
Inductive connection :=
| AwaitingToken
| Serving (role : RelayRole)
| Exporting (role : RelayRole) (es : list Event)  (* attempt recorded *)
| Answering (role : RelayRole) (count : nat) (r : result ExportError unit)  (* exported *)
| Ended (role : option RelayRole) (r : result IoError unit)  (* returned *)
| Aborted (at_await : connection).  (* dropped there *)

Fixpoint role_of (c : connection) : option RelayRole :=
  match c with
  | Serving role | Exporting role _ | Answering role _ _ => Some role
  | Ended role _ => role
  | Aborted c => role_of c
  | AwaitingToken => None
  end.

Record server := mkServer {
  credentials : RelayCredentials;
  capture : RelayCaptureState;
  exporter : X;
  connections : list connection }.

Definition relay_bind (x : X) (gateway_token workload_token : str) : server :=
  mkServer (mkCredentials (Some gateway_token) (Some workload_token)) RelayCaptureState_default x [].

Definition response_of (r : result ExportError unit) : RelayResponse :=
  match r with Ok _ => ResponseOk | Err e => ResponseError (ExportError_fmt e) end.

(** After a response: the next request, or the end on a write error. *)
Definition after_write (written : result IoError unit) (next : connection) : connection :=
  match written with Ok _ => next | Err e => Ended (role_of next) (Err e) end.

Definition already_authenticated : ExportError :=
  Rejected RELAY_EXPORTER (bs "event-relay connection is already authenticated").
Definition already_reported : ExportError := Rejected RELAY_EXPORTER (bs "capture completion was already reported").
Definition not_authorized : ExportError :=
  Rejected RELAY_EXPORTER (bs "connection is not authorized to publish capture completion").

Definition record_completion (c : RelayCaptureState) (role : RelayRole) (rc : RelayCompletion)
    : RelayCaptureState * result ExportError unit :=
  match role with
  | Workload =>
      match completion c with
      | Some _ => (c, Err already_reported)
      | None => (mkCaptureState (network c) (events c) (Some (rc_report rc, rc_event rc)), Ok ())
      end
  | Gateway => (c, Err not_authorized)
  end.

(** A connection's move.  [read] is the outcome of its [read_frame] (of the
    first one under its timeout), [written] that of its [write_frame]; the
    response it writes is returned. *)
Definition connection_step (s : server) (c : connection) (read : result IoError RelayRequest)
    (written : result IoError unit) : option (server * connection * option RelayResponse) :=
  match c with
  | AwaitingToken =>
      match read with
      | Err e => Some (s, Ended None (Err e), None)
      | Ok (Authenticate token) =>
          let '(creds, role) := admit_token (credentials s) token in
          let s := mkServer creds (capture s) (exporter s) (connections s) in
          match role with
          | None => Some (s, after_write written (Ended None (Ok ())),
                          Some (ResponseError (bs "event-relay authentication failed")))
          | Some role => Some (s, after_write written (Serving role), Some ResponseOk)
          end
      | Ok _ => Some (s, after_write written (Ended None (Ok ())),
                      Some (ResponseError (bs "event-relay authentication is required")))
      end
  | Serving role =>
      match read with
      | Err e => Some (s, Ended (Some role) (match io_kind e with UnexpectedEof => Ok () | _ => Err e end), None)
      | Ok (Authenticate _) =>
          Some (s, after_write written (Serving role), Some (response_of (Err already_authenticated)))
      | Ok (Export es) =>
          Some (mkServer (credentials s) (record_relay_attempt (capture s) es) (exporter s) (connections s),
                Exporting role es, None)
      | Ok (Completion rc) =>
          let '(cap, r) := record_completion (capture s) role rc in
          Some (mkServer (credentials s) cap (exporter s) (connections s),
                after_write written (Serving role), Some (response_of r))
      | Ok Flush =>
          let '(x, r) := export_flush (exporter s) in
          Some (mkServer (credentials s) (capture s) x (connections s),
                after_write written (Serving role), Some (response_of r))
      end
  | Exporting role es =>
      let '(x, r) := export (exporter s) es in
      Some (mkServer (credentials s) (capture s) x (connections s), Answering role (length es) r, None)
  | Answering role count r =>
      Some (mkServer (credentials s) (record_relay_outcome (capture s) count r) (exporter s) (connections s),
            after_write written (Serving role), Some (response_of r))
  | Ended _ _ | Aborted _ => None
  end.

(** A connection holds its permit until its task ends. *)
Definition permits (c : connection) : nat :=
  match c with Ended _ _ | Aborted _ => 0 | _ => 1 end.
Definition live_connections (s : server) : nat := sum_list (permits <$> connections s).

Inductive relay_label :=
| Accept
| Move (i : nat) (read : result IoError RelayRequest) (written : result IoError unit)
| AbortConnection (i : nat)
| TakeCompletion.

Definition relay_step (l : relay_label) (s : server) : option server :=
  match l with
  | Accept =>
      (* the accepted stream is dropped when no permit is left *)
      if bool_decide (live_connections s < MAX_CONNECTIONS)
      then Some (mkServer (credentials s) (capture s) (exporter s) (connections s ++ [AwaitingToken])) else Some s
  | Move i read written =>
      c ← connections s !! i;
      '(s, c, _) ← connection_step s c read written;
      Some (mkServer (credentials s) (capture s) (exporter s) (<[i := c]> (connections s)))
  | AbortConnection i =>
      c ← connections s !! i;
      if Nat.eqb (permits c) 1 then Some (mkServer (credentials s) (capture s) (exporter s)
                             (<[i := Aborted c]> (connections s))) else None
  | TakeCompletion => Some (mkServer (credentials s) (take_completion (capture s)).1 (exporter s) (connections s))
  end.

Definition relay_run (s s' : server) : Prop := ∃ l, relay_step l s = Some s'.

End server.

(** ** Accounting

    The exporter's calls are logged, to compare the counts with what happened. *)

Abbreviation export_log := (list (list Event * result ExportError unit)).

Section accounting.
Context {U : UlidLib} {X : Type} {EX : Exporter X}.

#[export] Instance logged_exporter : Exporter (X * export_log) := {
  export w es := let '(x, r) := export w.1 es in ((x, w.2 ++ [(es, r)]), r);
  export_flush w := let '(x, r) := export_flush w.1 in ((x, w.2), r);
}.

Abbreviation lserver := (@server U (X * export_log)).
Implicit Types (s : lserver) (c : connection).

Definition count (p : Event → bool) (es : list Event) : nat := length (filter (λ e, p e = true) es).

(** Events a connection has announced but not exported, and the answers it has
    not recorded, also at the await where it was aborted. *)
Fixpoint unexported c : list Event :=
  match c with Exporting _ es => es | Aborted c => unexported c | _ => [] end.
Fixpoint unrecorded (p : result ExportError unit → bool) c : nat :=
  match c with Answering _ n r => if p r then n else 0 | Aborted c => unrecorded p c | _ => 0 end.

Definition is_rejected (r : result ExportError unit) : bool :=
  match r with Err (Rejected _ _) => true | _ => false end.

(** All events announced by a request, and those whose export answered [p]. *)
Definition offered s : list Event := concat (exporter s).2.*1 ++ (connections s ≫= unexported).
Definition answered (p : result ExportError unit → bool) s : list Event :=
  concat (filter (λ x, p x.2 = true) (exporter s).2).*1.

Definition observed_full (e : Event) : bool := is_network e && negb (metadata_only e).
Definition observed_metadata (e : Event) : bool := is_network e && metadata_only e.

Record accounted s : Prop := {
  ac_observed : observed (events (capture s)) = Z.of_nat (length (offered s));
  ac_landed : (landed (events (capture s)) + Z.of_nat (sum_list (unrecorded is_ok <$> connections s))
               = Z.of_nat (length (answered is_ok s)))%Z;
  ac_rejected : (rejected (events (capture s)) + Z.of_nat (sum_list (unrecorded is_rejected <$> connections s))
                 = Z.of_nat (length (answered is_rejected s)))%Z;
  ac_total : (landed (events (capture s)) + dropped (events (capture s)) + rejected (events (capture s))
              = observed (events (capture s)))%Z;
  ac_nonneg : (0 ≤ landed (events (capture s)) ∧ 0 ≤ rejected (events (capture s)))%Z;
  ac_full : full (network (capture s)) = Z.of_nat (count observed_full (offered s));
  ac_metadata : metadata_only_observations (network (capture s)) = Z.of_nat (count observed_metadata (offered s));
}.

Lemma count_app p a b : count p (a ++ b) = count p a + count p b.
Proof. unfold count. by rewrite filter_app, length_app. Qed.

Lemma observe_network_count es n :
  (0 ≤ full n)%Z → (0 ≤ metadata_only_observations n)%Z →
  (full n + metadata_only_observations n + Z.of_nat (length es) ≤ u64_max)%Z →
  fold_left observe_network es n =
  mkNetwork (full n + Z.of_nat (count observed_full es)) (metadata_only_observations n + Z.of_nat (count observed_metadata es)).
Proof.
  revert n. induction es as [|e es IH]; intros n Hf Hm Hle; cbn [fold_left].
  { unfold count. simpl. rewrite !Z.add_0_r. by destruct n. }
  assert (∀ p, count p (e :: es) = (if p e then 1 else 0) + count p es) as Hc.
  { intros p. unfold count. rewrite filter_cons. by destruct (p e). }
  rewrite !Hc. unfold observe_network at 2, observed_full at 1, observed_metadata at 1, add_u64.
  simpl in Hle. destruct (is_network e), (metadata_only e); cbn [negb andb];
    rewrite IH; cbn [full metadata_only_observations]; rewrite ?Z.mod_small; try lia; f_equal; lia.
Qed.

Lemma count_le es : count observed_full es + count observed_metadata es ≤ length es.
Proof.
  induction es as [|e es IH]; [done|]. unfold count in *. rewrite !filter_cons.
  unfold observed_full, observed_metadata in *. destruct (is_network e), (metadata_only e); simpl in *; lia.
Qed.

Lemma answered_le (log : export_log) :
  length (concat (filter (λ x, is_ok x.2 = true) log).*1) + length (concat (filter (λ x, is_rejected x.2 = true) log).*1)
  ≤ length (concat log.*1).
Proof.
  induction log as [|[es r] log IH]; [done|]. rewrite !filter_cons. cbn [snd].
  destruct r as [[]|[]]; cbn [is_ok is_rejected]; repeat case_decide; try done;
    cbn [fmap list_fmap fst concat]; rewrite ?length_app; lia.
Qed.

Lemma answered_snoc p (log : export_log) es r :
  length (concat (filter (λ x, p x.2 = true) (log ++ [(es, r)])).*1)
  = length (concat (filter (λ x, p x.2 = true) log).*1) + (if p r then length es else 0).
Proof.
  rewrite filter_app, fmap_app, concat_app, length_app, filter_cons, filter_nil. cbn [snd]. f_equal.
  destruct (p r); case_decide; try done. simpl. by rewrite app_nil_r.
Qed.

(** A step that moves a connection between points with the same open work. *)
Lemma accounted_same s i c c' creds cap x :
  accounted s → connections s !! i = Some c →
  unexported c' = unexported c → (∀ p, unrecorded p c' = unrecorded p c) →
  events cap = events (capture s) → network cap = network (capture s) → x.2 = (exporter s).2 →
  accounted (mkServer creds cap x (<[i := c']> (connections s))).
Proof.
  intros A Hi Hu Hr Hev Hnet Hx.
  assert (<[i := c']> (connections s) ≫= unexported = connections s ≫= unexported) as Hb.
  { destruct (bind_insert unexported _ i c c' Hi) as (a & b & -> & ->). by rewrite Hu. }
  assert (∀ p, sum_list (unrecorded p <$> <[i := c']> (connections s)) = sum_list (unrecorded p <$> connections s)) as Hs.
  { intros p. pose proof (sum_list_insert (unrecorded p) _ i c c' Hi). rewrite Hr in *. lia. }
  split; unfold offered, answered; cbn; rewrite ?Hev, ?Hnet, ?Hx, ?Hb, ?Hs; apply A.
Qed.

Lemma accounted_attempt s i role es :
  accounted s → connections s !! i = Some (Serving role) →
  (observed (events (record_relay_attempt (capture s) es)) < u64_max)%Z →
  accounted (mkServer (credentials s) (record_relay_attempt (capture s) es) (exporter s)
               (<[i := Exporting role es]> (connections s))).
Proof.
  intros A Hi Hlt. cbn in Hlt. unfold saturating_add in Hlt.
  destruct (bind_insert unexported _ i _ (Exporting role es) Hi) as (a & b & Ha & Hb). cbn [unexported app] in Ha, Hb.
  assert (∀ p, sum_list (unrecorded p <$> <[i := Exporting role es]> (connections s)) = sum_list (unrecorded p <$> connections s)) as Hs.
  { intros p. pose proof (sum_list_insert (unrecorded p) _ i _ (Exporting role es) Hi) as H. cbn in H. lia. }
  pose proof (ac_observed _ A) as Ho. pose proof (ac_total _ A) as Ht. pose proof (ac_nonneg _ A) as Hn.
  pose proof (ac_full _ A) as Hf. pose proof (ac_metadata _ A) as Hm. pose proof (count_le (offered s)) as Hc.
  assert (network (record_relay_attempt (capture s) es) = mkNetwork (full (network (capture s)) + Z.of_nat (count observed_full es))
    (metadata_only_observations (network (capture s)) + Z.of_nat (count observed_metadata es))) as Hnet.
  { cbn. apply observe_network_count; lia. }
  split; unfold offered, answered in *; cbn [capture exporter connections]; rewrite ?Hnet;
    cbn [record_relay_attempt events observed landed dropped rejected full metadata_only_observations];
    rewrite ?Hs, ?Hb; unfold saturating_add; rewrite ?Ha in *;
    rewrite ?count_app, ?length_app in *; try apply A; lia.
Qed.

Lemma accounted_export s i role es x r :
  accounted s → connections s !! i = Some (Exporting role es) →
  export (exporter s) es = (x, r) →
  accounted (mkServer (credentials s) (capture s) x (<[i := Answering role (length es) r]> (connections s))).
Proof.
  intros A Hi Hx. cbn in Hx. destruct (export (exporter s).1 es) as [x1 r1]. injection Hx as <- <-.
  destruct (bind_insert unexported _ i _ (Answering role (length es) r1) Hi) as (a & b & Ha & Hb). cbn [unexported app] in Ha, Hb.
  assert (∀ p, sum_list (unrecorded p <$> <[i := Answering role (length es) r1]> (connections s))
    = sum_list (unrecorded p <$> connections s) + (if p r1 then length es else 0)) as Hs.
  { intros p. pose proof (sum_list_insert (unrecorded p) _ i _ (Answering role (length es) r1) Hi) as H. cbn in H. lia. }
  pose proof (ac_observed _ A) as Ho. pose proof (ac_landed _ A) as Hl. pose proof (ac_rejected _ A) as Hrej.
  pose proof (ac_full _ A) as Hf. pose proof (ac_metadata _ A) as Hm.
  split; unfold offered, answered in *; cbn [capture exporter connections snd]; try apply A;
    rewrite ?Hs, ?answered_snoc, ?Hb; rewrite ?fmap_app, ?concat_app; cbn [fmap list_fmap fst concat];
    rewrite ?Ha in *; rewrite ?app_nil_r, ?count_app, ?length_app in *; lia.
Qed.

Lemma accounted_record s i role n r c' :
  accounted s → connections s !! i = Some (Answering role n r) →
  unexported c' = [] → (∀ p, unrecorded p c' = 0) → (observed (events (capture s)) < u64_max)%Z →
  accounted (mkServer (credentials s) (record_relay_outcome (capture s) n r) (exporter s) (<[i := c']> (connections s))).
Proof.
  intros A Hi Hu Hr Hlt.
  destruct (bind_insert unexported _ i _ c' Hi) as (a & b & Ha & Hb). rewrite Hu in Hb. cbn [unexported app] in Ha, Hb.
  assert (∀ p, sum_list (unrecorded p <$> <[i := c']> (connections s)) + (if p r then n else 0)
    = sum_list (unrecorded p <$> connections s)) as Hs.
  { intros p. pose proof (sum_list_insert (unrecorded p) _ i _ c' Hi) as H. rewrite Hr in H. cbn in H. lia. }
  pose proof (Hs is_ok) as Hok. pose proof (Hs is_rejected) as Hrj.
  pose proof (ac_observed _ A) as Ho. pose proof (ac_landed _ A) as Hl. pose proof (ac_rejected _ A) as Hrej.
  pose proof (ac_total _ A) as Ht. pose proof (ac_nonneg _ A) as Hn.
  pose proof (answered_le (exporter s).2) as Hle.
  unfold offered, answered in *. rewrite length_app in Ho.
  split; unfold offered, answered; cbn [capture exporter connections]; rewrite ?Hb; rewrite <- ?Ha;
    destruct r as [[]|[]]; cbn [record_relay_outcome events network observed landed dropped rejected is_ok is_rejected] in *;
    unfold saturating_add, saturating_sub; try apply A; try lia.
Qed.
End accounting.

Section relay_invariant.
Context {U : UlidLib} {X : Type} {EX : Exporter X}.
Abbreviation lserver := (@server U (X * export_log)).
Implicit Types (s : lserver) (c : connection).

Lemma after_write_quiet written c :
  unexported c = [] → (∀ p, unrecorded p c = 0) →
  unexported (after_write written c) = [] ∧ ∀ p, unrecorded p (after_write written c) = 0.
Proof. intros. by destruct written. Qed.

Lemma record_completion_frame cap role rc :
  let cap' := (record_completion cap role rc).1 in events cap' = events cap ∧ network cap' = network cap.
Proof. unfold record_completion. by destruct role, (completion cap). Qed.

Lemma move_accounted s i c read written s1 c' resp :
  accounted s → connections s !! i = Some c → connection_step s c read written = Some (s1, c', resp) →
  (observed (events (capture s1)) < u64_max)%Z → 
  accounted (mkServer (credentials s1) (capture s1) (exporter s1) (<[i := c']> (connections s1))).
Proof.
  intros A Hi Hstep Hlt.
  assert (∀ c', unexported c' = [] ∧ (∀ p, unrecorded p c' = 0) → ∀ creds cap (x : X * export_log),
    unexported c = [] → (∀ p, unrecorded p c = 0) →
    events cap = events (capture s) → network cap = network (capture s) → x.2 = (exporter s).2 →
    accounted (mkServer creds cap x (<[i := c']> (connections s)))) as Hquiet.
  { intros c2 [H1 H2] creds cap x H3 H4 ???. eapply accounted_same; [done|exact Hi|congruence|intros; by rewrite H2, H4|done..]. }
  destruct c as [|role|role es|role n r|role r|c0]; cbn in Hstep.
  - destruct read as [[tok|es|rc|]|e]; [destruct (admit_token (credentials s) tok) as [creds [role|]]|..];
      simplify_eq; cbn; apply Hquiet; try done; by apply after_write_quiet.
  - destruct read as [[tok|es|rc|]|e].
    + simplify_eq. cbn. apply Hquiet; try done. by apply after_write_quiet.
    + simplify_eq. cbn. by apply accounted_attempt.
    + pose proof (record_completion_frame (capture s) role rc) as Hf.
      destruct (record_completion (capture s) role rc) as [cap r]. destruct Hf. simplify_eq. cbn.
      apply Hquiet; try done. by apply after_write_quiet.
    + destruct (export_flush (exporter s).1) as [x r]. simplify_eq. cbn.
      apply Hquiet; try done. by apply after_write_quiet.
    + simplify_eq. cbn. by apply Hquiet.
  - destruct (export (exporter s).1 es) as [x r] eqn:E. simplify_eq. cbn.
    eapply accounted_export; [done..|]. cbn. by rewrite E.
  - simplify_eq. cbn. eapply accounted_record; [done|exact Hi|by apply after_write_quiet..|].
    revert Hlt. cbn. by destruct r as [[]|[]].
  - done.
  - done.
Qed.

Lemma attempt_mono (cap : RelayCaptureState) es :
  (observed (events cap) ≤ u64_max)%Z →
  (observed (events cap) ≤ observed (events (record_relay_attempt cap es)) ≤ u64_max)%Z.
Proof. cbn. unfold saturating_add. lia. Qed.

Lemma outcome_observed (cap : RelayCaptureState) n r :
  observed (events (record_relay_outcome cap n r)) = observed (events cap).
Proof. by destruct r as [[]|[]]. Qed.

Lemma connection_step_observed s c read written s1 c' resp :
  connection_step s c read written = Some (s1, c', resp) → (observed (events (capture s)) ≤ u64_max)%Z →
  (observed (events (capture s)) ≤ observed (events (capture s1)) ≤ u64_max)%Z ∧ connections s1 = connections s.
Proof.
  intros Hstep Hle. destruct c as [|role|role es|role n r|role r|c0]; cbn in Hstep; try done.
  - destruct read as [[tok|es|rc|]|e]; [destruct (admit_token (credentials s) tok) as [creds [role|]]|..]; by simplify_eq.
  - destruct read as [[tok|es|rc|]|e]; try (by simplify_eq).
    + simplify_eq. split; [by apply attempt_mono|done].
    + pose proof (record_completion_frame (capture s) role rc) as [Hf _].
      destruct (record_completion (capture s) role rc) as [cap r]. simplify_eq. cbn in *. rewrite Hf. split; [lia|done].
    + destruct (export_flush (exporter s).1) as [x r]. by simplify_eq.
  - destruct (export (exporter s).1 es) as [x r]. by simplify_eq.
  - simplify_eq. cbn [capture connections]. rewrite outcome_observed. split; [lia|done].
Qed.

Lemma connection_step_permits s c read written s1 c' resp :
  connection_step s c read written = Some (s1, c', resp) → permits c' ≤ permits c.
Proof.
  assert (permits c' ≤ 1) as H by (destruct c'; simpl; lia). by destruct c.
Qed.

Definition relay_inv s : Prop :=
  (0 ≤ observed (events (capture s)) ≤ u64_max)%Z ∧
  ((observed (events (capture s)) < u64_max)%Z → accounted s) ∧
  live_connections s ≤ MAX_CONNECTIONS.

Lemma relay_step_inv s l s' : relay_inv s → relay_step l s = Some s' → relay_inv s'.
Proof.
  intros (Hob & Hacc & Hlive). unfold relay_inv. destruct l as [|i read written|i|]; cbn [relay_step].
  - case_bool_decide as Hc; intros [= <-]; [|done]. split; [done|]. split.
    + intros Hlt. specialize (Hacc Hlt). split; unfold offered, answered; cbn [capture exporter connections];
        rewrite ?fmap_app, ?bind_app, ?sum_list_app; cbn; rewrite ?app_nil_r, ?Nat.add_0_r; apply Hacc.
    + unfold live_connections in *. cbn [connections]. rewrite fmap_app, sum_list_app. cbn. lia.
  - destruct (connections s !! i) as [c|] eqn:Hi; [cbn|done].
    destruct (connection_step s c read written) as [[[s1 c'] resp]|] eqn:E; [cbn|done]. intros [= <-]. cbn [capture].
    destruct (connection_step_observed _ _ _ _ _ _ _ E) as [Hm Hcs]; [lia|].
    split; [lia|]. split.
    + intros Hlt. eapply move_accounted; [apply Hacc; lia|exact Hi|exact E|done].
    + apply connection_step_permits in E. pose proof (sum_list_insert permits _ i c c' Hi).
      unfold live_connections in *. cbn [connections]. rewrite Hcs. lia.
  - destruct (connections s !! i) as [c|] eqn:Hi; [cbn|done].
    destruct (Nat.eqb (permits c) 1); [|done]. intros [= <-]. cbn [capture]. split; [done|]. split.
    + intros Hlt. eapply accounted_same; [by apply Hacc|exact Hi|done..].
    + pose proof (sum_list_insert permits _ i c (Aborted c) Hi) as H. unfold live_connections in *.
      cbn [connections permits] in *. lia.
  - intros [= <-]. cbn. split; [done|]. split; [|done]. intros Hlt. specialize (Hacc Hlt). split; apply Hacc.
Qed.

Lemma relay_bind_inv (x : X) gw wl : relay_inv (relay_bind (x, []) gw wl).
Proof.
  split; [cbn; unfold u64_max; lia|]. split; [|cbn; unfold MAX_CONNECTIONS; lia]. intros _. by split.
Qed.

Lemma relay_run_inv (x : X) gw wl s : rtc relay_run (relay_bind (x, []) gw wl) s → relay_inv s.
Proof.
  intros H. assert (relay_inv (relay_bind (x, []) gw wl)) as H0 by apply relay_bind_inv.
  induction H as [|s1 s2 s3 [l Hl] _ IH]; [done|]. apply IH. by eapply relay_step_inv.
Qed.
End relay_invariant.

(** ** Roles *)

Section roles.
Context {U : UlidLib} {X : Type} {EX : Exporter X}.
Implicit Types (s : @server U X) (c : connection) (role : RelayRole).

Definition token (creds : RelayCredentials) role : option str :=
  match role with Gateway => gateway_token creds | Workload => workload_token creds end.
Definition has_role role c : nat := if bool_decide (role_of c = Some role) then 1 else 0.
Definition unused (o : option str) : nat := match o with Some _ => 1 | None => 0 end.

(** What a move does to the roles, and what it needs to have any effect. *)
Definition role_effect s c (read : result IoError RelayRequest) s1 c' : Prop :=
  match role_of c with
  | Some role => role_of c' = Some role ∧ credentials s1 = credentials s
  | None =>
      exporter s1 = exporter s ∧ capture s1 = capture s ∧
      match role_of c' with
      | None => credentials s1 = credentials s
      | Some role =>
          ∃ tok, read = Ok (Authenticate tok) ∧ token (credentials s) role = Some tok ∧
            token (credentials s1) role = None ∧
            ∀ role', role' ≠ role → token (credentials s1) role' = token (credentials s) role'
      end
  end ∧
  (completion (capture s1) = completion (capture s) ∨ completion (capture s) = None ∧ role_of c = Some Workload).

Lemma after_write_role written c : role_of (after_write written c) = role_of c.
Proof. by destruct written. Qed.

Lemma admit_role creds tok creds' role :
  admit_token creds tok = (creds', Some role) →
  token creds role = Some tok ∧ token creds' role = None ∧
  ∀ role', role' ≠ role → token creds' role' = token creds role'.
Proof.
  unfold admit_token. repeat case_bool_decide; intros; simplify_eq; cbn; split_and!; try done; intros []; naive_solver.
Qed.

Lemma connection_step_role s c read written s1 c' resp :
  connection_step s c read written = Some (s1, c', resp) → role_effect s c read s1 c'.
Proof.
  intros Hstep. unfold role_effect. destruct c as [|role|role es|role n r|role r|c0]; cbn in Hstep |- *; try done.
  - split; [|destruct read as [[tok|es|rc|]|e]; [destruct (admit_token (credentials s) tok) as [creds [role|]]|..]; simplify_eq; by left].
    destruct read as [[tok|es|rc|]|e]; try (simplify_eq; rewrite ?after_write_role; by split_and!).
    destruct (admit_token (credentials s) tok) as [creds [role|]] eqn:E; simplify_eq; rewrite after_write_role; cbn.
    + split_and!; [done..|]. exists tok. split; [done|]. by apply admit_role.
    + split_and!; [done..|]. unfold admit_token in E. repeat case_bool_decide; by simplify_eq.
  - destruct read as [[tok|es|rc|]|e]; try (simplify_eq; rewrite ?after_write_role; cbn; by auto).
    + destruct (record_completion (capture s) role rc) as [cap r] eqn:E. simplify_eq. rewrite after_write_role.
      split; [done|]. unfold record_completion in E. destruct role; [simplify_eq; by left|].
      destruct (completion (capture s)) eqn:Ec; simplify_eq; cbn [capture]; rewrite ?Ec; auto.
    + destruct (export_flush (exporter s)) as [x r]. simplify_eq. rewrite after_write_role. cbn. auto.
  - destruct (export (exporter s) es) as [x r]. simplify_eq. cbn. auto.
  - simplify_eq. rewrite after_write_role. cbn. auto.
Qed.

Definition roles_inv (secret : RelayRole → str) s : Prop :=
  ∀ role, sum_list (has_role role <$> connections s) + unused (token (credentials s) role) = 1 ∧
    (token (credentials s) role = None ∨ token (credentials s) role = Some (secret role)).

Lemma connection_step_connections s c read written s1 c' resp :
  connection_step s c read written = Some (s1, c', resp) → connections s1 = connections s.
Proof.
  intros H. unfold connection_step in H. repeat first [case_in H | progress simplify_eq/=]; done.
Qed.

Lemma roles_step secret s l s' : roles_inv secret s → relay_step l s = Some s' → roles_inv secret s'.
Proof.
  intros Hinv. destruct l as [|i read written|i|]; cbn [relay_step].
  - case_bool_decide; intros [= <-]; [|done]. intros role. destruct (Hinv role). cbn [connections credentials].
    rewrite fmap_app, sum_list_app. cbn [fmap list_fmap]. replace (has_role role AwaitingToken) with 0 by done. cbn. split; [lia|done].
  - destruct (connections s !! i) as [c|] eqn:Hi; [cbn|done].
    destruct (connection_step s c read written) as [[[s1 c'] resp]|] eqn:E; [cbn|done]. intros [= <-] role.
    cbn [connections credentials]. rewrite (connection_step_connections _ _ _ _ _ _ _ E).
    apply connection_step_role in E as [E _]. pose proof (sum_list_insert (has_role role) _ i c c' Hi) as Hsum.
    destruct (Hinv role) as [Hs Ht]. unfold has_role in Hsum at 2 4.
    destruct (role_of c) as [r|] eqn:Hc.
    + destruct E as [E ->]. rewrite E in Hsum. split; [lia|done].
    + destruct E as (_ & _ & E). destruct (role_of c') as [r|] eqn:Hc'; [|rewrite E; split; [lia|done]].
      destruct E as (tok & _ & Htok & Hnone & Hother).
      destruct (decide (role = r)) as [->|Hne].
      * rewrite Hnone, Htok in *. rewrite bool_decide_false, bool_decide_true in Hsum by done. cbn in *. split; [lia|by left].
      * rewrite (Hother role Hne). rewrite !bool_decide_false in Hsum by congruence. split; [lia|done].
  - destruct (connections s !! i) as [c|] eqn:Hi; [cbn|done].
    destruct (Nat.eqb (permits c) 1); [|done]. intros [= <-] role. cbn [connections credentials].
    pose proof (sum_list_insert (has_role role) _ i c (Aborted c) Hi) as Hsum. unfold has_role in Hsum at 2 4. cbn in Hsum.
    destruct (Hinv role). split; [lia|done].
  - intros [= <-]. done.
Qed.

Definition secrets (gw wl : str) role : str := match role with Gateway => gw | Workload => wl end.

Lemma relay_run_roles (x : X) gw wl s :
  rtc relay_run (relay_bind x gw wl) s → roles_inv (secrets gw wl) s.
Proof.
  intros H. assert (roles_inv (secrets gw wl) (relay_bind x gw wl)) as H0 by (intros []; cbn; auto).
  induction H as [|s1 s2 s3 [l Hl] _ IH]; [done|]. apply IH. by eapply roles_step.
Qed.

Lemma has_role_unique role (l : list connection) i j c c' :
  sum_list (has_role role <$> l) ≤ 1 → l !! i = Some c → l !! j = Some c' →
  role_of c = Some role → role_of c' = Some role → i = j.
Proof.
  intros Hs Hi Hj Hc Hc'. destruct (decide (i = j)) as [|Hne]; [done|exfalso].
  pose proof (sum_list_insert (has_role role) _ i c AwaitingToken Hi) as H1.
  assert (<[i := AwaitingToken]> l !! j = Some c') as Hj' by (by rewrite list_lookup_insert_ne).
  pose proof (sum_list_insert (has_role role) _ j c' AwaitingToken Hj') as H2.
  assert (∀ c, role_of c = Some role → has_role role c = 1) as Hone.
  { intros c0 Hc0. unfold has_role. by rewrite bool_decide_true. }
  rewrite (Hone c Hc) in H1. rewrite (Hone c' Hc') in H2.
  replace (has_role role AwaitingToken) with 0 in * by done. lia.
Qed.
End roles.

(** ** Properties *)

(** C34: the host counts every event of the namespace.  Under every
    interleaving of connections, answers, write errors and aborts, until the
    counter saturates: the events observed are exactly those announced by a
    request, each is landed, dropped or rejected, none is counted as landed or
    rejected without that answer of the exporter, all such answers are counted
    once no connection is between its answer and its record, the network
    counters are exact, and at most 16 connections are served. *)
Theorem relay_accounting {U : UlidLib} {X : Type} {EX : Exporter X} (x : X) (gw wl : str)
    (s : @server U (X * export_log)) :
  rtc relay_run (relay_bind (x, []) gw wl) s →
  live_connections s ≤ MAX_CONNECTIONS ∧
  let d := events (capture s) in
  ((observed d < u64_max)%Z →
    observed d = Z.of_nat (length (offered s)) ∧
    (landed d + dropped d + rejected d = observed d)%Z ∧ (0 ≤ dropped d)%Z ∧
    (landed d ≤ Z.of_nat (length (answered is_ok s)))%Z ∧
    (rejected d ≤ Z.of_nat (length (answered is_rejected s)))%Z ∧
    (Forall (λ c, ∀ p, unrecorded p c = 0) (connections s) →
      landed d = Z.of_nat (length (answered is_ok s)) ∧ rejected d = Z.of_nat (length (answered is_rejected s))) ∧
    full (network (capture s)) = Z.of_nat (count observed_full (offered s)) ∧
    metadata_only_observations (network (capture s)) = Z.of_nat (count observed_metadata (offered s))).
Proof.
  intros (_ & Hacc & Hlive)%relay_run_inv. split; [done|]. intros d Hlt.
  destruct (Hacc Hlt) as [Ho Hl Hr Ht [Hn1 Hn2] Hf Hm]. fold d in Ho, Hl, Hr, Ht, Hn1, Hn2.
  pose proof (answered_le (exporter s).2) as Hle. fold (answered is_ok s) (answered is_rejected s) in Hle.
  assert (length (concat (exporter s).2.*1) ≤ length (offered s)) by (unfold offered; rewrite length_app; lia).
  split_and!; try done; try lia. intros Hq.
  assert (∀ p, sum_list (unrecorded p <$> connections s) = 0) as Hz.
  { clear -Hq. intros p. induction Hq as [|c l Hc _ IH]; [done|]. cbn. rewrite Hc. exact IH. }
  rewrite Hz in Hl, Hr. lia.
Qed.

(** A token is good for one connection.  In every reachable state at
    most one connection ever had each role; a connection takes a role only by
    presenting that role's token while it is unused; before that it neither
    exports nor changes any count; and a completion is recorded only by the
    workload's connection, where none is recorded yet. *)
Theorem relay_single_use {U : UlidLib} {X : Type} {EX : Exporter X} (x : X) (gw wl : str) (s : @server U X) :
  rtc relay_run (relay_bind x gw wl) s →
  (∀ role i j c c', connections s !! i = Some c → connections s !! j = Some c' →
     role_of c = Some role → role_of c' = Some role → i = j) ∧
  (∀ i c read written s' c', connections s !! i = Some c → relay_step (Move i read written) s = Some s' →
     connections s' !! i = Some c' →
     (role_of c = None → exporter s' = exporter s ∧ capture s' = capture s ∧
        ∀ role, role_of c' = Some role →
          read = Ok (Authenticate (secrets gw wl role)) ∧ token (credentials s) role = Some (secrets gw wl role)) ∧
     (completion (capture s') ≠ completion (capture s) → completion (capture s) = None ∧ role_of c = Some Workload)).
Proof.
  intros H%relay_run_roles. split.
  - intros role i j c c'. apply has_role_unique. destruct (H role). lia.
  - intros i c read written s' c' Hi Hstep Hi'. cbn in Hstep. rewrite Hi in Hstep. cbn in Hstep.
    destruct (connection_step s c read written) as [[[s1 c1] resp]|] eqn:E; [|done]. cbn in Hstep.
    pose proof (connection_step_connections _ _ _ _ _ _ _ E) as Hcs. injection Hstep as <-. cbn in *.
    rewrite Hcs, list_lookup_insert_eq in Hi' by (by eapply lookup_lt_Some). injection Hi' as <-.
    apply connection_step_role in E as [E Hcomp]. split; [|destruct Hcomp; [done|by intros]].
    intros Hc. rewrite Hc in E. destruct E as (-> & -> & E). split_and!; [done..|]. intros role Hr. rewrite Hr in E.
    destruct E as (tok & -> & Htok & _). destruct (H role) as [_ [Hn|Hn]]; rewrite Hn in Htok; by simplify_eq.
Qed.

(** ** Batching on the namespace side *)

(** How serde_json writes an export request: the items' texts, with a comma
    between two, inside what an empty request has. *)
(** A [Vec]'s length is a [usize]. *)
Class RelayJsonLaws {U : UlidLib} {JR : SerdeJson RelayRequest} {JE : SerdeJson Event} (empty : nat) : Prop := {
  empty_usize : (Z.of_nat empty ≤ usize_max)%Z;
  to_vec_empty : ∃ p, to_vec (Export []) = Ok p ∧ length p = empty;
  to_vec_export : ∀ es payloads, Forall2 (λ e p, to_vec e = Ok p) es payloads → es ≠ [] →
    ∃ p, to_vec (Export es) = Ok p ∧ length p = empty + length (concat payloads) + (length es - 1);
}.

Section batching.
Context {U : UlidLib} {JR : SerdeJson RelayRequest} {JE : SerdeJson Event}.
Context {P : Type} (send : P → RelayRequest → P * result ExportError unit).
Implicit Types (es batch : list Event).

(** The serialized size of an event, and of the frame of a batch. *)
Definition event_size (e : Event) : Z := match to_vec e with Ok p => Z.of_nat (length p) | Err _ => 0%Z end.
Definition batch_size (empty : nat) batch : Z :=
  (Z.of_nat empty + foldr Z.add 0 (event_size <$> batch) + Z.of_nat (length batch - 1))%Z.

(** The greedy split. *)
Fixpoint split_batches (empty : nat) batch es : list (list Event) :=
  match es with
  | [] => match batch with [] => [] | _ => [batch] end
  | e :: es =>
      if negb (bool_decide (batch = [])) && (MAX_FRAME_BYTES <? batch_size empty (batch ++ [e]))%Z
      then batch :: split_batches empty [e] es
      else split_batches empty (batch ++ [e]) es
  end.

Fixpoint send_in_turn (s : P) (batches : list (list Event)) : P * result ExportError unit :=
  match batches with
  | [] => (s, Ok ())
  | b :: batches =>
      match send s (Export b) with
      | (s, Err e) => (s, Err e)
      | (s, Ok _) => send_in_turn s batches
      end
  end.

Definition serializes (e : Event) : Prop := ∃ p, to_vec e = Ok p.

Lemma batch_size_snoc empty batch e :
  batch_size empty (batch ++ [e]) =
  (batch_size empty batch + (if bool_decide (batch = []) then 0 else 1) + event_size e)%Z.
Proof.
  unfold batch_size. rewrite fmap_app, length_app. cbn [fmap list_fmap length].
  assert (∀ l z, foldr Z.add 0%Z (l ++ [z]) = (foldr Z.add 0 l + z)%Z) as Hf by (intros l z; induction l; simpl; lia).
  rewrite Hf. case_bool_decide; [subst; simpl; lia|]. destruct batch; [done|]. cbn [length]. lia.
Qed.

Lemma event_size_nonneg e : (0 ≤ event_size e)%Z.
Proof. unfold event_size. case_match; lia. Qed.

Lemma batch_size_nonneg empty batch : (0 ≤ batch_size empty batch)%Z.
Proof.
  unfold batch_size. assert (0 ≤ foldr Z.add 0 (event_size <$> batch))%Z; [|lia].
  induction batch as [|e batch IH]; [done|]. rewrite fmap_cons. cbn [foldr]. pose proof (event_size_nonneg e). lia.
Qed.

Lemma saturating_add_saturated m a b c :
  (0 ≤ b)%Z → (0 ≤ c)%Z → saturating_add m (saturating_add m (Z.min m a) b) c = Z.min m (a + b + c).
Proof. unfold saturating_add. lia. Qed.

(** The running size is the frame's, up to saturation. *)
Lemma export_loop_split s empty batch es :
  Forall serializes es →
  match export_loop send s (Z.of_nat empty) batch (Z.min usize_max (batch_size empty batch)) es with
  | (s', Ok []) => send_in_turn s (split_batches empty batch es) = (s', Ok ())
  | (s', Ok rest) => send_in_turn s (split_batches empty batch es) = send s' (Export rest)
  | (s', Err e) => send_in_turn s (split_batches empty batch es) = (s', Err e)
  end.
Proof.
  revert s batch. induction es as [|e es IH]; intros s batch Hes; cbn [export_loop split_batches].
  { destruct batch; [done|]. cbn [send_in_turn]. by destruct (send s _) as [s' [[]|x]]. }
  inversion Hes as [|? ? [p Hp] Hes']; subst. unfold serialized_bytes. rewrite Hp. cbn [fmap result_fmap map_err].
  assert (Z.of_nat (length p) = event_size e) as -> by (unfold event_size; by rewrite Hp).
  pose proof (event_size_nonneg e) as He. pose proof (batch_size_snoc empty batch e) as Hsnoc.
  rewrite saturating_add_saturated, <- Hsnoc by (repeat case_bool_decide; lia).
  assert ((MAX_FRAME_BYTES <? Z.min usize_max (batch_size empty (batch ++ [e])))%Z
          = (MAX_FRAME_BYTES <? batch_size empty (batch ++ [e]))%Z) as ->.
  { apply eq_bool_prop_intro. rewrite !Is_true_true, !Z.ltb_lt. unfold MAX_FRAME_BYTES, usize_max, u64_max. lia. }
  destruct (negb (bool_decide (batch = [])) && (MAX_FRAME_BYTES <? batch_size empty (batch ++ [e]))%Z) eqn:Ec.
  - cbn [send_in_turn]. destruct (send s (Export batch)) as [s' [[]|x]]; cbn [fmap result_fmap]; [|done].
    rewrite bool_decide_true by done. specialize (IH s' [e] Hes').
    assert (saturating_add usize_max (saturating_add usize_max (Z.of_nat empty) 0) (event_size e)
            = Z.min usize_max (batch_size empty [e])) as ->.
    { unfold batch_size, saturating_add, usize_max, u64_max. cbn. lia. }
    exact IH.
  - rewrite saturating_add_saturated, <- Hsnoc by (repeat case_bool_decide; lia). exact (IH s (batch ++ [e]) Hes').
Qed.

Lemma split_batches_concat empty batch es : concat (split_batches empty batch es) = batch ++ es.
Proof.
  revert batch. induction es as [|e es IH]; intros batch; cbn [split_batches].
  { destruct batch; simpl; by rewrite ?app_nil_r. }
  destruct (_ && _); [cbn [concat]; rewrite IH; done|]. rewrite IH, <- app_assoc. done.
Qed.

Definition fits_frame empty batch : Prop :=
  batch ≠ [] ∧ ((batch_size empty batch ≤ MAX_FRAME_BYTES)%Z ∨ ∃ e, batch = [e]).

Lemma split_batches_fit empty batch es :
  batch = [] ∨ fits_frame empty batch → Forall (fits_frame empty) (split_batches empty batch es).
Proof.
  revert batch. induction es as [|e es IH]; intros batch Hb; cbn [split_batches].
  { destruct batch; [constructor|]. destruct Hb; [done|]. constructor; [done|constructor]. }
  destruct (negb (bool_decide (batch = [])) && (MAX_FRAME_BYTES <? batch_size empty (batch ++ [e]))%Z) eqn:Ec.
  - breflect. destruct Hb as [|Hb]; [done|]. constructor; [done|]. apply IH. right. split; [done|]. eauto.
  - apply IH. right. split; [by destruct batch|]. apply andb_false_iff in Ec as [Ec|Ec]; breflect; [subst; right; by exists e|by left].
Qed.

(** A batch ends only where its successor's first event does not fit. *)
Lemma split_batches_greedy empty batch es i b e rest :
  split_batches empty batch es !! i = Some b → split_batches empty batch es !! S i = Some (e :: rest) →
  (MAX_FRAME_BYTES < batch_size empty (b ++ [e]))%Z.
Proof.
  revert batch i. induction es as [|e' es IH]; intros batch i; cbn [split_batches].
  { by destruct batch. }
  destruct (negb (bool_decide (batch = [])) && (MAX_FRAME_BYTES <? batch_size empty (batch ++ [e']))%Z) eqn:Ec; [|apply IH].
  destruct i as [|i]; [|apply (IH [e'] i)]. intros [= <-] Hn. change (split_batches empty [e'] es !! 0 = Some (e :: rest)) in Hn. breflect.
  assert (∃ k, head (split_batches empty [e'] es) = Some (e' :: k)) as [k Hk].
  { clear. assert (∀ es batch, batch ≠ [] → ∃ k, head (split_batches empty batch es) = Some (batch ++ k)) as H.
    { clear. induction es as [|e es IH]; intros batch Hb; cbn [split_batches].
      - destruct batch; [done|]. exists []. by rewrite app_nil_r.
      - destruct (_ && _); [exists []; by rewrite app_nil_r|]. destruct (IH (batch ++ [e])) as [k Hk]; [by destruct batch|].
        exists (e :: k). by rewrite Hk, <- app_assoc. }
    by apply (H es [e']). }
  rewrite head_lookup in Hk. rewrite Hk in Hn. by injection Hn as <- _.
Qed.

Lemma batch_size_frame empty batch {L : RelayJsonLaws empty} :
  Forall serializes batch → batch ≠ [] →
  ∃ p, to_vec (Export batch) = Ok p ∧ Z.of_nat (length p) = batch_size empty batch.
Proof.
  intros Hs Hb. assert (∃ payloads, Forall2 (λ e p, to_vec e = Ok p) batch payloads) as [payloads Hp].
  { clear Hb. induction Hs as [|e batch [p Hp] _ [ps Hps]]; [by exists []|]. exists (p :: ps). by constructor. }
  destruct (to_vec_export batch payloads Hp Hb) as (p & Hv & Hl). exists p. split; [done|]. rewrite Hl.
  assert (Z.of_nat (length (concat payloads)) = foldr Z.add 0 (event_size <$> batch))%Z as Hc.
  { clear -Hp. induction Hp as [|e p batch ps He _ IH]; [done|]. cbn. rewrite length_app. cbn in IH. unfold event_size at 1.
    rewrite He. lia. }
  unfold batch_size. lia.
Qed.
End batching.

(** The namespace side splits an export into requests, in order, each
    within a frame of 4 MiB unless it is a single larger event, and never
    earlier than needed; exporting is sending these requests one after the
    other until one fails. *)
Theorem relay_export_batches {U : UlidLib} {JR : SerdeJson RelayRequest} {JE : SerdeJson Event} (empty : nat)
    {L : RelayJsonLaws empty} (es : list Event) :
  Forall serializes es →
  ∃ batches, concat batches = es ∧
    Forall (λ b, b ≠ [] ∧ ∃ p, to_vec (Export b) = Ok p ∧
      ((Z.of_nat (length p) ≤ MAX_FRAME_BYTES)%Z ∨ ∃ e, b = [e])) batches ∧
    (∀ i b e rest p, batches !! i = Some b → batches !! S i = Some (e :: rest) →
      to_vec (Export (b ++ [e])) = Ok p → (MAX_FRAME_BYTES < Z.of_nat (length p))%Z) ∧
    ∀ (P : Type) (send : P → RelayRequest → P * result ExportError unit) (s : P),
      relay_export send s es = send_in_turn send s batches.
Proof.
  intros Hes. exists (split_batches empty [] es).
  pose proof (split_batches_concat empty [] es) as Hcat. cbn [app] in Hcat.
  assert (∀ b, b ∈ split_batches empty [] es → Forall serializes b) as Hser.
  { intros b Hb. rewrite <- Hcat in Hes. apply Forall_concat in Hes. rewrite Forall_forall in Hes. by apply Hes. }
  split_and!; [done|..].
  - apply Forall_forall. intros b Hb. pose proof (split_batches_fit empty [] es (or_introl eq_refl)) as Hfit.
    rewrite Forall_forall in Hfit. destruct (Hfit b Hb) as [Hne Hsz]. split; [done|].
    destruct (batch_size_frame empty b (Hser b Hb) Hne) as (p & Hp & Hl). exists p. split; [done|]. by rewrite Hl.
  - intros i b e rest p Hi Hn Hp. pose proof (split_batches_greedy _ _ _ _ _ _ _ Hi Hn) as Hg.
    destruct (batch_size_frame empty (b ++ [e])) as (p' & Hp' & Hl); [|by destruct b|].
    + apply Forall_app. split; [eapply Hser, list_elem_of_lookup_2, Hi|].
      apply list_elem_of_lookup_2, Hser in Hn. inversion Hn; subst. by repeat constructor.
    + rewrite Hp in Hp'. injection Hp' as <-. lia.
  - intros P send s. unfold relay_export, serialized_bytes.
    destruct (to_vec_empty (empty := empty)) as (p & Hp & Hlen). rewrite Hp. cbn [fmap result_fmap map_err]. rewrite Hlen.
    pose proof (export_loop_split send s empty [] es Hes) as H.
    assert (Z.min usize_max (batch_size empty []) = Z.of_nat empty) as E.
    { pose proof (empty_usize (empty := empty)). unfold batch_size. cbn. lia. }
    rewrite E in H.
    destruct (export_loop send s (Z.of_nat empty) [] (Z.of_nat empty) es) as [s' [[|e rest]|x]]; by symmetry.
Qed.

(** A frame is read back as written, and leaves what follows it. *)
Lemma read_write_frame {T} `{SerdeJson T} {L : SerdeLaws T} (v : T) payload (rest : str) :
  to_vec v = Ok payload → (Z.of_nat (length payload) ≤ MAX_FRAME_BYTES)%Z →
  write_frame ([] : str) v = (frame payload, Ok ()) ∧
  read_frame (frame payload ++ rest) = (rest, Ok v).
Proof.
  intros Hv Hl. pose proof Hl as Hl'. unfold MAX_FRAME_BYTES in Hl'.
  assert (0 ≤ Z.of_nat (length payload) ≤ u32_max)%Z as Hr by (unfold u32_max; lia).
  split.
  - unfold write_frame. rewrite Hv. cbn [map_err]. rewrite !(proj2 (Z.ltb_ge _ _)) by lia. done.
  - unfold read_frame, frame. rewrite <- app_assoc.
    rewrite (proj2 (slice_read_Ok _ 4 (u32_to_be_bytes (Z.of_nat (length payload))) (payload ++ rest))) by done.
    cbv zeta. rewrite u32_from_to by done. rewrite (proj2 (Z.ltb_ge _ _)), Nat2Z.id by lia.
    rewrite (proj2 (slice_read_Ok (payload ++ rest) (length payload) payload rest)) by done.
    by rewrite (from_slice_to_vec v payload Hv).
Qed.

(** *** Witnesses *)

Fixpoint relay_exec {U : UlidLib} {X} {EX : Exporter X} (s : @server U X) (ls : list relay_label) : server :=
  match ls with
  | [] => s
  | l :: ls => relay_exec (default s (relay_step l s)) ls
  end.

Lemma relay_exec_run {U : UlidLib} {X} {EX : Exporter X} (s : @server U X) ls : rtc relay_run s (relay_exec s ls).
Proof.
  revert s. induction ls as [|l ls IH]; intros s; cbn [relay_exec]; [done|].
  destruct (relay_step l s) as [s'|] eqn:E; cbn [default]; [|apply IH]. eapply rtc_l; [by exists l|apply IH].
Qed.

Section witnesses.
#[local] Existing Instance crockford_ulid.
Import LineRun.

Definition answer : result IoError unit := Ok ().
(** The workload authenticates and exports two events; the gateway's
    connection is aborted between its export and its record. *)
Definition two_connections : list relay_label :=
  [Accept; Accept; Move 0 (Ok (Authenticate (bs "w"))) answer; Move 1 (Ok (Authenticate (bs "g"))) answer;
   Move 0 (Ok (Export [Scripted.ev 1; Scripted.ev 2])) answer; Move 1 (Ok (Export [Scripted.ev 3])) answer;
   Move 1 (Ok Flush) answer; Move 0 (Ok Flush) answer; AbortConnection 1; Move 0 (Ok Flush) answer].
Definition after_run : @server _ (list (list Event) * export_log) :=
  relay_exec (relay_bind ([], []) (bs "g") (bs "w")) two_connections.

Lemma relay_accounting_witness :
  (landed (events (capture after_run)) + dropped (events (capture after_run)) + rejected (events (capture after_run)) = 3)%Z.
Proof.
  destruct (relay_accounting [] (bs "g") (bs "w") after_run (relay_exec_run _ _)) as [_ H].
  destruct H as (_ & H & _); [vm_compute; reflexivity|]. rewrite H. vm_compute. reflexivity.
Defined.

Definition waiting : @server _ (list (list Event)) := relay_exec (relay_bind [] (bs "g") (bs "w")) [Accept].
Definition authenticated : @server _ (list (list Event)) :=
  relay_exec waiting [Move 0 (Ok (Authenticate (bs "w"))) answer].

Lemma relay_single_use_witness :
  exporter authenticated = exporter waiting ∧ capture authenticated = capture waiting ∧
  token (credentials waiting) Workload = Some (bs "w").
Proof.
  destruct (relay_single_use [] (bs "g") (bs "w") waiting (relay_exec_run _ _)) as [_ H].
  destruct (H 0 AwaitingToken (Ok (Authenticate (bs "w"))) answer authenticated (Serving Workload)) as [H1 _];
    [vm_compute; reflexivity..|].
  destruct (H1 eq_refl) as (He & Hc & Hr). destruct (Hr Workload eq_refl) as [_ Ht].
  split; [exact He|]. split; [exact Hc|exact Ht].
Defined.

(** Texts of the right lengths. *)
#[local] Instance sized_events : SerdeJson Event := {|
  to_vec _ := Ok (replicate 100 x20); from_slice _ := Err [] |}.
#[local] Instance sized_requests : SerdeJson RelayRequest := {|
  to_vec r := match r with
              | Export es => Ok (replicate (13 + 100 * length es + (length es - 1)) x20)
              | _ => Err []
              end;
  from_slice _ := Err [] |}.
#[local] Instance sized_laws : RelayJsonLaws 13.
Proof.
  split; [vm_compute; discriminate|by eexists|]. intros es payloads H _. eexists. split; [reflexivity|].
  rewrite length_replicate.
  assert (length (concat payloads) = 100 * length es) as ->; [|lia].
  induction H as [|e p es ps [= <-] _ IH]; [done|]. cbn [concat]. rewrite length_app, IH. cbn [length]. lia.
Qed.

Lemma relay_export_batches_witness :
  ∃ batches, concat batches = [Scripted.ev 1; Scripted.ev 2] ∧
    relay_export (λ (sent : nat) _, (S sent, Ok ())) 0 [Scripted.ev 1; Scripted.ev 2]
    = send_in_turn (λ (sent : nat) _, (S sent, Ok ())) 0 batches.
Proof.
  destruct (relay_export_batches 13 [Scripted.ev 1; Scripted.ev 2]) as (batches & H1 & _ & _ & H2);
    [repeat constructor; eexists; reflexivity|].
  exists batches. split; [exact H1|apply H2].
Defined.
End witnesses.
