(* ===== verification/Blob.v ===== *)
(** * Content-addressed blob storage (crates/hiloop-interceptor/src/blob.rs)

    A store is a directory: finalized blobs are the files [blake3-<hex>],
    writers stream into temporary files and commit by rename.  The directory
    is a map from names to nodes; each file-system call has the outcome [io]
    the environment chooses.  Any number of writers run interleaved with each
    other and with removals: a step is one writer's code between two calls
    that other writers can see.  The digest is the parameter [blake3_hex]. *)
From Stdlib Require Import Strings.Byte Sorting.Sorted.
From stdpp Require Import relations sorting.
From S2P Require Import Prelude Text Identity Event Spool.

(** ** Errors *)

Inductive BlobStoreErrorKind := KBackpressure | KUnavailable | KRejected | KOther.

(** [BlobStoreError::Other]; [source] is the disposition its source carries, if
    that is one. *)
Record BlobStoreError := mkBlobError { store_name : str; error_message : str; disposition : option BlobStoreErrorKind }.

Definition classified (kind : BlobStoreErrorKind) (store message : str) : BlobStoreError :=
  mkBlobError store message (Some kind).
Definition BlobStoreError_other (store message : str) : BlobStoreError := mkBlobError store message None.
Definition BlobStoreError_backpressure := classified KBackpressure.
Definition BlobStoreError_unavailable := classified KUnavailable.
Definition BlobStoreError_rejected := classified KRejected.
(** The source is an error of another type. *)
Definition BlobStoreError_with_source (store message : str) : BlobStoreError := mkBlobError store message None.
Definition kind (e : BlobStoreError) : BlobStoreErrorKind := default KOther (disposition e).

Definition STORE_NAME : str := bs "blob-dir".
Definition BLAKE3_DIGEST_PREFIX : str := bs "blake3:".
Definition BLAKE3_FILE_PREFIX : str := bs "blake3-".
Definition BLAKE3_HEX_LEN : nat := 64.

Definition lower_hex (b : byte) : bool :=
  is_ascii_digit b || ((97 <=? bz b)%Z && (bz b <=? 102)%Z).
Definition is_blake3_hex (value : str) : bool :=
  Nat.eqb (length value) BLAKE3_HEX_LEN && forallb lower_hex value.

(** The name of the finalized file of a digest, under the directory. *)
Definition finalized_path (digest : PayloadDigest) : result BlobStoreError str :=
  match strip_prefix BLAKE3_DIGEST_PREFIX (as_str digest) with
  | None => Err (BlobStoreError_other STORE_NAME (bs "unsupported payload digest `" ++ as_str digest ++ bs "`"))
  | Some hex =>
      if negb (is_blake3_hex hex)
      then Err (BlobStoreError_other STORE_NAME (bs "invalid blake3 payload digest `" ++ as_str digest ++ bs "`"))
      else Ok (BLAKE3_FILE_PREFIX ++ hex)
  end.

(** ** The directory *)

Inductive node := RegularFile (content : str) | OtherNode (len : Z).
Definition node_len (n : node) : Z := match n with RegularFile s => Z.of_nat (length s) | OtherNode len => len end.
Definition is_file (n : node) : bool := match n with RegularFile _ => true | OtherNode _ => false end.

(** The outcome of one call: it works, or it fails; a failing write may have
    written the first [n] bytes. *)
Inductive io := Works | Fails (n : nat).

Section store.
Context (blake3_hex : str → str) (pid : Z).

Record store := mkStore { entries : gmap str node; TEMP_COUNTER : Z }.

Definition temp_name (id : Z) : str :=
  bs ".tmp-" ++ show_uint pid ++ bs "-" ++ hex_padded 16 id.

(** [DirBlobWriterOpen]: the hasher is the data it was fed. *)
Record DirBlobWriterOpen := mkOpen { temp_path : str; hashed : str; size : Z }.

(** A writer: its state while it streams, between the existence check and the
    commit of [finish], or after it returned. *)
Inductive writer :=
| Streaming (state : option DirBlobWriterOpen)
| Committing (open : DirBlobWriterOpen) (hex : str) (exists_already : bool)
| Finished (r : result BlobStoreError PayloadRef)
| Failed (e : BlobStoreError).  (* a write failed; its caller drops it *)

Definition fs_error (message : string) : BlobStoreError := BlobStoreError_with_source STORE_NAME (bs message).

(** [File::create] truncates a file and fails on anything else. *)
Definition create_file (fs : gmap str node) (name : str) (o : io) : option (gmap str node) :=
  match o, fs !! name with
  | Fails _, _ | _, Some (OtherNode _) => None
  | Works, _ => Some (<[name := RegularFile []]> fs)
  end.

Definition open_writer (s : store) (state : option DirBlobWriterOpen) (o : io)
    : store * result BlobStoreError DirBlobWriterOpen :=
  match state with
  | Some open => (s, Ok open)
  | None =>
      let id := TEMP_COUNTER s in
      let temp := temp_name id in
      let counter := add_u64 id 1 in
      match create_file (entries s) temp o with
      | None => (mkStore (entries s) counter, Err (fs_error "failed to create temp blob"))
      | Some fs => (mkStore fs counter, Ok (mkOpen temp [] 0))
      end
  end.

Definition append_file (fs : gmap str node) (name chunk : str) : gmap str node :=
  match fs !! name with
  | Some (RegularFile content) => <[name := RegularFile (content ++ chunk)]> fs
  | _ => fs  (* an unlinked file *)
  end.

Definition write (s : store) (state : option DirBlobWriterOpen) (chunk : str) (o_open o_write : io)
    : store * result BlobStoreError DirBlobWriterOpen :=
  match open_writer s state o_open with
  | (s, Err e) => (s, Err e)
  | (s, Ok open) =>
      match o_write with
      | Fails n => (mkStore (append_file (entries s) (temp_path open) (take n chunk)) (TEMP_COUNTER s),
                    Err (fs_error "failed to write blob chunk"))
      | Works => (mkStore (append_file (entries s) (temp_path open) chunk) (TEMP_COUNTER s),
                  Ok (mkOpen (temp_path open) (hashed open ++ chunk)
                        (add_u64 (size open) (Z.of_nat (length chunk)))))
      end
  end.

Definition target_name (hex : str) : str := BLAKE3_FILE_PREFIX ++ hex.

(** [finish] up to the existence check. *)
Definition begin_finish (s : store) (state : option DirBlobWriterOpen) (o_open o_flush o_exists : io)
    : store * writer :=
  match open_writer s state o_open with
  | (s, Err e) => (s, Finished (Err e))
  | (s, Ok open) =>
      match o_flush with
      | Fails _ => (s, Finished (Err (fs_error "failed to flush blob")))
      | Works =>
          let hex := blake3_hex (hashed open) in
          let exists_already :=
            match o_exists with Works => bool_decide (is_Some (entries s !! target_name hex)) | Fails _ => false end in
          (s, Committing open hex exists_already)
      end
  end.

(** [fs::rename] of a file: it replaces a file, and fails on a directory or
    when the source is gone. *)
Definition rename (fs : gmap str node) (from to : str) (o : io) : option (gmap str node) :=
  match o, fs !! from, fs !! to with
  | Fails _, _, _ | _, None, _ | _, _, Some (OtherNode _) => None
  | Works, Some n, _ => Some (<[to := n]> (delete from fs))
  end.

Definition payload_ref_of (hex : str) (size : Z) : result BlobStoreError PayloadRef :=
  digest ← map_err (λ _, fs_error "invalid digest") (text_new PayloadDigestK (BLAKE3_DIGEST_PREFIX ++ hex));
  Ok (with_size_bytes (PayloadRef_new digest) size).

(** The rest of [finish]. *)
Definition end_finish (s : store) (open : DirBlobWriterOpen) (hex : str) (exists_already : bool) (o : io)
    : store * writer :=
  if exists_already then
    let fs := match o with Works => delete (temp_path open) (entries s) | Fails _ => entries s end in
    (mkStore fs (TEMP_COUNTER s), Finished (payload_ref_of hex (size open)))
  else
    match rename (entries s) (temp_path open) (target_name hex) o with
    | None => (s, Finished (Err (fs_error "failed to commit blob")))
    | Some fs => (mkStore fs (TEMP_COUNTER s), Finished (payload_ref_of hex (size open)))
    end.

(** ** Queries *)

Record FinalizedBlob := mkFinalized { fb_digest : PayloadDigest; fb_path : str; fb_size_bytes : Z }.

Definition finalized_blob (s : store) (digest : PayloadDigest) (o : io) : result BlobStoreError (option FinalizedBlob) :=
  path ← finalized_path digest;
  match o, entries s !! path with
  | Fails _, _ => Err (fs_error "failed to stat blob")
  | Works, None => Ok None
  | Works, Some n => Ok (if negb (is_file n) then None else Some (mkFinalized digest path (node_len n)))
  end.

(** The loop over the directory's entries, in the order the system lists them;
    [to_str] of a name is [from_utf8]. *)
Fixpoint collect_blobs (listing : list (str * node)) (o_stat : str → io) : result BlobStoreError (list FinalizedBlob) :=
  match listing with
  | [] => Ok []
  | (name, n) :: listing =>
      match from_utf8 name ≫= strip_prefix BLAKE3_FILE_PREFIX with
      | None => collect_blobs listing o_stat
      | Some hex =>
          if negb (is_blake3_hex hex) then collect_blobs listing o_stat
          else
            digest ← map_err (λ _, fs_error "invalid digest") (text_new PayloadDigestK (BLAKE3_DIGEST_PREFIX ++ hex));
            _ ← match o_stat name with Works => Ok () | Fails _ => Err (fs_error "failed to stat blob") end;
            blobs ← collect_blobs listing o_stat;
            Ok (mkFinalized digest name (node_len n) :: blobs)
      end
  end.

Definition blob_le (a b : FinalizedBlob) : Prop := str_le (as_str (fb_digest a)) (as_str (fb_digest b)).
#[export] Instance blob_le_dec : RelDecision blob_le.
Proof. intros a b. unfold blob_le. apply _. Defined.

Definition finalized_blobs (listing : list (str * node)) (o_list : io) (o_stat : str → io)
    : result BlobStoreError (list FinalizedBlob) :=
  match o_list with
  | Fails _ => Err (fs_error "failed to list blob dir")
  | Works => blobs ← collect_blobs listing o_stat; Ok (merge_sort blob_le blobs)
  end.

Definition remove_finalized (s : store) (digest : PayloadDigest) (o : io) : store * result BlobStoreError unit :=
  match finalized_path digest with
  | Err e => (s, Err e)
  | Ok path =>
      match entries s !! path, o with
      | None, _ => (s, Ok ())
      | Some (RegularFile _), Works => (mkStore (delete path (entries s)) (TEMP_COUNTER s), Ok ())
      | _, _ => (s, Err (fs_error "failed to remove finalized blob"))
      end
  end.

(** ** Writers at work *)

Record state := mkState { dir : store; writers : list (writer * str) }.  (* each with the data given to it *)

Inductive label :=
| NewWriter
| Write (i : nat) (chunk : str) (o_open o_write : io)
| BeginFinish (i : nat) (o_open o_flush o_exists : io)
| EndFinish (i : nat) (o : io)
| Remove (digest : PayloadDigest) (o : io).

Definition step (l : label) (s : state) : option state :=
  match l with
  | NewWriter => Some (mkState (dir s) (writers s ++ [(Streaming None, [])]))
  | Write i chunk o_open o_write =>
      match writers s !! i with
      | Some (Streaming st, data) =>
          let '(d, r) := write (dir s) st chunk o_open o_write in
          let w := match r with Ok open => Streaming (Some open) | Err e => Failed e end in
          Some (mkState d (<[i := (w, data ++ chunk)]> (writers s)))
      | _ => None
      end
  | BeginFinish i o_open o_flush o_exists =>
      match writers s !! i with
      | Some (Streaming st, data) =>
          let '(d, w) := begin_finish (dir s) st o_open o_flush o_exists in
          Some (mkState d (<[i := (w, data)]> (writers s)))
      | _ => None
      end
  | EndFinish i o =>
      match writers s !! i with
      | Some (Committing open hex exists_already, data) =>
          let '(d, w) := end_finish (dir s) open hex exists_already o in
          Some (mkState d (<[i := (w, data)]> (writers s)))
      | _ => None
      end
  | Remove digest o => Some (mkState (remove_finalized (dir s) digest o).1 (writers s))
  end.

Definition store_step (s s' : state) : Prop := ∃ l, step l s = Some s'.

End store.

(** ** The invariant *)

Section invariant.
Context (blake3_hex : str → str) (pid c0 : Z).
Implicit Types (s : state) (w : writer) (data : str).

Definition opened w : nat := match w with Streaming None => 0 | _ => 1 end.
Definition active w : option DirBlobWriterOpen :=
  match w with Streaming (Some open) | Committing open _ _ => Some open | _ => None end.

Definition well_named (fs : gmap str node) : Prop :=
  ∀ hex n, fs !! target_name hex = Some n → ∃ content, n = RegularFile content ∧ blake3_hex content = hex.

Definition counted data : Z := (Z.of_nat (length data) mod (u64_max + 1))%Z.

(** What a writer knows of its data. *)
Definition writer_ok (fs : gmap str node) (counter : Z) (removed : bool) w data : Prop :=
  (∀ open, active w = Some open →
     hashed open = data ∧ size open = counted data ∧ fs !! temp_path open = Some (RegularFile data) ∧
     ∃ id, temp_path open = temp_name pid id ∧ (c0 ≤ id < counter)%Z) ∧
  match w with
  | Streaming None => data = []
  | Streaming (Some _) => True
  | Committing _ hex exists_already =>
      hex = blake3_hex data ∧ (removed = false → exists_already = true → is_Some (fs !! target_name hex))
  | Finished (Ok r) =>
      r = with_size_bytes (PayloadRef_new (mkText (BLAKE3_DIGEST_PREFIX ++ blake3_hex data))) (counted data) ∧
      (removed = false → is_Some (fs !! target_name (blake3_hex data)))
  | Finished (Err _) | Failed _ => True
  end.

Record inv (removed : bool) s : Prop := {
  iv_named : well_named (entries (dir s));
  iv_counter : TEMP_COUNTER (dir s) = (c0 + Z.of_nat (sum_list ((λ x, opened x.1) <$> writers s)))%Z;
  iv_writers : ∀ i w data, writers s !! i = Some (w, data) →
    writer_ok (entries (dir s)) (TEMP_COUNTER (dir s)) removed w data;
  iv_distinct : ∀ i j w w' data data' open open', writers s !! i = Some (w, data) → writers s !! j = Some (w', data') →
    active w = Some open → active w' = Some open' → temp_path open = temp_path open' → i = j;
}.

Lemma temp_target id hex : temp_name pid id ≠ target_name hex.
Proof. unfold temp_name, target_name, BLAKE3_FILE_PREFIX, bs. cbn. discriminate. Qed.

Lemma temp_name_inj a b : is_u64 a → is_u64 b → temp_name pid a = temp_name pid b → a = b.
Proof.
  unfold is_u64, temp_name. intros Ha Hb E. apply (inj (app _)) in E. apply (inj (app _)) in E. apply (inj (app _)) in E.
  apply (hex_padded_inj 16); [..|done]; change (16 ^ Z.of_nat 16)%Z with (u64_max + 1)%Z; lia.
Qed.

Lemma target_name_inj a b : target_name a = target_name b → a = b.
Proof. apply (inj (app _)). Qed.

Lemma finalized_path_target d path : finalized_path d = Ok path → ∃ hex, path = target_name hex ∧ as_str d = BLAKE3_DIGEST_PREFIX ++ hex.
Proof.
  unfold finalized_path. destruct (strip_prefix _ _) as [hex|] eqn:E; [|done]. case_match; [done|].
  intros [= <-]. exists hex. apply strip_prefix_Some in E. done.
Qed.

Lemma counted_app a b : counted (a ++ b) = add_u64 (counted a) (Z.of_nat (length b)).
Proof. unfold counted, add_u64. rewrite length_app, Nat2Z.inj_add, Zplus_mod_idemp_l. done. Qed.

Lemma payload_ref_Ok hex n :
  payload_ref_of hex n = Ok (with_size_bytes (PayloadRef_new (mkText (BLAKE3_DIGEST_PREFIX ++ hex))) n).
Proof.
  unfold payload_ref_of, text_new. rewrite is_blank_visible; [done|done|].
  reflexivity.
Qed.

(** Changing the directory at names no writer owns. *)
Lemma writer_ok_frame fs fs' counter counter' removed removed' w data :
  writer_ok fs counter removed w data → (counter ≤ counter')%Z → (removed' = false → removed = false) →
  (∀ open, active w = Some open → fs' !! temp_path open = fs !! temp_path open) →
  (removed' = false → ∀ hex, is_Some (fs !! target_name hex) → is_Some (fs' !! target_name hex)) →
  writer_ok fs' counter' removed' w data.
Proof.
  intros [Ha Hw] Hc Hr Hfs Ht. split.
  - intros open Ho. destruct (Ha open Ho) as (H1 & H2 & H3 & id & H4 & H5). rewrite Hfs by done.
    split_and!; [done..|]. exists id. split; [done|lia].
  - destruct w as [[]|? ? ?|[]|]; try done; destruct Hw; naive_solver.
Qed.

Lemma create_file_Some fs name o fs' : create_file fs name o = Some fs' → fs' = <[name := RegularFile []]> fs.
Proof. unfold create_file. intros. repeat case_match; by simplify_eq. Qed.

(** A writer that has failed. *)
Definition inert w : Prop := match w with Failed _ | Finished (Err _) => True | _ => False end.

Lemma inert_ok fs counter removed w data : inert w → writer_ok fs counter removed w data.
Proof. destruct w as [[]|? ? ?|[]|]; try done. Qed.

Section step_lemmas.
Context (removed : bool) (s : state) (Hinv : inv removed s) (Hc0 : (0 ≤ c0)%Z).
Context (Hbound : (c0 + Z.of_nat (length (writers s)) ≤ u64_max)%Z).

(** Names owned by another writer. *)
Definition other_temp (i : nat) (name : str) : Prop :=
  ∃ j w data open, j ≠ i ∧ writers s !! j = Some (w, data) ∧ active w = Some open ∧ name = temp_path open.

Lemma inv_update i w data w' data' d' :
  writers s !! i = Some (w, data) → well_named (entries d') →
  TEMP_COUNTER d' = (TEMP_COUNTER (dir s) + Z.of_nat (opened w') - Z.of_nat (opened w))%Z →
  opened w ≤ opened w' →
  (∀ name, other_temp i name → entries d' !! name = entries (dir s) !! name) →
  (∀ hex, is_Some (entries (dir s) !! target_name hex) → is_Some (entries d' !! target_name hex)) →
  writer_ok (entries d') (TEMP_COUNTER d') removed w' data' →
  (∀ open, active w' = Some open → ¬ other_temp i (temp_path open)) →
  inv removed (mkState d' (<[i := (w', data')]> (writers s))).
Proof.
  intros Hi Hn Hcnt Hop Hframe Htarget Hok Hfresh. destruct Hinv as [_ Hc Hw Hd].
  assert (i < length (writers s)) as Hlen by (by eapply lookup_lt_Some).
  split; cbn [dir writers]; [done|..].
  - pose proof (sum_list_insert (λ x : writer * str, opened x.1) _ i _ (w', data') Hi) as Hs. cbn [fst] in Hs. lia.
  - intros j w2 data2. destruct (decide (j = i)) as [->|Hne].
    + rewrite list_lookup_insert_eq by done. by intros [= <- <-].
    + rewrite list_lookup_insert_ne by done. intros Hj.
      eapply writer_ok_frame; [by eapply Hw|lia|done| |by intros _]. intros open Ho. apply Hframe. by exists j, w2, data2, open.
  - intros j k w2 w3 data2 data3 o2 o3. destruct (decide (j = i)) as [->|Hji], (decide (k = i)) as [->|Hki]; [done|..].
    + rewrite list_lookup_insert_eq, list_lookup_insert_ne by done. intros [= <- <-] Hk Ha Hb E.
      destruct (Hfresh _ Ha). exists k, w3, data3, o3. done.
    + rewrite list_lookup_insert_eq, list_lookup_insert_ne by done. intros Hj [= <- <-] Ha Hb E.
      destruct (Hfresh _ Hb). exists j, w2, data2, o2. done.
    + rewrite !list_lookup_insert_ne by done. apply Hd.
Qed.

Lemma other_temp_own i w data open name :
  writers s !! i = Some (w, data) → active w = Some open → other_temp i name → name ≠ temp_path open.
Proof.
  intros Hi Ha (j & w' & data' & open' & Hne & Hj & Hb & ->) E. apply Hne. symmetry in E.
  symmetry. eapply (iv_distinct _ _ Hinv); [exact Hi|exact Hj|done..].
Qed.

Lemma other_temp_name i name : other_temp i name → ∃ id, name = temp_name pid id ∧ (c0 ≤ id < TEMP_COUNTER (dir s))%Z.
Proof.
  intros (j & w & data & open & _ & Hj & Ha & ->). apply (iv_writers _ _ Hinv) in Hj as [H _].
  by destruct (H _ Ha) as (_ & _ & _ & H').
Qed.

Lemma counter_bound i data : writers s !! i = Some (Streaming None, data) →
  (c0 ≤ TEMP_COUNTER (dir s) < c0 + Z.of_nat (length (writers s)))%Z.
Proof.
  intros Hi. rewrite (iv_counter _ _ Hinv). split; [lia|].
  pose proof (sum_list_insert (λ x : writer * str, opened x.1) _ i _ (Failed (fs_error ""), data) Hi) as Hs.
  cbn in Hs. assert (∀ l : list (writer * str), sum_list ((λ x, opened x.1) <$> l) ≤ length l) as Hle.
  { induction l as [|[[[]|? ? ?|?|?] ?] l IH]; cbn in *; lia. }
  pose proof (Hle (<[i:=(Failed (fs_error ""), data)]> (writers s))) as H2. rewrite length_insert in H2.
  cbn in *. lia.
Qed.

Lemma open_inv i st data o d r :
  writers s !! i = Some (Streaming st, data) → open_writer pid (dir s) st o = (d, r) →
  match r with
  | Ok open => inv removed (mkState d (<[i := (Streaming (Some open), data)]> (writers s)))
  | Err _ => ∀ w' data', inert w' → inv removed (mkState d (<[i := (w', data')]> (writers s)))
  end.
Proof.
  intros Hi. unfold open_writer. destruct st as [open|].
  { intros [= <- <-]. rewrite list_insert_id by done. by destruct s. }
  pose proof (counter_bound _ _ Hi) as Hcb. pose proof (iv_writers _ _ Hinv _ _ _ Hi) as [_ Hdata]. cbn in Hdata. subst data.
  assert (add_u64 (TEMP_COUNTER (dir s)) 1 = TEMP_COUNTER (dir s) + 1)%Z as Hadd.
  { unfold add_u64. apply Z.mod_small. lia. }
  assert (∀ name, other_temp i name → name ≠ temp_name pid (TEMP_COUNTER (dir s))) as Hfresh.
  { intros name (id & -> & Hid)%other_temp_name E. apply temp_name_inj in E; unfold is_u64; lia. }
  destruct (create_file _ _ _) as [fs|] eqn:Ec; intros [= <- <-]; [|intros w' data' Hw']; eapply inv_update; try exact Hi; cbn; try rewrite Hadd; try done; try lia.
  - apply create_file_Some in Ec as ->.
    intros hex n. rewrite lookup_insert_ne by apply temp_target. apply (iv_named _ _ Hinv).
  - apply create_file_Some in Ec as ->. intros name Hother. rewrite lookup_insert_ne; [done|]. by apply not_eq_sym, Hfresh.
  - apply create_file_Some in Ec as ->. intros hex. by rewrite lookup_insert_ne by apply temp_target.
  - apply create_file_Some in Ec as ->. split; [|done]. cbn. intros open [= <-]. cbn. rewrite lookup_insert_eq.
    split_and!; [done..|]. eexists. split; [done|lia].
  - intros open [= <-] Hother. cbn in Hother. by apply (Hfresh _ Hother).
  - apply (iv_named _ _ Hinv).
  - destruct w' as [[]|? ? ?|[]|]; try done; cbn; lia.
  - by apply inert_ok.
  - intros open Ho. by destruct w' as [[]|? ? ?|[]|].
Qed.

Lemma append_file_spec fs name content chunk :
  fs !! name = Some (RegularFile content) → append_file fs name chunk = <[name := RegularFile (content ++ chunk)]> fs.
Proof. intros H. unfold append_file. by rewrite H. Qed.

(** An open writer's file changes, and the writer with it. *)
Lemma own_file_inv i open data w' data' content d' :
  writers s !! i = Some (Streaming (Some open), data) →
  d' = mkStore (<[temp_path open := RegularFile content]> (entries (dir s))) (TEMP_COUNTER (dir s)) →
  opened w' = 1 → (active w' = None ∨ ∃ open', active w' = Some open' ∧ temp_path open' = temp_path open) →
  writer_ok (entries d') (TEMP_COUNTER d') removed w' data' →
  inv removed (mkState d' (<[i := (w', data')]> (writers s))).
Proof.
  intros Hi -> Hop Ha Hok. pose proof (iv_writers _ _ Hinv _ _ _ Hi) as [Hw _].
  destruct (Hw open eq_refl) as (_ & _ & _ & id & Hid & _).
  eapply inv_update; [exact Hi|..]; cbn.
  - intros hex n. rewrite lookup_insert_ne by (rewrite Hid; apply temp_target). apply (iv_named _ _ Hinv).
  - lia.
  - lia.
  - intros name Hn. rewrite lookup_insert_ne; [done|]. by apply not_eq_sym, (other_temp_own i _ _ _ _ Hi).
  - intros hex. by rewrite lookup_insert_ne by (rewrite Hid; apply temp_target).
  - done.
  - intros o Ho Hn. destruct Ha as [Ha|(o' & Ha & E)]; [congruence|]. rewrite Ha in Ho. injection Ho as ->.
    by apply (other_temp_own i _ _ open _ Hi) in Hn.
Qed.
End step_lemmas.

Lemma write_inv removed s i st data chunk o1 o2 s' :
  inv removed s → (0 ≤ c0)%Z → (c0 + Z.of_nat (length (writers s)) ≤ u64_max)%Z →
  writers s !! i = Some (Streaming st, data) → step blake3_hex pid (Write i chunk o1 o2) s = Some s' → inv removed s'.
Proof.
  intros Hinv Hc0 Hb Hi. cbn. rewrite Hi. unfold write. destruct (open_writer pid (dir s) st o1) as [d r] eqn:E.
  pose proof (open_inv removed s Hinv Hc0 Hb _ _ _ _ _ _ Hi E) as Hinv1. assert (i < length (writers s)) by (by eapply lookup_lt_Some).
  destruct r as [open|e].
  - set (s1 := mkState d (<[i := (Streaming (Some open), data)]> (writers s))) in *.
    assert (writers s1 !! i = Some (Streaming (Some open), data)) as Hi1 by (cbn; by rewrite list_lookup_insert_eq).
    pose proof (iv_writers _ _ Hinv1 _ _ _ Hi1) as [Hw _]. destruct (Hw open eq_refl) as (Hh & Hsz & Hf & Hid).
    assert (∀ x y, <[i := x]> (writers s) = <[i := x]> (<[i := y]> (writers s))) as Hii by (intros; by rewrite list_insert_insert_eq).
    destruct o2 as [|n]; intros [= <-]; rewrite (Hii _ (Streaming (Some open), data));
      eapply (own_file_inv _ s1 Hinv1 i open data); try exact Hi1; cbn; try done; cbn in Hf.
    + f_equal. by apply append_file_spec.
    + right. by eexists.
    + rewrite (append_file_spec _ _ _ _ Hf). split; [|done]. cbn. intros open' [= <-]. cbn. rewrite lookup_insert_eq, Hh, Hsz, counted_app.
      split_and!; done.
    + f_equal. by apply append_file_spec.
    + by left.
  - intros [= <-]. by apply Hinv1.
Qed.

(** A writer's move that leaves the directory alone. *)
Lemma writer_only_inv removed s i w data w' :
  inv removed s → writers s !! i = Some (w, data) → opened w' = opened w →
  (∀ open, active w' = Some open → active w = Some open) →
  writer_ok (entries (dir s)) (TEMP_COUNTER (dir s)) removed w' data →
  inv removed (mkState (dir s) (<[i := (w', data)]> (writers s))).
Proof.
  intros Hinv Hi Hop Ha Hok. eapply inv_update; try exact Hi; try done; [apply (iv_named _ _ Hinv)|lia|lia|].
  intros open Ho Hother. by apply (other_temp_own _ _ Hinv i _ _ _ _ Hi (Ha _ Ho)) in Hother.
Qed.

Lemma begin_finish_inv removed s i st data o1 o2 o3 s' :
  inv removed s → (0 ≤ c0)%Z → (c0 + Z.of_nat (length (writers s)) ≤ u64_max)%Z →
  writers s !! i = Some (Streaming st, data) → step blake3_hex pid (BeginFinish i o1 o2 o3) s = Some s' → inv removed s'.
Proof.
  intros Hinv Hc0 Hb Hi. cbn. rewrite Hi. unfold begin_finish. destruct (open_writer pid (dir s) st o1) as [d r] eqn:E.
  pose proof (open_inv removed s Hinv Hc0 Hb _ _ _ _ _ _ Hi E) as Hinv1. assert (i < length (writers s)) by (by eapply lookup_lt_Some).
  destruct r as [open|e]; [|intros [= <-]; by apply Hinv1].
  set (s1 := mkState d (<[i := (Streaming (Some open), data)]> (writers s))) in *.
  assert (writers s1 !! i = Some (Streaming (Some open), data)) as Hi1 by (cbn; by rewrite list_lookup_insert_eq).
  pose proof (iv_writers _ _ Hinv1 _ _ _ Hi1) as [Hw _]. destruct (Hw open eq_refl) as (Hh & Hrest).
  assert (∀ w', (∀ o, active w' = Some o → o = open) → opened w' = 1 →
    writer_ok (entries d) (TEMP_COUNTER d) removed w' data → inv removed (mkState d (<[i := (w', data)]> (writers s)))) as Hmove.
  { intros w' Ho Hop Hok. pose proof (writer_only_inv removed s1 i _ data w' Hinv1 Hi1) as Hmv. cbn in Hmv.
    rewrite list_insert_insert_eq in Hmv. apply Hmv; [done|intros o Ho'; by rewrite (Ho _ Ho')|done]. }
  destruct o2; intros [= <-]; [|by apply Hmove]. apply Hmove; [by intros o [= <-]|done|]. split.
  - intros o [= <-]. by apply Hw.
  - rewrite Hh. split; [done|]. intros _. destruct o3; [|done]. by rewrite bool_decide_eq_true.
Qed.

Lemma end_finish_inv removed s i open hex ex data o s' :
  inv removed s → writers s !! i = Some (Committing open hex ex, data) →
  step blake3_hex pid (EndFinish i o) s = Some s' → inv removed s'.
Proof.
  intros Hinv Hi. cbn. rewrite Hi. unfold end_finish. pose proof (iv_writers _ _ Hinv _ _ _ Hi) as [Hw [-> Hex]].
  destruct (Hw open eq_refl) as (_ & Hsz & Hf & id & Hid & _). rewrite payload_ref_Ok, Hsz.
  assert (∀ name, other_temp s i name → name ≠ temp_path open) as Hown by (intros name; by apply (other_temp_own _ _ Hinv i _ _ _ _ Hi)).
  destruct ex.
  - intros [= <-]. assert (∀ hex, (match o with Works => delete (temp_path open) (entries (dir s)) | Fails _ => entries (dir s) end)
      !! target_name hex = entries (dir s) !! target_name hex) as Ht.
    { intros hex. destruct o; [|done]. rewrite lookup_delete_ne; [done|]. rewrite Hid. apply temp_target. }
    eapply inv_update; try exact Hi; try done; cbn; try lia.
    + intros hex n. rewrite Ht. apply (iv_named _ _ Hinv).
    + intros name Hn. destruct o; [|done]. rewrite lookup_delete_ne; [done|]. by apply not_eq_sym, Hown.
    + intros hex. by rewrite Ht.
    + split; [done|]. split; [done|]. intros Hr. rewrite Ht. by apply Hex.
  - unfold rename. rewrite Hf. destruct o as [|n].
    + destruct (entries (dir s) !! target_name (blake3_hex data)) as [[c|z]|] eqn:Et.
      1,3: intros [= <-]; eapply inv_update; try exact Hi; try done; cbn; try lia;
        [ intros hex n; destruct (decide (hex = blake3_hex data)) as [->|Hne];
          [rewrite lookup_insert_eq; intros [= <-]; eauto
          |rewrite lookup_insert_ne by (by intros ?%target_name_inj);
           rewrite lookup_delete_ne by (rewrite Hid; apply temp_target); apply (iv_named _ _ Hinv)]
        | intros name Hn; rewrite lookup_insert_ne, lookup_delete_ne; [done|by apply not_eq_sym, Hown|];
          destruct (other_temp_name _ _ Hinv _ _ Hn) as (id' & -> & _); by apply not_eq_sym, temp_target
        | intros hex Hs; destruct (decide (hex = blake3_hex data)) as [->|Hne];
          [by rewrite lookup_insert_eq
          |rewrite lookup_insert_ne by (by intros ?%target_name_inj);
           by rewrite lookup_delete_ne by (rewrite Hid; apply temp_target)]
        | split; [done|]; split; [done|]; intros _; by rewrite lookup_insert_eq ].
      destruct (iv_named _ _ Hinv _ _ Et) as (c & [=] & _).
    + intros [= <-]. apply (writer_only_inv removed s i _ data _ Hinv Hi); try done.
Qed.
End invariant.

Section runs.
Context (blake3_hex : str → str) (pid c0 : Z).
Implicit Types (s : state).

Definition is_remove (l : label) : bool := match l with Remove _ _ => true | _ => false end.

Lemma remove_entries (d : store) digest o :
  let d' := (remove_finalized d digest o).1 in
  d' = d ∨ ∃ hex, d' = mkStore (delete (target_name hex) (entries d)) (TEMP_COUNTER d).
Proof.
  unfold remove_finalized. destruct (finalized_path digest) as [path|e] eqn:E; [|by left].
  apply finalized_path_target in E as (hex & -> & _). destruct (entries d !! _) as [[c|z]|], o; eauto.
Qed.

Lemma step_inv removed s l s' :
  inv blake3_hex pid c0 removed s → (0 ≤ c0)%Z → (c0 + Z.of_nat (length (writers s)) ≤ u64_max)%Z →
  step blake3_hex pid l s = Some s' → inv blake3_hex pid c0 (removed || is_remove l) s'.
Proof.
  intros Hinv Hc0 Hb Hstep. destruct l as [|i chunk o1 o2|i o1 o2 o3|i o|digest o]; cbn [is_remove];
    rewrite ?orb_false_r, ?orb_true_r.
  - injection Hstep as <-. destruct Hinv as [H1 H2 H3 H4].
    assert (∀ j w data, (writers s ++ [(Streaming None, [])]) !! j = Some (w, data) →
      writers s !! j = Some (w, data) ∨ w = Streaming None ∧ data = []) as Hl.
    { intros j w data. rewrite lookup_app. destruct (writers s !! j); [by left|]. intros Hj. right.
      destruct (j - _); [by simplify_eq/=|done]. }
    split; cbn [dir writers].
    + done.
    + rewrite H2, fmap_app, sum_list_app, fmap_cons, fmap_nil. cbn [opened fst sum_list_with]. f_equal. rewrite !Nat.add_0_r. done.
    + intros j w data [Hj|[-> ->]]%Hl; [by eapply H3|]. split; done.
    + intros j k w w' data data' op op' [Hj|[-> ->]]%Hl [Hk|[-> ->]]%Hl ??; try done. by eapply H4.
  - pose proof Hstep as Hs. cbn in Hs. destruct (writers s !! i) as [[[st|? ? ?|?|?] data]|] eqn:Hi; try done.
    by eapply write_inv.
  - pose proof Hstep as Hs. cbn in Hs. destruct (writers s !! i) as [[[st|? ? ?|?|?] data]|] eqn:Hi; try done.
    by eapply begin_finish_inv.
  - pose proof Hstep as Hs. cbn in Hs. destruct (writers s !! i) as [[[st|? ? ?|?|?] data]|] eqn:Hi; try done.
    by eapply end_finish_inv.
  - injection Hstep as <-. destruct Hinv as [H1 H2 H3 H4].
    assert (∀ d, (d = dir s ∨ ∃ hex, d = mkStore (delete (target_name hex) (entries (dir s))) (TEMP_COUNTER (dir s))) →
      inv blake3_hex pid c0 true (mkState d (writers s))) as Hrm; [|apply Hrm, remove_entries].
    intros d Hd. assert (TEMP_COUNTER d = TEMP_COUNTER (dir s)) as Ec by (destruct Hd as [->|[hex ->]]; done).
    split; cbn [dir writers].
    + intros hex n Hn. apply H1. destruct Hd as [->|[hex' ->]]; [done|]. cbn in Hn. by apply lookup_delete_Some in Hn as [_ Hn].
    + by rewrite Ec.
    + intros j w data Hj. rewrite Ec. eapply writer_ok_frame; [by eapply H3|lia|done| |done].
      intros op Hop. destruct Hd as [->|[hex' ->]]; [done|]. cbn. rewrite lookup_delete_ne; [done|].
      destruct (H3 _ _ _ Hj) as [Hok _]. destruct (Hok _ Hop) as (_ & _ & _ & id & -> & _). apply not_eq_sym, temp_target.
    + exact H4.
Qed.

(** A run: labels that cannot move are skipped. *)
Fixpoint exec s (ls : list label) : state :=
  match ls with
  | [] => s
  | l :: ls => exec (default s (step blake3_hex pid l s)) ls
  end.

Lemma step_writers s l s' : step blake3_hex pid l s = Some s' → length (writers s) ≤ length (writers s').
Proof.
  destruct l; cbn; intros Hs; repeat case_match; simplify_eq/=; rewrite ?length_insert, ?length_app; cbn; lia.
Qed.

Lemma exec_writers s ls : length (writers s) ≤ length (writers (exec s ls)).
Proof.
  revert s. induction ls as [|l ls IH]; intros s; cbn [exec]; [done|].
  destruct (step blake3_hex pid l s) as [s'|] eqn:E; cbn [default]; [|apply IH].
  apply step_writers in E. etransitivity; [exact E|apply (IH s')].
Qed.

Lemma exec_inv removed s ls :
  inv blake3_hex pid c0 removed s → (0 ≤ c0)%Z → (c0 + Z.of_nat (length (writers (exec s ls))) ≤ u64_max)%Z →
  inv blake3_hex pid c0 (removed || existsb is_remove ls) (exec s ls).
Proof.
  revert removed s. induction ls as [|l ls IH]; intros removed s Hinv Hc0 Hb; cbn [exec existsb] in *.
  { by rewrite orb_false_r. }
  pose proof (exec_writers (default s (step blake3_hex pid l s)) ls) as Hlen.
  assert (inv blake3_hex pid c0 (removed || is_remove l) (default s (step blake3_hex pid l s))) as Hinv'.
  { destruct (step blake3_hex pid l s) as [s'|] eqn:E; cbn [from_option id] in *.
    - eapply step_inv; [done..| |exact E]. apply step_writers in E. lia.
    - destruct Hinv as [H1 H2 H3 H4]. split; [done..| |done]. intros j w data Hj.
      eapply writer_ok_frame; [by eapply H3|lia|by destruct removed|done|by intros _]. }
  rewrite orb_assoc. by apply IH.
Qed.
End runs.

(** ** Properties *)

(** The store stays content-addressed.  Whatever writers interleave,
    calls fail and blobs are removed: every finalized file's name is the digest
    of its content, so that no partial or foreign data is ever published; a
    writer that finished returns the digest and the size of exactly the bytes
    it was given; and if nothing is removed the blob is in the store. *)
Theorem blob_store_content_addressed (blake3_hex : str → str) (pid : Z) (fs : gmap str node) (c0 : Z)
    (ls : list label) :
  well_named blake3_hex fs → (0 ≤ c0)%Z →
  let s := exec blake3_hex pid (mkState (mkStore fs c0) []) ls in
  (c0 + Z.of_nat (length (writers s)) ≤ u64_max)%Z →
  well_named blake3_hex (entries (dir s)) ∧
  ∀ i data r, writers s !! i = Some (Finished (Ok r), data) →
    as_str (digest r) = BLAKE3_DIGEST_PREFIX ++ blake3_hex data ∧
    size_bytes r = Some (Z.of_nat (length data) mod (u64_max + 1))%Z ∧
    (existsb is_remove ls = false →
     ∃ content, entries (dir s) !! target_name (blake3_hex data) = Some (RegularFile content) ∧
       blake3_hex content = blake3_hex data).
Proof.
  intros Hn Hc0 s Hb.
  assert (inv blake3_hex pid c0 false (mkState (mkStore fs c0) [])) as H0 by (split; cbn; [done|lia|done|done]).
  pose proof (exec_inv blake3_hex pid c0 false _ ls H0 Hc0 Hb) as [H1 _ H3 _]. fold s in H1, H3.
  split; [done|]. intros i data r Hi. destruct (H3 _ _ _ Hi) as [_ [-> Hp]]. split; [done|]. split; [done|].
  intros Hr. destruct (Hp Hr) as [n Hn']. destruct (H1 _ _ Hn') as (content & -> & Hc). eauto.
Qed.

(** ** Queries *)

Lemma lower_hex_ascii b : lower_hex b = true → (bz b < 128)%Z.
Proof. unfold lower_hex, is_ascii_digit. rewrite orb_true_iff, !andb_true_iff, !Z.leb_le. lia. Qed.

Lemma utf8_valid_ascii s : Forall (λ b, bz b < 128)%Z s → utf8_valid s = true.
Proof.
  induction 1 as [|b s Hb Hs IH]; [done|]. cbn [utf8_valid]. unfold in_range at 1.
  rewrite !(proj2 (Z.leb_le _ _)) by (pose proof (bz_range b); lia). done.
Qed.

Lemma target_utf8 hex : is_blake3_hex hex = true → from_utf8 (target_name hex) = Some (target_name hex).
Proof.
  unfold is_blake3_hex. intros [_ H]%andb_true_iff. unfold from_utf8. rewrite utf8_valid_ascii; [done|].
  unfold target_name. apply Forall_app. split; [by repeat constructor|].
  rewrite forallb_forall in H. apply Forall_forall. intros b Hb. apply lower_hex_ascii, H. by apply list_elem_of_In.
Qed.

Definition digest_of (hex : str) : PayloadDigest := mkText (BLAKE3_DIGEST_PREFIX ++ hex).

Lemma digest_of_new hex : text_new PayloadDigestK (BLAKE3_DIGEST_PREFIX ++ hex) = Ok (digest_of hex).
Proof. unfold text_new. by rewrite is_blank_visible. Qed.

Lemma digest_of_inj a b : digest_of a = digest_of b → a = b.
Proof. intros [= E]. exact E. Qed.

Lemma finalized_path_digest hex : is_blake3_hex hex = true → finalized_path (digest_of hex) = Ok (target_name hex).
Proof.
  intros H. unfold finalized_path. cbn [as_str digest_of]. rewrite (proj2 (strip_prefix_Some _ _ hex)) by done.
  by rewrite H.
Qed.

Definition works (_ : str) : io := Works.

Lemma collect_blobs_spec listing :
  ∃ blobs, collect_blobs listing works = Ok blobs ∧
    blobs = omap (λ x, match from_utf8 x.1 ≫= strip_prefix BLAKE3_FILE_PREFIX with
                       | Some hex => if is_blake3_hex hex then Some (mkFinalized (digest_of hex) x.1 (node_len x.2)) else None
                       | None => None
                       end) listing.
Proof.
  induction listing as [|[name n] listing (blobs & IH & ->)]; [by eexists|]. cbn [collect_blobs].
  eexists. split; [|reflexivity]. cbn [omap list_omap fst snd].
  destruct (from_utf8 name ≫= strip_prefix BLAKE3_FILE_PREFIX) as [hex|]; [|done].
  destruct (is_blake3_hex hex); [|done]. rewrite digest_of_new. cbn. by rewrite IH.
Qed.

#[export] Instance blob_le_trans : Transitive blob_le.
Proof. intros a b c. apply str_le_trans. Qed.
#[export] Instance blob_le_total : Total blob_le.
Proof. intros a b. apply str_le_total. Qed.

(** The blob a name and a node denote. *)
Lemma listed_blob listing blobs b :
  collect_blobs listing works = Ok blobs →
  b ∈ blobs ↔ ∃ hex n, is_blake3_hex hex = true ∧ (target_name hex, n) ∈ listing ∧
    b = mkFinalized (digest_of hex) (target_name hex) (node_len n).
Proof.
  intros H. destruct (collect_blobs_spec listing) as (blobs' & H' & ->). rewrite H in H'. injection H' as ->.
  rewrite list_elem_of_omap. split.
  - intros ([name n] & Hin & Hb). cbn [fst snd] in Hb. destruct (from_utf8 name) as [s|] eqn:Eu; [|done]. cbn in Hb.
    destruct (strip_prefix BLAKE3_FILE_PREFIX s) as [hex|] eqn:Es; [|done]. destruct (is_blake3_hex hex) eqn:Eh; [|done].
    injection Hb as <-. assert (s = name) as -> by (unfold from_utf8 in Eu; case_match; by simplify_eq).
    apply strip_prefix_Some in Es as ->. by exists hex, n.
  - intros (hex & n & Hh & Hin & ->). exists (target_name hex, n). split; [done|]. cbn [fst snd].
    rewrite target_utf8 by done. cbn. rewrite (proj2 (strip_prefix_Some _ _ hex)) by done. by rewrite Hh.
Qed.

Lemma listed_digests fs listing blobs :
  listing ≡ₚ map_to_list fs → collect_blobs listing works = Ok blobs → NoDup (fb_digest <$> blobs).
Proof.
  intros Hl H. destruct (collect_blobs_spec listing) as (blobs' & H' & ->). rewrite H in H'. injection H' as ->.
  assert (NoDup listing.*1) as Hnd by (rewrite Hl; apply NoDup_fst_map_to_list).
  clear -Hnd. induction listing as [|[name n] listing IH]; [constructor|]. cbn [fmap list_fmap fst] in Hnd.
  apply NoDup_cons in Hnd as [Hni Hnd]. cbn [omap list_omap fst snd].
  destruct (from_utf8 name ≫= strip_prefix BLAKE3_FILE_PREFIX) as [hex|] eqn:E; [|by apply IH].
  destruct (is_blake3_hex hex) eqn:Eh; [|by apply IH]. cbn [fmap list_fmap fb_digest]. apply NoDup_cons. split; [|by apply IH].
  intros Hin. apply list_elem_of_fmap in Hin as (b & Hd & Hb). apply list_elem_of_omap in Hb as ([name' n'] & Hin & Hb).
  cbn [fst snd] in Hb. destruct (from_utf8 name' ≫= strip_prefix BLAKE3_FILE_PREFIX) as [hex'|] eqn:E'; [|done].
  destruct (is_blake3_hex hex'); [|done]. injection Hb as <-. apply digest_of_inj in Hd as <-.
  apply Hni. assert (∀ nm, from_utf8 nm ≫= strip_prefix BLAKE3_FILE_PREFIX = Some hex → nm = target_name hex) as Hu.
  { intros nm Hnm. unfold from_utf8 in Hnm. case_match; [|done]. cbn in Hnm. by apply strip_prefix_Some in Hnm. }
  rewrite (Hu _ E), <- (Hu _ E'). apply list_elem_of_fmap. by exists (name', n').
Qed.

(** The listing and the lookup of finalized blobs.  Where no call fails,
    the listing is exactly the entries named [blake3-] and 64 lowercase hex
    digits, temporary and foreign names left out, each with the digest its
    name says and its size, strictly ordered by digest, in whatever order the
    directory is read; looking up one of their digests gives the listed blob
    when it is a file and nothing when it is not; any other digest text is
    refused. *)
Theorem finalized_blobs_exact (s : store) (listing : list (str * node)) :
  listing ≡ₚ map_to_list (entries s) →
  ∃ blobs, finalized_blobs listing Works works = Ok blobs ∧ Sorted blob_le blobs ∧ NoDup (fb_digest <$> blobs) ∧
    (∀ b, b ∈ blobs ↔ ∃ hex n, is_blake3_hex hex = true ∧ entries s !! target_name hex = Some n ∧
       b = mkFinalized (digest_of hex) (target_name hex) (node_len n)) ∧
    (∀ b content, b ∈ blobs → entries s !! fb_path b = Some (RegularFile content) →
       finalized_blob s (fb_digest b) Works = Ok (Some b)) ∧
    (∀ b len, b ∈ blobs → entries s !! fb_path b = Some (OtherNode len) →
       finalized_blob s (fb_digest b) Works = Ok None) ∧
    (∀ d, (¬ ∃ hex, is_blake3_hex hex = true ∧ d = digest_of hex) → is_ok (finalized_blob s d Works) = false).
Proof.
  intros Hl. destruct (collect_blobs_spec listing) as (blobs & Hc & _). exists (merge_sort blob_le blobs).
  assert (∀ b, b ∈ blobs ↔ ∃ hex n, is_blake3_hex hex = true ∧ entries s !! target_name hex = Some n ∧
       b = mkFinalized (digest_of hex) (target_name hex) (node_len n)) as Hb.
  { intros b. rewrite (listed_blob _ _ _ Hc). do 2 (apply exist_proper; intros ?). by rewrite Hl, elem_of_map_to_list. }
  split_and!.
  - cbn. by rewrite Hc.
  - apply Sorted_merge_sort, _.
  - rewrite merge_sort_Permutation. by eapply listed_digests.
  - intros b. by rewrite merge_sort_Permutation.
  - intros b content. rewrite merge_sort_Permutation, Hb. intros (hex & n & Hh & Hn & ->). cbn [fb_path fb_digest]. rewrite Hn.
    intros [= ->]. unfold finalized_blob. rewrite finalized_path_digest by done. cbn. by rewrite Hn.
  - intros b len. rewrite merge_sort_Permutation, Hb. intros (hex & n & Hh & Hn & ->). cbn [fb_path fb_digest]. rewrite Hn.
    intros [= ->]. unfold finalized_blob. rewrite finalized_path_digest by done. cbn. by rewrite Hn.
  - intros d Hd. unfold finalized_blob. destruct (finalized_path d) as [path|e] eqn:E; [|done]. destruct Hd.
    unfold finalized_path in E. destruct (strip_prefix _ _) as [hex|] eqn:Es; [|done].
    destruct (is_blake3_hex hex) eqn:Eh; [|done]. exists hex. split; [done|]. apply strip_prefix_Some in Es.
    destruct d as [d]. cbn in Es. by rewrite Es.
Qed.

(** *** Witnesses *)

Section witnesses.
(** A toy digest: the length, padded to 64 digits. *)
Definition toy_hex (s : str) : str := hex_padded 64 (Z.of_nat (length s)).
(** Two writers with the same content and one whose file system fails, interleaved. *)
Definition two_writers : list label :=
  [NewWriter; NewWriter; NewWriter; Write 0 (bs "ab") Works Works; Write 1 (bs "a") Works Works; Write 2 (bs "x") Works (Fails 1);
   BeginFinish 0 Works Works Works; Write 1 (bs "b") Works Works; EndFinish 0 Works;
   BeginFinish 1 Works Works Works; EndFinish 1 Works].

Definition after_writers : state := exec toy_hex 7 (mkState (mkStore ∅ 0) []) two_writers.

Lemma blob_store_content_addressed_witness :
  ∃ r, writers after_writers !! 1 = Some (Finished (Ok r), bs "ab") ∧
    as_str (digest r) = BLAKE3_DIGEST_PREFIX ++ toy_hex (bs "ab").
Proof.
  destruct (blob_store_content_addressed toy_hex 7 ∅ 0 two_writers) as [_ H];
    [by intros hex n Hn|vm_compute; discriminate|vm_compute; discriminate|].
  eexists. split; [vm_compute; reflexivity|]. apply (H 1). vm_compute. reflexivity.
Defined.

Lemma finalized_blobs_exact_witness :
  ∃ blobs, finalized_blobs (map_to_list (entries (dir after_writers))) Works works = Ok blobs ∧
    NoDup (fb_digest <$> blobs).
Proof.
  destruct (finalized_blobs_exact (dir after_writers) (map_to_list (entries (dir after_writers)))) as (blobs & H & _ & Hn & _);
    [reflexivity|]. exists blobs. split; [exact H|exact Hn].
Defined.
End witnesses.
