(* ===== verification/BlobDrain.v ===== *)
(** * The blob drain (crates/hiloop-interceptor/src/blob_drain.rs)

    A [BlobDrainer] ships a store's finalized blobs to an uploader and keeps
    count of what the backend confirmed.  The store and the uploader are the
    class [DrainWorld]: a world every call threads, so that the blobs found,
    the bytes read and the uploader's answers are the environment's choice.
    [finish] consumes the drainer and every method borrows it exclusively, so
    its operations are sequential. *)
From Stdlib Require Import Strings.Byte.
From stdpp Require Import sorting.
From S2P Require Import Prelude Text Identity Event Spool Blob.

Definition STORE_NAME : str := bs "blob-drain".
Definition MAX_UPLOAD_BLOB_BYTES : Z := 64 * 1024 * 1024.

(** [trait BlobUploader] and the [DirBlobStore] with its directory. *)
Class DrainWorld (W : Type) := {
  store_finalized_blobs : W → W * result BlobStoreError (list FinalizedBlob);
  store_finalized_blob : W → PayloadDigest → W * result BlobStoreError (option FinalizedBlob);
  read_file : W → str → W * option str;
  find_missing : W → list PayloadDigest → W * result BlobStoreError (list PayloadDigest);
  upload : W → PayloadDigest → str → W * result BlobStoreError unit;
  drain_sleep : W → Z → W;
}.

(** [NoopUploader] and [UnavailableUploader] *)
Definition noop_find_missing (digests : list PayloadDigest) : result BlobStoreError (list PayloadDigest) := Ok [].
Definition noop_upload (digest : PayloadDigest) (bytes : str) : result BlobStoreError unit := Ok ().
Definition unavailable_find_missing (reason : str) (digests : list PayloadDigest)
    : result BlobStoreError (list PayloadDigest) := Err (BlobStoreError_other (bs "unavailable") reason).
Definition unavailable_upload (reason : str) (digest : PayloadDigest) (bytes : str) : result BlobStoreError unit :=
  Err (BlobStoreError_other (bs "unavailable") reason).

Record BlobDrainReport := mkDrainReport {
  found : nat; landed_count : nat; uploaded_count : nat; oversize_skipped : nat; missing : nat; missing_bytes : Z }.

Record BlobDrainOutcome := mkDrainOutcome { outcome_report : BlobDrainReport; error : option BlobStoreError }.

Definition outcome_is_complete (o : BlobDrainOutcome) : bool :=
  bool_decide (error o = None) && Nat.eqb (missing (outcome_report o)) 0.

Record BlobDrainer := mkDrainer { upload_cap : Z; landed : gset PayloadDigest; uploaded : nat }.
Definition BlobDrainer_new : BlobDrainer := mkDrainer MAX_UPLOAD_BLOB_BYTES ∅ 0.
Definition land (d : BlobDrainer) (digest : PayloadDigest) : BlobDrainer :=
  mkDrainer (upload_cap d) ({[digest]} ∪ landed d) (uploaded d).

Section drain.
Context {W : Type} {DW : DrainWorld W}.

Definition count_blob (d : BlobDrainer) (r : BlobDrainReport) (b : FinalizedBlob) : BlobDrainReport :=
  if bool_decide (fb_digest b ∈ landed d) then
    mkDrainReport (found r) (S (landed_count r)) (uploaded_count r) (oversize_skipped r) (missing r) (missing_bytes r)
  else if (upload_cap d <? fb_size_bytes b)%Z then
    mkDrainReport (found r) (landed_count r) (uploaded_count r) (S (oversize_skipped r)) (missing r) (missing_bytes r)
  else
    mkDrainReport (found r) (landed_count r) (uploaded_count r) (oversize_skipped r) (S (missing r))
      (add_u64 (missing_bytes r) (fb_size_bytes b)).

Definition drainer_report (d : BlobDrainer) (blobs : list FinalizedBlob) : BlobDrainReport :=
  fold_left (count_blob d) blobs (mkDrainReport (length blobs) 0 (uploaded d) 0 0 0).

(** The loop that uploads the missing candidates. *)
Fixpoint ship_missing (w : W) (d : BlobDrainer) (missing : gset PayloadDigest) (candidates : list FinalizedBlob)
    : W * BlobDrainer * result BlobStoreError unit :=
  match candidates with
  | [] => (w, d, Ok ())
  | b :: candidates =>
      if negb (bool_decide (fb_digest b ∈ missing)) then ship_missing w d missing candidates
      else
        match read_file w (fb_path b) with
        | (w, None) => (w, d, Err (BlobStoreError_with_source STORE_NAME (bs "failed to read blob")))
        | (w, Some bytes) =>
            match upload w (fb_digest b) bytes with
            | (w, Err e) => (w, d, Err e)
            | (w, Ok _) =>
                let d := land d (fb_digest b) in
                ship_missing w (mkDrainer (upload_cap d) (landed d) (S (uploaded d))) missing candidates
            end
        end
  end.

Definition candidates_of (d : BlobDrainer) (blobs : list FinalizedBlob) (reprobe_landed : bool) : list FinalizedBlob :=
  filter (λ b, reprobe_landed || negb (bool_decide (fb_digest b ∈ landed d)) = true)
    (filter (λ b, (fb_size_bytes b <=? upload_cap d)%Z = true) blobs).

Definition ship (w : W) (d : BlobDrainer) (blobs : list FinalizedBlob) (reprobe_landed : bool)
    : W * BlobDrainer * result BlobStoreError unit :=
  let candidates := candidates_of d blobs reprobe_landed in
  match candidates with
  | [] => (w, d, Ok ())
  | _ =>
      match find_missing w (fb_digest <$> candidates) with
      | (w, Err e) => (w, d, Err e)
      | (w, Ok answer) =>
          let missing : gset PayloadDigest := list_to_set answer in
          let d := fold_left (λ d b, if bool_decide (fb_digest b ∈ missing) then d else land d (fb_digest b)) candidates d in
          ship_missing w d missing candidates
      end
  end.

Definition drain_once (w : W) (d : BlobDrainer) (reprobe_landed : bool) : W * BlobDrainer * BlobDrainOutcome :=
  match store_finalized_blobs w with
  | (w, Err e) => (w, d, mkDrainOutcome (drainer_report d []) (Some e))
  | (w, Ok blobs) =>
      let '(w, d, r) := ship w d blobs reprobe_landed in
      (w, d, mkDrainOutcome (drainer_report d blobs) (match r with Ok _ => None | Err e => Some e end))
  end.

Definition pass (w : W) (d : BlobDrainer) : W * BlobDrainer * BlobDrainOutcome := drain_once w d false.

(** The retries after the first pass. *)
Fixpoint retry_passes (n : nat) (w : W) (d : BlobDrainer) (backoff : Z) (outcome : BlobDrainOutcome)
    (reprobe_landed : bool) : W * BlobDrainer * BlobDrainOutcome :=
  match n with
  | O => (w, d, outcome)
  | S n =>
      if outcome_is_complete outcome then (w, d, outcome)
      else
        let w := drain_sleep w backoff in
        let '(w, d, outcome) := drain_once w d reprobe_landed in
        retry_passes n w d (saturating_mul duration_max backoff 2) outcome reprobe_landed
  end.

Definition finish_with (w : W) (d : BlobDrainer) (policy : DrainRetryPolicy) (reprobe_landed : bool)
    : W * BlobDrainer * BlobDrainOutcome :=
  let '(w, d, outcome) := drain_once w d reprobe_landed in
  retry_passes (Z.to_nat (Z.max (attempts policy) 1 - 1)) w d (retry_initial_backoff policy) outcome reprobe_landed.

Definition finish (w : W) (d : BlobDrainer) (policy : DrainRetryPolicy) : W * BlobDrainer * BlobDrainOutcome :=
  finish_with w d policy true.

(** The lookups of [ensure]. *)
Fixpoint resolve_pending (w : W) (d : BlobDrainer) (pending : list PayloadDigest)
    : W * result BlobStoreError (list FinalizedBlob) :=
  match pending with
  | [] => (w, Ok [])
  | digest :: pending =>
      match store_finalized_blob w digest with
      | (w, Err e) => (w, Err e)
      | (w, Ok None) =>
          (w, Err (BlobStoreError_rejected STORE_NAME
                     (bs "referenced blob `" ++ as_str digest ++ bs "` is not finalized")))
      | (w, Ok (Some b)) =>
          if (upload_cap d <? fb_size_bytes b)%Z then
            (w, Err (BlobStoreError_rejected STORE_NAME
                       (bs "referenced blob `" ++ as_str digest ++ bs "` exceeds the " ++ show_uint (upload_cap d)
                        ++ bs " byte upload cap")))
          else
            let '(w, r) := resolve_pending w d pending in (w, (λ blobs, b :: blobs) <$> r)
      end
  end.

Definition digest_le (a b : PayloadDigest) : Prop := str_le (as_str a) (as_str b).
#[export] Instance digest_le_dec : RelDecision digest_le.
Proof. intros a b. unfold digest_le. apply _. Defined.

Definition ensure (w : W) (d : BlobDrainer) (digests : list PayloadDigest) : W * BlobDrainer * result BlobStoreError unit :=
  let pending := vec_dedup (merge_sort digest_le (filter (λ x, x ∉ landed d) digests)) in
  match resolve_pending w d pending with
  | (w, Err e) => (w, d, Err e)
  | (w, Ok blobs) => ship w d blobs false
  end.

End drain.

(** ** What the backend confirmed

    The uploader's answers are logged. *)

Inductive backend_event :=
| Probed (asked : list PayloadDigest) (r : result BlobStoreError (list PayloadDigest))
| Sent (digest : PayloadDigest) (bytes : str) (r : result BlobStoreError unit).

Section logged.
Context {W : Type} {DW : DrainWorld W}.

#[export] Instance logged_world : DrainWorld (W * list backend_event) := {
  store_finalized_blobs w := let '(x, r) := store_finalized_blobs w.1 in ((x, w.2), r);
  store_finalized_blob w d := let '(x, r) := store_finalized_blob w.1 d in ((x, w.2), r);
  read_file w p := let '(x, r) := read_file w.1 p in ((x, w.2), r);
  find_missing w ds := let '(x, r) := find_missing w.1 ds in ((x, w.2 ++ [Probed ds r]), r);
  upload w d bytes := let '(x, r) := upload w.1 d bytes in ((x, w.2 ++ [Sent d bytes r]), r);
  drain_sleep w t := (drain_sleep w.1 t, w.2);
}.

Abbreviation world := (W * list backend_event)%type.
Implicit Types (w : world) (d : BlobDrainer) (log : list backend_event).

(** The backend stored it, or was asked for it and did not miss it. *)
Definition confirms (x : PayloadDigest) (e : backend_event) : Prop :=
  match e with
  | Probed asked (Ok answer) => x ∈ asked ∧ x ∉ answer
  | Sent y _ (Ok _) => x = y
  | _ => False
  end.
Definition confirmed log x : Prop := Exists (confirms x) log.
Definition touches (x : PayloadDigest) (e : backend_event) : Prop :=
  match e with Probed asked _ => x ∈ asked | Sent y _ _ => x = y end.
Definition stored (e : backend_event) : bool := match e with Sent _ _ (Ok _) => true | _ => false end.
Definition uploads_ok log : nat := length (filter (λ e, stored e = true) log).

(** The events concern these digests only. *)
Definition within (digests : list PayloadDigest) log : Prop := Forall (λ e, ∀ x, touches x e → x ∈ digests) log.

Lemma within_mono l k log : l ⊆ k → within l log → within k log.
Proof. intros H Hl. eapply Forall_impl; [exact Hl|]. intros e He x Hx. by apply H, He. Qed.

Definition drain_inv w d : Prop := (∀ x, x ∈ landed d → confirmed w.2 x) ∧ uploaded d = uploads_ok w.2.

Lemma confirmed_app log k x : confirmed (log ++ k) x ↔ confirmed log x ∨ confirmed k x.
Proof. apply Exists_app. Qed.

Lemma uploads_app log k : uploads_ok (log ++ k) = uploads_ok log + uploads_ok k.
Proof. unfold uploads_ok. by rewrite filter_app, length_app. Qed.

(** What an operation that logged [new] has done: nothing is forgotten, and
    everything new is confirmed by [new]. *)
Record drained w d w' d' new : Prop := {
  dr_log : w'.2 = w.2 ++ new;
  dr_cap : upload_cap d' = upload_cap d;
  dr_keep : landed d ⊆ landed d';
  dr_new : ∀ x, x ∈ landed d' → x ∈ landed d ∨ confirmed new x;
  dr_uploaded : uploaded d' = uploaded d + uploads_ok new;
}.

Lemma drained_refl w w' d : w'.2 = w.2 → drained w d w' d [].
Proof. intros E. split; [by rewrite app_nil_r|done|done|by left|]. unfold uploads_ok. cbn. lia. Qed.

Lemma drained_trans w1 d1 w2 d2 w3 d3 a b :
  drained w1 d1 w2 d2 a → drained w2 d2 w3 d3 b → drained w1 d1 w3 d3 (a ++ b).
Proof.
  intros [L1 C1 K1 N1 U1] [L2 C2 K2 N2 U2]. split.
  - by rewrite L2, L1, app_assoc.
  - congruence.
  - by transitivity (landed d2).
  - intros x Hx. rewrite confirmed_app. destruct (N2 x Hx) as [H|H]; [|auto]. destruct (N1 x H); auto.
  - rewrite U2, U1, uploads_app. lia.
Qed.

Lemma drained_inv w d w' d' new : drained w d w' d' new → drain_inv w d → drain_inv w' d'.
Proof.
  intros [L C K N U] [H1 H2]. split.
  - intros x Hx. rewrite L, confirmed_app. destruct (N x Hx); [left; by apply H1|by right].
  - by rewrite U, L, uploads_app, H2.
Qed.

Lemma uploads_one e : uploads_ok [e] = if stored e then 1 else 0.
Proof. unfold uploads_ok. rewrite filter_cons. by destruct (stored e). Qed.

Lemma drained_failed w w' d e : w'.2 = w.2 ++ [e] → stored e = false → drained w d w' d [e].
Proof.
  intros Hl He. split; [done|done|done|by left|]. rewrite uploads_one, He. lia.
Qed.

Lemma ship_missing_drained w d missing cands w' d' r :
  ship_missing w d missing cands = (w', d', r) →
  ∃ new, drained w d w' d' new ∧ within (fb_digest <$> cands) new ∧
    (r = Ok () → ∀ b, b ∈ cands → fb_digest b ∈ missing → fb_digest b ∈ landed d' ∧ confirmed new (fb_digest b)).
Proof.
  revert w d. induction cands as [|b cands IH]; intros w d; cbn [ship_missing].
  { intros [= <- <- <-]. exists []. split; [by apply drained_refl|]. split; [constructor|].
    intros _ b Hb. by apply elem_of_nil in Hb. }
  rewrite fmap_cons. assert (fb_digest <$> cands ⊆ fb_digest b :: (fb_digest <$> cands)) as Hsub by set_solver.
  case_bool_decide as Hm; cbn [negb].
  2:{ intros H. destruct (IH _ _ H) as (new & H1 & H2 & H3). exists new. split; [done|].
      split; [by eapply within_mono|]. intros Hr b' [->|Hb']%elem_of_cons Hm'; [done|]. by apply H3. }
  cbn. destruct (read_file w.1 (fb_path b)) as [x1 [bytes|]].
  2:{ intros [= <- <- <-]. exists []. split; [by apply drained_refl|]. split; [constructor|done]. }
  cbn. destruct (upload x1 (fb_digest b) bytes) as [x2 [[]|e]].
  2:{ intros [= <- <- <-]. exists [Sent (fb_digest b) bytes (Err e)]. split; [|split; [|done]].
      - by apply drained_failed.
      - constructor; [intros x ->; set_solver|constructor]. }
  intros H. destruct (IH _ _ H) as (new & H1 & H2 & H3).
  exists ([Sent (fb_digest b) bytes (Ok ())] ++ new). split_and!.
  - eapply drained_trans; [|exact H1]. split; cbn [snd upload_cap landed land uploaded]; try done; [set_solver|..].
    + intros x. rewrite elem_of_union, elem_of_singleton. intros [->|Hx]; [right; by repeat constructor|by left].
    + rewrite uploads_one. cbn [stored]. lia.
  - constructor; [intros x ->; set_solver|by eapply within_mono].
  - intros Hr b' [->|Hb']%elem_of_cons Hm'.
    + split; [apply (dr_keep _ _ _ _ _ H1); cbn; set_solver|]. rewrite confirmed_app. left. by repeat constructor.
    + destruct (H3 Hr b' Hb' Hm') as [Hl Hc]. split; [done|]. rewrite confirmed_app. by right.
Qed.

Lemma landed_fold (missing : gset PayloadDigest) cands d :
  let d' := fold_left (λ d b, if bool_decide (fb_digest b ∈ missing) then d else land d (fb_digest b)) cands d in
  upload_cap d' = upload_cap d ∧ uploaded d' = uploaded d ∧
  ∀ x, x ∈ landed d' ↔ x ∈ landed d ∨ ∃ b, b ∈ cands ∧ fb_digest b = x ∧ x ∉ missing.
Proof.
  revert d. induction cands as [|b cands IH]; intros d; cbn [fold_left].
  { split_and!; [done..|]. intros x. split; [by left|]. intros [|(b & Hb & _)]; [done|]. by apply elem_of_nil in Hb. }
  case_bool_decide as Hm; [destruct (IH d) as (-> & -> & H)|destruct (IH (land d (fb_digest b))) as (-> & -> & H)];
    (split_and!; [done..|]); intros x; cbn zeta in H; rewrite H; [|cbn; rewrite elem_of_union, elem_of_singleton];
    setoid_rewrite elem_of_cons; naive_solver.
Qed.

Lemma ship_drained w d blobs reprobe w' d' r :
  ship w d blobs reprobe = (w', d', r) →
  ∃ new, drained w d w' d' new ∧ within (fb_digest <$> candidates_of d blobs reprobe) new ∧
    (r = Ok () → ∀ b, b ∈ candidates_of d blobs reprobe → fb_digest b ∈ landed d' ∧ confirmed new (fb_digest b)).
Proof.
  unfold ship. destruct (candidates_of d blobs reprobe) as [|c cs] eqn:Ec.
  { intros [= <- <- <-]. exists []. split; [by apply drained_refl|]. split; [constructor|].
    intros _ b Hb. by apply elem_of_nil in Hb. }
  rewrite <- Ec. clear Ec c cs. set (cands := candidates_of d blobs reprobe). cbn [find_missing logged_world].
  destruct (find_missing w.1 (fb_digest <$> cands)) as [x1 [answer|e]].
  2:{ intros [= <- <- <-]. exists [Probed (fb_digest <$> cands) (Err e)]. split; [|split; [|done]].
      - by apply drained_failed.
      - constructor; [by intros x Hx|constructor]. }
  destruct (landed_fold (list_to_set answer) cands d) as (Hc & Hu & Hl). cbn zeta in Hc, Hu, Hl.
  set (d1 := fold_left _ cands d) in *. intros H. destruct (ship_missing_drained _ _ _ _ _ _ _ H) as (new & H1 & H2 & H3).
  assert (∀ b, b ∈ cands → fb_digest b ∉ answer → confirms (fb_digest b) (Probed (fb_digest <$> cands) (Ok answer))) as Hprobe.
  { intros b Hb Hna. split; [|done]. by apply list_elem_of_fmap_2. }
  exists ([Probed (fb_digest <$> cands) (Ok answer)] ++ new). split_and!.
  - eapply drained_trans; [|exact H1]. split; try done.
    + intros x Hx. apply Hl. by left.
    + intros x [Hx|(b & Hb & <- & Hna)]%Hl; [by left|right]. constructor. apply Hprobe; [done|].
      by rewrite elem_of_list_to_set in Hna.
    + rewrite uploads_one. cbn [stored]. lia.
  - constructor; [by intros x Hx|done].
  - intros Hr b Hb. destruct (decide (fb_digest b ∈ answer)) as [Hin|Hna].
    + destruct (H3 Hr b Hb) as [Hx Hcf]; [by rewrite elem_of_list_to_set|]. split; [done|]. rewrite confirmed_app. by right.
    + split.
      * apply (dr_keep _ _ _ _ _ H1), Hl. right. exists b. by rewrite elem_of_list_to_set.
      * rewrite confirmed_app. left. constructor. by apply Hprobe.
Qed.

Lemma elem_of_candidates d blobs reprobe b :
  b ∈ candidates_of d blobs reprobe ↔
  b ∈ blobs ∧ (fb_size_bytes b ≤ upload_cap d)%Z ∧ (reprobe = true ∨ fb_digest b ∉ landed d).
Proof.
  unfold candidates_of. rewrite !list_elem_of_filter, Z.leb_le, orb_true_iff, negb_true_iff, bool_decide_eq_false. tauto.
Qed.

(** The report counts each blob once. *)
Lemma drainer_report_exact d blobs :
  let r := drainer_report d blobs in
  found r = length blobs ∧ uploaded_count r = uploaded d ∧
  landed_count r = length (filter (λ b, fb_digest b ∈ landed d) blobs) ∧
  oversize_skipped r = length (filter (λ b, fb_digest b ∉ landed d ∧ (upload_cap d < fb_size_bytes b)%Z) blobs) ∧
  missing r = length (filter (λ b, fb_digest b ∉ landed d ∧ ¬ (upload_cap d < fb_size_bytes b)%Z) blobs).
Proof.
  cbv zeta. unfold drainer_report.
  assert (∀ r0, let r := fold_left (count_blob d) blobs r0 in
    found r = found r0 ∧ uploaded_count r = uploaded_count r0 ∧
    landed_count r = landed_count r0 + length (filter (λ b, fb_digest b ∈ landed d) blobs) ∧
    oversize_skipped r = oversize_skipped r0 + length (filter (λ b, fb_digest b ∉ landed d ∧ (upload_cap d < fb_size_bytes b)%Z) blobs) ∧
    missing r = missing r0 + length (filter (λ b, fb_digest b ∉ landed d ∧ ¬ (upload_cap d < fb_size_bytes b)%Z) blobs)) as H; [|apply H].
  induction blobs as [|b blobs IH]; intros r0; cbn [fold_left]; [cbn; lia|].
  destruct (IH (count_blob d r0 b)) as (-> & -> & -> & -> & ->). rewrite !filter_cons. unfold count_blob.
  case_bool_decide as Hb; [|destruct (Z.ltb_spec (upload_cap d) (fb_size_bytes b))];
    repeat case_decide; try tauto; try lia; cbn; lia.
Qed.
End logged.

(** [DirBlobStore::finalized_blob] resolves a digest to that digest's blob, as
    [finalized_blob] of Blob does. *)
Class DrainLaws (W : Type) {DW : DrainWorld W} :=
  finalized_blob_digest : ∀ (w w' : W) x b, store_finalized_blob w x = (w', Ok (Some b)) → fb_digest b = x.

Section operations.
Context {W : Type} {DW : DrainWorld W}.
Abbreviation world := (W * list backend_event)%type.
Implicit Types (w : world) (d : BlobDrainer) (log : list backend_event).

(** A complete outcome of a pass: what it listed, and who confirmed it. *)
Definition pass_complete (blobs : list FinalizedBlob) d' (o : BlobDrainOutcome) (evidence : list backend_event) : Prop :=
  outcome_report o = drainer_report d' blobs ∧
  ∀ b, b ∈ blobs → (fb_size_bytes b ≤ upload_cap d')%Z → fb_digest b ∈ landed d' ∧ confirmed evidence (fb_digest b).

Lemma drain_once_spec w d reprobe w' d' o :
  drain_once w d reprobe = (w', d', o) → drain_inv w d →
  ∃ new, drained w d w' d' new ∧
    (outcome_is_complete o = true →
     ∃ blobs, pass_complete blobs d' o (if reprobe then new else w'.2)).
Proof.
  unfold drain_once. cbn [store_finalized_blobs logged_world]. destruct (store_finalized_blobs w.1) as [x [blobs|e]].
  2:{ intros [= <- <- <-] _. exists []. split; [by apply drained_refl|]. done. }
  destruct (ship (x, w.2) d blobs reprobe) as [[w1 d1] r] eqn:E. intros [= <- <- <-] Hinv.
  destruct (ship_drained _ _ _ _ _ _ _ E) as (new & Hd & _ & Hok). exists new.
  assert (drained w d w1 d1 new) as Hd' by (destruct Hd; by split). split; [done|].
  unfold outcome_is_complete. cbn. intros [Hr _]%andb_true_iff. apply bool_decide_eq_true in Hr.
  destruct r as [[]|e]; [|done]. exists blobs. split; [done|]. intros b Hb Hcap. rewrite (dr_cap _ _ _ _ _ Hd) in Hcap.
  destruct reprobe.
  - apply Hok; [done|]. apply elem_of_candidates. auto.
  - destruct (decide (fb_digest b ∈ landed d)) as [Hl|Hl].
    + split; [by apply (dr_keep _ _ _ _ _ Hd)|]. apply (drained_inv _ _ _ _ _ Hd'); [done|]. by apply (dr_keep _ _ _ _ _ Hd).
    + destruct (Hok eq_refl b) as [H1 H2]; [apply elem_of_candidates; auto|]. split; [done|].
      rewrite (dr_log _ _ _ _ _ Hd), confirmed_app. by right.
Qed.

Lemma outcome_missing d blobs b :
  missing (drainer_report d blobs) = 0 → b ∈ blobs → (fb_size_bytes b ≤ upload_cap d)%Z → fb_digest b ∈ landed d.
Proof.
  intros Hm Hb Hs. destruct (drainer_report_exact d blobs) as (_ & _ & _ & _ & H). rewrite H in Hm.
  destruct (decide (fb_digest b ∈ landed d)) as [|Hl]; [done|exfalso].
  apply nil_length_inv in Hm. assert (b ∈ ([] : list FinalizedBlob)) as Hn; [|by apply elem_of_nil in Hn].
  rewrite <- Hm. apply list_elem_of_filter. split; [|done]. split; [done|lia].
Qed.

Lemma retry_passes_spec n w d backoff o0 reprobe w' d' o :
  retry_passes n w d backoff o0 reprobe = (w', d', o) → drain_inv w d →
  ∃ new, drained w d w' d' new ∧
    (outcome_is_complete o = true →
     new = [] ∧ d' = d ∧ w' = w ∧ o = o0 ∨ ∃ blobs, pass_complete blobs d' o (if reprobe then new else w'.2)).
Proof.
  revert w d backoff o0. induction n as [|n IH]; intros w d backoff o0; cbn [retry_passes].
  { intros [= <- <- <-] _. exists []. split; [by apply drained_refl|]. by left. }
  destruct (outcome_is_complete o0).
  { intros [= <- <- <-] _. exists []. split; [by apply drained_refl|]. by left. }
  destruct (drain_once (drain_sleep w backoff) d reprobe) as [[w1 d1] o1] eqn:E. intros H Hinv.
  assert (drain_inv (drain_sleep w backoff) d) as Hinv0 by done.
  destruct (drain_once_spec _ _ _ _ _ _ E Hinv0) as (a & Ha & Hca).
  assert (drained w d w1 d1 a) as Ha' by (destruct Ha; by split).
  destruct (IH _ _ _ _ H (drained_inv _ _ _ _ _ Ha' Hinv)) as (b & Hb & Hcb). exists (a ++ b).
  split; [by eapply drained_trans|]. intros Hc. right.
  destruct (Hcb Hc) as [(-> & -> & -> & ->)|(blobs & Hr & Hl)].
  - destruct (Hca Hc) as [blobs Hp]. exists blobs. by rewrite app_nil_r.
  - exists blobs. split; [done|]. intros x Hx Hcap. destruct (Hl x Hx Hcap) as [H1 H2]. split; [done|].
    destruct reprobe; [|done]. rewrite confirmed_app. by right.
Qed.

Lemma finish_with_spec w d policy reprobe w' d' o :
  finish_with w d policy reprobe = (w', d', o) → drain_inv w d →
  ∃ new, drained w d w' d' new ∧
    (outcome_is_complete o = true → ∃ blobs, pass_complete blobs d' o (if reprobe then new else w'.2)).
Proof.
  unfold finish_with. destruct (drain_once w d reprobe) as [[w1 d1] o1] eqn:E. intros H Hinv.
  destruct (drain_once_spec _ _ _ _ _ _ E Hinv) as (a & Ha & Hca).
  destruct (retry_passes_spec _ _ _ _ _ _ _ _ _ H (drained_inv _ _ _ _ _ Ha Hinv)) as (b & Hb & Hcb).
  exists (a ++ b). split; [by eapply drained_trans|]. intros Hc.
  destruct (Hcb Hc) as [(-> & -> & -> & ->)|(blobs & Hr & Hl)].
  - rewrite app_nil_r. by apply Hca.
  - exists blobs. split; [done|]. intros x Hx Hcap. destruct (Hl x Hx Hcap) as [H1 H2]. split; [done|].
    destruct reprobe; [|done]. rewrite confirmed_app. by right.
Qed.

Context {L : DrainLaws W}.

Lemma resolve_pending_spec w d pending w' r :
  resolve_pending w d pending = (w', r) →
  w'.2 = w.2 ∧ ∀ blobs, r = Ok blobs → fb_digest <$> blobs = pending ∧ Forall (λ b, fb_size_bytes b ≤ upload_cap d)%Z blobs.
Proof.
  revert w r. induction pending as [|x pending IH]; intros w r; cbn [resolve_pending].
  { intros [= <- <-]. split; [done|]. by intros blobs [= <-]. }
  cbn [store_finalized_blob logged_world]. destruct (store_finalized_blob w.1 x) as [x1 [[b|]|e]] eqn:E;
    try (intros [= <- <-]; done).
  destruct (Z.ltb_spec (upload_cap d) (fb_size_bytes b)) as [|Hcap]; [by intros [= <- <-]|].
  destruct (resolve_pending (x1, w.2) d pending) as [w1 r1] eqn:E1. intros [= <- <-].
  destruct (IH _ _ E1) as [Hlog Hr]. split; [done|]. intros blobs.
  destruct r1 as [k|e]; [|done]. cbn. intros [= <-]. destruct (Hr k eq_refl) as [<- Hall].
  cbn. rewrite (finalized_blob_digest _ _ _ _ E). split; [done|by constructor].
Qed.

Lemma ensure_spec w d digests w' d' r :
  ensure w d digests = (w', d', r) →
  ∃ new, drained w d w' d' new ∧ within (filter (λ x, x ∉ landed d) digests) new ∧
    (r = Ok () → ∀ x, x ∈ digests → x ∈ landed d').
Proof.
  unfold ensure. set (pending := vec_dedup _).
  assert (∀ x, x ∈ pending ↔ x ∈ filter (λ x, x ∉ landed d) digests) as Hp.
  { intros x. unfold pending. by rewrite elem_of_vec_dedup, merge_sort_Permutation. }
  destruct (resolve_pending w d pending) as [w1 [blobs|e]] eqn:E; destruct (resolve_pending_spec _ _ _ _ _ E) as [Hlog Hr].
  2:{ intros [= <- <- <-]. exists []. split; [by apply drained_refl|]. split; [constructor|done]. }
  destruct (Hr blobs eq_refl) as [Hd Hcap]. intros H. destruct (ship_drained _ _ _ _ _ _ _ H) as (new & H1 & H2 & H3).
  exists new. split; [destruct H1; split; by rewrite <- ?Hlog|]. split.
  - eapply within_mono; [|exact H2]. intros x (b & -> & Hb)%list_elem_of_fmap. apply elem_of_candidates in Hb as [Hb _].
    apply Hp. rewrite <- Hd. by apply list_elem_of_fmap_2.
  - intros Hok x Hx. destruct (decide (x ∈ landed d)) as [Hl|Hl]; [by apply (dr_keep _ _ _ _ _ H1)|].
    assert (x ∈ pending) as Hxp by (apply Hp, list_elem_of_filter; done). rewrite <- Hd in Hxp.
    apply list_elem_of_fmap in Hxp as (b & -> & Hb). apply H3; [done|]. apply elem_of_candidates.
    rewrite Forall_forall in Hcap. auto.
Qed.
End operations.

(** *** What an outcome's report is *)

(** The buckets partition the blobs, and only missing blobs have missing bytes. *)
Lemma drainer_report_accounts d blobs :
  let r := drainer_report d blobs in
  found r = length blobs ∧ landed_count r + oversize_skipped r + missing r = length blobs ∧
  (missing r = 0 → missing_bytes r = 0%Z) ∧ (0 ≤ missing_bytes r ≤ u64_max)%Z.
Proof.
  unfold drainer_report.
  assert (∀ r n, landed_count r + oversize_skipped r + missing r = n → (missing r = 0 → missing_bytes r = 0%Z) →
    (0 ≤ missing_bytes r ≤ u64_max)%Z →
    let r' := fold_left (count_blob d) blobs r in
    found r' = found r ∧ landed_count r' + oversize_skipped r' + missing r' = n + length blobs ∧
    (missing r' = 0 → missing_bytes r' = 0%Z) ∧ (0 ≤ missing_bytes r' ≤ u64_max)%Z) as Hgen.
  2:{ apply (Hgen (mkDrainReport (length blobs) 0 (uploaded d) 0 0 0) 0); cbn; unfold u64_max; lia. }
  induction blobs as [|b blobs IH]; intros r n Hn Hz Hb; cbn [fold_left length]; [lia|].
  assert (found (count_blob d r b) = found r) as <- by (unfold count_blob; by repeat case_match).
  replace (n + S (length blobs)) with (S n + length blobs) by lia. apply IH.
  - unfold count_blob. repeat case_match; cbn; lia.
  - unfold count_blob. repeat case_match; cbn; [done..|lia].
  - unfold count_blob, add_u64. repeat case_match; cbn; try done.
    pose proof (Z.mod_pos_bound (missing_bytes r + fb_size_bytes b) (u64_max + 1)) as Hmod. unfold u64_max in *. lia.
Qed.

Lemma finish_with_outcome {W} {DW : DrainWorld W} (w : W) d policy reprobe :
  ∃ d' blobs, outcome_report (finish_with w d policy reprobe).2 = drainer_report d' blobs.
Proof.
  assert (∀ w d, ∃ d' blobs, outcome_report (drain_once w d reprobe).2 = drainer_report d' blobs) as Honce.
  { clear. intros w d. unfold drain_once. destruct (store_finalized_blobs w) as [w1 [blobs|e]]; [|by exists d, []].
    destruct (ship w1 d blobs reprobe) as [[w2 d2] r]. by eexists _, _. }
  unfold finish_with. pose proof (Honce w d) as H. destruct (drain_once w d reprobe) as [[w1 d1] o].
  generalize (retry_initial_backoff policy) as backoff. generalize (Z.to_nat (Z.max (attempts policy) 1 - 1)) as n.
  intros n. revert w1 d1 o H. induction n as [|n IH]; intros w1 d1 o H backoff; cbn [retry_passes]; [done|].
  destruct (outcome_is_complete o); [done|].
  pose proof (Honce (drain_sleep w1 backoff) d1) as H1.
  destruct (drain_once (drain_sleep w1 backoff) d1 reprobe) as [[w2 d2] o2]. by apply IH.
Qed.

(** ** Any sequence of operations *)

Inductive drain_op := OpPass | OpEnsure (digests : list PayloadDigest) | OpFinish (policy : DrainRetryPolicy) (reprobe : bool).

Definition run_op {W} {DW : DrainWorld W} (s : W * BlobDrainer) (op : drain_op) : W * BlobDrainer :=
  match op with
  | OpPass => (pass s.1 s.2).1
  | OpEnsure digests => (ensure s.1 s.2 digests).1
  | OpFinish policy reprobe => (finish_with s.1 s.2 policy reprobe).1
  end.
Definition run_drain {W} {DW : DrainWorld W} (w : W) (ops : list drain_op) : W * BlobDrainer :=
  foldl run_op (w, BlobDrainer_new) ops.

Lemma run_drain_inv {W} {DW : DrainWorld W} {L : DrainLaws W} (w : W) ops :
  let s := run_drain (w, [] : list backend_event) ops in drain_inv s.1 s.2 ∧ upload_cap s.2 = MAX_UPLOAD_BLOB_BYTES.
Proof.
  unfold run_drain. induction ops as [|op ops IH] using rev_ind; [split; [by split|done]|].
  rewrite foldl_app. cbn [foldl]. destruct IH as [Hinv Hcap]. set (s := foldl _ _ ops) in *. destruct s as [w1 d1]. cbn in Hinv, Hcap.
  assert (∀ w' d' new, drained w1 d1 w' d' new → drain_inv w' d' ∧ upload_cap d' = MAX_UPLOAD_BLOB_BYTES) as Hstep.
  { intros w' d' new H. split; [by eapply drained_inv|]. by rewrite (dr_cap _ _ _ _ _ H). }
  destruct op as [|digests|policy reprobe]; cbn [run_op fst snd].
  - destruct (pass w1 d1) as [[w' d'] o] eqn:E. destruct (drain_once_spec _ _ _ _ _ _ E Hinv) as (new & H & _). by eapply Hstep.
  - destruct (ensure w1 d1 digests) as [[w' d'] o] eqn:E. destruct (ensure_spec _ _ _ _ _ _ E) as (new & H & _). by eapply Hstep.
  - destruct (finish_with w1 d1 policy reprobe) as [[w' d'] o] eqn:E.
    destruct (finish_with_spec _ _ _ _ _ _ _ E Hinv) as (new & H & _). by eapply Hstep.
Qed.

(** ** Properties *)

(** A blob counts as landed only on the backend's word.  After any
    passes, ensures and final drains, whatever the store and the uploader do:
    every landed digest was stored by an acknowledged upload or was probed and
    not missed, [uploaded] is the number of acknowledged uploads, and a report
    of any listing counts each blob once, as landed, oversize or missing. *)
Theorem blob_drain_accounting {W} {DW : DrainWorld W} {L : DrainLaws W} (w : W) (ops : list drain_op) :
  let s := run_drain (w, [] : list backend_event) ops in
  (∀ x, x ∈ landed s.2 → confirmed s.1.2 x) ∧ uploaded s.2 = uploads_ok s.1.2 ∧
  ∀ blobs, let r := drainer_report s.2 blobs in
    found r = length blobs ∧ landed_count r + oversize_skipped r + missing r = found r ∧
    uploaded_count r = uploads_ok s.1.2 ∧
    landed_count r = length (filter (λ b, fb_digest b ∈ landed s.2) blobs) ∧
    (missing r = 0 ↔ ∀ b, b ∈ blobs → (fb_size_bytes b ≤ MAX_UPLOAD_BLOB_BYTES)%Z → fb_digest b ∈ landed s.2).
Proof.
  intros s. destruct (run_drain_inv w ops) as [[H1 H2] Hcap]. fold s in H1, H2, Hcap. split; [done|]. split; [done|].
  intros blobs r. destruct (drainer_report_exact s.2 blobs) as (Hf & Hu & Hl & Ho & Hm). fold r in Hf, Hu, Hl, Ho, Hm.
  split_and!; [done| |by rewrite Hu|done|].
  - rewrite Hf, Hl, Ho, Hm. clear. induction blobs as [|b blobs IH]; [done|]. rewrite !filter_cons.
    repeat case_decide; try tauto; cbn [length]; lia.
  - split.
    + intros Hz b Hb Hs. eapply outcome_missing; [exact Hz|done|by rewrite Hcap].
    + intros Hall. rewrite Hm. apply length_zero_iff_nil, list_nil_subseteq. intros b Hb.
      apply list_elem_of_filter in Hb as [[Hn Hle] Hb]. destruct Hn. apply Hall; [done|]. rewrite <- Hcap. lia.
Qed.

(** What the operations promise.  After any history, a pass or drain
    whose outcome is complete listed the store, and the backend confirmed every
    blob of the listing within the upload cap, in this very drain when it
    probes again; a successful [ensure] has every requested digest landed, and
    it contacts the backend about no other digest and about none that had
    landed before. *)
Theorem blob_drain_promises {W} {DW : DrainWorld W} {L : DrainLaws W} (w : W) (ops : list drain_op) :
  let s := run_drain (w, [] : list backend_event) ops in
  (∀ policy reprobe w' d' o, finish_with s.1 s.2 policy reprobe = (w', d', o) → outcome_is_complete o = true →
     ∃ new blobs, w'.2 = s.1.2 ++ new ∧ outcome_report o = drainer_report d' blobs ∧
       ∀ b, b ∈ blobs → (fb_size_bytes b ≤ MAX_UPLOAD_BLOB_BYTES)%Z →
         fb_digest b ∈ landed d' ∧ confirmed (if reprobe then new else w'.2) (fb_digest b)) ∧
  (∀ digests w' d' r, ensure s.1 s.2 digests = (w', d', r) →
     ∃ new, w'.2 = s.1.2 ++ new ∧ within (filter (λ x, x ∉ landed s.2) digests) new ∧
       (r = Ok () → ∀ x, x ∈ digests → x ∈ landed d' ∧ confirmed w'.2 x)).
Proof.
  intros s. destruct (run_drain_inv w ops) as [Hinv Hcap]. fold s in Hinv, Hcap. split.
  - intros policy reprobe w' d' o E Hc. destruct (finish_with_spec _ _ _ _ _ _ _ E Hinv) as (new & Hd & Hcomp).
    destruct (Hcomp Hc) as (blobs & Hr & Hall). exists new, blobs. split; [apply Hd|]. split; [done|].
    intros b Hb Hs. apply Hall; [done|]. by rewrite (dr_cap _ _ _ _ _ Hd), Hcap.
  - intros digests w' d' r E. destruct (ensure_spec _ _ _ _ _ _ E) as (new & Hd & Hw & Hok). exists new.
    split; [apply Hd|]. split; [done|]. intros Hr x Hx. specialize (Hok Hr x Hx). split; [done|].
    by apply (drained_inv _ _ _ _ _ Hd Hinv).
Qed.

(** A reprobe that misses a landed blob and an upload that then fails leave the
    digest landed: the report of a failed final drain can count as landed what
    the backend has just said it lacks. *)
Lemma stale_landed {W} {DW : DrainWorld W} (w w1 w2 w3 : W) (d : BlobDrainer) (b : FinalizedBlob) (bytes : str)
    (e : BlobStoreError) :
  (fb_size_bytes b ≤ upload_cap d)%Z → fb_digest b ∈ landed d →
  store_finalized_blobs w = (w1, Ok [b]) → find_missing w1 [fb_digest b] = (w2, Ok [fb_digest b]) →
  read_file w2 (fb_path b) = (w3, Some bytes) → (upload w3 (fb_digest b) bytes).2 = Err e →
  let '(_, d', o) := drain_once w d true in
  landed_count (outcome_report o) = 1 ∧ missing (outcome_report o) = 0 ∧ error o = Some e.
Proof.
  intros Hs Hl H1 H2 H3 H4. unfold drain_once. rewrite H1. unfold ship.
  assert (candidates_of d [b] true = [b]) as ->.
  { unfold candidates_of. rewrite filter_cons_True by (by apply Z.leb_le). by rewrite filter_cons_True. }
  cbn [fmap list_fmap]. rewrite H2. cbn [fold_left ship_missing]. rewrite bool_decide_true by set_solver. cbn [negb].
  rewrite H3. destruct (upload w3 _ _) as [w4 [[]|e']]; [done|]. cbn in H4. injection H4 as ->.
  cbn. unfold count_blob. by rewrite bool_decide_true.
Qed.

(** *** Witnesses *)

Section witnesses.
Definition hex_a : str := replicate 64 x61.
Definition blob_a : FinalizedBlob := mkFinalized (digest_of hex_a) (target_name hex_a) 3.

(** One blob; the uploader fails as often as the world says, then works. *)
#[local] Instance flaky_world : DrainWorld nat := {
  store_finalized_blobs w := (w, Ok [blob_a]);
  store_finalized_blob w x := (w, Ok (if bool_decide (x = fb_digest blob_a) then Some blob_a else None));
  read_file w p := (w, Some (bs "abc"));
  find_missing w xs := (w, Ok xs);
  upload w x bytes := match w with
                      | O => (O, Ok ())
                      | S w => (w, Err (BlobStoreError_unavailable (bs "fake") (bs "down")))
                      end;
  drain_sleep w _ := w;
}.
#[local] Instance flaky_laws : DrainLaws nat.
Proof. intros w w' x b. cbn. case_bool_decide; intros [= _ <-]. done. Qed.

Lemma blob_drain_accounting_witness :
  uploaded (run_drain (2, []) [OpPass; OpFinish DrainRetryPolicy_default true; OpPass]).2 = 1.
Proof.
  destruct (blob_drain_accounting 2 [OpPass; OpFinish DrainRetryPolicy_default true; OpPass]) as (_ & H & _).
  rewrite H. vm_compute. reflexivity.
Defined.

Lemma blob_drain_promises_witness :
  fb_digest blob_a ∈ landed (ensure (run_drain (1, []) [OpPass]).1 (run_drain (1, []) [OpPass]).2 [fb_digest blob_a]).1.2.
Proof.
  destruct (blob_drain_promises 1 [OpPass]) as [_ H].
  destruct (ensure (run_drain (1, []) [OpPass]).1 (run_drain (1, []) [OpPass]).2 [fb_digest blob_a]) as [[w' d'] r] eqn:E.
  assert (r = Ok ()) as Hr.
  { assert ((ensure (run_drain (1, []) [OpPass]).1 (run_drain (1, []) [OpPass]).2 [fb_digest blob_a]).2 = Ok ()) as Hc
      by (vm_compute; reflexivity). rewrite E in Hc. exact Hc. }
  destruct (H [fb_digest blob_a] w' d' r E) as (new & _ & _ & Hok). apply (Hok Hr). left.
Defined.
End witnesses.
