(* ===== verification/Redact.v ===== *)
(** * Secret redaction (crates/hiloop-interceptor/src/redact.rs)

    The captured copy of a body is scrubbed before it is stored: each valid
    UTF-8 run is scanned for credentials and every match is replaced.  The
    scanner ([BODY_REDACTOR.find] and [find_parallel]) is the leakguard crate
    with the two detectors of this file among its own; it is the parameter
    [find].  A slice out of range is a panic: [None].  The worker pools of
    redact/async_scan.rs only choose where the scan runs. *)
From Stdlib Require Import Strings.Byte.
From S2P Require Import Prelude Text Utf8.

Definition REDACTION_PLACEHOLDER : str := bs "[REDACTED]".
Definition MIN_CUSTOM_TOKEN_BYTES : nat := 12.

(** [leakguard::Match], less its kind. *)
Record Match := mkMatch { m_start : nat; m_end : nat }.
#[export] Instance match_eq_dec : EqDecision Match.
Proof. solve_decision. Defined.

(** ** The detectors of this crate *)

(** How many leading bytes satisfy [p]. *)
Fixpoint run_length (p : byte → bool) (s : str) : nat :=
  match s with b :: s => if p b then S (run_length p s) else 0 | [] => 0 end.

Definition bearer : str := bs "bearer".
Definition bearer_at (s : str) : bool :=
  Nat.leb 6 (length s) && eq_ignore_ascii_case (take 6 s) bearer.
Fixpoint find_bearer (s : str) : option nat :=
  if bearer_at s then Some 0 else match s with [] => None | _ :: s => S <$> find_bearer s end.

Definition bearer_token_byte (b : byte) : bool :=
  is_ascii_alphanumeric b || byte_is x2e b || byte_is x5f b || byte_is x2b b || byte_is x2f b || byte_is x3d b
  || byte_is x2d b.

Fixpoint bearer_loop (fuel : nat) (bytes : str) (cursor : nat) : list Match :=
  match fuel with
  | O => []
  | S fuel =>
      if Nat.leb (cursor + 6) (length bytes) then
        match find_bearer (drop cursor bytes) with
        | None => []
        | Some offset =>
            let start := cursor + offset in
            let separator_start := start + 6 in
            let token_start := separator_start + run_length is_ascii_whitespace (drop separator_start bytes) in
            if Nat.eqb token_start separator_start then bearer_loop fuel bytes separator_start
            else
              let end_ := token_start + run_length bearer_token_byte (drop token_start bytes) in
              (if Nat.leb MIN_CUSTOM_TOKEN_BYTES (end_ - token_start) then [mkMatch start end_] else [])
              ++ bearer_loop fuel bytes (Nat.max end_ token_start)
        end
      else []
  end.

Definition detect_bearer_tokens (input : str) : list Match := bearer_loop (S (length input)) input 0.

Definition hiloop_prefix : str := bs "hil_".
Definition hiloop_token_byte (b : byte) : bool := is_ascii_alphanumeric b || byte_is x5f b || byte_is x2d b.
Definition valid_boundary (before : option byte) : bool :=
  match before with None => true | Some b => negb (is_ascii_alphanumeric b || byte_is x5f b) end.

(** The cursor follows an ASCII byte, so slicing the text at it is in order. *)
Fixpoint hiloop_loop (fuel : nat) (bytes : str) (cursor : nat) : list Match :=
  match fuel with
  | O => []
  | S fuel =>
      match find_bytes hiloop_prefix (drop cursor bytes) with
      | None => []
      | Some offset =>
          let start := cursor + offset in
          let boundary := valid_boundary (match start with O => None | S p => bytes !! p end) in
          let end_ := start + 4 + run_length hiloop_token_byte (drop (start + 4) bytes) in
          (if boundary && Nat.leb MIN_CUSTOM_TOKEN_BYTES (end_ - start) then [mkMatch start end_] else [])
          ++ hiloop_loop fuel bytes end_
      end
  end.

Definition detect_hiloop_tokens (input : str) : list Match := hiloop_loop (S (length input)) input 0.

(** ** Scrubbing *)

Inductive ScanMode := Serial | Parallel.

Section redact.
Context (find : ScanMode → str → list Match).

Fixpoint body_matches_from (fuel : nat) (mode : ScanMode) (body : str) (cursor : nat) : list Match :=
  match fuel with
  | O => []
  | S fuel =>
      if Nat.ltb cursor (length body) then
        let rest := drop cursor body in
        let '(valid_len, invalid_len) :=
          match utf8_error rest with
          | None => (length rest, 0)
          | Some (valid_len, error_len) =>
              (valid_len, default (length body - cursor - valid_len) error_len)
          end in
        ((λ m, mkMatch (cursor + m_start m) (cursor + m_end m)) <$> find mode (take valid_len rest))
        ++ (if Nat.eqb invalid_len 0 then []
            else body_matches_from fuel mode body (cursor + (valid_len + invalid_len)))
      else []
  end.

Definition body_matches (body : str) (mode : ScanMode) : list Match :=
  body_matches_from (length body) mode body 0.

(** The copy loop and the tail. *)
Fixpoint scrub (body : str) (cursor : nat) (matches : list Match) : option str :=
  match matches with
  | [] => slice_get body cursor (length body)
  | m :: matches =>
      kept ← slice_get body cursor (m_start m);
      rest ← scrub body (m_end m) matches;
      Some (kept ++ REDACTION_PLACEHOLDER ++ rest)
  end.

Definition redact_body_with (body : str) (mode : ScanMode) : option str :=
  match body_matches body mode with
  | [] => Some body
  | matches => scrub body 0 matches
  end.

Definition redact_body (body : str) : option str := redact_body_with body Serial.
Definition redact_body_parallel (body : str) : option str := redact_body_with body Parallel.

Record RedactionPolicy := mkRedactionPolicy { policy_enabled : bool }.
Definition RedactionPolicy_default : RedactionPolicy := mkRedactionPolicy true.
Definition RedactionPolicy_enabled : RedactionPolicy := mkRedactionPolicy true.
Definition RedactionPolicy_disabled : RedactionPolicy := mkRedactionPolicy false.

Definition policy_redact_body (p : RedactionPolicy) (body : str) : option str :=
  if negb (policy_enabled p) then Some body else redact_body body.
(** The scan task's own failure is the runtime's. *)
Definition redact_body_async (p : RedactionPolicy) (body : str) : option str :=
  if negb (policy_enabled p) || bool_decide (body = []) then Some body else redact_body_parallel body.
End redact.

Example bearer_found : detect_bearer_tokens (bs "x: Bearer abcdefghijkl;") = [mkMatch 3 22].
Proof. vm_compute. reflexivity. Qed.
Example bearer_repeated : detect_bearer_tokens (bs "Bearer bearer abcdefghijkl") = [].
Proof. vm_compute. reflexivity. Qed.
Example hiloop_found : detect_hiloop_tokens (bs "k=hil_0123456789ab.") = [mkMatch 2 18].
Proof. vm_compute. reflexivity. Qed.
Example hiloop_shadowed : detect_hiloop_tokens (bs "xhil_a-hil_0123456789ab") = [].
Proof. vm_compute. reflexivity. Qed.

(** ** Matches in order *)

(** Non-empty spans in increasing order between two positions. *)
Fixpoint ordered (lo hi : nat) (ms : list Match) : Prop :=
  match ms with
  | [] => True
  | m :: ms => lo ≤ m_start m ∧ m_start m < m_end m ∧ m_end m ≤ hi ∧ ordered (m_end m) hi ms
  end.

Lemma ordered_mono lo lo' hi hi' ms : ordered lo hi ms → lo' ≤ lo → hi ≤ hi' → ordered lo' hi' ms.
Proof.
  revert lo lo'. induction ms as [|m ms IH]; intros lo lo'; cbn; [done|]. intros (H1 & H2 & H3 & H4) ??.
  split_and!; [lia..|]. by eapply IH.
Qed.

Lemma ordered_app lo mid hi a b : ordered lo mid a → ordered mid hi b → lo ≤ mid → mid ≤ hi → ordered lo hi (a ++ b).
Proof.
  revert lo. induction a as [|m a IH]; intros lo; cbn.
  - intros _ Hb ??. eapply ordered_mono; [done|lia..].
  - intros (H1 & H2 & H3 & H4) Hb ??. split_and!; [lia..|]. apply IH; [done..|lia|lia].
Qed.

Lemma ordered_shift k lo hi ms :
  ordered lo hi ms → ordered (k + lo) (k + hi) ((λ m, mkMatch (k + m_start m) (k + m_end m)) <$> ms).
Proof.
  revert lo. induction ms as [|m ms IH]; intros lo; cbn; [done|]. intros (H1 & H2 & H3 & H4).
  split_and!; [lia..|]. by apply IH.
Qed.

(** ** Scrubbing *)

(** [out] is [body] (which starts at [pos]) with each span replaced. *)
Inductive replaced : nat → str → list Match → str → Prop :=
| replaced_end pos s : replaced pos s [] s
| replaced_span pos kept span s ms out m :
    m = mkMatch (pos + length kept) (pos + length kept + length span) → span ≠ [] →
    replaced (pos + length kept + length span) s ms out →
    replaced pos (kept ++ span ++ s) (m :: ms) (kept ++ REDACTION_PLACEHOLDER ++ out).

Lemma scrub_replaced body pos ms :
  pos ≤ length body → ordered pos (length body) ms →
  ∃ out, scrub body pos ms = Some out ∧ replaced pos (drop pos body) ms out.
Proof.
  revert pos. induction ms as [|[a b] ms IH]; intros pos Hpos; cbn.
  - intros _. exists (drop pos body). split; [|constructor]. unfold slice_get.
    rewrite bool_decide_true by lia. cbn. by rewrite take_ge by (rewrite length_drop; lia).
  - intros (H1 & H2 & H3 & H4). destruct (IH b) as (out & Ho & Hr); [lia|done|].
    unfold slice_get. rewrite bool_decide_true by lia. cbn. rewrite Ho. cbn.
    eexists. split; [reflexivity|].
    assert (drop pos body = take (a - pos) (drop pos body) ++ take (b - a) (drop a body) ++ drop b body) as E.
    { rewrite <- (take_drop (a - pos) (drop pos body)) at 1. f_equal. rewrite drop_drop.
      replace (pos + (a - pos)) with a by lia. rewrite <- (take_drop (b - a) (drop a body)) at 1. f_equal.
      rewrite drop_drop. f_equal. lia. }
    rewrite E at 1. constructor.
    + rewrite !length_take, !length_drop. f_equal; lia.
    + intros Hn. apply (f_equal length) in Hn. rewrite length_take, length_drop in Hn. cbn in Hn. lia.
    + rewrite !length_take, !length_drop. replace (pos + _ + _) with b by lia. done.
Qed.

(** The maximal valid runs of a body, with their positions. *)
Inductive text_runs : nat → str → list (nat * str) → Prop :=
| runs_none pos : text_runs pos [] []
| runs_last pos s : s ≠ [] → utf8_error s = None → text_runs pos s [(pos, s)]
| runs_rest pos run s :
    utf8_error (run ++ s) = Some (length run, None) → s ≠ [] → text_runs pos (run ++ s) [(pos, run)]
| runs_gap pos run bad s runs :
    utf8_error (run ++ bad ++ s) = Some (length run, Some (length bad)) → bad ≠ [] →
    text_runs (pos + length run + length bad) s runs →
    text_runs pos (run ++ bad ++ s) ((pos, run) :: runs).

Section scrubbing.
Context (find : ScanMode → str → list Match).

(** What leakguard documents of its results: spans of the text, in order,
    resolved so that none overlap. *)
Context (Hfind : ∀ mode s, ordered 0 (length s) (find mode s)).

Definition run_matches (mode : ScanMode) (run : nat * str) : list Match :=
  (λ m, mkMatch (run.1 + m_start m) (run.1 + m_end m)) <$> find mode run.2.

Lemma body_matches_runs fuel mode body pos :
  length body - pos ≤ fuel → pos ≤ length body →
  ordered pos (length body) (body_matches_from find fuel mode body pos) ∧
  ∃ runs, text_runs pos (drop pos body) runs ∧ body_matches_from find fuel mode body pos = runs ≫= run_matches mode.
Proof.
  revert pos. induction fuel as [|fuel IH]; intros pos Hf Hpos; cbn [body_matches_from].
  { rewrite drop_ge by lia. split; [done|]. exists []. split; [constructor|done]. }
  destruct (Nat.ltb_spec pos (length body)) as [Hlt|Hge].
  2:{ rewrite drop_ge by lia. split; [done|]. exists []. split; [constructor|done]. }
  set (rest := drop pos body). assert (length rest = length body - pos) as Hrest by (unfold rest; by rewrite length_drop).
  assert (∀ n, n ≤ length rest → ordered pos (pos + n) (run_matches mode (pos, take n rest))) as Hord.
  { intros n Hn. unfold run_matches. cbn [fst snd]. pose proof (ordered_shift pos _ _ _ (Hfind mode (take n rest))) as H.
    rewrite length_take, Nat.add_0_r in H. eapply ordered_mono; [exact H|lia|lia]. }
  assert (rest ≠ []) as Hne by (intros E; rewrite E in Hrest; cbn in Hrest; lia).
  destruct (utf8_error rest) as [[n len]|] eqn:Eu.
  2:{ cbn. rewrite app_nil_r. split; [|exists [(pos, rest)]].
      - eapply ordered_mono; [apply (Hord (length rest)); lia|lia|lia].
      - split; [by constructor|]. cbn. rewrite app_nil_r, take_ge by lia. done. }
  pose proof (utf8_error_Some _ _ _ Eu) as (_ & Hn & Hlen).
  assert (rest = take n rest ++ drop n rest) as Erest by by rewrite take_drop.
  assert (length (take n rest) = n) as Htn by (rewrite length_take; lia).
  destruct len as [k|]; cbn [default from_option id].
  - destruct Hlen as [Hk Hnk]. destruct (Nat.eqb_spec k 0) as [|_]; [lia|].
    destruct (IH (pos + (n + k))) as (Ho & runs & Hr & Hm); [lia|lia|]. split.
    + eapply ordered_app; [apply (Hord n); lia| |lia|lia]. eapply ordered_mono; [exact Ho|lia|lia].
    + exists ((pos, take n rest) :: runs). rewrite Hm. split; [|done].
      assert (rest = take n rest ++ take k (drop n rest) ++ drop (n + k) rest) as E3.
      { rewrite <- drop_drop, take_drop. done. }
      rewrite E3 at 1. constructor.
      * rewrite <- E3, Htn, Eu. do 2 f_equal. rewrite length_take, length_drop. f_equal. lia.
      * intros E. apply (f_equal length) in E. rewrite length_take, length_drop in E. cbn in E. lia.
      * rewrite Htn, length_take, length_drop. replace (k `min` (length rest - n)) with k by lia.
        unfold rest. rewrite drop_drop. replace (pos + n + k) with (pos + (n + k)) by lia. done.
  - destruct (Nat.eqb_spec (length body - pos - n) 0) as [|_]; [lia|].
    assert (body_matches_from find fuel mode body (pos + (n + (length body - pos - n))) = []) as ->.
    { replace (pos + (n + (length body - pos - n))) with (length body) by lia. destruct fuel; [done|].
      cbn [body_matches_from]. by rewrite Nat.ltb_irrefl. }
    rewrite app_nil_r. split; [eapply ordered_mono; [apply (Hord n); lia|lia|lia]|].
    exists [(pos, take n rest)]. split; [|cbn; by rewrite app_nil_r].
    rewrite Erest at 1. constructor; [by rewrite <- Erest, Htn|].
    intros E. apply (f_equal length) in E. rewrite length_drop in E. cbn in E. lia.
Qed.
End scrubbing.

(** ** The bearer detector *)

Lemma run_length_app p a b :
  Forall (λ x, p x = true) a → (∀ x, head b = Some x → p x = false) → run_length p (a ++ b) = length a.
Proof.
  induction 1 as [|x a Hx _ IH]; intros Hb; cbn.
  - destruct b as [|y b]; [done|]. cbn. by rewrite (Hb y eq_refl).
  - rewrite Hx. by rewrite IH.
Qed.

Lemma run_length_split p s :
  ∃ a b, s = a ++ b ∧ length a = run_length p s ∧ Forall (λ x, p x = true) a ∧ (∀ x, head b = Some x → p x = false).
Proof.
  induction s as [|x s (a & b & -> & Hl & Ha & Hb)]; [by exists [], []|]. cbn. destruct (p x) eqn:Ep.
  - exists (x :: a), b. cbn. split_and!; [done|by rewrite Hl|by constructor|done].
  - exists [], (x :: a ++ b). split_and!; [done..|]. by intros y [= <-].
Qed.

(** The word, in any letter case. *)
Definition is_bearer (s : str) : Prop := to_ascii_lowercase s = bearer.

Lemma bearer_at_spec s : bearer_at s = true ↔ ∃ b t, s = b ++ t ∧ is_bearer b.
Proof.
  unfold bearer_at, is_bearer, eq_ignore_ascii_case. rewrite andb_true_iff, Nat.leb_le. split.
  - intros [Hl E]. exists (take 6 s), (drop 6 s). rewrite take_drop. split; [done|]. by apply bool_decide_eq_true in E.
  - intros (b & t & -> & Hb). assert (length b = 6) as Hl by (by rewrite <- length_to_ascii_lowercase, Hb).
    rewrite length_app, take_app_le, take_ge by lia. split; [lia|]. by apply bool_decide_eq_true.
Qed.

Lemma is_bearer_length b : is_bearer b → length b = 6.
Proof. intros H. by rewrite <- length_to_ascii_lowercase, H. Qed.

(** [find_bearer] gives the first occurrence. *)
Lemma find_bearer_first s t :
  bearer_at t = true → ∀ pre, s = pre ++ t → ∃ i, find_bearer s = Some i ∧ i ≤ length pre.
Proof.
  intros Ht pre. revert s. induction pre as [|x pre IH]; intros s ->.
  - exists 0. split; [|done]. cbn [app]. destruct t; [discriminate Ht|]. cbn [find_bearer]. by rewrite Ht.
  - cbn [app find_bearer]. destruct (bearer_at (x :: pre ++ t)); [exists 0; cbn; split; [done|lia]|].
    destruct (IH _ eq_refl) as (i & -> & Hi). exists (S i). cbn. split; [done|lia].
Qed.

Lemma find_bearer_Some s i : find_bearer s = Some i → i ≤ length s ∧ bearer_at (drop i s) = true.
Proof.
  revert i. induction s as [|x s IH]; intros i; [done|]. cbn [find_bearer].
  destruct (bearer_at (x :: s)) eqn:E; [intros [= <-]; split; [cbn; lia|done]|].
  intros (j & Hj & ->)%fmap_Some. destruct (IH _ Hj). cbn. split; [lia|done].
Qed.

(** A credential: the word, white space, a maximal token of enough bytes. *)
Definition bearer_credential (pre cred post : str) : Prop :=
  ∃ b ws tok, cred = b ++ ws ++ tok ∧ is_bearer b ∧ ws ≠ [] ∧ Forall (λ x, is_ascii_whitespace x = true) ws ∧
    Forall (λ x, bearer_token_byte x = true) tok ∧ MIN_CUSTOM_TOKEN_BYTES ≤ length tok ∧
    ∀ x, head post = Some x → bearer_token_byte x = false.

(** The text before ends in the word, white space and token bytes: the
    detector is still reading another credential's token there. *)
Definition in_token (pre : str) : Prop :=
  ∃ p b ws t, pre = p ++ b ++ ws ++ t ∧ is_bearer b ∧ ws ≠ [] ∧
    Forall (λ x, is_ascii_whitespace x = true) ws ∧ Forall (λ x, bearer_token_byte x = true) t.

Lemma token_not_space x : bearer_token_byte x = true → is_ascii_whitespace x = false.
Proof. by destruct x. Qed.

(** One turn of the loop, on the decomposition it finds. *)
Lemma bearer_turn fuel bytes cursor :
  cursor ≤ length bytes →
  bearer_loop (S fuel) bytes cursor = [] ∧ (∀ p t, bytes = p ++ t → bearer_at t = true → length p < cursor) ∨
  ∃ p b ws tok post,
    bytes = p ++ b ++ ws ++ tok ++ post ∧ cursor ≤ length p ∧ is_bearer b ∧
    Forall (λ x, is_ascii_whitespace x = true) ws ∧ Forall (λ x, bearer_token_byte x = true) tok ∧
    (ws = [] → tok = []) ∧
    (∀ x, head (tok ++ post) = Some x → is_ascii_whitespace x = false) ∧
    (ws ≠ [] → ∀ x, head post = Some x → bearer_token_byte x = false) ∧
    (∀ p' t, bytes = p' ++ t → bearer_at t = true → length p' < cursor ∨ length p ≤ length p') ∧
    bearer_loop (S fuel) bytes cursor =
      (if bool_decide (ws ≠ [] ∧ MIN_CUSTOM_TOKEN_BYTES ≤ length tok)
       then [mkMatch (length p) (length (p ++ b ++ ws ++ tok))] else [])
      ++ bearer_loop fuel bytes (length (p ++ b ++ ws ++ tok)).
Proof.
  intros Hc. cbn [bearer_loop].
  assert (∀ p t, bytes = p ++ t → bearer_at t = true → cursor ≤ length p →
    ∃ i, find_bearer (drop cursor bytes) = Some i ∧ cursor + i ≤ length p) as Hfirst.
  { intros p t -> Ht Hp. rewrite drop_app_le by done. destruct (find_bearer_first (drop cursor p ++ t) t Ht _ eq_refl) as (i & Hi & Hl).
    exists i. split; [done|]. rewrite length_drop in Hl. lia. }
  destruct (find_bearer (drop cursor bytes)) as [i|] eqn:E.
  2:{ left. split; [by destruct (Nat.leb _ _)|]. intros p t Hb Ht. destruct (decide (length p < cursor)) as [|Hn]; [done|].
      destruct (Hfirst p t Hb Ht) as (i & [=] & _). lia. }
  destruct (find_bearer_Some _ _ E) as [Hi Hat]. rewrite drop_drop in Hat. rewrite length_drop in Hi.
  apply bearer_at_spec in Hat as (b & r & Hr & Hb). pose proof (is_bearer_length _ Hb) as Hlb.
  set (p := take (cursor + i) bytes). assert (length p = cursor + i) as Hp by (unfold p; rewrite length_take; lia).
  assert (bytes = p ++ b ++ r) as Hbytes by (unfold p; by rewrite <- Hr, take_drop).
  destruct (run_length_split is_ascii_whitespace r) as (ws & r1 & -> & Hws & Hwsall & Hr1).
  assert (drop (cursor + i + 6) bytes = ws ++ r1) as Hd1.
  { rewrite Hbytes, <- Hp, <- Hlb, <- length_app, app_assoc. apply drop_app_length. }
  assert (length bytes = cursor + i + 6 + length (ws ++ r1)) as Hlen by (rewrite Hbytes, !length_app; lia).
  right. rewrite (proj2 (Nat.leb_le _ _)) by lia. rewrite Hd1, <- Hws.
  assert (∀ p' t, bytes = p' ++ t → bearer_at t = true → length p' < cursor ∨ length p ≤ length p') as Hfst.
  { intros p' t Hb' Ht. destruct (decide (length p' < cursor)) as [|Hn]; [by left|]. right.
    destruct (Hfirst p' t Hb' Ht) as (j & [= <-] & Hj); lia. }
  assert (cursor + i + 6 + length ws =? cursor + i + 6 = bool_decide (ws = [])) as ->.
  { destruct ws; cbn [length]; [rewrite bool_decide_true by done|rewrite bool_decide_false by done]; [apply Nat.eqb_eq|apply Nat.eqb_neq]; lia. }
  case_bool_decide as Hw.
  - subst ws. exists p, b, [], [], r1. cbn [app] in *. split_and!; try done; [lia|].
    rewrite bool_decide_false by tauto. cbn. f_equal. rewrite length_app, app_nil_r. lia.
  - destruct (run_length_split bearer_token_byte r1) as (tok & post & -> & Htok & Htokall & Hpost).
    exists p, b, ws, tok, post. split_and!; try done; [lia|].
    assert (drop (cursor + i + 6 + length ws) bytes = tok ++ post) as ->.
    { rewrite <- drop_drop, Hd1. apply drop_app_length. }
    rewrite <- Htok. set (n := cursor + i + 6 + length ws).
    assert (length (p ++ b ++ ws ++ tok) = n + length tok) as -> by (rewrite !length_app; unfold n; lia).
    replace (Nat.max (n + length tok) n) with (n + length tok) by lia.
    replace (n + length tok - n) with (length tok) by lia. rewrite Hp.
    f_equal. destruct (Nat.leb_spec MIN_CUSTOM_TOKEN_BYTES (length tok)).
    + by rewrite bool_decide_true.
    + rewrite bool_decide_false by (intros [_ ?]; lia). done.
Qed.

Lemma bearer_loop_sound fuel bytes cursor :
  length bytes - cursor < fuel → cursor ≤ length bytes →
  ordered cursor (length bytes) (bearer_loop fuel bytes cursor) ∧
  ∀ m, m ∈ bearer_loop fuel bytes cursor →
    ∃ pre cred post, bytes = pre ++ cred ++ post ∧ bearer_credential pre cred post ∧
      m = mkMatch (length pre) (length (pre ++ cred)).
Proof.
  revert cursor. induction fuel as [|fuel IH]; intros cursor Hf Hc; [lia|].
  destruct (bearer_turn fuel bytes cursor Hc) as [[-> _]|(p & b & ws & tok & post & E & Hp & Hb & Hws & Htok & _ & _ & Hpost & _ & ->)].
  { split; [done|]. intros m Hm. by apply elem_of_nil in Hm. }
  pose proof (is_bearer_length _ Hb) as Hlb.
  assert (length p + 6 + length ws + length tok ≤ length bytes) as Hle by (rewrite E, !length_app; lia).
  assert (length (p ++ b ++ ws ++ tok) = length p + 6 + length ws + length tok) as Hn by (rewrite !length_app; lia).
  destruct (IH (length (p ++ b ++ ws ++ tok))) as [Ho Hin]; [lia..|]. case_bool_decide as Hm.
  - split.
    + cbn [app ordered m_start m_end]. split_and!; [lia..|done].
    + intros m [->|Hm']%elem_of_cons; [|by apply Hin]. exists p, (b ++ ws ++ tok), post. split_and!; [|exists b, ws, tok|done].
      * by rewrite E, <- !app_assoc.
      * split_and!; try done; [apply Hm..|apply Hpost, Hm].
  - cbn [app]. split; [eapply ordered_mono; [exact Ho|lia|lia]|exact Hin].
Qed.

Lemma is_bearer_lookup b k x : is_bearer b → b !! k = Some x → bearer !! k = Some (to_lower x).
Proof. intros <- Hx. unfold to_ascii_lowercase. by rewrite list_lookup_fmap, Hx. Qed.

Lemma bearer_head_only x : to_lower x = x62 → is_ascii_whitespace x = false.
Proof. by destruct x. Qed.

(** A credential's first byte lies in an earlier word or its white space only
    if it lies in its token. *)
Lemma no_overlap q b ws tok post b' rest :
  q ++ b' ++ rest = b ++ ws ++ tok ++ post → is_bearer b → is_bearer b' → q ≠ [] →
  Forall (λ x, is_ascii_whitespace x = true) ws → Forall (λ x, bearer_token_byte x = true) tok →
  (ws = [] → tok = []) → length q < length (b ++ ws ++ tok) →
  ∃ t, q = b ++ ws ++ t ∧ ws ≠ [] ∧ Forall (λ x, bearer_token_byte x = true) t.
Proof.
  intros E Hb Hb' Hq Hws Htok Hwt Hlen. pose proof (is_bearer_length _ Hb) as Hlb.
  destruct b' as [|x b']; [by apply is_bearer_length in Hb'|].
  assert (to_lower x = x62) as Hx.
  { pose proof (is_bearer_lookup _ 0 x Hb' eq_refl) as H. by injection H. }
  assert ((q ++ (x :: b') ++ rest) !! length q = Some x) as Hl.
  { rewrite lookup_app_r by done. by rewrite Nat.sub_diag. }
  rewrite E in Hl. destruct (decide (length q < 6)) as [Hq6|Hq6].
  { exfalso. rewrite lookup_app_l in Hl by lia. apply (is_bearer_lookup _ _ _ Hb) in Hl. rewrite Hx in Hl.
    destruct q as [|? [|? [|? [|? [|? [|]]]]]]; try done; cbn in Hq6; lia. }
  rewrite lookup_app_r in Hl by lia. destruct (decide (length q - length b < length ws)) as [Hqw|Hqw].
  { exfalso. rewrite lookup_app_l in Hl by done. rewrite Forall_lookup in Hws. apply Hws in Hl.
    by rewrite bearer_head_only in Hl. }
  assert (ws ≠ []) as Hne.
  { intros ->. rewrite (Hwt eq_refl) in Hlen. rewrite !app_nil_r in Hlen. lia. }
  rewrite !length_app in Hlen. exists (take (length q - length b - length ws) tok).
  assert (q = take (length q) (b ++ ws ++ tok ++ post)) as Et by (rewrite <- E; by rewrite take_app_length).
  split_and!; [|done|by apply Forall_take].
  rewrite Et at 1. rewrite take_app_ge by lia. f_equal. rewrite take_app_ge by lia. f_equal. by rewrite take_app_le by lia.
Qed.

Lemma split_unique (P : byte → Prop) a b a' b' :
  a ++ b = a' ++ b' → Forall P a → Forall P a' → (∀ x, head b = Some x → ¬ P x) → (∀ x, head b' = Some x → ¬ P x) →
  a = a' ∧ b = b'.
Proof.
  revert a'. induction a as [|x a IH]; intros [|y a']; cbn; intros E Ha Ha' Hb Hb'.
  - done.
  - exfalso. subst. inversion Ha'; subst. by apply (Hb y).
  - exfalso. subst. inversion Ha; subst. by apply (Hb' x).
  - injection E as -> E. inversion Ha; inversion Ha'; subst. destruct (IH a') as [-> ->]; done.
Qed.

Lemma bearer_loop_complete fuel bytes cursor pre cred post :
  bytes = pre ++ cred ++ post → bearer_credential pre cred post → ¬ in_token pre →
  cursor ≤ length pre → length bytes - cursor < fuel →
  mkMatch (length pre) (length (pre ++ cred)) ∈ bearer_loop fuel bytes cursor.
Proof.
  intros E (b & ws & tok & -> & Hb & Hne & Hws & Htok & H12 & Hpost) Hpre. pose proof (is_bearer_length _ Hb) as Hlb.
  revert cursor. induction fuel as [|fuel IH]; intros cursor Hc Hf; [lia|].
  assert (bearer_at ((b ++ ws ++ tok) ++ post) = true) as Hat by (apply bearer_at_spec; exists b; rewrite <- app_assoc; eauto).
  assert (length pre ≤ length bytes) by (rewrite E, length_app; lia).
  destruct (bearer_turn fuel bytes cursor) as [[_ Hnone]|(p & b1 & ws1 & tok1 & post1 & E1 & Hp & Hb1 & Hws1 & Htok1 & Hwt & Hsp1 & Hpost1 & Hfst & ->)]; [lia|..].
  { specialize (Hnone _ _ E Hat). lia. }
  pose proof (is_bearer_length _ Hb1) as Hlb1.
  destruct (Hfst _ _ E Hat) as [|Hle]; [lia|].
  destruct (decide (length p = length pre)) as [Heq|Hneq].
  - rewrite E1 in E. apply app_inj_1 in E as [-> E]; [|done]. rewrite <- app_assoc in E.
    apply app_inj_1 in E as [-> E]; [|lia]. rewrite <- app_assoc in E.
    apply (split_unique (λ x, is_ascii_whitespace x = true)) in E as [-> E]; try done.
    2:{ intros x Hx. by rewrite (Hsp1 x Hx). }
    2:{ destruct tok as [|y tok]; [unfold MIN_CUSTOM_TOKEN_BYTES in H12; cbn in H12; lia|]. intros x [= <-]. apply Forall_cons in Htok as [Hy _]. by rewrite token_not_space. }
    apply (split_unique (λ x, bearer_token_byte x = true)) in E as [-> ->]; try done.
    2:{ intros x Hx. by rewrite (Hpost1 Hne x Hx). }
    2:{ intros x Hx. by rewrite (Hpost x Hx). }
    rewrite bool_decide_true by done. left.
  - apply elem_of_app. right. apply IH; [|rewrite E1, !length_app; rewrite E1, !length_app in Hf; lia].
    destruct (decide (length (p ++ b1 ++ ws1 ++ tok1) ≤ length pre)) as [|Hgt]; [done|exfalso]. apply Hpre.
    assert (pre = p ++ drop (length p) pre) as Epre.
    { assert (take (length p) pre = p) as <-; [|by rewrite length_take, Nat.min_l, take_drop by lia].
      assert (take (length p) bytes = p) as Hbp by (rewrite E1; apply take_app_length). rewrite <- Hbp at 2.
      by rewrite E, take_app_le by lia. }
    set (q := drop (length p) pre) in *. assert (length q = length pre - length p) as Hlq by (unfold q; by rewrite length_drop).
    rewrite Epre, <- !app_assoc in E. rewrite E1 in E. apply (inj (app p)) in E.
    destruct (no_overlap q b1 ws1 tok1 post1 b (ws ++ tok ++ post)) as (t & Hq & Hw1 & Ht); try done.
    + intros Hq. rewrite Hq in Hlq. cbn in Hlq. lia.
    + rewrite !length_app in Hgt. rewrite !length_app. lia.
    + exists p, b1, ws1, t. rewrite Epre, Hq. done.
Qed.

(** ** Properties *)

(** Scrubbing replaces exactly the matches.  Every body is scrubbed
    without a panic: it is cut into its maximal valid UTF-8 runs, the broken
    bytes between them included in no scan, each run is scanned on its own,
    and the result is the body with every match replaced by the placeholder,
    every other byte kept in place.  Without a match, or under a disabled
    policy, the body is returned unchanged. *)
Theorem redact_body_exact (find : ScanMode → str → list Match) (mode : ScanMode) (body : str) :
  (∀ mode s, ordered 0 (length s) (find mode s)) →
  ∃ out runs, redact_body_with find body mode = Some out ∧ text_runs 0 body runs ∧
    replaced 0 body (runs ≫= run_matches find mode) out ∧
    (runs ≫= run_matches find mode = [] → out = body) ∧
    policy_redact_body find RedactionPolicy_disabled body = Some body.
Proof.
  intros Hfind. destruct (body_matches_runs find Hfind (length body) mode body 0) as (Ho & runs & Hr & Hm); [lia..|].
  rewrite drop_0 in Hr. destruct (scrub_replaced body 0 _ ltac:(lia) Ho) as (out & Hs & Hrep). rewrite drop_0 in Hrep.
  unfold redact_body_with, body_matches. rewrite Hm in *. destruct (runs ≫= run_matches find mode) as [|m ms] eqn:E.
  - exists body, runs. rewrite E. split_and!; try done. constructor.
  - exists out, runs. rewrite E. split_and!; done.
Qed.

(** The bearer detector finds credentials and nothing else.  Its matches
    are in order and disjoint; each is the word [bearer] in any case, white
    space and a maximal token of at least 12 bytes; and every such credential
    of the text is matched, whole, unless it begins inside the token of an
    earlier occurrence of the word. *)
Theorem bearer_tokens_detected (input : str) :
  ordered 0 (length input) (detect_bearer_tokens input) ∧
  (∀ m, m ∈ detect_bearer_tokens input →
     ∃ pre cred post, input = pre ++ cred ++ post ∧ bearer_credential pre cred post ∧
       m = mkMatch (length pre) (length (pre ++ cred))) ∧
  (∀ pre cred post, input = pre ++ cred ++ post → bearer_credential pre cred post → ¬ in_token pre →
     mkMatch (length pre) (length (pre ++ cred)) ∈ detect_bearer_tokens input).
Proof.
  destruct (bearer_loop_sound (S (length input)) input 0) as [H1 H2]; [lia..|]. split_and!; [done..|].
  intros pre cred post E Hc Hp. unfold detect_bearer_tokens. eapply bearer_loop_complete; [exact E|done..|lia|lia].
Qed.

(** A credential right after another occurrence of the word is read as that
    one's token, and when the word is too short to be a token neither is
    matched; a token whose prefix follows [hil_] in a word of its own is
    skipped with it. *)
Lemma detectors_skip :
  bearer_credential (bs "Bearer ") (bs "bearer abcdefghijkl") [] ∧
  detect_bearer_tokens (bs "Bearer bearer abcdefghijkl") = [] ∧
  detect_hiloop_tokens (bs "-hil_0123456789ab") = [mkMatch 1 17] ∧
  detect_hiloop_tokens (bs "xhil_-hil_0123456789ab") = [].
Proof.
  split_and!; [|vm_compute; reflexivity..].
  exists (bs "bearer"), (bs " "), (bs "abcdefghijkl"). split_and!; try done; by repeat constructor.
Qed.

(** *** Witness: the bearer detector as the scanner *)

Lemma redact_body_exact_witness :
  ∃ runs, text_runs 0 (bs "auth: Bearer abcdefghijkl" ++ [xff; x2e]) runs ∧
    replaced 0 (bs "auth: Bearer abcdefghijkl" ++ [xff; x2e]) (runs ≫= run_matches (λ _, detect_bearer_tokens) Serial)
      (bs "auth: [REDACTED]" ++ [xff; x2e]).
Proof.
  destruct (redact_body_exact (λ _, detect_bearer_tokens) Serial (bs "auth: Bearer abcdefghijkl" ++ [xff; x2e]))
    as (out & runs & Ho & Hr & Hrep & _).
  { intros _ s. apply (bearer_loop_sound (S (length s)) s 0); lia. }
  exists runs. split; [exact Hr|].
  assert (redact_body_with (λ _, detect_bearer_tokens) (bs "auth: Bearer abcdefghijkl" ++ [xff; x2e]) Serial
          = Some (bs "auth: [REDACTED]" ++ [xff; x2e])) as E by (vm_compute; reflexivity).
  rewrite E in Ho. injection Ho as <-. exact Hrep.
Defined.

Lemma bearer_tokens_detected_witness :
  mkMatch 6 25 ∈ detect_bearer_tokens (bs "auth: Bearer abcdefghijkl;").
Proof.
  destruct (bearer_tokens_detected (bs "auth: Bearer abcdefghijkl;")) as (_ & _ & H).
  apply (H (bs "auth: ") (bs "Bearer abcdefghijkl") (bs ";")); [reflexivity|..].
  - exists (bs "Bearer"), (bs " "), (bs "abcdefghijkl"). split_and!; try done; try (by repeat constructor).
    by intros x [= <-].
  - intros (p & b & ws & t & E & Hb & Hne & _). apply is_bearer_length in Hb. apply (f_equal length) in E.
    rewrite !length_app, Hb in E. change (length (bs "auth: ")) with 6 in E. destruct ws; [done|]. cbn [length] in E. lia.
Defined.
