(* ===== verification/Relay.v ===== *)
(** * The fixed secret-egress relay (crates/hiloop-interceptor/src/relay.rs)

    A run may bind exact HTTPS hosts to one relay: their requests leave only
    through it, over HTTPS on port 443, carrying a proof read from a file; no
    other request carries one.  The http crate's header map and values, the
    TLS identities and certificates and the proof file's metadata are
    interfaces; the TLS connectors themselves are not modelled. *)
From Stdlib Require Import Strings.Byte.
From S2P Require Import Prelude Text Net Egress.

Definition SECRET_PROOF_HEADER : str := bs "x-hiloop-secret-proof".
Definition HILOOP_PRIVATE_HEADER_PREFIX : str := bs "x-hiloop-".
Definition SEC_WEBSOCKET_KEY_HEADER : str := bs "sec-websocket-key".
Definition SEC_WEBSOCKET_VERSION_HEADER : str := bs "sec-websocket-version".
Definition MAX_PROOF_BYTES : nat := 16 * 1024.
Definition PROOF_IO_TIMEOUT_SECS : Z := 1.
Definition RELAY_CONNECT_TLS_TIMEOUT_SECS : Z := 3.
Definition HOST : str := bs "host".
Definition AUTHORIZATION : str := bs "authorization".
Definition UPGRADE : str := bs "upgrade".
Definition CONNECTION : str := bs "connection".

(** ** Interfaces *)

(** [http::HeaderMap] by lowercase name: all the values of a name, and the
    names present. *)
Class HeaderLib (H : Type) := {
  get_all : H → str → list str;
  keys : H → list str;
  remove : H → str → H;
  insert : H → str → str → H;
  to_str : str → option str;  (* [HeaderValue::to_str] *)
  header_value : str → bool;  (* [HeaderValue::from_bytes] accepts *)
}.
Class HeaderLaws (H : Type) {HL : HeaderLib H} : Prop := {
  keys_spec : ∀ h n, n ∈ keys h ↔ get_all h n ≠ [];
  get_remove : ∀ h n m, get_all (remove h n) m = if bool_decide (m = n) then [] else get_all h m;
  get_insert : ∀ h n v m, get_all (insert h n v) m = if bool_decide (m = n) then [v] else get_all h m;
}.

(** [x509_parser]: what a certificate that parses says. *)
Record X509 := mkX509 { cert_is_ca : bool; cert_key_usage : result unit (option bool) }.

(** What opening the proof file gives: an error (also a file that is not
    regular, or a timeout), or its content. *)
Definition proof_file := option str.

Inductive RelayConfigError :=
| Selector (value : str) | Endpoint | ServerName (value : str) | TrustAnchors | ProofPath | EmptySelectors
| DuplicateSelector (host : str) | Tls.
Inductive RelayProofError := ProofErrorUnavailable | ProofErrorInvalid.
Inductive RelayRoute := Direct | Bound | Denied.
#[export] Instance relay_route_eq_dec : EqDecision RelayRoute.
Proof. solve_decision. Defined.
Inductive SecretEgressDenial :=
| NestedConnect | InvalidConnectAuthority | AmbiguousAuthority | InvalidDestination | AuthorityOrProtocolMismatch
| ProofUnavailable.
Definition denial_as_str (d : SecretEgressDenial) : str :=
  match d with
  | NestedConnect => bs "nested_connect"
  | InvalidConnectAuthority => bs "invalid_connect_authority"
  | AmbiguousAuthority => bs "ambiguous_authority"
  | InvalidDestination => bs "invalid_destination"
  | AuthorityOrProtocolMismatch => bs "authority_or_protocol_mismatch"
  | ProofUnavailable => bs "proof_unavailable"
  end.
Definition proof_unavailable (d : SecretEgressDenial) : bool := match d with ProofUnavailable => true | _ => false end.

Section relay.
Context {L : UrlLib} {H : Type} {HL : HeaderLib H}.
Context (parse_x509 : str → option X509) (server_name_ok is_absolute : str → bool).

(** ** Selectors *)

Definition BoundHttpsSelector_new (host : str) : result RelayConfigError str :=
  match canonicalize_host host with
  | Err _ => Err (Selector host)
  | Ok d =>
      match dest_host d, dest_port d with
      | Domain name, None =>
          if contains_byte x2e name && negb (contains_byte x2a name) then Ok name else Err (Selector host)
      | _, _ => Err (Selector host)
      end
  end.

(** ** Configuration *)

Definition is_ca_certificate (anchor : str) : bool :=
  match parse_x509 anchor with
  | None => false
  | Some cert =>
      let key_cert_sign := match cert_key_usage cert with Ok (Some sign) => sign | Ok None => true | Err _ => false end in
      cert_is_ca cert && key_cert_sign
  end.

Record FixedTlsRelayConfig := mkRelay {
  endpoint_ip : IpAddr; endpoint_port : Z; server_name : str; trust_anchors : list str; proof_path : str;
  selectors : gset str; bound_port : Z }.

Fixpoint collect_selectors (exact : gset str) (hosts : list str) : result RelayConfigError (gset str) :=
  match hosts with
  | [] => Ok exact
  | host :: hosts =>
      if bool_decide (host ∈ exact) then Err (DuplicateSelector host) else collect_selectors ({[host]} ∪ exact) hosts
  end.

Definition FixedTlsRelayConfig_new (ip : IpAddr) (port : Z) (name : str) (anchors : list str) (proof : str)
    (hosts : list str) : result RelayConfigError FixedTlsRelayConfig :=
  if (port =? 0)%Z then Err Endpoint
  else if negb (server_name_ok name) then Err (ServerName name)
  else if bool_decide (anchors = []) || existsb (λ c, negb (is_ca_certificate c)) anchors then Err TrustAnchors
  else if negb (is_absolute proof) then Err ProofPath
  else
    exact ← collect_selectors ∅ hosts;
    if bool_decide (exact = ∅) then Err EmptySelectors
    else Ok (mkRelay ip port name anchors proof exact 443).

(** ** Routing *)

Section config.
Context (c : FixedTlsRelayConfig).

Definition contains_host (host : CanonicalHost) : bool :=
  match host with Domain name => bool_decide (name ∈ selectors c) | Ip _ => false end.

Definition route_destination (scheme : option str) (d : Destination) : RelayRoute :=
  if negb (contains_host (dest_host d)) then Direct
  else if bool_decide (scheme = Some (bs "https")) && (default 443 (dest_port d) =? bound_port c)%Z then Bound
  else Denied.

Definition route_connect (d : Destination) : RelayRoute :=
  if negb (contains_host (dest_host d)) then Direct
  else if bool_decide (dest_port d = Some (bound_port c)) then Bound
  else Denied.

Record request := mkRequest { req_scheme : option str; req_authority : option str; req_headers : H }.

Definition route_uri (scheme authority : option str) : RelayRoute :=
  match authority with
  | None => Direct
  | Some authority =>
      match canonicalize_host authority with
      | Err _ => Direct
      | Ok d => route_destination scheme d
      end
  end.

(** [RelayRoutingConnector::call]: the connection a request's URI gets. *)
Inductive Connection := ConnectDirect | ConnectRelay | ConnectRefused.
Definition connector_call (scheme authority : option str) : Connection :=
  match route_uri scheme authority with Bound => ConnectRelay | Denied => ConnectRefused | Direct => ConnectDirect end.

(** ** The proof *)

Fixpoint strip_line_ends (rev : str) : str :=
  match rev with
  | b :: rest => if byte_is x0d b || byte_is x0a b then strip_line_ends rest else rev
  | [] => []
  end.

Definition read_proof (file : proof_file) : result RelayProofError str :=
  match file with
  | None => Err ProofErrorUnavailable
  | Some content =>
      let bytes := take (MAX_PROOF_BYTES + 1) content in
      let bytes := reverse (strip_line_ends (reverse bytes)) in
      if bool_decide (bytes = []) || Nat.ltb MAX_PROOF_BYTES (length bytes) then Err ProofErrorInvalid
      else if header_value bytes then Ok bytes else Err ProofErrorInvalid
  end.

(** ** Requests *)

Definition request_mentions_bound_host (r : request) : bool :=
  existsb (λ value,
    match to_str value with
    | None => false
    | Some host => match canonicalize_host host with Ok d => contains_host (dest_host d) | Err _ => false end
    end) (get_all (req_headers r) HOST).

Definition header_authority_mismatch (r : request) (d : Destination) : bool :=
  match get_all (req_headers r) HOST with
  | [] => false
  | _ :: _ :: _ => true
  | [host] =>
      match to_str host with
      | None => true
      | Some host =>
          match canonicalize_host host with
          | Err _ => true
          | Ok header_destination =>
              negb (bool_decide (dest_host header_destination = dest_host d))
              || negb (default 443 (dest_port header_destination) =? 443)%Z
          end
      end
  end.

Definition request_has_ambiguous_authority (r : request) (d : Destination) : bool :=
  if negb (bool_decide (req_scheme r = Some (bs "https"))) || bool_decide (req_authority r = None) then true
  else header_authority_mismatch r d.
Definition connect_has_ambiguous_authority (r : request) (d : Destination) : bool := header_authority_mismatch r d.

Definition contains_key (h : H) (name : str) : bool := negb (bool_decide (get_all h name = [])).

Definition is_websocket_request (r : request) : bool :=
  contains_key (req_headers r) UPGRADE || contains_key (req_headers r) SEC_WEBSOCKET_KEY_HEADER
  || contains_key (req_headers r) SEC_WEBSOCKET_VERSION_HEADER
  || existsb (λ value,
       match to_str value with
       | None => false
       | Some value => existsb (λ token, eq_ignore_ascii_case (trim token) (bs "upgrade")) (split_on (byte_is x2c) value)
       end) (get_all (req_headers r) CONNECTION).

Definition scrub_private_headers (headers : H) : H :=
  let headers := remove headers AUTHORIZATION in
  fold_left remove (filter (λ name, starts_with HILOOP_PRIVATE_HEADER_PREFIX name = true) (keys headers)) headers.

Definition prepare_request (r : request) (connect_destination : option Destination) (d : Destination) (file : proof_file)
    : request * result SecretEgressDenial unit :=
  if match connect_destination with None => true | Some connect => negb (bool_decide (route_connect connect = Bound)) end
     || request_has_ambiguous_authority r d || is_websocket_request r
  then (r, Err AuthorityOrProtocolMismatch)
  else match read_proof file with
       | Err _ => (r, Err ProofUnavailable)
       | Ok proof =>
           (mkRequest (req_scheme r) (req_authority r)
              (insert (scrub_private_headers (req_headers r)) SECRET_PROOF_HEADER proof), Ok ())
       end.

(** One frame of the body: data as it is, trailers scrubbed. *)
Inductive body_frame := Data (bytes : str) | Trailers (headers : H).
Definition scrub_private_trailers (body : list body_frame) : list body_frame :=
  (λ f, match f with Trailers t => Trailers (scrub_private_headers t) | Data b => Data b end) <$> body.

End config.
End relay.

(** ** Lemmas *)

Lemma collect_selectors_spec exact hosts s :
  collect_selectors exact hosts = Ok s ↔
  s = exact ∪ list_to_set hosts ∧ NoDup hosts ∧ ∀ x, x ∈ hosts → x ∉ exact.
Proof.
  revert exact. induction hosts as [|x hosts IH]; intros exact; cbn [collect_selectors list_to_set].
  { split; [intros [= <-]|intros (-> & _)]; [|f_equal; set_solver]. split; [set_solver|]. split; [constructor|set_solver]. }
  case_bool_decide as Hx.
  - split; [done|]. intros (_ & _ & Hall). destruct (Hall x); [by left|done].
  - rewrite IH, NoDup_cons. split.
    + intros (-> & Hnd & Hall). split; [set_solver|]. split; [|set_solver]. split; [|done]. set_solver.
    + intros (-> & [Hni Hnd] & Hall). split; [set_solver|]. split; [done|]. set_solver.
Qed.
Section lemmas.
Context {L : UrlLib} {H : Type} {HL : HeaderLib H} {HW : HeaderLaws H}.
Implicit Types (h : H) (c : FixedTlsRelayConfig).

Lemma get_fold_remove h names n :
  get_all (fold_left remove names h) n = if bool_decide (n ∈ names) then [] else get_all h n.
Proof.
  revert h. induction names as [|m names IH]; intros h; cbn [fold_left].
  { by rewrite bool_decide_false by (by intros ?%elem_of_nil). }
  rewrite IH, get_remove. destruct (decide (n ∈ names)) as [Hn|Hn].
  - rewrite !bool_decide_true; [done|by right|done].
  - rewrite (bool_decide_false (n ∈ names)) by done.
    destruct (decide (n = m)) as [->|Hnm].
    + rewrite !bool_decide_true; [done|by left|done].
    + rewrite !bool_decide_false; [done|by intros [?|?]%elem_of_cons|done].
Qed.

Definition private (name : str) : bool :=
  bool_decide (name = AUTHORIZATION) || starts_with HILOOP_PRIVATE_HEADER_PREFIX name.

Lemma get_scrubbed h n : get_all (scrub_private_headers h) n = if private n then [] else get_all h n.
Proof.
  unfold scrub_private_headers, private. rewrite get_fold_remove.
  destruct (decide (n = AUTHORIZATION)) as [->|Hn].
  { rewrite (bool_decide_true (AUTHORIZATION = AUTHORIZATION)) by done. cbn. case_bool_decide; [done|].
    rewrite get_remove, bool_decide_true by done. done. }
  rewrite (bool_decide_false (n = AUTHORIZATION)) by done. cbn. rewrite get_remove, (bool_decide_false (n = AUTHORIZATION)) by done.
  destruct (starts_with HILOOP_PRIVATE_HEADER_PREFIX n) eqn:Ep.
  - case_bool_decide as Hk; [done|]. destruct (get_all h n) as [|v vs] eqn:Eg; [done|]. destruct Hk.
    apply list_elem_of_filter. split; [done|]. apply keys_spec. rewrite get_remove, bool_decide_false by done. by rewrite Eg.
  - rewrite bool_decide_false; [done|]. intros [Hk _]%list_elem_of_filter. congruence.
Qed.

Lemma strip_line_ends_spec s :
  ∃ e, s = e ++ strip_line_ends s ∧ Forall (λ b, b = x0d ∨ b = x0a) e ∧
    ∀ b, head (strip_line_ends s) = Some b → b ≠ x0d ∧ b ≠ x0a.
Proof.
  induction s as [|b s (e & E & He & Hh)]; cbn; [by exists []|].
  destruct (byte_is x0d b || byte_is x0a b) eqn:Eb.
  - exists (b :: e). cbn. rewrite <- E. split_and!; [done| |done]. constructor; [|done].
    apply orb_true_iff in Eb as [?%byte_is_true|?%byte_is_true]; auto.
  - exists []. split_and!; [done..|]. intros b' [= <-]. by apply orb_false_iff in Eb as [?%byte_is_false ?%byte_is_false].
Qed.

Lemma read_proof_Ok file proof :
  read_proof file = Ok proof →
  ∃ content ends, file = Some content ∧ take (MAX_PROOF_BYTES + 1) content = proof ++ ends ∧
    Forall (λ b, b = x0d ∨ b = x0a) ends ∧ (∀ b, last proof = Some b → b ≠ x0d ∧ b ≠ x0a) ∧
    0 < length proof ≤ MAX_PROOF_BYTES ∧ header_value proof = true.
Proof.
  unfold read_proof. destruct file as [content|]; [|done]. set (bytes := take _ content).
  destruct (strip_line_ends_spec (reverse bytes)) as (e & E & He & Hh). set (p := reverse (strip_line_ends (reverse bytes))).
  destruct (bool_decide (p = []) || Nat.ltb MAX_PROOF_BYTES (length p)) eqn:Eb; [done|].
  apply orb_false_iff in Eb as [Hne%bool_decide_eq_false Hlt%Nat.ltb_ge]. destruct (header_value p) eqn:Ev; [|done]. intros [= <-].
  exists content, (reverse e). split_and!; try done.
  - fold bytes. apply (f_equal reverse) in E. by rewrite reverse_involutive, reverse_app in E.
  - by apply Forall_reverse.
  - intros b Hb. apply Hh. rewrite <- Hb. unfold p. by rewrite last_reverse.
  - destruct p; [done|cbn; lia].
Qed.
End lemmas.

(** ** Properties *)

(** What makes a request one the proof may be given to: its CONNECT was routed
    to the relay, its scheme is https with an authority, it has at most one Host
    header and that names the destination on port 443, and it is no WebSocket
    upgrade. *)
Definition proof_allowed {L : UrlLib} {H : Type} {HL : HeaderLib H} (c : FixedTlsRelayConfig) (r : request)
    (connect_destination : option Destination) (d : Destination) : Prop :=
  (∃ connect, connect_destination = Some connect ∧ route_connect c connect = Bound) ∧
  req_scheme r = Some (bs "https") ∧ req_authority r ≠ None ∧
  (get_all (req_headers r) HOST = [] ∨
   ∃ value host hd, get_all (req_headers r) HOST = [value] ∧ to_str value = Some host ∧
     canonicalize_host host = Ok hd ∧ dest_host hd = dest_host d ∧ default 443%Z (dest_port hd) = 443%Z) ∧
  is_websocket_request r = false.

Lemma host_named {L : UrlLib} {H : Type} {HL : HeaderLib H} (r : request) (d : Destination) :
  header_authority_mismatch r d = false ↔
  get_all (req_headers r) HOST = [] ∨
  ∃ value host hd, get_all (req_headers r) HOST = [value] ∧ to_str value = Some host ∧
    canonicalize_host host = Ok hd ∧ dest_host hd = dest_host d ∧ default 443%Z (dest_port hd) = 443%Z.
Proof.
  unfold header_authority_mismatch. destruct (get_all (req_headers r) HOST) as [|value [|v' l]]; [by split; [left|]| |].
  - destruct (to_str value) as [host|] eqn:Et; [|by split; [|intros [[=]|(v & h & hd' & [= <-] & Hv & Hh & _)]; congruence]].
    destruct (canonicalize_host host) as [hd|] eqn:Ec; [|by split; [|intros [[=]|(v & h & hd' & [= <-] & Hv & Hh & _)]; congruence]].
    rewrite orb_false_iff, !negb_false_iff, bool_decide_eq_true, Z.eqb_eq. split; [intros [? ?]; right; by exists value, host, hd|].
    intros [[=]|(v & h & hd' & [= ->] & Hv & Hh & ? & ?)]. assert (host = h) as -> by congruence. assert (hd = hd') as -> by congruence. done.
  - by split; [|intros [[=]|(v & h & hd' & [=] & _)]].
Qed.
Lemma proof_allowed_guard {L : UrlLib} {H : Type} {HL : HeaderLib H} (c : FixedTlsRelayConfig) (r : request) connect_destination d :
  proof_allowed c r connect_destination d ↔
  match connect_destination with None => true | Some connect => negb (bool_decide (route_connect c connect = Bound)) end
  || request_has_ambiguous_authority r d || is_websocket_request r = false.
Proof.
  unfold proof_allowed, request_has_ambiguous_authority. rewrite !orb_false_iff.
  assert ((∃ connect, connect_destination = Some connect ∧ route_connect c connect = Bound) ↔
    match connect_destination with None => true | Some connect => negb (bool_decide (route_connect c connect = Bound)) end = false) as <-.
  { destruct connect_destination as [x|]; [|split; [naive_solver|done]]. rewrite negb_false_iff, bool_decide_eq_true. naive_solver. }
  rewrite <- host_named. destruct (negb (bool_decide (req_scheme r = Some (bs "https"))) || bool_decide (req_authority r = None)) eqn:Ea.
  - split; [|by intros [[_ [=]] _]]. intros (_ & Hs & Ha & _). rewrite bool_decide_true, bool_decide_false in Ea by done. discriminate.
  - apply orb_false_iff in Ea as [?%negb_false_iff%bool_decide_eq_true ?%bool_decide_eq_false]. naive_solver.
Qed.

(** C38: a proof leaves only on a bound, unambiguous HTTPS request.  A request
    is prepared exactly when the proof may be given to it and the proof file was
    valid; then the request carries exactly this proof, no authorization and
    no other private header, and every other header, its scheme and its
    authority unchanged.  Otherwise the request is left as it was, and it is
    denied: for a mismatch of authority or protocol exactly when the proof may
    not be given to it, and for an unavailable proof exactly when it may and
    only the file was not valid. *)
Theorem prepare_request_guarded {L : UrlLib} {H : Type} {HL : HeaderLib H} {HW : HeaderLaws H}
    (c : FixedTlsRelayConfig) (r : request) (connect_destination : option Destination) (d : Destination) (file : proof_file) :
  let '(r', res) := prepare_request c r connect_destination d file in
  match res with
  | Ok _ =>
      proof_allowed c r connect_destination d ∧
      ∃ proof, read_proof file = Ok proof ∧
        req_scheme r' = req_scheme r ∧ req_authority r' = req_authority r ∧
        get_all (req_headers r') SECRET_PROOF_HEADER = [proof] ∧
        ∀ n, n ≠ SECRET_PROOF_HEADER → get_all (req_headers r') n = if private n then [] else get_all (req_headers r) n
  | Err AuthorityOrProtocolMismatch => r' = r ∧ ¬ proof_allowed c r connect_destination d
  | Err ProofUnavailable => r' = r ∧ proof_allowed c r connect_destination d ∧ ∀ proof, read_proof file ≠ Ok proof
  | Err _ => False
  end.
Proof.
  pose proof (proof_allowed_guard c r connect_destination d) as Hg. unfold prepare_request.
  destruct (match connect_destination with None => true | Some _ => _ end || _ || _); [by split; [|intros ?%Hg]|].
  destruct (read_proof file) as [proof|e]; [|by split_and!; [|apply Hg|]]. split; [by apply Hg|]. exists proof. split_and!; try done; cbn.
  - by rewrite get_insert, bool_decide_true.
  - intros n Hn. rewrite get_insert, bool_decide_false by done. apply get_scrubbed.
Qed.

(** The relay is closed.  A configuration is accepted exactly when its
    endpoint port, server name, certificates, proof path and set of distinct
    selectors are valid; then an https request to a selected host on port 443
    goes to the relay, any other request to it is refused, none goes direct,
    and every other host goes direct; a selector covers its host in any letter
    case. *)
Theorem relay_routing_exact {L : UrlLib} (parse_x509 : str → option X509) (server_name_ok is_absolute : str → bool)
    (ip : IpAddr) (port : Z) (name : str) (anchors : list str) (proof : str) (hosts : list str) :
  (is_ok (FixedTlsRelayConfig_new parse_x509 server_name_ok is_absolute ip port name anchors proof hosts) = true ↔
     port ≠ 0%Z ∧ server_name_ok name = true ∧ anchors ≠ [] ∧
     Forall (λ a, is_ca_certificate parse_x509 a = true) anchors ∧ is_absolute proof = true ∧ hosts ≠ [] ∧ NoDup hosts) ∧
  ∀ c, FixedTlsRelayConfig_new parse_x509 server_name_ok is_absolute ip port name anchors proof hosts = Ok c →
    (∀ d scheme,
       (∀ h, dest_host d = Domain h → h ∉ hosts → route_destination c scheme d = Direct ∧ route_connect c d = Direct) ∧
       (∀ h, dest_host d = Domain h → h ∈ hosts →
          (route_destination c scheme d = if bool_decide (scheme = Some (bs "https") ∧ default 443%Z (dest_port d) = 443%Z)
                                          then Bound else Denied) ∧
          (route_connect c d = if bool_decide (dest_port d = Some 443%Z) then Bound else Denied))) ∧
    (∀ host h authority scheme d, BoundHttpsSelector_new host = Ok h → h ∈ hosts →
       eq_ignore_ascii_case authority host = true → canonicalize_host authority = Ok d →
       connector_call c scheme (Some authority) ≠ ConnectDirect).
Proof.
  unfold FixedTlsRelayConfig_new. destruct (Z.eqb_spec port 0) as [->|Hport]; [split; [split; [done|tauto]|done]|].
  destruct (server_name_ok name) eqn:Es; cbn [negb]; [|split; [split; [done|naive_solver]|done]].
  assert (existsb (λ c, negb (is_ca_certificate parse_x509 c)) anchors = false ↔ Forall (λ a, is_ca_certificate parse_x509 a = true) anchors) as Hca.
  { induction anchors as [|a l IH]; cbn; [done|]. rewrite orb_false_iff, negb_false_iff, Forall_cons, IH. done. }
  destruct (bool_decide (anchors = []) || _) eqn:Ea.
  { split; [split; [done|]|done]. intros (_ & _ & Hne & Hall & _). apply Hca in Hall. rewrite Hall, orb_false_r in Ea.
    by apply bool_decide_eq_true in Ea. }
  apply orb_false_iff in Ea as [Hne%bool_decide_eq_false Hall%Hca].
  destruct (is_absolute proof) eqn:Ep; cbn [negb]; [|split; [split; [done|naive_solver]|done]].
  destruct (collect_selectors ∅ hosts) as [exact|e] eqn:Ec; cbn.
  2:{ split; [split; [done|]|done]. intros (_ & _ & _ & _ & _ & _ & Hnd).
      assert (collect_selectors ∅ hosts = Ok (∅ ∪ list_to_set hosts)) as E; [|congruence]. apply collect_selectors_spec.
      split; [done|]. split; [done|set_solver]. }
  apply collect_selectors_spec in Ec as (-> & Hnd & _).
  case_bool_decide as He.
  { split; [split; [done|]|done]. intros (_ & _ & _ & _ & _ & Hh & _). destruct hosts as [|x hosts]; [done|]. set_solver. }
  split; [split; [|done]|].
  { intros _. split_and!; try done. intros ->. apply He. set_solver. }
  intros c [= <-].
  assert (∀ d, (∀ h, dest_host d = Domain h → h ∉ hosts →
      contains_host (mkRelay ip port name anchors proof (∅ ∪ list_to_set hosts) 443) (dest_host d) = false) ∧
    (∀ h, dest_host d = Domain h → h ∈ hosts →
      contains_host (mkRelay ip port name anchors proof (∅ ∪ list_to_set hosts) 443) (dest_host d) = true)) as Hc.
  { intros d. split; intros h ->; cbn; [intros; apply bool_decide_eq_false|intros; apply bool_decide_eq_true]; set_solver. }
  split.
  - intros d scheme. split; intros h Hd Hin; destruct (Hc d) as [Hc1 Hc2]; unfold route_destination, route_connect.
    + by rewrite (Hc1 h Hd Hin).
    + rewrite (Hc2 h Hd Hin). cbn [negb bound_port]. split; [|done]. repeat case_bool_decide; cbn; try tauto.
      * destruct H0 as [_ ->]. done.
      * destruct (Z.eqb_spec (default 443%Z (dest_port d)) 443); [tauto|done].
  - intros host h authority scheme d Hsel Hin Hcase Hd. unfold connector_call, route_uri. rewrite Hd.
    unfold BoundHttpsSelector_new in Hsel. unfold eq_ignore_ascii_case in Hcase. apply bool_decide_eq_true in Hcase.
    rewrite <- (canonicalize_lower host), <- Hcase, canonicalize_lower, Hd in Hsel.
    destruct (dest_host d) as [h'|] eqn:Eh; [|done]. destruct (dest_port d); [done|]. destruct (_ && _); [|done].
    injection Hsel as ->. destruct (Hc d) as [_ Hc2]. unfold route_destination. rewrite Eh in Hc2 |- *. rewrite (Hc2 h eq_refl Hin).
    cbn [negb]. by destruct (_ && _).
Qed.

(** A file longer than the limit is refused only if the byte after the limit
    is no line end: here the file is cut silently. *)
Lemma read_proof_truncates {H : Type} {HL : HeaderLib H} (p rest : str) :
  length p = MAX_PROOF_BYTES → (∀ b, last p = Some b → b ≠ x0d ∧ b ≠ x0a) → header_value p = true →
  read_proof (Some (p ++ [x0a] ++ rest)) = Ok p.
Proof.
  intros Hl Hlast Hv. unfold read_proof.
  assert (take (MAX_PROOF_BYTES + 1) (p ++ [x0a] ++ rest) = p ++ [x0a]) as ->.
  { rewrite app_assoc, take_app_le, take_ge; [done|rewrite length_app; cbn [length]; lia..]. }
  rewrite reverse_snoc. cbn [strip_line_ends]. rewrite byte_is_refl, orb_true_r.
  assert (strip_line_ends (reverse p) = reverse p) as ->.
  { destruct (reverse p) as [|b q] eqn:E; [done|]. cbn. destruct (Hlast b) as [H1 H2].
    - apply (f_equal reverse) in E. rewrite reverse_involutive, reverse_cons in E. by rewrite E, last_snoc.
    - by rewrite (proj2 (byte_is_false _ _)), (proj2 (byte_is_false _ _)) by done. }
  rewrite reverse_involutive, Hv. rewrite bool_decide_false.
  - rewrite Hl, Nat.ltb_irrefl. done.
  - intros ->. done.
Qed.

(** *** Witnesses: headers as a list of fields *)

Module Fields.
Abbreviation fields := (list (str * str)).
#[export] Instance header_lib : HeaderLib fields := {
  get_all h n := snd <$> filter (λ f, f.1 = n) h;
  keys h := fst <$> h;
  remove h n := filter (λ f, f.1 ≠ n) h;
  insert h n v := filter (λ f, f.1 ≠ n) h ++ [(n, v)];
  to_str v := if forallb (λ b, byte_is x09 b || ((32 <=? bz b)%Z && (bz b <? 127)%Z)) v then Some v else None;
  header_value v := forallb (λ b, byte_is x09 b || ((32 <=? bz b)%Z && negb (bz b =? 127)%Z)) v;
}.
#[export] Instance header_laws : HeaderLaws fields.
Proof.
  assert (∀ (h : fields) n m, snd <$> filter (λ f, f.1 = m) (filter (λ f, f.1 ≠ n) h)
    = if bool_decide (m = n) then [] else snd <$> filter (λ f, f.1 = m) h) as Hrm.
  { intros h n m. rewrite list_filter_filter. case_bool_decide as E.
    - subst. induction h as [|f h IH]; [done|]. rewrite filter_cons, decide_False by tauto. done.
    - f_equal. apply list_filter_iff. intros f. split; [tauto|intros <-; by split]. }
  split; cbn; [|done|].
  - intros h n. split.
    + intros ([k v] & -> & Hin)%list_elem_of_fmap E. apply fmap_nil_inv in E.
      assert ((k, v) ∈ filter (λ f : str * str, f.1 = k) h) as Hf by (by apply list_elem_of_filter). cbn in E. rewrite E in Hf.
      by apply elem_of_nil in Hf.
    + intros Hne. destruct (filter (λ f : str * str, f.1 = n) h) as [|[k v] l] eqn:E; [done|].
      assert ((k, v) ∈ filter (λ f : str * str, f.1 = n) h) as Hf by (rewrite E; left).
      apply list_elem_of_filter in Hf as [<- Hin]. apply list_elem_of_fmap. by exists (k, v).
  - intros h n v m. rewrite filter_app, fmap_app, Hrm, filter_cons. cbn.
    case_bool_decide as Hmn; case_decide as Hd; cbn; try congruence. by rewrite app_nil_r.
Qed.
End Fields.

Section witnesses.
#[local] Existing Instances Sample.url_lib Fields.header_lib Fields.header_laws.

Definition sample_anchor (_ : str) : option X509 := Some (mkX509 true (Ok None)).
Definition sample_relay : FixedTlsRelayConfig :=
  mkRelay (V4 (mkIpv4 x0a x00 x00 x01)) 8443 (bs "relay.internal") [bs "ca"] (bs "/run/proof") {[ bs "api.example.com" ]} 443.
Definition bound_request : request := mkRequest (Some (bs "https")) (Some (bs "api.example.com"))
  [(bs "host", bs "API.example.com"); (bs "authorization", bs "Bearer x"); (bs "x-hiloop-tag", bs "t"); (bs "accept", bs "*")].
Definition bound_destination : Destination := mkDestination (Domain (bs "api.example.com")) (Some 443%Z).

Lemma prepare_request_guarded_witness :
  let r' := (prepare_request sample_relay bound_request (Some bound_destination) bound_destination (Some (bs "s3cret" ++ [x0a]))).1 in
  get_all (req_headers r') SECRET_PROOF_HEADER = [bs "s3cret"] ∧ get_all (req_headers r') AUTHORIZATION = [].
Proof.
  pose proof (prepare_request_guarded sample_relay bound_request (Some bound_destination) bound_destination
    (Some (bs "s3cret" ++ [x0a]))) as G.
  assert (is_ok (prepare_request sample_relay bound_request (Some bound_destination) bound_destination
    (Some (bs "s3cret" ++ [x0a]))).2 = true) as Hok by (vm_compute; reflexivity).
  destruct (prepare_request _ _ _ _ _) as [r' [[]|e]]; [|discriminate]. clear Hok.
  destruct G as (_ & proof & Hp & _ & _ & Hs & Hn).
  assert (read_proof (Some (bs "s3cret" ++ [x0a])) = Ok (bs "s3cret")) as E by (vm_compute; reflexivity).
  rewrite E in Hp. injection Hp as <-. cbn [fst]. split; [exact Hs|]. rewrite Hn; [reflexivity|discriminate].
Defined.

Lemma relay_routing_exact_witness :
  is_ok (FixedTlsRelayConfig_new sample_anchor (λ _, true) (λ _, true) (V4 (mkIpv4 x0a x00 x00 x01)) 8443 (bs "relay.internal")
    [bs "ca"] (bs "/run/proof") [bs "api.example.com"]) = true.
Proof.
  apply (relay_routing_exact sample_anchor (λ _, true) (λ _, true)). split_and!; try done; try (by repeat constructor).
  apply NoDup_singleton.
Defined.
End witnesses.
