(* ===== verification/Anomaly.v ===== *)
(** * Request-body anomaly inspection (crates/hiloop-interceptor/src/anomaly.rs)

    Three heuristics over a request's method, content type and body counters.
    An [f64] is an IEEE binary64 value of SpecFloat; counters saturate. *)
From Stdlib Require Import Strings.Byte SpecFloat.
From S2P Require Import Prelude Text Event.

(** ** Binary64 operations of the code *)

Definition f64_prec : Z := 53.
Definition f64_emax : Z := 1024.

(** [u64 as f64]: rounded to nearest, ties to even. *)
Definition f64_of_u64 (n : Z) : f64 := binary_normalize f64_prec f64_emax n 0 false.
Definition f64_mul (a b : f64) : f64 := SFmul f64_prec f64_emax a b.

(** [f64::ceil] and then [as u64], which truncates, saturates and maps NaN to 0. *)
Definition ceil_as_u64 (x : f64) : Z :=
  match x with
  | S754_zero _ | S754_nan => 0
  | S754_infinity s => if s then 0 else u64_max
  | S754_finite s m e =>
      let a := if s then (- Z.pos m)%Z else Z.pos m in
      let ceil := if (0 <=? e)%Z then (a * 2 ^ e)%Z else (- ((- a) / 2 ^ (- e)))%Z in
      Z.max 0 (Z.min u64_max ceil)
  end.

(** [f64::clamp] *)
Definition f64_clamp (x lo hi : f64) : f64 := if SFltb x lo then lo else if SFltb hi x then hi else x.
Definition f64_zero : f64 := S754_zero false.
Definition f64_one : f64 := f64_of_u64 1.

(** ** Configuration *)

Definition DEFAULT_MIN_BASE64_BYTES : Z := 64 * 1024.
(** The literal [0.95]: the nearest binary64 value. *)
Definition DEFAULT_BASE64_RATIO : f64 := SFdiv f64_prec f64_emax (f64_of_u64 95) (f64_of_u64 100).
Definition DEFAULT_MAX_UPLOAD_BYTES : Z := 4 * 1024 * 1024.
Definition DEFAULT_SUSPICIOUS_CONTENT_TYPES : list str :=
  [bs "application/octet-stream"; bs "application/zip"; bs "application/x-tar"; bs "application/gzip";
   bs "application/x-gzip"; bs "application/x-7z-compressed"; bs "application/x-rar-compressed";
   bs "application/x-bzip2"].

Inductive AnomalyRule := LargeBase64Blob | SuspiciousContentType | UploadShapedRequest.
#[export] Instance anomaly_rule_eq_dec : EqDecision AnomalyRule.
Proof. solve_decision. Defined.
Definition AnomalyRule_name (r : AnomalyRule) : str :=
  match r with
  | LargeBase64Blob => bs "large_base64_blob"
  | SuspiciousContentType => bs "suspicious_content_type"
  | UploadShapedRequest => bs "upload_shaped_request"
  end.

Record AnomalyFlag := mkFlag { rule : AnomalyRule; observed_bytes : Z }.

Record AnomalyConfig := mkAnomaly {
  anomaly_enabled : bool; block_on_match : bool; min_base64_bytes : Z; base64_ratio : f64; max_upload_bytes : Z;
  suspicious_content_types : list str }.

Definition AnomalyConfig_default : AnomalyConfig :=
  mkAnomaly false false DEFAULT_MIN_BASE64_BYTES DEFAULT_BASE64_RATIO DEFAULT_MAX_UPLOAD_BYTES
    DEFAULT_SUSPICIOUS_CONTENT_TYPES.
Definition AnomalyConfig_enabled : AnomalyConfig :=
  let d := AnomalyConfig_default in
  mkAnomaly true (block_on_match d) (min_base64_bytes d) (base64_ratio d) (max_upload_bytes d) (suspicious_content_types d).

Definition blocks_on_match (c : AnomalyConfig) : bool := anomaly_enabled c && block_on_match c.
Definition with_block_on_match (c : AnomalyConfig) (block : bool) : AnomalyConfig :=
  mkAnomaly (anomaly_enabled c) block (min_base64_bytes c) (base64_ratio c) (max_upload_bytes c) (suspicious_content_types c).
Definition with_min_base64_bytes (c : AnomalyConfig) (bytes : Z) : AnomalyConfig :=
  mkAnomaly (anomaly_enabled c) (block_on_match c) bytes (base64_ratio c) (max_upload_bytes c) (suspicious_content_types c).
Definition with_base64_ratio (c : AnomalyConfig) (ratio : f64) : AnomalyConfig :=
  mkAnomaly (anomaly_enabled c) (block_on_match c) (min_base64_bytes c) (f64_clamp ratio f64_zero f64_one)
    (max_upload_bytes c) (suspicious_content_types c).
Definition with_max_upload_bytes (c : AnomalyConfig) (bytes : Z) : AnomalyConfig :=
  mkAnomaly (anomaly_enabled c) (block_on_match c) (min_base64_bytes c) (base64_ratio c) bytes (suspicious_content_types c).
Definition with_suspicious_content_types (c : AnomalyConfig) (types : list str) : AnomalyConfig :=
  mkAnomaly (anomaly_enabled c) (block_on_match c) (min_base64_bytes c) (base64_ratio c) (max_upload_bytes c)
    (to_ascii_lowercase <$> types).

(** ** Inspection *)

Definition media_type_of (content_type : str) : str :=
  trim (default content_type (head (split_on (byte_is x3b) content_type))).

Definition is_write_method (method : str) : bool :=
  eq_ignore_ascii_case method (bs "POST") || eq_ignore_ascii_case method (bs "PUT")
  || eq_ignore_ascii_case method (bs "PATCH").

Definition is_base64_byte (b : byte) : bool :=
  is_ascii_alphanumeric b
  || (byte_is x2b b || byte_is x2f b || byte_is x2d b || byte_is x5f b || byte_is x3d b)
  || (byte_is x0a b || byte_is x0d b || byte_is x09 b || byte_is x20 b).

Record BodyScan := mkScan { total_bytes : Z; base64_alphabet_bytes : Z }.
Definition BodyScan_default : BodyScan := mkScan 0 0.

Definition count_base64 (chunk : str) : Z := Z.of_nat (length (filter (λ b, is_base64_byte b = true) chunk)).
Definition observe (s : BodyScan) (chunk : str) : BodyScan :=
  mkScan (saturating_add u64_max (total_bytes s) (Z.of_nat (length chunk)))
    (saturating_add u64_max (base64_alphabet_bytes s) (count_base64 chunk)).

Definition base64_threshold (total : Z) (ratio : f64) : Z := ceil_as_u64 (f64_mul (f64_of_u64 total) ratio).
Definition is_base64_dominated (s : BodyScan) (ratio : f64) : bool :=
  if (total_bytes s =? 0)%Z then false
  else (base64_threshold (total_bytes s) ratio <=? base64_alphabet_bytes s)%Z.

Definition is_suspicious_content_type (c : AnomalyConfig) (content_type : option str) : bool :=
  match content_type with
  | None => false
  | Some content_type =>
      let media_type := media_type_of content_type in
      existsb (λ suspicious, eq_ignore_ascii_case suspicious media_type) (suspicious_content_types c)
  end.

Definition anomaly_evaluate (c : AnomalyConfig) (method : str) (content_type : option str) (scan : BodyScan)
    : list AnomalyFlag :=
  if negb (anomaly_enabled c) then []
  else
    let body_len := total_bytes scan in
    (if is_suspicious_content_type c content_type then [mkFlag SuspiciousContentType body_len] else [])
    ++ (if is_write_method method && (max_upload_bytes c <=? body_len)%Z then [mkFlag UploadShapedRequest body_len] else [])
    ++ (if (min_base64_bytes c <=? body_len)%Z && is_base64_dominated scan (base64_ratio c)
        then [mkFlag LargeBase64Blob body_len] else []).

Definition inspect (c : AnomalyConfig) (method : str) (content_type : option str) (body : str) : list AnomalyFlag :=
  if negb (anomaly_enabled c) then [] else anomaly_evaluate c method content_type (observe BodyScan_default body).

(** ** Lemmas *)

Example default_ratio_value : DEFAULT_BASE64_RATIO = S754_finite false 8556839292003942 (-53).
Proof. vm_compute. reflexivity. Qed.
Example threshold_100 : base64_threshold 100 DEFAULT_BASE64_RATIO = 95%Z.
Proof. vm_compute. reflexivity. Qed.
Example threshold_floor : base64_threshold DEFAULT_MIN_BASE64_BYTES DEFAULT_BASE64_RATIO = 62260%Z.
Proof. vm_compute. reflexivity. Qed.

Lemma count_base64_app a b : count_base64 (a ++ b) = (count_base64 a + count_base64 b)%Z.
Proof. unfold count_base64. rewrite filter_app, length_app. lia. Qed.

Lemma observe_app s a b :
  (0 ≤ total_bytes s)%Z → (0 ≤ base64_alphabet_bytes s)%Z → observe s (a ++ b) = observe (observe s a) b.
Proof.
  intros. unfold observe, saturating_add. cbn [total_bytes base64_alphabet_bytes]. rewrite length_app, count_base64_app.
  assert (0 ≤ count_base64 b)%Z by (unfold count_base64; lia). assert (0 ≤ count_base64 a)%Z by (unfold count_base64; lia).
  unfold u64_max. f_equal; lia.
Qed.

Lemma observe_nonneg s a :
  (0 ≤ total_bytes s)%Z → (0 ≤ base64_alphabet_bytes s)%Z →
  (0 ≤ total_bytes (observe s a))%Z ∧ (0 ≤ base64_alphabet_bytes (observe s a))%Z.
Proof. intros. unfold observe, saturating_add, count_base64, u64_max. cbn. lia. Qed.

Lemma observe_nil s :
  (0 ≤ total_bytes s ≤ u64_max)%Z → (0 ≤ base64_alphabet_bytes s ≤ u64_max)%Z → observe s [] = s.
Proof. destruct s. unfold observe, saturating_add, count_base64. cbn. intros. f_equal; lia. Qed.

Lemma observe_chunks s chunks :
  (0 ≤ total_bytes s ≤ u64_max)%Z → (0 ≤ base64_alphabet_bytes s ≤ u64_max)%Z →
  fold_left observe chunks s = observe s (concat chunks).
Proof.
  revert s. induction chunks as [|a chunks IH]; intros s H1 H2; cbn [fold_left concat].
  { by rewrite observe_nil. }
  rewrite observe_app by lia. apply IH; unfold observe, saturating_add, count_base64, u64_max in *; cbn; lia.
Qed.

(** ** Properties *)

(** Inspection sees the whole body and says exactly which rules hold.
    However a body is cut into frames, the flags are those of the body
    inspected whole; an enabled configuration reports each rule at most once,
    exactly when its condition on the original body holds, with the body's
    true size (up to the counter's limit) and nothing of its content; a
    disabled one reports and blocks nothing. *)
Theorem anomaly_inspection_exact (c : AnomalyConfig) (method : str) (content_type : option str) (chunks : list str) :
  let body := concat chunks in
  let size := Z.min u64_max (Z.of_nat (length body)) in
  anomaly_evaluate c method content_type (fold_left observe chunks BodyScan_default) = inspect c method content_type body ∧
  (anomaly_enabled c = false → inspect c method content_type body = [] ∧ blocks_on_match c = false) ∧
  NoDup (rule <$> inspect c method content_type body) ∧
  (∀ f, f ∈ inspect c method content_type body → observed_bytes f = size) ∧
  (anomaly_enabled c = true → ∀ r, r ∈ rule <$> inspect c method content_type body ↔
     match r with
     | SuspiciousContentType =>
         ∃ t s, content_type = Some t ∧ s ∈ suspicious_content_types c ∧
           to_ascii_lowercase s = to_ascii_lowercase (media_type_of t)
     | UploadShapedRequest => is_write_method method = true ∧ (max_upload_bytes c ≤ size)%Z
     | LargeBase64Blob => (min_base64_bytes c ≤ size)%Z ∧ body ≠ [] ∧
         (base64_threshold size (base64_ratio c) ≤ Z.min u64_max (count_base64 body))%Z
     end).
Proof.
  intros body size.
  assert (observe BodyScan_default body = mkScan size (Z.min u64_max (count_base64 body))) as Hscan by done.
  rewrite observe_chunks by (unfold u64_max; cbn; lia). fold body. clearbody body.
  assert (anomaly_evaluate c method content_type (observe BodyScan_default body) = inspect c method content_type body) as Hev.
  { unfold inspect. destruct (anomaly_enabled c) eqn:E; [done|]. unfold anomaly_evaluate. by rewrite E. }
  split; [done|]. rewrite <- Hev, Hscan. unfold anomaly_evaluate, blocks_on_match.
  destruct (anomaly_enabled c); cbn [negb andb].
  2:{ split; [done|]. split; [constructor|]. split; [|done]. intros f Hf. by apply elem_of_nil in Hf. }
  cbn [total_bytes]. split; [done|].
  assert (is_suspicious_content_type c content_type = true ↔ ∃ t s, content_type = Some t ∧ s ∈ suspicious_content_types c ∧
    to_ascii_lowercase s = to_ascii_lowercase (media_type_of t)) as Hct.
  { unfold is_suspicious_content_type. destruct content_type as [t|]; [|naive_solver]. rewrite existsb_exists. split.
    - intros (s & Hs & E%bool_decide_eq_true). exists t, s. by rewrite <- list_elem_of_In in Hs.
    - intros (t' & s & [= <-] & Hs & E). exists s. rewrite <- list_elem_of_In. split; [done|]. by apply bool_decide_eq_true. }
  assert (is_base64_dominated (mkScan size (Z.min u64_max (count_base64 body))) (base64_ratio c) = true ↔
    body ≠ [] ∧ (base64_threshold size (base64_ratio c) ≤ Z.min u64_max (count_base64 body))%Z) as Hb64.
  { unfold is_base64_dominated. cbn [total_bytes base64_alphabet_bytes]. destruct (Z.eqb_spec size 0) as [E|E].
    - split; [done|]. intros [Hne _]. unfold size, u64_max in E. destruct body; [done|]. cbn [length] in E. lia.
    - rewrite Z.leb_le. split; [|tauto]. intros H. split; [|done]. intros Hn. apply E. unfold size. by rewrite Hn. }
  set (b1 := is_suspicious_content_type c content_type) in *.
  set (b2 := is_write_method method && (max_upload_bytes c <=? size)%Z).
  set (b3 := (min_base64_bytes c <=? size)%Z && is_base64_dominated _ _).
  assert (b2 = true ↔ is_write_method method = true ∧ (max_upload_bytes c ≤ size)%Z) as Hb2
    by (unfold b2; by rewrite andb_true_iff, Z.leb_le).
  assert (b3 = true ↔ (min_base64_bytes c ≤ size)%Z ∧ body ≠ [] ∧
    (base64_threshold size (base64_ratio c) ≤ Z.min u64_max (count_base64 body))%Z) as Hb3
    by (unfold b3; by rewrite andb_true_iff, Z.leb_le, Hb64).
  clearbody b1 b2 b3. split; [destruct b1, b2, b3; cbn; by_compute|]. split.
  { intros f Hf. destruct b1, b2, b3; cbn in Hf; rewrite ?elem_of_cons, ?elem_of_nil in Hf; naive_solver. }
  intros _ r. assert (r ∈ rule <$> (if b1 then [mkFlag SuspiciousContentType size] else []) ++
      (if b2 then [mkFlag UploadShapedRequest size] else []) ++ (if b3 then [mkFlag LargeBase64Blob size] else []) ↔
    match r with SuspiciousContentType => b1 = true | UploadShapedRequest => b2 = true | LargeBase64Blob => b3 = true end) as ->.
  { destruct r, b1, b2, b3; cbn; rewrite ?elem_of_cons, ?elem_of_nil; naive_solver. }
  by destruct r.
Qed.

Lemma anomaly_inspection_exact_witness :
  let c := with_max_upload_bytes AnomalyConfig_enabled 6 in
  rule <$> anomaly_evaluate c (bs "post") (Some (bs "Application/ZIP; q=1")) (fold_left observe [bs "abc"; bs "def"] BodyScan_default)
  = [SuspiciousContentType; UploadShapedRequest].
Proof.
  destruct (anomaly_inspection_exact (with_max_upload_bytes AnomalyConfig_enabled 6) (bs "post")
    (Some (bs "Application/ZIP; q=1")) [bs "abc"; bs "def"]) as [H _].
  cbv zeta. rewrite H. vm_compute. reflexivity.
Defined.
