(* ===== verification/RunEnd.v ===== *)
(** * The end of a captured run (crates/hiloop-interceptor/src/supervisor.rs)

    What [run_captured] does once the child has exited: the delivery account is
    reconciled with the number of normalized events, the event spool is
    drained, and the completion report is built from the pipeline's report, the
    blob drain and the account.  The report's constructor must accept it, as the
    code unwraps the result; [completion_report] gives that result, an [Err]
    being the panic.  An [anyhow] error is the list of its contexts, outermost
    first. *)
From Stdlib Require Import Strings.Byte.
From stdpp Require Import relations.
From S2P Require Import Prelude Text Net Identity Event Capture Completion Spool Seams Pipeline Protocol Exporters.
From S2P Require Import Blob BlobDrain.

Abbreviation warning := (list str).

(** ** Sources *)

Definition source_observations (t : CaptureEvidenceTrust) (r : PipelineSourceReport) : CaptureSourceReport :=
  from_event_counts t (Z.of_nat (full_events r)) (Z.of_nat (metadata_only_events r)) OpaqueNetworkTraffic.

Definition source_report (report : option PipelineReport) (source : str) (t : CaptureEvidenceTrust)
    (configured failed : bool) : CaptureSourceReport :=
  if negb configured then off_by_policy t
  else if failed then configured_unavailable t RuntimeFailed
  else match report ≫= λ r, rep_sources r !! source with
       | None => attached_no_data t
       | Some r => source_observations t r
       end.

(** ** Delivery *)

(** The spool's account when there is one; what the run observed beyond what
    reached the spool was dropped before it. *)
Definition completion_event_delivery (spool : option SpoolReport) (direct : CaptureEventDelivery) : CaptureEventDelivery :=
  match spool with
  | None => direct
  | Some sp =>
      let pending := Z.of_nat (rp_pending_events sp) in
      let spool_observed :=
        saturating_add u64_max (saturating_add u64_max (saturating_add u64_max (rp_delivered_events sp)
          (rp_dropped_events sp)) (rp_rejected_events sp)) pending in
      let pre_spool_dropped := saturating_sub (Completion.observed direct) spool_observed in
      mkEventDelivery (saturating_add u64_max spool_observed pre_spool_dropped) (rp_spooled_events sp)
        (rp_delivered_events sp) (saturating_add u64_max (rp_dropped_events sp) pre_spool_dropped)
        (rp_rejected_events sp) pending
  end.

(** [outcome.report] as the completion report counts it. *)
Definition blob_delivery (o : BlobDrainOutcome) : CaptureBlobDelivery :=
  let r := outcome_report o in
  mkBlobDelivery (Z.of_nat (BlobDrain.found r)) (Z.of_nat (landed_count r)) (Z.of_nat (BlobDrain.missing r))
    (Z.of_nat (oversize_skipped r)) (BlobDrain.missing_bytes r).

(** ** The report *)

Record CompletionReportInput := mkInput {
  in_uses_proxy : bool; in_otlp : bool;
  in_pipeline_report : option PipelineReport;
  in_pipeline_failed : bool; in_stdio_failed : bool; in_otlp_failed : bool; in_proxy_failed : bool;
  in_blob_outcome : option BlobDrainOutcome;
  in_spool_report : option SpoolReport;
  in_direct_delivery : CaptureEventDelivery;
  in_auth_refreshes : option Z;
  in_error : option str }.

Definition completion_sources (i : CompletionReportInput) : CaptureSourcesReport :=
  let r := in_pipeline_report i in
  let failed := in_pipeline_failed i in
  mkSourcesReport
    (source_report r EXEC_SOURCE PlatformObserved true failed)
    (source_report r STDIO_SOURCE PlatformObserved true (failed || in_stdio_failed i))
    (source_report r PROXY_SOURCE PlatformObserved (in_uses_proxy i) (failed || in_proxy_failed i))
    (source_report r OTLP_SOURCE WorkloadReported (in_otlp i) (failed || in_otlp_failed i)).

Definition completion_report (i : CompletionReportInput) : result CaptureCompletionError CaptureCompletionReport :=
  CaptureCompletionReport_new (completion_sources i)
    (completion_event_delivery (in_spool_report i) (in_direct_delivery i))
    (blob_delivery <$> in_blob_outcome i) (in_auth_refreshes i) (in_error i).

(** ** Warnings *)

Definition drain_problem (o : BlobDrainOutcome) : option warning :=
  let r := outcome_report o in
  if negb (outcome_is_complete o) then
    let message := show_uint (Z.of_nat (BlobDrain.missing r)) ++ bs " of " ++ show_uint (Z.of_nat (BlobDrain.found r))
                   ++ bs " captured payload blob(s) failed to land at the gateway" in
    Some (match BlobDrain.error o with Some e => [message; error_message e] | None => [message] end)
  else if Nat.ltb 0 (oversize_skipped r) then
    Some [show_uint (Z.of_nat (oversize_skipped r))
          ++ bs " captured payload blob(s) exceed the upload cap and stayed local"]
  else None.

Definition spool_problem (r : SpoolReport) (last_failure : option str) : option warning :=
  if is_clean r then None
  else
    let part (b : bool) (n : Z) (text : string) : list str := if b then [show_uint n ++ bs text] else [] in
    let parts :=
      part (Nat.ltb 0 (rp_pending_events r)) (Z.of_nat (rp_pending_events r))
        " captured event(s) never reached the telemetry gateway"
      ++ part (0 <? rp_dropped_events r)%Z (rp_dropped_events r)
           " oldest event(s) were dropped when the export spool filled"
      ++ part (0 <? rp_rejected_events r)%Z (rp_rejected_events r)
           " event(s) were dropped after the gateway permanently rejected their batch"
      ++ (if rp_completion_pending r then [bs "the capture completion record is still pending"] else [])
      ++ (if rp_completion_rejected r
          then [bs "the gateway permanently rejected the capture completion record"] else []) in
    let message := join (bs "; ") parts in
    Some (match last_failure with Some failure => [message; bs "last export failure: " ++ failure] | None => [message] end).

(** ** The child's status *)

(** [ExitStatus] on Unix: an exit code or the signal that ended the child. *)
Inductive ExitStatus := ExitedCode (code : Z) | ExitedSignal (signo : Z).

Definition exit_u8_from_status (status : ExitStatus) : Z :=
  match status with
  | ExitedCode code => if ((0 <=? code) && (code <=? u8_max))%Z then code else 1
  | ExitedSignal signo => saturating_add u8_max 128 (if ((0 <=? signo) && (signo <=? u8_max))%Z then signo else 0)
  end.

(** ** The sequence *)

Section run_end.
Context {U : UlidLib} {J : Type} {EJ : Exporter J} {W : Type} {SW : SinkWorld W} (policy : SpoolPolicy).

(** The run's sinks: logs and the spool, whose handle the supervisor keeps. *)
Abbreviation spool_sink := ((W * SinkLog) * SpoolState)%type.
Abbreviation sinks := (list (J + spool_sink)).

Fixpoint drain_spool (retry : DrainRetryPolicy) (l : sinks) : sinks * option SpoolReport :=
  match l with
  | [] => ([], None)
  | inl x :: l => let '(l, r) := drain_spool retry l in (inl x :: l, r)
  | inr (w, s) :: l =>
      let '(w, s, r) := drain policy w s retry in
      (inr (w, s) :: l, match r with Spool.Ready rep => Some rep | Spool.Dropped | Spool.Spinning => None end)
  end.

(** The results of the run's tasks. *)
Record TaskResults := mkTasks {
  tr_otlp : result warning unit; tr_proxy : result warning unit;
  tr_stdin : result warning unit; tr_stdout : result warning unit; tr_stderr : result warning unit;
  tr_pipeline : result warning PipelineReport;
  tr_blobs : option (result str BlobDrainOutcome) }.

Definition err_list {A} (r : result warning A) : list warning := match r with Err e => [e] | Ok _ => [] end.
Definition with_context {A} (context : string) (r : result warning A) : result warning A :=
  map_err (λ e, bs context :: e) r.

(** [format!("{error:#}")] *)
Definition alternate (w : warning) : str := join (bs ": ") w.

Definition blob_outcome_of (t : TaskResults) : option BlobDrainOutcome :=
  match tr_blobs t with Some (Ok o) => Some o | _ => None end.

Definition terminal_errors (t : TaskResults) : list str :=
  (alternate <$> err_list (tr_otlp t) ++ err_list (tr_proxy t) ++ err_list (tr_stdin t) ++ err_list (tr_stdout t)
     ++ err_list (tr_stderr t) ++ err_list (tr_pipeline t))
  ++ match tr_blobs t with
     | Some (Err join_error) => [join_error]
     | Some (Ok o) => match BlobDrain.error o with Some e => [error_message e] | None => [] end
     | None => []
     end.

Definition drain_warnings (t : TaskResults) : list warning :=
  err_list (with_context "OTLP capture source failed" (tr_otlp t))
  ++ err_list (with_context "network capture source failed" (tr_proxy t))
  ++ err_list (with_context "failed to capture child stdin" (tr_stdin t))
  ++ err_list (with_context "failed to capture child stdout" (tr_stdout t))
  ++ err_list (with_context "failed to capture child stderr" (tr_stderr t))
  ++ err_list (tr_pipeline t)
  ++ match tr_blobs t with Some (Err join_error) => [[bs "blob drain task failed"; join_error]] | _ => [] end.

Definition failed_result {A} (r : result warning A) : bool := negb (is_ok r).

(** From the joined tasks to the report: the state of the sinks after the
    spool's drain, and the report or the panic. *)
Definition run_end_report (a : Accounting sinks) (normalized : Z) (t : TaskResults) (uses_proxy otlp : bool)
    (retry : DrainRetryPolicy) (auth_refreshes : option Z)
    : Accounting sinks * result CaptureCompletionError CaptureCompletionReport :=
  let d := reconcile_normalized (delivery a) normalized in
  let '(l, spool_report) := drain_spool retry (inner a) in
  let errors := terminal_errors t in
  (mkAccounting l d,
   completion_report (mkInput uses_proxy otlp
     (match tr_pipeline t with Ok r => Some r | Err _ => None end)
     (failed_result (tr_pipeline t))
     (failed_result (tr_stdin t) || failed_result (tr_stdout t) || failed_result (tr_stderr t))
     (failed_result (tr_otlp t)) (failed_result (tr_proxy t))
     (blob_outcome_of t) spool_report d auth_refreshes
     (match errors with [] => None | _ => Some (join (bs "; ") errors) end))).

(** The deadline's effect on an export is the environment's: [cut] gives the
    exporter a call dropped at the deadline leaves, when it fires. *)
Definition export_completion_record {X} {EX : Exporter X} {CX : CompletionExporter X} (cut : option X) (x : X)
    (event : Event) (report : CaptureCompletionReport) : X * result warning unit :=
  match cut with
  | Some x => (x, Err [bs "capture-health export timed out after 10s"])
  | None =>
      match export_completion x event report with
      | (x, Err e) => (x, Err [bs "failed to export the capture-health event"; ExportError_fmt e])
      | (x, Ok _) =>
          let '(x, r) := export_flush x in
          (x, map_err (λ e, [bs "failed to flush the capture-health event"; ExportError_fmt e]) r)
      end
  end.

Definition capture_drain_event (argv_json : list str → str) (context : NormalizationContext) (minted : EventId) (ts : Hlc)
    (report : CaptureCompletionReport) : Event :=
  stamp_provenance argv_json context (to_event report minted (run_context context) ts).

(** [spool.last_failure()] *)
Fixpoint spool_last_failure (l : sinks) : option str :=
  match l with
  | [] => None
  | inl _ :: l => spool_last_failure l
  | inr (_, s) :: _ => last_failure s
  end.

(** The blobs a scratch directory holds are kept when not all of them landed. *)
Definition drain_warning (scratch : option str) (o : BlobDrainOutcome) : option warning :=
  (λ w, match scratch with
        | Some dir => (bs "captured payload blobs kept at `" ++ dir ++ bs "`") :: w
        | None => w
        end) <$> drain_problem o.

Record CapturedRun := mkCapturedRun { cr_exit_code : Z; cr_drain_warnings : list warning }.

(** The rest: the completion record is exported, the blob drain's problem is
    reported, and the spool is drained once more. *)
#[local] Instance run_spool : Exporter spool_sink := spool_exporter policy.
Definition run_end {CJ : CompletionExporter J} (a : Accounting sinks) (normalized : Z)
    (t : TaskResults) (uses_proxy otlp : bool)
    (retry : DrainRetryPolicy) (auth_refreshes : option Z) (argv_json : list str → str) (health_context : NormalizationContext) (minted : EventId)
    (ts : Hlc) (cut : Accounting sinks → option (Accounting sinks)) (scratch : option str) (status : ExitStatus)
    : Accounting sinks * result CaptureCompletionError CapturedRun :=
  let '(a, report) := run_end_report a normalized t uses_proxy otlp retry auth_refreshes in
  match report with
  | Err e => (a, Err e)
  | Ok report =>
      let event := capture_drain_event argv_json health_context minted ts report in
      let '(a, exported) := export_completion_record (cut a) a event report in
      let '(l, last) := drain_spool retry (inner a) in
      (mkAccounting l (delivery a),
       Ok (mkCapturedRun (exit_u8_from_status status)
             (drain_warnings t ++ err_list exported
              ++ option_list (blob_outcome_of t ≫= drain_warning scratch)
              ++ option_list (last ≫= λ r, spool_problem r (spool_last_failure l)))))
  end.
End run_end.

(** ** Lemmas *)

Section run_lemmas.
Context {U : UlidLib} {J : Type} {EJ : Exporter J} {CJ : CompletionExporter J}.
Context {W : Type} {SW : SinkWorld W} {SL : SerializerLaws W} (policy : SpoolPolicy).
Context (Hmax : (0 ≤ max_bytes policy)%Z) (Hbatch : 0 < drain_batch_size policy).
#[local] Instance spool_ex : Exporter ((W * SinkLog) * SpoolState) := spool_exporter policy.
Abbreviation sinks := (list (J + (W * SinkLog) * SpoolState)).
Implicit Types (a : Accounting sinks) (acc es : list Event).

(** The run's exporter once it was offered [acc]: the last sink is the spool,
    whose accounts are of [acc], and the run's own account is of [acc] too. *)
Definition run_inv acc a : Prop :=
  ∃ (pre : list J) wl sp l j, inner a = (inl <$> pre) ++ [inr (wl, sp)] ∧
    state_inv policy acc None wl.2 sp ∧ spooled_inv acc sp ∧ settled_account (length acc) l j (delivery a).

Definition run_sinks (pre : list J) (w : W) : Accounting sinks :=
  DeliveryAccountingExporter_new ((inl <$> pre) ++ [inr ((w, mkLog [] []), SpoolState_default)]).

Lemma run_inv_start pre w : run_inv [] (run_sinks pre w).
Proof.
  exists pre, (w, mkLog [] []), SpoolState_default, 0, 0. split_and!; [done| |done|by split].
  split_and!; [|split; simpl; lia|done]. unfold data_inv. simpl. done.
Qed.

(** One call of every sink: the logs stay logs, the spool makes its move. *)
Lemma join_all_sinks (call : J + (W * SinkLog) * SpoolState → (J + (W * SinkLog) * SpoolState) * result ExportError unit)
    (pre : list J) x x' :
  (∀ y : J, ∃ y' r, call (inl y) = (inl y', r)) → (call (inr x)).1 = inr x' →
  ∃ pre' : list J, (join_all call ((inl <$> pre) ++ [inr x])).1 = (inl <$> pre') ++ [inr x'].
Proof.
  intros Hl Hr. unfold join_all. cbn [fst]. rewrite <- list_fmap_compose, fmap_app.
  induction pre as [|y pre [pre' IH]]; [exists []; cbn; by rewrite Hr|].
  destruct (Hl y) as (y' & r & Hy). exists (y' :: pre'). cbn. rewrite Hy. cbn. by f_equal.
Qed.

Lemma run_inv_export acc a es :
  (Z.of_nat (length (acc ++ es)) ≤ u64_max)%Z → batch_fits policy es → run_inv acc a →
  run_inv (acc ++ es) (export a es).1.
Proof.
  intros Hlen Hfit (pre & [w lg] & sp & l & j & Hin & Hst & Hsp & Hd).
  destruct (do_call_account a (CallExport es) _ _ _ Hd) as (Hi & _ & Hd');
    [by rewrite length_app in Hlen|].
  destruct (spool_export policy (w, lg) sp es) as [[[w' lg'] sp'] r] eqn:E.
  destruct (spool_step_open policy Hmax Hbatch _ _ _ _ _ _ _ _ _ Hlen Hfit Hst E) as [Hst' _].
  pose proof (spool_export_parks policy acc _ _ _ _ _ _ Hlen Hsp E) as Hsp'.
  destruct Hst as (_ & _ & Hseen & _). rewrite Hseen in Hsp'.
  destruct (join_all_sinks (λ x, export x es) pre ((w, lg), sp) ((w', lg'), sp')) as [pre' Hpre].
  { intros y. cbn. destruct (export y es). by eexists _, _. }
  { cbn. by rewrite E. }
  eexists pre', (w', lg'), sp', _, _. split_and!; [|done..|].
  - change (export a es).1 with (do_call a (CallExport es)).1. rewrite Hi, Hin. exact Hpre.
  - rewrite length_app. exact Hd'.
Qed.

Lemma run_inv_flush acc a : (Z.of_nat (length acc) ≤ u64_max)%Z → run_inv acc a → run_inv acc (export_flush a).1.
Proof.
  intros Hlen (pre & [w lg] & sp & l & j & Hin & Hst & Hsp & Hd).
  destruct (do_call_account a CallFlush _ _ _ Hd) as (Hi & _ & Hd'); [cbn; lia|].
  destruct (spool_flush policy (w, lg) sp) as [[[w' lg'] sp'] r] eqn:E.
  destruct (spool_flush_inv policy Hbatch _ _ _ _ _ _ _ _ _ Hlen Hst E) as [Hst' _].
  pose proof (parks_nothing_inv acc _ _ (spool_flush_parks policy _ _ _ _ _ E) Hsp) as Hsp'.
  destruct (join_all_sinks export_flush pre ((w, lg), sp) ((w', lg'), sp')) as [pre' Hpre].
  { intros y. cbn. destruct (export_flush y). by eexists _, _. }
  { cbn. by rewrite E. }
  eexists pre', (w', lg'), sp', _, _. split_and!; [|done..|].
  - change (export_flush a).1 with (do_call a CallFlush).1. rewrite Hi, Hin. exact Hpre.
  - cbn [call_events] in Hd'. rewrite Nat.add_0_r in Hd'. exact Hd'.
Qed.

Lemma run_inv_shipped pre w acked a :
  events_fit (W := W) policy (concat acked) → shipped (run_sinks pre w) acked a → run_inv (concat acked) a.
Proof.
  intros Hfit H. induction H as [|acked x b x' Hs IH Hx]; [apply run_inv_start|].
  rewrite concat_app in *. cbn in *. rewrite app_nil_r in *.
  destruct (events_fit_split policy (concat acked) b []) as (Hlen & Hfit0 & Hb); [by rewrite app_nil_r|].
  replace x' with (export x b).1 by exact (f_equal fst Hx). apply run_inv_export; [done..|]. by apply IH.
Qed.

Section reachable.
Context (argv_json : list str → str) {N : Type} (context : NormalizationContext) (router : list (Normalizer N)).
Context (raw_store : option (RawStore N)) (options : PipelineOptions) (n0 : N) (c0 : Z) (pre : list J) (w0 : W).
Context (stream : list (result SourceError RawSignal)).

(** The events of any first part of the stream fit the counters. *)
Definition run_fits : Prop :=
  ∀ raws n c ps, (Ok <$> raws) `prefix_of` stream →
    sequential argv_json context router raw_store options n0 c0 raws = (n, c, Ok ps) →
    events_fit (W := W) policy (all_events ps).*2.

Lemma reachable_run_inv (s : @Pipeline.state U N (Accounting sinks)) :
  options_wf options → run_fits →
  rtc (pipeline_step argv_json context router raw_store options) (initial n0 (run_sinks pre w0) c0 stream) s →
  ∃ acc, run_inv acc (es_world (exporting s)) ∧ (Z.of_nat (length acc) ≤ u64_max)%Z ∧
    ∀ rep, outcome s = Some (Ok rep) → ∃ raws n c ps, stream = Ok <$> raws ∧
      sequential argv_json context router raw_store options n0 c0 raws = (n, c, Ok ps) ∧ acc = (all_events ps).*2.
Proof.
  intros Hwf Hfit Hs.
  pose proof (reachable_settled argv_json context router raw_store options n0 c0 _ stream s Hwf Hs) as Hset.
  destruct (reachable_world argv_json context router raw_store options n0 c0 _ stream s Hwf Hs)
    as (x & b & Hx & (raws & n & c & ps & Hpre & Hseq & [k Hk]) & Hw).
  pose proof (Hfit _ _ _ _ Hpre Hseq) as Hev. rewrite Hk, <- app_assoc in Hev.
  destruct (events_fit_split policy _ _ _ Hev) as (Hlen & Hev0 & Hb). clear raws n c ps Hpre Hseq k Hk Hev.
  pose proof (run_inv_shipped _ _ _ _ Hev0 Hx) as Hinv.
  assert (∃ acc, run_inv acc (es_world (exporting s)) ∧ (Z.of_nat (length acc) ≤ u64_max)%Z) as (acc & Hacc & Hacc').
  { destruct Hw as [[-> [-> | ->]] | ->]; eexists; split; [exact Hinv|apply Hev0| |apply Hev0| |exact Hlen].
    - apply run_inv_flush; [apply Hev0|exact Hinv].
    - by apply run_inv_export. }
  destruct (outcome s) as [[rep|e]|] eqn:Eo; [|by exists acc..]. unfold settled in Hset. rewrite Eo in Hset.
  destruct Hset as ((y & Hy & Hf) & raws & n & c & ps & Hst & Hseq & Hacked & _).
  exists (concat (es_acked (exporting s))). split_and!; [|apply Hev0|].
  - replace (es_world (exporting s)) with (export_flush y).1 by exact (f_equal fst Hf).
    apply run_inv_flush; [apply Hev0|]. by eapply run_inv_shipped.
  - intros _ _. exists raws, n, c, ps. done.
Qed.
End reachable.

(** The report's accounts for a spool that was offered [acc] and has been
    drained, whatever number of normalized events the run counted. *)
Lemma completion_accounts acc lg sp d l j normalized :
  (Z.of_nat (length acc) ≤ u64_max)%Z → is_u64 normalized →
  data_inv acc lg sp → spooled_inv acc sp → settled_account (length acc) l j d →
  let e := completion_event_delivery (Some (report sp)) (reconcile_normalized d normalized) in
  delivery_wf e ∧ events_account e ∧ Completion.landed e = Z.of_nat (length (acked lg)) ∧
  Completion.observed e = Z.max (Z.of_nat (length acc)) normalized ∧
  (Completion.dropped e = 0 → Completion.rejected e = 0 → Completion.pending e = 0 → acked lg = acc ∧ normalized ≤ Z.of_nat (length acc))%Z.
Proof.
  clear Hmax Hbatch. intros Hlen Hn (Hsub & Hdel & Hdr & Hrej & Hsum & _) Hsp [-> _] e. unfold spooled_inv in Hsp. unfold is_u64 in Hn.
  assert (e = mkEventDelivery (Z.max (Z.of_nat (length acc)) normalized) (spooled_events sp) (delivered_events sp)
    (dropped_events sp + Z.max 0 (normalized - Z.of_nat (length acc)))
    (rejected_events sp) (Z.of_nat (length (queue sp)))) as ->.
  { unfold e, completion_event_delivery, reconcile_normalized, saturating_add, saturating_sub. cbn. f_equal; lia. }
  unfold delivery_wf, events_account, is_u64. cbn. split_and!; try lia.
  intros Hd0 Hr0 Hp0. split; [|lia].
  assert (queue sp = []) as Hq by (apply nil_length_inv; lia). rewrite Hq in *. cbn in Hsub, Hsum.
  rewrite app_nil_r in Hsub. apply sublist_same_length; [done|]. lia.
Qed.

Lemma drain_spool_run acc pre w lg sp retry :
  (Z.of_nat (length acc) ≤ u64_max)%Z → state_inv policy acc None lg sp → spooled_inv acc sp →
  ∃ w' lg' sp', drain_spool policy retry ((inl <$> pre) ++ [inr ((w, lg), sp)])
      = ((inl <$> pre) ++ [inr ((w', lg'), sp')] : sinks, Some (report sp')) ∧
    data_inv acc lg' sp' ∧ spooled_inv acc sp'.
Proof.
  intros Hlen Hst Hsp. destruct (drain policy (w, lg) sp retry) as [[[w' lg'] sp'] r] eqn:E.
  destruct (Spool.drain_inv policy Hbatch acc None _ _ _ _ _ _ _ _ Hlen Hst E) as [Hst' ->].
  pose proof (parks_nothing_inv acc _ _ (Spool.drain_parks policy _ _ _ _ _ _ E) Hsp) as Hsp'.
  exists w', lg', sp'. split; [|split; [apply Hst'|done]].
  induction pre as [|y pre IH]; cbn; [by rewrite E|]. cbn in IH. by rewrite IH.
Qed.
End run_lemmas.

(** The report is accepted when its accounts hold. *)
Lemma completion_new_accepts s e b a err :
  delivery_wf e → events_account e → (∀ b', b = Some b' → blobs_wf b' ∧ blobs_account b') →
  CaptureCompletionReport_new s e b a err = Ok (mkCompletionReport s e b a err).
Proof.
  intros He [Hsum Hsp] Hb. unfold CaptureCompletionReport_new.
  rewrite (proj2 (events_account_checked e He (Completion.observed e))); [|unfold delivery_wf, is_u64 in He; lia].
  cbn. rewrite Z.eqb_refl. cbn.
  destruct (_ <? _)%Z eqn:E1; [breflect; lia|]. destruct (spooled e <? Completion.pending e)%Z eqn:E2; [breflect; lia|].
  destruct b as [b|]; [|done]. destruct (Hb b eq_refl) as [Hwf Hacc]. cbn.
  by rewrite (proj2 (proj1 (check_blobs_spec b Hwf)) Hacc).
Qed.

Lemma blob_delivery_accounts {BW} {DW : DrainWorld BW} (w : BW) d retry reprobe :
  let o := (finish_with w d retry reprobe).2 in
  (Z.of_nat (BlobDrain.found (outcome_report o)) ≤ u64_max)%Z →
  blobs_wf (blob_delivery o) ∧ blobs_account (blob_delivery o).
Proof.
  intros o Ho. destruct (finish_with_outcome w d retry reprobe) as (d' & blobs & E).
  destruct (drainer_report_accounts d' blobs) as (Hf & Hsum & Hz & Hb). fold o in E.
  unfold blobs_wf, blobs_account, blob_delivery, is_u64. rewrite E in *. cbn in *. split_and!; lia.
Qed.

(** ** Properties *)

(** C1: the end of a captured run.  Take any run of the pipeline over logs
    and the spool, settled or cut short, any number of normalized events, any
    task failures and any blob drain.  Building the completion report never
    panics; what it says landed is what the gateway acknowledged, and nothing
    normalized is missing from its account.  A report that claims completeness
    tells the truth: every task succeeded, the pipeline ran over the whole
    stream, every blob landed, and the gateway acknowledged exactly the events
    that normalizing the signals in turn gives, in order, with none lost.  The
    child's exit code is the run's, whatever failed. *)
Theorem run_completion_faithful {U : UlidLib} (argv_json : list str → str) {N J W BW : Type} {EJ : Exporter J}
    {CJ : CompletionExporter J} {SW : SinkWorld W} {SL : SerializerLaws W} {DW : DrainWorld BW} (policy : SpoolPolicy)
    (context : NormalizationContext) (router : list (Normalizer N)) (raw_store : option (RawStore N))
    (options : PipelineOptions) (n0 : N) (c0 : Z) (pre : list J) (w0 : W) (stream : list (result SourceError RawSignal))
    (s : @Pipeline.state U N (Accounting (list (J + (W * SinkLog) * SpoolState))))
    (normalized : Z) (t : TaskResults) (proxy otlp : bool) (retry : DrainRetryPolicy) (auth : option Z)
    (health : NormalizationContext) (minted : EventId) (ts : Hlc)
    (cut : Accounting (list (J + (W * SinkLog) * SpoolState)) → option (Accounting (list (J + (W * SinkLog) * SpoolState))))
    (scratch : option str) (status : ExitStatus) :
  (0 ≤ max_bytes policy)%Z → 0 < drain_batch_size policy → options_wf options →
  run_fits (W := W) policy argv_json context router raw_store options n0 c0 stream →
  rtc (pipeline_step (EX := accounting_exporter (EX := fan_out_exporter (EX := sum_exporter (EY := spool_exporter policy))))
         argv_json context router raw_store options) (initial n0 (run_sinks pre w0) c0 stream) s →
  is_u64 normalized →
  (∀ rep, tr_pipeline t = Ok rep → outcome s = Some (Ok rep)) →
  (∀ o, tr_blobs t = Some (Ok o) → ∃ (w : BW) d drain_retry, o = (finish w d drain_retry).2 ∧
     (Z.of_nat (BlobDrain.found (outcome_report o)) ≤ u64_max)%Z) →
  let a := es_world (exporting s) in
  (∃ a' report pre' w' log spool,
    run_end_report policy a normalized t proxy otlp retry auth = (a', Ok report) ∧
    inner a' = (inl <$> pre') ++ [inr ((w', log), spool)] ∧
    Completion.landed (events report) = Z.of_nat (length (acked log)) ∧
    events_account (events report) ∧ (normalized ≤ Completion.observed (events report))%Z ∧
    (is_complete report = true →
      terminal_errors t = [] ∧
      (∀ o, blob_outcome_of t = Some o → landed_count (outcome_report o) = BlobDrain.found (outcome_report o)) ∧
      ∃ rep raws n c ps, outcome s = Some (Ok rep) ∧ stream = Ok <$> raws ∧
        sequential argv_json context router raw_store options n0 c0 raws = (n, c, Ok ps) ∧
        acked log = (all_events ps).*2 ∧ (normalized ≤ Z.of_nat (length (all_events ps)))%Z)) ∧
  ∃ warnings, (run_end policy a normalized t proxy otlp retry auth argv_json health minted ts cut scratch status).2
              = Ok (mkCapturedRun (exit_u8_from_status status) warnings).
Proof.
  intros Hmax Hbatch Hwf Hfit Hs Hn Hpipe Hblobs a.
  destruct (reachable_run_inv policy Hmax Hbatch argv_json context router raw_store options n0 c0 pre w0 stream s Hwf Hfit Hs)
    as (acc & (pre' & [w lg] & sp & l & j & Hin & Hst & Hsp & Hd) & Hlen & Hout). fold a in Hin, Hd.
  destruct (drain_spool_run policy Hbatch acc pre' w lg sp retry Hlen Hst Hsp) as (w' & lg' & sp' & Hdrain & Hdata & Hsp').
  destruct (completion_accounts acc lg' sp' _ _ _ normalized Hlen Hn Hdata Hsp' Hd) as (Hdwf & Hacc & Hland & Hobs & Hall).
  assert (∀ o, blob_outcome_of t = Some o → blobs_wf (blob_delivery o) ∧ blobs_account (blob_delivery o)) as Hb.
  { unfold blob_outcome_of. intros o Ho. destruct (tr_blobs t) as [[o'|]|] eqn:Et; simplify_eq.
    destruct (Hblobs o eq_refl) as (bw & d & dr & -> & Hf). by apply blob_delivery_accounts. }
  assert (∃ report, run_end_report policy a normalized t proxy otlp retry auth =
      (mkAccounting ((inl <$> pre') ++ [inr ((w', lg'), sp')]) (reconcile_normalized (delivery a) normalized), Ok report) ∧
    events report = completion_event_delivery (Some (Spool.report sp')) (reconcile_normalized (delivery a) normalized) ∧
    blobs report = blob_delivery <$> blob_outcome_of t ∧
    (Completion.error report = None → terminal_errors t = []) ∧
    (has_unavailable_source (sources report) = false → ∃ rep, tr_pipeline t = Ok rep)) as (rep0 & Hrun & Hev & Hbl & Herr & Hok).
  { unfold run_end_report. rewrite Hin, Hdrain. eexists. split.
    { f_equal. unfold completion_report. apply completion_new_accepts; [exact Hdwf|exact Hacc|].
      cbn. intros b Hb'. apply fmap_Some in Hb' as (o & Ho & ->). by apply Hb. }
    split; [done|]. split; [done|]. cbn. split.
    - by destruct (terminal_errors t).
    - destruct (tr_pipeline t); [eauto|done]. }
  split.
  - eexists _, rep0, pre', w', lg', sp'. split_and!; [exact Hrun|done|by rewrite Hev|by rewrite Hev|rewrite Hev, Hobs; lia|].
    unfold is_complete. rewrite !andb_true_iff, negb_true_iff, !Z.eqb_eq, Hev, Hbl.
    intros (((((He & Hu) & Hd0) & Hr0) & Hp0) & Hbc).
    destruct (Hok Hu) as [rep Hrep]. apply Hpipe in Hrep.
    destruct (Hout rep Hrep) as (raws & n & c & ps & Hst' & Hseq & ->).
    destruct (Hall Hd0 Hr0 Hp0) as [Hack Hle]. rewrite length_fmap in Hle. split_and!.
    + apply Herr. by destruct (Completion.error rep0).
    + intros o Ho. rewrite Ho in Hbc. cbn in Hbc. apply andb_true_iff in Hbc as [Hm Hov].
      apply Z.eqb_eq in Hm, Hov. destruct (Hb o Ho) as [_ [Hsum _]]. cbn in *. lia.
    + by exists rep, raws, n, c, ps.
  - unfold run_end. rewrite Hrun. destruct (export_completion_record _ _ _ rep0) as [a2 exported].
    destruct (drain_spool policy retry (inner a2)) as [l2 last]. by eexists.
Qed.

(** *** Witness: a log and the spool, an ambiguous answer and a flaky upload *)

Section witnesses.
#[local] Existing Instances crockford_ulid Scripted.fake_sink Scripted.fake_serializer flaky_world LineRun.memory_exporter.
#[local] Instance memory_completion : CompletionExporter (list (list Event)) := {|
  export_completion x _ _ := (x, Ok ()); |}.
#[local] Instance scripted_spool : Exporter ((Scripted.FakeSink * SinkLog) * SpoolState) := spool_exporter Scripted.policy.
Import LineRun.

Definition captured_start : @Pipeline.state crockford_ulid nat
    (Accounting (list (list (list Event) + (Scripted.FakeSink * SinkLog) * SpoolState))) :=
  initial 0 (run_sinks [[]] (Scripted.mkFakeSink 0 [Scripted.RespondOther])) 0%Z signals.
Definition captured_final := run_schedule argv_json context [lines] None options captured_start schedule.

Definition flaky_outcome : BlobDrainOutcome := (finish 2 BlobDrainer_new DrainRetryPolicy_default).2.
Definition quiet_tasks (p : result warning PipelineReport) : TaskResults :=
  mkTasks (Ok ()) (Ok ()) (Ok ()) (Ok ()) (Ok ()) p (Some (Ok flaky_outcome)).
Definition pipeline_result (o : option (result PipelineError PipelineReport)) : result warning PipelineReport :=
  match o with Some (Ok rep) => Ok rep | _ => Err [bs "stdio event pipeline failed"] end.

Definition complete_result {A} (r : A * result CaptureCompletionError CaptureCompletionReport) : bool :=
  match r.2 with Ok report => is_complete report | Err _ => false end.

Lemma run_completion_faithful_witness :
  ∃ n c ps, sequential argv_json context [lines] None options 0 0%Z [line "a"; line "b"; line "c"] = (n, c, Ok ps) ∧
    length (all_events ps) = 3 ∧
    ∃ pre' w' log spool,
      inner (run_end_report Scripted.policy (es_world (exporting captured_final)) 3
               (quiet_tasks (pipeline_result (outcome captured_final))) true true DrainRetryPolicy_default None).1
      = (inl <$> pre') ++ [inr ((w', log), spool)] ∧ acked log = (all_events ps).*2.
Proof.
  assert (∀ s, rtc (pipeline_step argv_json context [lines] None options) captured_start s →
      complete_result (run_end_report Scripted.policy (es_world (exporting s)) 3
        (quiet_tasks (pipeline_result (outcome s))) true true DrainRetryPolicy_default None) = true →
    ∃ raws n c ps, signals = Ok <$> raws ∧ sequential argv_json context [lines] None options 0 0%Z raws = (n, c, Ok ps) ∧
      ∃ pre' w' log spool,
      inner (run_end_report Scripted.policy (es_world (exporting s)) 3
        (quiet_tasks (pipeline_result (outcome s))) true true DrainRetryPolicy_default None).1
      = (inl <$> pre') ++ [inr ((w', log), spool)] ∧ acked log = (all_events ps).*2) as Hgen.
  { intros s Hs Hc.
    destruct (run_completion_faithful argv_json Scripted.policy context [lines] None options 0 0%Z [[]]
      (Scripted.mkFakeSink 0 [Scripted.RespondOther]) signals s 3 (quiet_tasks (pipeline_result (outcome s))) true true
      DrainRetryPolicy_default None context (mkEventId (run_ulid (sample_run [1]))) (mkHlc 0 0) (λ _, None) None (ExitedCode 0))
      as [(a' & report & pre' & w' & log & spool & Hrun & Hin & _ & _ & _ & Hcomplete) _].
    - vm_compute; discriminate.
    - vm_compute; lia.
    - exact options_ok.
    - exact lines_fit.
    - exact Hs.
    - split; vm_compute; discriminate.
    - intros rep. unfold pipeline_result. cbn. destruct (outcome s) as [[]|]; intros [= ->]; done.
    - intros o Ho. exists 2, BlobDrainer_new, DrainRetryPolicy_default.
      assert (flaky_outcome = o) as <- by exact (f_equal (λ x, match x with Some (Ok o) => o | _ => flaky_outcome end) Ho).
      split; [reflexivity|vm_compute; discriminate].
    - unfold complete_result in Hc. rewrite Hrun in Hc. cbn in Hc.
      destruct (Hcomplete Hc) as (_ & _ & rep & raws & n & c & ps & _ & Hst & Hseq & Hack & _).
      exists raws, n, c, ps. split; [exact Hst|]. split; [exact Hseq|]. exists pre', w', log, spool.
      rewrite Hrun. split; [exact Hin|exact Hack]. }
  destruct (Hgen captured_final (run_schedule_rtc _ _ _ _ _ _ _) ltac:(vm_compute; reflexivity))
    as (raws & n & c & ps & Hst & Hseq & Hrest).
  exists n, c, ps.
  assert (raws = [line "a"; line "b"; line "c"]) as ->.
  { destruct raws as [|x [|y [|z [|v raws]]]]; try discriminate. by injection Hst as -> -> ->. }
  split; [exact Hseq|]. split; [|exact Hrest].
  assert (match (sequential argv_json context [lines] None options 0 0%Z [line "a"; line "b"; line "c"]).2 with
          | Ok ps => length (all_events ps) | Err _ => 0 end = 3) as Hl by (vm_compute; reflexivity).
  rewrite Hseq in Hl. exact Hl.
Defined.
End witnesses.
