(* ===== verification/ProxyMeta.v ===== *)
(** * What the proxy says of an exchange (crates/hiloop-interceptor/src/proxy.rs)

    The hosts, targets and model metadata that go onto the signals of captured
    HTTP exchanges, and the normalizer that turns those signals into events.
    The http crate's [Uri] is the record of its accessors; serde_json's parser
    is a parameter, its [Value] the type below. *)
From Stdlib Require Import Strings.Byte.
From S2P Require Import Prelude Text Net Identity Event Spool Seams Pipeline Egress Relay.

Definition REQUEST_KIND : str := bs "http.request".
Definition RESPONSE_KIND : str := bs "http.response".
Definition EGRESS_DENIED_KIND : str := bs "egress.denied".
Definition SECRET_EGRESS_DENIED_KIND : str := bs "secret.egress.denied".
Definition ABORT_KIND : str := bs "http.abort".
Definition GEN_AI_REQUEST_MODEL_ATTR : str := bs "gen_ai.request.model".
Definition GEN_AI_RESPONSE_MODEL_ATTR : str := bs "gen_ai.response.model".
Definition TOOL_CALL_ATTR : str := bs "tool_call".
Definition LLM_HOSTS : list str :=
  [bs "api.anthropic.com"; bs "api.openai.com"; bs "generativelanguage.googleapis.com"; bs "api.cohere.ai";
   bs "api.mistral.ai"].
Definition MAX_LLM_METADATA_VALUE_BYTES : nat := 128.
Definition CONTENT_TYPE : str := bs "content-type".
Definition CONTENT_ENCODING : str := bs "content-encoding".

(** ** Targets and hosts *)

(** [http::Uri]: its accessors, and [uri_text] for its display. *)
Record Uri := mkUri {
  uri_scheme : option str; uri_authority : option str; uri_host : option str; uri_port : option Z;
  uri_path : str; uri_path_and_query : option str; uri_text : str }.

Definition port_suffix (port : Z) : str := x3a :: show_uint port.
Definition strip_port (authority : str) (port : Z) : str := default authority (strip_suffix (port_suffix port) authority).

Definition default_port (scheme : str) : option Z :=
  if bool_decide (scheme = bs "https") then Some 443%Z
  else if bool_decide (scheme = bs "http") then Some 80%Z
  else None.

Definition telemetry_target (uri : Uri) : str :=
  match uri_scheme uri ≫= default_port with
  | None => uri_text uri
  | Some default_port =>
      match uri_port uri, uri_authority uri with
      | Some port, Some authority =>
          if negb (port =? default_port)%Z then uri_text uri
          else default [] (uri_scheme uri) ++ bs "://" ++ strip_port authority port ++ default [] (uri_path_and_query uri)
      | _, _ => uri_text uri
      end
  end.

Definition metadata_only_telemetry_target (uri : Uri) : str :=
  match uri_scheme uri, uri_authority uri with
  | Some scheme, Some authority =>
      let authority :=
        match default_port scheme, uri_port uri with
        | Some d, Some port => if (d =? port)%Z then strip_port authority port else authority
        | _, _ => authority
        end in
      scheme ++ bs "://" ++ authority ++ uri_path uri
  | _, _ => uri_path uri
  end.

Section hosts.
Context {L : UrlLib}.

Definition telemetry_host (host : str) : str :=
  match canonicalize_host host with Ok d => host_str d | Err _ => host end.

Definition is_llm_host (host : str) : bool :=
  let host := telemetry_host host in
  existsb (λ known, bool_decide (host = known) || ends_with (x2e :: known) host) LLM_HOSTS.

Context {H : Type} {HL : HeaderLib H}.

Definition header_str (headers : H) (name : str) : option str := head (get_all headers name) ≫= to_str.
Definition request_host (uri : Uri) (headers : H) : option str :=
  match uri_authority uri with Some authority => Some authority | None => header_str headers HOST end.
End hosts.

(** ** JSON *)

(** [serde_json::Value]; an object's keys are distinct. *)
Inductive Value :=
| VNull | VBool (b : bool) | VNumber (text : str) | VString (s : str) | VArray (items : list Value)
| VObject (fields : list (str * Value)).

Fixpoint field (fields : list (str * Value)) (k : str) : option Value :=
  match fields with
  | [] => None
  | (k', v) :: fields => if bool_decide (k' = k) then Some v else field fields k
  end.
Definition value_get (v : Value) (k : str) : option Value :=
  match v with VObject fields => field fields k | _ => None end.
Definition value_as_str (v : Value) : option str := match v with VString s => Some s | _ => None end.

(** ** Media types and bodies *)

Definition media_type (content_type : option str) : option str :=
  content_type ≫= λ value,
    let value := trim (default [] (head (split_on (byte_is x3b) value))) in
    if bool_decide (value = []) then None else Some (to_ascii_lowercase value).
Definition is_json_media_type (content_type : option str) : bool :=
  match media_type content_type with
  | Some value => bool_decide (value = bs "application/json") || ends_with (bs "+json") value
  | None => false
  end.
Definition is_event_stream_media_type (content_type : option str) : bool :=
  bool_decide (media_type content_type = Some (bs "text/event-stream")).

Fixpoint drop_whitespace (value : str) : str :=
  match value with b :: rest => if is_ascii_whitespace b then drop_whitespace rest else value | [] => [] end.
Definition trim_ascii (value : str) : str := reverse (drop_whitespace (reverse (drop_whitespace value))).
Definition body_looks_json (body : str) : bool :=
  match head (trim_ascii body) with Some b => byte_is x7b b || byte_is x5b b | None => false end.

(** ** Model metadata *)

Inductive LlmCaptureDirection := DirRequest | DirResponse.
Record LlmCaptureMetadata := mkLlm { llm_model : option str; llm_tool_call : option str }.
Definition LlmCaptureMetadata_default : LlmCaptureMetadata := mkLlm None None.
Definition llm_is_complete (m : LlmCaptureMetadata) : bool :=
  bool_decide (is_Some (llm_model m)) && bool_decide (is_Some (llm_tool_call m)).
Definition llm_merge (m other : LlmCaptureMetadata) : LlmCaptureMetadata :=
  mkLlm (match llm_model m with None => llm_model other | model => model end)
    (match llm_tool_call m with None => llm_tool_call other | tool_call => tool_call end).

Definition safe_byte (b : byte) : bool :=
  is_ascii_alphanumeric b || byte_is x2e b || byte_is x5f b || byte_is x2d b || byte_is x3a b || byte_is x2f b.
Definition safe_llm_metadata_value (value : str) : option str :=
  let value := trim value in
  if bool_decide (value = []) || Nat.ltb MAX_LLM_METADATA_VALUE_BYTES (length value) then None
  else if forallb safe_byte value then Some value else None.

Definition count_actual_tool_call_entries (v : Value) : nat :=
  match v with
  | VArray items => length items
  | VObject (_ :: _) => 1
  | _ => 0
  end.

Definition tool_call_keys : list str :=
  [bs "choices"; bs "message"; bs "messages"; bs "content"; bs "output"; bs "delta"; bs "item"; bs "response"].

(** The depths left: 9 of them, the code's depths 0 to 8. *)
Fixpoint count_tool_calls (depths : nat) (v : Value) : nat :=
  match depths with
  | O => 0
  | S depths =>
      match v with
      | VArray items => sum_list (count_tool_calls depths <$> items)
      | VObject _ =>
          (match value_get v (bs "tool_calls") with Some child => count_actual_tool_call_entries child | None => 0 end)
          + (match value_get v (bs "function_call") with Some VNull | None => 0 | Some _ => 1 end)
          + (if bool_decide ((value_get v (bs "type") ≫= value_as_str) ∈ [Some (bs "function_call"); Some (bs "tool_use")])
             then 1 else 0)
          + sum_list ((λ k, match value_get v k with Some child => count_tool_calls depths child | None => 0 end)
                        <$> tool_call_keys)
      | _ => 0
      end
  end.

Arguments count_tool_calls : simpl never.

Definition llm_metadata_from_json_value (v : Value) (direction : LlmCaptureDirection) : LlmCaptureMetadata :=
  let tool_count := match direction with DirRequest => 0 | DirResponse => count_tool_calls 9 v end in
  mkLlm ((value_get v (bs "model") ≫= value_as_str) ≫= safe_llm_metadata_value)
    (if Nat.ltb 0 tool_count then Some (show_uint (Z.min (Z.of_nat tool_count) 999)) else None).

Section llm.
Context {L : UrlLib} (parse_json : str → option Value).

Definition llm_metadata_from_json_bytes (body : str) (direction : LlmCaptureDirection) : LlmCaptureMetadata :=
  match parse_json body with
  | None => LlmCaptureMetadata_default
  | Some v => llm_metadata_from_json_value v direction
  end.

(** The data of a line of an event stream, when it has some to parse. *)
Definition stream_data (line : str) : option str :=
  data ← strip_prefix (bs "data:") (trim_ascii line);
  let data := trim_ascii data in
  if bool_decide (data = []) || bool_decide (data = bs "[DONE]") then None else Some data.

Fixpoint merge_lines (lines : list str) (direction : LlmCaptureDirection) (m : LlmCaptureMetadata) : LlmCaptureMetadata :=
  match lines with
  | [] => m
  | line :: lines =>
      match stream_data line with
      | None => merge_lines lines direction m
      | Some data =>
          let m := llm_merge m (llm_metadata_from_json_bytes data direction) in
          if llm_is_complete m then m else merge_lines lines direction m
      end
  end.
Definition llm_metadata_from_event_stream (body : str) (direction : LlmCaptureDirection) : LlmCaptureMetadata :=
  merge_lines (split_on (byte_is x0a) body) direction LlmCaptureMetadata_default.

Definition llm_capture_metadata (content_type : option str) (body : str) (direction : LlmCaptureDirection) : LlmCaptureMetadata :=
  if bool_decide (body = []) then LlmCaptureMetadata_default
  else if is_event_stream_media_type content_type then llm_metadata_from_event_stream body direction
  else if is_json_media_type content_type || body_looks_json body then llm_metadata_from_json_bytes body direction
  else LlmCaptureMetadata_default.

Abbreviation attribute_list := (list (str * str)).

Definition push_attribute_once (attributes : attribute_list) (key value : str) : attribute_list :=
  if existsb (λ a : str * str, bool_decide (a.1 = key)) attributes then attributes else attributes ++ [(key, value)].

Definition model_attr (direction : LlmCaptureDirection) : str :=
  match direction with DirRequest => GEN_AI_REQUEST_MODEL_ATTR | DirResponse => GEN_AI_RESPONSE_MODEL_ATTR end.

Definition append_llm_capture_attributes (attributes : attribute_list) (host content_type : option str) (body : str)
    (direction : LlmCaptureDirection) : attribute_list :=
  match host with
  | None => attributes
  | Some host =>
      if negb (is_llm_host host) then attributes
      else
        let metadata := llm_capture_metadata content_type body direction in
        let attributes := match llm_model metadata with
                          | Some model => push_attribute_once attributes (model_attr direction) model
                          | None => attributes
                          end in
        match llm_tool_call metadata with
        | Some tool_call => push_attribute_once attributes TOOL_CALL_ATTR tool_call
        | None => attributes
        end
  end.
End llm.

(** ** The normalizer *)

(** [DESCRIPTOR], with [env!("CARGO_PKG_VERSION")] of the crate. *)
Definition DESCRIPTOR : NormalizerDescriptor := mkDescriptor (bs "proxy-http") (bs "0.1.0") (bs "hiloop.event.v1").

(** A blank text of kind [k] is the only error of [text_new]. *)
Definition blank_message (k : text_kind) : str := text_field k ++ bs " must not be blank".

Definition proxy_kinds : list str := [REQUEST_KIND; RESPONSE_KIND; ABORT_KIND; EGRESS_DENIED_KIND; SECRET_EGRESS_DENIED_KIND].

Section normalizer.
Context {U : UlidLib} {L : UrlLib} {N : Type} (mint : N → N * EventId).

Definition proxy_supports (raw : RawSignal) : NormalizerSupport :=
  if bool_decide (raw_source raw = PROXY_SOURCE) && bool_decide (raw_kind raw ∈ proxy_kinds) then Exact else NotSupported.

Fixpoint with_raw_attributes (event : Event) (attributes : list (str * str)) : result EventError Event :=
  match attributes with
  | [] => Ok event
  | (k, v) :: attributes =>
      key ← text_new AttributeKeyK k;
      with_raw_attributes (with_attribute event key (AString v)) attributes
  end.

(** Every blank key gives the same error, so the order of the map is not
    observable. *)
Definition proxy_normalize (n : N) (context : NormalizationContext) (raw : RawSignal)
    : N * result NormalizeError NormalizationOutcome :=
  let decode k := Decode (raw_source raw) (raw_kind raw) (blank_message k) in
  let signal := match raw_attributes raw !! bs "http.host" with
                | Some host => if is_llm_host host then Llm else NetSignal
                | None => NetSignal
                end in
  match text_new EventNameK (raw_kind raw) with
  | Err _ => (n, Err (decode EventNameK))
  | Ok name =>
      let '(n, minted) := mint n in
      let event := Event_new minted (run_context context) (observed_at raw) signal name in
      (n, match with_raw_attributes event (map_to_list (raw_attributes raw)) with
          | Err _ => Err (decode AttributeKeyK)
          | Ok event =>
              Ok (from_events [match raw_payload_ref raw with Some p => with_payload_ref event p | None => event end])
          end)
  end.

Definition ProxyNormalizer : Normalizer N := mkNormalizer DESCRIPTOR proxy_supports proxy_normalize.
End normalizer.

(** ** Lemmas *)

Lemma strip_port_suffix a port : strip_port (a ++ port_suffix port) port = a.
Proof.
  unfold strip_port. rewrite (proj2 (strip_suffix_Some (port_suffix port) (a ++ port_suffix port) a)); done.
Qed.

Lemma push_attribute_once_spec (attributes : list (str * str)) k v :
  push_attribute_once attributes k v = if bool_decide (k ∈ attributes.*1) then attributes else attributes ++ [(k, v)].
Proof.
  unfold push_attribute_once.
  assert (existsb (λ a : str * str, bool_decide (a.1 = k)) attributes = bool_decide (k ∈ attributes.*1)) as ->; [|done].
  apply Bool.eq_iff_eq_true. rewrite existsb_exists, bool_decide_eq_true, list_elem_of_fmap. split.
  - intros ([k' v'] & Hin & Hk%bool_decide_eq_true). exists (k', v'). split; [done|]. by apply list_elem_of_In.
  - intros (a & -> & Hin). exists a. rewrite bool_decide_eq_true. split; [by apply list_elem_of_In|done].
Qed.

(** A safe value: what a model name may be on a signal. *)
Definition safe_value (v : str) : Prop :=
  0 < length v ≤ MAX_LLM_METADATA_VALUE_BYTES ∧ Forall (λ b, safe_byte b = true) v.
Definition safe_metadata (direction : LlmCaptureDirection) (m : LlmCaptureMetadata) : Prop :=
  (∀ v, llm_model m = Some v → safe_value v) ∧
  (∀ v, llm_tool_call m = Some v → direction = DirResponse ∧ ∃ n, (1 ≤ n ≤ 999)%Z ∧ v = show_uint n).

Lemma safe_llm_metadata_value_safe s v : safe_llm_metadata_value s = Some v → safe_value v.
Proof.
  unfold safe_llm_metadata_value. destruct (bool_decide _ || _) eqn:E; [done|].
  destruct (forallb safe_byte (trim s)) eqn:Ef; [|done]. intros [= <-].
  apply orb_false_iff in E as [Hne%bool_decide_eq_false Hlt%Nat.ltb_ge]. split.
  - split; [|done]. destruct (trim s); [done|cbn; lia].
  - apply Forall_forall. intros b Hb. rewrite forallb_forall in Ef. by apply Ef, list_elem_of_In.
Qed.

Lemma json_value_safe v direction : safe_metadata direction (llm_metadata_from_json_value v direction).
Proof.
  split; cbn [llm_model llm_tool_call llm_metadata_from_json_value]; intros x Hx.
  - destruct (value_get v (bs "model") ≫= value_as_str) as [s|]; [|done]. by eapply safe_llm_metadata_value_safe.
  - destruct direction; [done|]. split; [done|]. destruct (count_tool_calls 9 v) as [|n]; [done|]. cbn [Nat.ltb Nat.leb] in Hx. injection Hx as <-.
    eexists. split; [|done]. lia.
Qed.

Lemma default_safe direction : safe_metadata direction LlmCaptureMetadata_default.
Proof. done. Qed.

Section llm_lemmas.
Context {L : UrlLib} (parse_json : str → option Value).

Lemma json_bytes_safe body direction : safe_metadata direction (llm_metadata_from_json_bytes parse_json body direction).
Proof. unfold llm_metadata_from_json_bytes. destruct (parse_json body); [apply json_value_safe|apply default_safe]. Qed.

(** The early end of the loop is not observable: each part of the metadata is
    that of the first line that has it. *)
Definition line_metadata (direction : LlmCaptureDirection) (lines : list str) : list LlmCaptureMetadata :=
  (λ data, llm_metadata_from_json_bytes parse_json data direction) <$> omap stream_data lines.

Definition first_some {A} (l : list (option A)) : option A := head (omap id l).

Lemma merge_lines_spec lines direction m :
  merge_lines parse_json lines direction m =
  mkLlm (first_some (llm_model m :: (llm_model <$> line_metadata direction lines)))
    (first_some (llm_tool_call m :: (llm_tool_call <$> line_metadata direction lines))).
Proof.
  revert m. induction lines as [|line lines IH]; intros [model tool]; cbn [merge_lines].
  { unfold line_metadata, first_some. cbn. by destruct model, tool. }
  unfold line_metadata. cbn [omap list_omap]. destruct (stream_data line) as [data|]; [|apply IH].
  cbn [fmap list_fmap]. set (j := llm_metadata_from_json_bytes parse_json data direction).
  fold (line_metadata direction lines). unfold llm_merge, llm_is_complete. cbn.
  destruct (bool_decide _ && bool_decide _) eqn:Ec.
  - apply andb_true_iff in Ec as [H1%bool_decide_eq_true H2%bool_decide_eq_true]. cbn in H1, H2.
    unfold first_some. cbn. destruct model, tool, (llm_model j), (llm_tool_call j); cbn in *; try done;
      by (destruct H1 || destruct H2).
  - rewrite IH. unfold first_some. cbn. by destruct model, tool, (llm_model j), (llm_tool_call j).
Qed.

Lemma first_some_in {A} (l : list (option A)) a : first_some l = Some a → Some a ∈ l.
Proof.
  unfold first_some. induction l as [|[b|] l IH]; cbn; [done|intros [= ->]; by left|intros H; right; by apply IH].
Qed.

Lemma llm_capture_metadata_safe content_type body direction :
  safe_metadata direction (llm_capture_metadata parse_json content_type body direction).
Proof.
  unfold llm_capture_metadata. repeat case_match; try apply default_safe; try apply json_bytes_safe.
  unfold llm_metadata_from_event_stream. rewrite merge_lines_spec.
  assert (∀ m, m ∈ line_metadata direction (split_on (byte_is x0a) body) → safe_metadata direction m) as Hm.
  { intros m (data & -> & _)%list_elem_of_fmap. apply json_bytes_safe. }
  split; cbn [llm_model llm_tool_call]; intros v Hv%first_some_in; apply elem_of_cons in Hv as [Hv|Hv]; try done;
    apply list_elem_of_fmap in Hv as (m & Hmv & Hin); by apply (Hm m Hin).
Qed.

Definition push_opt (attributes : list (str * str)) (k : str) (v : option str) : list (str * str) :=
  match v with Some v => push_attribute_once attributes k v | None => attributes end.

Lemma push_opt_spec attributes k v :
  ∃ new, push_opt attributes k v = attributes ++ new ∧ NoDup new.*1 ∧
    ∀ k' v', (k', v') ∈ new → k' = k ∧ v = Some v' ∧ k ∉ attributes.*1.
Proof.
  destruct v as [v|]; cbn.
  2:{ exists []. rewrite app_nil_r. split_and!; [done|constructor|]. by intros ? ? ?%elem_of_nil. }
  rewrite push_attribute_once_spec. case_bool_decide as Hk.
  - exists []. rewrite app_nil_r. split_and!; [done|constructor|]. by intros ? ? ?%elem_of_nil.
  - exists [(k, v)]. split_and!; [done|apply NoDup_singleton|]. intros k' v' [= -> ->]%list_elem_of_singleton. done.
Qed.
End llm_lemmas.

Lemma with_raw_attributes_spec {U : UlidLib} (l : list (str * str)) (e0 : Event) :
  NoDup l.*1 → (∀ k v, (k, v) ∈ l → attributes e0 !! mkText k = None) →
  match with_raw_attributes e0 l with
  | Ok e => spine e = spine e0 ∧ payload_ref e = payload_ref e0 ∧
      ∀ k v, attributes e !! k = Some v ↔ attributes e0 !! k = Some v ∨ ∃ s, (as_str k, s) ∈ l ∧ v = AString s
  | Err _ => ∃ k v, (k, v) ∈ l ∧ is_blank k = true
  end.
Proof.
  revert e0. induction l as [|[k s] l IH]; intros e0 Hnd Hfresh; cbn [with_raw_attributes].
    { split_and!; [done..|]. intros k v. split; [by left|]. intros [?|(s & Hin & _)]; [done|]. by apply elem_of_nil in Hin. }
    apply NoDup_cons in Hnd as [Hni Hnd]. unfold text_new. destruct (is_blank k) eqn:Eb; cbn.
    { exists k, s. split; [by left|done]. }
    specialize (IH (with_attribute e0 (mkText k) (AString s)) Hnd). cbn in IH.
    destruct (with_raw_attributes _ l) as [e|].
    - destruct IH as (Hsp & Hp & Ha).
      { intros k' v' Hin. rewrite lookup_insert_ne; [apply (Hfresh k' v'); by right|]. intros [= ->]. apply Hni.
        apply list_elem_of_fmap. by exists (k', v'). }
      split_and!; [done..|]. intros k' v. rewrite Ha. destruct (decide (k' = mkText k)) as [->|Hne].
      + rewrite lookup_insert_eq. cbn. split.
        * intros [[= <-]|(s' & Hin & ->)]; [right; exists s; split; [by left|done]|]. right. exists s'. split; [by right|done].
        * intros [H|(s' & Hin & ->)]; [by rewrite (Hfresh k s) in H by (by left)|].
          apply elem_of_cons in Hin as [[= <-]|Hin]; [by left|]. right. by exists s'.
      + rewrite lookup_insert_ne by done. setoid_rewrite elem_of_cons. split; [naive_solver|].
        intros [H|(s' & [[= Hk' _]|Hin] & ->)]; [by left| |right; by exists s'].
        destruct Hne. destruct k'. cbn in Hk'. by subst.
    - destruct IH as (k' & v' & Hin & Hb).
      { intros k' v' Hin. rewrite lookup_insert_ne; [apply (Hfresh k' v'); by right|]. intros [= ->]. apply Hni.
        apply list_elem_of_fmap. by exists (k', v'). }
      exists k', v'. split; [by right|done].
Qed.

(** ** Properties *)

(** Telemetry never splits an endpoint over the default port.  Two URIs
    of one https (or http) endpoint, one spelling the scheme's default port and
    one not, give the same target and the same metadata-only target; any other
    explicit port stays; and the metadata-only target never shows the query. *)
Theorem proxy_target_canonical (scheme a path pq text : str) (host : option str) (port : Z) :
  default_port scheme = Some port →
  let shown := scheme ++ bs "://" ++ a ++ pq in
  let explicit := mkUri (Some scheme) (Some (a ++ port_suffix port)) host (Some port) path (Some pq) text in
  let implicit := mkUri (Some scheme) (Some a) host None path (Some pq) shown in
  telemetry_target explicit = shown ∧ telemetry_target implicit = shown ∧
  metadata_only_telemetry_target explicit = scheme ++ bs "://" ++ a ++ path ∧
  metadata_only_telemetry_target implicit = scheme ++ bs "://" ++ a ++ path ∧
  (∀ other, other ≠ port →
     telemetry_target (mkUri (Some scheme) (Some a) host (Some other) path (Some pq) text) = text ∧
     metadata_only_telemetry_target (mkUri (Some scheme) (Some a) host (Some other) path (Some pq) text)
     = scheme ++ bs "://" ++ a ++ path) ∧
  ∀ u u', uri_scheme u = uri_scheme u' → uri_authority u = uri_authority u' → uri_port u = uri_port u' →
    uri_path u = uri_path u' → metadata_only_telemetry_target u = metadata_only_telemetry_target u'.
Proof.
  intros Hp shown explicit implicit. unfold telemetry_target, metadata_only_telemetry_target, explicit, implicit. cbn.
  rewrite Hp, Z.eqb_refl. cbn [negb]. rewrite !strip_port_suffix. split_and!; try done.
  - intros other Ho. assert ((other =? port)%Z = false) as -> by (by apply Z.eqb_neq).
    assert ((port =? other)%Z = false) as -> by (apply Z.eqb_neq; congruence). done.
  - by intros u u' -> -> -> ->.
Qed.

Lemma proxy_target_canonical_witness :
  telemetry_target (mkUri (Some (bs "https")) (Some (bs "api.openai.com:443")) (Some (bs "api.openai.com")) (Some 443%Z)
    (bs "/v1") (Some (bs "/v1?x=1")) (bs "https://api.openai.com:443/v1?x=1")) = bs "https://api.openai.com/v1?x=1".
Proof.
  destruct (proxy_target_canonical (bs "https") (bs "api.openai.com") (bs "/v1") (bs "/v1?x=1")
    (bs "https://api.openai.com:443/v1?x=1") (Some (bs "api.openai.com")) 443 eq_refl) as [H _].
  exact H.
Defined.

(** What a body may add to its signal.  Only for a model provider's host,
    at most one model name and one tool-call count are appended, never over an
    attribute already there: the model is one to 128 bytes of letters, digits
    and [._-:/], the count is of a response and between 1 and 999.  In an event
    stream each is that of the first line that has one. *)
Theorem llm_attributes_safe {L : UrlLib} (parse_json : str → option Value) (attributes : list (str * str))
    (host content_type : option str) (body : str) (direction : LlmCaptureDirection) :
  (∃ new, append_llm_capture_attributes parse_json attributes host content_type body direction = attributes ++ new ∧
     (new ≠ [] → ∃ h, host = Some h ∧ is_llm_host h = true) ∧ NoDup new.*1 ∧
     ∀ k v, (k, v) ∈ new → k ∉ attributes.*1 ∧
       (k = model_attr direction ∧ safe_value v ∨
        k = TOOL_CALL_ATTR ∧ direction = DirResponse ∧ ∃ n, (1 ≤ n ≤ 999)%Z ∧ v = show_uint n)) ∧
  let lines := line_metadata parse_json direction (split_on (byte_is x0a) body) in
  llm_metadata_from_event_stream parse_json body direction =
    mkLlm (first_some (llm_model <$> lines)) (first_some (llm_tool_call <$> lines)).
Proof.
  split; [|unfold llm_metadata_from_event_stream; by rewrite merge_lines_spec].
  assert (append_llm_capture_attributes parse_json attributes host content_type body direction = attributes ∨
    ∃ h, host = Some h ∧ is_llm_host h = true ∧
      append_llm_capture_attributes parse_json attributes host content_type body direction =
      let m := llm_capture_metadata parse_json content_type body direction in
      push_opt (push_opt attributes (model_attr direction) (llm_model m)) TOOL_CALL_ATTR (llm_tool_call m)) as [-> | (h & Hh & Hllm & ->)].
  { unfold append_llm_capture_attributes. destruct host as [h|]; [|by left].
    destruct (is_llm_host h) eqn:E; [|by left]. right. by exists h. }
  { exists []. rewrite app_nil_r. split_and!; [done|done|constructor|]. by intros ? ? ?%elem_of_nil. }
  cbv zeta. destruct (llm_capture_metadata_safe parse_json content_type body direction) as [Hmodel Htool].
  destruct (push_opt_spec attributes (model_attr direction) (llm_model (llm_capture_metadata parse_json content_type body direction)))
    as (n1 & -> & Hd1 & H1).
  destruct (push_opt_spec (attributes ++ n1) TOOL_CALL_ATTR (llm_tool_call (llm_capture_metadata parse_json content_type body direction)))
    as (n2 & -> & Hd2 & H2).
  exists (n1 ++ n2). rewrite <- app_assoc. split_and!; [done|eauto| |].
  - rewrite fmap_app. apply NoDup_app. split_and!; [done| |done]. intros k (p1 & -> & Hp1)%list_elem_of_fmap Hk.
    apply list_elem_of_fmap in Hk as (p2 & Hk & Hp2). destruct p1 as [k1 v1], p2 as [k2 v2]. cbn in Hk. subst k2.
    destruct (H2 _ _ Hp2) as (-> & _ & Hni). apply Hni. rewrite fmap_app, elem_of_app. right.
    apply list_elem_of_fmap. by exists (TOOL_CALL_ATTR, v1).
  - intros k v [Hin|Hin]%elem_of_app.
    + destruct (H1 _ _ Hin) as (-> & Hv & Hni). split; [done|]. left. split; [done|]. by apply Hmodel.
    + destruct (H2 _ _ Hin) as (-> & Hv & Hni). rewrite fmap_app, elem_of_app in Hni. split; [naive_solver|].
      right. split; [done|]. by apply Htool.
Qed.

(** A proxy signal becomes one event that says exactly what it said.  A
    signal the normalizer supports gives the event named after its kind, at its
    time, in the model family exactly for a provider's host, with the signal's
    attributes and payload reference and nothing else; it is refused exactly
    when an attribute's key is blank. *)
Theorem proxy_event_faithful {U : UlidLib} {L : UrlLib} {N : Type} (mint : N → N * EventId) (n : N)
    (context : NormalizationContext) (raw : RawSignal) :
  proxy_supports raw = Exact →
  match (proxy_normalize mint n context raw).2 with
  | Ok out => ∃ e, out = from_events [e] ∧ as_str (event_name e) = raw_kind raw ∧ event_id e = (mint n).2 ∧
      run_id e = ctx_run_id (run_context context) ∧ ts e = observed_at raw ∧ payload_ref e = raw_payload_ref raw ∧
      (signal e = Llm ↔ ∃ host, raw_attributes raw !! bs "http.host" = Some host ∧ is_llm_host host = true) ∧
      ∀ k v, attributes e !! k = Some v ↔ ∃ s, raw_attributes raw !! as_str k = Some s ∧ v = AString s
  | Err e => e = Decode (raw_source raw) (raw_kind raw) (blank_message AttributeKeyK) ∧
      ∃ k v, raw_attributes raw !! k = Some v ∧ is_blank k = true
  end.
Proof.
  intros Hs. unfold proxy_supports in Hs. destruct (bool_decide _ && bool_decide _) eqn:E; [|done].
  apply andb_true_iff in E as [_ Hk%bool_decide_eq_true].
  assert (text_new EventNameK (raw_kind raw) = Ok (mkText (raw_kind raw))) as Hn.
  { apply text_new_Ok. split; [|done]. unfold proxy_kinds in Hk.
    repeat (apply elem_of_cons in Hk as [-> |Hk]; [vm_compute; reflexivity|]). by apply elem_of_nil in Hk. }
  unfold proxy_normalize. rewrite Hn. destruct (mint n) as [n' minted]. cbn [snd].
  set (signal := match _ with Some host => _ | None => _ end).
  assert (signal = Llm ↔ ∃ host, raw_attributes raw !! bs "http.host" = Some host ∧ is_llm_host host = true) as Hsig.
  { unfold signal. destruct (raw_attributes raw !! bs "http.host") as [h|]; [|split; [done|by intros (h & ? & _)]].
    destruct (is_llm_host h) eqn:Eh; (split; [|intros (h' & [= <-] & Hh)]); try done; [by exists h|congruence]. }
  pose proof (with_raw_attributes_spec (map_to_list (raw_attributes raw))
    (Event_new minted (run_context context) (observed_at raw) signal (mkText (raw_kind raw)))
    (NoDup_fst_map_to_list _)) as Hgen. cbn in Hgen.
  destruct (with_raw_attributes _ _) as [e|er].
  - destruct Hgen as (Hsp & Hp & Ha); [intros; apply lookup_empty|]. unfold spine in Hsp. cbn in Hsp. injection Hsp as H1 H2 H3 H4 H5 H6.
    exists (match raw_payload_ref raw with Some p => with_payload_ref e p | None => e end).
    destruct (raw_payload_ref raw) as [p|]; cbn; rewrite ?H1, ?H2, ?H3, ?H5, ?H6; (split_and!; try done);
      intros k v; rewrite Ha, lookup_empty; setoid_rewrite elem_of_map_to_list; naive_solver.
  - split; [done|]. destruct Hgen as (k & v & Hin & Hb); [intros; apply lookup_empty|].
    exists k, v. by rewrite elem_of_map_to_list in Hin.
Qed.

Section witnesses.
#[local] Existing Instance crockford_ulid.
#[local] Instance no_hosts : UrlLib := {| Host_parse s := Some (HostDomain s) |}.

Definition sample_signal : RawSignal :=
  RawSignal_with_attribute (RawSignal_new PROXY_SOURCE REQUEST_KIND (mkHlc 5 0) []) (bs "http.host") (bs "api.openai.com").
Definition sample_mint (n : nat) : nat * EventId := (S n, mkEventId (run_ulid (sample_run [1]))).

Lemma proxy_event_faithful_witness :
  match (proxy_normalize sample_mint 0 (NormalizationContext_new Spool.Scripted.ctx) sample_signal).2 with
  | Ok out => signal <$> outcome_events out = [Llm]
  | Err _ => False
  end.
Proof.
  assert (is_ok (proxy_normalize sample_mint 0 (NormalizationContext_new Spool.Scripted.ctx) sample_signal).2 = true) as Hok
    by (vm_compute; reflexivity).
  pose proof (proxy_event_faithful sample_mint 0 (NormalizationContext_new Spool.Scripted.ctx) sample_signal ltac:(vm_compute; reflexivity)) as H.
  destruct (proxy_normalize sample_mint 0 (NormalizationContext_new Spool.Scripted.ctx) sample_signal).2 as [out|e]; [|discriminate].
  destruct H as (e & -> & _ & _ & _ & _ & _ & Hsig & _). cbn. f_equal. apply Hsig.
  exists (bs "api.openai.com"). split; vm_compute; reflexivity.
Defined.
End witnesses.
