(* ===== verification/ProxyTee.v ===== *)
(** * The proxy's body tee (crates/hiloop-interceptor/src/proxy.rs)

    A teed body passes every frame on as it comes and keeps a bounded copy of
    the data, which is redacted, offloaded and reported by a task once the body
    has ended, failed or been dropped.  All the exchanges of a proxy share one
    budget of buffered bytes; [tee_step] interleaves them.  The clock, the blob
    store and the runtime that runs a scan are the class [CaptureWorld]. *)
From Stdlib Require Import Strings.Byte.
From stdpp Require Import relations.
From S2P Require Import Prelude Text Identity Event Spool Seams Pipeline Blob Egress NetCapture Redact Anomaly Relay ProxyMeta.

Definition DEFAULT_MAX_CAPTURE_BYTES : Z := 8 * 1024 * 1024.
Definition DEFAULT_CAPTURE_BUFFER_BUDGET_BYTES : Z := 32 * 1024 * 1024.
Definition TRUNCATED_ATTR : str := bs "http.capture.truncated".
Definition BODY_OMITTED_ATTR : str := bs "http.capture.body_omitted".
Definition REDACTION_UNAVAILABLE_OMISSION : str := bs "credential_scan_unavailable".
Definition REQUEST_WIRE_SIZE_ATTR : str := bs "http.request.wire_size".
Definition RESPONSE_WIRE_SIZE_ATTR : str := bs "http.response.wire_size".
Definition FLAGGED_ATTR : str := bs "anomaly.flagged".
Definition HTTP_HOST : str := bs "http.host".

(** ** The world of a capture *)

Class CaptureWorld (W : Type) := {
  tick : W → W * Hlc;
  scan_completes : W → W * bool;
  blob_writer : W → W * nat;
  blob_write : W → nat → str → W * result BlobStoreError unit;
  blob_finish : W → nat → W * result BlobStoreError PayloadRef;
}.

Abbreviation attribute_list := (list (str * str)).

(** ** Signals *)

Definition raw_with_attributes (raw : RawSignal) (attributes : attribute_list) : RawSignal :=
  fold_left (λ raw a, RawSignal_with_attribute raw a.1 a.2) attributes raw.

Record TeeChannel := mkChannel { ch_kind : str; ch_size_attr : str; ch_wire_size_attr : str; ch_direction : LlmCaptureDirection }.
Definition REQUEST_TEE : TeeChannel :=
  mkChannel REQUEST_KIND (bs "http.request.body_size") REQUEST_WIRE_SIZE_ATTR DirRequest.
Definition RESPONSE_TEE : TeeChannel :=
  mkChannel RESPONSE_KIND (bs "http.response.body_size") RESPONSE_WIRE_SIZE_ATTR DirResponse.

Definition mark_truncated (raw : RawSignal) (truncated : bool) : RawSignal :=
  if truncated then RawSignal_with_attribute raw TRUNCATED_ATTR (bs "true") else raw.

Definition join_flag_names (flags : list AnomalyFlag) : str := join (bs ",") ((λ f, AnomalyRule_name (rule f)) <$> flags).

Record RequestBodyInspection := mkInspection { in_config : AnomalyConfig; in_method : str; in_scan : BodyScan }.
Definition flag_attribute (i : RequestBodyInspection) (content_type : option str) : option (str * str) :=
  match anomaly_evaluate (in_config i) (in_method i) content_type (in_scan i) with
  | [] => None
  | flags => Some (FLAGGED_ATTR, join_flag_names flags)
  end.

(** What a finished tee hands to its task. *)
Record FinalizeTee := mkFinalize {
  ft_channel : TeeChannel; ft_attributes : attribute_list; ft_captured : str; ft_redaction : RedactionPolicy;
  ft_disposition : CaptureDisposition; ft_media_type : option str; ft_truncated : bool;
  ft_inspection : option RequestBodyInspection; ft_wire_bytes : Z }.

Section signals.
Context {L : UrlLib} (parse_json : str → option Value) (find : ScanMode → str → list Match).
Context {W : Type} {CW : CaptureWorld W}.

Definition metadata_only_signal (w : W) (channel : TeeChannel) (attributes : attribute_list) (omission_reason : str)
    (wire_bytes : Z) (truncated : bool) : W * RawSignal :=
  let '(w, ts) := tick w in
  let raw := RawSignal_new PROXY_SOURCE (ch_kind channel) ts [] in
  let raw := RawSignal_with_attribute raw (ch_size_attr channel) (bs "0") in
  let raw := RawSignal_with_attribute raw (ch_wire_size_attr channel) (show_uint wire_bytes) in
  let raw := RawSignal_with_attribute raw BODY_OMITTED_ATTR omission_reason in
  (w, raw_with_attributes (mark_truncated raw truncated) attributes).

Definition credential_scan_unavailable_signal (w : W) (channel : TeeChannel) (attributes : attribute_list)
    (wire_bytes : Z) (truncated : bool) : W * RawSignal :=
  metadata_only_signal w channel attributes REDACTION_UNAVAILABLE_OMISSION wire_bytes truncated.

Definition bound_metadata_signal (w : W) (channel : TeeChannel) (attributes : attribute_list) : W * RawSignal :=
  let '(w, ts) := tick w in
  (w, raw_with_attributes (RawSignal_new PROXY_SOURCE (ch_kind channel) ts []) attributes).

Definition with_payload (raw : RawSignal) (p : option PayloadRef) : RawSignal :=
  match p with Some p => RawSignal_with_payload_ref raw p | None => raw end.

Definition build_raw (w : W) (kind size_attr : str) (attributes : attribute_list) (body : str) (truncated : bool)
    (payload : option PayloadRef) : W * RawSignal :=
  let size := Z.of_nat (length body) in
  let '(w, ts) := tick w in
  let raw := RawSignal_new PROXY_SOURCE kind ts (match payload with Some _ => [] | None => body end) in
  let raw := RawSignal_with_attribute raw size_attr (show_uint size) in
  (w, with_payload (raw_with_attributes (mark_truncated raw truncated) attributes) payload).

(** [RedactionPolicy::redact_body_async]: the scan runs on the runtime, whose
    failure (also a scan that panics) is an error. *)
Definition redact (w : W) (p : RedactionPolicy) (body : str) : W * option str :=
  if negb (policy_enabled p) || bool_decide (body = []) then (w, Some body)
  else
    let '(w, completes) := scan_completes w in
    (w, if completes then redact_body_async find p body else None).

Definition apply_media_type (p : PayloadRef) (media_type : option str) : PayloadRef :=
  match media_type with
  | Some value => match text_new MediaTypeK value with Ok m => with_media_type p m | Err _ => p end
  | None => p
  end.

Definition offload_bytes (w : W) (bytes : str) (media_type : option str) : W * result BlobStoreError PayloadRef :=
  let '(w, writer) := blob_writer w in
  match blob_write w writer bytes with
  | (w, Err e) => (w, Err e)
  | (w, Ok _) => let '(w, r) := blob_finish w writer in (w, (λ p, apply_media_type p media_type) <$> r)
  end.

Definition find_host (attributes : attribute_list) : option str :=
  snd <$> head (filter (λ a : str * str, a.1 = HTTP_HOST) attributes).

Definition finalize_tee (w : W) (a : FinalizeTee) : W * RawSignal :=
  let channel := ft_channel a in
  let attributes := ft_attributes a ++ option_list (ft_inspection a ≫= λ i, flag_attribute i (ft_media_type a)) in
  match ft_disposition a with
  | MetadataOnly BoundSecret => bound_metadata_signal w channel attributes
  | MetadataOnly sensitive =>
      metadata_only_signal w channel attributes (omission_reason sensitive) (ft_wire_bytes a) (ft_truncated a)
  | NetCapture.Full =>
      match redact w (ft_redaction a) (ft_captured a) with
      | (w, None) => credential_scan_unavailable_signal w channel attributes (ft_wire_bytes a) (ft_truncated a)
      | (w, Some stored) =>
          let attributes := append_llm_capture_attributes parse_json attributes (find_host attributes) (ft_media_type a)
                              stored (ch_direction channel) in
          let size := Z.of_nat (length stored) in
          let '(w, payload) := offload_bytes w stored (ft_media_type a) in
          let '(w, ts) := tick w in
          let raw := RawSignal_new PROXY_SOURCE (ch_kind channel) ts [] in
          let raw := RawSignal_with_attribute raw (ch_size_attr channel) (show_uint size) in
          let raw := RawSignal_with_attribute raw (ch_wire_size_attr channel) (show_uint (ft_wire_bytes a)) in
          (w, with_payload (raw_with_attributes (mark_truncated raw (ft_truncated a)) attributes)
                (match payload with Ok p => Some p | Err _ => None end))
      end
  end.
End signals.

(** ** One tee *)

Section tee.
Context {H : Type}.
Abbreviation frame := (@body_frame H).

Record TeeState := mkTee {
  upstream : option (list (result str frame)); te_captured : str; capture_permit : Z;
  max_capture_bytes : option Z; te_disposition : CaptureDisposition; te_redaction : RedactionPolicy; capped : bool;
  te_media_type : option str; te_attributes : attribute_list; te_channel : TeeChannel;
  te_inspection : option RequestBodyInspection; wire_bytes : Z; emitted : bool }.

(** [tee_body] *)
Definition tee_body (channel : TeeChannel) (attributes : attribute_list) (media_type : option str)
    (inspection : option RequestBodyInspection) (cap : option Z) (redaction : RedactionPolicy)
    (disposition : CaptureDisposition) (body : list (result str frame)) : TeeState :=
  mkTee (Some body) [] 0 cap disposition redaction false media_type attributes channel inspection 0 false.

Definition set_observed (st : TeeState) (data : str) : TeeState :=
  mkTee (upstream st) (te_captured st) (capture_permit st) (max_capture_bytes st) (te_disposition st) (te_redaction st)
    (capped st) (te_media_type st) (te_attributes st) (te_channel st)
    ((λ i, mkInspection (in_config i) (in_method i) (observe (in_scan i) data)) <$> te_inspection st)
    (saturating_add u64_max (wire_bytes st) (Z.of_nat (length data))) (emitted st).
Definition set_capture (st : TeeState) (captured : str) (permit : Z) (capped : bool) : TeeState :=
  mkTee (upstream st) captured permit (max_capture_bytes st) (te_disposition st) (te_redaction st)
    capped (te_media_type st) (te_attributes st) (te_channel st) (te_inspection st) (wire_bytes st) (emitted st).
Definition set_upstream (st : TeeState) (up : option (list (result str frame))) : TeeState :=
  mkTee up (te_captured st) (capture_permit st) (max_capture_bytes st) (te_disposition st) (te_redaction st)
    (capped st) (te_media_type st) (te_attributes st) (te_channel st) (te_inspection st) (wire_bytes st) (emitted st).

(** [capture]; [budget] is what the semaphore has left. *)
Definition capture (budget : Z) (st : TeeState) (data : str) : Z * TeeState :=
  let st := set_observed st data in
  match te_disposition st with
  | MetadataOnly _ => (budget, st)
  | NetCapture.Full =>
      if capped st then (budget, st)
      else
        let '(data, cut) :=
          match max_capture_bytes st with
          | Some cap =>
              let remaining := saturating_sub cap (Z.of_nat (length (te_captured st))) in
              let taken := Z.to_nat (Z.min remaining (Z.of_nat (length data))) in
              (take taken data, Nat.ltb taken (length data))
          | None => (data, false)
          end in
        let st := set_capture st (te_captured st) (capture_permit st) cut in
        if bool_decide (data = []) then (budget, st)
        else
          let permits := Z.of_nat (length data) in
          if (u32_max <? permits)%Z || (budget <? permits)%Z
          then (budget, set_capture st (te_captured st) (capture_permit st) true)
          else (budget - permits, set_capture st (te_captured st ++ data) (capture_permit st + permits) (capped st))%Z
  end.

(** [spawn_emit]: the arguments and the permit of the task it spawns. *)
Definition spawn_emit (st : TeeState) (truncated : bool) : TeeState * option (FinalizeTee * Z) :=
  if emitted st then (st, None)
  else
    (mkTee (upstream st) [] 0 (max_capture_bytes st) (te_disposition st) (te_redaction st) (capped st) None []
       (te_channel st) None (wire_bytes st) true,
     Some (mkFinalize (te_channel st) (te_attributes st) (te_captured st) (te_redaction st) (te_disposition st)
             (te_media_type st) (truncated || capped st) (te_inspection st) (wire_bytes st), capture_permit st)).

(** One poll of the teed stream: the item it yields, and the task spawned. *)
Definition tee_next (budget : Z) (st : TeeState)
    : Z * TeeState * option (result str frame) * option (FinalizeTee * Z) :=
  match upstream st with
  | None => (budget, st, None, None)
  | Some (Ok f :: rest) =>
      let st := set_upstream st (Some rest) in
      let '(budget, st) := match f with Data data => capture budget st data | Trailers _ => (budget, st) end in
      (budget, st, Some (Ok f), None)
  | Some (Err e :: rest) =>
      let '(st, task) := spawn_emit (set_upstream st None) true in (budget, st, Some (Err e), task)
  | Some [] => let '(st, task) := spawn_emit (set_upstream st None) false in (budget, st, None, task)
  end.

(** [Drop] *)
Definition drop_tee (st : TeeState) : option (FinalizeTee * Z) := (spawn_emit st true).2.
End tee.

(** ** All the tees of a proxy *)

(** How a tee ended: its body ended, failed, or its consumer went away. *)
Inductive ending := EndClean | EndFailed | EndCut.
#[export] Instance ending_eq_dec : EqDecision ending.
Proof. solve_decision. Defined.

(** What a world has been asked to store. *)
#[export] Instance recorded_world {W} {CW : CaptureWorld W} : CaptureWorld (W * list str) := {
  tick w := let '(x, r) := tick w.1 in ((x, w.2), r);
  scan_completes w := let '(x, r) := scan_completes w.1 in ((x, w.2), r);
  blob_writer w := let '(x, r) := blob_writer w.1 in ((x, w.2), r);
  blob_write w writer bytes := let '(x, r) := blob_write w.1 writer bytes in ((x, w.2 ++ [bytes]), r);
  blob_finish w writer := let '(x, r) := blob_finish w.1 writer in ((x, w.2), r);
}.

Section system.
Context {L : UrlLib} (parse_json : str → option Value) (find : ScanMode → str → list Match).
Context {H : Type} {W : Type} {CW : CaptureWorld W}.
Abbreviation frame := (@body_frame H).
Abbreviation tee := (@TeeState H).

(** A tee with its history: the items its consumer got, how it ended, its
    task, and the permits and the signal of the task. *)
Record entry := mkEntry {
  en_start : tee; en_seen : list (result str frame); en_state : option tee; en_end : option ending;
  en_task : option FinalizeTee; en_held : Z; en_signal : option RawSignal }.

Record system := mkSystem { sy_world : W * list str; sy_budget : Z; sy_entries : list entry }.

Inductive tee_label :=
| Open (channel : TeeChannel) (attributes : attribute_list) (media_type : option str)
    (inspection : option RequestBodyInspection) (cap : option Z) (redaction : RedactionPolicy)
    (disposition : CaptureDisposition) (body : list (result str frame))
| PollTee (i : nat)
| DropTee (i : nat)
| RunTask (i : nat).

Definition open_entry (st : tee) : entry := mkEntry st [] (Some st) None None 0 None.

Definition poll_entry (e : entry) (st : tee) (item : option (result str frame)) (task : option (FinalizeTee * Z)) : entry :=
  mkEntry (en_start e) (en_seen e ++ option_list item) (Some st)
    (match task with
     | None => en_end e
     | Some _ => Some (match item with None => EndClean | Some _ => EndFailed end)
     end)
    (match task with Some (j, _) => Some j | None => en_task e end)
    (match task with Some (_, permit) => permit | None => en_held e end) (en_signal e).

Definition drop_entry (e : entry) (task : option (FinalizeTee * Z)) : entry :=
  mkEntry (en_start e) (en_seen e) None (match task with Some _ => Some EndCut | None => en_end e end)
    (match task with Some (j, _) => Some j | None => en_task e end)
    (match task with Some (_, permit) => permit | None => en_held e end) (en_signal e).

Definition tee_step_fn (l : tee_label) (s : system) : option system :=
  match l with
  | Open channel attributes media_type inspection cap redaction disposition body =>
      let st := tee_body channel attributes media_type inspection cap redaction disposition body in
      Some (mkSystem (sy_world s) (sy_budget s) (sy_entries s ++ [open_entry st]))
  | PollTee i =>
      e ← sy_entries s !! i;
      st ← en_state e;
      let '(budget, st, item, task) := tee_next (sy_budget s) st in
      Some (mkSystem (sy_world s) budget (<[i := poll_entry e st item task]> (sy_entries s)))
  | DropTee i =>
      e ← sy_entries s !! i;
      st ← en_state e;
      Some (mkSystem (sy_world s) (sy_budget s) (<[i := drop_entry e (drop_tee st)]> (sy_entries s)))
  | RunTask i =>
      e ← sy_entries s !! i;
      j ← en_task e;
      match en_signal e with
      | Some _ => None
      | None =>
          let '(w, raw) := finalize_tee parse_json find (sy_world s) j in
          Some (mkSystem w (sy_budget s + en_held e)
            (<[i := mkEntry (en_start e) (en_seen e) (en_state e) (en_end e) (en_task e) 0 (Some raw)]> (sy_entries s)))
      end
  end.
Definition tee_step (s s' : system) : Prop := ∃ l, tee_step_fn l s = Some s'.
Definition tee_init (w : W) (budget : Z) : system := mkSystem (w, []) budget [].

(** ** Specification *)

Definition frames_data (l : list (result str frame)) : str :=
  l ≫= λ r, match r with Ok (Data d) => d | _ => [] end.
Definition chunks (l : list (result str frame)) : list str :=
  omap (λ r, match r with Ok (Data d) => Some d | _ => None end) l.

Definition observed_all (i : RequestBodyInspection) (l : list (result str frame)) : RequestBodyInspection :=
  mkInspection (in_config i) (in_method i) (fold_left observe (chunks l) (in_scan i)).

(** What a tee started as [st0] has captured of [seen]. *)
Record captured_ok (st0 : tee) (seen : list (result str frame)) (captured : str) (capped : bool) (wire : Z)
    (inspection : option RequestBodyInspection) : Prop := {
  co_prefix : captured `prefix_of` frames_data seen;
  co_full : te_disposition st0 = NetCapture.Full → (capped = true ↔ captured ≠ frames_data seen);
  co_none : te_disposition st0 ≠ NetCapture.Full → captured = [] ∧ capped = false;
  co_cap : ∀ cap, max_capture_bytes st0 = Some cap → (Z.of_nat (length captured) ≤ Z.max 0 cap)%Z;
  co_wire : wire = Z.min u64_max (Z.of_nat (length (frames_data seen)));
  co_scan : inspection = (λ i, observed_all i seen) <$> te_inspection st0;
}.

(** The parts of a tee that do not change while it runs. *)
Definition configuration (st : tee) :=
  (te_channel st, te_attributes st, te_media_type st, te_redaction st, te_disposition st, max_capture_bytes st).
Definition task_configuration (j : FinalizeTee) :=
  (ft_channel j, ft_attributes j, ft_media_type j, ft_redaction j, ft_disposition j).
Definition start_configuration (st : tee) :=
  (te_channel st, te_attributes st, te_media_type st, te_redaction st, te_disposition st).

Definition frame_passed (r : result str frame) : Prop := is_Some (match r with Ok f => Some f | Err _ => None end).

(** How a body that gave [seen] and has [rest] left ended. *)
Definition ended_as (k : ending) (seen rest : list (result str frame)) : Prop :=
  match k with
  | EndClean => rest = [] ∧ Forall frame_passed seen
  | EndFailed => ∃ pre e, seen = pre ++ [Err e] ∧ Forall frame_passed pre
  | EndCut => Forall frame_passed seen
  end.

Record running_tee (e : entry) (st : tee) (rest : list (result str frame)) : Prop := {
  rt_upstream : upstream st = Some rest;
  rt_emitted : emitted st = false;
  rt_config : configuration st = configuration (en_start e);
  rt_captured : captured_ok (en_start e) (en_seen e) (te_captured st) (capped st) (wire_bytes st) (te_inspection st);
  rt_permit : capture_permit st = Z.of_nat (length (te_captured st));
  rt_passed : Forall frame_passed (en_seen e);
  rt_task : en_task e = None;
  rt_held : en_held e = 0%Z;
  rt_signal : en_signal e = None;
}.

Record ended_tee (e : entry) (k : ending) (rest : list (result str frame)) (j : FinalizeTee) : Prop := {
  et_state : ∀ st, en_state e = Some st → upstream st = None ∧ emitted st = true ∧ capture_permit st = 0%Z;
  et_task : en_task e = Some j;
  et_config : task_configuration j = start_configuration (en_start e);
  et_captured : ∃ capped, captured_ok (en_start e) (en_seen e) (ft_captured j) capped (ft_wire_bytes j) (ft_inspection j)
                  ∧ ft_truncated j = negb (bool_decide (k = EndClean)) || capped;
  et_held : en_held e = match en_signal e with None => Z.of_nat (length (ft_captured j)) | Some _ => 0%Z end;
  et_ended : ended_as k (en_seen e) rest;
  et_signal : ∀ raw, en_signal e = Some raw → ∃ w : W * list str, raw = (finalize_tee parse_json find w j).2;
}.

Definition entry_ok (e : entry) : Prop :=
  ∃ rest, upstream (en_start e) = Some (en_seen e ++ rest) ∧
  match en_end e with
  | None => ∃ st, en_state e = Some st ∧ running_tee e st rest
  | Some k => ∃ j, ended_tee e k rest j
  end.

Definition held (e : entry) : Z :=
  (match en_state e with Some st => capture_permit st | None => 0 end + en_held e)%Z.
Definition total_held (es : list entry) : Z := foldr (λ e n, held e + n)%Z 0%Z es.

(** Only redacted copies of bodies captured in full are stored. *)
Definition stored_ok (es : list entry) (bytes : str) : Prop :=
  ∃ i e j, es !! i = Some e ∧ en_task e = Some j ∧ ft_disposition j = NetCapture.Full ∧
    redact_body_async find (ft_redaction j) (ft_captured j) = Some bytes.

Record system_inv (total : Z) (s : system) : Prop := {
  si_entries : Forall entry_ok (sy_entries s);
  si_budget : (0 ≤ sy_budget s)%Z;
  si_total : (sy_budget s + total_held (sy_entries s) = total)%Z;
  si_stored : Forall (stored_ok (sy_entries s)) (sy_world s).2;
}.

(** ** Lemmas *)

Lemma frames_data_snoc seen r :
  frames_data (seen ++ [r]) = frames_data seen ++ match r with Ok (Data d) => d | _ => [] end.
Proof. unfold frames_data. rewrite bind_app. cbn. by rewrite app_nil_r. Qed.

Lemma observed_all_snoc i seen r :
  observed_all i (seen ++ [r]) =
  match r with
  | Ok (Data d) => mkInspection (in_config i) (in_method i) (observe (in_scan (observed_all i seen)) d)
  | _ => observed_all i seen
  end.
Proof.
  unfold observed_all, chunks. rewrite omap_app, fold_left_app. by destruct r as [[d|t]|e].
Qed.

(** An item that is no data changes nothing. *)
Lemma captured_ok_other st0 seen r captured capped wire insp :
  (∀ d, r ≠ Ok (Data d)) → captured_ok st0 seen captured capped wire insp →
  captured_ok st0 (seen ++ [r]) captured capped wire insp.
Proof.
  intros Hr [Hp Hf Hn Hc Hw Hi].
  assert (frames_data (seen ++ [r]) = frames_data seen) as E.
  { rewrite frames_data_snoc. destruct r as [[d|t]|e]; [by destruct (Hr d)|by rewrite app_nil_r..]. }
  split; rewrite ?E; try done. rewrite Hi. destruct (te_inspection st0); [|done]. cbn. f_equal.
  rewrite observed_all_snoc. destruct r as [[d|t]|e]; [by destruct (Hr d)|done..].
Qed.

Lemma captured_ok_data st0 seen captured capped wire insp data captured' capped' :
  captured_ok st0 seen captured capped wire insp →
  captured' `prefix_of` frames_data seen ++ data →
  (te_disposition st0 = NetCapture.Full → (capped' = true ↔ captured' ≠ frames_data seen ++ data)) →
  (te_disposition st0 ≠ NetCapture.Full → captured' = [] ∧ capped' = false) →
  (∀ cap, max_capture_bytes st0 = Some cap → (Z.of_nat (length captured') ≤ Z.max 0 cap)%Z) →
  captured_ok st0 (seen ++ [Ok (Data data)]) captured' capped'
    (saturating_add u64_max wire (Z.of_nat (length data)))
    ((λ i, mkInspection (in_config i) (in_method i) (observe (in_scan i) data)) <$> insp).
Proof.
  intros [Hp Hf Hn Hc Hw Hi] Hp' Hf' Hn' Hc'. split; rewrite ?frames_data_snoc; try done.
  - rewrite Hw, length_app. unfold saturating_add, u64_max. lia.
  - rewrite Hi. destruct (te_inspection st0); [|done]. cbn. by rewrite observed_all_snoc.
Qed.

Lemma capture_keeps budget st st0 seen data budget' st' :
  capture budget st data = (budget', st') → (0 ≤ budget)%Z →
  configuration st = configuration st0 → capture_permit st = Z.of_nat (length (te_captured st)) →
  captured_ok st0 seen (te_captured st) (capped st) (wire_bytes st) (te_inspection st) →
  (captured_ok st0 (seen ++ [Ok (Data data)]) (te_captured st') (capped st') (wire_bytes st') (te_inspection st') ∧
   configuration st' = configuration st0 ∧ upstream st' = upstream st ∧ emitted st' = emitted st ∧
   capture_permit st' = Z.of_nat (length (te_captured st'))) ∧
  (0 ≤ budget')%Z ∧ (budget' + capture_permit st' = budget + capture_permit st)%Z.
Proof.
  intros Hc Hb Hcfg Hperm Hok. pose proof Hok as [Hp Hf Hn Hcap _ _].
  assert (te_disposition st = te_disposition st0 ∧ max_capture_bytes st = max_capture_bytes st0) as [Hdisp Hmax]
    by (unfold configuration in Hcfg; by injection Hcfg).
  unfold capture in Hc. cbn [te_disposition set_observed capped max_capture_bytes te_captured capture_permit set_capture] in Hc.
  rewrite Hdisp in Hc. destruct (te_disposition st0) as [|e] eqn:Ed.
  2:{ injection Hc as <- <-. destruct (Hn ltac:(done)) as [Hc0 Hc1]. split; [|by split]. split_and!; try done.
      eapply captured_ok_data; [exact Hok|by apply prefix_app_r|by rewrite Ed|done|done]. }
  specialize (Hf eq_refl). destruct (capped st) eqn:Ecap.
  { injection Hc as <- <-. split; [|by split]. split_and!; try done.
    assert (te_captured st ≠ frames_data seen) as Hne by (by apply Hf).
    eapply captured_ok_data; [exact Hok| | |done|done].
    - by apply prefix_app_r.
    - intros _. cbn. rewrite Ecap. split; [|done]. intros _ E. destruct Hp as [k Hk]. rewrite Hk, <- app_assoc in E.
      apply (f_equal length) in E. rewrite !length_app in E. destruct k; [by rewrite app_nil_r in Hk|cbn in E; lia]. }
  assert (te_captured st = frames_data seen) as Hall.
  { destruct (decide (te_captured st = frames_data seen)); [done|]. by apply Hf in n. }
  set (cut := match max_capture_bytes st with Some cap => _ | None => _ end) in Hc.
  assert (∃ n, cut = (take n data, Nat.ltb n (length data)) ∧
    ∀ cap, max_capture_bytes st0 = Some cap → (Z.of_nat (length (te_captured st ++ take n data)) ≤ Z.max 0 cap)%Z) as (n & -> & Hn').
  { unfold cut. rewrite <- Hmax. destruct (max_capture_bytes st) as [cap|].
    - eexists. split; [done|]. intros ? [= <-]. specialize (Hcap cap (eq_sym Hmax)).
      rewrite length_app, length_take. unfold saturating_sub. lia.
    - exists (length data). split; [|done]. rewrite firstn_all. f_equal. symmetry. apply Nat.ltb_irrefl. }
  assert (Nat.ltb n (length data) = true ↔ frames_data seen ++ take n data ≠ frames_data seen ++ data) as Hcut.
  { rewrite Nat.ltb_lt. split.
    - intros Hlt E%(f_equal length). rewrite !length_app, length_take in E. lia.
    - intros Hne. destruct (decide (n < length data)); [done|]. destruct Hne. by rewrite take_ge by lia. }
  case_bool_decide as Hempty.
  { injection Hc as <- <-. split; [|by split]. split_and!; try done.
    eapply captured_ok_data; [exact Hok|by apply prefix_app_r| |done|done].
    intros _. cbn. by rewrite Hcut, Hempty, app_nil_r, Hall. }
  destruct (_ || _) eqn:Eq.
  { injection Hc as <- <-. split; [|by split]. split_and!; try done.
    eapply captured_ok_data; [exact Hok|by apply prefix_app_r| |done|done].
    intros _. cbn. split; [|done]. intros _ E. rewrite Hall in E. apply (f_equal length) in E. rewrite length_app in E.
    destruct data; [by rewrite take_nil in Hempty|cbn in E; lia]. }
  injection Hc as <- <-. apply orb_false_iff in Eq as [_ Hle%Z.ltb_ge]. cbn. split; [|lia].
  split_and!; try done; [|rewrite length_app, Hperm; lia].
  eapply captured_ok_data; [exact Hok| | |done|done].
  - rewrite Hall. apply prefix_app. exists (drop n data). symmetry. apply take_drop.
  - intros _. cbn. by rewrite Hall.
Qed.

Lemma open_entry_ok channel attributes media_type inspection cap redaction disposition body :
  let st := tee_body channel attributes media_type inspection cap redaction disposition body in
  entry_ok (open_entry st) ∧ held (open_entry st) = 0%Z.
Proof.
  intros st. split; [|done]. exists body. split; [done|]. cbn. exists st. split; [done|]. split; try done.
  split; cbn; try done.
  - intros c _. cbn. lia.
  - by destruct inspection as [[]|].
Qed.

(** The task of a running tee, however its body ends. *)
Lemma ended_now e st rest k seen state' rest' :
  running_tee e st rest → te_captured st `prefix_of` frames_data (en_seen e) →
  captured_ok (en_start e) seen (te_captured st) (capped st) (wire_bytes st) (te_inspection st) →
  ended_as k seen rest' →
  (∀ st', state' = Some st' → upstream st' = None ∧ emitted st' = true ∧ capture_permit st' = 0%Z) →
  let j := mkFinalize (te_channel st) (te_attributes st) (te_captured st) (te_redaction st) (te_disposition st)
             (te_media_type st) (negb (bool_decide (k = EndClean)) || capped st) (te_inspection st) (wire_bytes st) in
  ended_tee (mkEntry (en_start e) seen state' (Some k) (Some j) (capture_permit st) (en_signal e)) k rest' j.
Proof.
  intros R _ Hc He Hst j. split; cbn; try done.
  - pose proof (rt_config _ _ _ R) as Hcfg. unfold configuration, task_configuration, start_configuration in *. cbn.
    by injection Hcfg as -> -> -> -> -> _.
  - by exists (capped st).
  - rewrite (rt_signal _ _ _ R). apply R.
  - by rewrite (rt_signal _ _ _ R).
Qed.

Lemma poll_entry_ok budget e st budget' st' item task :
  entry_ok e → (0 ≤ budget)%Z → en_state e = Some st → tee_next budget st = (budget', st', item, task) →
  entry_ok (poll_entry e st' item task) ∧ (0 ≤ budget')%Z ∧
  (budget' + held (poll_entry e st' item task) = budget + held e)%Z ∧
  (∀ j, en_task e = Some j → en_task (poll_entry e st' item task) = Some j).
Proof.
  intros (rest & Hsrc & He) Hb Hst Hn. unfold held. rewrite Hst.
  destruct (en_end e) as [k|] eqn:Eend.
  { destruct He as (j & E). destruct (et_state _ _ _ _ E st Hst) as (Hu & Hem & Hp). unfold tee_next in Hn. rewrite Hu in Hn.
    injection Hn as <- <- <- <-. unfold poll_entry. cbn. rewrite app_nil_r. split_and!; try done.
    - exists rest. split; [done|]. cbn. rewrite Eend. exists j. destruct E. split; try done. cbn. by intros ? [= <-]. }
  destruct He as (st0 & Hst0 & R). rewrite Hst in Hst0. injection Hst0 as <-.
  pose proof (rt_held _ _ _ R) as Hheld. pose proof (rt_passed _ _ _ R) as Hpass. pose proof (rt_captured _ _ _ R) as Hcap.
  unfold tee_next in Hn. rewrite (rt_upstream _ _ _ R) in Hn. destruct rest as [|[f|err] rest].
  - unfold spawn_emit in Hn. cbn [emitted set_upstream] in Hn. rewrite (rt_emitted _ _ _ R) in Hn. injection Hn as <- <- <- <-.
    unfold poll_entry. cbn. rewrite app_nil_r, Hheld. split_and!; [|done|lia|by rewrite (rt_task _ _ _ R)].
    exists []. split; [done|]. cbn. eexists. eapply (ended_now e st [] EndClean); [done|apply Hcap|done|done|].
    by intros st' [= <-].
  - assert (upstream (set_upstream st (Some rest)) = Some rest) as Hup by done.
    set (st1 := set_upstream st (Some rest)) in *.
    assert (∃ b2 st2, (let '(b, s) := match f with Data data => capture budget st1 data | Trailers _ => (budget, st1) end in (b, s)) = (b2, st2) ∧
      (captured_ok (en_start e) (en_seen e ++ [Ok f]) (te_captured st2) (capped st2) (wire_bytes st2) (te_inspection st2) ∧
       configuration st2 = configuration (en_start e) ∧ upstream st2 = Some rest ∧ emitted st2 = false ∧
       capture_permit st2 = Z.of_nat (length (te_captured st2))) ∧
      (0 ≤ b2)%Z ∧ (b2 + capture_permit st2 = budget + capture_permit st)%Z) as (b2 & st2 & E & (H1 & H2 & H3 & H4 & H5) & H6 & H7).
    { destruct f as [data|t].
      - destruct (capture budget st1 data) as [b2 st2] eqn:E. exists b2, st2. split; [done|].
        destruct (capture_keeps budget st1 (en_start e) (en_seen e) data b2 st2 E Hb) as ((? & ? & Hu & Hem & ?) & ? & ?);
          [apply R..|done|]. rewrite Hu, Hem. split_and!; try done. apply R.
      - exists budget, st1. split; [done|]. split_and!; try done; [|apply R..]. by apply captured_ok_other. }
    destruct (match f with Data data => capture budget st1 data | Trailers _ => (budget, st1) end) as [b3 st3].
    injection E as -> ->. injection Hn as <- <- <- <-. unfold poll_entry. cbn. rewrite Hheld, Eend.
    split_and!; [|done|lia|done]. exists rest. cbn. rewrite <- app_assoc. split; [done|]. exists st2. split; [done|].
    split; cbn; try done; try apply R. apply Forall_app. split; [done|]. repeat constructor. by eexists.
  - unfold spawn_emit in Hn. cbn [emitted set_upstream] in Hn. rewrite (rt_emitted _ _ _ R) in Hn. injection Hn as <- <- <- <-.
    unfold poll_entry. cbn. rewrite Hheld. split_and!; [|done|lia|by rewrite (rt_task _ _ _ R)].
    exists rest. cbn. rewrite <- app_assoc. split; [done|]. eexists.
    eapply (ended_now e st (Err err :: rest) EndFailed); [done|apply Hcap| | |].
    + by apply captured_ok_other.
    + by exists (en_seen e), err.
    + by intros st' [= <-].
Qed.

Lemma drop_entry_ok e st :
  entry_ok e → en_state e = Some st →
  entry_ok (drop_entry e (drop_tee st)) ∧ held (drop_entry e (drop_tee st)) = held e ∧
  (∀ j, en_task e = Some j → en_task (drop_entry e (drop_tee st)) = Some j).
Proof.
  intros (rest & Hsrc & He) Hst. unfold held, drop_tee, spawn_emit. rewrite Hst.
  destruct (en_end e) as [k|] eqn:Eend.
  - destruct He as (j & E). destruct (et_state _ _ _ _ E st Hst) as (Hu & Hem & Hp). rewrite Hem. cbn. rewrite Hp.
    split_and!; [|lia|done]. exists rest. cbn. split; [done|]. rewrite Eend. exists j. destruct E. by split.
  - destruct He as (st0 & Hst0 & R). rewrite Hst in Hst0. injection Hst0 as <-.
    rewrite (rt_emitted _ _ _ R). cbn. rewrite (rt_held _ _ _ R). split_and!; [|lia|by rewrite (rt_task _ _ _ R)].
    exists rest. cbn. split; [done|]. eexists.
    eapply (ended_now e st rest EndCut); [done|apply (rt_captured _ _ _ R)|apply R|apply R|done].
Qed.

Lemma total_held_app es e : total_held (es ++ [e]) = (total_held es + held e)%Z.
Proof. induction es as [|x es IH]; cbn; [lia|]. unfold total_held in *. lia. Qed.

Lemma total_held_insert es i e e' :
  es !! i = Some e → (total_held (<[i := e']> es) = total_held es - held e + held e')%Z.
Proof.
  unfold total_held. revert i. induction es as [|x es IH]; intros [|i] Hi; try done.
  - injection Hi as ->. cbn. lia.
  - change (<[S i:=e']> (x :: es)) with (x :: <[i:=e']> es). cbn [foldr]. rewrite (IH i Hi). lia.
Qed.

Lemma stored_ok_insert es i e e' bytes :
  es !! i = Some e → (∀ j, en_task e = Some j → en_task e' = Some j) →
  stored_ok es bytes → stored_ok (<[i := e']> es) bytes.
Proof.
  intros Hi Hj (k & x & j & Hk & Ht & Hd & Hr). destruct (decide (i = k)) as [->|Hne].
  - rewrite Hi in Hk. injection Hk as ->. exists k, e', j. split_and!; [|by apply Hj|done..].
    apply list_lookup_insert_eq. by eapply lookup_lt_Some.
  - exists k, x, j. by rewrite list_lookup_insert_ne.
Qed.

(** What a task stores. *)
Lemma finalize_stores (w : W * list str) j :
  let w' := (finalize_tee parse_json find w j).1 in
  w'.2 = w.2 ∨ ft_disposition j = NetCapture.Full ∧
    ∃ bytes, w'.2 = w.2 ++ [bytes] ∧ redact_body_async find (ft_redaction j) (ft_captured j) = Some bytes.
Proof.
  assert (∀ (w : W * list str), (tick w).1.2 = w.2) as Htick by (intros w0; cbn; by destruct (tick w0.1)).
  assert (∀ (w : W * list str) c a m n b, (metadata_only_signal w c a m n b).1.2 = w.2) as Hmeta.
  { intros w0 c a m n b. unfold metadata_only_signal. pose proof (Htick w0). by destruct (tick w0). }
  unfold finalize_tee. destruct (ft_disposition j) as [|[|]].
  - assert (match redact find w (ft_redaction j) (ft_captured j) with
      | (w1, Some s) => w1.2 = w.2 ∧ redact_body_async find (ft_redaction j) (ft_captured j) = Some s
      | (w1, None) => w1.2 = w.2 end) as Hred.
    { unfold redact, redact_body_async. destruct (negb _ || _); [done|]. cbn. destruct (scan_completes w.1) as [x []]; [|done].
      by destruct (redact_body_parallel find (ft_captured j)). }
    destruct (redact find w (ft_redaction j) (ft_captured j)) as [w1 [stored|]].
    + destruct Hred as [Hw1 Hs]. right. split; [done|]. exists stored. split; [|done]. rewrite <- Hw1. clear.
      unfold offload_bytes. cbn. destruct (blob_writer w1.1) as [x wr]. cbn. destruct (blob_write x wr stored) as [x1 [[]|err]]; cbn.
      * destruct (blob_finish x1 wr) as [x2 r]. cbn. by destruct (tick x2).
      * by destruct (tick x1).
    + left. unfold credential_scan_unavailable_signal. by rewrite Hmeta.
  - left. apply Hmeta.
  - left. unfold bound_metadata_signal. pose proof (Htick w). by destruct (tick w).
Qed.

Lemma tee_step_inv total l s s' : tee_step_fn l s = Some s' → system_inv total s → system_inv total s'.
Proof.
  intros Hl [He Hb Ht Hs]. destruct l as [channel attributes media insp cap redaction disposition body|i|i|i]; cbn in Hl.
  - injection Hl as <-. destruct (open_entry_ok channel attributes media insp cap redaction disposition body) as [Ho Hh].
    split; cbn [sy_world sy_budget sy_entries]; [|done| |].
    + apply Forall_app. split; [done|]. by repeat constructor.
    + rewrite total_held_app, Hh. lia.
    + eapply Forall_impl; [exact Hs|]. intros b (i & e & j & Hi & Hj). exists i, e, j. split; [|done]. by apply lookup_app_l_Some.
  - destruct (sy_entries s !! i) as [e|] eqn:Ei; [|done]. cbn in Hl. destruct (en_state e) as [st|] eqn:Est; [|done]. cbn in Hl.
    destruct (tee_next (sy_budget s) st) as [[[b st'] item] task] eqn:En. injection Hl as <-.
    destruct (poll_entry_ok _ _ _ _ _ _ _ (proj1 (Forall_lookup _ _) He i e Ei) Hb Est En) as (H1 & H2 & H3 & H4).
    split; cbn [sy_world sy_budget sy_entries]; [by apply Forall_insert|done| |].
    + rewrite (total_held_insert _ _ _ _ Ei). lia.
    + eapply Forall_impl; [exact Hs|]. intros bytes. by eapply stored_ok_insert.
  - destruct (sy_entries s !! i) as [e|] eqn:Ei; [|done]. cbn in Hl. destruct (en_state e) as [st|] eqn:Est; [|done]. cbn in Hl.
    injection Hl as <-. destruct (drop_entry_ok e st (proj1 (Forall_lookup _ _) He i e Ei) Est) as (H1 & H2 & H3).
    split; cbn [sy_world sy_budget sy_entries]; [by apply Forall_insert|done| |].
    + rewrite (total_held_insert _ _ _ _ Ei). lia.
    + eapply Forall_impl; [exact Hs|]. intros bytes. by eapply stored_ok_insert.
  - destruct (sy_entries s !! i) as [e|] eqn:Ei; [|done]. cbn in Hl. destruct (en_task e) as [j|] eqn:Ej; [|done]. cbn in Hl.
    destruct (en_signal e) eqn:Esig; [done|]. pose proof (finalize_stores (sy_world s) j) as Hst. cbn in Hst.
    destruct (finalize_tee parse_json find (sy_world s) j) as [w raw] eqn:Ef. cbn in Hst. injection Hl as <-.
    destruct (proj1 (Forall_lookup _ _) He i e Ei) as (rest & Hsrc & Hee). destruct (en_end e) as [k|] eqn:Eend.
    2:{ destruct Hee as (st & _ & R). by rewrite (rt_task _ _ _ R) in Ej. }
    destruct Hee as (j' & E). pose proof (et_task _ _ _ _ E) as Hj'. rewrite Ej in Hj'. injection Hj' as <-.
    set (e' := mkEntry (en_start e) (en_seen e) (en_state e) (Some k) (Some j) 0 (Some raw)).
    assert (held e' = held e - en_held e)%Z as Hheld by (unfold held; cbn; lia).
    assert (0 ≤ en_held e)%Z as Hpos by (rewrite (et_held _ _ _ _ E), Esig; lia).
    split; cbn [sy_world sy_budget sy_entries].
    + apply Forall_insert; [done|]. exists rest. split; [done|]. unfold e'. cbn. exists j. destruct E. split; try done.
      cbn. intros ? [= <-]. exists (sy_world s). by rewrite Ef.
    + lia.
    + rewrite (total_held_insert _ _ _ e' Ei), Hheld. lia.
    + assert (Forall (stored_ok (<[i:=e']> (sy_entries s))) (sy_world s).2) as Hold.
      { eapply Forall_impl; [exact Hs|]. intros bytes. eapply stored_ok_insert; [exact Ei|].
        intros j0 Hj0. by rewrite Ej in Hj0. }
      destruct Hst as [-> | (Hd & bytes & -> & Hr)]; [done|]. apply Forall_app. split; [done|]. constructor; [|done].
      exists i, e', j. split_and!; [|done..]. apply list_lookup_insert_eq. by eapply lookup_lt_Some.
Qed.

Lemma tee_reachable_inv w total s :
  (0 ≤ total)%Z → rtc tee_step (tee_init w total) s → system_inv total s.
Proof.
  intros Ht Hr. assert (system_inv total (tee_init w total)) as H0 by (split; cbn; try done; lia).
  induction Hr as [|s1 s2 s3 [l Hl] _ IH]; [done|]. apply IH. by eapply tee_step_inv.
Qed.
End system.

(** ** Properties *)

(** C18: the tee is faithful and bounded, whatever exchanges run at once,
    however their bodies are polled, fail or are dropped, and whenever their
    tasks run.  A consumer gets exactly the upstream's items, in order.  A tee
    has a task exactly when it has ended, and one only; the task's copy is a
    prefix of the data passed on, within the cap, with the true transfer size
    and the scan of all of it; it says "not truncated" exactly when the body
    ended by itself and the copy is all of it.  A body without full capture
    leaves no copy.  The bytes retained never exceed the shared budget, all of
    which comes back, and what is stored is only redacted copies of bodies
    captured in full. *)
Theorem tee_capture_faithful {L : UrlLib} (parse_json : str → option Value) (find : ScanMode → str → list Match)
    {H W : Type} {CW : CaptureWorld W} (w : W) (total : Z) (s : @system H W) :
  (0 ≤ total)%Z → rtc (tee_step parse_json find) (tee_init w total) s →
  ((0 ≤ sy_budget s)%Z ∧ (sy_budget s + total_held (sy_entries s) = total)%Z) ∧
  (∀ bytes, bytes ∈ (sy_world s).2 → stored_ok find (sy_entries s) bytes) ∧
  ∀ i e, sy_entries s !! i = Some e → ∃ rest, upstream (en_start e) = Some (en_seen e ++ rest) ∧
    (en_task e = None ↔ en_end e = None) ∧
    ∀ j, en_task e = Some j → ∃ k, en_end e = Some k ∧ ended_as k (en_seen e) rest ∧
      let data := frames_data (en_seen e) in
      ft_captured j `prefix_of` data ∧ ft_wire_bytes j = Z.min u64_max (Z.of_nat (length data)) ∧
      (∀ cap, max_capture_bytes (en_start e) = Some cap → (Z.of_nat (length (ft_captured j)) ≤ Z.max 0 cap)%Z) ∧
      ft_inspection j = (λ i, observed_all i (en_seen e)) <$> te_inspection (en_start e) ∧
      (te_disposition (en_start e) = NetCapture.Full →
         (ft_truncated j = false ↔ k = EndClean ∧ ft_captured j = data)) ∧
      (te_disposition (en_start e) ≠ NetCapture.Full → ft_captured j = [] ∧ (ft_truncated j = false ↔ k = EndClean)).
Proof.
  intros Ht Hr. destruct (tee_reachable_inv parse_json find w total s Ht Hr) as [He Hb Htot Hs].
  split; [done|]. split; [by apply Forall_forall|]. intros i e Hi.
  destruct (proj1 (Forall_lookup _ _) He i e Hi) as (rest & Hsrc & Hee). exists rest. split; [done|].
  destruct (en_end e) as [k|] eqn:Ek.
  2:{ destruct Hee as (st & _ & R). rewrite (rt_task _ _ _ R). split; [done|]. by intros j. }
  destruct Hee as (j & E). rewrite (et_task _ _ _ _ _ _ E). split; [done|]. intros ? [= <-]. exists k. split; [done|].
  split; [apply E|]. cbv zeta. destruct (et_captured _ _ _ _ _ _ E) as (capped & [Hp Hf Hn Hc Hw Hin] & Htr).
  split_and!; try done; rewrite Htr; destruct (decide (k = EndClean)) as [->|Hne];
    rewrite ?(bool_decide_true (EndClean = EndClean)) by done; rewrite ?(bool_decide_false (k = EndClean)) by done; cbn.
  - intros Hd. specialize (Hf Hd). destruct capped; split; try done.
    + intros [_ Heq]. by destruct (proj1 Hf eq_refl).
    + intros _. split; [done|]. destruct (decide (ft_captured j = frames_data (en_seen e))); [done|].
      by apply Hf in n.
  - intros _. split; [done|naive_solver].
  - intros Hd. by destruct (Hn Hd) as [-> ->].
  - intros Hd. destruct (Hn Hd) as [-> _]. naive_solver.
Qed.

(** C19: a sensitive exchange's body never shows.  Take any two tees, of any
    two proxies, with the same metadata and no inspection, that capture no body.
    For a token exchange, if they ended alike after as many bytes, their tasks
    have the same effect and the same signal, whatever the bytes were; for a
    bound secret also how they ended and how long they were does not show.  The
    signal has no body and no payload, and nothing is stored. *)
Theorem sensitive_body_withheld {L : UrlLib} (parse_json : str → option Value) (find : ScanMode → str → list Match)
    {H W : Type} {CW : CaptureWorld W} (w1 w2 : W) (t1 t2 : Z) (s1 s2 : @system H W) i1 i2 e1 e2 j1 j2
    (sensitive : SensitiveExchange) (w : W * list str) :
  (0 ≤ t1)%Z → rtc (tee_step parse_json find) (tee_init w1 t1) s1 →
  (0 ≤ t2)%Z → rtc (tee_step parse_json find) (tee_init w2 t2) s2 →
  sy_entries s1 !! i1 = Some e1 → sy_entries s2 !! i2 = Some e2 → en_task e1 = Some j1 → en_task e2 = Some j2 →
  start_configuration (en_start e1) = start_configuration (en_start e2) →
  te_disposition (en_start e1) = MetadataOnly sensitive →
  te_inspection (en_start e1) = None → te_inspection (en_start e2) = None →
  (sensitive = OAuthToken → en_end e1 = en_end e2 ∧ length (frames_data (en_seen e1)) = length (frames_data (en_seen e2))) →
  let '(w', raw) := finalize_tee parse_json find w j1 in
  finalize_tee parse_json find w j2 = (w', raw) ∧ raw_body raw = [] ∧ raw_payload_ref raw = None ∧ w'.2 = w.2.
Proof.
  intros Ht1 Hr1 Ht2 Hr2 Hi1 Hi2 Hj1 Hj2 Hcfg Hd Hn1 Hn2 Hsame.
  assert (∀ w0 t (s : @system H W) i e j, (0 ≤ t)%Z → rtc (tee_step parse_json find) (tee_init w0 t) s →
    sy_entries s !! i = Some e → en_task e = Some j → te_inspection (en_start e) = None →
    te_disposition (en_start e) = MetadataOnly sensitive →
    ∃ k, en_end e = Some k ∧ task_configuration j = start_configuration (en_start e) ∧ ft_inspection j = None ∧
      ft_wire_bytes j = Z.min u64_max (Z.of_nat (length (frames_data (en_seen e)))) ∧
      ft_truncated j = negb (bool_decide (k = EndClean))) as Htask.
  { clear. intros w0 t s i e j Ht Hr Hi Hj Hins Hd. destruct (tee_reachable_inv parse_json find w0 t s Ht Hr) as [He _ _ _].
    destruct (proj1 (Forall_lookup _ _) He i e Hi) as (rest & _ & Hee). destruct (en_end e) as [k|].
    2:{ destruct Hee as (st & _ & R). by rewrite (rt_task _ _ _ R) in Hj. }
    destruct Hee as (j' & E). rewrite (et_task _ _ _ _ _ _ E) in Hj. injection Hj as ->. exists k. split; [done|].
    destruct (et_captured _ _ _ _ _ _ E) as (capped & [_ _ Hn _ Hw Hin] & Htr). rewrite Hins in Hin.
    destruct (Hn ltac:(by rewrite Hd)) as [_ ->]. split_and!; [apply E|done|done|]. by rewrite Htr, orb_false_r. }
  destruct (Htask _ _ _ _ _ _ Ht1 Hr1 Hi1 Hj1 Hn1 Hd) as (k1 & Hk1 & Hc1 & Hs1 & Hw1 & Htr1).
  assert (te_disposition (en_start e2) = MetadataOnly sensitive) as Hd2
    by (unfold start_configuration in Hcfg; congruence).
  destruct (Htask _ _ _ _ _ _ Ht2 Hr2 Hi2 Hj2 Hn2 Hd2) as (k2 & Hk2 & Hc2 & Hs2 & Hw2 & Htr2).
  rewrite Hcfg, <- Hc2 in Hc1. unfold task_configuration, start_configuration in Hc1, Hc2.
  injection Hc1 as Hch Ha Hm Hred Hdi. assert (ft_disposition j2 = MetadataOnly sensitive) as Hdj by congruence.
  unfold finalize_tee. rewrite Hs1, Hs2, Hch, Ha, Hm, Hdi, Hdj.
  assert (∀ l raw, raw_body (raw_with_attributes raw l) = raw_body raw ∧ raw_payload_ref (raw_with_attributes raw l) = raw_payload_ref raw) as Hattr.
  { clear. unfold raw_with_attributes. induction l as [|a l IH]; intros raw; [done|]. cbn [fold_left]. by destruct (IH (RawSignal_with_attribute raw a.1 a.2)). }
  destruct sensitive.
  - destruct (Hsame eq_refl) as [Hk Hlen]. rewrite Hk1, Hk2 in Hk. injection Hk as ->.
    rewrite Htr1, Htr2, Hw1, Hw2, Hlen. unfold metadata_only_signal. cbn. destruct (tick w.1) as [x ts]. cbn.
    rewrite !(proj1 (Hattr _ _)), !(proj2 (Hattr _ _)). by destruct (negb _).
  - unfold bound_metadata_signal. cbn. destruct (tick w.1) as [x ts]. cbn.
    by rewrite !(proj1 (Hattr _ _)), !(proj2 (Hattr _ _)).
Qed.

(** *** Witnesses *)

Section witnesses.
#[local] Instance any_host : UrlLib := {| Host_parse s := Some (HostDomain s) |}.

(** A clock that counts and a store that names its writers. *)
#[local] Instance counting : CaptureWorld nat := {
  tick n := (S n, mkHlc (Z.of_nat n) 0);
  scan_completes n := (n, true);
  blob_writer n := (S n, n);
  blob_write n _ _ := (n, Ok ());
  blob_finish n i := (n, Ok (PayloadRef_new (mkText (show_uint (Z.of_nat i)))));
}.
Definition no_json (_ : str) : option Value := None.
Definition no_find (_ : ScanMode) (_ : str) : list Match := [].

Definition body_of (l : list string) : list (result str (@body_frame unit)) := (λ s, Ok (Data (bs s))) <$> l.
Definition open_tee (d : CaptureDisposition) (l : list string) : @tee_label unit :=
  Open RESPONSE_TEE [(bs "http.status_code", bs "200")] None None (Some 4%Z) RedactionPolicy_enabled d (body_of l).

Fixpoint run_labels (s : @system unit nat) (ls : list tee_label) : @system unit nat :=
  match ls with [] => s | l :: ls => run_labels (default s (tee_step_fn no_json no_find l s)) ls end.
Lemma run_labels_rtc s ls : rtc (tee_step no_json no_find) s (run_labels s ls).
Proof.
  revert s. induction ls as [|l ls IH]; intros s; [done|]. cbn. destruct (tee_step_fn no_json no_find l s) as [s'|] eqn:E; cbn.
  - eapply rtc_l; [by exists l|apply IH].
  - apply IH.
Qed.

(** Two bodies share a budget of six bytes: the first fits its cap, the second
    is cut by the budget and its consumer goes away. *)
Definition sample_run : system :=
  run_labels (tee_init 0 6) [open_tee NetCapture.Full ["abc"]; open_tee NetCapture.Full ["xy"; "z"; "last"]; PollTee 0; PollTee 1;
    PollTee 0; PollTee 1; PollTee 1; RunTask 0; DropTee 1; RunTask 1].

(** The tee of an entry and its task. *)
Definition task_at (s : @system unit nat) (i : nat) : option (@entry unit * FinalizeTee) :=
  e ← sy_entries s !! i; j ← en_task e; Some (e, j).
Lemma task_at_Some s i e j : task_at s i = Some (e, j) → sy_entries s !! i = Some e ∧ en_task e = Some j.
Proof.
  unfold task_at. destruct (sy_entries s !! i) as [e'|]; [|done]. cbn. destruct (en_task e') as [j'|] eqn:E; [|done]. cbn.
  by intros [= -> ->].
Qed.

Definition sample_ok : bool :=
  match task_at sample_run 1 with
  | Some (_, j) => bool_decide (ft_captured j = bs "xyz") && (ft_wire_bytes j =? 7)%Z
  | None => false
  end.

Lemma tee_capture_faithful_witness :
  ∃ e j, task_at sample_run 1 = Some (e, j) ∧ ft_captured j `prefix_of` frames_data (en_seen e) ∧ sample_ok = true.
Proof.
  destruct (tee_capture_faithful no_json no_find 0 6 sample_run ltac:(done) (run_labels_rtc _ _)) as (_ & _ & Hall).
  assert (sample_ok = true) as Hok by (vm_compute; reflexivity).
  pose proof Hok as Hok'. unfold sample_ok in Hok'. destruct (task_at sample_run 1) as [[e j]|] eqn:E; [|discriminate].
  destruct (task_at_Some _ _ _ _ E) as [He Hj]. destruct (Hall 1 e He) as (rest & _ & _ & Hj').
  destruct (Hj' j Hj) as (k & _ & _ & Hp & _). exists e, j. split; [reflexivity|]. split; [exact Hp|exact Hok].
Defined.

Definition token_run (l : list string) : system :=
  run_labels (tee_init 0 6) [open_tee (MetadataOnly OAuthToken) l; PollTee 0; PollTee 0].

(** A finished token exchange of ten bytes. *)
Definition token_ok (l : list string) : bool :=
  match task_at (token_run l) 0 with
  | Some (e, _) => bool_decide (en_end e = Some EndClean) && Nat.eqb (length (frames_data (en_seen e))) 10
  | None => false
  end.

Lemma token_start_kept l e j :
  task_at (token_run l) 0 = Some (e, j) → en_start e = tee_body RESPONSE_TEE [(bs "http.status_code", bs "200")] None None (Some 4%Z)
    RedactionPolicy_enabled (MetadataOnly OAuthToken) (body_of l).
Proof.
  intros [He _]%task_at_Some. unfold token_run in He. cbn [run_labels] in He.
  destruct l as [|a [|b l]]; cbn in He; by injection He as <-.
Qed.

Lemma sensitive_body_withheld_witness :
  ∃ e1 j1 e2 j2, task_at (token_run ["secret-one"]) 0 = Some (e1, j1) ∧ task_at (token_run ["SECRET-TWO"]) 0 = Some (e2, j2) ∧
    finalize_tee no_json no_find ((0, []) : nat * list str) j1 = finalize_tee no_json no_find ((0, []) : nat * list str) j2.
Proof.
  assert (token_ok ["secret-one"] && token_ok ["SECRET-TWO"] = true) as Hok by (vm_compute; reflexivity).
  apply andb_true_iff in Hok as [H1 H2]. unfold token_ok in H1, H2.
  destruct (task_at (token_run ["secret-one"]) 0) as [[e1 j1]|] eqn:E1; [|discriminate].
  destruct (task_at (token_run ["SECRET-TWO"]) 0) as [[e2 j2]|] eqn:E2; [|discriminate].
  apply andb_true_iff in H1 as [Hk1%bool_decide_eq_true Hl1%Nat.eqb_eq].
  apply andb_true_iff in H2 as [Hk2%bool_decide_eq_true Hl2%Nat.eqb_eq].
  pose proof (token_start_kept _ _ _ E1) as Hs1. pose proof (token_start_kept _ _ _ E2) as Hs2.
  destruct (task_at_Some _ _ _ _ E1) as [He1 Hj1]. destruct (task_at_Some _ _ _ _ E2) as [He2 Hj2].
  exists e1, j1, e2, j2. split; [reflexivity|]. split; [reflexivity|].
  pose proof (sensitive_body_withheld no_json no_find 0 0 6 6 _ _ 0 0 e1 e2 j1 j2 OAuthToken (0, []) ltac:(done)
    (run_labels_rtc _ _) ltac:(done) (run_labels_rtc _ _) He1 He2 Hj1 Hj2 ltac:(by rewrite Hs1, Hs2) ltac:(by rewrite Hs1)
    ltac:(by rewrite Hs1) ltac:(by rewrite Hs2)
    (λ _, conj (eq_trans Hk1 (eq_sym Hk2)) (eq_trans Hl1 (eq_sym Hl2)))) as H.
  destruct (finalize_tee no_json no_find ((0, []) : nat * list str) j1) as [w' raw]. symmetry. exact (proj1 H).
Defined.
End witnesses.
