(* ===== verification/ProxyHandler.v ===== *)
(** * The proxy's handler (crates/hiloop-interceptor/src/proxy.rs)

    A [CaptureHandler] polices and captures the exchanges of one intercepted
    connection: the egress policy and the bound relay decide whether a request
    leaves, the request and the response are captured (teed or buffered), and
    an exchange that ends without a response leaves a terminal record.  Each
    exchange has its own clone, so its operations are sequential; they run in
    the state monad [M] over the world, the handler and the log of the signals
    handed to the sink.  The http crate's requests are the record of their
    parts. *)
From Stdlib Require Import Strings.Byte.
From S2P Require Import Prelude Text Net Identity Event Spool Seams Pipeline Blob Egress NetCapture Redact Anomaly Relay.
From S2P Require Import ProxyMeta ProxyTee.

Definition SECRET_EGRESS_DENIAL_ATTR : str := bs "secret.egress.denial".
Definition SECRET_EGRESS_CLASS_ATTR : str := bs "secret.egress.class".
Definition SECRET_EGRESS_BOUND_CLASS : str := bs "bound".
Definition HTTP_STATUS_CLASS_ATTR : str := bs "http.status_class".
Definition ABORT_REASON_ATTR : str := bs "http.abort.reason".
Definition ABORT_DETAIL_ATTR : str := bs "http.abort.detail".
Definition EXCHANGE_ID_ATTR : str := bs "http.exchange_id".
Definition REQUEST_CONTENT_ENCODING_ATTR : str := bs "http.request.content_encoding".
Definition RESPONSE_CONTENT_ENCODING_ATTR : str := bs "http.response.content_encoding".
Definition BLOCKED_ATTR : str := bs "anomaly.blocked".
Definition CONNECT_METHOD : str := bs "CONNECT".

(** Exchange identifiers are fresh ULIDs; the proof file is read under a
    deadline. *)
Class HandlerWorld (W : Type) := {
  capture_world :: CaptureWorld W;
  next_exchange_id : W → W * str;
  open_proof : W → W * proof_file;
}.

(** How a signal was handed to the sink: awaited, or only tried. *)
Inductive emission := Awaited (raw : RawSignal) | Tried (raw : RawSignal).

Section handler.
Context {L : UrlLib} {N : IpNetLib} (parse_json : str → option Value) (find : ScanMode → str → list Match).
Context {H : Type} {HL : HeaderLib H} {W : Type} {HW : HandlerWorld W}.
Abbreviation frame := (@body_frame H).

Record Request := mkReq {
  rq_method : str; rq_uri : Uri; rq_headers : H; rq_body : list (result str frame); rq_end_stream : bool }.
Record Response := mkResp { rs_status : Z; rs_headers : H; rs_body : list (result str frame) }.

Definition relay_view (r : Request) : @request H :=
  mkRequest (uri_scheme (rq_uri r)) (uri_authority (rq_uri r)) (rq_headers r).

(** The body sent on: as it is, buffered whole, or teed. *)
Inductive OutBody := Passed (body : list (result str frame)) | Whole (bytes : str) | Teed (st : @TeeState H).
Inductive Outcome :=
| Forward (method : str) (uri : Uri) (headers : H) (body : OutBody)
| Respond (status : Z).
Definition forbidden : Outcome := Respond 403.
Definition bad_gateway : Outcome := Respond 502.

Record HandlerConfig := mkHandlerConfig {
  hc_max_capture_bytes : option Z; hc_redaction : RedactionPolicy; hc_egress : EgressPolicy; hc_anomaly : AnomalyConfig;
  hc_relay : option FixedTlsRelayConfig; hc_bound_connect : bool }.

Record CaptureHandler := mkHandler {
  connect_host : option CanonicalHost; connect_destination : option Destination;
  exchange_id : option str; exchange_host : option str; exchange_method : option str; exchange_target : option str;
  exchange_disposition : CaptureDisposition; abort_reason : option str }.

Definition CaptureHandler_new : CaptureHandler := mkHandler None None None None None None NetCapture.Full None.
Definition with_connect_host (h : CaptureHandler) (host : CanonicalHost) : CaptureHandler :=
  mkHandler (Some host) (connect_destination h) (exchange_id h) (exchange_host h) (exchange_method h) (exchange_target h)
    (exchange_disposition h) (abort_reason h).
Definition set_connect (h : CaptureHandler) (d : Destination) : CaptureHandler :=
  mkHandler (Some (dest_host d)) (Some d) (exchange_id h) (exchange_host h) (exchange_method h) (exchange_target h)
    (exchange_disposition h) (abort_reason h).
Definition set_exchange (h : CaptureHandler) (id host method target : option str) (d : CaptureDisposition) : CaptureHandler :=
  mkHandler (connect_host h) (connect_destination h) id host method target d (abort_reason h).
Definition set_disposition (h : CaptureHandler) (d : CaptureDisposition) : CaptureHandler :=
  set_exchange h (exchange_id h) (exchange_host h) (exchange_method h) (exchange_target h) d.
Definition set_abort_reason (h : CaptureHandler) (reason : option str) : CaptureHandler :=
  mkHandler (connect_host h) (connect_destination h) (exchange_id h) (exchange_host h) (exchange_method h) (exchange_target h)
    (exchange_disposition h) reason.

(** ** The monad *)

Record Env := mkEnv { ev_world : W; ev_handler : CaptureHandler; ev_log : list emission }.
Definition M (A : Type) : Type := Env → Env * A.
#[export] Instance M_ret : MRet M := λ A a env, (env, a).
#[export] Instance M_bind : MBind M := λ A B k m env, let '(env, a) := m env in k a env.

Definition world {A} (f : W → W * A) : M A := λ env,
  let '(w, a) := f (ev_world env) in (mkEnv w (ev_handler env) (ev_log env), a).
Definition get : M CaptureHandler := λ env, (env, ev_handler env).
Definition put (h : CaptureHandler) : M unit := λ env, (mkEnv (ev_world env) h (ev_log env), ()).
Definition send (raw : RawSignal) : M unit := λ env, (mkEnv (ev_world env) (ev_handler env) (ev_log env ++ [Awaited raw]), ()).
Definition sink_try_send (raw : RawSignal) : M unit := λ env, (mkEnv (ev_world env) (ev_handler env) (ev_log env ++ [Tried raw]), ()).

(** ** Denials *)

Section config.
Context (c : HandlerConfig).

Definition canonical_authority (r : Request) : option Destination :=
  raw ← (if bool_decide (rq_method r = CONNECT_METHOD)
         then match uri_authority (rq_uri r) with Some a => Some a | None => uri_host (rq_uri r) end
         else request_host (rq_uri r) (rq_headers r));
  match canonicalize_host raw with Ok d => Some d | Err _ => None end.

Definition empty_signal (kind : str) : M RawSignal :=
  ts ← world tick; mret (RawSignal_new PROXY_SOURCE kind ts []).

Definition emit_secret_egress_denied (d : Destination) (denial : SecretEgressDenial) : M unit :=
  raw ← empty_signal SECRET_EGRESS_DENIED_KIND;
  sink_try_send (raw_with_attributes raw [(SECRET_EGRESS_DENIAL_ATTR, denial_as_str denial); (HTTP_HOST, host_str d)]).
Definition emit_secret_egress_denied_without_host (denial : SecretEgressDenial) : M unit :=
  raw ← empty_signal SECRET_EGRESS_DENIED_KIND;
  sink_try_send (raw_with_attributes raw [(SECRET_EGRESS_DENIAL_ATTR, denial_as_str denial)]).

Definition emit_egress_denied (d : Destination) (decision layer : str) (rule_matched : option str) : M unit :=
  raw ← empty_signal EGRESS_DENIED_KIND;
  sink_try_send (raw_with_attributes raw
    ([(bs "egress.decision", decision); (HTTP_HOST, host_str d); (bs "egress.layer", layer);
      (bs "egress.mode", EgressMode_fmt (policy_mode (hc_egress c)))]
     ++ option_list ((λ rule, (bs "egress.rule_matched", rule)) <$> rule_matched)
     ++ option_list ((λ port, (bs "net.peer.port", show_uint port)) <$> dest_port d))).
Definition emit_egress_unparseable (layer : str) : M unit :=
  raw ← empty_signal EGRESS_DENIED_KIND;
  sink_try_send (raw_with_attributes raw
    [(bs "egress.decision", bs "unparseable_host"); (bs "egress.layer", layer);
     (bs "egress.mode", EgressMode_fmt (policy_mode (hc_egress c)))]).

(** Whether the destination is denied; the denial is reported. *)
Definition enforce_egress (d : Destination) (layer : str) : M bool :=
  if is_allow_all (hc_egress c) then mret false
  else
    let decision := evaluate (hc_egress c) d in
    if allowed decision then mret false
    else emit_egress_denied d (bs "policy") layer (rule_matched decision);; mret true.

(** ** Capture of a request *)

Definition is_bound (d : CaptureDisposition) : bool :=
  match d with MetadataOnly BoundSecret => true | _ => false end.

Definition collect_body (body : list (result str frame)) : str * bool :=
  if forallb (λ f, is_ok f) body then (frames_data body, false) else ([], true).

Definition forward (r : Request) (body : OutBody) : Outcome := Forward (rq_method r) (rq_uri r) (rq_headers r) body.

Definition flag_attributes (flags : list AnomalyFlag) (blocked : bool) : attribute_list :=
  (match flags with [] => [] | _ => [(FLAGGED_ATTR, join_flag_names flags)] end)
  ++ (if blocked then [(BLOCKED_ATTR, bs "true")] else []).

(** The signal of a buffered request whose copy is captured. *)
Definition buffered_signal (captured bytes : str) (truncated : bool) (attributes : attribute_list)
    (host content_type : option str) : M RawSignal :=
  redacted ← world (λ w, redact find w (hc_redaction c) captured);
  match redacted with
  | Some captured =>
      let attributes := attributes ++ [(REQUEST_WIRE_SIZE_ATTR, show_uint (Z.of_nat (length bytes)))] in
      let attributes := append_llm_capture_attributes parse_json attributes host content_type captured DirRequest in
      payload ← world (λ w, offload_bytes w captured content_type);
      world (λ w, build_raw w REQUEST_KIND (bs "http.request.body_size") attributes captured truncated
        (match payload with Ok p => Some p | Err _ => None end))
  | None =>
      world (λ w, credential_scan_unavailable_signal w REQUEST_TEE attributes (Z.of_nat (length bytes)) truncated)
  end.

Definition capture_request_buffered (r : Request) (attributes : attribute_list) (content_type : option str) : M Outcome :=
  let '(bytes, truncated) := collect_body (rq_body r) in
  h ← get;
  match exchange_disposition h with
  | MetadataOnly BoundSecret =>
      raw ← world (λ w, bound_metadata_signal w REQUEST_TEE attributes);
      send raw;; mret (forward r (Whole bytes))
  | disposition =>
      let flags := inspect (hc_anomaly c) (rq_method r) content_type bytes in
      let blocked := negb (bool_decide (flags = [])) && blocks_on_match (hc_anomaly c) in
      let flagged := attributes ++ flag_attributes flags blocked in
      raw ← match disposition with
            | MetadataOnly sensitive =>
                world (λ w, metadata_only_signal w REQUEST_TEE flagged (omission_reason sensitive)
                              (Z.of_nat (length bytes)) truncated)
            | NetCapture.Full =>
                let '(captured, truncated) :=
                  match hc_max_capture_bytes c with
                  | Some cap =>
                      if (cap <? Z.of_nat (length bytes))%Z then (take (Z.to_nat cap) bytes, true) else (bytes, truncated)
                  | None => (bytes, truncated)
                  end in
                buffered_signal captured bytes truncated flagged (exchange_host h) content_type
            end;
      send raw;;
      if blocked then put (set_abort_reason h (Some (bs "blocked")));; mret forbidden
      else mret (forward r (Whole bytes))
  end.

Definition capture_request (r : Request) : M Outcome :=
  id ← world next_exchange_id;
  h ← get;
  let bound := is_bound (exchange_disposition h) in
  let content_type := if bound then None else header_str (rq_headers r) CONTENT_TYPE in
  let method := rq_method r in
  let host := telemetry_host <$> request_host (rq_uri r) (rq_headers r) in
  let disposition := if bound then MetadataOnly BoundSecret else capture_disposition method host (uri_path (rq_uri r)) in
  let target := match disposition with
                | NetCapture.Full => Some (telemetry_target (rq_uri r))
                | MetadataOnly OAuthToken => Some (metadata_only_telemetry_target (rq_uri r))
                | MetadataOnly BoundSecret => None
                end in
  put (set_exchange h (Some id) host (Some method) target disposition);;
  let attributes :=
    [(EXCHANGE_ID_ATTR, id); (bs "http.method", method)]
    ++ option_list ((λ t, (bs "http.target", t)) <$> target)
    ++ (if bound then [] else option_list ((λ e, (REQUEST_CONTENT_ENCODING_ATTR, e)) <$> header_str (rq_headers r) CONTENT_ENCODING))
    ++ option_list ((λ x, (HTTP_HOST, x)) <$> host)
    ++ (if bound then [(SECRET_EGRESS_CLASS_ATTR, SECRET_EGRESS_BOUND_CLASS)]
        else option_list ((λ t, (bs "http.request.content_type", t)) <$> content_type)) in
  if (negb bound && blocks_on_match (hc_anomaly c)) || rq_end_stream r
  then capture_request_buffered r attributes content_type
  else
    let inspection := if negb bound && anomaly_enabled (hc_anomaly c)
                      then Some (mkInspection (hc_anomaly c) method BodyScan_default) else None in
    mret (forward r (Teed (tee_body REQUEST_TEE attributes content_type inspection (hc_max_capture_bytes c)
                             (hc_redaction c) disposition (rq_body r)))).

(** ** Requests *)

Definition scrub_body (body : list (result str frame)) : list (result str frame) :=
  (λ r : result str frame,
     match r with Ok (Trailers t) => Ok (Trailers (scrub_private_headers t)) | r => r end) <$> body.

Definition prepare_bound_request (relay : FixedTlsRelayConfig) (r : Request) (d : Destination) : M Outcome :=
  h ← get;
  file ← world open_proof;
  let '(prepared, res) := prepare_request relay (relay_view r) (connect_destination h) d file in
  match res with
  | Err denial =>
      emit_secret_egress_denied d denial;;
      mret (if proof_unavailable denial then bad_gateway else forbidden)
  | Ok _ =>
      (* the scrubbed body is a stream, which never says that it is at its end *)
      put (set_disposition h (MetadataOnly BoundSecret));;
      capture_request (mkReq (rq_method r) (rq_uri r) (req_headers prepared) (scrub_body (rq_body r)) false)
  end.

Definition routes_bound (relay : FixedTlsRelayConfig) (d : option Destination) : bool :=
  match d with Some d => bool_decide (route_connect relay d = Relay.Bound) | None => false end.
Definition nested_connect (relay : FixedTlsRelayConfig) (connect : option Destination) (r : Request) : bool :=
  bool_decide (is_Some connect)
  && (routes_bound relay connect
      || match canonical_authority r with Some d => contains_host relay (dest_host d) | None => false end
      || request_mentions_bound_host relay (relay_view r)).
Definition invalid_connect (relay : FixedTlsRelayConfig) (d : Destination) (r : Request) : bool :=
  bool_decide (route_connect relay d = Relay.Denied)
  || (bool_decide (route_connect relay d = Relay.Bound) && connect_has_ambiguous_authority (relay_view r) d).

Definition with_relay (f : FixedTlsRelayConfig → bool) : bool :=
  match hc_relay c with Some relay => f relay | None => false end.

Definition on_connect (r : Request) : M Outcome :=
  h ← get;
  if with_relay (λ relay, nested_connect relay (connect_destination h) r) then
    emit_secret_egress_denied_without_host NestedConnect;; mret forbidden
  else
    match canonical_authority r with
    | Some d =>
        if with_relay (λ relay, invalid_connect relay d r) then
          emit_secret_egress_denied d InvalidConnectAuthority;; mret forbidden
        else
          denied ← enforce_egress d (bs "connect");
          if (denied : bool) then mret forbidden
          else put (set_connect h d);; mret (forward r (Passed (rq_body r)))
    | None =>
        if is_allow_all (hc_egress c) then mret (forward r (Passed (rq_body r)))
        else emit_egress_unparseable (bs "connect");; mret forbidden
    end.

Definition on_unparseable (r : Request) : M Outcome :=
  h ← get;
  if with_relay (λ relay, request_mentions_bound_host relay (relay_view r) || routes_bound relay (connect_destination h))
  then emit_secret_egress_denied_without_host AmbiguousAuthority;; mret forbidden
  else if is_allow_all (hc_egress c) then capture_request r
  else emit_egress_unparseable (bs "request");; mret forbidden.

Definition route_request (r : Request) (d : Destination) : M Outcome :=
  match hc_relay c with
  | None => capture_request r
  | Some relay =>
      match route_destination relay (uri_scheme (rq_uri r)) d with
      | Relay.Bound => prepare_bound_request relay r d
      | Relay.Denied => emit_secret_egress_denied d InvalidDestination;; mret forbidden
      | Relay.Direct =>
          if request_mentions_bound_host relay (relay_view r)
          then emit_secret_egress_denied d AmbiguousAuthority;; mret forbidden
          else capture_request r
      end
  end.

Definition on_request (r : Request) : M Outcome :=
  if bool_decide (rq_method r = CONNECT_METHOD) then on_connect r
  else
    match canonical_authority r with
    | None => on_unparseable r
    | Some d =>
        h ← get;
        if match connect_host h with Some host => negb (bool_decide (host = dest_host d)) | None => false end
        then emit_egress_denied d (bs "host-mismatch") (bs "request") None;; mret forbidden
        else
          denied ← enforce_egress d (bs "request");
          if (denied : bool) then mret forbidden else route_request r d
    end.

(** [handle_request]: a permitted CONNECT to a bound destination is answered
    here and its tunnel handed to the bound transport. *)
Inductive Handled := Plain (o : Outcome) | Tunnel (authority : str).
Definition handle_request (r : Request) : M Handled :=
  let selected := bool_decide (rq_method r = CONNECT_METHOD)
                  && with_relay (λ relay, routes_bound relay (canonical_authority r)) in
  o ← on_request r;
  mret (if negb selected then Plain o
        else match o with
             | Respond _ => Plain o
             | Forward _ uri _ _ =>
                 match uri_authority uri with
                 | None => Plain forbidden
                 | Some authority => if hc_bound_connect c then Tunnel authority else Plain bad_gateway
                 end
             end).

(** ** Responses and terminal records *)

Definition status_class (status : Z) : str := show_uint (status / 100) ++ bs "xx".

Definition on_response (resp : Response) : M (@TeeState H) :=
  h ← get;
  let bound := is_bound (exchange_disposition h) in
  let content_type := if bound then None else header_str (rs_headers resp) CONTENT_TYPE in
  let attributes :=
    (if bound then [(HTTP_STATUS_CLASS_ATTR, status_class (rs_status resp)); (SECRET_EGRESS_CLASS_ATTR, SECRET_EGRESS_BOUND_CLASS)]
     else [(bs "http.status_code", show_uint (rs_status resp))])
    ++ option_list ((λ id, (EXCHANGE_ID_ATTR, id)) <$> exchange_id h)
    ++ option_list ((λ x, (HTTP_HOST, x)) <$> exchange_host h)
    ++ option_list ((λ t, (bs "http.response.content_type", t)) <$> content_type)
    ++ (if bound then [] else option_list ((λ e, (RESPONSE_CONTENT_ENCODING_ATTR, e)) <$> header_str (rs_headers resp) CONTENT_ENCODING)) in
  put (set_exchange h None None (exchange_method h) (exchange_target h) (exchange_disposition h));;
  mret (tee_body RESPONSE_TEE attributes content_type None (hc_max_capture_bytes c) (hc_redaction c)
          (exchange_disposition h) (rs_body resp)).

Definition take_abort_signal (reason : str) (detail : option str) : M (option RawSignal) :=
  h ← get;
  match exchange_id h with
  | None => mret None
  | Some id =>
      raw ← empty_signal ABORT_KIND;
      put (set_exchange h None None None None (exchange_disposition h));;
      mret (Some (raw_with_attributes raw
        ([(EXCHANGE_ID_ATTR, id); (ABORT_REASON_ATTR, reason)]
         ++ option_list ((λ x, (HTTP_HOST, x)) <$> exchange_host h)
         ++ option_list ((λ m, (bs "http.method", m)) <$> exchange_method h)
         ++ option_list ((λ t, (bs "http.target", t)) <$> exchange_target h)
         ++ (if is_bound (exchange_disposition h) then [] else option_list ((λ d, (ABORT_DETAIL_ATTR, d)) <$> detail)))))
  end.

Definition on_upstream_error (reason detail : str) : M unit :=
  raw ← take_abort_signal reason (Some detail);
  match raw with Some raw => send raw | None => mret () end.

(** The connect phase's failure has its own reason. *)
Definition on_upstream_client_error (is_connect : bool) (message : str) : M Outcome :=
  on_upstream_error (if is_connect then bs "upstream_connect_error" else bs "upstream_error") message;;
  mret bad_gateway.

(** [Drop] *)
Definition drop_handler : M unit :=
  h ← get;
  let reason := default (bs "incomplete") (abort_reason h) in
  put (set_abort_reason h None);;
  raw ← take_abort_signal reason None;
  match raw with Some raw => sink_try_send raw | None => mret () end.
End config.
End handler.

(** ** Lemmas *)

Lemma raw_with_attributes_app raw l k :
  raw_with_attributes raw (l ++ k) = raw_with_attributes (raw_with_attributes raw l) k.
Proof. apply fold_left_app. Qed.

Lemma raw_with_attributes_parts raw l :
  raw_kind (raw_with_attributes raw l) = raw_kind raw ∧ raw_body (raw_with_attributes raw l) = raw_body raw ∧
  raw_source (raw_with_attributes raw l) = raw_source raw.
Proof.
  unfold raw_with_attributes. revert raw. induction l as [|a l IH]; intros raw; [done|]. cbn [fold_left].
  destruct (IH (RawSignal_with_attribute raw a.1 a.2)) as (-> & -> & ->). done.
Qed.

Lemma raw_with_attributes_other raw l k :
  Forall (λ a : str * str, a.1 ≠ k) l → raw_attributes (raw_with_attributes raw l) !! k = raw_attributes raw !! k.
Proof.
  unfold raw_with_attributes. revert raw. induction l as [|a l IH]; intros raw Hl; [done|]. cbn [fold_left].
  apply Forall_cons in Hl as [Ha Hl]. rewrite IH by done. cbn. by rewrite lookup_insert_ne.
Qed.

(** An attribute no later one overrides. *)
Lemma raw_with_attributes_lookup raw k v l :
  Forall (λ a : str * str, a.1 ≠ k) l → raw_attributes (raw_with_attributes raw ((k, v) :: l)) !! k = Some v.
Proof.
  intros Hl. change ((k, v) :: l) with ([(k, v)] ++ l). rewrite raw_with_attributes_app, raw_with_attributes_other by done.
  cbn. apply lookup_insert_eq.
Qed.

Lemma Forall_option_list {A} (P : A → Prop) (o : option A) : (∀ a, o = Some a → P a) → Forall P (option_list o).
Proof. intros Hp. destruct o; repeat constructor. by apply Hp. Qed.

(** Attribute lists built from fixed keys differ from a fixed key. *)
Ltac fixed_keys :=
  repeat (apply Forall_app; split);
  repeat first
    [ apply Forall_option_list; let a := fresh in let H := fresh in intros a (? & ? & ->)%fmap_Some; cbn; discriminate
    | constructor; [cbn; discriminate|]
    | constructor ].

Lemma append_llm_keys {L : UrlLib} parse_json attributes host content_type body direction :
  ∃ new, append_llm_capture_attributes parse_json attributes host content_type body direction = attributes ++ new ∧
    Forall (λ a : str * str, a.1 = model_attr direction ∨ a.1 = TOOL_CALL_ATTR) new.
Proof.
  unfold append_llm_capture_attributes. destruct host as [h|]; [|exists []; by rewrite app_nil_r].
  destruct (negb (is_llm_host h)); [exists []; by rewrite app_nil_r|]. cbv zeta.
  set (m := llm_capture_metadata parse_json content_type body direction).
  destruct (push_opt_spec attributes (model_attr direction) (llm_model m)) as (n1 & E1 & _ & H1).
  destruct (push_opt_spec (attributes ++ n1) TOOL_CALL_ATTR (llm_tool_call m)) as (n2 & E2 & _ & H2).
  exists (n1 ++ n2). unfold push_opt in E1, E2. rewrite E1, E2, app_assoc. split; [done|].
  apply Forall_app. split; apply Forall_forall; intros [k v] Hin; [left; by apply (H1 k v)|right; by apply (H2 k v)].
Qed.

Section capture_lemmas.
Context {L : UrlLib} {N : IpNetLib} (parse_json : str → option Value) (find : ScanMode → str → list Match).
Context {H : Type} {HL : HeaderLib H} {W : Type} {HW : HandlerWorld W} (c : HandlerConfig).
Implicit Types (r : Request (H := H)) (env : @Env W).

(** A signal of kind [kind] that carries the exchange's identifier. *)
Definition signal_of (kind id : str) (raw : RawSignal) : Prop :=
  raw_kind raw = kind ∧ raw_attributes raw !! EXCHANGE_ID_ATTR = Some id.

Lemma metadata_only_signal_of (w : W) channel l id reason wire truncated :
  Forall (λ a : str * str, a.1 ≠ EXCHANGE_ID_ATTR) l →
  signal_of (ch_kind channel) id (metadata_only_signal w channel ((EXCHANGE_ID_ATTR, id) :: l) reason wire truncated).2.
Proof.
  intros Hl. unfold metadata_only_signal. destruct (tick w) as [w' ts]. cbn [snd]. split.
  - rewrite (proj1 (raw_with_attributes_parts _ _)). by destruct truncated.
  - by apply raw_with_attributes_lookup.
Qed.

Lemma build_raw_signal_of (w : W) kind size_attr l id body truncated payload :
  Forall (λ a : str * str, a.1 ≠ EXCHANGE_ID_ATTR) l →
  signal_of kind id (build_raw w kind size_attr ((EXCHANGE_ID_ATTR, id) :: l) body truncated payload).2.
Proof.
  intros Hl. unfold build_raw. destruct (tick w) as [w' ts]. cbn [snd].
  assert (∀ raw, signal_of kind id raw → signal_of kind id (with_payload raw payload)) as Hp by (intros raw [? ?]; by destruct payload).
  apply Hp. split.
  - rewrite (proj1 (raw_with_attributes_parts _ _)). by destruct truncated.
  - by apply raw_with_attributes_lookup.
Qed.

Lemma buffered_signal_of captured bytes truncated l id host content_type env :
  Forall (λ a : str * str, a.1 ≠ EXCHANGE_ID_ATTR) l →
  let '(env', raw) := buffered_signal parse_json find c captured bytes truncated ((EXCHANGE_ID_ATTR, id) :: l) host content_type env in
  ev_handler env' = ev_handler env ∧ ev_log env' = ev_log env ∧ signal_of REQUEST_KIND id raw.
Proof.
  intros Hl. unfold buffered_signal, mbind, M_bind, world.
  destruct (redact find (ev_world env) (hc_redaction c) captured) as [w1 [stored|]]; cbn [ev_world ev_handler ev_log].
  - destruct (offload_bytes w1 stored content_type) as [w2 payload]. cbn [ev_world ev_handler ev_log].
    destruct (append_llm_keys parse_json (((EXCHANGE_ID_ATTR, id) :: l) ++ [(REQUEST_WIRE_SIZE_ATTR, show_uint (Z.of_nat (length bytes)))])
      host content_type stored DirRequest) as (new & -> & Hnew).
    pose proof (build_raw_signal_of w2 REQUEST_KIND (bs "http.request.body_size")
      (l ++ [(REQUEST_WIRE_SIZE_ATTR, show_uint (Z.of_nat (length bytes)))] ++ new) id stored truncated
      (match payload with Ok p => Some p | Err _ => None end)) as Hs.
    cbn [app] in *. rewrite <- app_assoc. cbn [app] in *. destruct (build_raw _ _ _ _ _ _ _) as [w3 raw].
    split_and!; [done..|]. apply Hs. apply Forall_app. split; [done|]. constructor; [cbn; discriminate|].
    eapply Forall_impl; [exact Hnew|]. intros a [-> | ->]; cbn; discriminate.
  - pose proof (metadata_only_signal_of w1 REQUEST_TEE l id REDACTION_UNAVAILABLE_OMISSION (Z.of_nat (length bytes)) truncated Hl) as Hs.
    unfold credential_scan_unavailable_signal. destruct (metadata_only_signal _ _ _ _ _ _) as [w2 raw]. done.
Qed.

(** What capturing a request does, given the attributes it starts with. *)
Lemma capture_request_buffered_spec r l id content_type env :
  Forall (λ a : str * str, a.1 ≠ EXCHANGE_ID_ATTR) l →
  let '(env', o) := capture_request_buffered parse_json find c r ((EXCHANGE_ID_ATTR, id) :: l) content_type env in
  ∃ raw, ev_log env' = ev_log env ++ [Awaited raw] ∧ signal_of REQUEST_KIND id raw ∧
    (o = forward r (Whole (collect_body (rq_body r)).1) ∧ ev_handler env' = ev_handler env ∨
     o = forbidden ∧ blocks_on_match (hc_anomaly c) = true ∧
     ev_handler env' = set_abort_reason (ev_handler env) (Some (bs "blocked"))).
Proof.
  intros Hl. unfold capture_request_buffered. destruct (collect_body (rq_body r)) as [bytes truncated]. cbn [fst].
  unfold mbind, M_bind, get. cbn beta iota.
  set (flags := inspect _ _ _ _). set (blocked := negb (bool_decide (flags = [])) && blocks_on_match (hc_anomaly c)).
  assert (Forall (λ a : str * str, a.1 ≠ EXCHANGE_ID_ATTR) (l ++ flag_attributes flags blocked)) as Hl'.
  { apply Forall_app. split; [done|]. unfold flag_attributes. destruct flags, blocked; cbn; repeat constructor; discriminate. }
  assert (∀ env1 raw, ev_handler env1 = ev_handler env → ev_log env1 = ev_log env → signal_of REQUEST_KIND id raw →
    let '(env', o) := (let '(env, _) := send raw env1 in
      (if blocked then put (set_abort_reason (ev_handler env1) (Some (bs "blocked")));; mret forbidden
       else mret (forward r (Whole bytes))) env) in
    ∃ raw, ev_log env' = ev_log env ++ [Awaited raw] ∧ signal_of REQUEST_KIND id raw ∧
      (o = forward r (Whole bytes) ∧ ev_handler env' = ev_handler env ∨
       o = forbidden ∧ blocks_on_match (hc_anomaly c) = true ∧
       ev_handler env' = set_abort_reason (ev_handler env) (Some (bs "blocked")))) as Hfin.
  { intros env1 raw Hh Hlog Hs. unfold send. destruct blocked eqn:Eb; cbn.
    - exists raw. rewrite Hlog, Hh. split_and!; try done. right. split_and!; try done. unfold blocked in Eb. by apply andb_true_iff in Eb as [_ ?].
    - exists raw. rewrite Hlog, Hh. split_and!; try done. by left. }
  destruct (exchange_disposition (ev_handler env)) as [|[|]]; cbn beta iota.
  - assert (∃ captured truncated', (match hc_max_capture_bytes c with
        | Some cap => if (cap <? Z.of_nat (length bytes))%Z then (take (Z.to_nat cap) bytes, true) else (bytes, truncated)
        | None => (bytes, truncated) end) = (captured, truncated')) as (captured & truncated' & ->) by (repeat case_match; eauto).
    pose proof (buffered_signal_of captured bytes truncated' (l ++ flag_attributes flags blocked) id (exchange_host (ev_handler env))
      content_type env Hl') as Hb.
    change (((EXCHANGE_ID_ATTR, id) :: l) ++ flag_attributes flags blocked) with ((EXCHANGE_ID_ATTR, id) :: l ++ flag_attributes flags blocked).
    destruct (buffered_signal _ _ _ _ _ _ _ _ _ env) as [env1 raw]. destruct Hb as (Hh & Hlog & Hs).
    pose proof (Hfin env1 raw Hh Hlog Hs) as Hfin'. by rewrite Hh in Hfin'.
  - unfold world. pose proof (metadata_only_signal_of (ev_world env) REQUEST_TEE (l ++ flag_attributes flags blocked) id
      (omission_reason OAuthToken) (Z.of_nat (length bytes)) truncated Hl') as Hs.
    change (((EXCHANGE_ID_ATTR, id) :: l) ++ flag_attributes flags blocked) with ((EXCHANGE_ID_ATTR, id) :: l ++ flag_attributes flags blocked).
    destruct (metadata_only_signal _ _ _ _ _ _) as [w raw].
    exact (Hfin (mkEnv w (ev_handler env) (ev_log env)) raw eq_refl eq_refl Hs).
  - unfold world, bound_metadata_signal. destruct (tick (ev_world env)) as [w ts]. set (raw := raw_with_attributes _ _).
    assert (signal_of REQUEST_KIND id raw) as Hs.
    { unfold raw. split; [by rewrite (proj1 (raw_with_attributes_parts _ _))|by apply raw_with_attributes_lookup]. }
    clearbody raw. cbn. exists raw. auto.
Qed.

(** A captured request: its identifier, and its one signal or the tee that
    will give it. *)
Definition capture_signal (id : str) (o : Outcome (H := H)) (new : list emission) (r : Request) : Prop :=
  (∃ raw, new = [Awaited raw] ∧ signal_of REQUEST_KIND id raw) ∨
  (∃ st, new = [] ∧ o = forward r (Teed st) ∧ upstream st = Some (rq_body r) ∧ ch_kind (te_channel st) = REQUEST_KIND ∧
     (EXCHANGE_ID_ATTR, id) ∈ te_attributes st).

Lemma capture_request_spec r env :
  let '(env', o) := capture_request parse_json find c r env in
  ∃ id new, ev_log env' = ev_log env ++ new ∧ capture_signal id o new r ∧ exchange_id (ev_handler env') = Some id ∧
    connect_host (ev_handler env') = connect_host (ev_handler env) ∧
    (((∃ body, o = forward r body) ∧ abort_reason (ev_handler env') = abort_reason (ev_handler env)) ∨
     (o = forbidden ∧ blocks_on_match (hc_anomaly c) = true ∧ abort_reason (ev_handler env') = Some (bs "blocked"))).
Proof.
  unfold capture_request, mbind, M_bind, world. destruct (next_exchange_id (ev_world env)) as [w id]. cbn [get ev_handler].
  set (h := ev_handler env). set (bound := is_bound (exchange_disposition h)). clearbody bound.
  set (host := telemetry_host <$> _). clearbody host.
  set (disposition := if bound then _ else _). clearbody disposition. match goal with |- context [set_exchange h (Some id) host ?m ?t disposition] => set (target := t) end.
  clearbody target. unfold put. cbn [ev_world ev_handler ev_log].
  set (env1 := mkEnv w (set_exchange h (Some id) host (Some (rq_method r)) target disposition) (ev_log env)).
  set (content_type := if bound then None else _). clearbody content_type. cbn [app].
  match goal with |- context [tee_body REQUEST_TEE (?a :: ?b :: ?l0)] => set (l := b :: l0) end.
  assert (Forall (λ a : str * str, a.1 ≠ EXCHANGE_ID_ATTR) l) as Hl.
  { unfold l. constructor; [cbn; discriminate|]. destruct bound; fixed_keys. }
  clearbody l. destruct (_ || rq_end_stream r).
  - pose proof (capture_request_buffered_spec r l id content_type env1 Hl) as Hs.
    destruct (capture_request_buffered _ _ _ _ _ _ env1) as [env2 o]. destruct Hs as (raw & Hlog & Hsig & Ho).
    exists id, [Awaited raw]. split; [done|]. split; [left; by exists raw|].
    destruct Ho as [[-> ->] | (-> & Hb & ->)]; cbn; (split_and!; [done..|]); [left|right]; eauto.
  - cbn. exists id, []. rewrite app_nil_r. split; [done|]. split.
    + right. eexists. split_and!; [done..|]. cbn. left.
    + split_and!; [done..|]. left. eauto.
Qed.

(** *** Denials *)

Definition denial (raw : RawSignal) : Prop := raw_kind raw = EGRESS_DENIED_KIND ∨ raw_kind raw = SECRET_EGRESS_DENIED_KIND.
Definition denied_by env (env' : @Env W) : Prop :=
  ∃ raw, ev_log env' = ev_log env ++ [Tried raw] ∧ denial raw ∧ ev_handler env' = ev_handler env.

Lemma emit_denied {K} kind l (k : M (W := W) K) env :
  kind = EGRESS_DENIED_KIND ∨ kind = SECRET_EGRESS_DENIED_KIND →
  ∃ env1, (raw ← empty_signal kind; sink_try_send (raw_with_attributes raw l)) env = (env1, ()) ∧ denied_by env env1 ∧
    ((raw ← empty_signal kind; sink_try_send (raw_with_attributes raw l));; k) env = k env1.
Proof.
  intros Hk. unfold empty_signal, mbind, M_bind, world. destruct (tick (ev_world env)) as [w ts]. cbn [mret M_ret].
  unfold sink_try_send. cbn [ev_world ev_handler ev_log]. eexists. split; [done|]. split; [|done].
  exists (raw_with_attributes (RawSignal_new PROXY_SOURCE kind ts []) l). split; [done|]. split; [|done].
  unfold denial. by rewrite !(proj1 (raw_with_attributes_parts _ _)).
Qed.

Lemma denied_response {A} kind l (a : A) env :
  kind = EGRESS_DENIED_KIND ∨ kind = SECRET_EGRESS_DENIED_KIND →
  ∃ env1, ((raw ← empty_signal kind; sink_try_send (raw_with_attributes raw l));; mret a : M (W := W) A) env = (env1, a) ∧ denied_by env env1.
Proof. intros Hk. destruct (emit_denied kind l (mret a) env Hk) as (env1 & _ & Hd & ->). by exists env1. Qed.

(** The policy's verdict, with its report when it denies. *)
Definition permitted (d : Destination) : Prop :=
  is_allow_all (hc_egress c) = true ∨ allowed (evaluate (hc_egress c) d) = true.

Lemma enforce_egress_spec d layer env :
  (enforce_egress c d layer env = (env, false) ∧ permitted d) ∨
  ∃ env1, enforce_egress c d layer env = (env1, true) ∧ denied_by env env1.
Proof.
  unfold enforce_egress, permitted. destruct (is_allow_all (hc_egress c)); [left; auto|]. cbv zeta.
  destruct (allowed (evaluate (hc_egress c) d)); [left; auto|]. right.
  unfold emit_egress_denied. apply denied_response. by left.
Qed.

(** *** The cases of a request *)

(** [r'] is captured in place of [r]: [r] itself, or with the relay's proof. *)
Definition admitted r env (r' : Request) (env1 : @Env W) : Prop :=
  (r' = r ∧ env1 = env ∧ ∀ relay, hc_relay c = Some relay → request_mentions_bound_host relay (relay_view r) = false ∧
     ∀ d, canonical_authority r = Some d → route_destination relay (uri_scheme (rq_uri r)) d = Relay.Direct) ∨
  (∃ relay d file proof, hc_relay c = Some relay ∧ canonical_authority r = Some d ∧
     route_destination relay (uri_scheme (rq_uri r)) d = Relay.Bound ∧ read_proof file = Ok proof ∧
     routes_bound relay (connect_destination (ev_handler env)) = true ∧ is_websocket_request (relay_view r) = false ∧
     request_has_ambiguous_authority (relay_view r) d = false ∧
     r' = mkReq (rq_method r) (rq_uri r) (insert (scrub_private_headers (rq_headers r)) SECRET_PROOF_HEADER proof)
            (scrub_body (rq_body r)) false ∧
     file = (open_proof (ev_world env)).2 ∧
     env1 = mkEnv (open_proof (ev_world env)).1 (set_disposition (ev_handler env) (MetadataOnly BoundSecret)) (ev_log env)).

Definition permitted_connect r env : Prop :=
  (∀ relay, hc_relay c = Some relay → nested_connect relay (connect_destination (ev_handler env)) r = false ∧
     ∀ d, canonical_authority r = Some d → invalid_connect relay d r = false) ∧
  match canonical_authority r with Some d => permitted d | None => is_allow_all (hc_egress c) = true end.
Definition permitted_request r env : Prop :=
  match canonical_authority r with
  | Some d => permitted d ∧ ∀ host, connect_host (ev_handler env) = Some host → host = dest_host d
  | None => is_allow_all (hc_egress c) = true
  end.

Inductive request_case r env : Env * Outcome → Prop :=
| case_denied env' status : denied_by env env' → (status = 403 ∨ status = 502)%Z → request_case r env (env', Respond status)
| case_connect : rq_method r = CONNECT_METHOD → permitted_connect r env →
    request_case r env
      (match canonical_authority r with
       | Some d => mkEnv (ev_world env) (set_connect (ev_handler env) d) (ev_log env)
       | None => env
       end, forward r (Passed (rq_body r)))
| case_captured r' env1 : rq_method r ≠ CONNECT_METHOD → permitted_request r env → admitted r env r' env1 →
    request_case r env (capture_request parse_json find c r' env1).

Lemma denied_case {kind l status} r env :
  kind = EGRESS_DENIED_KIND ∨ kind = SECRET_EGRESS_DENIED_KIND → (status = 403 ∨ status = 502)%Z →
  request_case r env (((raw ← empty_signal kind; sink_try_send (raw_with_attributes raw l));; mret (Respond status)) env).
Proof. intros Hk Hs. destruct (denied_response kind l (Respond (H := H) status) env Hk) as (env1 & -> & Hd). by apply case_denied. Qed.

Lemma with_relay_false (f : FixedTlsRelayConfig → bool) relay :
  with_relay c f = false → hc_relay c = Some relay → f relay = false.
Proof. unfold with_relay. intros Hf Hr. by rewrite Hr in Hf. Qed.

Lemma prepare_bound_case relay r d env :
  rq_method r ≠ CONNECT_METHOD → permitted_request r env → hc_relay c = Some relay → canonical_authority r = Some d →
  route_destination relay (uri_scheme (rq_uri r)) d = Relay.Bound →
  request_case r env (prepare_bound_request parse_json find c relay r d env).
Proof.
  intros Hm Hp Hr Hd Hroute. unfold prepare_bound_request. unfold mbind at 1, M_bind at 1, get. cbn beta iota.
  unfold mbind at 1, M_bind at 1, world. destruct (open_proof (ev_world env)) as [w file] eqn:Eo.
  set (env1 := mkEnv w (ev_handler env) (ev_log env)).
  destruct (prepare_request relay (relay_view r) (connect_destination (ev_handler env)) d file) as [prepared res] eqn:Ep.
  unfold prepare_request in Ep. destruct (_ || _ || _) eqn:Eg.
  { injection Ep as <- <-. cbn [proof_unavailable]. unfold emit_secret_egress_denied.
    destruct (denied_response SECRET_EGRESS_DENIED_KIND
      [(SECRET_EGRESS_DENIAL_ATTR, denial_as_str AuthorityOrProtocolMismatch); (HTTP_HOST, host_str d)] (forbidden (H := H)) env1
      (or_intror eq_refl)) as (env2 & -> & (raw & Hlog & Hden & Hh)).
    apply case_denied; [by exists raw|auto]. }
  destruct (read_proof file) as [proof|e] eqn:Ef.
  2:{ injection Ep as <- <-. cbn [proof_unavailable]. unfold emit_secret_egress_denied.
    destruct (denied_response SECRET_EGRESS_DENIED_KIND
      [(SECRET_EGRESS_DENIAL_ATTR, denial_as_str ProofUnavailable); (HTTP_HOST, host_str d)] (bad_gateway (H := H)) env1
      (or_intror eq_refl)) as (env2 & -> & (raw & Hlog & Hden & Hh)).
    apply case_denied; [by exists raw|auto]. }
  injection Ep as <- <-. apply orb_false_iff in Eg as [Eg Hws]. apply orb_false_iff in Eg as [Hc Ha].
  unfold mbind, M_bind, put. cbn [ev_world ev_handler ev_log].
  apply case_captured; [done|done|]. right. exists relay, d, file, proof. rewrite Eo. split_and!; try done.
  unfold routes_bound. destruct (connect_destination (ev_handler env)); [|done]. by apply negb_false_iff in Hc.
Qed.

Lemma on_request_cases r env : request_case r env (on_request parse_json find c r env).
Proof.
  unfold on_request. case_bool_decide as Hm.
  - unfold on_connect. unfold mbind at 1, M_bind at 1, get. cbn beta iota.
    destruct (with_relay c _) eqn:En; [by apply denied_case; auto|].
    destruct (canonical_authority r) as [d|] eqn:Ed.
    + destruct (with_relay c (λ relay, invalid_connect relay d r)) eqn:Ei; [by apply denied_case; auto|].
      unfold mbind at 1, M_bind at 1. destruct (enforce_egress_spec d (bs "connect") env) as [[-> Hp] | (env1 & -> & Hden)].
      * unfold mbind, M_bind, put. cbn.
        replace (mkEnv (ev_world env) (set_connect (ev_handler env) d) (ev_log env)) with
          (match canonical_authority r with
           | Some d => mkEnv (ev_world env) (set_connect (ev_handler env) d) (ev_log env) | None => env end) by (by rewrite Ed).
        apply case_connect; [done|]. split; [|by rewrite Ed]. intros relay Hr. split.
        -- by eapply (with_relay_false (λ relay, nested_connect relay (connect_destination (ev_handler env)) r)).
        -- rewrite Ed. intros d' [= <-]. by eapply (with_relay_false (λ relay, invalid_connect relay d r)).
      * apply case_denied; auto.
    + destruct (is_allow_all (hc_egress c)) eqn:Ea; [|by apply denied_case; auto].
      replace env with (match canonical_authority r with
           | Some d => mkEnv (ev_world env) (set_connect (ev_handler env) d) (ev_log env) | None => env end) at 2 by (by rewrite Ed).
      apply case_connect; [done|]. split; [|by rewrite Ed]. intros relay Hr. split.
      * by eapply (with_relay_false (λ relay, nested_connect relay (connect_destination (ev_handler env)) r)).
      * by rewrite Ed.
  - destruct (canonical_authority r) as [d|] eqn:Ed.
    2:{ unfold on_unparseable. unfold mbind at 1, M_bind at 1, get. cbn beta iota.
        destruct (with_relay c _) eqn:Ew; [by apply denied_case; auto|].
        destruct (is_allow_all (hc_egress c)) eqn:Ea; [|by apply denied_case; auto].
        apply case_captured; [done|unfold permitted_request; by rewrite Ed|]. left. split_and!; [done..|].
        intros relay Hr. split; [|by rewrite Ed]. pose proof (with_relay_false _ relay Ew Hr) as Hf. cbn in Hf.
        by apply orb_false_iff in Hf as [-> _]. }
    unfold mbind at 1, M_bind at 1, get. cbn beta iota.
    destruct (match connect_host (ev_handler env) with Some host => _ | None => _ end) eqn:Eh; [by apply denied_case; auto|].
    assert (∀ host, connect_host (ev_handler env) = Some host → host = dest_host d) as Hhost.
    { intros host Hh. rewrite Hh in Eh. apply negb_false_iff in Eh. by apply bool_decide_eq_true in Eh. }
    unfold mbind at 1, M_bind at 1. destruct (enforce_egress_spec d (bs "request") env) as [[-> Hp] | (env1 & -> & Hden)].
    2:{ apply case_denied; auto. }
    assert (permitted_request r env) as Hpr by (unfold permitted_request; by rewrite Ed).
    unfold route_request. destruct (hc_relay c) as [relay|] eqn:Er.
    2:{ apply case_captured; [done..|]. left. split_and!; [done..|]. intros relay Hr. congruence. }
    destruct (route_destination relay (uri_scheme (rq_uri r)) d) eqn:Erd.
    + destruct (request_mentions_bound_host relay (relay_view r)) eqn:Em; [by apply denied_case; auto|].
      apply case_captured; [done..|]. left. split_and!; [done..|]. intros relay' Hr'. assert (relay' = relay) as -> by congruence. split; [done|].
      intros d' Hd'. by assert (d' = d) as -> by congruence.
    + by apply prepare_bound_case.
    + by apply denied_case; auto.
Qed.
(** A request that is sent on keeps its method and URI. *)
Lemma on_request_forwards r env env' m u h b :
  on_request parse_json find c r env = (env', Forward m u h b) →
  m = rq_method r ∧ u = rq_uri r ∧ (if bool_decide (m = CONNECT_METHOD) then permitted_connect r env else permitted_request r env).
Proof.
  intros E. pose proof (on_request_cases r env) as G. rewrite E in G.
  inversion G as [| Hm Hp | r' env1 Hm Hp Ha Heq]; subst.
  - rewrite bool_decide_true by done. by destruct (canonical_authority r).
  - pose proof (capture_request_spec r' env1) as Hspec. rewrite Heq in Hspec.
    destruct Hspec as (id & new & _ & _ & _ & _ & [[[body [= -> -> _ _]] _] | ([=] & _)]).
    assert (rq_method r' = rq_method r ∧ rq_uri r' = rq_uri r) as [-> ->].
    { destruct Ha as [(-> & _) | (? & ? & ? & ? & _ & _ & _ & _ & _ & _ & _ & -> & _)]; done. }
    by rewrite bool_decide_false.
Qed.
End capture_lemmas.

(** ** Properties *)

(** *** What leaves *)

Section released.
Context {L : UrlLib} {N : IpNetLib} {H : Type} {HL : HeaderLib H} {W : Type} {HW : HandlerWorld W}.

(** What the relay does to a forwarded request: nothing when its destination
    and its Host headers name no selected host; otherwise it is a bound https
    request inside a bound CONNECT, with the proof as its only private header. *)
Definition relay_respected (relay : FixedTlsRelayConfig) (r : Request (H := H)) (env : @Env W) (headers : H) : Prop :=
  (headers = rq_headers r ∧ request_mentions_bound_host relay (relay_view r) = false ∧
   ∀ d, canonical_authority r = Some d → contains_host relay (dest_host d) = false) ∨
  (∃ d connect proof, canonical_authority r = Some d ∧ connect_destination (ev_handler env) = Some connect ∧
     route_connect relay connect = Relay.Bound ∧ route_destination relay (uri_scheme (rq_uri r)) d = Relay.Bound ∧
     is_websocket_request (relay_view r) = false ∧ request_has_ambiguous_authority (relay_view r) d = false ∧
     read_proof (open_proof (ev_world env)).2 = Ok proof ∧ get_all headers SECRET_PROOF_HEADER = [proof] ∧
     ∀ n, n ≠ SECRET_PROOF_HEADER → get_all headers n = if private n then [] else get_all (rq_headers r) n).

(** A blocked request: its copy has been captured. *)
Definition blocked_by (c : HandlerConfig) (env env' : @Env W) : Prop :=
  blocks_on_match (hc_anomaly c) = true ∧
  ∃ id raw, ev_log env' = ev_log env ++ [Awaited raw] ∧ signal_of REQUEST_KIND id raw ∧
    abort_reason (ev_handler env') = Some (bs "blocked").

Lemma direct_not_selected relay scheme d :
  route_destination relay scheme d = Relay.Direct → contains_host relay (dest_host d) = false.
Proof. unfold route_destination. destruct (contains_host _ _); cbn [negb]; [by destruct (_ && _)|done]. Qed.
End released.

(** C11: nothing leaves against the egress policy or around the relay.  A
    request is either sent on as it is, method and URI unchanged, and then the
    policy permits its canonical destination (or is allow-all), a host fixed by
    its CONNECT is the host it names, and the relay is respected; except that
    under the allow-all policy one whose authority does not canonicalize is sent
    on without a comparison with the CONNECT's host.  Or it is answered 403 or
    502, with exactly one signal: its denial, or the capture of a request the
    anomaly rules block. *)
Theorem proxy_egress_enforced {L : UrlLib} {N : IpNetLib} (parse_json : str → option Value) (find : ScanMode → str → list Match)
    {H : Type} {HL : HeaderLib H} {HLaws : HeaderLaws H} {W : Type} {HW : HandlerWorld W} (c : HandlerConfig)
    (r : Request (H := H)) (env : @Env W) :
  let '(env', o) := on_request parse_json find c r env in
  match o with
  | Forward method uri headers body =>
      method = rq_method r ∧ uri = rq_uri r ∧
      if bool_decide (rq_method r = CONNECT_METHOD)
      then permitted_connect c r env ∧ headers = rq_headers r ∧ body = Passed (rq_body r) ∧ ev_log env' = ev_log env
      else permitted_request c r env ∧
        match hc_relay c with
        | None => headers = rq_headers r
        | Some relay => relay_respected relay r env headers
        end
  | Respond status =>
      (status = 403 ∨ status = 502)%Z ∧ (denied_by env env' ∨ status = 403%Z ∧ blocked_by c env env')
  end.
Proof.
  destruct (on_request_cases parse_json find c r env) as [env' status Hd Hs | Hm Hp | r' env1 Hm Hp Ha]; [by auto| |].
  { cbn. rewrite bool_decide_true by done. split_and!; try done. by destruct (canonical_authority r). }
  pose proof (capture_request_spec parse_json find c r' env1) as Hspec.
  assert (rq_method r' = rq_method r ∧ rq_uri r' = rq_uri r ∧ ev_log env1 = ev_log env) as (Em & Eu & El).
  { destruct Ha as [(-> & -> & _) | (? & ? & ? & ? & _ & _ & _ & _ & _ & _ & _ & -> & _ & ->)]; done. }
  destruct (capture_request parse_json find c r' env1) as [env' o]. destruct Hspec as (id & new & Hlog & Hcap & _ & _ & Ho).
  destruct Ho as [[[body ->] _] | (-> & Hb & Hab)].
  - cbn. rewrite bool_decide_false by done. split_and!; [done..|]. destruct (hc_relay c) as [relay|] eqn:Er.
    + destruct Ha as [(-> & -> & Hdir) | (relay' & d & file & proof & Hr' & Hd & Hroute & Hproof & Hc & Hws & Hamb & -> & -> & ->)].
      * left. destruct (Hdir relay Er) as [Hment Hroute]. split_and!; [done..|]. intros d Hd. eapply direct_not_selected, Hroute, Hd.
      * assert (relay' = relay) as -> by congruence. right. unfold routes_bound in Hc. destruct (connect_destination (ev_handler env)) as [connect|]; [|done].
        apply bool_decide_eq_true in Hc. exists d, connect, proof. cbn. split_and!; try done.
        -- by rewrite get_insert, bool_decide_true by done.
        -- intros n Hn. rewrite get_insert, bool_decide_false by done. apply get_scrubbed.
    + destruct Ha as [(-> & _) | (relay' & ? & ? & ? & ? & _)]; [done|congruence].
  - unfold forbidden. split; [by left|]. right. split; [done|]. split; [done|]. destruct Hcap as [(raw & -> & Hsig) | (st & _ & Hf & _)]; [|done].
    exists id, raw. by rewrite Hlog, El.
Qed.

(** *** One exchange *)

Section exchange.
Context {L : UrlLib} {N : IpNetLib} (parse_json : str → option Value) (find : ScanMode → str → list Match).
Context {H : Type} {HL : HeaderLib H} {W : Type} {HW : HandlerWorld W} (c : HandlerConfig).

(** How an exchange goes on after its request left. *)
Inductive finale :=
| Answered (resp : Response (H := H)) | UpstreamFailed (is_connect : bool) (message : str) | Abandoned.

(** What follows the request: if it was forwarded, what came of it; then the
    handler is dropped. *)
Definition conclude (o : @Outcome H) (f : finale) : M (W := W) (option (@TeeState H)) :=
  tee ← match o, f with
        | Forward _ _ _ _, Answered resp => st ← on_response c resp; mret (Some st)
        | Forward _ _ _ _, UpstreamFailed is_connect message =>
            _ ← on_upstream_client_error (H := H) is_connect message; mret None
        | _, _ => mret None
        end;
  drop_handler;;
  mret tee.

(** The life of an exchange's handler. *)
Definition http_exchange (r : Request) (f : finale) : M (W := W) (@Outcome H * option (@TeeState H)) :=
  o ← on_request parse_json find c r;
  tee ← conclude o f;
  mret (o, tee).

(** The abort reason of an exchange that got no response. *)
Definition expected_reason (o : @Outcome H) (f : finale) : str :=
  match o, f with
  | Respond _, _ => bs "blocked"
  | Forward _ _ _ _, UpstreamFailed true _ => bs "upstream_connect_error"
  | Forward _ _ _ _, UpstreamFailed false _ => bs "upstream_error"
  | Forward _ _ _ _, _ => bs "incomplete"
  end.

Definition abort_of (id reason : str) (e : emission) : Prop :=
  ∃ raw, (e = Awaited raw ∨ e = Tried raw) ∧ signal_of ABORT_KIND id raw ∧
    raw_attributes raw !! ABORT_REASON_ATTR = Some reason ∧ raw_body raw = [].

(** The terminal record of exchange [id]. *)
Definition terminal (id : str) (o : @Outcome H) (f : finale) (tee : option (@TeeState H)) (new : list emission) : Prop :=
  match tee with
  | Some st => (∃ resp, f = Answered resp ∧ upstream st = Some (rs_body resp)) ∧ new = [] ∧
      ch_kind (te_channel st) = RESPONSE_KIND ∧ (EXCHANGE_ID_ATTR, id) ∈ te_attributes st
  | None => (∀ resp, f = Answered resp → ∃ status, o = Respond status) ∧ ∃ e, new = [e] ∧ abort_of id (expected_reason o f) e
  end.

Lemma take_abort_signal_none reason detail (env : @Env W) :
  exchange_id (ev_handler env) = None → take_abort_signal reason detail env = (env, None).
Proof. intros E. unfold take_abort_signal, mbind, M_bind, get. cbn beta iota. by rewrite E. Qed.

Lemma take_abort_signal_some reason detail id (env : @Env W) :
  exchange_id (ev_handler env) = Some id →
  let '(env', o) := take_abort_signal reason detail env in
  ev_log env' = ev_log env ∧ exchange_id (ev_handler env') = None ∧ abort_reason (ev_handler env') = abort_reason (ev_handler env) ∧
  ∃ raw, o = Some raw ∧ signal_of ABORT_KIND id raw ∧ raw_attributes raw !! ABORT_REASON_ATTR = Some reason ∧ raw_body raw = [].
Proof.
  intros E. unfold take_abort_signal, mbind, M_bind, get. cbn beta iota. rewrite E. unfold empty_signal, mbind, M_bind, world.
  destruct (tick (ev_world env)) as [w ts]. cbn [mret M_ret put ev_world ev_handler ev_log]. split_and!; [done..|].
  eexists. split; [done|]. unfold signal_of. rewrite (proj1 (raw_with_attributes_parts _ _)), (proj1 (proj2 (raw_with_attributes_parts _ _))).
  cbn [app]. set (l := option_list _ ++ _). assert (Forall (λ a : str * str, a.1 ≠ EXCHANGE_ID_ATTR) l ∧ Forall (λ a : str * str, a.1 ≠ ABORT_REASON_ATTR) l) as [H1 H2].
  { unfold l. split; destruct (is_bound _); fixed_keys. }
  clearbody l. split_and!; [done| |  |done].
  - apply raw_with_attributes_lookup. constructor; [cbn; discriminate|done].
  - change ((EXCHANGE_ID_ATTR, id) :: (ABORT_REASON_ATTR, reason) :: l) with ([(EXCHANGE_ID_ATTR, id)] ++ (ABORT_REASON_ATTR, reason) :: l).
    rewrite raw_with_attributes_app. by apply raw_with_attributes_lookup.
Qed.

Lemma drop_handler_none (env : @Env W) :
  exchange_id (ev_handler env) = None →
  let '(env', _) := drop_handler env in ev_log env' = ev_log env ∧ exchange_id (ev_handler env') = None.
Proof.
  intros E. unfold drop_handler, mbind, M_bind, get, put. cbn beta iota. rewrite take_abort_signal_none by done. done.
Qed.

Lemma drop_handler_some id (env : @Env W) :
  exchange_id (ev_handler env) = Some id →
  let '(env', _) := drop_handler env in
  exchange_id (ev_handler env') = None ∧ ∃ e, ev_log env' = ev_log env ++ [e] ∧
    abort_of id (default (bs "incomplete") (abort_reason (ev_handler env))) e.
Proof.
  intros E. unfold drop_handler. unfold mbind at 1, M_bind at 1, get. cbn beta iota. unfold mbind at 1, M_bind at 1, put. cbn beta iota.
  unfold mbind, M_bind.
  pose proof (take_abort_signal_some (default (bs "incomplete") (abort_reason (ev_handler env))) None id
    (mkEnv (ev_world env) (set_abort_reason (ev_handler env) None) (ev_log env)) E) as Ht.
  destruct (take_abort_signal _ _ _) as [env' o]. destruct Ht as (Hlog & Hid & _ & raw & -> & Hs & Hr & Hb).
  cbn. split; [done|]. exists (Tried raw). split; [by rewrite Hlog|]. exists raw. auto.
Qed.

Lemma on_response_spec id (resp : Response) (env : @Env W) :
  exchange_id (ev_handler env) = Some id →
  let '(env', st) := on_response c resp env in
  ev_log env' = ev_log env ∧ exchange_id (ev_handler env') = None ∧ upstream st = Some (rs_body resp) ∧
  ch_kind (te_channel st) = RESPONSE_KIND ∧ (EXCHANGE_ID_ATTR, id) ∈ te_attributes st.
Proof.
  intros E. cbn. split_and!; [done..|]. rewrite E. destruct (is_bound _); cbn; repeat (left || right).
Qed.

Lemma on_upstream_error_spec id is_connect message (env : @Env W) :
  exchange_id (ev_handler env) = Some id →
  let '(env', _) := on_upstream_client_error (H := H) is_connect message env in
  exchange_id (ev_handler env') = None ∧ ∃ raw, ev_log env' = ev_log env ++ [Awaited raw] ∧
    abort_of id (if is_connect then bs "upstream_connect_error" else bs "upstream_error") (Awaited raw).
Proof.
  intros E. unfold on_upstream_client_error, on_upstream_error, mbind, M_bind.
  pose proof (take_abort_signal_some (if is_connect then bs "upstream_connect_error" else bs "upstream_error") (Some message) id env E) as Ht.
  destruct (take_abort_signal _ _ _) as [env' o]. destruct Ht as (Hlog & Hid & _ & raw & -> & Hs & Hr & Hb).
  cbn. split; [done|]. exists raw. rewrite Hlog. split; [done|]. exists raw. auto.
Qed.

Lemma conclude_closed status (f : finale) (env : @Env W) :
  exchange_id (ev_handler env) = None →
  let '(env', tee) := conclude (Respond status) f env in
  ev_log env' = ev_log env ∧ exchange_id (ev_handler env') = None ∧ tee = None.
Proof.
  intros Hid. unfold conclude, mbind, M_bind. cbn [mret M_ret]. pose proof (drop_handler_none env Hid) as Hd.
  destruct (drop_handler env) as [env' []]. naive_solver.
Qed.

Lemma conclude_open id (o : @Outcome H) (f : finale) (env : @Env W) :
  exchange_id (ev_handler env) = Some id →
  abort_reason (ev_handler env) = match o with Forward _ _ _ _ => None | Respond _ => Some (bs "blocked") end →
  let '(env', tee) := conclude o f env in
  exchange_id (ev_handler env') = None ∧ ∃ end_part, ev_log env' = ev_log env ++ end_part ∧ terminal id o f tee end_part.
Proof.
  intros Hid Hab.
  assert (∀ reason, default (bs "incomplete") (abort_reason (ev_handler env)) = reason →
    reason = expected_reason o f → (∀ resp, f = Answered resp → ∃ status, o = Respond status) →
    let '(env', tee) := (drop_handler;; mret None : M (option (@TeeState H))) env in
    exchange_id (ev_handler env') = None ∧ ∃ end_part, ev_log env' = ev_log env ++ end_part ∧ terminal id o f tee end_part) as Hdrop.
  { intros reason <- Hr Hf. unfold mbind, M_bind. pose proof (drop_handler_some id env Hid) as Hd. destruct (drop_handler env) as [env' []].
    destruct Hd as (Hid' & e & Hlog & Hab'). rewrite Hr in Hab'. split; [done|]. exists [e]. split; [done|]. cbn. eauto. }
  rewrite Hab in Hdrop. unfold conclude. destruct o as [m u h b|status]; [|by apply (Hdrop (bs "blocked")); [..|eauto]].
  destruct f as [resp|is_connect message|]; [..|by apply (Hdrop (bs "incomplete"))]; clear Hdrop; unfold mbind, M_bind.
  - pose proof (on_response_spec id resp env Hid) as Hr. destruct (on_response c resp env) as [env1 st].
    destruct Hr as (Hlog1 & Hid1 & Hup & Hk & Hin). cbn [mret M_ret]. pose proof (drop_handler_none env1 Hid1) as Hd.
    destruct (drop_handler env1) as [env2 []]. destruct Hd as [Hlog2 Hid2]. split; [done|]. exists [].
    rewrite Hlog2, Hlog1, app_nil_r. split; [done|]. cbn. split; [by exists resp|done].
  - pose proof (on_upstream_error_spec id is_connect message env Hid) as Hr.
    destruct (on_upstream_client_error is_connect message env) as [env1 o1]. destruct Hr as (Hid1 & raw & Hlog1 & Habort).
    cbn [mret M_ret]. pose proof (drop_handler_none env1 Hid1) as Hd.
    destruct (drop_handler env1) as [env2 []]. destruct Hd as [Hlog2 Hid2]. split; [done|]. exists [Awaited raw].
    rewrite Hlog2, Hlog1. split; [done|]. cbn. split; [done|]. exists (Awaited raw). by destruct is_connect.
Qed.
End exchange.

(** C12: every captured exchange ends in exactly one terminal record.  From a
    handler with no open exchange, a request that is not denied gives exactly
    one request signal (or the one tee that will report it) and, when a response
    came, the tee of the response under the same exchange identifier; otherwise
    exactly one empty abort record under that identifier whose reason is
    [blocked], the upstream's failure or [incomplete].  A denied request gives
    its denial and nothing else.  No exchange stays open. *)
Theorem exchange_has_one_terminal {L : UrlLib} {N : IpNetLib} (parse_json : str → option Value)
    (find : ScanMode → str → list Match) {H : Type} {HL : HeaderLib H} {W : Type} {HW : HandlerWorld W} (c : HandlerConfig)
    (r : Request (H := H)) (f : finale) (env : @Env W) :
  rq_method r ≠ CONNECT_METHOD → exchange_id (ev_handler env) = None → abort_reason (ev_handler env) = None →
  let '(env', (o, tee)) := http_exchange parse_json find c r f env in
  exchange_id (ev_handler env') = None ∧
  ((∃ raw status, ev_log env' = ev_log env ++ [Tried raw] ∧ denial raw ∧ tee = None ∧ o = Respond status) ∨
   (∃ id r' request_part end_part, ev_log env' = ev_log env ++ request_part ++ end_part ∧
      rq_method r' = rq_method r ∧ rq_uri r' = rq_uri r ∧ (rq_body r' = rq_body r ∨ rq_body r' = scrub_body (rq_body r)) ∧
      capture_signal id o request_part r' ∧ terminal id o f tee end_part)).
Proof.
  intros Hm Hid Hab. unfold http_exchange, mbind, M_bind.
  destruct (on_request_cases parse_json find c r env) as [env1 status (raw & Hlog & Hden & Hh) Hs | Hc _ | r' env1 _ Hp Ha]; [|done|].
  { pose proof (conclude_closed c status f env1 ltac:(by rewrite Hh)) as Hd. destruct (conclude c _ f env1) as [env2 tee].
    destruct Hd as (Hlog2 & Hid2 & ->). split; [done|]. left. exists raw, status. by rewrite Hlog2, Hlog. }
  assert (rq_method r' = rq_method r ∧ rq_uri r' = rq_uri r ∧ (rq_body r' = rq_body r ∨ rq_body r' = scrub_body (rq_body r)) ∧
    ev_log env1 = ev_log env ∧ abort_reason (ev_handler env1) = abort_reason (ev_handler env)) as (Em & Eu & Eb & El & Ea).
  { destruct Ha as [(-> & -> & _) | (? & ? & ? & ? & _ & _ & _ & _ & _ & _ & _ & -> & _ & ->)]; cbn; auto. }
  pose proof (capture_request_spec parse_json find c r' env1) as Hspec.
  destruct (capture_request parse_json find c r' env1) as [env2 o]. destruct Hspec as (id & new & Hlog & Hcap & Hid2 & _ & Ho).
  pose proof (conclude_open c id o f env2 Hid2) as Hd. destruct (conclude c o f env2) as [env3 tee].
  destruct Hd as (Hid3 & end_part & Hlog3 & Hterm).
  { destruct Ho as [[[body ->] Hab2] | (-> & _ & Hab2)]; [cbn; congruence|done]. }
  split; [done|]. right. exists id, r', new, end_part. rewrite Hlog3, Hlog, El, app_assoc. done.
Qed.

(** *** Bound exchanges *)

Section bound.
Context {L : UrlLib} {N : IpNetLib} (parse_json : str → option Value) (find : ScanMode → str → list Match).
Context {H : Type} {HL : HeaderLib H} {W : Type} {HW : HandlerWorld W} (c : HandlerConfig).

(** Two bodies sent on whose capture is the same: tees alike in all but their
    upstream. *)
Definition same_capture (b1 b2 : @OutBody H) : Prop :=
  match b1, b2 with
  | Teed s1, Teed s2 => set_upstream s1 None = set_upstream s2 None
  | _, _ => False
  end.
Definition outcome_body (o : @Outcome H) : option (@OutBody H) :=
  match o with Forward _ _ _ body => Some body | Respond _ => None end.

(** Finales an observer of a bound exchange does not tell apart. *)
Definition finale_alike (f1 f2 : finale (H := H)) : Prop :=
  match f1, f2 with
  | Answered a, Answered b => (rs_status a / 100 = rs_status b / 100)%Z
  | UpstreamFailed a _, UpstreamFailed b _ => a = b
  | Abandoned, Abandoned => True
  | _, _ => False
  end.

Lemma bound_capture_alike (r1 r2 : Request (H := H)) (env : @Env W) :
  is_bound (exchange_disposition (ev_handler env)) = true → rq_method r1 = rq_method r2 → rq_end_stream r1 = false → rq_end_stream r2 = false →
  telemetry_host <$> request_host (rq_uri r1) (rq_headers r1) = telemetry_host <$> request_host (rq_uri r2) (rq_headers r2) →
  let '(env1, o1) := capture_request parse_json find c r1 env in
  let '(env2, o2) := capture_request parse_json find c r2 env in
  env1 = env2 ∧ is_bound (exchange_disposition (ev_handler env1)) = true ∧
  ∃ b1 b2, outcome_body o1 = Some b1 ∧ outcome_body o2 = Some b2 ∧ same_capture b1 b2.
Proof.
  intros Hb Hm He1 He2 Hh. unfold capture_request, mbind, M_bind, world. destruct (next_exchange_id (ev_world env)) as [w id].
  cbn [get ev_handler]. rewrite Hb. cbn [negb andb orb]. rewrite Hm, He1, He2, Hh. unfold put. cbn [ev_world ev_handler ev_log mret M_ret].
  split; [reflexivity|]. split; [reflexivity|]. do 2 eexists. split; [reflexivity|]. split; reflexivity.
Qed.

(** A forwarded request to a selected host was captured as bound. *)
Lemma forwarded_bound relay d (r : Request (H := H)) (env : @Env W) :
  hc_relay c = Some relay → rq_method r ≠ CONNECT_METHOD → canonical_authority r = Some d → contains_host relay (dest_host d) = true →
  is_Some (outcome_body (on_request parse_json find c r env).2) →
  ∃ r', on_request parse_json find c r env = capture_request parse_json find c r'
      (mkEnv (open_proof (ev_world env)).1 (set_disposition (ev_handler env) (MetadataOnly BoundSecret)) (ev_log env)) ∧
    rq_method r' = rq_method r ∧ rq_end_stream r' = false ∧
    telemetry_host <$> request_host (rq_uri r') (rq_headers r') = Some (host_str d).
Proof.
  intros Hr Hm Hd Hsel. destruct (on_request_cases parse_json find c r env) as [env' status _ _ | Hc _ | r' env1 _ Hp Ha]; [by intros [? ?]|done|].
  intros _. destruct Ha as [(-> & -> & Hdir) | (relay' & d' & file & proof & Hr' & Hd' & _ & _ & _ & _ & Hamb & -> & _ & ->)].
  - destruct (Hdir relay Hr) as [_ Hroute]. apply Hroute, direct_not_selected in Hd. congruence.
  - eexists. split; [done|]. split_and!; [done..|]. cbn [rq_uri rq_headers]. unfold request_host.
    unfold request_has_ambiguous_authority in Hamb. destruct (negb _ || _) eqn:Ea; [done|]. apply orb_false_iff in Ea as [_ Ha%bool_decide_eq_false].
    cbn [relay_view req_authority] in Ha. destruct (uri_authority (rq_uri r)) as [a|] eqn:Eau; [|done]. cbn. f_equal.
    unfold canonical_authority in Hd. rewrite bool_decide_false in Hd by done. unfold request_host in Hd. rewrite Eau in Hd. cbn in Hd.
    unfold telemetry_host. destruct (canonicalize_host a); [|done]. by injection Hd as ->.
Qed.

Lemma bound_response_alike (a b : Response (H := H)) (env : @Env W) :
  is_bound (exchange_disposition (ev_handler env)) = true → (rs_status a / 100 = rs_status b / 100)%Z →
  (on_response c a env).1 = (on_response c b env).1 ∧
  set_upstream (on_response c a env).2 None = set_upstream (on_response c b env).2 None.
Proof. intros Hb Hs. unfold on_response, mbind, M_bind, get, put. cbn beta iota. rewrite Hb. unfold status_class. rewrite Hs. by split. Qed.

Lemma bound_error_alike is_connect m1 m2 (env : @Env W) :
  is_bound (exchange_disposition (ev_handler env)) = true →
  on_upstream_client_error (H := H) is_connect m1 env = on_upstream_client_error is_connect m2 env.
Proof.
  intros Hb. unfold on_upstream_client_error, on_upstream_error. set (reason := if is_connect then _ else _). clearbody reason.
  assert (take_abort_signal reason (Some m1) env = take_abort_signal reason (Some m2) env) as E.
  { unfold take_abort_signal, mbind, M_bind, get. cbn beta iota. by rewrite Hb. }
  unfold mbind, M_bind. by rewrite E.
Qed.

Lemma conclude_alike (o1 o2 : @Outcome H) (f1 f2 : finale (H := H)) (env : @Env W) :
  is_bound (exchange_disposition (ev_handler env)) = true → is_Some (outcome_body o1) → is_Some (outcome_body o2) → finale_alike f1 f2 →
  (conclude c o1 f1 env).1 = (conclude c o2 f2 env).1 ∧
  (λ st, set_upstream st None) <$> (conclude c o1 f1 env).2 = (λ st, set_upstream st None) <$> (conclude c o2 f2 env).2.
Proof.
  intros Hb H1 H2 Hf. unfold conclude. destruct o1 as [m1 u1 h1 b1|]; [|by destruct H1]. destruct o2 as [m2 u2 h2 b2|]; [|by destruct H2].
  destruct f1 as [a|ic1 m|], f2 as [b|ic2 m'|]; cbn in Hf; try done; subst; unfold mbind, M_bind.
  - destruct (bound_response_alike a b env Hb Hf) as [He Ht]. destruct (on_response c a env) as [e1 s1], (on_response c b env) as [e2 s2].
    cbn in He, Ht. subst e2. cbn [mret M_ret]. destruct (drop_handler e1) as [e3 []]. cbn. by rewrite Ht.
  - rewrite (bound_error_alike ic2 m m' env Hb). destruct (on_upstream_client_error ic2 m' env) as [e1 o].
    cbn [mret M_ret]. by destruct (drop_handler e1) as [e3 []].
Qed.
End bound.

(** C15: a bound exchange tells its observer its host, method and status
    class, and nothing else.  Two requests to a selected host that are both
    forwarded and agree in host and method, with responses of one status class
    (or the same kind of failure), leave the same signals and the same state,
    their bodies are sent on behind tees, and the tees of requests and responses
    are alike in all but their upstream, whatever their targets, headers, bodies
    (or having none) and error messages are. *)
Theorem bound_exchange_discloses_little {L : UrlLib} {N : IpNetLib} (parse_json : str → option Value)
    (find : ScanMode → str → list Match) {H : Type} {HL : HeaderLib H} {W : Type} {HW : HandlerWorld W} (c : HandlerConfig)
    (relay : FixedTlsRelayConfig) (d : Destination) (r1 r2 : Request (H := H)) (f1 f2 : finale) (env : @Env W) :
  hc_relay c = Some relay → contains_host relay (dest_host d) = true →
  canonical_authority r1 = Some d → canonical_authority r2 = Some d →
  rq_method r1 ≠ CONNECT_METHOD → rq_method r1 = rq_method r2 → finale_alike f1 f2 →
  let '(env1, (o1, tee1)) := http_exchange parse_json find c r1 f1 env in
  let '(env2, (o2, tee2)) := http_exchange parse_json find c r2 f2 env in
  is_Some (outcome_body o1) → is_Some (outcome_body o2) →
  env1 = env2 ∧ (∃ b1 b2, outcome_body o1 = Some b1 ∧ outcome_body o2 = Some b2 ∧ same_capture b1 b2) ∧
  (λ st, set_upstream st None) <$> tee1 = (λ st, set_upstream st None) <$> tee2.
Proof.
  intros Hr Hsel Hd1 Hd2 Hm Hmm Hf. unfold http_exchange, mbind, M_bind.
  pose proof (forwarded_bound parse_json find c relay d r1 env Hr Hm Hd1 Hsel) as H1.
  pose proof (forwarded_bound parse_json find c relay d r2 env Hr ltac:(congruence) Hd2 Hsel) as H2.
  destruct (on_request parse_json find c r1 env) as [e1 o1], (on_request parse_json find c r2 env) as [e2 o2]. cbn [snd] in H1, H2.
  destruct (conclude c o1 f1 e1) as [e1' tee1] eqn:C1, (conclude c o2 f2 e2) as [e2' tee2] eqn:C2. cbn [mret M_ret]. intros Ho1 Ho2.
  destruct (H1 Ho1) as (r1' & K1 & M1 & S1 & T1), (H2 Ho2) as (r2' & K2 & M2 & S2 & T2).
  pose proof (bound_capture_alike parse_json find c r1' r2' (mkEnv (open_proof (ev_world env)).1
    (set_disposition (ev_handler env) (MetadataOnly BoundSecret)) (ev_log env)) eq_refl (eq_trans M1 (eq_trans Hmm (eq_sym M2)))
    S1 S2 (eq_trans T1 (eq_sym T2))) as Ha.
  rewrite <- K1, <- K2 in Ha. destruct Ha as (<- & Hb & Hbodies).
  pose proof (conclude_alike c o1 o2 f1 f2 e1 Hb Ho1 Ho2 Hf) as Hc. rewrite C1, C2 in Hc. destruct Hc as [Henv Htee]. done.
Qed.

(** *** Witnesses *)

Section witnesses.
#[local] Existing Instances Sample.url_lib Sample.ipnet_lib Fields.header_lib Fields.header_laws counting.
#[local] Instance sample_world : HandlerWorld nat := {
  next_exchange_id n := (S n, show_uint (Z.of_nat n));
  open_proof n := (n, Some (bs "s3cret" ++ [x0a]));
}.

Definition sample_config : HandlerConfig :=
  mkHandlerConfig (Some 64%Z) RedactionPolicy_enabled (mkPolicy ModeDeny [bs "api.example.com"] []) AnomalyConfig_default
    (Some sample_relay) true.
Definition sample_env : @Env nat := mkEnv 0 (set_connect CaptureHandler_new bound_destination) [].
Definition sample_uri (path : string) : Uri :=
  mkUri (Some (bs "https")) (Some (bs "api.example.com")) (Some (bs "api.example.com")) None (bs path) (Some (bs path))
    (bs "https://api.example.com" ++ bs path).
Definition sample_request (path token body : string) : Request :=
  mkReq (bs "POST") (sample_uri path) [(bs "host", bs "API.example.com"); (bs "authorization", bs token)] [Ok (Data (bs body))] false.

Lemma proxy_egress_enforced_witness :
  ∃ env' m u h b, on_request no_json no_find sample_config (sample_request "/v1" "Bearer x" "hello") sample_env = (env', Forward m u h b) ∧
    get_all h SECRET_PROOF_HEADER = [bs "s3cret"] ∧ get_all h AUTHORIZATION = [].
Proof.
  pose proof (proxy_egress_enforced no_json no_find sample_config (sample_request "/v1" "Bearer x" "hello") sample_env) as G.
  assert (match (on_request no_json no_find sample_config (sample_request "/v1" "Bearer x" "hello") sample_env).2 with
    | Forward _ _ h _ => bool_decide (get_all h SECRET_PROOF_HEADER = [bs "s3cret"]) | Respond _ => false end = true) as Hok
    by (vm_compute; reflexivity).
  destruct (on_request _ _ _ _ _) as [env' [m u h b|status]]; [|discriminate]. exists env', m, u, h, b. split; [reflexivity|].
  apply bool_decide_eq_true in Hok. destruct G as (_ & _ & G). rewrite bool_decide_false in G by discriminate.
  destruct G as [_ [(_ & _ & Hd) | (d & connect & proof & _ & _ & _ & _ & _ & _ & _ & _ & Hn)]].
  - exfalso. assert (canonical_authority (sample_request "/v1" "Bearer x" "hello") = Some (mkDestination (Domain (bs "api.example.com")) None)) as E
      by (vm_compute; reflexivity). apply Hd in E. revert E. vm_compute. discriminate.
  - split; [exact Hok|]. rewrite Hn; [reflexivity|discriminate].
Defined.

Definition sample_response (path : string) : Response := mkResp 200 [(bs "location", bs path)] [Ok (Data (bs path))].
Definition log_kinds (log : list emission) : list str :=
  (λ e, match e with Awaited raw | Tried raw => raw_kind raw end) <$> log.

Lemma exchange_has_one_terminal_witness :
  let '(env', (o, tee)) := http_exchange no_json no_find sample_config (sample_request "/v1" "Bearer x" "hello") Abandoned sample_env in
  exchange_id (ev_handler env') = None ∧ log_kinds (ev_log env') = [ABORT_KIND].
Proof.
  pose proof (exchange_has_one_terminal no_json no_find sample_config (sample_request "/v1" "Bearer x" "hello") Abandoned sample_env
    ltac:(discriminate) eq_refl eq_refl) as G.
  assert (bool_decide (log_kinds (ev_log (http_exchange no_json no_find sample_config (sample_request "/v1" "Bearer x" "hello") Abandoned
    sample_env).1) = [ABORT_KIND]) = true) as Hok by (vm_compute; reflexivity).
  destruct (http_exchange _ _ _ _ _ _) as [env' [o tee]]. split; [exact (proj1 G)|]. by apply bool_decide_eq_true in Hok.
Defined.

Lemma bound_exchange_discloses_little_witness :
  let run1 := http_exchange no_json no_find sample_config (sample_request "/v1" "Bearer x" "hello") (Answered (sample_response "/a")) sample_env in
  let run2 := http_exchange no_json no_find sample_config (sample_request "/v2?q" "Bearer y" "bye") (Answered (sample_response "/b")) sample_env in
  run1.1 = run2.1 ∧ is_Some (outcome_body run1.2.1).
Proof.
  pose proof (bound_exchange_discloses_little no_json no_find sample_config sample_relay
    (mkDestination (Domain (bs "api.example.com")) None) (sample_request "/v1" "Bearer x" "hello") (sample_request "/v2?q" "Bearer y" "bye")
    (Answered (sample_response "/a")) (Answered (sample_response "/b")) sample_env eq_refl ltac:(vm_compute; reflexivity)
    ltac:(vm_compute; reflexivity) ltac:(vm_compute; reflexivity) ltac:(discriminate) eq_refl eq_refl) as G.
  cbv zeta.
  set (run1 := http_exchange _ _ _ (sample_request "/v1" _ _) _ _) in *. set (run2 := http_exchange _ _ _ (sample_request "/v2?q" _ _) _ _) in *.
  assert (match outcome_body run1.2.1, outcome_body run2.2.1 with Some _, Some _ => true | _, _ => false end = true) as Hok
    by (vm_compute; reflexivity).
  destruct run1 as [env1 [o1 tee1]], run2 as [env2 [o2 tee2]]. cbn [fst snd] in *.
  destruct (outcome_body o1) as [b1|] eqn:E1; [|discriminate]. destruct (outcome_body o2) as [b2|] eqn:E2; [|discriminate].
  destruct G as [-> _]; [by exists b1|by exists b2|]. split; [reflexivity|]. by exists b1.
Defined.
End witnesses.
