(* ===== verification/Udp.v ===== *)
(** * Opaque UDP flows (crates/hiloop-interceptor/src/netns/udp.rs, udp_ingress.rs, udp_broker.rs)

    Datagrams other than DNS are forwarded, one task per flow, only in a run
    whose policy allows everything.  [udp_step] interleaves the callers of
    [UdpFlowRelay::forward] and [close] with the flow tasks: its steps are the
    code between two awaits, and the lock of the flow table makes each of
    [flow_sender], [remove] and [clear] one step.  What sockets and sinks answer
    is in the labels.  A flow's channel loses its receiver only when its task
    returns; a task sees its channel closed when the queue is empty and neither
    the table nor a caller holds a sender.  The broker's request is also the
    format between the gateway and the namespace manager. *)
From Stdlib Require Import Strings.Byte.
From stdpp Require Import relations.
From S2P Require Import Prelude Text Net Identity Event Capture Egress.

(** ** Flows and their errors *)

(** A V6 address also carries its flow label and scope. *)
Inductive SocketAddr :=
| SockV4 (ip : Ipv4Addr) (port : Z)
| SockV6 (ip : Ipv6Addr) (port flowinfo scope_id : Z).
#[export] Instance SocketAddr_eq_dec : EqDecision SocketAddr.
Proof. solve_decision. Defined.
Definition sock_ip (a : SocketAddr) : IpAddr := match a with SockV4 ip _ => V4 ip | SockV6 ip _ _ _ => V6 ip end.
Definition sock_port (a : SocketAddr) : Z := match a with SockV4 _ port | SockV6 _ port _ _ => port end.
Definition sock_is_ipv4 (a : SocketAddr) : bool := match a with SockV4 _ _ => true | SockV6 _ _ _ _ => false end.
(** [SocketAddr::new] *)
Definition SocketAddr_new (ip : IpAddr) (port : Z) : SocketAddr :=
  match ip with V4 ip => SockV4 ip port | V6 ip => SockV6 ip port 0 0 end.

Definition sock_parts (a : SocketAddr) : IpAddr * Z * Z * Z :=
  match a with SockV4 ip port => (V4 ip, port, 0%Z, 0%Z) | SockV6 ip port f s => (V6 ip, port, f, s) end.
Definition sock_of_parts (p : IpAddr * Z * Z * Z) : SocketAddr :=
  match p with (V4 ip, port, _, _) => SockV4 ip port | (V6 ip, port, f, s) => SockV6 ip port f s end.
#[export] Instance SocketAddr_countable : Countable SocketAddr.
Proof. apply (inj_countable' sock_parts sock_of_parts). by intros []. Defined.

Inductive UdpFlowDisposition := UdpForward | DenyIdentityUnavailable.
#[export] Instance UdpFlowDisposition_eq_dec : EqDecision UdpFlowDisposition.
Proof. solve_decision. Defined.

Record UdpFlowKey := mkFlowKey { fk_client : SocketAddr; fk_destination : SocketAddr }.
#[export] Instance UdpFlowKey_eq_dec : EqDecision UdpFlowKey.
Proof. solve_decision. Defined.
#[export] Instance UdpFlowKey_countable : Countable UdpFlowKey.
Proof. apply (inj_countable' (λ k, (fk_client k, fk_destination k)) (λ p, mkFlowKey p.1 p.2)). by intros []. Defined.

Inductive UdpRelayError :=
| UdpPolicy (d : UdpFlowDisposition) (key : UdpFlowKey) | UdpClosed
| AddressFamilyMismatch (client destination : SocketAddr) | DestinationPortZero | UdpUpstream (error : str).
#[export] Instance UdpRelayError_eq_dec : EqDecision UdpRelayError.
Proof. solve_decision. Defined.
Definition error_disposition (e : UdpRelayError) : option UdpFlowDisposition :=
  match e with UdpPolicy d _ => Some d | _ => None end.

Definition UdpFlowKey_new (client destination : SocketAddr) : result UdpRelayError UdpFlowKey :=
  if negb (Bool.eqb (sock_is_ipv4 client) (sock_is_ipv4 destination)) then Err (AddressFamilyMismatch client destination)
  else if (sock_port destination =? 0)%Z then Err DestinationPortZero
  else Ok (mkFlowKey client destination).

Definition udp_flow_disposition {N : IpNetLib} (policy : EgressPolicy) : UdpFlowDisposition :=
  if is_allow_all policy then UdpForward else DenyIdentityUnavailable.

Record UdpFlowSummary := mkSummary { su_key : UdpFlowKey; su_upstream_bytes : Z; su_downstream_bytes : Z }.
#[export] Instance UdpFlowSummary_eq_dec : EqDecision UdpFlowSummary.
Proof. solve_decision. Defined.

Definition net_passthrough_event {U : UlidLib} (s : UdpFlowSummary) (minted : EventId) (context : RunContext) (ts : Hlc)
    : result CaptureContractError Event :=
  destination ← OriginalDestination_new (sock_ip (fk_destination (su_key s))) (sock_port (fk_destination (su_key s)));
  counts ← ByteCounts_new (su_upstream_bytes s) (su_downstream_bytes s);
  Ok (net_passthrough minted context ts Udp destination UnsupportedTransportCapture counts).

(** ** The relay and its flow tasks *)

(** Where [run_flow] is: in its loop, past it, with its key removed from the
    table, with the sink told, and returned. *)
Inductive flow_phase := Looping | Left | Removed | SinkClosed | Returned.
#[export] Instance flow_phase_eq_dec : EqDecision flow_phase.
Proof. solve_decision. Defined.

(** A flow task, with all the datagrams its channel took, those the origin's
    socket took and those the child's sink took. *)
Record flow := mkFlow {
  fl_key : UdpFlowKey; fl_queue : list str; fl_up : Z; fl_down : Z; fl_phase : flow_phase;
  fl_accepted : list str; fl_sent : list str; fl_delivered : list str }.
Definition new_flow (key : UdpFlowKey) : flow := mkFlow key [] 0 0 Looping [] [] [].
Definition set_phase (f : flow) (p : flow_phase) : flow :=
  mkFlow (fl_key f) (fl_queue f) (fl_up f) (fl_down f) p (fl_accepted f) (fl_sent f) (fl_delivered f).
Definition flow_summary (f : flow) : UdpFlowSummary := mkSummary (fl_key f) (fl_up f) (fl_down f).

(** Where a call of [forward] is: past its checks; with a flow's sender (again
    after a failed send); about to remove the dead flow; about to look again. *)
Inductive call_state := Admitted_ | Holding (id : nat) (again : bool) | Dead | Again.
Record call := mkCall { ca_key : UdpFlowKey; ca_payload : str; ca_state : option call_state; ca_result : option (result UdpRelayError unit) }.
Definition set_call (c : call) (s : call_state) : call := mkCall (ca_key c) (ca_payload c) (Some s) None.
Definition end_call (c : call) (r : result UdpRelayError unit) : call := mkCall (ca_key c) (ca_payload c) None (Some r).

Record relay := mkUdpRelay {
  re_disposition : UdpFlowDisposition; re_closed : bool; re_flows : gmap UdpFlowKey nat; re_clearing : nat;
  re_tasks : list flow; re_calls : list call; re_summaries : list UdpFlowSummary; re_sink_closed : list UdpFlowKey }.

Definition UdpFlowRelay_new {N : IpNetLib} (policy : EgressPolicy) : relay :=
  mkUdpRelay (udp_flow_disposition policy) false ∅ 0 [] [] [] [].

Definition set_flows (s : relay) (flows : gmap UdpFlowKey nat) : relay :=
  mkUdpRelay (re_disposition s) (re_closed s) flows (re_clearing s) (re_tasks s) (re_calls s) (re_summaries s) (re_sink_closed s).
Definition set_task (s : relay) (id : nat) (f : flow) : relay :=
  mkUdpRelay (re_disposition s) (re_closed s) (re_flows s) (re_clearing s) (<[id := f]> (re_tasks s)) (re_calls s)
    (re_summaries s) (re_sink_closed s).
Definition update_call (s : relay) (i : nat) (c : call) : relay :=
  mkUdpRelay (re_disposition s) (re_closed s) (re_flows s) (re_clearing s) (re_tasks s) (<[i := c]> (re_calls s))
    (re_summaries s) (re_sink_closed s).

Definition CHANNEL_CAPACITY : nat := 32.
(** What a receive of 65,535 bytes keeps of a datagram. *)
Definition response_buffer (response : str) : str := take (Z.to_nat 65535) response.
Arguments response_buffer : simpl never.

(** [forward] up to its first await. *)
Definition begin_forward (s : relay) (key : UdpFlowKey) (payload : str) : relay :=
  let c := mkCall key payload None None in
  let c := match re_disposition s with
           | DenyIdentityUnavailable => end_call c (Err (UdpPolicy DenyIdentityUnavailable key))
           | UdpForward => if re_closed s then end_call c (Err UdpClosed) else set_call c Admitted_
           end in
  mkUdpRelay (re_disposition s) (re_closed s) (re_flows s) (re_clearing s) (re_tasks s) (re_calls s ++ [c])
    (re_summaries s) (re_sink_closed s).

(** [flow_sender] under the lock: the flow of the key, or a new task;
    [opened] is what binding and connecting its socket gives. *)
Definition flow_sender (s : relay) (key : UdpFlowKey) (opened : result str unit) : relay * result UdpRelayError nat :=
  match re_flows s !! key with
  | Some id => (s, Ok id)
  | None =>
      match opened with
      | Err e => (s, Err (UdpUpstream e))
      | Ok _ =>
          let id := length (re_tasks s) in
          (mkUdpRelay (re_disposition s) (re_closed s) (<[key := id]> (re_flows s)) (re_clearing s)
             (re_tasks s ++ [new_flow key]) (re_calls s) (re_summaries s) (re_sink_closed s), Ok id)
      end
  end.

Definition call_flow_sender (s : relay) (i : nat) (c : call) (again : bool) (opened : result str unit) : relay :=
  match flow_sender s (ca_key c) opened with
  | (s, Ok id) => update_call s i (set_call c (Holding id again))
  | (s, Err e) => update_call s i (end_call c (Err e))
  end.

(** The call's send on a flow's channel; it waits while the channel is full. *)
Definition call_send (s : relay) (i : nat) (c : call) (id : nat) (f : flow) (again : bool) : option relay :=
  if bool_decide (fl_phase f = Returned)
  then Some (update_call s i (if again then end_call c (Err UdpClosed) else set_call c Dead))
  else if Nat.ltb (length (fl_queue f)) CHANNEL_CAPACITY
  then Some (update_call (set_task s id (mkFlow (fl_key f) (fl_queue f ++ [ca_payload c]) (fl_up f) (fl_down f) (fl_phase f)
               (fl_accepted f ++ [ca_payload c]) (fl_sent f) (fl_delivered f))) i (end_call c (Ok ())))
  else None.

(** The loop's first branch: the next datagram, and what the socket took. *)
Definition flow_upstream (f : flow) (taken : option Z) : option flow :=
  match fl_queue f with
  | [] => None
  | payload :: queue =>
      let f := mkFlow (fl_key f) queue (fl_up f) (fl_down f) (fl_phase f) (fl_accepted f) (fl_sent f) (fl_delivered f) in
      if bool_decide (taken = Some (Z.of_nat (length payload)))
      then Some (mkFlow (fl_key f) queue (saturating_add u64_max (fl_up f) (Z.of_nat (length payload))) (fl_down f) (fl_phase f)
                   (fl_accepted f) (fl_sent f ++ [payload]) (fl_delivered f))
      else Some (set_phase f Left)
  end.
(** The second branch: what the origin sent, and whether the sink took it. *)
Definition flow_downstream (f : flow) (received : option str) (sink_took : bool) : flow :=
  match received with
  | None => set_phase f Left
  | Some response =>
      let response := response_buffer response in
      if sink_took
      then mkFlow (fl_key f) (fl_queue f) (fl_up f) (saturating_add u64_max (fl_down f) (Z.of_nat (length response))) (fl_phase f)
             (fl_accepted f) (fl_sent f) (fl_delivered f ++ [response])
      else set_phase f Left
  end.

Definition has_sender (s : relay) (id : nat) : bool :=
  existsb (λ kv : UdpFlowKey * nat, Nat.eqb kv.2 id) (map_to_list (re_flows s))
  || existsb (λ c, match ca_state c with Some (Holding j _) => Nat.eqb j id | _ => false end) (re_calls s).

Inductive udp_label :=
| BeginForward (key : UdpFlowKey) (payload : str)
| LookUp (i : nat) (opened : result str unit)
| SendOn (i : nat)
| RemoveDead (i : nat)
| Upstream (id : nat) (taken : option Z)
| ChannelClosed (id : nat)
| Downstream (id : nat) (received : option str) (sink_took : bool)
| Idle (id : nat)
| RemoveFlow (id : nat)
| CloseSink (id : nat)
| Summarize (id : nat)
| BeginClose
| Clear.

(** A step of a flow task in phase [p]. *)
Definition task_step (s : relay) (id : nat) (p : flow_phase) (k : flow → option relay) : option relay :=
  f ← re_tasks s !! id; if bool_decide (fl_phase f = p) then k f else None.

Definition udp_step_fn (l : udp_label) (s : relay) : option relay :=
  match l with
  | BeginForward key payload => Some (begin_forward s key payload)
  | LookUp i opened =>
      c ← re_calls s !! i;
      match ca_state c with
      | Some Admitted_ => Some (call_flow_sender s i c false opened)
      | Some Again => Some (call_flow_sender s i c true opened)
      | _ => None
      end
  | SendOn i =>
      c ← re_calls s !! i;
      match ca_state c with
      | Some (Holding id again) => f ← re_tasks s !! id; call_send s i c id f again
      | _ => None
      end
  | RemoveDead i =>
      c ← re_calls s !! i;
      match ca_state c with
      | Some Dead => Some (update_call (set_flows s (delete (ca_key c) (re_flows s))) i (set_call c Again))
      | _ => None
      end
  | Upstream id taken => task_step s id Looping (λ f, set_task s id <$> flow_upstream f taken)
  | ChannelClosed id =>
      task_step s id Looping (λ f,
        if bool_decide (fl_queue f = []) && negb (has_sender s id) then Some (set_task s id (set_phase f Left)) else None)
  | Downstream id received took => task_step s id Looping (λ f, Some (set_task s id (flow_downstream f received took)))
  | Idle id => task_step s id Looping (λ f, Some (set_task s id (set_phase f Left)))
  | RemoveFlow id =>
      task_step s id Left (λ f, Some (set_flows (set_task s id (set_phase f Removed)) (delete (fl_key f) (re_flows s))))
  | CloseSink id =>
      task_step s id Removed (λ f,
        let s := set_task s id (set_phase f SinkClosed) in
        Some (mkUdpRelay (re_disposition s) (re_closed s) (re_flows s) (re_clearing s) (re_tasks s) (re_calls s)
                (re_summaries s) (re_sink_closed s ++ [fl_key f])))
  | Summarize id =>
      task_step s id SinkClosed (λ f,
        let s := set_task s id (set_phase f Returned) in
        Some (mkUdpRelay (re_disposition s) (re_closed s) (re_flows s) (re_clearing s) (re_tasks s) (re_calls s)
                (re_summaries s ++ [flow_summary f]) (re_sink_closed s)))
  | BeginClose =>
      Some (mkUdpRelay (re_disposition s) true (re_flows s) (re_clearing s + if re_closed s then 0 else 1) (re_tasks s) (re_calls s)
              (re_summaries s) (re_sink_closed s))
  | Clear =>
      match re_clearing s with
      | O => None
      | S n => Some (mkUdpRelay (re_disposition s) (re_closed s) ∅ n (re_tasks s) (re_calls s) (re_summaries s) (re_sink_closed s))
      end
  end.
Definition udp_step (s s' : relay) : Prop := ∃ l, udp_step_fn l s = Some s'.
Definition open_flow_count (s : relay) : nat := size (re_flows s).

(** ** The broker's requests *)

Definition BROKER_VERSION : byte := x01.
Definition BROKER_STATUS_OK : byte := x00.
Definition BROKER_STATUS_ERROR : byte := x01.
Definition BROKER_REQUEST_LENGTH : nat := 38.

Definition encode_address (a : SocketAddr) : str :=
  match a with
  | SockV4 ip _ => replicate 12 x00 ++ v4_octets ip
  | SockV6 ip _ _ _ => ip_octets (V6 ip)
  end ++ u16_to_be_bytes (sock_port a).
Definition encode_request (key : UdpFlowKey) : str :=
  [BROKER_VERSION; if sock_is_ipv4 (fk_destination key) then x04 else x06]
  ++ encode_address (fk_client key) ++ encode_address (fk_destination key).

Definition decode_address (family : byte) (input : str) : option SocketAddr :=
  match drop 16 input with
  | [hi; lo] =>
      let port := u16_from_be_bytes hi lo in
      if byte_is x04 family && forallb (byte_is x00) (take 12 input)
      then ip ← v4_of_octets (take 4 (drop 12 input)); Some (SocketAddr_new (V4 ip) port)
      else if byte_is x06 family then ip ← v6_of_octets (take 16 input); Some (SocketAddr_new (V6 ip) port)
      else None
  | _ => None
  end.
Definition decode_request (request : str) : option UdpFlowKey :=
  if negb (Nat.eqb (length request) BROKER_REQUEST_LENGTH) then None
  else match request with
       | version :: family :: addresses =>
           if negb (byte_is BROKER_VERSION version) then None
           else
             client ← decode_address family (take 18 addresses);
             destination ← decode_address family (drop 18 addresses);
             match UdpFlowKey_new client destination with Ok key => Some key | Err _ => None end
       | _ => None
       end.

(** ** Transparent ingress *)

Inductive AddressFamily := FamilyV4 | FamilyV6.
Inductive control_message := OrigDstV4 (address : SocketAddr) | OrigDstV6 (address : SocketAddr) | OtherControl.
(** What [recvmsg] gives. *)
Record datagram_message := mkMessage {
  ms_truncated : bool; ms_address : option SocketAddr; ms_control : list control_message; ms_payload : str }.
Record InterceptedUdpDatagram := mkDatagram { dg_key : UdpFlowKey; dg_payload : str }.
Inductive ReceiveError := DatagramTruncated | SourceAbsent | DuplicateDestination | DestinationOmitted | InvalidKey (e : UdpRelayError).

Definition destination_candidate (family : AddressFamily) (c : control_message) : option SocketAddr :=
  match c, family with
  | OrigDstV4 a, FamilyV4 => Some a
  | OrigDstV6 a, FamilyV6 => Some a
  | _, _ => None
  end.
Fixpoint find_destination (family : AddressFamily) (controls : list control_message) (found : option SocketAddr)
    : result ReceiveError (option SocketAddr) :=
  match controls with
  | [] => Ok found
  | c :: controls =>
      match destination_candidate family c, found with
      | None, _ => find_destination family controls found
      | Some a, None => find_destination family controls (Some a)
      | Some _, Some _ => Err DuplicateDestination
      end
  end.
Definition receive_now (family : AddressFamily) (m : datagram_message) : result ReceiveError InterceptedUdpDatagram :=
  if ms_truncated m then Err DatagramTruncated
  else match ms_address m with
       | None => Err SourceAbsent
       | Some client =>
           found ← find_destination family (ms_control m) None;
           match found with
           | None => Err DestinationOmitted
           | Some destination =>
               match UdpFlowKey_new client destination with
               | Err e => Err (InvalidKey e)
               | Ok key => Ok (mkDatagram key (ms_payload m))
               end
           end
       end.

(** [serve] goes on after the call's answer, or stops with its error. *)
Definition serve_after (r : result UdpRelayError unit) : option UdpRelayError :=
  match r with
  | Ok _ => None
  | Err e => if bool_decide (error_disposition e = Some DenyIdentityUnavailable) then None else Some e
  end.

(** [receive_reply_socket]: the broker's answer, with the descriptors it passed. *)
Definition receive_reply_socket (bytes : str) (descriptors : list nat) : option nat :=
  match bytes, descriptors with
  | [status], [descriptor] => if byte_is BROKER_STATUS_OK status then Some descriptor else None
  | _, _ => None
  end.

(** The child's sink: one reply socket per flow, asked of the broker ([reply])
    when the flow has none; [sent] is what the socket took. *)
Abbreviation sink_state := (gmap UdpFlowKey nat).
Definition sink_send (sockets : sink_state) (key : UdpFlowKey) (payload : str) (reply : str * list nat) (sent : nat → option Z)
    : sink_state * bool :=
  match match sockets !! key with
        | Some socket => Some (sockets, socket)
        | None => (λ d, (<[key := d]> sockets, d)) <$> receive_reply_socket reply.1 reply.2
        end with
  | None => (sockets, false)
  | Some (sockets, socket) => (sockets, bool_decide (sent socket = Some (Z.of_nat (length payload))))
  end.
Definition sink_close (sockets : sink_state) (key : UdpFlowKey) : sink_state := delete key sockets.

(** ** Lemmas *)

(** Rewriting one item of a list of contributions. *)
Lemma bind_insert_perm {A B} (g : A → list B) (l : list A) i x y extra :
  l !! i = Some x → g y ≡ₚ g x ++ extra → <[i := y]> l ≫= g ≡ₚ (l ≫= g) ++ extra.
Proof.
  intros Hi Hg. rewrite <- (take_drop_middle l i x Hi) at 2. rewrite insert_take_drop by (by eapply lookup_lt_Some).
  rewrite !bind_app, !bind_cons, Hg. rewrite <- !app_assoc. do 2 f_equiv. apply Permutation_app_comm.
Qed.
Lemma bind_insert_same {A B} (g : A → list B) (l : list A) i x y :
  l !! i = Some x → g y = g x → <[i := y]> l ≫= g ≡ₚ l ≫= g.
Proof. intros Hi Hg. rewrite (bind_insert_perm g l i x y []); [by rewrite app_nil_r|done|by rewrite Hg, app_nil_r]. Qed.

Definition total_length (l : list str) : Z := foldr (λ p n, Z.of_nat (length p) + n)%Z 0%Z l.
Lemma total_length_snoc l p : total_length (l ++ [p]) = (total_length l + Z.of_nat (length p))%Z.
Proof. unfold total_length in *. induction l as [|x l IH]; cbn [foldr app]; lia. Qed.
Lemma total_length_nonneg l : (0 ≤ total_length l)%Z.
Proof. unfold total_length. induction l as [|x l IH]; cbn [foldr]; lia. Qed.

(** What a flow task owes: the origin's socket took the datagrams its channel
    took, in order, up to the one whose send failed and those still queued. *)
Record flow_ok (f : flow) : Prop := {
  fo_order : ∃ lost, fl_accepted f = fl_sent f ++ lost ++ fl_queue f ∧ length lost ≤ 1 ∧ (fl_phase f = Looping → lost = []);
  fo_up : fl_up f = Z.min u64_max (total_length (fl_sent f));
  fo_down : fl_down f = Z.min u64_max (total_length (fl_delivered f));
}.

Definition live (p : flow_phase) : bool := match p with Looping | Left => true | _ => false end.
Definition ok_of (c : call) : list (UdpFlowKey * str) :=
  match ca_result c with Some (Ok _) => [(ca_key c, ca_payload c)] | _ => [] end.
Definition accepted_of (f : flow) : list (UdpFlowKey * str) := pair (fl_key f) <$> fl_accepted f.
Definition summary_of (f : flow) : list UdpFlowSummary := if bool_decide (fl_phase f = Returned) then [flow_summary f] else [].
Definition sink_closed_of (f : flow) : list UdpFlowKey :=
  match fl_phase f with SinkClosed | Returned => [fl_key f] | _ => [] end.

Record udp_inv (s : relay) : Prop := {
  ri_flow : Forall flow_ok (re_tasks s);
  ri_table : ∀ key id, re_flows s !! key = Some id → ∃ f, re_tasks s !! id = Some f ∧ fl_key f = key ∧ live (fl_phase f) = true;
  ri_holding : ∀ i c id again, re_calls s !! i = Some c → ca_state c = Some (Holding id again) →
    ∃ f, re_tasks s !! id = Some f ∧ fl_key f = ca_key c;
  ri_pending : Forall (λ c, is_Some (ca_state c) → ca_result c = None ∧ re_disposition s = UdpForward) (re_calls s);
  ri_accept : re_calls s ≫= ok_of ≡ₚ re_tasks s ≫= accepted_of;
  ri_summaries : re_summaries s ≡ₚ re_tasks s ≫= summary_of;
  ri_sink : re_sink_closed s ≡ₚ re_tasks s ≫= sink_closed_of;
  ri_denied : re_disposition s = DenyIdentityUnavailable →
    re_tasks s = [] ∧ Forall (λ c, ca_result c = Some (Err (UdpPolicy DenyIdentityUnavailable (ca_key c)))) (re_calls s);
  ri_clearing : re_closed s = false → re_clearing s = 0;
}.

Lemma init_inv {N : IpNetLib} policy : udp_inv (UdpFlowRelay_new policy).
Proof. split; cbn; try done; try (by constructor); intros; simplify_map_eq. Qed.

(** *** Tasks *)

(** A task step that keeps the key, what was accepted, and whether the task
    has told the sink and returned. *)
Lemma set_task_inv s id f f' :
  udp_inv s → re_tasks s !! id = Some f → flow_ok f' → fl_key f' = fl_key f → fl_accepted f' = fl_accepted f →
  live (fl_phase f') = live (fl_phase f) → live (fl_phase f) = true →
  udp_inv (set_task s id f').
Proof.
  intros [] Hf Hok Hk Ha Hl Hlive. assert (id < length (re_tasks s)) as Hlt by (by eapply lookup_lt_Some).
  assert (∀ id0 f0, re_tasks s !! id0 = Some f0 → ∃ f1, <[id := f']> (re_tasks s) !! id0 = Some f1 ∧ fl_key f1 = fl_key f0 ∧
    live (fl_phase f1) = live (fl_phase f0)) as Hstill.
  { intros id0 f0 H0. destruct (decide (id0 = id)) as [->|]; [|rewrite list_lookup_insert_ne by done; eauto].
    rewrite list_lookup_insert_eq by done. exists f'. split; [done|]. by simplify_eq. }
  split; cbn; try done.
  - by apply Forall_insert.
  - intros key id0 H0. destruct (ri_table0 key id0 H0) as (f0 & H1 & H2 & H3). destruct (Hstill _ _ H1) as (f1 & ? & ? & ?).
    exists f1. split_and!; congruence.
  - intros i c id0 again H0 H1. destruct (ri_holding0 i c id0 again H0 H1) as (f0 & H2 & H3).
    destruct (Hstill _ _ H2) as (f1 & ? & ? & ?). exists f1. split; congruence.
  - rewrite ri_accept0. symmetry. apply (bind_insert_same _ _ _ f); [done|]. unfold accepted_of. by rewrite Hk, Ha.
  - rewrite ri_summaries0. symmetry. apply (bind_insert_same _ _ _ f); [done|]. unfold summary_of.
    rewrite Hlive in Hl. by destruct (fl_phase f), (fl_phase f').
  - rewrite ri_sink0. symmetry. apply (bind_insert_same _ _ _ f); [done|]. unfold sink_closed_of. rewrite Hlive in Hl.
    by destruct (fl_phase f), (fl_phase f').
  - intros Hd. destruct (ri_denied0 Hd) as [Ht _]. by rewrite Ht in Hf.
Qed.

Lemma set_phase_ok f p : flow_ok f → fl_phase f = Looping ∨ p ≠ Looping → flow_ok (set_phase f p).
Proof.
  intros [(lost & Ho & Hl & Hn) Hu Hd] Hp. split; [|done..]. exists lost. cbn. split_and!; [done..|]. intros ->. destruct Hp; [auto|done].
Qed.

Lemma flow_upstream_ok f taken f' :
  flow_ok f → fl_phase f = Looping → flow_upstream f taken = Some f' →
  flow_ok f' ∧ fl_key f' = fl_key f ∧ fl_accepted f' = fl_accepted f ∧ live (fl_phase f') = true.
Proof.
  intros [(lost & Ho & Hl & Hn) Hu Hd] Hp. unfold flow_upstream. destruct (fl_queue f) as [|payload queue] eqn:Eq; [done|].
  rewrite (Hn Hp) in Ho. cbn in Ho. case_bool_decide; intros [= <-]; cbn.
  - split; [|by rewrite Hp]. split; cbn; [|rewrite Hu, total_length_snoc; unfold saturating_add; pose proof (total_length_nonneg (fl_sent f)); lia|done].
    exists []. rewrite Ho. cbn. rewrite <- app_assoc. split_and!; [done|cbn; lia|done].
  - split; [|done]. split; cbn; [|done..]. exists [payload]. split_and!; [done|cbn; lia|done].
Qed.

Lemma flow_downstream_ok f received took :
  flow_ok f → fl_phase f = Looping →
  flow_ok (flow_downstream f received took) ∧ fl_key (flow_downstream f received took) = fl_key f ∧
  fl_accepted (flow_downstream f received took) = fl_accepted f ∧ live (fl_phase (flow_downstream f received took)) = true.
Proof.
  intros Hf Hp. unfold flow_downstream. destruct received as [response|]; [|split; [by apply set_phase_ok; auto|done]].
  destruct took; [|split; [by apply set_phase_ok; auto|done]]. destruct Hf as [Ho Hu Hd]. cbn. split; [|by rewrite Hp].
  split; cbn; [done|done|]. rewrite Hd, total_length_snoc. unfold saturating_add. pose proof (total_length_nonneg (fl_delivered f)). lia.
Qed.

(** *** Calls *)

Lemma update_call_inv s i c c' :
  udp_inv s → re_calls s !! i = Some c → ca_key c' = ca_key c → ok_of c' = ok_of c →
  (is_Some (ca_state c') → ca_result c' = None) → re_disposition s = UdpForward →
  (∀ id again, ca_state c' = Some (Holding id again) → ∃ f, re_tasks s !! id = Some f ∧ fl_key f = ca_key c') →
  udp_inv (update_call s i c').
Proof.
  intros [] Hc Hk Hok Hst Hd Hh. assert (i < length (re_calls s)) as Hlt by (by eapply lookup_lt_Some). split; cbn; try done.
  - intros j c0 id again Hj Hs. destruct (decide (j = i)) as [->|].
    + rewrite list_lookup_insert_eq in Hj by done. simplify_eq. eauto.
    + rewrite list_lookup_insert_ne in Hj by done. eauto.
  - apply Forall_insert; [done|]. auto.
  - rewrite <- ri_accept0. by apply (bind_insert_same _ _ _ c).
  - intros E. congruence.
Qed.

Lemma flow_sender_inv s key opened s' r :
  udp_inv s → re_disposition s = UdpForward → flow_sender s key opened = (s', r) →
  udp_inv s' ∧ re_calls s' = re_calls s ∧ re_disposition s' = UdpForward ∧
  ∀ id, r = Ok id → ∃ f, re_tasks s' !! id = Some f ∧ fl_key f = key.
Proof.
  intros Hinv Hd. unfold flow_sender. destruct (re_flows s !! key) as [id|] eqn:E.
  { intros [= <- <-]. split_and!; try done. intros id' [= <-]. destruct (ri_table s Hinv key id E) as (f & ? & ? & _). eauto. }
  destruct opened as [[]|e]; intros [= <- <-]; [|split_and!; try done].
  assert (re_tasks s !! length (re_tasks s) = None) as Hnone by (apply lookup_ge_None; lia).
  assert ((re_tasks s ++ [new_flow key]) !! length (re_tasks s) = Some (new_flow key)) as Hnew by (by rewrite lookup_app_r, Nat.sub_diag by lia).
  cbn. split_and!; [|done|done|intros id [= <-]; by exists (new_flow key)].
  assert (∀ id f, re_tasks s !! id = Some f → (re_tasks s ++ [new_flow key]) !! id = Some f) as Hold by (intros; by apply lookup_app_l_Some).
  destruct Hinv. split; cbn; try done.
  - apply Forall_app. split; [done|]. repeat constructor; cbn; [|done..]. exists []. cbn. split_and!; [done|lia|done].
  - intros key' id H0. destruct (decide (key' = key)) as [->|].
    + rewrite lookup_insert_eq in H0. simplify_eq. by exists (new_flow key).
    + rewrite lookup_insert_ne in H0 by done. destruct (ri_table0 _ _ H0) as (f & H1 & H2 & H3). exists f. split_and!; auto.
  - intros i c id again H0 H1. destruct (ri_holding0 _ _ _ _ H0 H1) as (f & H2 & H3). exists f. auto.
  - rewrite bind_app. cbn. by rewrite app_nil_r.
  - rewrite bind_app. cbn. by rewrite app_nil_r.
  - rewrite bind_app. cbn. by rewrite app_nil_r.
  - intros Hd'. congruence.
Qed.

Lemma call_flow_sender_inv s i c again opened :
  udp_inv s → re_calls s !! i = Some c → is_Some (ca_state c) → udp_inv (call_flow_sender s i c again opened).
Proof.
  intros Hinv Hc Hs. destruct (proj1 (Forall_lookup _ _) (ri_pending s Hinv) i c Hc Hs) as [Hr Hd]. unfold call_flow_sender.
  destruct (flow_sender s (ca_key c) opened) as [s' r] eqn:E. destruct (flow_sender_inv s _ _ _ _ Hinv Hd E) as (Hinv' & Ec & Hd' & Hid).
  assert (ok_of c = []) as Hok by (unfold ok_of; by rewrite Hr).
  destruct r as [id|e]; (eapply update_call_inv; [done|by rewrite Ec|done|by rewrite Hok|by intros [? ?]|done|]); [|done].
  cbn. intros id' again' [= <- <-]. by apply Hid.
Qed.

(** A flow's channel takes a datagram while its task has not returned. *)
Lemma accept_inv s i c id f again :
  udp_inv s → re_calls s !! i = Some c → ca_state c = Some (Holding id again) → re_tasks s !! id = Some f → fl_phase f ≠ Returned →
  udp_inv (update_call (set_task s id (mkFlow (fl_key f) (fl_queue f ++ [ca_payload c]) (fl_up f) (fl_down f) (fl_phase f)
    (fl_accepted f ++ [ca_payload c]) (fl_sent f) (fl_delivered f))) i (end_call c (Ok ()))).
Proof.
  intros Hinv Hc Hs Hf Hp. destruct (proj1 (Forall_lookup _ _) (ri_pending s Hinv) i c Hc (mk_is_Some _ _ Hs)) as [Hr Hd].
  destruct (ri_holding s Hinv i c id again Hc Hs) as (f0 & Hf0 & Hk). assert (f0 = f) as -> by congruence. clear Hf0.
  assert (id < length (re_tasks s)) as Hlt by (by eapply lookup_lt_Some).
  assert (i < length (re_calls s)) as Hlt' by (by eapply lookup_lt_Some).
  set (f' := mkFlow _ _ _ _ _ _ _ _).
  assert (∀ id0 f0, re_tasks s !! id0 = Some f0 → ∃ f1, <[id := f']> (re_tasks s) !! id0 = Some f1 ∧ fl_key f1 = fl_key f0 ∧
    fl_phase f1 = fl_phase f0) as Hstill.
  { intros id0 f0 H0. destruct (decide (id0 = id)) as [->|]; [|rewrite list_lookup_insert_ne by done; eauto].
    rewrite list_lookup_insert_eq by done. exists f'. by simplify_eq. }
  destruct Hinv. split; cbn; try done.
  - apply Forall_insert; [done|]. destruct (proj1 (Forall_lookup _ _) ri_flow0 id f Hf) as [(lost & Ho & Hl & Hn) Hu Hdn].
    split; cbn; [|done..]. exists lost. rewrite Ho, <- !app_assoc. done.
  - intros key id0 H0. destruct (ri_table0 key id0 H0) as (f0 & H1 & H2 & H3). destruct (Hstill _ _ H1) as (f1 & ? & ? & E).
    exists f1. rewrite E. split_and!; congruence.
  - intros j c0 id0 a Hj Hst. destruct (decide (j = i)) as [->|].
    { rewrite list_lookup_insert_eq in Hj by done. by simplify_eq. }
    rewrite list_lookup_insert_ne in Hj by done. destruct (ri_holding0 j c0 id0 a Hj Hst) as (f0 & H2 & H3).
    destruct (Hstill _ _ H2) as (f1 & ? & ? & ?). exists f1. split; congruence.
  - apply Forall_insert; [done|]. by intros [? ?].
  - rewrite (bind_insert_perm ok_of _ _ c _ [(ca_key c, ca_payload c)]), (bind_insert_perm accepted_of _ _ f _ [(ca_key c, ca_payload c)]); try done.
    + by rewrite ri_accept0.
    + unfold accepted_of. cbn. by rewrite fmap_app, Hk.
    + unfold ok_of. cbn. by rewrite Hr.
  - rewrite ri_summaries0. symmetry. apply (bind_insert_same _ _ _ f); [done|]. unfold summary_of. cbn. by rewrite !bool_decide_false by done.
  - rewrite ri_sink0. symmetry. by apply (bind_insert_same _ _ _ f).
  - intros E. congruence.
Qed.

(** Past its loop a task only removes its key, tells the sink and returns. *)
Lemma leave_inv s id f p flows summaries sinks :
  udp_inv s → re_tasks s !! id = Some f → fl_phase f ≠ Looping → p ≠ Looping →
  (∀ key id', flows !! key = Some id' → re_flows s !! key = Some id' ∧ id' ≠ id) →
  summaries ≡ₚ re_summaries s ++ (if bool_decide (p = Returned) then [flow_summary f] else []) →
  (fl_phase f = SinkClosed ∧ p = Returned ∧ sinks = re_sink_closed s ∨ fl_phase f = Left ∧ p = Removed ∧ sinks = re_sink_closed s ∨
   fl_phase f = Removed ∧ p = SinkClosed ∧ sinks = re_sink_closed s ++ [fl_key f]) →
  udp_inv (mkUdpRelay (re_disposition s) (re_closed s) flows (re_clearing s) (<[id := set_phase f p]> (re_tasks s)) (re_calls s) summaries sinks).
Proof.
  intros Hinv Hf Hp0 Hp Hflows Hsum Hph. assert (id < length (re_tasks s)) as Hlt by (by eapply lookup_lt_Some). destruct Hinv. split; cbn; try done.
  - apply Forall_insert; [done|]. apply set_phase_ok; [|by right]. by apply (proj1 (Forall_lookup _ _) ri_flow0 id).
  - intros key id' H0. destruct (Hflows _ _ H0) as [H1 Hne]. destruct (ri_table0 _ _ H1) as (f0 & ? & ? & ?). exists f0.
    by rewrite list_lookup_insert_ne.
  - intros i c id' a H0 H1. destruct (ri_holding0 i c id' a H0 H1) as (f0 & H2 & H3).
    destruct (decide (id' = id)) as [->|]; [|rewrite list_lookup_insert_ne by done; eauto].
    rewrite list_lookup_insert_eq by done. eexists. split; [done|]. by simplify_eq.
  - rewrite ri_accept0. symmetry. by apply (bind_insert_same _ _ _ f).
  - rewrite Hsum, ri_summaries0. symmetry. apply (bind_insert_perm _ _ _ f); [done|]. unfold summary_of. cbn.
    destruct Hph as [(E & -> & _) | [(E & -> & _) | (E & -> & _)]]; by rewrite E.
  - destruct Hph as [(E & -> & ->) | [(E & -> & ->) | (E & -> & ->)]]; rewrite ri_sink0; symmetry.
    + apply (bind_insert_same _ _ _ f); [done|]. unfold sink_closed_of. cbn. by rewrite E.
    + apply (bind_insert_same _ _ _ f); [done|]. unfold sink_closed_of. cbn. by rewrite E.
    + apply (bind_insert_perm _ _ _ f); [done|]. unfold sink_closed_of. cbn. by rewrite E.
  - intros Hd. destruct (ri_denied0 Hd) as [Ht _]. by rewrite Ht in Hf.
Qed.

Lemma set_flows_inv s flows :
  udp_inv s → (∀ key id, flows !! key = Some id → re_flows s !! key = Some id) → udp_inv (set_flows s flows).
Proof. intros [] Hf. split; cbn; try done. intros key id H0. eauto. Qed.

Lemma begin_forward_inv s key payload : udp_inv s → udp_inv (begin_forward s key payload).
Proof.
  intros []. unfold begin_forward.
  set (c := match re_disposition s with UdpForward => _ | _ => _ end).
  assert (ca_key c = key ∧ ok_of c = [] ∧ (∀ id a, ca_state c ≠ Some (Holding id a)) ∧
    (is_Some (ca_state c) → ca_result c = None ∧ re_disposition s = UdpForward) ∧
    (re_disposition s = DenyIdentityUnavailable → ca_result c = Some (Err (UdpPolicy DenyIdentityUnavailable (ca_key c))))) as (Hk & Hok & Hnh & Hst & Hden).
  { unfold c. destruct (re_disposition s); [|split_and!; try done; by intros [? ?]]. destruct (re_closed s); split_and!; try done. by intros [? ?]. }
  clearbody c. split; cbn; try done.
  - intros i c0 id a [Hi | [? Hi]]%lookup_app_Some Hs; [eauto|]. apply list_lookup_singleton_Some in Hi as [_ <-]. by apply Hnh in Hs.
  - apply Forall_app. split; [done|]. by apply Forall_singleton.
  - rewrite bind_app. cbn. by rewrite Hok, !app_nil_r.
  - intros Hd. destruct (ri_denied0 Hd). split; [done|]. apply Forall_app. split; [done|]. apply Forall_singleton. auto.
Qed.

Lemma task_step_Some s id p k s' :
  task_step s id p k = Some s' → ∃ f, re_tasks s !! id = Some f ∧ fl_phase f = p ∧ k f = Some s'.
Proof. unfold task_step. destruct (re_tasks s !! id) as [f|]; [|done]. cbn. case_bool_decide; [|done]. eauto. Qed.

Lemma looping_inv s id f f' :
  udp_inv s → re_tasks s !! id = Some f → fl_phase f = Looping →
  flow_ok f' ∧ fl_key f' = fl_key f ∧ fl_accepted f' = fl_accepted f ∧ live (fl_phase f') = true → udp_inv (set_task s id f').
Proof. intros Hinv Hf Hp (Hok & Hk & Ha & Hl). eapply set_task_inv; try done; rewrite Hp; done. Qed.

Lemma leave_loop s id f : udp_inv s → re_tasks s !! id = Some f → fl_phase f = Looping → udp_inv (set_task s id (set_phase f Left)).
Proof.
  intros Hinv Hf Hp. eapply looping_inv; try done. split; [|done]. apply set_phase_ok; [|by left].
  by apply (proj1 (Forall_lookup _ _) (ri_flow s Hinv) id).
Qed.

Lemma udp_step_inv s s' : udp_inv s → udp_step s s' → udp_inv s'.
Proof.
  intros Hinv [l Hl]. destruct l as [key payload|i opened|i|i|id taken|id|id received took|id|id|id|id| |]; cbn in Hl.
  - injection Hl as <-. by apply begin_forward_inv.
  - destruct (re_calls s !! i) as [c|] eqn:Ec; [|done]. cbn in Hl. destruct (ca_state c) as [[]|] eqn:Es; simplify_eq; by apply call_flow_sender_inv; [..|rewrite Es].
  - destruct (re_calls s !! i) as [c|] eqn:Ec; [|done]. cbn in Hl. destruct (ca_state c) as [[|id again| |]|] eqn:Es; try done.
    destruct (re_tasks s !! id) as [f|] eqn:Ef; [|done]. cbn in Hl. unfold call_send in Hl. case_bool_decide as Hp.
    + simplify_eq. destruct (proj1 (Forall_lookup _ _) (ri_pending s Hinv) i c Ec (mk_is_Some _ _ Es)) as [Hr Hd].
      assert (ok_of c = []) as Hok by (unfold ok_of; by rewrite Hr).
      destruct again; (eapply update_call_inv; [done|done|done|by rewrite Hok|by intros [? ?]|done|done]).
    + destruct (Nat.ltb _ _); simplify_eq. by eapply accept_inv.
  - destruct (re_calls s !! i) as [c|] eqn:Ec; [|done]. cbn in Hl. destruct (ca_state c) as [[]|] eqn:Es; simplify_eq.
    destruct (proj1 (Forall_lookup _ _) (ri_pending s Hinv) i c Ec (mk_is_Some _ _ Es)) as [Hr Hd].
    assert (ok_of c = []) as Hok by (unfold ok_of; by rewrite Hr).
    eapply update_call_inv; [|done|done|by rewrite Hok|done|done|done]. apply set_flows_inv; [done|]. by intros ? ? [_ ?]%lookup_delete_Some.
  - apply task_step_Some in Hl as (f & Hf & Hp & Hk). apply fmap_Some in Hk as (f' & Hu & ->).
    eapply looping_inv; try done. eapply flow_upstream_ok; try done. by apply (proj1 (Forall_lookup _ _) (ri_flow s Hinv) id).
  - apply task_step_Some in Hl as (f & Hf & Hp & Hk). destruct (_ && _); simplify_eq. by eapply leave_loop.
  - apply task_step_Some in Hl as (f & Hf & Hp & [= <-]).
    eapply looping_inv; try done. apply flow_downstream_ok; [|done]. by apply (proj1 (Forall_lookup _ _) (ri_flow s Hinv) id).
  - apply task_step_Some in Hl as (f & Hf & Hp & [= <-]). by eapply leave_loop.
  - apply task_step_Some in Hl as (f & Hf & Hp & [= <-]). apply (leave_inv s id f Removed (delete (fl_key f) (re_flows s)) (re_summaries s) (re_sink_closed s)); try done; [by rewrite Hp| | |auto].
    + intros key id' [Hne H0]%lookup_delete_Some. split; [done|]. intros ->. destruct (ri_table s Hinv _ _ H0) as (f0 & ? & ? & _). congruence.
    + cbn. by rewrite app_nil_r.
  - apply task_step_Some in Hl as (f & Hf & Hp & [= <-]). apply (leave_inv s id f SinkClosed (re_flows s) (re_summaries s) (re_sink_closed s ++ [fl_key f])); try done; [by rewrite Hp| | |auto].
    + intros key id' H0. split; [done|]. intros ->. destruct (ri_table s Hinv _ _ H0) as (f0 & ? & ? & Hlv). simplify_eq. by rewrite Hp in Hlv.
    + cbn. by rewrite app_nil_r.
  - apply task_step_Some in Hl as (f & Hf & Hp & [= <-]). apply (leave_inv s id f Returned (re_flows s) (re_summaries s ++ [flow_summary f]) (re_sink_closed s)); try done; [by rewrite Hp| |auto].
    intros key id' H0. split; [done|]. intros ->. destruct (ri_table s Hinv _ _ H0) as (f0 & ? & ? & Hlv). simplify_eq. by rewrite Hp in Hlv.
  - injection Hl as <-. destruct Hinv. split; cbn; try done.
  - destruct (re_clearing s) as [|n] eqn:En; simplify_eq. destruct Hinv. split; cbn; try done. intros E. apply ri_clearing0 in E. congruence.
Qed.

Lemma reachable_inv {N : IpNetLib} policy s : rtc udp_step (UdpFlowRelay_new policy) s → udp_inv s.
Proof.
  intros Hr. cut (∀ s0, rtc udp_step s0 s → udp_inv s0 → udp_inv s); [intros Hc; exact (Hc _ Hr (init_inv policy))|].
  clear. intros s0 Hr. induction Hr as [|s0 s1 s2 Hs _ IH]; [done|]. intros Hi. apply IH. by eapply udp_step_inv.
Qed.

(** *** Closing *)

Definition answered (c : call) : Prop := ca_state c = None.

(** A relay that was closed with no call in flight. *)
Record closed_inv (tasks calls : nat) (s : relay) : Prop := {
  ci_closed : re_closed s = true;
  ci_answered : Forall answered (re_calls s);
  ci_tasks : length (re_tasks s) = tasks;
  ci_cleared : re_clearing s = 0 → re_flows s = ∅;
  ci_late : Forall (λ c, ca_result c = Some (Err UdpClosed) ∨ ∃ d, ca_result c = Some (Err (UdpPolicy d (ca_key c)))) (drop calls (re_calls s));
  ci_calls : calls ≤ length (re_calls s);
}.

Lemma closed_step tasks calls s s' : closed_inv tasks calls s → udp_step s s' → closed_inv tasks calls s'.
Proof.
  intros Hinv [l Hl]. pose proof Hinv as [Hc Ha Ht Hcl Hlate Hn].
  assert (∀ i c, re_calls s !! i = Some c → ca_state c = None) as Hans by (intros i c; apply (proj1 (Forall_lookup _ _) Ha)).
  assert (∀ id f, closed_inv tasks calls (set_task s id f)) as Htask.
  { intros id f. split; cbn; try done. by rewrite length_insert. }
  destruct l as [key payload|i opened|i|i|id taken|id|id received took|id|id|id|id| |]; cbn in Hl.
  - injection Hl as <-. unfold begin_forward. rewrite Hc. set (c := match re_disposition s with UdpForward => _ | _ => _ end).
    assert (answered c ∧ (ca_result c = Some (Err UdpClosed) ∨ ∃ d, ca_result c = Some (Err (UdpPolicy d (ca_key c))))) as [Hca Hcr].
    { unfold c, answered. destruct (re_disposition s); cbn; split; eauto. }
    clearbody c. split; cbn; try done.
    + apply Forall_app. split; [done|]. by apply Forall_singleton.
    + rewrite drop_app_le by done. apply Forall_app. split; [done|]. by apply Forall_singleton.
    + rewrite length_app. lia.
  - destruct (re_calls s !! i) as [c|] eqn:E; [|done]. cbn in Hl. by rewrite (Hans _ _ E) in Hl.
  - destruct (re_calls s !! i) as [c|] eqn:E; [|done]. cbn in Hl. by rewrite (Hans _ _ E) in Hl.
  - destruct (re_calls s !! i) as [c|] eqn:E; [|done]. cbn in Hl. by rewrite (Hans _ _ E) in Hl.
  - apply task_step_Some in Hl as (f & _ & _ & Hk). apply fmap_Some in Hk as (f' & _ & ->). apply Htask.
  - apply task_step_Some in Hl as (f & _ & _ & Hk). destruct (_ && _); simplify_eq. apply Htask.
  - apply task_step_Some in Hl as (f & _ & _ & [= <-]). apply Htask.
  - apply task_step_Some in Hl as (f & _ & _ & [= <-]). apply Htask.
  - apply task_step_Some in Hl as (f & _ & _ & [= <-]). destruct (Htask id (set_phase f Removed)). split; cbn in *; try done.
    intros E. rewrite (Hcl E). apply delete_empty.
  - apply task_step_Some in Hl as (f & _ & _ & [= <-]). by destruct (Htask id (set_phase f SinkClosed)).
  - apply task_step_Some in Hl as (f & _ & _ & [= <-]). by destruct (Htask id (set_phase f Returned)).
  - injection Hl as <-. rewrite Hc. split; cbn; try done. rewrite Nat.add_0_r. done.
  - destruct (re_clearing s); simplify_eq. by split.
Qed.

Lemma step_disposition s s' : udp_step s s' → re_disposition s' = re_disposition s.
Proof.
  intros [l Hl]. destruct l as [key payload|i opened|i|i|id taken|id|id received took|id|id|id|id| |]; cbn in Hl;
    try (apply task_step_Some in Hl as (f & _ & _ & Hl)).
  - by injection Hl as <-.
  - destruct (re_calls s !! i) as [c|]; [|done]. cbn in Hl. destruct (ca_state c) as [[]|]; try done; injection Hl as <-;
      unfold call_flow_sender, flow_sender; destruct (re_flows s !! ca_key c); [done| |done|]; by destruct opened.
  - destruct (re_calls s !! i) as [c|]; [|done]. cbn in Hl. destruct (ca_state c) as [[|id again| |]|]; try done.
    destruct (re_tasks s !! id) as [f|]; [|done]. cbn in Hl. unfold call_send in Hl. case_bool_decide; [by injection Hl as <-|].
    destruct (Nat.ltb _ _); [|done]. by injection Hl as <-.
  - destruct (re_calls s !! i) as [c|]; [|done]. cbn in Hl. destruct (ca_state c) as [[]|]; try done. by injection Hl as <-.
  - apply fmap_Some in Hl as (f' & _ & ->). done.
  - destruct (_ && _); [|done]. by injection Hl as <-.
  - by injection Hl as <-.
  - by injection Hl as <-.
  - by injection Hl as <-.
  - by injection Hl as <-.
  - by injection Hl as <-.
  - by injection Hl as <-.
  - destruct (re_clearing s); [done|]. by injection Hl as <-.
Qed.

(** ** Properties *)

(** C25: every flow is accounted for exactly once.  Under a policy that does
    not allow everything no flow task ever starts and every datagram is refused
    as a denial.  Otherwise, however callers, tasks, timeouts and a close
    interleave: a datagram is answered as forwarded exactly when one flow's
    channel took it; the origin's socket took those datagrams in order, up to
    at most one whose send failed and those still queued; the byte counts are
    what the sockets took; the sink was told once, and one summary with these
    counts was emitted, for each task that got so far; and the table names only
    tasks of its key that have not yet given it up. *)
Theorem udp_flow_accounting {N : IpNetLib} (policy : EgressPolicy) (s : relay) :
  rtc udp_step (UdpFlowRelay_new policy) s →
  (is_allow_all policy = false → re_tasks s = [] ∧
     Forall (λ c, ca_result c = Some (Err (UdpPolicy DenyIdentityUnavailable (ca_key c)))) (re_calls s)) ∧
  re_calls s ≫= ok_of ≡ₚ re_tasks s ≫= accepted_of ∧
  Forall flow_ok (re_tasks s) ∧
  re_summaries s ≡ₚ re_tasks s ≫= summary_of ∧ re_sink_closed s ≡ₚ re_tasks s ≫= sink_closed_of ∧
  ∀ key id, re_flows s !! key = Some id → ∃ f, re_tasks s !! id = Some f ∧ fl_key f = key ∧ live (fl_phase f) = true.
Proof.
  intros Hr. pose proof (reachable_inv policy s Hr) as []. split_and!; try done. intros Hp. apply ri_denied0.
  assert (∀ s0, rtc udp_step s0 s → re_disposition s = re_disposition s0) as Hd.
  { clear. intros s0 Hr. induction Hr as [|s0 s1 s2 Hs _ IH]; [done|]. by rewrite IH, (step_disposition _ _ Hs). }
  rewrite (Hd _ Hr). cbn. unfold udp_flow_disposition. by rewrite Hp.
Qed.

(** A relay closed with no call in flight stays closed.  From then on no
    flow starts, every new call is answered with an error, and once the table
    has been cleared it stays empty, so that every task's channel closes when
    its queue is drained. *)
Theorem udp_close_quiesces {N : IpNetLib} (policy : EgressPolicy) (s0 s1 s : relay) :
  rtc udp_step (UdpFlowRelay_new policy) s0 → re_closed s0 = false → Forall answered (re_calls s0) →
  udp_step_fn BeginClose s0 = Some s1 → rtc udp_step s1 s →
  re_closed s = true ∧ length (re_tasks s) = length (re_tasks s0) ∧
  Forall (λ c, ∃ e, ca_result c = Some (Err e)) (drop (length (re_calls s0)) (re_calls s)) ∧
  (re_clearing s = 0 → open_flow_count s = 0 ∧ ∀ id, has_sender s id = false).
Proof.
  intros Hr Hc Ha Hl Hrun. assert (closed_inv (length (re_tasks s0)) (length (re_calls s0)) s1) as Hinv.
  { cbn in Hl. injection Hl as <-. rewrite Hc. split; cbn; try done; [lia|]. rewrite drop_ge by done. constructor. }
  assert (closed_inv (length (re_tasks s0)) (length (re_calls s0)) s) as [].
  { clear -Hinv Hrun. induction Hrun as [|a b d Hs _ IH]; [done|]. apply IH. by eapply closed_step. }
  split_and!; try done.
  - eapply Forall_impl; [exact ci_late0|]. intros c [Hx | [d Hx]]; eauto.
  - intros Hz. specialize (ci_cleared0 Hz). unfold open_flow_count, has_sender. rewrite ci_cleared0. split; [apply map_size_empty|].
    intros id. rewrite map_to_list_empty. cbn. clear -ci_answered0. induction ci_answered0 as [|c l Hx _ IH]; [done|]. cbn. by rewrite Hx, IH.
Qed.

(** A call in flight survives the close: the flow it starts afterwards stays in
    the table of a relay that is closed and has cleared it. *)
Example close_race_leaves_flow :
  let key := mkFlowKey (SockV4 (mkIpv4 x0a x00 x00 x02) 5000) (SockV4 (mkIpv4 x0a x00 x00 x03) 443) in
  let step l s := s ≫= udp_step_fn l in
  (λ s, (re_closed s, re_clearing s, open_flow_count s)) <$>
    step (LookUp 0 (Ok ())) (step Clear (step BeginClose (step (BeginForward key [])
      (Some (mkUdpRelay UdpForward false ∅ 0 [] [] [] []))))) = Some (true, 0, 1).
Proof. reflexivity. Qed.

(** *** Broker and ingress *)

(** The address as the broker's request has it: without label and scope. *)
Definition unscoped (a : SocketAddr) : SocketAddr := SocketAddr_new (sock_ip a) (sock_port a).
Definition unscoped_key (k : UdpFlowKey) : UdpFlowKey := mkFlowKey (unscoped (fk_client k)) (unscoped (fk_destination k)).
Definition valid_key (k : UdpFlowKey) : Prop :=
  sock_is_ipv4 (fk_client k) = sock_is_ipv4 (fk_destination k) ∧ sock_port (fk_destination k) ≠ 0%Z ∧
  is_u16 (sock_port (fk_client k)) ∧ is_u16 (sock_port (fk_destination k)).

Lemma UdpFlowKey_new_Ok c d k :
  UdpFlowKey_new c d = Ok k ↔ k = mkFlowKey c d ∧ sock_is_ipv4 c = sock_is_ipv4 d ∧ sock_port d ≠ 0%Z.
Proof.
  unfold UdpFlowKey_new. destruct (Bool.eqb (sock_is_ipv4 c) (sock_is_ipv4 d)) eqn:E; cbn [negb].
  - apply eqb_prop in E. destruct (Z.eqb_spec (sock_port d) 0); naive_solver.
  - apply eqb_false_iff in E. naive_solver.
Qed.

Definition family_byte (a : SocketAddr) : byte := if sock_is_ipv4 a then x04 else x06.

Lemma length_encode_address a : length (encode_address a) = 18.
Proof. by destruct a as [[] ?|[[] [] [] [] [] [] [] []] ? ? ?]. Qed.

Lemma decode_encode_address a :
  is_u16 (sock_port a) → decode_address (family_byte a) (encode_address a) = Some (unscoped a).
Proof.
  intros Hp. destruct a as [[] port|[[] [] [] [] [] [] [] []] port fl sc]; unfold decode_address, encode_address, u16_to_be_bytes, unscoped; cbn;
    cbn in Hp; by rewrite u16_be_roundtrip.
Qed.

Lemma decode_address_exact family input a :
  length input = 18 → decode_address family input = Some a →
  encode_address a = input ∧ family = family_byte a ∧ unscoped a = a ∧ is_u16 (sock_port a).
Proof.
  intros Hl. do 18 (destruct input as [|? input]; [done|]). destruct input; [|done]. clear Hl.
  unfold decode_address. cbn [drop]. match goal with |- context [u16_from_be_bytes ?x ?y] => destruct (u16_be_exact x y) as [Hbe Hu] end.
  destruct (byte_is x04 family && _) eqn:E4.
  - apply andb_true_iff in E4 as [->%byte_is_true Hz]. cbn [take drop v4_of_octets mbind option_bind]. intros [= <-].
    cbn in Hz. repeat (apply andb_true_iff in Hz as [->%byte_is_true Hz]). cbn. rewrite Hbe. done.
  - destruct (byte_is x06 family) eqn:E6; [|done]. apply byte_is_true in E6 as ->. cbn [take drop v6_of_octets mbind option_bind].
    intros [= <-]. cbn. rewrite Hbe. done.
Qed.

(** The gateway and the manager agree on a flow.  The manager reads from a
    request of the gateway the flow it asks for, without label and scope; and
    any bytes it accepts are exactly the request of one valid flow. *)
Theorem broker_request_exact :
  (∀ key, valid_key key → decode_request (encode_request key) = Some (unscoped_key key)) ∧
  ∀ request key, decode_request request = Some key → request = encode_request key ∧ valid_key key ∧ unscoped_key key = key.
Proof.
  split.
  - intros [c d] (Hfam & Hport & Hc & Hd). cbn in Hfam, Hport, Hc, Hd. unfold encode_request, decode_request. cbn [fk_client fk_destination app].
    assert (length (BROKER_VERSION :: (if sock_is_ipv4 d then x04 else x06) :: encode_address c ++ encode_address d) = BROKER_REQUEST_LENGTH) as ->.
    { cbn [length]. by rewrite length_app, !length_encode_address. }
    rewrite Nat.eqb_refl. cbn [negb]. rewrite byte_is_refl. cbn [negb].
    rewrite take_app_length' by (by rewrite length_encode_address). rewrite drop_app_length' by (by rewrite length_encode_address).
    change (if sock_is_ipv4 d then x04 else x06) with (family_byte d).
    assert (family_byte c = family_byte d) as Hfb by (unfold family_byte; by rewrite Hfam).
    rewrite (decode_encode_address d) by done. rewrite <- Hfb, (decode_encode_address c) by done. cbn [mbind option_bind].
    rewrite (proj2 (UdpFlowKey_new_Ok (unscoped c) (unscoped d) (unscoped_key (mkFlowKey c d)))); [done|]. by destruct c, d.
  - intros request key. unfold decode_request. destruct (Nat.eqb_spec (length request) BROKER_REQUEST_LENGTH) as [Hl|]; [|done].
    cbn [negb]. destruct request as [|version [|family addresses]]; [done..|]. destruct (byte_is BROKER_VERSION version) eqn:Ev; [|done].
    apply byte_is_true in Ev as ->. cbn [negb]. assert (length addresses = 36) as Hla by (unfold BROKER_REQUEST_LENGTH in Hl; cbn in Hl; lia).
    destruct (decode_address family (take 18 addresses)) as [c|] eqn:Ec; [|done]. cbn.
    destruct (decode_address family (drop 18 addresses)) as [d|] eqn:Ed; [|done]. cbn.
    destruct (UdpFlowKey_new c d) as [k|] eqn:Ek; [|done]. intros [= ->]. apply UdpFlowKey_new_Ok in Ek as (-> & Hfam & Hport).
    apply decode_address_exact in Ec as (Hec & Hfc & Huc & Hpc); [|rewrite length_take; lia].
    apply decode_address_exact in Ed as (Hed & Hfd & Hud & Hpd); [|rewrite length_drop; lia].
    unfold encode_request, unscoped_key, valid_key. cbn [fk_client fk_destination app]. rewrite Hec, Hed, take_drop, Huc, Hud.
    unfold family_byte in Hfd. rewrite <- Hfd. done.
Qed.

Lemma find_destination_spec family controls found :
  find_destination family controls found =
  match option_list found ++ omap (destination_candidate family) controls with
  | [] => Ok None | [a] => Ok (Some a) | _ => Err DuplicateDestination
  end.
Proof.
  revert found. induction controls as [|c controls IH]; intros found; cbn; [by destruct found|].
  destruct (destination_candidate family c) as [a|]; [|by rewrite IH]. destruct found as [b|]; [done|]. by rewrite IH.
Qed.

(** A datagram enters only with an authoritative identity.  It is accepted
    exactly when it was received whole with its source address and exactly one
    original destination of the listener's family, of the source's family and
    with a port; then it carries that identity and the bytes unchanged. *)
Theorem udp_ingress_exact (family : AddressFamily) (m : datagram_message) (d : InterceptedUdpDatagram) :
  receive_now family m = Ok d ↔
  ms_truncated m = false ∧ ms_address m = Some (fk_client (dg_key d)) ∧
  omap (destination_candidate family) (ms_control m) = [fk_destination (dg_key d)] ∧
  sock_is_ipv4 (fk_client (dg_key d)) = sock_is_ipv4 (fk_destination (dg_key d)) ∧
  sock_port (fk_destination (dg_key d)) ≠ 0%Z ∧ dg_payload d = ms_payload m.
Proof.
  unfold receive_now. destruct (ms_truncated m); [naive_solver|]. destruct (ms_address m) as [client|]; [|naive_solver].
  rewrite find_destination_spec. cbn [option_list app].
  destruct (omap (destination_candidate family) (ms_control m)) as [|a [|]]; cbn; [naive_solver| |naive_solver].
  destruct (UdpFlowKey_new client a) as [k|e] eqn:Ek.
  - apply UdpFlowKey_new_Ok in Ek as (-> & Hf & Hp). destruct d as [[dc dd] p]. cbn. naive_solver.
  - split; [done|]. intros (_ & Hc & Hd & Hf & Hp & _). destruct d as [[dc dd] p]. cbn in *. simplify_eq.
    rewrite (proj2 (UdpFlowKey_new_Ok dc dd (mkFlowKey dc dd))) in Ek; [done|]. done.
Qed.

(** A summary is reported exactly when its counts fit an event's integers. *)
Lemma net_passthrough_event_Ok {U : UlidLib} (s : UdpFlowSummary) minted context ts :
  sock_port (fk_destination (su_key s)) ≠ 0%Z →
  (0 ≤ su_upstream_bytes s ≤ i64_max)%Z → (0 ≤ su_downstream_bytes s ≤ i64_max)%Z →
  is_ok (net_passthrough_event s minted context ts) = true.
Proof.
  intros Hp Hu Hd. unfold net_passthrough_event, OriginalDestination_new. rewrite (proj2 (Z.eqb_neq _ _) Hp). cbn.
  unfold ByteCounts_new, event_i64. rewrite !(proj2 (Z.leb_le _ _)) by lia. done.
Qed.

(** *** Witnesses *)

Section witnesses.
#[local] Existing Instance Sample.ipnet_lib.
Definition sample_key : UdpFlowKey :=
  mkFlowKey (SockV4 (mkIpv4 x0a x00 x00 x02) 5000) (SockV4 (mkIpv4 x0a x00 x00 x03) 443).

Lemma broker_request_exact_witness : decode_request (encode_request sample_key) = Some sample_key.
Proof. apply (proj1 broker_request_exact sample_key). repeat split; discriminate. Defined.

Fixpoint run_relay (s : relay) (ls : list udp_label) : relay :=
  match ls with [] => s | l :: ls => run_relay (default s (udp_step_fn l s)) ls end.
Lemma run_relay_rtc s ls : rtc udp_step s (run_relay s ls).
Proof.
  revert s. induction ls as [|l ls IH]; intros s; [done|]. cbn. destruct (udp_step_fn l s) as [s'|] eqn:E; cbn.
  - eapply rtc_l; [by exists l|apply IH].
  - apply IH.
Qed.

(** A flow carries two datagrams up and one down, idles out, and is opened
    again by a datagram that found the old task gone. *)
Definition sample_labels : list udp_label :=
  [BeginForward sample_key (bs "hello"); LookUp 0 (Ok ()); SendOn 0; Upstream 0 (Some 5%Z); Downstream 0 (Some (bs "hi")) true;
   BeginForward sample_key (bs "x"); LookUp 1 (Ok ()); Idle 0; RemoveFlow 0; CloseSink 0; Summarize 0; SendOn 1; RemoveDead 1;
   LookUp 1 (Ok ()); SendOn 1; Upstream 1 (Some 1%Z)].
Definition sample_final : relay := run_relay (UdpFlowRelay_new EgressPolicy_default) sample_labels.
Definition sample_final_ok : bool :=
  bool_decide (re_summaries sample_final = [mkSummary sample_key 5 2]) && Nat.eqb (length (re_tasks sample_final)) 2
  && bool_decide (re_calls sample_final ≫= ok_of = [(sample_key, bs "hello"); (sample_key, bs "x")]).

Lemma udp_flow_accounting_witness :
  sample_final_ok = true ∧ re_calls sample_final ≫= ok_of ≡ₚ re_tasks sample_final ≫= accepted_of.
Proof.
  split; [vm_compute; reflexivity|].
  exact (proj1 (proj2 (udp_flow_accounting EgressPolicy_default sample_final (run_relay_rtc _ _)))).
Defined.

Definition sample_opened : relay := run_relay (UdpFlowRelay_new EgressPolicy_default) (take 4 sample_labels).
Definition sample_closing : relay := default sample_opened (udp_step_fn BeginClose sample_opened).
Definition sample_closed : relay := run_relay sample_closing [Clear; BeginForward sample_key (bs "late"); ChannelClosed 0].

Lemma answered_check l : forallb (λ c, match ca_state c with None => true | Some _ => false end) l = true → Forall answered l.
Proof.
  induction l as [|c l IH]; [constructor|]. cbn. intros [Hc Hl]%andb_true_iff. constructor; [|auto]. unfold answered. by destruct (ca_state c).
Qed.

Lemma udp_close_quiesces_witness :
  open_flow_count sample_opened = 1 ∧ open_flow_count sample_closed = 0 ∧ length (re_tasks sample_closed) = length (re_tasks sample_opened).
Proof.
  assert (re_closed sample_opened = false) as Hc by (vm_compute; reflexivity).
  assert (Forall answered (re_calls sample_opened)) as Ha by (apply answered_check; vm_compute; reflexivity).
  assert (re_clearing sample_closed = 0) as Hz by (vm_compute; reflexivity).
  pose proof (udp_close_quiesces EgressPolicy_default sample_opened sample_closing sample_closed (run_relay_rtc _ _)
    Hc Ha eq_refl (run_relay_rtc _ _)) as (_ & Hl & _ & Hq).
  split; [vm_compute; reflexivity|]. split; [exact (proj1 (Hq Hz))|exact Hl].
Defined.
End witnesses.
