(* ===== verification/Security.v ===== *)
(** * Confinement before an exec (crates/hiloop-interceptor/src/netns/security.rs)

    What a helper does to itself right before it becomes a workload or a worker:
    it closes (or marks close-on-exec) every descriptor but the standard ones and
    an explicit list, and gives up every capability for good.  The Linux calls
    are the class [Kernel] over the state of the process, with what their manual
    pages promise as [KernelLaws]; the loops over descriptors run over the exact
    number of descriptors of their range. *)
From Stdlib Require Import Strings.Byte Sorting.Sorted.
From S2P Require Import Prelude Text Net.

Definition i32_max : Z := 2147483647.
Definition FIRST_NON_STDIO_FD : Z := 3.
Definition LAST_V3_CAPABILITY : Z := 63.
Definition FIRST_UNREPRESENTABLE_V3_CAPABILITY : Z := LAST_V3_CAPABILITY + 1.

(** [SECBIT_*] of linux/securebits.h *)
Definition SECBIT_NOROOT : Z := 1.
Definition SECBIT_NOROOT_LOCKED : Z := 2.
Definition SECBIT_NO_SETUID_FIXUP : Z := 4.
Definition SECBIT_NO_SETUID_FIXUP_LOCKED : Z := 8.
Definition SECBIT_KEEP_CAPS : Z := 16.
Definition SECBIT_KEEP_CAPS_LOCKED : Z := 32.
Definition SECBIT_NO_CAP_AMBIENT_RAISE : Z := 64.
Definition SECBIT_NO_CAP_AMBIENT_RAISE_LOCKED : Z := 128.
Definition LOCKED_SECUREBITS : Z :=
  fold_left Z.lor
    [SECBIT_NOROOT_LOCKED; SECBIT_NO_SETUID_FIXUP; SECBIT_NO_SETUID_FIXUP_LOCKED; SECBIT_KEEP_CAPS_LOCKED;
     SECBIT_NO_CAP_AMBIENT_RAISE; SECBIT_NO_CAP_AMBIENT_RAISE_LOCKED] SECBIT_NOROOT.
Definition desired_securebits (current : Z) : Z := Z.land (Z.lor current LOCKED_SECUREBITS) (Z.lnot SECBIT_KEEP_CAPS).

Definition EBADF : Z := 9.
Definition EBUSY : Z := 16.
Definition EINVAL : Z := 22.
Definition EOVERFLOW : Z := 75.

Inductive SecurityError :=
| Os (errno : Z) | StdioListed | NotSorted | InvalidFd | InvalidLimit | InvalidEntry
| DuplicateField | EmptyField | TrailingData | InvalidMask | MissingField
| CapabilityAbi | CapabilityValue | CapabilityZero | CapabilityUnbounded.

(** ** The allowlist *)

Record CloseRange := mkRange { r_first : Z; r_last : Z }.
#[export] Instance CloseRange_eq_dec : EqDecision CloseRange.
Proof. solve_decision. Defined.

Fixpoint validate_allowed_fds_from (previous : option Z) (fds : list Z) : result SecurityError unit :=
  match fds with
  | [] => Ok ()
  | fd :: fds =>
      if (fd <? FIRST_NON_STDIO_FD)%Z then Err StdioListed
      else if match previous with Some p => (fd <=? p)%Z | None => false end then Err NotSorted
      else validate_allowed_fds_from (Some fd) fds
  end.
Definition validate_allowed_fds (fds : list Z) : result SecurityError unit := validate_allowed_fds_from None fds.

(** [u32::try_from] of a [RawFd] *)
Definition fd_to_u32 (fd : Z) : result SecurityError Z := if (fd <? 0)%Z then Err InvalidFd else Ok fd.

Fixpoint plan_ranges (first : Z) (fds : list Z) : result SecurityError (list CloseRange) :=
  match fds with
  | [] => Ok (if (first <=? i32_max)%Z then [mkRange first u32_max] else [])
  | fd :: fds =>
      allowed ← fd_to_u32 fd;
      rest ← plan_ranges (allowed + 1) fds;
      Ok (if (first <? allowed)%Z then mkRange first (allowed - 1) :: rest else rest)
  end.
Definition plan_close_ranges (fds : list Z) : result SecurityError (list CloseRange) :=
  _ ← validate_allowed_fds fds;
  plan_ranges FIRST_NON_STDIO_FD fds.

Definition clipped_fallback_range (range : CloseRange) (fallback_last_fd : Z) : option CloseRange :=
  let last := Z.min (r_last range) fallback_last_fd in
  if (r_first range <=? last)%Z then Some (mkRange (r_first range) last) else None.

(** ** The highest descriptor the fallback looks at *)

Definition parse_nr_open (value : str) : result SecurityError Z :=
  match parse_uint u64_max (trim value) with Some n => Ok n | None => Err InvalidLimit end.

(** What the process sees of its limits: the hard limit ([None] is infinity),
    the text of nr_open, and the names in /proc/self/fd. *)
Record Limits := mkLimits {
  rlim_max : result Z (option Z); nr_open : result Z str; fd_entries : result Z (list str) }.

Fixpoint highest_entry (highest : Z) (names : list str) : result SecurityError Z :=
  match names with
  | [] => Ok highest
  | name :: names =>
      match parse_uint u64_max name with
      | None => Err InvalidEntry
      | Some descriptor => highest_entry (Z.max highest (Z.min descriptor i32_max)) names
      end
  end.

Definition os {A} (r : result Z A) : result SecurityError A := match r with Ok a => Ok a | Err e => Err (Os e) end.

Definition fallback_last_fd (l : Limits) : result SecurityError Z :=
  limit ← os (rlim_max l);
  descriptor_limit ← match limit with
                     | None => text ← os (nr_open l); parse_nr_open text
                     | Some n => Ok n
                     end;
  names ← os (fd_entries l);
  highest_entry (Z.min (saturating_sub descriptor_limit 1) i32_max) names.

(** ** The kernel *)

(** The credentials of a process: capability sets as masks, the secure bits and
    [no_new_privs]. *)
Record Credentials := mkCredentials {
  cr_bounding : Z; cr_ambient : Z; cr_effective : Z; cr_permitted : Z; cr_inheritable : Z; cr_securebits : Z; cr_no_new_privs : bool }.

Class Kernel (K : Type) := {
  fd_open : K → Z → bool;
  fd_cloexec : K → Z → bool;
  credentials : K → Credentials;
  sys_close_range : K → Z → Z → bool → K * result Z unit;  (* the flag is [CLOSE_RANGE_CLOEXEC] *)
  sys_close : K → Z → K * result Z unit;
  sys_getfd : K → Z → result Z Z;
  sys_setfd : K → Z → Z → K * result Z unit;
  sys_capbset_read : K → Z → result Z Z;
  sys_get_securebits : K → result Z Z;
  sys_set_securebits : K → Z → K * result Z unit;
  sys_capbset_drop : K → Z → K * result Z unit;
  sys_ambient_clear_all : K → K * result Z unit;
  sys_set_no_new_privs : K → K * result Z unit;
  sys_capset_empty : K → K * result Z unit;
}.

Section kernel.
Context {K : Type} {HK : Kernel K}.

(** A close that failed is checked, so that a denied close does not leak. *)
Definition close_one (k : K) (descriptor : Z) : K * result SecurityError unit :=
  let '(k, closed) := sys_close k descriptor in
  (k, match closed with
      | Ok _ => Ok ()
      | Err _ =>
          match sys_getfd k descriptor with
          | Ok _ => Err (Os EBUSY)
          | Err e => if (e =? EBADF)%Z then Ok () else Err (Os e)
          end
      end).
Definition mark_one (k : K) (descriptor : Z) : K * result SecurityError unit :=
  match sys_getfd k descriptor with
  | Err e => (k, if (e =? EBADF)%Z then Ok () else Err (Os e))
  | Ok flags => let '(k, r) := sys_setfd k descriptor (Z.lor flags 1) in (k, os r)
  end.

(** One descriptor after another up to the last of the range; [n] is how many
    follow the first. *)
Fixpoint descriptor_loop (one : K → Z → K * result SecurityError unit) (n : nat) (descriptor : Z) (k : K)
    : K * result SecurityError unit :=
  if (i32_max <? descriptor)%Z then (k, Err (Os EOVERFLOW))
  else
    match one k descriptor with
    | (k, Err e) => (k, Err e)
    | (k, Ok _) => match n with O => (k, Ok ()) | S n => descriptor_loop one n (descriptor + 1) k end
    end.
Definition close_descriptor_loop := descriptor_loop close_one.
Definition mark_descriptor_loop_close_on_exec := descriptor_loop mark_one.

Definition loop_over (loop : nat → Z → K → K * result SecurityError unit) (range : CloseRange) (k : K)
    : K * result SecurityError unit :=
  loop (Z.to_nat (r_last range - r_first range)) (r_first range) k.

Fixpoint over_ranges (cloexec : bool) (ranges : list CloseRange) (fallback_last_fd : Z) (k : K) : K * result SecurityError unit :=
  match ranges with
  | [] => (k, Ok ())
  | range :: ranges =>
      let '(k, r) := sys_close_range k (r_first range) (r_last range) cloexec in
      let '(k, r) :=
        match r, clipped_fallback_range range fallback_last_fd with
        | Err _, Some fallback =>
            loop_over (if cloexec then mark_descriptor_loop_close_on_exec else close_descriptor_loop) fallback k
        | _, _ => (k, Ok ())
        end in
      match r with Ok _ => over_ranges cloexec ranges fallback_last_fd k | Err e => (k, Err e) end
  end.
Definition close_unlisted_descriptors := over_ranges false.
Definition mark_unlisted_descriptors_close_on_exec := over_ranges true.

Record PreExecDescriptorSanitizer := mkSanitizer { close_ranges : list CloseRange; ds_fallback_last_fd : Z }.
Definition PreExecDescriptorSanitizer_prepare (l : Limits) (allowed : list Z) : result SecurityError PreExecDescriptorSanitizer :=
  ranges ← plan_close_ranges allowed;
  last ← fallback_last_fd l;
  Ok (mkSanitizer ranges last).
Definition sanitizer_apply_in_pre_exec (s : PreExecDescriptorSanitizer) (k : K) : K * result SecurityError unit :=
  mark_unlisted_descriptors_close_on_exec (close_ranges s) (ds_fallback_last_fd s) k.
Definition close_unlisted (s : PreExecDescriptorSanitizer) (k : K) : K * result SecurityError unit :=
  close_unlisted_descriptors (close_ranges s) (ds_fallback_last_fd s) k.
Definition close_descriptors_except (l : Limits) (allowed : list Z) (k : K) : K * result SecurityError unit :=
  match PreExecDescriptorSanitizer_prepare l allowed with Ok s => close_unlisted s k | Err e => (k, Err e) end.

(** ** Privileges *)

(** [last_supported_capability], from [capability] on; [n] capabilities are
    left to ask. *)
Fixpoint find_last_capability (n : nat) (capability : Z) (last : option Z) (k : K) : result SecurityError Z :=
  match n with
  | O => Err CapabilityUnbounded
  | S n =>
      match sys_capbset_read k capability with
      | Ok v =>
          if ((v =? 0) || (v =? 1))%Z then
            if (capability <=? LAST_V3_CAPABILITY)%Z then find_last_capability n (capability + 1) (Some capability) k
            else Err CapabilityAbi
          else Err CapabilityValue
      | Err e =>
          if (e =? EINVAL)%Z then match last with Some c => Ok c | None => Err CapabilityZero end
          else Err (Os e)
      end
  end.
Definition last_supported_capability (k : K) : result SecurityError Z :=
  find_last_capability (Z.to_nat FIRST_UNREPRESENTABLE_V3_CAPABILITY + 1) 0 None k.

(** A system call and what follows it. *)
Definition then_do (r : K * result Z unit) (next : K → K * result SecurityError unit) : K * result SecurityError unit :=
  match r with (k, Ok _) => next k | (k, Err e) => (k, Err (Os e)) end.

Definition set_locked_securebits (k : K) : K * result Z unit :=
  match sys_get_securebits k with
  | Err e => (k, Err e)
  | Ok current =>
      let securebits := desired_securebits current in
      if (securebits <? 0)%Z then (k, Err EINVAL) else sys_set_securebits k securebits
  end.

(** [n] capabilities are left to drop. *)
Fixpoint drop_bounding_capabilities (n : nat) (capability : Z) (k : K) : K * result Z unit :=
  match n with
  | O => (k, Ok ())
  | S n => match sys_capbset_drop k capability with
           | (k, Ok _) => drop_bounding_capabilities n (capability + 1) k
           | (k, Err e) => (k, Err e)
           end
  end.

Record ChildLockdown := mkLockdown { descriptors : PreExecDescriptorSanitizer; last_capability : Z }.
Definition ChildLockdown_prepare (l : Limits) (allowed : list Z) (k : K) : result SecurityError ChildLockdown :=
  descriptors ← PreExecDescriptorSanitizer_prepare l allowed;
  last ← last_supported_capability k;
  Ok (mkLockdown descriptors last).

Definition drop_privileges (s : ChildLockdown) (next : K → K * result SecurityError unit) (k : K) : K * result SecurityError unit :=
  then_do (set_locked_securebits k) (λ k,
  then_do (drop_bounding_capabilities (Z.to_nat (last_capability s) + 1) 0 k) (λ k,
  then_do (sys_ambient_clear_all k) (λ k,
  then_do (sys_set_no_new_privs k) (λ k,
  then_do (sys_capset_empty k) next)))).
Definition lockdown_apply (s : ChildLockdown) : K → K * result SecurityError unit :=
  drop_privileges s (close_unlisted (descriptors s)).
Definition lockdown_apply_in_pre_exec (s : ChildLockdown) : K → K * result SecurityError unit :=
  drop_privileges s (sanitizer_apply_in_pre_exec (descriptors s)).
End kernel.

(** ** Capability masks of /proc/<pid>/status *)

Record CapabilityStatus := mkCapStatus { cs_inheritable : Z; cs_permitted : Z; cs_effective : Z; cs_bounding : Z; cs_ambient : Z }.
#[export] Instance CapabilityStatus_eq_dec : EqDecision CapabilityStatus.
Proof. solve_decision. Defined.
Definition caps_is_empty (s : CapabilityStatus) : bool :=
  ((cs_inheritable s =? 0) && (cs_permitted s =? 0) && (cs_effective s =? 0) && (cs_bounding s =? 0) && (cs_ambient s =? 0))%Z.

(** [u64::from_str_radix(s, 16)] *)
Fixpoint parse_hex_digits (acc : Z) (s : str) : option Z :=
  match s with
  | [] => Some acc
  | b :: s => d ← hex_val b; let acc := (acc * 16 + d)%Z in if (acc <=? u64_max)%Z then parse_hex_digits acc s else None
  end.
Definition u64_from_hex (s : str) : option Z :=
  match s with
  | [] => None
  | b :: rest => if byte_is x2b b then match rest with [] => None | _ => parse_hex_digits 0 rest end else parse_hex_digits 0 s
  end.

Definition parse_capability_field (destination : option Z) (value : str) : result SecurityError Z :=
  match destination with
  | Some _ => Err DuplicateField
  | None =>
      match split_ascii_whitespace value with
      | [] => Err EmptyField
      | [mask] => match u64_from_hex mask with Some v => Ok v | None => Err InvalidMask end
      | _ => Err TrailingData
      end
  end.

Inductive cap_field := CapInh | CapPrm | CapEff | CapBnd | CapAmb.
#[export] Instance cap_field_eq_dec : EqDecision cap_field.
Proof. solve_decision. Defined.
Definition cap_fields : list cap_field := [CapInh; CapPrm; CapEff; CapBnd; CapAmb].
Definition cap_name (f : cap_field) : str :=
  bs match f with CapInh => "CapInh" | CapPrm => "CapPrm" | CapEff => "CapEff" | CapBnd => "CapBnd" | CapAmb => "CapAmb" end.
Definition field_of_name (name : str) : option cap_field := List.find (λ f, bool_decide (cap_name f = name)) cap_fields.

Fixpoint parse_status_lines (lines : list str) (found : cap_field → option Z) : result SecurityError (cap_field → option Z) :=
  match lines with
  | [] => Ok found
  | line :: lines =>
      match split_once x3a line with
      | None => parse_status_lines lines found
      | Some (name, value) =>
          match field_of_name name with
          | None => parse_status_lines lines found
          | Some f =>
              v ← parse_capability_field (found f) value;
              parse_status_lines lines (λ g, if bool_decide (g = f) then Some v else found g)
          end
      end
  end.
Definition required_capability_field (value : option Z) : result SecurityError Z :=
  match value with Some v => Ok v | None => Err MissingField end.
Definition parse_proc_status (status : str) : result SecurityError CapabilityStatus :=
  found ← parse_status_lines (str_lines status) (λ _, None);
  inheritable ← required_capability_field (found CapInh);
  permitted ← required_capability_field (found CapPrm);
  effective ← required_capability_field (found CapEff);
  bounding ← required_capability_field (found CapBnd);
  ambient ← required_capability_field (found CapAmb);
  Ok (mkCapStatus inheritable permitted effective bounding ambient).

(** ** What Linux promises *)

Section views.
Context {K : Type} {HK : Kernel K}.
Definition same_fd (k k' : K) (fd : Z) : Prop := fd_open k' fd = fd_open k fd ∧ fd_cloexec k' fd = fd_cloexec k fd.
Definition same_fds (k k' : K) : Prop := ∀ fd, same_fd k k' fd.
(** A descriptor that will not cross the exec: closed, or marked. *)
Definition sealed (cloexec : bool) (k k' : K) (fd : Z) : Prop :=
  if cloexec then fd_open k' fd = fd_open k fd ∧ (fd_open k fd = true → fd_cloexec k' fd = true) else fd_open k' fd = false.
End views.

(** [cap_last] is the kernel's last capability: [PR_CAPBSET_READ] fails with
    [EINVAL] only beyond it, and no set has a capability beyond it. *)
Class KernelLaws (K : Type) {HK : Kernel K} (cap_last : Z) : Prop := {
  open_range : ∀ k fd, fd_open k fd = true → (0 ≤ fd ≤ i32_max)%Z;
  close_range_law : ∀ k a b cloexec k' r, sys_close_range k a b cloexec = (k', r) →
    credentials k' = credentials k ∧
    ∀ fd, if is_ok r && ((a <=? fd) && (fd <=? b))%Z then sealed cloexec k k' fd else same_fd k k' fd;
  close_law : ∀ k fd k' r, sys_close k fd = (k', r) →
    credentials k' = credentials k ∧ (∀ fd', fd' ≠ fd → same_fd k k' fd') ∧ (fd_open k' fd = true → fd_open k fd = true) ∧
    (r = Ok () → fd_open k' fd = false);
  getfd_law : ∀ k fd, match sys_getfd k fd with
                      | Ok flags => fd_open k fd = true ∧ fd_cloexec k fd = Z.testbit flags 0
                      | Err e => e = EBADF → fd_open k fd = false
                      end;
  setfd_law : ∀ k fd v k' r, sys_setfd k fd v = (k', r) →
    credentials k' = credentials k ∧ (∀ fd', fd' ≠ fd → same_fd k k' fd') ∧ fd_open k' fd = fd_open k fd ∧
    (r = Ok () → fd_cloexec k' fd = Z.testbit v 0);
  cap_last_nonneg : (0 ≤ cap_last)%Z;
  capbset_read_law : ∀ k c, sys_capbset_read k c = Err EINVAL ↔ (cap_last < c)%Z;
  bounding_law : ∀ k c, Z.testbit (cr_bounding (credentials k)) c = true → (0 ≤ c ≤ cap_last)%Z;
  get_securebits_law : ∀ k v, sys_get_securebits k = Ok v → v = cr_securebits (credentials k);
  set_securebits_law : ∀ k v k' r, sys_set_securebits k v = (k', r) → same_fds k k' ∧
    (r = Ok () → credentials k' = let c := credentials k in
       mkCredentials (cr_bounding c) (cr_ambient c) (cr_effective c) (cr_permitted c) (cr_inheritable c) v (cr_no_new_privs c));
  capbset_drop_law : ∀ k cap k' r, sys_capbset_drop k cap = (k', r) → same_fds k k' ∧
    (r = Ok () → credentials k' = let c := credentials k in
       mkCredentials (Z.clearbit (cr_bounding c) cap) (cr_ambient c) (cr_effective c) (cr_permitted c) (cr_inheritable c)
         (cr_securebits c) (cr_no_new_privs c));
  ambient_clear_law : ∀ k k' r, sys_ambient_clear_all k = (k', r) → same_fds k k' ∧
    (r = Ok () → credentials k' = let c := credentials k in
       mkCredentials (cr_bounding c) 0 (cr_effective c) (cr_permitted c) (cr_inheritable c) (cr_securebits c) (cr_no_new_privs c));
  no_new_privs_law : ∀ k k' r, sys_set_no_new_privs k = (k', r) → same_fds k k' ∧
    (r = Ok () → credentials k' = let c := credentials k in
       mkCredentials (cr_bounding c) (cr_ambient c) (cr_effective c) (cr_permitted c) (cr_inheritable c) (cr_securebits c) true);
  capset_law : ∀ k k' r, sys_capset_empty k = (k', r) → same_fds k k' ∧
    (r = Ok () → credentials k' = let c := credentials k in
       mkCredentials (cr_bounding c) (cr_ambient c) 0 0 0 (cr_securebits c) (cr_no_new_privs c));
}.

(** ** Lemmas *)

Definition in_ranges (ranges : list CloseRange) (fd : Z) : Prop := Exists (λ r, r_first r ≤ fd ≤ r_last r)%Z ranges.

Lemma validate_from_spec previous fds :
  validate_allowed_fds_from previous fds = Ok () →
  Sorted Z.lt fds ∧ Forall (λ fd, FIRST_NON_STDIO_FD ≤ fd)%Z fds ∧ ∀ p, previous = Some p → HdRel Z.lt p fds.
Proof.
  revert previous. induction fds as [|fd fds IH]; intros previous; [repeat constructor|]. cbn.
  destruct (Z.ltb_spec fd FIRST_NON_STDIO_FD); [done|].
  destruct (match previous with Some p => (fd <=? p)%Z | None => false end) eqn:Ep; [done|].
  intros Hv. destruct (IH _ Hv) as (Hs & Hf & Hh). split_and!.
  - constructor; [done|]. by apply Hh.
  - by constructor.
  - intros p ->. constructor. apply Z.leb_gt in Ep. lia.
Qed.

Lemma plan_ranges_spec first fds ranges :
  (0 ≤ first)%Z → Sorted Z.lt fds → Forall (λ fd, first ≤ fd ≤ i32_max)%Z fds → plan_ranges first fds = Ok ranges →
  ∀ fd, (0 ≤ fd ≤ i32_max)%Z → (in_ranges ranges fd ↔ (first ≤ fd)%Z ∧ fd ∉ fds).
Proof.
  revert first ranges. induction fds as [|a fds IH]; intros first ranges Hfirst Hs Hf; cbn.
  - intros [= <-] fd Hfd. unfold in_ranges. destruct (Z.leb_spec first i32_max).
    + rewrite Exists_cons, Exists_nil. cbn. unfold u32_max, i32_max in *. split; [intros [?|[]]; split; [lia|by intros ?%elem_of_nil]|intros [? _]; left; lia].
    + rewrite Exists_nil. split; [done|]. intros [? _]. lia.
  - apply Forall_cons in Hf as [Ha Hf]. apply Sorted_StronglySorted in Hs; [|intros ? ? ?; lia]. apply StronglySorted_inv in Hs as [Hs Hlt].
    unfold fd_to_u32. rewrite (proj2 (Z.ltb_ge a 0)) by lia. cbn.
    destruct (plan_ranges (a + 1) fds) as [rest|] eqn:E; [|done]. cbn. intros [= <-] fd Hfd.
    assert (in_ranges rest fd ↔ (a + 1 ≤ fd)%Z ∧ fd ∉ fds) as IH'.
    { apply (IH (a + 1)%Z); try done; [lia|by apply StronglySorted_Sorted|].
      rewrite Forall_forall in Hlt |- *. rewrite Forall_forall in Hf. intros x Hx. specialize (Hlt x Hx). specialize (Hf x Hx). lia. }
    assert (fd < a → fd ∉ fds)%Z as Hnot.
    { intros Hfa Hin. rewrite Forall_forall in Hlt. specialize (Hlt _ Hin). lia. }
    rewrite not_elem_of_cons. destruct (Z.ltb_spec first a).
    + unfold in_ranges in *. rewrite Exists_cons, IH'. cbn. split.
      * intros [?|[? ?]]; split_and!; try lia; [|done]. apply Hnot. lia.
      * intros (? & ? & ?). destruct (decide (fd < a)%Z); [left; lia|right; split; [lia|done]].
    + rewrite IH'. split; [intros [? ?]; split_and!; [lia..|done]|intros (? & ? & ?); split; [lia|done]].
Qed.

Lemma plan_close_ranges_spec fds ranges :
  Forall (λ fd, fd ≤ i32_max)%Z fds → plan_close_ranges fds = Ok ranges →
  ∀ fd, (0 ≤ fd ≤ i32_max)%Z → (in_ranges ranges fd ↔ (FIRST_NON_STDIO_FD ≤ fd)%Z ∧ fd ∉ fds).
Proof.
  intros Hmax. unfold plan_close_ranges, validate_allowed_fds. destruct (validate_allowed_fds_from None fds) as [[]|] eqn:E; [|done].
  apply validate_from_spec in E as (Hs & Hf & _). cbn. intros Hp. apply plan_ranges_spec; [done|done| |done].
  rewrite Forall_forall in Hmax, Hf |- *. intros x Hx. auto.
Qed.

Lemma highest_entry_spec highest names n :
  highest_entry highest names = Ok n →
  (highest ≤ n)%Z ∧ (highest ≤ i32_max → n ≤ i32_max)%Z ∧
  ∀ name d, name ∈ names → parse_uint u64_max name = Some d → (Z.min d i32_max ≤ n)%Z.
Proof.
  revert highest. induction names as [|name names IH]; intros highest; cbn.
  { intros [= ->]. split_and!; [lia|done|]. by intros ? ? ?%elem_of_nil. }
  destruct (parse_uint u64_max name) as [d|] eqn:E; [|done]. intros Hh. destruct (IH _ Hh) as (H1 & H2 & H3). split_and!; [lia|lia|].
  intros name' d' [->|Hin]%elem_of_cons Hp; [|by eapply H3]. simplify_eq. lia.
Qed.

(** The descriptor limit the process has. *)
Definition descriptor_limit (l : Limits) : option Z :=
  match rlim_max l with
  | Ok (Some n) => Some n
  | Ok None => match nr_open l with Ok text => parse_uint u64_max (trim text) | Err _ => None end
  | Err _ => None
  end.

Lemma fallback_last_fd_spec l n :
  fallback_last_fd l = Ok n →
  (n ≤ i32_max)%Z ∧ ∃ limit names, descriptor_limit l = Some limit ∧ fd_entries l = Ok names ∧
    (∀ fd, fd < limit → fd ≤ i32_max → 0 ≤ fd → fd ≤ n)%Z ∧
    ∀ name d, name ∈ names → parse_uint u64_max name = Some d → (Z.min d i32_max ≤ n)%Z.
Proof.
  unfold fallback_last_fd, descriptor_limit. destruct (rlim_max l) as [limit|]; cbn; [|done].
  destruct (match limit with None => _ | Some n => Ok n end) as [lim|] eqn:El; cbn; [|done].
  assert (match limit with None => match nr_open l with Ok text => parse_uint u64_max (trim text) | Err _ => None end | Some n => Some n end = Some lim) as Hlim.
  { destruct limit; [congruence|]. destruct (nr_open l); cbn in El; [|done]. unfold parse_nr_open in El. destruct (parse_uint _ _); congruence. }
  destruct (fd_entries l) as [names|]; cbn; [|done]. intros Hh%highest_entry_spec. destruct Hh as (H1 & H2 & H3).
  split; [apply H2; lia|]. exists lim, names. split_and!; [destruct limit; done|done| |done].
  intros fd Hfd Hmax H0. unfold saturating_sub in H1. lia.
Qed.

Section loops.
Context {K : Type} {HK : Kernel K} {cap_last : Z} {KL : KernelLaws K cap_last}.

(** What a pass over some descriptors does: it seals them if it succeeds, and
    touches nothing else. *)
Record pass_ok (cloexec : bool) (P : Z → Prop) (k k' : K) (r : result SecurityError unit) : Prop := {
  po_credentials : credentials k' = credentials k;
  po_others : ∀ fd, ¬ P fd → same_fd k k' fd;
  po_open : ∀ fd, fd_open k' fd = true → fd_open k fd = true;
  po_sealed : r = Ok () → ∀ fd, P fd → sealed cloexec k k' fd;
}.

(** Passes one after the other. *)
Lemma pass_ok_seq cloexec (P Q R : Z → Prop) k1 k2 k3 r :
  pass_ok cloexec P k1 k2 (Ok ()) → pass_ok cloexec Q k2 k3 r → (∀ fd, R fd ↔ P fd ∨ Q fd) → (∀ fd, Decision (P fd)) → (∀ fd, Decision (Q fd)) →
  pass_ok cloexec R k1 k3 r.
Proof.
  intros [C1 O1 M1 S1] [C2 O2 M2 S2] HR DP DQ. split.
  - congruence.
  - intros fd Hn. rewrite HR in Hn. destruct (O1 fd), (O2 fd); try tauto. split; congruence.
  - intros fd Hfd. auto.
  - intros -> fd [Hp | Hq]%HR.
    + specialize (S1 eq_refl fd Hp). destruct (DQ fd) as [Hq|Hq].
      * specialize (S2 eq_refl fd Hq). destruct cloexec; cbn in *; [|done]. destruct S1 as [E1 _], S2 as [E2 H2]. split; [congruence|].
        intros Ho. apply H2. congruence.
      * destruct (O2 fd Hq) as [E1 E2]. destruct cloexec; cbn in *; [destruct S1; split; [congruence|intros; rewrite E2; auto]|congruence].
    + specialize (S2 eq_refl fd Hq). destruct cloexec; cbn in *; [|done]. destruct S2 as [E2 H2].
      destruct (DP fd) as [Hp|Hp].
      * destruct (S1 eq_refl fd Hp) as [E1 _]. split; [congruence|]. intros Ho. apply H2. congruence.
      * destruct (O1 fd Hp) as [E1 _]. split; [congruence|]. intros Ho. apply H2. congruence.
Qed.

Lemma pass_ok_fail cloexec (P R : Z → Prop) k1 k2 e :
  pass_ok cloexec P k1 k2 (Err e) → (∀ fd, P fd → R fd) → pass_ok cloexec R k1 k2 (Err e).
Proof. intros [C O M S] HR. split; [done| |done|done]. intros fd Hn. apply O. auto. Qed.

Lemma close_one_ok k d : pass_ok false (λ fd, fd = d) k (close_one k d).1 (close_one k d).2.
Proof.
  unfold close_one. destruct (sys_close k d) as [k' closed] eqn:Hc. destruct (close_law _ _ _ _ Hc) as (C & O & M & S). cbn [fst snd].
  split; [done|done| |].
  - intros fd Hfd. destruct (decide (fd = d)) as [->|Hne]; [auto|]. by rewrite <- (proj1 (O fd Hne)).
  - intros Hr fd ->. cbn. destruct closed as [[]|e]; [auto|]. pose proof (getfd_law k' d) as Hg.
    destruct (sys_getfd k' d) as [|e']; [done|]. destruct (Z.eqb_spec e' EBADF); [auto|done].
Qed.

Lemma mark_one_ok k d : pass_ok true (λ fd, fd = d) k (mark_one k d).1 (mark_one k d).2.
Proof.
  unfold mark_one. pose proof (getfd_law k d) as Hg. destruct (sys_getfd k d) as [flags|e].
  - destruct (sys_setfd k d (Z.lor flags 1)) as [k1 r] eqn:Es. destruct (setfd_law _ _ _ _ _ Es) as (C & O & E & S). cbn [fst snd].
    split; [done|done| |].
    + intros fd Hfd. destruct (decide (fd = d)) as [->|Hne]; [congruence|]. by rewrite <- (proj1 (O fd Hne)).
    + intros Hr fd ->. cbn. split; [done|]. intros _. rewrite S by (by destruct r as [[]|]). by rewrite Z.lor_spec, orb_true_r.
  - split; [done|by split|done|]. intros Hr fd ->. cbn in *. split; [done|]. destruct (Z.eqb_spec e EBADF); [|done].
    rewrite (Hg ltac:(done)). done.
Qed.

(** A loop whose body handles one descriptor handles all of them. *)
Lemma descriptor_loop_ok cloexec (one : K → Z → K * result SecurityError unit) n d k :
  (∀ k d, pass_ok cloexec (λ fd, fd = d) k (one k d).1 (one k d).2) →
  let '(k', r) := descriptor_loop one n d k in pass_ok cloexec (λ fd, d ≤ fd ≤ d + Z.of_nat n)%Z k k' r.
Proof.
  intros Hone. revert d k. induction n as [|n IH]; intros d k; cbn [descriptor_loop]; destruct (i32_max <? d)%Z.
  1,3: split; [done|by split|done|done].
  all: specialize (Hone k d); destruct (one k d) as [k1 [[]|e]]; cbn [fst snd] in Hone;
    try (eapply pass_ok_fail; [done|cbn; lia]).
  - destruct Hone as [C O M S]. split; [done| |done|]; intros; [apply O|apply S]; lia || done.
  - specialize (IH (d + 1)%Z k1). destruct (descriptor_loop one n (d + 1)%Z k1) as [k' r].
    eapply (pass_ok_seq _ _ _ _ _ _ _ _ Hone IH); [intros fd; lia|apply _..].
Qed.
Lemma loop_ok (cloexec : bool) n d (k : K) :
  let '(k', r) := (if cloexec then mark_descriptor_loop_close_on_exec else close_descriptor_loop) n d k in
  pass_ok cloexec (λ fd, d ≤ fd ≤ d + Z.of_nat n)%Z k k' r.
Proof. destruct cloexec; apply descriptor_loop_ok; [apply mark_one_ok|apply close_one_ok]. Qed.

Lemma range_ok (cloexec : bool) range last (k : K) :
  (∀ fd, fd_open k fd = true → fd ≤ last)%Z →
  let '(k1, r1) := sys_close_range k (r_first range) (r_last range) cloexec in
  let '(k', r) := match r1, clipped_fallback_range range last with
                  | Err _, Some fallback => loop_over (if cloexec then mark_descriptor_loop_close_on_exec else close_descriptor_loop) fallback k1
                  | _, _ => (k1, Ok ())
                  end in
  pass_ok cloexec (λ fd, r_first range ≤ fd ≤ r_last range)%Z k k' r.
Proof.
  intros Hlast. destruct (sys_close_range _ _ _ _) as [k1 r1] eqn:Ec. destruct (close_range_law _ _ _ _ _ _ Ec) as [C F].
  destruct r1 as [[]|e].
  { cbn in F. split; [done| | |].
    - intros fd Hn. specialize (F fd). by destruct (Z.leb_spec (r_first range) fd), (Z.leb_spec fd (r_last range)); cbn in F; try done; lia.
    - intros fd Ho. specialize (F fd). destruct (_ && _); [|by rewrite <- (proj1 F)]. destruct cloexec; cbn in F; [destruct F; congruence|congruence].
    - intros _ fd Hfd. specialize (F fd). by rewrite (proj2 (Z.leb_le (r_first range) fd)), (proj2 (Z.leb_le fd (r_last range))) in F by lia. }
  cbn in F. assert (∀ P : Z → Prop, (∀ fd, P fd → fd_open k fd = false) → pass_ok cloexec P k k1 (Ok ())) as Hnone.
  { intros P HP. split; [done|intros; apply F| |].
    - intros fd Ho. by rewrite <- (proj1 (F fd)).
    - intros _ fd Hp. specialize (HP fd Hp). destruct (F fd) as [E1 E2]. destruct cloexec; cbn; [split; [done|congruence]|congruence]. }
  unfold clipped_fallback_range. destruct (Z.leb_spec (r_first range) (Z.min (r_last range) last)) as [Hle|Hgt].
  2:{ apply Hnone. intros fd Hfd. destruct (fd_open k fd) eqn:E; [|done]. specialize (Hlast fd E). lia. }
  unfold loop_over. cbn [r_first r_last].
  pose proof (loop_ok cloexec (Z.to_nat (Z.min (r_last range) last - r_first range)) (r_first range) k1) as Hl.
  destruct ((if cloexec then _ else _) _ _ _) as [k' r]. 
  assert (pass_ok cloexec (λ fd, (Z.min (r_last range) last < fd ≤ r_last range)%Z) k k1 (Ok ())) as H0.
  { apply Hnone. intros fd Hfd. destruct (fd_open k fd) eqn:E; [|done]. specialize (Hlast fd E). lia. }
  eapply (pass_ok_seq _ _ _ _ _ _ _ _ H0 Hl); [intros fd; lia|apply _..].
Qed.

Lemma over_ranges_ok (cloexec : bool) ranges last (k : K) :
  (∀ fd, fd_open k fd = true → fd ≤ last)%Z →
  let '(k', r) := over_ranges cloexec ranges last k in pass_ok cloexec (in_ranges ranges) k k' r.
Proof.
  revert k. induction ranges as [|range ranges IH]; intros k Hlast; cbn [over_ranges].
  { split; [done|by split|done|]. intros _ fd Hfd. by apply Exists_nil in Hfd. }
  pose proof (range_ok cloexec range last k Hlast) as Hr. destruct (sys_close_range _ _ _ _) as [k1 r1].
  match type of Hr with let '(_, _) := ?m in _ => destruct m as [k2 [[]|e]] end.
  - assert (∀ fd, fd_open k2 fd = true → fd ≤ last)%Z as Hlast2 by (intros fd Ho; by apply Hlast, (po_open _ _ _ _ _ Hr)).
    specialize (IH k2 Hlast2). destruct (over_ranges cloexec ranges last k2) as [k' r].
    eapply (pass_ok_seq _ _ _ _ _ _ _ _ Hr IH); [intros fd; unfold in_ranges; by rewrite Exists_cons|apply _|].
    intros fd. unfold in_ranges. apply _.
  - eapply pass_ok_fail; [done|]. intros fd Hfd. unfold in_ranges. rewrite Exists_cons. by left.
Qed.

(** *** Privileges *)

Lemma find_last_capability_spec n c last k x :
  (0 ≤ c)%Z → (last = None ∧ c = 0%Z ∨ last = Some (c - 1)%Z) → (c ≤ cap_last + 1)%Z →
  find_last_capability n c last k = Ok x → x = cap_last.
Proof.
  revert c last. induction n as [|n IH]; intros c last Hc Hl Hle; [done|]. cbn.
  destruct (sys_capbset_read k c) as [v|e] eqn:E.
  - assert (¬ cap_last < c)%Z as Hn by (intros Hlt; apply (capbset_read_law k) in Hlt; congruence).
    destruct (_ || _); [|done]. destruct (Z.leb_spec c LAST_V3_CAPABILITY); [|done]. intros Hf. eapply IH; [| | |exact Hf]; [lia| |lia].
    right. f_equal. lia.
  - destruct (Z.eqb_spec e EINVAL) as [->|]; [|done]. apply capbset_read_law in E. destruct Hl as [[-> ->] | ->]; [done|]. intros [= <-]. lia.
Qed.

Definition with_bounding (c : Credentials) (b : Z) : Credentials :=
  mkCredentials b (cr_ambient c) (cr_effective c) (cr_permitted c) (cr_inheritable c) (cr_securebits c) (cr_no_new_privs c).

Lemma drop_bounding_spec n c k k' r :
  (0 ≤ c)%Z → drop_bounding_capabilities n c k = (k', r) →
  same_fds k k' ∧ (r = Ok () → ∃ b, credentials k' = with_bounding (credentials k) b ∧
    ∀ i, (0 ≤ i)%Z → Z.testbit b i = Z.testbit (cr_bounding (credentials k)) i && negb ((c <=? i) && (i <? c + Z.of_nat n))%Z).
Proof.
  revert c k. induction n as [|n IH]; intros c k Hc; cbn.
  { intros [= <- <-]. split; [by split|]. intros _. exists (cr_bounding (credentials k)). split; [by destruct (credentials k)|].
    intros i Hi. rewrite Z.add_0_r.
    destruct (Z.leb_spec c i), (Z.ltb_spec i c); cbn; rewrite ?andb_true_r; done || lia. }
  destruct (sys_capbset_drop k c) as [k1 [[]|e]] eqn:E; destruct (capbset_drop_law _ _ _ _ E) as [F Sp]; [|by intros [= <- <-]].
  specialize (Sp eq_refl). intros Hd. destruct (IH (c + 1)%Z k1 ltac:(lia) Hd) as [F2 S2]. split.
  { intros fd. destruct (F fd), (F2 fd). split; congruence. }
  intros Hr. destruct (S2 Hr) as (b & Hb & Hbits). exists b. rewrite Sp in Hb, Hbits. split; [done|]. intros i Hi. rewrite (Hbits i Hi). cbn.
  destruct (decide (i = c)) as [->|Hne].
  - rewrite Z.clearbit_eq. rewrite (proj2 (Z.leb_le c c)), (proj2 (Z.ltb_lt c (c + Z.of_nat (S n)))) by lia. cbn. by rewrite andb_false_r.
  - rewrite Z.clearbit_neq by lia. f_equal. f_equal.
    destruct (Z.leb_spec (c + 1) i), (Z.leb_spec c i), (Z.ltb_spec i (c + 1 + Z.of_nat n)), (Z.ltb_spec i (c + Z.of_nat (S n))); cbn; done || lia.
Qed.

Definition stripped (c : Credentials) (securebits : Z) : Prop :=
  c = mkCredentials 0 0 0 0 0 (desired_securebits securebits) true.

Lemma then_do_Ok r next k' : then_do r next = (k', Ok ()) → ∃ k : K, r = (k, Ok ()) ∧ next k = (k', Ok ()).
Proof. destruct r as [k [[]|e]]; [|done]. eauto. Qed.

Lemma same_fds_trans (k1 k2 k3 : K) : same_fds k1 k2 → same_fds k2 k3 → same_fds k1 k3.
Proof. intros F G fd. destruct (F fd), (G fd). split; congruence. Qed.

Lemma drop_privileges_ok s next k k' :
  last_capability s = cap_last → drop_privileges s next k = (k', Ok ()) →
  ∃ k1, same_fds k k1 ∧ stripped (credentials k1) (cr_securebits (credentials k)) ∧ next k1 = (k', Ok ()).
Proof.
  intros Hlast. unfold drop_privileges. intros (k1 & E1 & H)%then_do_Ok. apply then_do_Ok in H as (k2 & E2 & H).
  apply then_do_Ok in H as (k3 & E3 & H). apply then_do_Ok in H as (k4 & E4 & H). apply then_do_Ok in H as (k5 & E5 & Hnext).
  unfold set_locked_securebits in E1. destruct (sys_get_securebits k) as [current|] eqn:Eg; [|done]. apply get_securebits_law in Eg as ->.
  destruct (_ <? 0)%Z; [done|]. destruct (set_securebits_law _ _ _ _ E1) as [F1 S1].
  apply drop_bounding_spec in E2 as [F2 S2]; [|done]. destruct (S2 eq_refl) as (b & Hb & Hbits).
  destruct (ambient_clear_law _ _ _ E3) as [F3 S3]. destruct (no_new_privs_law _ _ _ E4) as [F4 S4]. destruct (capset_law _ _ _ E5) as [F5 S5].
  exists k5. split; [by repeat (eapply same_fds_trans; [done|])|]. split; [|done]. unfold stripped.
  rewrite (S5 eq_refl), (S4 eq_refl), (S3 eq_refl), Hb, (S1 eq_refl). cbn. f_equal. apply Z.bits_inj'. intros i Hi.
  rewrite (Hbits i Hi), Z.bits_0, Hlast. destruct (Z.testbit (cr_bounding (credentials k1)) i) eqn:Et; [|done].
  apply bounding_law in Et. pose proof (cap_last_nonneg (K := K)). rewrite (proj2 (Z.leb_le 0 i)) by lia. cbn. apply negb_false_iff, Z.ltb_lt. lia.
Qed.
End loops.

(** *** The status file *)

Definition field_values (f : cap_field) (lines : list str) : list str :=
  omap (λ line, nv ← split_once x3a line; if bool_decide (nv.1 = cap_name f) then Some nv.2 else None) lines.
Definition field_mask (value : str) : option Z :=
  match split_ascii_whitespace value with [mask] => u64_from_hex mask | _ => None end.
Definition mask_of (s : CapabilityStatus) (f : cap_field) : Z :=
  match f with
  | CapInh => cs_inheritable s | CapPrm => cs_permitted s | CapEff => cs_effective s | CapBnd => cs_bounding s | CapAmb => cs_ambient s
  end.

(** What the lines make of a field that was at [before]. *)
Definition field_result (f : cap_field) (lines : list str) (before after : option Z) : Prop :=
  match before with
  | Some x => field_values f lines = [] ∧ after = Some x
  | None => (field_values f lines = [] ∧ after = None) ∨
            ∃ value x, field_values f lines = [value] ∧ field_mask value = Some x ∧ after = Some x
  end.

Lemma field_of_name_Some name f : field_of_name name = Some f ↔ name = cap_name f.
Proof.
  unfold field_of_name. split.
  - intros [_ H]%find_some. by apply bool_decide_eq_true in H.
  - intros ->. by destruct f.
Qed.
Lemma field_of_name_None name f : field_of_name name = None → name ≠ cap_name f.
Proof. intros Hn E. by rewrite (proj2 (field_of_name_Some name f) E) in Hn. Qed.
#[local] Instance cap_name_inj : Inj (=) (=) cap_name.
Proof. intros [] [] E; try done; by vm_compute in E. Qed.

Lemma parse_capability_field_Ok destination value v :
  parse_capability_field destination value = Ok v ↔ destination = None ∧ field_mask value = Some v.
Proof.
  unfold parse_capability_field, field_mask. destruct destination; [naive_solver|].
  destruct (split_ascii_whitespace value) as [|mask [|]]; [naive_solver| |naive_solver]. destruct (u64_from_hex mask); naive_solver.
Qed.

Lemma parse_status_lines_spec lines found :
  match parse_status_lines lines found with
  | Ok g => ∀ f, field_result f lines (found f) (g f)
  | Err _ => ∃ f, ∀ after, ¬ field_result f lines (found f) after
  end.
Proof.
  revert found. induction lines as [|line lines IH]; intros found; cbn [parse_status_lines].
  { intros f. unfold field_result. destruct (found f); auto. }
  assert (∀ f, field_values f (line :: lines) =
    option_list (nv ← split_once x3a line; if bool_decide (nv.1 = cap_name f) then Some nv.2 else None) ++ field_values f lines) as Hfv.
  { intros f. unfold field_values. cbn. by destruct (nv ← split_once x3a line; _). }
  assert ((∀ f, field_values f (line :: lines) = field_values f lines) →
    match parse_status_lines lines found with Ok g => ∀ f, field_result f (line :: lines) (found f) (g f)
    | Err _ => ∃ f, ∀ after, ¬ field_result f (line :: lines) (found f) after end) as Hskip.
  { intros Hs. assert (∀ f b a, field_result f (line :: lines) b a ↔ field_result f lines b a) as Hfr by (intros; unfold field_result; by rewrite Hs).
    specialize (IH found). destruct (parse_status_lines lines found); [intros f; by apply Hfr|]. destruct IH as [f Hn]. exists f. intros a Hr%Hfr. by apply (Hn a). }
  destruct (split_once x3a line) as [[name value]|]; [|by apply Hskip].
  destruct (field_of_name name) as [f0|] eqn:Ef.
  2:{ apply Hskip. intros f. rewrite Hfv. cbn [mbind option_bind fst snd]. rewrite bool_decide_false by (by apply field_of_name_None). done. }
  apply field_of_name_Some in Ef as ->.
  assert (field_values f0 (line :: lines) = value :: field_values f0 lines) as Hf0
    by (rewrite Hfv; cbn [mbind option_bind fst snd]; by rewrite bool_decide_true).
  assert (∀ f, f ≠ f0 → field_values f (line :: lines) = field_values f lines) as Hne.
  { intros f Hf. rewrite Hfv. cbn [mbind option_bind fst snd]. rewrite bool_decide_false; [done|]. intros E. apply (inj cap_name) in E. done. }
  destruct (parse_capability_field (found f0) value) as [v|e] eqn:Ep; cbn [mbind result_bind].
  2:{ exists f0. intros after. unfold field_result. rewrite Hf0. destruct (found f0) as [x|] eqn:Ex; [naive_solver|].
      intros [[? ?] | (value' & x & [= -> Hnil] & Hm & _)]; [done|].
      assert (parse_capability_field None value' = Ok x) as E by (by apply parse_capability_field_Ok). congruence. }
  apply parse_capability_field_Ok in Ep as [Hnone Hm]. specialize (IH (λ g, if bool_decide (g = f0) then Some v else found g)).
  destruct (parse_status_lines lines _) as [g|e].
  - intros f. specialize (IH f). destruct (decide (f = f0)) as [->|Hf].
    + rewrite bool_decide_true in IH by done. destruct IH as [Hnil Hg]. rewrite Hnone. right. exists value, v. by rewrite Hf0, Hnil.
    + rewrite bool_decide_false in IH by done. unfold field_result in *. by rewrite Hne.
  - destruct IH as [f IH]. exists f. intros after Hr. apply (IH after). destruct (decide (f = f0)) as [->|Hf].
    + rewrite bool_decide_true by done. unfold field_result in Hr. rewrite Hnone, Hf0 in Hr. destruct Hr as [[? _] | (value' & x & [= -> Hnil] & Hx & ->)]; [done|].
      split; [done|]. congruence.
    + rewrite bool_decide_false by done. unfold field_result in *. by rewrite Hne in Hr.
Qed.

(** ** Properties *)

(** C33: the lockdown leaves exactly what it promises, whichever calls the
    kernel supports.  If it succeeds: the standard descriptors and the listed
    ones are untouched; every other descriptor is closed (or, before a
    [Command]'s exec, open as before but marked close-on-exec), given that the
    open descriptors are those the preparation saw or lie below the limit it
    read; every capability set, the bounding and the ambient one too, is empty;
    and [no_new_privs] and the locked secure bits keep it so. *)
Theorem lockdown_exact {K : Type} {HK : Kernel K} {cap_last : Z} {KL : KernelLaws K cap_last} (cloexec : bool) (l : Limits)
    (allowed : list Z) (s : ChildLockdown) (k0 k k' : K) :
  Forall (λ fd, fd ≤ i32_max)%Z allowed → ChildLockdown_prepare l allowed k0 = Ok s →
  (∀ fd, fd_open k fd = true →
     (∃ names, fd_entries l = Ok names ∧ show_uint fd ∈ names) ∨ ∃ limit, descriptor_limit l = Some limit ∧ (fd < limit)%Z) →
  (if cloexec then lockdown_apply_in_pre_exec s k else lockdown_apply s k) = (k', Ok ()) →
  (∀ fd, if ((0 <=? fd) && (fd <? 3))%Z || bool_decide (fd ∈ allowed) then same_fd k k' fd else sealed cloexec k k' fd) ∧
  (∃ bits, credentials k' = mkCredentials 0 0 0 0 0 bits true ∧ Z.land bits LOCKED_SECUREBITS = LOCKED_SECUREBITS ∧
     Z.land bits SECBIT_KEEP_CAPS = 0%Z).
Proof.
  intros Hmax Hprep Hseen Happly. unfold ChildLockdown_prepare, PreExecDescriptorSanitizer_prepare in Hprep.
  destruct (plan_close_ranges allowed) as [ranges|] eqn:Eplan; [|done]. cbn in Hprep.
  destruct (fallback_last_fd l) as [last|] eqn:Elast; [|done]. cbn in Hprep.
  destruct (last_supported_capability k0) as [cap|] eqn:Ecap; [|done]. cbn in Hprep. injection Hprep as <-.
  assert (cap = cap_last) as -> by (eapply (find_last_capability_spec (K := K)); [..|exact Ecap]; [lia|by left|pose proof (cap_last_nonneg (K := K)); lia]).
  assert (∃ k1, same_fds k k1 ∧ stripped (credentials k1) (cr_securebits (credentials k)) ∧ over_ranges cloexec ranges last k1 = (k', Ok ())) as (k1 & F & Hc & Hr).
  { destruct cloexec; unfold lockdown_apply, lockdown_apply_in_pre_exec in Happly; apply drop_privileges_ok in Happly; done. }
  apply fallback_last_fd_spec in Elast as (Hlast & limit & names & Hlimit & Hnames & Hbelow & Hentries).
  assert (∀ fd, fd_open k1 fd = true → fd ≤ last)%Z as Hle.
  { intros fd Ho. rewrite (proj1 (F fd)) in Ho. pose proof (open_range _ _ Ho) as Hr0.
    destruct (Hseen fd Ho) as [(names' & Hn & Hin) | (limit' & Hl & Hlt)].
    - rewrite Hnames in Hn. injection Hn as <-.
      specialize (Hentries (show_uint fd) fd Hin ltac:(apply parse_show_uint; unfold u64_max, i32_max in *; lia)). lia.
    - rewrite Hlimit in Hl. injection Hl as <-. apply Hbelow; lia. }
  pose proof (over_ranges_ok cloexec ranges last k1 Hle) as Hp. rewrite Hr in Hp. destruct Hp as [C O M S]. specialize (S eq_refl).
  split.
  - assert (∀ fd, sealed cloexec k1 k' fd → sealed cloexec k k' fd) as Hsl.
    { intros fd. destruct (F fd) as [E1 E2]. destruct cloexec; cbn; [|done]. rewrite E1. done. }
    assert (∀ fd, same_fd k1 k' fd → same_fd k k' fd) as Hsm.
    { intros fd [? ?]. destruct (F fd) as [E1 E2]. split; congruence. }
    intros fd. destruct (decide (0 ≤ fd ≤ i32_max)%Z) as [Hfd|Hfd].
    + pose proof (plan_close_ranges_spec _ _ Hmax Eplan fd Hfd) as Hin. unfold FIRST_NON_STDIO_FD in Hin.
      destruct (((0 <=? fd) && (fd <? 3))%Z || bool_decide (fd ∈ allowed)) eqn:Eb.
      * apply Hsm, O. rewrite Hin. apply orb_true_iff in Eb as [[_ ?%Z.ltb_lt]%andb_true_iff|?%bool_decide_eq_true]; [lia|tauto].
      * apply Hsl, S, Hin. apply orb_false_iff in Eb as [Ez Ha%bool_decide_eq_false]. rewrite (proj2 (Z.leb_le 0 fd)) in Ez by lia.
        cbn in Ez. apply Z.ltb_ge in Ez. done.
    + assert (∀ k0 : K, fd_open k0 fd = false) as Hcl by (intros kk; destruct (fd_open kk fd) eqn:E; [|done]; by apply open_range in E).
      assert (sealed cloexec k k' fd) as Hse by (destruct cloexec; cbn; rewrite !Hcl; done).
      destruct (_ || _) eqn:Eb; [|done]. exfalso. apply Hfd.
      apply orb_true_iff in Eb as [[?%Z.leb_le ?%Z.ltb_lt]%andb_true_iff|Hin%bool_decide_eq_true]; [unfold i32_max; lia|].
      rewrite Forall_forall in Hmax. split; [|by apply Hmax]. unfold plan_close_ranges, validate_allowed_fds in Eplan.
      destruct (validate_allowed_fds_from None allowed) as [[]|] eqn:Ev; [|done]. apply validate_from_spec in Ev as (_ & Hf & _).
      rewrite Forall_forall in Hf. specialize (Hf fd Hin). unfold FIRST_NON_STDIO_FD in Hf. lia.
  - rewrite C, Hc. eexists. split; [done|]. unfold desired_securebits. split; apply Z.bits_inj'; intros i Hi.
    + rewrite !Z.land_spec, Z.lor_spec, Z.lnot_spec by done. destruct (Z.testbit LOCKED_SECUREBITS i) eqn:E; [|by rewrite andb_false_r].
      rewrite orb_true_r. cbn. destruct (Z.testbit SECBIT_KEEP_CAPS i) eqn:E2; [|done]. exfalso.
      assert (Z.testbit (Z.land LOCKED_SECUREBITS SECBIT_KEEP_CAPS) i = true) as E3 by (by rewrite Z.land_spec, E, E2).
      change (Z.land LOCKED_SECUREBITS SECBIT_KEEP_CAPS) with 0%Z in E3. by rewrite Z.bits_0 in E3.
    + rewrite !Z.land_spec, Z.lnot_spec, Z.bits_0 by done. destruct (Z.testbit SECBIT_KEEP_CAPS i); cbn; by rewrite ?andb_false_r.
Qed.

(** The capability check reads the status file exactly.  It succeeds
    exactly when each of the five fields occurs once with one hexadecimal mask,
    and gives these masks; so it reports "no capabilities" only when the five
    masks are zero. *)
Theorem proc_status_exact (status : str) (s : CapabilityStatus) :
  (parse_proc_status status = Ok s ↔
     ∀ f, ∃ value, field_values f (str_lines status) = [value] ∧ field_mask value = Some (mask_of s f)) ∧
  (caps_is_empty s = true ↔ ∀ f, mask_of s f = 0%Z).
Proof.
  split.
  - unfold parse_proc_status. pose proof (parse_status_lines_spec (str_lines status) (λ _, None)) as Hp.
    destruct (parse_status_lines (str_lines status) (λ _, None)) as [g|e]; cbn.
    + assert ((∀ f, g f = Some (mask_of s f)) ↔ ∀ f, ∃ value, field_values f (str_lines status) = [value] ∧ field_mask value = Some (mask_of s f)) as <-.
      { split; intros Hf f; specialize (Hf f); destruct (Hp f) as [[H1 H2] | (value & x & H1 & H2 & H3)].
        - congruence. - exists value. split; [done|]. congruence.
        - destruct Hf as (value & Hv & _). congruence. - destruct Hf as (value' & Hv & Hm). simplify_eq. congruence. }
      unfold required_capability_field. split.
      * destruct (g CapInh) eqn:E1, (g CapPrm) eqn:E2, (g CapEff) eqn:E3, (g CapBnd) eqn:E4, (g CapAmb) eqn:E5; cbn; try done.
        intros [= <-]. by intros [].
      * intros Hf. rewrite !Hf. cbn. by destruct s.
    + split; [done|]. intros Hf. destruct Hp as [f Hn]. destruct (Hf f) as (value & Hv & Hm). exfalso. apply (Hn (Some (mask_of s f))).
      right. eauto.
  - unfold caps_is_empty. split.
    + rewrite !andb_true_iff, !Z.eqb_eq. intros ((((? & ?) & ?) & ?) & ?) []; done.
    + intros Hf. pose proof (Hf CapInh). pose proof (Hf CapPrm). pose proof (Hf CapEff). pose proof (Hf CapBnd). pose proof (Hf CapAmb).
      cbn in *. rewrite !andb_true_iff, !Z.eqb_eq. done.
Qed.

(** *** A kernel for the witnesses: with or without [close_range] *)

Module SimKernel.
Record sim := mkSim { fds : gmap Z bool; has_close_range : bool; creds : Credentials }.
Definition CAP_LAST : Z := 40.
Definition masked (c : Credentials) : Credentials := with_bounding c (Z.land (cr_bounding c) (Z.ones 41)).
Definition valid_fd (fd : Z) : bool := ((0 <=? fd) && (fd <=? i32_max))%Z.
Definition update_range (a b : Z) (cloexec : bool) (m : gmap Z bool) : gmap Z bool :=
  map_imap (λ (fd : Z) (e : bool), if (a <=? fd)%Z && (fd <=? b)%Z then (if cloexec then Some true else None) else Some e) m.
Definition set_creds (k : sim) (c : Credentials) : sim := mkSim (fds k) (has_close_range k) c.

#[export] Instance kernel : Kernel sim := {
  fd_open k fd := valid_fd fd && bool_decide (is_Some (fds k !! fd));
  fd_cloexec k fd := default false (fds k !! fd);
  credentials k := masked (creds k);
  sys_close_range k a b cloexec :=
    if has_close_range k then (mkSim (update_range a b cloexec (fds k)) true (creds k), Ok ()) else (k, Err 38%Z);
  sys_close k fd :=
    if bool_decide (is_Some (fds k !! fd)) then (mkSim (delete fd (fds k)) (has_close_range k) (creds k), Ok ()) else (k, Err EBADF);
  sys_getfd k fd :=
    if valid_fd fd then match (fds k !! fd : option bool) with Some e => Ok (if (e : bool) then 1 else 0)%Z | None => Err EBADF end else Err EBADF;
  sys_setfd k fd v :=
    if bool_decide (is_Some (fds k !! fd)) then (mkSim (<[fd := Z.testbit v 0]> (fds k)) (has_close_range k) (creds k), Ok ()) else (k, Err EBADF);
  sys_capbset_read k c := if (c <=? CAP_LAST)%Z then Ok (if Z.testbit (cr_bounding (creds k)) c then 1 else 0)%Z else Err EINVAL;
  sys_get_securebits k := Ok (cr_securebits (creds k));
  sys_set_securebits k v :=
    (set_creds k (let c := creds k in
       mkCredentials (cr_bounding c) (cr_ambient c) (cr_effective c) (cr_permitted c) (cr_inheritable c) v (cr_no_new_privs c)), Ok ());
  sys_capbset_drop k cap := (set_creds k (with_bounding (creds k) (Z.clearbit (cr_bounding (creds k)) cap)), Ok ());
  sys_ambient_clear_all k :=
    (set_creds k (let c := creds k in
       mkCredentials (cr_bounding c) 0 (cr_effective c) (cr_permitted c) (cr_inheritable c) (cr_securebits c) (cr_no_new_privs c)), Ok ());
  sys_set_no_new_privs k :=
    (set_creds k (let c := creds k in
       mkCredentials (cr_bounding c) (cr_ambient c) (cr_effective c) (cr_permitted c) (cr_inheritable c) (cr_securebits c) true), Ok ());
  sys_capset_empty k :=
    (set_creds k (let c := creds k in mkCredentials (cr_bounding c) (cr_ambient c) 0 0 0 (cr_securebits c) (cr_no_new_privs c)), Ok ());
}.

#[export] Instance kernel_laws : KernelLaws sim CAP_LAST.
Proof.
  split; cbn.
  - intros k fd [Hv _]%andb_true_iff. unfold valid_fd in Hv. apply andb_true_iff in Hv as [?%Z.leb_le ?%Z.leb_le]. lia.
  - intros k a b cloexec k' r. destruct (has_close_range k); intros [= <- <-]; (split; [done|]); intros fd; cbn [is_ok andb]; [|by split].
    unfold sealed, same_fd. cbn. unfold update_range. rewrite !map_lookup_imap. destruct (fds k !! fd) as [e|] eqn:E; cbn;
      destruct (_ && _)%Z; cbn; try done; destruct cloexec; cbn; rewrite ?andb_false_r; try done.
  - intros k fd k' r. case_bool_decide as Hs; intros [= <- <-]; (split_and!; [done| | |]).
    + intros fd' Hne. split; cbn; by rewrite lookup_delete_ne.
    + cbn. rewrite lookup_delete_eq, bool_decide_false by (by intros []). by rewrite andb_false_r.
    + intros _. cbn. rewrite lookup_delete_eq, bool_decide_false by (by intros []). by rewrite andb_false_r.
    + by split.
    + by rewrite bool_decide_false.
    + discriminate.
  - intros k fd. destruct (valid_fd fd); [|done]. destruct (fds k !! fd) as [e|] eqn:E; cbn.
    + split; [done|]. by destruct e.
    + done.
  - intros k fd v k' r. case_bool_decide as Hs; intros [= <- <-]; (split_and!; [done| | |]).
    + intros fd' Hne. split; cbn; by rewrite lookup_insert_ne.
    + cbn. rewrite lookup_insert_eq, !bool_decide_true by done. done.
    + intros _. cbn. by rewrite lookup_insert_eq.
    + by split.
    + by rewrite bool_decide_false.
    + discriminate.
  - unfold CAP_LAST. lia.
  - intros k c. destruct (Z.leb_spec c CAP_LAST); split; try done; lia.
  - intros k c Hc. assert (0 ≤ c)%Z by (destruct (Z.lt_ge_cases c 0); [by rewrite Z.testbit_neg_r in Hc|done]). split; [done|].
    rewrite Z.land_spec in Hc. apply andb_true_iff in Hc as [_ Hc]. rewrite Z.testbit_ones_nonneg in Hc by lia. apply Z.ltb_lt in Hc. unfold CAP_LAST. lia.
  - by intros k v [= <-].
  - intros k v k' r [= <- <-]. by split.
  - intros k cap k' r [= <- <-]. split; [by split|]. intros _. cbn. unfold masked, with_bounding. cbn. f_equal. apply Z.bits_inj'. intros i Hi.
    rewrite Z.land_spec. destruct (decide (i = cap)) as [->|Hne]; [by rewrite !Z.clearbit_eq|].
    destruct (decide (0 ≤ cap)%Z); [|by rewrite !Z.clearbit_neq, Z.land_spec by lia]. by rewrite !Z.clearbit_neq, Z.land_spec by lia.
  - intros k k' r [= <- <-]. by split.
  - intros k k' r [= <- <-]. by split.
  - intros k k' r [= <- <-]. by split.
Qed.
End SimKernel.

Section witnesses.
Import SimKernel.
Definition sample_process (close_range : bool) : sim :=
  mkSim (list_to_map [(0%Z, false); (1%Z, false); (2%Z, false); (3%Z, false); (5%Z, false); (9%Z, true)]) close_range
    (mkCredentials (Z.ones 41) 1 (Z.ones 41) (Z.ones 41) 0 16 false).
Definition sample_limits : Limits :=
  mkLimits (Ok (Some 16%Z)) (Err 2%Z) (Ok (show_uint <$> [0; 1; 2; 3; 5; 9]%Z)).
Definition sample_lockdown : result SecurityError ChildLockdown := ChildLockdown_prepare sample_limits [5%Z] (sample_process false).

Lemma sample_seen b fd : fd_open (sample_process b) fd = true →
  (∃ names, fd_entries sample_limits = Ok names ∧ show_uint fd ∈ names) ∨ ∃ limit, descriptor_limit sample_limits = Some limit ∧ (fd < limit)%Z.
Proof.
  intros Ho. right. exists 16%Z. split; [done|]. unfold fd_open, kernel in Ho. apply andb_true_iff in Ho as [_ Ho%bool_decide_eq_true]. unfold sample_process, fds in Ho.
  destruct Ho as [e He]. apply (elem_of_list_to_map_2 (M := gmap Z)) in He. rewrite !elem_of_cons in He.
  destruct He as [E|[E|[E|[E|[E|[E|E]]]]]]; try (injection E as -> _; lia). by apply elem_of_nil in E.
Qed.

Lemma lockdown_exact_witness :
  ∃ s k', sample_lockdown = Ok s ∧ lockdown_apply s (sample_process false) = (k', Ok ()) ∧
    fd_open k' 5 = true ∧ fd_open k' 3 = false ∧ fd_open k' 9 = false ∧ cr_bounding (credentials k') = 0%Z.
Proof.
  assert (match sample_lockdown with Ok s => is_ok (lockdown_apply s (sample_process false)).2 | Err _ => false end = true) as Hok
    by (vm_compute; reflexivity).
  assert (fd_open (sample_process false) 5 = true) as H5 by (vm_compute; reflexivity).
  destruct sample_lockdown as [s|] eqn:Es; [|discriminate]. exists s.
  destruct (lockdown_apply s (sample_process false)) as [k' [[]|]] eqn:El; [|discriminate]. exists k'. split; [reflexivity|]. split; [reflexivity|].
  destruct (lockdown_exact false sample_limits [5%Z] s (sample_process false) (sample_process false) k'
    ltac:(repeat constructor; discriminate) Es (sample_seen false) El) as [Hfd (bits & Hc & _)].
  split; [rewrite (proj1 (Hfd 5%Z)); exact H5|]. split; [exact (Hfd 3%Z)|]. split; [exact (Hfd 9%Z)|]. rewrite Hc. reflexivity.
Defined.

Example proc_status_sample :
  parse_proc_status (bs "Name:	sh" ++ [x0a] ++ bs "CapInh:	0000000000000000" ++ [x0a] ++ bs "CapPrm:	0" ++ [x0a] ++
    bs "CapEff:	0" ++ [x0a] ++ bs "CapBnd:	000001ffffffffff" ++ [x0a] ++ bs "CapAmb:	0") = Ok (mkCapStatus 0 0 0 (Z.ones 41) 0).
Proof. vm_compute. reflexivity. Qed.
End witnesses.
