(* ===== verification/Routing.v ===== *)
(** * Routing of the private namespaces (crates/hiloop-interceptor/src/netns/routing.rs)

    The commands that set up and take down the link between the workload's and
    the gateway's namespace, the text of the nftables script that is to capture
    what the workload sends (what nftables does with it is not modelled), and
    the reading of its counters. *)
From Stdlib Require Import Strings.Byte.
From S2P Require Import Prelude Text Net.

Definition WORKLOAD_INTERFACE : str := bs "hlwork0".
Definition GATEWAY_INTERFACE : str := bs "hlgate0".
Definition LINK_MTU : Z := 65520.
Definition TPROXY_MARK : str := bs "0x1".  (* [{TPROXY_MARK:#x}] *)
Definition TPROXY_TABLE : Z := 100.
Definition TPROXY_RULE_PRIORITY : Z := 100.
Definition v4_of (a b c d : Z) : Ipv4Addr := mkIpv4 (byte_of_Z a) (byte_of_Z b) (byte_of_Z c) (byte_of_Z d).
Definition seg_of (z : Z) : segment := mkSeg (byte_of_Z (z / 256)) (byte_of_Z z).
Definition WORKLOAD_IPV4 : Ipv4Addr := v4_of 169 254 254 2.
Definition GATEWAY_IPV4 : Ipv4Addr := v4_of 169 254 254 1.
Definition private_v6 (last : Z) : Ipv6Addr :=
  mkIpv6 (seg_of 64768) (seg_of 26729) (seg_of 27759) (seg_of 28528) (seg_of 0) (seg_of 0) (seg_of 0) (seg_of last).
Definition WORKLOAD_IPV6 : Ipv6Addr := private_v6 2.
Definition GATEWAY_IPV6 : Ipv6Addr := private_v6 1.
Definition IPV4_PREFIX_LENGTH : Z := 30.
Definition IPV6_PREFIX_LENGTH : Z := 64.
Definition NFT_TABLE : str := bs "hiloop_capture".
Definition IPV4_FRAGMENT_COUNTER : str := bs "udp_fragments_v4".
Definition IPV6_FRAGMENT_COUNTER : str := bs "udp_fragments_v6".
Definition IPV4_HEADER_LENGTH : Z := 20.
Definition IPV6_HEADER_LENGTH : Z := 40.
Definition UDP_HEADER_LENGTH : Z := 8.

Example gateway_addresses_shown : (fmt_ipv4 GATEWAY_IPV4, fmt_ipv6 GATEWAY_IPV6) = (bs "169.254.254.1", bs "fd00:6869:6c6f:6f70::1").
Proof. vm_compute. reflexivity. Qed.

(** ** Commands *)

Inductive NetworkNamespace := GatewayNs | WorkloadNs.
#[export] Instance NetworkNamespace_eq_dec : EqDecision NetworkNamespace.
Proof. solve_decision. Defined.
Record NamespacedCommand := mkCommand { cmd_namespace : NetworkNamespace; cmd_program : str; cmd_args : list str }.
#[export] Instance NamespacedCommand_eq_dec : EqDecision NamespacedCommand.
Proof. solve_decision. Defined.
Definition gateway_command (program : string) (args : list str) : NamespacedCommand := mkCommand GatewayNs (bs program) args.
Definition workload_command (program : string) (args : list str) : NamespacedCommand := mkCommand WorkloadNs (bs program) args.

Definition retained_for_ipv4_only (c : NamespacedCommand) : bool :=
  negb (bool_decide (head (cmd_args c) = Some (bs "-6")))
  || (bool_decide (cmd_namespace c = GatewayNs) && bool_decide (cmd_args c !! 1 = Some (bs "address"))).
Definition retain_families (enable_ipv6 : bool) (commands : list NamespacedCommand) : list NamespacedCommand :=
  if enable_ipv6 then commands else filter (λ c, retained_for_ipv4_only c = true) commands.

Definition cidr (address : str) (prefix : Z) : str := address ++ bs "/" ++ show_uint prefix.
Definition words (l : list string) : list str := bs <$> l.

Definition setup_all (workload_pid : Z) : list NamespacedCommand :=
  let gateway_ipv4 := fmt_ipv4 GATEWAY_IPV4 in
  let gateway_ipv6 := fmt_ipv6 GATEWAY_IPV6 in
  let gateway_ipv4_cidr := cidr gateway_ipv4 IPV4_PREFIX_LENGTH in
  let workload_ipv4_cidr := cidr (fmt_ipv4 WORKLOAD_IPV4) IPV4_PREFIX_LENGTH in
  let gateway_ipv6_cidr := cidr gateway_ipv6 IPV6_PREFIX_LENGTH in
  let workload_ipv6_cidr := cidr (fmt_ipv6 WORKLOAD_IPV6) IPV6_PREFIX_LENGTH in
  let mtu := show_uint LINK_MTU in
  let table := show_uint TPROXY_TABLE in
  let priority := show_uint TPROXY_RULE_PRIORITY in
  [ gateway_command "ip" (words ["link"; "add"] ++ [GATEWAY_INTERFACE] ++ words ["type"; "veth"; "peer"; "name"] ++ [WORKLOAD_INTERFACE]);
    gateway_command "ip" (words ["link"; "set"; "dev"] ++ [GATEWAY_INTERFACE; bs "mtu"; mtu]);
    gateway_command "ip" (words ["link"; "set"; "dev"] ++ [WORKLOAD_INTERFACE; bs "mtu"; mtu]);
    gateway_command "ip" (words ["link"; "set"; "dev"] ++ [WORKLOAD_INTERFACE; bs "netns"; show_uint workload_pid]);
    gateway_command "ip" (words ["link"; "set"; "dev"; "lo"; "up"]);
    gateway_command "ip" (words ["-4"; "address"; "add"] ++ [gateway_ipv4_cidr; bs "dev"; GATEWAY_INTERFACE]);
    gateway_command "ip" (words ["-6"; "address"; "add"] ++ [gateway_ipv6_cidr; bs "dev"; GATEWAY_INTERFACE; bs "nodad"]);
    gateway_command "ip" (words ["link"; "set"; "dev"] ++ [GATEWAY_INTERFACE; bs "up"]);
    workload_command "ip" (words ["link"; "set"; "dev"; "lo"; "up"]);
    workload_command "ip" (words ["-4"; "address"; "add"] ++ [workload_ipv4_cidr; bs "dev"; WORKLOAD_INTERFACE]);
    workload_command "ip" (words ["-6"; "address"; "add"] ++ [workload_ipv6_cidr; bs "dev"; WORKLOAD_INTERFACE; bs "nodad"]);
    workload_command "ip" (words ["link"; "set"; "dev"] ++ [WORKLOAD_INTERFACE; bs "up"]);
    workload_command "ip" (words ["-4"; "route"; "add"; "default"; "via"] ++ [gateway_ipv4; bs "dev"; WORKLOAD_INTERFACE]);
    workload_command "ip" (words ["-6"; "route"; "add"; "default"; "via"] ++ [gateway_ipv6; bs "dev"; WORKLOAD_INTERFACE]);
    gateway_command "ip" (words ["-4"; "route"; "add"; "local"; "0.0.0.0/0"; "dev"; "lo"; "table"] ++ [table]);
    gateway_command "ip" (words ["-4"; "rule"; "add"; "fwmark"] ++ [TPROXY_MARK; bs "lookup"; table; bs "priority"; priority]);
    gateway_command "ip" (words ["-6"; "route"; "add"; "local"; "::/0"; "dev"; "lo"; "table"] ++ [table]);
    gateway_command "ip" (words ["-6"; "rule"; "add"; "fwmark"] ++ [TPROXY_MARK; bs "lookup"; table; bs "priority"; priority]);
    gateway_command "nft" (words ["-f"; "-"]) ].
Definition setup_commands (workload_pid : Z) (enable_ipv6 : bool) : list NamespacedCommand :=
  retain_families enable_ipv6 (setup_all workload_pid).

Definition teardown_all : list NamespacedCommand :=
  let table := show_uint TPROXY_TABLE in
  let priority := show_uint TPROXY_RULE_PRIORITY in
  [ gateway_command "ip" (words ["link"; "delete"; "dev"] ++ [GATEWAY_INTERFACE]);
    gateway_command "nft" (words ["delete"; "table"; "inet"] ++ [NFT_TABLE]);
    gateway_command "ip" (words ["-6"; "rule"; "del"; "fwmark"] ++ [TPROXY_MARK; bs "lookup"; table; bs "priority"; priority]);
    gateway_command "ip" (words ["-6"; "route"; "del"; "local"; "::/0"; "dev"; "lo"; "table"] ++ [table]);
    gateway_command "ip" (words ["-4"; "rule"; "del"; "fwmark"] ++ [TPROXY_MARK; bs "lookup"; table; bs "priority"; priority]);
    gateway_command "ip" (words ["-4"; "route"; "del"; "local"; "0.0.0.0/0"; "dev"; "lo"; "table"] ++ [table]) ].
Definition teardown_commands (enable_ipv6 : bool) : list NamespacedCommand := retain_families enable_ipv6 teardown_all.

(** ** The script *)

Definition line (indent : nat) (text : str) : str := concat (replicate indent (bs "    ")) ++ text ++ [x0a].
Definition quoted (s : str) : str := [x22] ++ s ++ [x22].

Definition nft_script (intercept_port : Z) : str :=
  let from := bs "iifname " ++ quoted GATEWAY_INTERFACE ++ bs " " in
  let port := show_uint intercept_port in
  let mark := bs " meta mark set " ++ TPROXY_MARK ++ bs " accept" in
  line 0 (bs "table inet " ++ NFT_TABLE ++ bs " {")
  ++ line 1 (bs "counter " ++ IPV4_FRAGMENT_COUNTER ++ bs " {") ++ line 1 (bs "}")
  ++ line 1 (bs "counter " ++ IPV6_FRAGMENT_COUNTER ++ bs " {") ++ line 1 (bs "}")
  ++ line 1 (bs "chain fragments {")
  ++ line 2 (bs "type filter hook prerouting priority -450; policy accept;")
  ++ line 2 (from ++ bs "meta nfproto ipv4 meta l4proto udp ip frag-off & 0x3fff != 0 counter name " ++ IPV4_FRAGMENT_COUNTER ++ bs " drop")
  ++ line 2 (from ++ bs "meta nfproto ipv6 meta l4proto udp exthdr frag exists counter name " ++ IPV6_FRAGMENT_COUNTER ++ bs " drop")
  ++ line 1 (bs "}")
  ++ line 1 (bs "chain prerouting {")
  ++ line 2 (bs "type filter hook prerouting priority mangle; policy accept;")
  ++ line 2 (from ++ bs "ip daddr " ++ fmt_ipv4 GATEWAY_IPV4 ++ bs " tcp dport 53 accept")
  ++ line 2 (from ++ bs "ip6 daddr " ++ fmt_ipv6 GATEWAY_IPV6 ++ bs " tcp dport 53 accept")
  ++ line 2 (from ++ bs "ip daddr " ++ fmt_ipv4 GATEWAY_IPV4 ++ bs " udp dport 53 accept")
  ++ line 2 (from ++ bs "ip6 daddr " ++ fmt_ipv6 GATEWAY_IPV6 ++ bs " udp dport 53 accept")
  ++ line 2 (from ++ bs "meta l4proto tcp th dport 53 drop")
  ++ line 2 (from ++ bs "meta l4proto udp th dport 53 drop")
  ++ line 2 (from ++ bs "meta l4proto udp tproxy to :" ++ port ++ mark)
  ++ line 2 (from ++ bs "meta l4proto tcp socket transparent 1" ++ mark)
  ++ line 2 (from ++ bs "meta l4proto tcp tproxy to :" ++ port ++ mark)
  ++ line 1 (bs "}")
  ++ line 0 (bs "}").

Record RoutingPlan := mkPlan { rp_setup : list NamespacedCommand; rp_teardown : list NamespacedCommand; rp_nft_script : str }.
Definition RoutingPlan_new (workload_pid intercept_port : Z) (enable_ipv6 : bool) : RoutingPlan :=
  mkPlan (setup_commands workload_pid enable_ipv6) (teardown_commands enable_ipv6) (nft_script intercept_port).

(** ** Counters and payloads *)

Inductive CounterError := DuplicateCount | OmittedCount | InvalidCount (value : str) | NoCount.
Fixpoint counter_packets (tokens : list str) (packets : option Z) : result CounterError Z :=
  match tokens with
  | [] => match packets with Some n => Ok n | None => Err NoCount end
  | token :: tokens =>
      if negb (bool_decide (token = bs "packets")) then counter_packets tokens packets
      else match packets with
           | Some _ => Err DuplicateCount
           | None =>
               match tokens with
               | [] => Err OmittedCount
               | value :: tokens =>
                   match parse_uint u64_max value with
                   | Some n => counter_packets tokens (Some n)
                   | None => Err (InvalidCount value)
                   end
               end
           end
  end.
Definition parse_counter_packets (output : str) : result CounterError Z := counter_packets (split_ascii_whitespace output) None.

Inductive IpFamily := FamilyIpv4 | FamilyIpv6.
Definition header_length (f : IpFamily) : Z := match f with FamilyIpv4 => IPV4_HEADER_LENGTH | FamilyIpv6 => IPV6_HEADER_LENGTH end.
Definition max_udp_payload (f : IpFamily) : Z := LINK_MTU - header_length f - UDP_HEADER_LENGTH.

(** ** Properties *)

(** What a teardown command undoes. *)
Definition undoes (add del : NamespacedCommand) : Prop :=
  cmd_namespace del = cmd_namespace add ∧ cmd_program del = cmd_program add ∧
  ∃ family object rest, cmd_args add = [family; object; bs "add"] ++ rest ∧ cmd_args del = [family; object; bs "del"] ++ rest.
Definition persistent (c : NamespacedCommand) : bool :=
  bool_decide (cmd_namespace c = GatewayNs) &&
  match cmd_args c with
  | _ :: object :: verb :: _ => bool_decide (verb = bs "add") && (bool_decide (object = bs "rule") || bool_decide (object = bs "route"))
  | _ => false
  end.

(** The teardown undoes the setup, and an IPv4-only run has no IPv6 path.
    The policy routes and rules the gateway adds are exactly those the teardown
    deletes, in the opposite order; the link it adds and the nft table are
    deleted too; without IPv6, no IPv6 route, rule or workload address is
    configured and every IPv4 command of the dual-stack plan stays. *)
Theorem teardown_undoes_setup (workload_pid : Z) (enable_ipv6 : bool) :
  Forall2 undoes (filter (λ c, persistent c = true) (setup_commands workload_pid enable_ipv6))
    (reverse (drop 2 (teardown_commands enable_ipv6))) ∧
  take 2 (teardown_commands enable_ipv6) =
    [gateway_command "ip" (words ["link"; "delete"; "dev"] ++ [GATEWAY_INTERFACE]); gateway_command "nft" (words ["delete"; "table"; "inet"] ++ [NFT_TABLE])] ∧
  (enable_ipv6 = false → ∀ c, c ∈ setup_commands workload_pid enable_ipv6 → head (cmd_args c) = Some (bs "-6") →
     cmd_namespace c = GatewayNs ∧ cmd_args c !! 1 = Some (bs "address")) ∧
  (∀ c, c ∈ setup_commands workload_pid true → head (cmd_args c) ≠ Some (bs "-6") → c ∈ setup_commands workload_pid enable_ipv6).
Proof.
  split_and!.
  - destruct enable_ipv6; vm_compute; repeat constructor; eexists _, _, _; split; reflexivity.
  - by destruct enable_ipv6.
  - intros -> c Hin Hh. unfold setup_commands, retain_families in Hin. apply list_elem_of_filter in Hin as [Hr _].
    unfold retained_for_ipv4_only in Hr. rewrite bool_decide_true in Hr by done. cbn in Hr. by apply andb_true_iff in Hr as [?%bool_decide_eq_true ?%bool_decide_eq_true].
  - intros c Hin Hh. unfold setup_commands, retain_families in *. destruct enable_ipv6; [done|]. apply list_elem_of_filter. split; [|done].
    unfold retained_for_ipv4_only. by rewrite bool_decide_false.
Qed.

(** The largest datagram fits the link, and one byte more does not. *)
Lemma max_udp_payload_exact f payload :
  (payload + UDP_HEADER_LENGTH + header_length f <= LINK_MTU)%Z ↔ (payload ≤ max_udp_payload f)%Z.
Proof. unfold max_udp_payload. lia. Qed.

(** A counter's output has one count, which is read whatever surrounds it. *)
Lemma parse_counter_packets_Ok tokens found n :
  counter_packets tokens found = Ok n →
  found = Some n ∧ bs "packets" ∉ tokens ∨
  found = None ∧ ∃ before value after, tokens = before ++ [bs "packets"; value] ++ after ∧ parse_uint u64_max value = Some n ∧
    bs "packets" ∉ before ∧ bs "packets" ∉ after.
Proof.
  remember (length tokens) as k eqn:Hk. revert tokens found Hk. induction (lt_wf k) as [k _ IH]. intros tokens found ->.
  destruct tokens as [|token tokens]; cbn [counter_packets].
  { destruct found; [|done]. intros [= ->]. left. split; [done|]. by intros ?%elem_of_nil. }
  case_bool_decide as Ht; cbn [negb].
  - subst token. destruct found; [done|]. destruct tokens as [|value tokens]; [done|]. destruct (parse_uint u64_max value) as [v|] eqn:Ev; [|done].
    intros Hc. destruct (IH (length tokens) ltac:(cbn; lia) tokens (Some v) eq_refl Hc) as [[[= ->] Hn] | [? _]]; [|done].
    right. split; [done|]. exists [], value, tokens. split_and!; [done..|by intros ?%elem_of_nil|done].
  - intros Hc. destruct (IH (length tokens) ltac:(cbn; lia) tokens found eq_refl Hc) as [[-> Hn] | (-> & before & value & after & -> & Hv & Hb & Ha)].
    + left. split; [done|]. by intros [?|?]%elem_of_cons.
    + right. split; [done|]. exists (token :: before), value, after. split_and!; [done..| |done]. by intros [?|?]%elem_of_cons.
Qed.
