(* ===== verification/DnsRelay.v ===== *)
(** * DNS relaying (crates/hiloop-interceptor/src/netns/resolver.rs, dns_relay.rs)

    A query of the workload goes to the gateway's resolver, through one private
    stream to the host's namespace, and to the host's configured resolvers; its
    answer comes back the same way and becomes DNS evidence.

    - The host side: [parse_nameservers], [workload_resolv_conf], one query to
      one resolver over UDP or TCP ([query_udp], [query_tcp]), [resolver_query]
      over the list, [probe_resolver].
    - The private stream: [client_query] writes a request and reads its reply,
      [serve_host_connection] reads requests and writes replies; both work on
      the bytes in transit, which a [Link] holds.
    - The gateway: its UDP and TCP listeners share the client and the tracker;
      [gateway_step] interleaves the queries and the deliveries of their answers.

    The network is an interface ([DnsNet]).  An I/O error is its text: no
    caller looks at its kind. *)
From Stdlib Require Import Strings.Byte.
From S2P Require Import Prelude Text Utf8 Net Dns Routing.

Definition DNS_QUERY_ID : Z := 26729.  (* 0x6869 *)
Definition DNS_PORT : Z := 53.
Inductive DnsTransport := OverUdp | OverTcp.
#[export] Instance dns_transport_eq_dec : EqDecision DnsTransport.
Proof. solve_decision. Defined.

(** ** The resolver configuration *)

(** [line.split_once('#').map_or(line, |(value, _)| value).trim()] *)
Definition directive (line : str) : str := trim (match split_once x23 line with Some (value, _) => value | None => line end).

Inductive NameserverError :=
| MissingAddress | TrailingFields | InvalidNameserver (address : str) | NoNameserver.

Fixpoint nameservers_of (directives : list str) : result NameserverError (list IpAddr) :=
  match directives with
  | [] => Ok []
  | line :: rest =>
      match split_ascii_whitespace line with
      | keyword :: fields =>
          if negb (bool_decide (keyword = bs "nameserver")) then nameservers_of rest
          else match fields with
               | [] => Err MissingAddress
               | [address] =>
                   match IpAddr_from_str address with
                   | None => Err (InvalidNameserver address)
                   | Some ip => cons ip <$> nameservers_of rest
                   end
               | _ => Err TrailingFields
               end
      | [] => nameservers_of rest
      end
  end.
Definition parse_nameservers (contents : str) : result NameserverError (list IpAddr) :=
  match nameservers_of (directive <$> str_lines contents) with
  | Ok [] => Err NoNameserver
  | r => r
  end.

Definition kept_directive (d : str) : bool :=
  match split_ascii_whitespace d with
  | keyword :: _ => bool_decide (keyword = bs "search") || bool_decide (keyword = bs "domain") || bool_decide (keyword = bs "options")
  | [] => false
  end.
Definition unlines (ls : list str) : str := concat ((λ l, l ++ [x0a]) <$> ls).
Definition workload_resolv_conf (contents : str) : str :=
  unlines [bs "# generated by hiloop-interceptor"; bs "nameserver " ++ fmt_ipv4 GATEWAY_IPV4; bs "nameserver " ++ fmt_ipv6 GATEWAY_IPV6] ++
  unlines (filter (λ d, kept_directive d = true) (directive <$> str_lines contents)).

Record ResolverConfig := mkConfig { rc_resolvers : list IpAddr; rc_workload_contents : str }.
Definition ResolverConfig_parse (contents : str) : result NameserverError ResolverConfig :=
  resolvers ← parse_nameservers contents;
  Ok (mkConfig resolvers (workload_resolv_conf contents)).

(** ** One query to one resolver *)

Definition response_bit (hi lo : byte) : bool := negb (Z.land (u16_from_be_bytes hi lo) DNS_RESPONSE =? 0)%Z.

Definition validate_transaction (query response : str) : result str unit :=
  if bool_decide (length query < 2) || bool_decide (length response < 2) || negb (bool_decide (take 2 query = take 2 response)) then
    Err (bs "DNS response transaction id does not match the relayed query")
  else match response with
       | _ :: _ :: hi :: lo :: _ => if response_bit hi lo then Ok tt else Err (bs "DNS relay received a query instead of a response")
       | _ => Err (bs "DNS relay received a query instead of a response")
       end.

(** The network, as far as a query sees it.  [udp_exchange]: bind, connect, send
    and receive one datagram, with the number of bytes sent; [tcp_exchange]:
    connect, write the bytes, and the bytes the server sends until the stream
    ends; [None] when the time is over first. *)
Class DnsNet (W : Type) := {
  udp_exchange : W → IpAddr → str → W * option (result str (nat * str));
  tcp_connect : W → IpAddr → W * option (result str unit);
  tcp_exchange : W → IpAddr → str → W * option (result str str);
}.

Definition early_eof : str := bs "early eof".
Definition not_u16 : str := bs "out of range integral type conversion attempted".
Definition u16_len (s : str) : option str :=
  if (Z.of_nat (length s) <=? u16_max)%Z then Some (u16_to_be_bytes (Z.of_nat (length s))) else None.

(** [read_u16] and [read_exact] on the bytes that came. *)
Definition read_framed (s : str) : option (str * str) :=
  match s with
  | hi :: lo :: rest =>
      let n := Z.to_nat (u16_from_be_bytes hi lo) in
      if bool_decide (length rest < n) then None else Some (take n rest, drop n rest)
  | _ => None
  end.

Section resolver.
Context {W : Type} `{DnsNet W}.

Definition query_udp (w : W) (resolver : IpAddr) (query : str) : W * result str str :=
  match udp_exchange w resolver query with
  | (w, None) => (w, Err (bs "UDP DNS relay timed out"))
  | (w, Some (Err e)) => (w, Err e)
  | (w, Some (Ok (sent, datagram))) =>
      if negb (bool_decide (sent = length query)) then (w, Err (bs "UDP DNS query was partially sent"))
      else
        let response := take (Z.to_nat u16_max) datagram in
        (w, validate_transaction query response ≫= λ _, Ok response)
  end.

Definition query_tcp (w : W) (resolver : IpAddr) (query : str) : W * result str str :=
  match tcp_connect w resolver with
  | (w, None) => (w, Err (bs "TCP DNS relay timed out"))
  | (w, Some (Err e)) => (w, Err e)
  | (w, Some (Ok _)) =>
      match u16_len query with
      | None => (w, Err not_u16)
      | Some length =>
          match tcp_exchange w resolver (length ++ query) with
          | (w, None) => (w, Err (bs "TCP DNS relay timed out"))
          | (w, Some (Err e)) => (w, Err e)
          | (w, Some (Ok received)) =>
              match read_framed received with
              | None => (w, Err early_eof)
              | Some (response, _) => (w, validate_transaction query response ≫= λ _, Ok response)
              end
          end
      end
  end.

Definition query_one (w : W) (transport : DnsTransport) (resolver : IpAddr) (query : str) : W * result str str :=
  match transport with OverUdp => query_udp w resolver query | OverTcp => query_tcp w resolver query end.

Fixpoint query_from (w : W) (resolvers : list IpAddr) (transport : DnsTransport) (query : str) (diagnostics : list str)
    : W * result str str :=
  match resolvers with
  | [] =>
      (w, Err (bs "no configured resolver answered the DNS relay query (" ++ join (bs "; ") diagnostics ++ bs ")"))
  | resolver :: rest =>
      match query_one w transport resolver query with
      | (w, Ok response) => (w, Ok response)
      | (w, Err error) => query_from w rest transport query (diagnostics ++ [fmt_socket_addr resolver DNS_PORT ++ bs ": " ++ error])
      end
  end.
Definition resolver_query (w : W) (resolvers : list IpAddr) (transport : DnsTransport) (query : str) : W * result str str :=
  query_from w resolvers transport query [].

(** The startup probe. *)
Definition dns_query : str :=
  u16_to_be_bytes DNS_QUERY_ID ++ u16_to_be_bytes 256 ++ u16_to_be_bytes 1 ++ replicate 6 x00 ++
  concat ((λ label, byte_of_Z (Z.of_nat (length label)) :: label) <$> [bs "example"; bs "com"]) ++
  [x00] ++ u16_to_be_bytes 1 ++ u16_to_be_bytes 1.

Definition validate_response (response : str) : result str unit :=
  match response with
  | a :: b :: hi :: lo :: _ =>
      if bool_decide (length response < 12) then Err (bs "DNS response is shorter than its header")
      else if negb (u16_from_be_bytes a b =? DNS_QUERY_ID)%Z then Err (bs "DNS response transaction id does not match")
      else if response_bit hi lo then Ok tt else Err (bs "DNS resolver returned a query instead of a response")
  | _ => Err (bs "DNS response is shorter than its header")
  end.

Definition probe_one (w : W) (transport : DnsTransport) (resolver : IpAddr) (query : str) : W * result str unit :=
  let '(w, r) := query_one w transport resolver query in (w, r ≫= validate_response).
Definition display_result (r : result str unit) : str := match r with Ok _ => bs "ok" | Err e => e end.

Fixpoint probe_from (w : W) (resolvers : list IpAddr) (diagnostics : list str) : W * result str unit :=
  match resolvers with
  | [] => (w, Err (bs "no configured resolver answered both UDP and TCP probes (" ++ join (bs "; ") diagnostics ++ bs ")"))
  | resolver :: rest =>
      let '(w, udp) := probe_one w OverUdp resolver dns_query in
      let '(w, tcp) := probe_one w OverTcp resolver dns_query in
      if is_ok udp && is_ok tcp then (w, Ok tt)
      else probe_from w rest (diagnostics ++
             [fmt_socket_addr resolver DNS_PORT ++ bs ": udp=" ++ display_result udp ++ bs ", tcp=" ++ display_result tcp])
  end.
(** After the file was read. *)
Definition probe_resolver (w : W) (contents : str) : W * result (NameserverError + str) unit :=
  match parse_nameservers contents with
  | Err e => (w, Err (inl e))
  | Ok resolvers => let '(w, r) := probe_from w resolvers [] in (w, map_err inr r)
  end.

(** ** The private stream *)

Definition RELAY_PROTOCOL_VERSION : byte := x01.
Definition RELAY_STATUS_OK : byte := x00.
Definition RELAY_STATUS_ERROR : byte := x01.
Definition MAX_ERROR_BYTES : nat := Z.to_nat 1024.

Definition transport_byte (t : DnsTransport) : byte := match t with OverUdp => x00 | OverTcp => x01 end.

(** What the host's loop makes of the bytes it has: a whole request, a wait for
    more, or an error. *)
Inductive host_read :=
| ReadRequest (transport : DnsTransport) (query rest : str)
| ReadMore
| ReadError (error : str).
Definition host_request (input : str) : host_read :=
  match input with
  | [] => ReadMore
  | version :: input =>
      if negb (bool_decide (version = RELAY_PROTOCOL_VERSION)) then ReadError (bs "unsupported host DNS relay protocol version")
      else match input with
           | [] => ReadMore
           | t :: input =>
               match (if bool_decide (t = x00) then Some OverUdp else if bool_decide (t = x01) then Some OverTcp else None) with
               | None => ReadError (bs "host DNS relay received an unknown transport")
               | Some transport =>
                   match input with
                   | hi :: lo :: rest =>
                       if (u16_from_be_bytes hi lo =? 0)%Z then ReadError (bs "host DNS relay received an empty query")
                       else match read_framed input with
                            | Some (query, rest) => ReadRequest transport query rest
                            | None => ReadMore
                            end
                   | _ => ReadMore
                   end
               end
           end
  end.

(** [write_relay_response]: the bytes written. *)
Definition write_relay_response (status : byte) (payload : str) : result str str :=
  match u16_len payload with
  | None => Err not_u16
  | Some length => Ok (status :: length ++ payload)
  end.

(** Whether the host still serves the connection, with the bytes it has not
    used, or returned. *)
Inductive host_state := Serving (input : str) | Returned (r : result str unit).

(** The loop of [serve_host_connection], as far as the bytes go that have come;
    with the bytes it wrote.  The fuel is the number of bytes: every request
    has some. *)
Fixpoint serve_host_connection (fuel : nat) (resolvers : list IpAddr) (w : W) (input : str) : W * str * host_state :=
  match fuel with
  | O => (w, [], Serving input)
  | S fuel =>
      match host_request input with
      | ReadMore => (w, [], Serving input)
      | ReadError e => (w, [], Returned (Err e))
      | ReadRequest transport query rest =>
          let '(w, answer) := resolver_query w resolvers transport query in
          match (match answer with
                 | Ok response => write_relay_response RELAY_STATUS_OK response
                 | Err error => write_relay_response RELAY_STATUS_ERROR (take MAX_ERROR_BYTES error)
                 end) with
          | Err e => (w, [], Returned (Err e))
          | Ok written =>
              let '(w, more, state) := serve_host_connection fuel resolvers w rest in
              (w, written ++ more, state)
          end
      end
  end.

(** The stream between the two: the network as the host sees it, the host's
    state and the bytes the client has not read. *)
Record Link := mkLink { lk_world : W; lk_host : host_state; lk_unread : str }.

Inductive ClientError :=
| QueryTooLong            (* u16::try_from *)
| LinkDown                (* the stream's own error, or its end *)
| Reported (text : str)   (* RELAY_STATUS_ERROR *)
| UnknownStatus.

Definition client_request (transport : DnsTransport) (length query : str) : str :=
  RELAY_PROTOCOL_VERSION :: transport_byte transport :: length ++ query.

(** The reply the client reads. *)
Definition client_reply (unread : str) : str * result ClientError str :=
  match unread with
  | status :: framed =>
      match read_framed framed with
      | None => ([], Err LinkDown)
      | Some (response, rest) =>
          (rest, if bool_decide (status = RELAY_STATUS_OK) then Ok response
                 else if bool_decide (status = RELAY_STATUS_ERROR) then Err (Reported (from_utf8_lossy response))
                 else Err UnknownStatus)
      end
  | [] => ([], Err LinkDown)
  end.

(** [DnsRelayClient::query]; once the host returned, its end of the stream is
    closed and a write fails. *)
Definition client_query (resolvers : list IpAddr) (link : Link) (transport : DnsTransport) (query : str)
    : Link * result ClientError str :=
  match u16_len query with
  | None => (link, Err QueryTooLong)
  | Some len =>
      match lk_host link with
      | Returned _ => (link, Err LinkDown)
      | Serving input =>
          let input := input ++ client_request transport len query in
          let '(w, written, host) := serve_host_connection (length input) resolvers (lk_world link) input in
          let '(unread, answer) := client_reply (lk_unread link ++ written) in
          (mkLink w host unread, answer)
      end
  end.
End resolver.
Arguments Link : clear implicits.

(** ** The gateway *)

Definition servfail (query : str) : str :=
  if bool_decide (12 ≤ length query) then
    match query with
    | a :: b :: hi :: lo :: rest =>
        let flags := Z.lor (Z.lor (Z.lor 32768 (Z.land (u16_from_be_bytes hi lo) 30976)) 128) 2 in
        a :: b :: u16_to_be_bytes flags ++ take 2 rest ++ replicate 6 x00 ++ drop 8 rest
    | _ => query
    end
  else query.

Section gateway.
Context {W : Type} `{DnsNet W}.

(** An answer between the client and its recording. *)
Record answering := mkAnswering { an_transport : DnsTransport; an_query : str; an_outcome : result ClientError str; an_response : str }.

Record GatewayDnsRelay := mkGateway {
  gd_link : Link W;
  gd_tracker : DnsAnswerTracker;
  gd_answering : list answering;          (* answered, not sent yet *)
  gd_sent : list (answering * Z);         (* sent, with the time it was recorded *)
}.

(** What happens: a listener takes a query (a datagram, or a message of a TCP
    connection) and asks the client; an answer is sent, or its sending fails
    and its listener or connection ends. *)
Inductive gateway_event :=
| Query (transport : DnsTransport) (query : str)
| Sent (i : nat) (now : Z)
| SendFailed (i : nat).
#[export] Instance gateway_event_eq_dec : EqDecision gateway_event.
Proof. solve_decision. Defined.

Definition remove_at {A} (i : nat) (l : list A) : list A := take i l ++ drop (S i) l.

(** A TCP connection refuses an empty message before it asks; a datagram is
    at most as long as its buffer. *)
Definition gateway_step (resolvers : list IpAddr) (g : GatewayDnsRelay) (e : gateway_event) : option GatewayDnsRelay :=
  match e with
  | Query transport query =>
      if (u16_max <? Z.of_nat (length query))%Z then None
      else if bool_decide (transport = OverTcp) && bool_decide (query = []) then Some g
      else
        let '(link, outcome) := client_query resolvers (gd_link g) transport query in
        let response := match outcome with Ok response => response | Err _ => servfail query end in
        Some (mkGateway link (gd_tracker g) (gd_answering g ++ [mkAnswering transport query outcome response]) (gd_sent g))
  | Sent i now =>
      a ← gd_answering g !! i;
      Some (mkGateway (gd_link g) (record_response_at (gd_tracker g) (an_query a) (an_response a) now)
              (remove_at i (gd_answering g)) (gd_sent g ++ [(a, now)]))
  | SendFailed i =>
      _ ← gd_answering g !! i;
      Some (mkGateway (gd_link g) (gd_tracker g) (remove_at i (gd_answering g)) (gd_sent g))
  end.
Definition gateway_start (w : W) : GatewayDnsRelay := mkGateway (mkLink w (Serving []) []) ∅ [] [].
Fixpoint gateway_run (resolvers : list IpAddr) (g : GatewayDnsRelay) (es : list gateway_event) : option GatewayDnsRelay :=
  match es with
  | [] => Some g
  | e :: es => g ← gateway_step resolvers g e; gateway_run resolvers g es
  end.
End gateway.
Arguments GatewayDnsRelay : clear implicits.

(** [GatewayDnsRelay::bind_on]: the check before the sockets are bound. *)
Definition listeners_match (v4_is_ipv4 v6_is_ipv6 : bool) (port4 port6 : Z) : bool := v4_is_ipv4 && v6_is_ipv6 && (port4 =? port6)%Z.

(** ** Lemmas *)

Lemma u16_len_Some s l : u16_len s = Some l ↔ (Z.of_nat (length s) ≤ u16_max)%Z ∧ l = u16_to_be_bytes (Z.of_nat (length s)).
Proof. unfold u16_len. destruct (Z.leb_spec (Z.of_nat (length s)) u16_max); naive_solver lia. Qed.

Lemma read_framed_app s l rest : u16_len s = Some l → read_framed (l ++ s ++ rest) = Some (s, rest).
Proof.
  intros [Hs ->]%u16_len_Some. unfold read_framed, u16_to_be_bytes. cbn [app]. rewrite u16_be_roundtrip by (unfold is_u16; lia).
  rewrite Nat2Z.id, bool_decide_false by (rewrite length_app; lia). by rewrite take_app_length, drop_app_length.
Qed.

Lemma read_framed_short s r rest : read_framed s = Some (r, rest) → (Z.of_nat (length r) ≤ u16_max)%Z.
Proof.
  unfold read_framed. destruct s as [|hi [|lo s]]; [done..|]. case_bool_decide as Hl; [done|]. intros [= <- _].
  rewrite length_take. pose proof (u16_be_exact hi lo) as [_ [? ?]]. lia.
Qed.

Lemma validate_transaction_Ok query response :
  validate_transaction query response = Ok tt →
  take 2 response = take 2 query ∧ ∃ hi lo, response !! 2 = Some hi ∧ response !! 3 = Some lo ∧ response_bit hi lo = true.
Proof.
  unfold validate_transaction. destruct (_ || _) eqn:E; [done|]. breflect. destruct response as [|a [|b [|hi [|lo r]]]]; try done.
  destruct (response_bit hi lo) eqn:Er; [|done]. intros _. split; [by symmetry|]. by exists hi, lo.
Qed.

Section resolver_lemmas.
Context {W : Type} `{DnsNet W}.
Implicit Types (w : W).

(** A resolver's answer is valid for its query and fits a frame. *)
Lemma query_one_Ok w t resolver query w' response :
  query_one w t resolver query = (w', Ok response) →
  validate_transaction query response = Ok tt ∧ (Z.of_nat (length response) ≤ u16_max)%Z.
Proof.
  assert (∀ q r s : str, (validate_transaction q r ≫= λ _, Ok r) = Ok s → validate_transaction q s = Ok tt ∧ s = r) as Hv.
  { intros q r s. destruct (validate_transaction q r) as [[]|] eqn:E; naive_solver. }
  destruct t; cbn [query_one]; unfold query_udp, query_tcp; intros Hq; repeat case_match; simplify_eq.
  - match goal with H : _ ≫= _ = Ok _ |- _ => apply Hv in H as [? ->] end. split; [done|]. rewrite length_take. unfold u16_max. lia.
  - match goal with H : _ ≫= _ = Ok _ |- _ => apply Hv in H as [? ->] end. split; [done|]. by eapply read_framed_short.
Qed.

(** The first resolver that answers gives the answer; every one before it failed. *)
Lemma query_from_Ok w resolvers t query diagnostics w' response :
  query_from w resolvers t query diagnostics = (w', Ok response) →
  ∃ before resolver after w1, resolvers = before ++ resolver :: after ∧ query_one w1 t resolver query = (w', Ok response).
Proof.
  revert w diagnostics. induction resolvers as [|r rest IH]; intros w diagnostics; cbn [query_from]; [done|].
  destruct (query_one w t r query) as [w1 [response'|e]] eqn:E; intros Hq.
  - simplify_eq. by exists [], r, rest, w.
  - apply IH in Hq as (before & r' & after & w2 & -> & Hq). by exists (r :: before), r', after, w2.
Qed.

(** The text that reports a failure of all resolvers. *)
Lemma resolver_query_Ok w resolvers t query w' response :
  resolver_query w resolvers t query = (w', Ok response) →
  ∃ resolver w1, resolver ∈ resolvers ∧ query_one w1 t resolver query = (w', Ok response).
Proof.
  intros (before & r & after & w1 & -> & Hq)%query_from_Ok. exists r, w1. split; [|done]. apply elem_of_app. right. by left.
Qed.

Lemma host_request_client t query l :
  u16_len query = Some l → query ≠ [] → host_request (client_request t l query) = ReadRequest t query [].
Proof.
  intros Hl Hne. pose proof Hl as [Hs Hl']%u16_len_Some. unfold host_request, client_request. rewrite bool_decide_true by done. cbn [negb].
  assert ((if bool_decide (transport_byte t = x00) then Some OverUdp else if bool_decide (transport_byte t = x01) then Some OverTcp else None) = Some t) as ->
    by by destruct t.
  pose proof (read_framed_app query l [] Hl) as Hr. rewrite app_nil_r in Hr. rewrite Hr. subst l. unfold u16_to_be_bytes. cbn [app].
  rewrite u16_be_roundtrip by (unfold is_u16; lia). destruct (Z.eqb_spec (Z.of_nat (length query)) 0); [|done].
  destruct query; [done|simpl in *; lia].
Qed.

Lemma host_request_empty t : host_request (client_request t (u16_to_be_bytes 0) []) = ReadError (bs "host DNS relay received an empty query").
Proof. by destruct t. Qed.

Definition relayed (answer : result str str) : result ClientError str :=
  match answer with Ok r => Ok r | Err e => Err (Reported (from_utf8_lossy (take MAX_ERROR_BYTES e))) end.

(** A reply fits its frame, and the client reads what the host wrote. *)
Lemma reply_roundtrip answer :
  (∀ r, answer = Ok r → (Z.of_nat (length r) ≤ u16_max)%Z) →
  ∃ written, (match answer with
              | Ok response => write_relay_response RELAY_STATUS_OK response
              | Err error => write_relay_response RELAY_STATUS_ERROR (take MAX_ERROR_BYTES error)
              end) = Ok written ∧ client_reply written = ([], relayed answer).
Proof.
  intros Hr.
  assert (∀ status payload, (Z.of_nat (length payload) ≤ u16_max)%Z → ∃ l,
    write_relay_response status payload = Ok (status :: l ++ payload) ∧ read_framed (l ++ payload) = Some (payload, [])) as Hw.
  { intros status payload Hp. assert (u16_len payload = Some (u16_to_be_bytes (Z.of_nat (length payload)))) as Hl by by apply u16_len_Some.
    eexists. unfold write_relay_response. rewrite Hl. split; [done|]. pose proof (read_framed_app _ _ [] Hl) as Hf. by rewrite app_nil_r in Hf. }
  destruct answer as [response|error].
  - destruct (Hw RELAY_STATUS_OK response) as (l & -> & Hl); [by apply Hr|]. eexists. split; [done|]. cbn [client_reply]. by rewrite Hl.
  - destruct (Hw RELAY_STATUS_ERROR (take MAX_ERROR_BYTES error)) as (l & -> & Hl).
    { rewrite length_take. unfold MAX_ERROR_BYTES, u16_max. lia. }
    eexists. split; [done|]. cbn [client_reply]. by rewrite Hl.
Qed.

Lemma client_query_relayed resolvers w t query :
  query ≠ [] → (Z.of_nat (length query) ≤ u16_max)%Z →
  client_query resolvers (mkLink w (Serving []) []) t query =
    let '(w', answer) := resolver_query w resolvers t query in (mkLink w' (Serving []) [], relayed answer).
Proof.
  intros Hne Hlen. assert (u16_len query = Some (u16_to_be_bytes (Z.of_nat (length query)))) as Hl by by apply u16_len_Some.
  unfold client_query. rewrite Hl. cbn [lk_host lk_world lk_unread app].
  destruct (length (client_request t _ query)) as [|fuel] eqn:Ef; [by destruct t|].
  cbn [serve_host_connection]. rewrite (host_request_client _ _ _ Hl Hne).
  destruct (resolver_query w resolvers t query) as [w' answer] eqn:Eq.
  destruct (reply_roundtrip answer) as (written & -> & Hc).
  { intros r ->. apply resolver_query_Ok in Eq as (? & ? & _ & Eq%query_one_Ok). apply Eq. }
  assert (serve_host_connection fuel resolvers w' [] = (w', [], Serving [])) as -> by by destruct fuel.
  by rewrite app_nil_r, Hc.
Qed.

(** An empty query ends the host's side. *)
Lemma client_query_empty resolvers w t :
  client_query resolvers (mkLink w (Serving []) []) t [] =
    (mkLink w (Returned (Err (bs "host DNS relay received an empty query"))) [], Err LinkDown).
Proof. by destruct t. Qed.

Lemma client_query_down resolvers w r unread t query :
  (Z.of_nat (length query) ≤ u16_max)%Z →
  client_query resolvers (mkLink w (Returned r) unread) t query = (mkLink w (Returned r) unread, Err LinkDown).
Proof. intros Hl. unfold client_query. by rewrite (proj2 (u16_len_Some query _) (conj Hl eq_refl)). Qed.
End resolver_lemmas.

(** *** SERVFAIL *)

Definition servfail_flags (hi lo : byte) : Z := Z.lor (Z.lor (Z.lor 32768 (Z.land (u16_from_be_bytes hi lo) 30976)) 128) 2.
Lemma servfail_flags_response hi lo :
  response_bit (byte_of_Z (servfail_flags hi lo / 256)) (byte_of_Z (servfail_flags hi lo)) = true.
Proof.
  pose (check := λ hi, forallb (λ lo, response_bit (byte_of_Z (servfail_flags hi lo / 256)) (byte_of_Z (servfail_flags hi lo))) all_bytes).
  assert (check hi = true) as Hc by (apply forall_bytes; vm_compute; reflexivity). by apply (forall_bytes _ Hc).
Qed.

Lemma servfail_head query :
  12 ≤ length query →
  take 2 (servfail query) = take 2 query ∧
  ∃ hi lo, servfail query !! 2 = Some hi ∧ servfail query !! 3 = Some lo ∧ response_bit hi lo = true.
Proof.
  intros Hl. unfold servfail. rewrite bool_decide_true by done. destruct query as [|a [|b [|hi [|lo r]]]]; try (simpl in Hl; lia).
  split; [done|]. eexists _, _. split_and!; [reflexivity..|]. apply servfail_flags_response.
Qed.

(** It carries no records, so it is no evidence of anything. *)
Lemma servfail_no_records query m : parse_response (servfail query) = Some m → 12 ≤ length query → r_addresses m = [] ∧ r_cnames m = [].
Proof.
  unfold servfail. intros Hp Hl. rewrite bool_decide_true in Hp by done.
  do 12 (destruct query as [|? query]; [simpl in Hl; lia|]). unfold parse_response in Hp.
  destruct (Header_parse _) as [h|] eqn:Eh; [|done]. assert (h_answer_count h = 0%Z) as Ha.
  { unfold Header_parse, read_u16 in Eh. rewrite bool_decide_true in Eh by (unfold DNS_HEADER_LENGTH; cbn; lia). cbn in Eh. by injection Eh as <-. }
  cbn [mbind option_bind] in Hp. destruct (_ =? 0)%Z; [done|]. destruct (questions _ _) as [[qs offset]|]; [|done].
  cbn [mbind option_bind] in Hp. rewrite Ha in Hp. cbn in Hp. by injection Hp as <-.
Qed.

Lemma short_no_question query : length query < 12 → parse_questions query = None.
Proof.
  intros Hl. unfold parse_questions. destruct (Header_parse query) as [h|] eqn:E; [|done]. unfold Header_parse in E.
  rewrite (bool_decide_false (DNS_HEADER_LENGTH ≤ length query)) in E by (unfold DNS_HEADER_LENGTH; lia).
  destruct (read_u16 query 0), (read_u16 query 2), (read_u16 query 4), (read_u16 query 6); discriminate E.
Qed.

Lemma servfail_no_evidence query m name ip ttl : answers_query query (servfail query) m → ¬ resolves m name ip ttl.
Proof.
  intros [Hp Hq] Hr. destruct (decide (12 ≤ length query)) as [Hl|Hl]; [|by rewrite short_no_question in Hq by lia].
  destruct (servfail_no_records _ _ Hp Hl) as [Ha Hc]. induction Hr as [a Hin|c ip ttl Hin]; [rewrite Ha in Hin|rewrite Hc in Hin]; by apply elem_of_nil in Hin.
Qed.

(** ** Properties *)

Section relay_properties.
Context {W : Type} `{DnsNet W}.

(** What an answer given to the workload is. *)
Definition answered (resolvers : list IpAddr) (a : answering) : Prop :=
  (∃ resolver w w', resolver ∈ resolvers ∧ query_one w (an_transport a) resolver (an_query a) = (w', Ok (an_response a)) ∧
     an_outcome a = Ok (an_response a)) ∨
  (∃ e, an_outcome a = Err e ∧ an_response a = servfail (an_query a)).

Definition resembles_answer (query response : str) : Prop :=
  take 2 response = take 2 query ∧ ∃ hi lo, response !! 2 = Some hi ∧ response !! 3 = Some lo ∧ response_bit hi lo = true.

Record gateway_inv (resolvers : list IpAddr) (past : list gateway_event) (g : GatewayDnsRelay W) : Prop := {
  gi_answers : ∀ a, a ∈ gd_answering g ∨ a ∈ (gd_sent g).*1 →
    answered resolvers a ∧ (an_outcome a = Err LinkDown → Query OverUdp [] ∈ past);
  gi_tracker : ∀ k expiry, gd_tracker g !! k = Some expiry →
    ∃ a now m ttl, (a, now) ∈ gd_sent g ∧ an_outcome a = Ok (an_response a) ∧ answers_query (an_query a) (an_response a) m ∧
      resolves m k.1 k.2 ttl ∧ (0 < ttl)%Z ∧ expiry = (now + nanos ttl)%Z;
  gi_unread : lk_unread (gd_link g) = [];
  gi_host : match lk_host (gd_link g) with
            | Serving input => input = [] ∧ Query OverUdp [] ∉ past
            | Returned _ => Query OverUdp [] ∈ past
            end;
}.

Lemma gateway_start_inv resolvers w : gateway_inv resolvers [] (gateway_start w).
Proof.
  constructor; cbn; [|..].
  - by intros a [?%elem_of_nil|?%elem_of_nil].
  - intros k expiry. by rewrite lookup_empty.
  - done.
  - split; [done|]. apply not_elem_of_nil.
Qed.

Lemma elem_of_remove_at {A} i (l : list A) x : x ∈ remove_at i l → x ∈ l.
Proof.
  unfold remove_at. rewrite elem_of_app. intros [Hx|Hx]; [by apply elem_of_take in Hx as (?&?&_); eapply list_elem_of_lookup_2|].
  apply list_elem_of_lookup in Hx as [j Hj]. rewrite lookup_drop in Hj. by eapply list_elem_of_lookup_2.
Qed.

(** One query on a well-formed link. *)
Lemma client_query_cases resolvers link t query link' outcome :
  client_query resolvers link t query = (link', outcome) → (Z.of_nat (length query) ≤ u16_max)%Z → lk_unread link = [] →
  match lk_host link with
  | Serving input => input = [] → (query ≠ [] ∧ lk_host link' = Serving [] ∧ lk_unread link' = [] ∧
                 ((∃ resolver w w' response, resolver ∈ resolvers ∧ query_one w t resolver query = (w', Ok response) ∧ outcome = Ok response) ∨
                  ∃ text, outcome = Err (Reported text))) ∨
                (query = [] ∧ (∃ r, lk_host link' = Returned r) ∧ lk_unread link' = [] ∧ outcome = Err LinkDown)
  | Returned r => lk_host link' = Returned r ∧ lk_unread link' = [] ∧ outcome = Err LinkDown
  end.
Proof.
  destruct link as [w host unread]. cbn. intros Hq Hl ->. destruct host as [input|r].
  - intros ->. destruct (decide (query = [])) as [->|Hne].
    + right. rewrite client_query_empty in Hq. simplify_eq/=. by eauto.
    + left. rewrite client_query_relayed in Hq by done. destruct (resolver_query w resolvers t query) as [w' answer] eqn:E.
      simplify_eq/=. split_and!; [done..|]. destruct answer as [response|e]; cbn [relayed]; [left|by right; eexists].
      apply resolver_query_Ok in E as (resolver & w1 & Hin & Hq). by eexists resolver, w1, w', response.
  - rewrite client_query_down in Hq by done. by simplify_eq/=.
Qed.

Lemma gateway_query_inv resolvers past g t query g' :
  gateway_inv resolvers past g → gateway_step resolvers g (Query t query) = Some g' → gateway_inv resolvers (past ++ [Query t query]) g'.
Proof.
  intros [Ha Ht Hu Hh] Hs. cbn [gateway_step] in Hs. destruct (Z.ltb_spec u16_max (Z.of_nat (length query))) as [|Hlen]; [done|].
  destruct (_ && _) eqn:Etcp.
  { breflect. simplify_eq. constructor; [|done..|].
    - intros a Hin. destruct (Ha a Hin) as [? Hd]. split; [done|]. intros Hl. apply elem_of_app. left. auto.
    - destruct (lk_host (gd_link g')); [destruct Hh as [? Hn]; split; [done|]|].
      + rewrite elem_of_app, list_elem_of_singleton. naive_solver.
      + apply elem_of_app. by left. }
  destruct (client_query resolvers (gd_link g) t query) as [link outcome] eqn:Eq. injection Hs as <-.
  pose proof (client_query_cases _ _ _ _ _ _ Eq Hlen Hu) as Hc.
  assert (query = [] → Query t query = Query OverUdp []) as He.
  { intros ->. apply andb_false_iff in Etcp as [E|E]; breflect; [|done]. by destruct t. }
  constructor; cbn [gd_link gd_tracker gd_answering gd_sent].
  - intros a [[Hin|Hin]%elem_of_app|Hin]; [| |];
      [destruct (Ha a (or_introl Hin)) as [? Hd]| |destruct (Ha a (or_intror Hin)) as [? Hd]];
      try (split; [done|]; intros Hl; apply elem_of_app; left; by auto).
    apply list_elem_of_singleton in Hin as ->. unfold answered. cbn [an_transport an_query an_outcome an_response].
    destruct (lk_host (gd_link g)) as [input|r].
    + destruct Hh as [-> Hn]. destruct (Hc eq_refl) as [(Hne & _ & _ & [(rs & w & w' & resp & Hin & Hq & ->)|[text ->]])|(-> & _ & _ & ->)].
      * split; [left; by exists rs, w, w'|done].
      * split; [right; by eexists|done].
      * split; [right; by eexists|]. intros _. apply elem_of_app. right. apply list_elem_of_singleton. symmetry. by apply He.
    + destruct Hc as (_ & _ & ->). split; [right; by eexists|]. intros _. apply elem_of_app. by left.
  - done.
  - destruct (lk_host (gd_link g)) as [input|r]; [destruct Hh as [-> _]; by destruct (Hc eq_refl) as [(_&_&?&_)|(_&_&?&_)]|by destruct Hc as (_&?&_)].
  - destruct (lk_host (gd_link g)) as [input|r].
    + destruct Hh as [-> Hn]. destruct (Hc eq_refl) as [(Hne & -> & _)|(-> & [r ->] & _)].
      * split; [done|]. rewrite elem_of_app, list_elem_of_singleton. naive_solver.
      * apply elem_of_app. right. apply list_elem_of_singleton. symmetry. by apply He.
    + destruct Hc as (-> & _). apply elem_of_app. by left.
Qed.

Lemma gateway_sent_inv resolvers past g i now g' :
  gateway_inv resolvers past g → gateway_step resolvers g (Sent i now) = Some g' → gateway_inv resolvers (past ++ [Sent i now]) g'.
Proof.
  intros [Ha Ht Hu Hh] Hs. cbn [gateway_step] in Hs. destruct (gd_answering g !! i) as [a|] eqn:Ea; [|done]. injection Hs as <-.
  assert (a ∈ gd_answering g) as Hin by by eapply list_elem_of_lookup_2. destruct (Ha a (or_introl Hin)) as [Hans _].
  assert (∀ e, e ∈ past ++ [Sent i now] → e = Query OverUdp [] → e ∈ past) as Hp.
  { intros e [?|Hl%list_elem_of_singleton]%elem_of_app He; [done|]. by subst. }
  constructor; cbn [gd_link gd_tracker gd_answering gd_sent]; [| |done|].
  - intros b Hb. assert (b ∈ gd_answering g ∨ b ∈ (gd_sent g).*1) as Hb'.
    { destruct Hb as [Hb|Hb]; [left; by eapply elem_of_remove_at|]. rewrite fmap_app, elem_of_app in Hb.
      destruct Hb as [?|Hb%list_elem_of_singleton]; [by right|]. cbn in Hb. subst b. by left. }
    destruct (Ha b Hb') as [? Hd]. split; [done|]. intros Hl. apply elem_of_app. left. auto.
  - intros k expiry [Hk|(m & ttl & Hm & Hr & Hpos & ->)]%record_response_sound.
    + destruct (Ht _ _ Hk) as (b & t & m & ttl & Hb & H'). exists b, t, m, ttl. split; [apply elem_of_app; by left|done].
    + exists a, now, m, ttl. split; [apply elem_of_app; right; by apply list_elem_of_singleton|]. split; [|done].
      destruct Hans as [(?&?&?&_&_&?)|(e & _ & Hsf)]; [done|]. rewrite Hsf in Hm. by destruct (servfail_no_evidence _ _ _ _ _ Hm Hr).
  - destruct (lk_host (gd_link g)); [destruct Hh as [? Hn]; split; [done|]|apply elem_of_app; by left]. intros Hq. apply Hn. by apply Hp.
Qed.

Lemma gateway_failed_inv resolvers past g i g' :
  gateway_inv resolvers past g → gateway_step resolvers g (SendFailed i) = Some g' → gateway_inv resolvers (past ++ [SendFailed i]) g'.
Proof.
  intros [Ha Ht Hu Hh] Hs. cbn [gateway_step] in Hs. destruct (gd_answering g !! i) as [a|] eqn:Ea; [|done]. injection Hs as <-.
  constructor; cbn [gd_link gd_tracker gd_answering gd_sent]; [|done|done|].
  - intros b Hb. assert (b ∈ gd_answering g ∨ b ∈ (gd_sent g).*1) as Hb' by (destruct Hb as [Hb|]; [left; by eapply elem_of_remove_at|by right]).
    destruct (Ha b Hb') as [? Hd]. split; [done|]. intros Hl. apply elem_of_app. left. auto.
  - destruct (lk_host (gd_link g)); [destruct Hh as [? Hn]; split; [done|]|apply elem_of_app; by left].
    intros [?|?%list_elem_of_singleton]%elem_of_app; done.
Qed.

Lemma gateway_run_inv resolvers past g es g' :
  gateway_inv resolvers past g → gateway_run resolvers g es = Some g' → gateway_inv resolvers (past ++ es) g'.
Proof.
  revert past g. induction es as [|e es IH]; intros past g Hi Hr; cbn [gateway_run] in Hr; [simplify_eq; by rewrite app_nil_r|].
  destruct (gateway_step resolvers g e) as [g1|] eqn:E; [|done]. change (e :: es) with ([e] ++ es). rewrite app_assoc. apply (IH _ g1); [|done].
  destruct e; [by eapply gateway_query_inv|by eapply gateway_sent_inv|by eapply gateway_failed_inv].
Qed.

Lemma answered_resembles resolvers a :
  answered resolvers a → 12 ≤ length (an_query a) → resembles_answer (an_query a) (an_response a).
Proof.
  intros [(r & w & w' & _ & Hq & _)|(e & _ & ->)] Hl; [|by apply servfail_head].
  apply query_one_Ok in Hq as [Hv _]. by apply validate_transaction_Ok.
Qed.

(** C23: the gateway's answers are the resolvers' or SERVFAIL, and only the
    resolvers' become evidence.  For any interleaving of queries on the
    listeners and deliveries of answers: an answer is a validated response of
    a configured resolver to this very query, or the SERVFAIL of a failed one;
    to a query with a header it carries that query's identifier and the
    response flag; every entry of the tracker comes from a delivered
    resolver's answer, at its time of delivery, and none from a SERVFAIL; and
    the stream to the host stays in step and alive exactly as long as no empty
    datagram was taken, the only reason a query is lost without being asked. *)
Theorem gateway_dns_sound (resolvers : list IpAddr) (w : W) (es : list gateway_event) (g : GatewayDnsRelay W) :
  gateway_run resolvers (gateway_start w) es = Some g →
  (∀ a, a ∈ gd_answering g ∨ a ∈ (gd_sent g).*1 →
     answered resolvers a ∧ (12 ≤ length (an_query a) → resembles_answer (an_query a) (an_response a)) ∧
     (an_outcome a = Err LinkDown → Query OverUdp [] ∈ es)) ∧
  (∀ k expiry, gd_tracker g !! k = Some expiry →
     ∃ a now m ttl, (a, now) ∈ gd_sent g ∧ an_outcome a = Ok (an_response a) ∧ answers_query (an_query a) (an_response a) m ∧
       resolves m k.1 k.2 ttl ∧ (0 < ttl)%Z ∧ expiry = (now + nanos ttl)%Z) ∧
  lk_unread (gd_link g) = [] ∧ (lk_host (gd_link g) = Serving [] ↔ Query OverUdp [] ∉ es).
Proof.
  intros Hr. destruct (gateway_run_inv _ _ _ _ _ (gateway_start_inv resolvers w) Hr) as [Ha Ht Hu Hh]. cbn [app] in *.
  split_and!; [|done|done|].
  - intros a Hin. destruct (Ha a Hin). split_and!; [done| |done]. by eapply answered_resembles.
  - destruct (lk_host (gd_link g)) as [input|r]; [destruct Hh as [-> ?]; done|]. split; [done|]. by intros ?.
Qed.

(** C24: the private stream carries a query and its answer unchanged.  For a
    query that is not empty and fits a datagram, the client gets exactly what
    the resolvers gave the host (a failure as the first 1024 bytes of its
    text), in the same state of the network, and both sides are ready for the
    next query. *)
Theorem relay_stream_faithful (resolvers : list IpAddr) (w : W) (t : DnsTransport) (query : str) :
  query ≠ [] → (Z.of_nat (length query) ≤ u16_max)%Z →
  client_query resolvers (mkLink w (Serving []) []) t query =
    let '(w', answer) := resolver_query w resolvers t query in (mkLink w' (Serving []) [], relayed answer).
Proof. apply client_query_relayed. Qed.
End relay_properties.

(** *** The workload's resolv.conf *)

Definition gateway_lines : list str :=
  [bs "# generated by hiloop-interceptor"; bs "nameserver " ++ fmt_ipv4 GATEWAY_IPV4; bs "nameserver " ++ fmt_ipv6 GATEWAY_IPV6].

Lemma elem_of_directive b line : b ∈ directive line → b ∈ line ∧ b ≠ x23.
Proof.
  unfold directive. destruct (split_once x23 line) as [[value rest]|] eqn:E.
  - apply split_once_Some in E as [-> Hn]. intros Hb%elem_of_trim. split; [apply elem_of_app; by left|]. by intros ->.
  - intros Hb%elem_of_trim. split; [done|]. intros ->. clear -E Hb. induction line as [|c line IH]; [by apply elem_of_nil in Hb|].
    cbn [split_once] in E. apply elem_of_cons in Hb as [<-|Hb]; [by rewrite byte_is_refl in E|]. destruct (byte_is x23 c); [done|].
    destruct (split_once x23 line) as [[]|]; [done|]. by apply IH.
Qed.

(** A directive, written as a line of its own, is read as itself. *)
Lemma directive_again line : directive (default (directive line) (strip_suffix [x0d] (directive line))) = directive line.
Proof.
  assert (strip_suffix [x0d] (directive line) = None) as -> by by apply trim_no_final. cbn [default].
  unfold directive at 1. destruct (split_once x23 (directive line)) as [[value rest]|] eqn:E; [|apply trim_idemp].
  apply split_once_Some in E as [E _]. assert (x23 ∈ directive line) as Hin by (rewrite E; apply elem_of_app; right; by left).
  by apply elem_of_directive in Hin as [_ ?].
Qed.

Lemma generated_directives contents :
  directive <$> str_lines (workload_resolv_conf contents) =
    [[]; bs "nameserver " ++ fmt_ipv4 GATEWAY_IPV4; bs "nameserver " ++ fmt_ipv6 GATEWAY_IPV6] ++
    filter (λ d, kept_directive d = true) (directive <$> str_lines contents).
Proof.
  set (kept := filter _ (directive <$> str_lines contents)).
  assert (workload_resolv_conf contents = concat ((λ l, l ++ [x0a]) <$> (gateway_lines ++ kept))) as ->.
  { unfold workload_resolv_conf, unlines. by rewrite fmap_app, concat_app. }
  assert (∀ d, d ∈ kept → ∃ line, line ∈ str_lines contents ∧ d = directive line) as Hk.
  { intros d [_ Hd]%list_elem_of_filter. apply list_elem_of_fmap in Hd as (line & -> & ?). by exists line. }
  rewrite str_lines_unlines.
  - rewrite !fmap_app. f_equal. rewrite <- (list_fmap_id kept) at 2. rewrite <- list_fmap_compose.
    apply list_fmap_ext. intros i d Hd%list_elem_of_lookup_2. destruct (Hk d Hd) as (line & _ & ->). apply directive_again.
  - apply Forall_app. split; [by_compute|]. apply Forall_forall. intros d Hd Hin. destruct (Hk d Hd) as (line & Hline & ->).
    apply elem_of_directive in Hin as [Hin _]. by apply (str_lines_free _ _ Hline).
Qed.

Lemma nameservers_of_kept ds : Forall (λ d, kept_directive d = true) ds → nameservers_of ds = Ok [].
Proof.
  induction 1 as [|d ds Hd _ IH]; [done|]. cbn [nameservers_of]. unfold kept_directive in Hd.
  destruct (split_ascii_whitespace d) as [|keyword fields]; [done|]. rewrite bool_decide_false; [done|].
  intros ->. vm_compute in Hd. done.
Qed.

Lemma nameservers_of_blank ds : nameservers_of ([] :: ds) = nameservers_of ds.
Proof. done. Qed.
Lemma nameservers_of_address line address ip ds :
  split_ascii_whitespace line = [bs "nameserver"; address] → IpAddr_from_str address = Some ip →
  nameservers_of (line :: ds) = cons ip <$> nameservers_of ds.
Proof. intros Hl Ha. cbn [nameservers_of]. rewrite Hl, bool_decide_true by done. cbn [negb]. by rewrite Ha. Qed.

(** The workload's resolver configuration names the gateway and nothing
    else.  Whatever the host's file holds, the generated one parses to exactly
    the gateway's two addresses as nameservers, and its other directives are
    the host's search, domain and options directives, in order. *)
Theorem workload_resolv_conf_exact (contents : str) :
  parse_nameservers (workload_resolv_conf contents) = Ok [V4 GATEWAY_IPV4; V6 GATEWAY_IPV6] ∧
  drop 3 (directive <$> str_lines (workload_resolv_conf contents)) =
    filter (λ d, kept_directive d = true) (directive <$> str_lines contents).
Proof.
  unfold parse_nameservers. rewrite generated_directives. set (kept := filter _ _). split; [|done].
  assert (nameservers_of kept = Ok []) as Hk.
  { apply nameservers_of_kept. apply Forall_forall. intros d Hd. by apply list_elem_of_filter in Hd as [? _]. }
  assert (∀ ds, nameservers_of ([[]; bs "nameserver " ++ fmt_ipv4 GATEWAY_IPV4; bs "nameserver " ++ fmt_ipv6 GATEWAY_IPV6] ++ ds) =
    cons (V4 GATEWAY_IPV4) <$> (cons (V6 GATEWAY_IPV6) <$> nameservers_of ds)) as ->.
  { intros ds. cbn [app]. rewrite nameservers_of_blank.
    rewrite (nameservers_of_address _ (bs "169.254.254.1") (V4 GATEWAY_IPV4)) by reflexivity.
    by rewrite (nameservers_of_address _ (bs "fd00:6869:6c6f:6f70::1") (V6 GATEWAY_IPV6)) by reflexivity. }
  by rewrite Hk.
Qed.

(** ** Witnesses *)

(** A network with one resolver that answers every query over UDP with an
    address record for the name asked. *)
Definition address_answer (query : str) : str :=
  take 2 query ++ [x81; x80; x00; x01; x00; x01; x00; x00; x00; x00] ++ drop 12 query ++
  [xc0; x0c; x00; x01; x00; x01; x00; x00; x00; x3c; x00; x04; x5d; xb8; xd8; x22].
Definition sample_net : DnsNet nat := {|
  udp_exchange w ip query := (S w, if bool_decide (ip = V4 (v4_of 8 8 8 8)) then Some (Ok (length query, address_answer query)) else None);
  tcp_connect w ip := (w, Some (Ok tt));
  tcp_exchange w ip bytes := (S w, Some (Ok (take 2 bytes)));
|}.
Definition sample_resolvers : list IpAddr := [V4 (v4_of 127 0 0 53); V4 (v4_of 8 8 8 8)].
Definition sample_events : list gateway_event := [Query OverUdp dns_query; Query OverTcp dns_query; Sent 1 10; Sent 0 20].
Definition sample_gateway : option (GatewayDnsRelay nat) :=
  let _ := sample_net in gateway_run sample_resolvers (gateway_start 0) sample_events.

Lemma relay_stream_faithful_witness :
  (∃ w' answer, resolver_query (H := sample_net) 0 sample_resolvers OverUdp dns_query = (w', Ok answer) ∧ answer = address_answer dns_query) ∧
  client_query (H := sample_net) sample_resolvers (mkLink 0 (Serving []) []) OverUdp dns_query =
    let '(w', answer) := resolver_query (H := sample_net) 0 sample_resolvers OverUdp dns_query in (mkLink w' (Serving []) [], relayed answer).
Proof.
  split; [eexists _, _; split; [vm_compute; reflexivity|reflexivity]|].
  apply (relay_stream_faithful (H := sample_net)); [discriminate|vm_compute; discriminate].
Defined.

Lemma gateway_dns_sound_witness :
  (∃ g, gateway_run (H := sample_net) sample_resolvers (gateway_start 0) sample_events = Some g ∧
     gd_tracker g !! (bs "example.com", V4 (v4_of 93 184 216 34)) = Some 60000000020%Z ∧
     lk_host (gd_link g) = Serving []).
Proof.
  pose (check := λ o, match o with
    | Some g => bool_decide (gd_tracker (W := nat) g !! (bs "example.com", V4 (v4_of 93 184 216 34)) = Some 60000000020%Z)
    | None => false end).
  assert (check (gateway_run (H := sample_net) sample_resolvers (gateway_start 0) sample_events) = true) as Hc by (vm_compute; reflexivity).
  destruct (gateway_run (H := sample_net) sample_resolvers (gateway_start 0) sample_events) as [g|] eqn:E; [|discriminate Hc].
  exists g. split; [reflexivity|]. split; [exact (bool_decide_eq_true_1 _ Hc)|].
  apply (gateway_dns_sound (H := sample_net) sample_resolvers 0 sample_events g E).
  apply (bool_decide_unpack _). vm_compute. exact I.
Defined.

(** One empty datagram ends the relay for the rest of the run: the next query,
    which the resolver would answer, gets SERVFAIL. *)
Example empty_datagram_ends_relay :
  match gateway_run (H := sample_net) sample_resolvers (gateway_start 0) [Query OverUdp []; Query OverUdp dns_query] with
  | Some g => (λ a, bool_decide (an_response a = servfail (an_query a))) <$> gd_answering g
  | None => []
  end = [true; true].
Proof. vm_compute. reflexivity. Qed.
