(* ===== verification/Stdio.v ===== *)
(** * Capture of the child's standard streams
    (crates/hiloop-interceptor/src/stdio.rs, and the pumps of supervisor.rs)

    Every pump copies a stream byte for byte to its other end, and cuts the
    same bytes into records with the line framer; each record is sent to the
    pipeline as one signal, which [StdioLogNormalizer] turns into one log event.

    - [capture_stream_impl]: the child's output (a pipe, or a terminal whose
      EIO is its end), and the child's input through the detached reader;
    - [capture_nonblocking_stdin]: the terminal's input;
    - [stdio_source_run]: the same as a [Source] of the capture session;
    - [forward_blocking_reads] and [poll_read]: the detached reader.

    What the streams, the clock and the channel answer is given by turns: one
    [turn] is one iteration of a pump's loop. *)
From Stdlib Require Import Strings.Byte.
From S2P Require Import Prelude Text Identity Event Net Spool Framing Seams Pipeline.

Definition MAX_STDIO_LINE_BYTES : nat := Z.to_nat (64 * 1024).
#[global] Arguments MAX_STDIO_LINE_BYTES : simpl never.

(** ** One pump *)

(** What a read answers: bytes ([[]] at the end of the stream), an error that is
    EIO or not. *)
Inductive read_answer := ReadBytes (bytes : str) | ReadEio (error : str) | ReadFailed (error : str).
(** A failed write may have written a part. *)
Inductive write_answer := Written | WriteEio (error : str) (part : nat) | WriteFailed (error : str) (part : nat).

(** [tu_send i] is the clock's tick for the turn's [i]-th record and whether the
    channel took it; [tu_shutdown] is whether a source's shutdown signal came
    before its read. *)
Record turn := mkTurn { tu_shutdown : bool; tu_read : read_answer; tu_write : write_answer; tu_flush : write_answer; tu_send : nat → Hlc * bool }.

Inductive PumpError := CannotRead (error : str) | CannotTee (error : str) | CannotFlush (error : str) | PipelineStopped.

Record pump := mkPump {
  pu_framer : LineFramer;
  pu_teed : str;               (* what the other end got *)
  pu_sent : list RawSignal;    (* what the channel took *)
  pu_open : bool;              (* the sender is still there *)
}.
Definition pump_start : pump := mkPump (mkLineFramer [] MAX_STDIO_LINE_BYTES) [] [] true.

Definition set_framer (p : pump) (f : LineFramer) : pump := mkPump f (pu_teed p) (pu_sent p) (pu_open p).
Definition tee (p : pump) (chunk : str) : pump := mkPump (pu_framer p) (pu_teed p ++ chunk) (pu_sent p) (pu_open p).

Section pumps.
Variable stream_name : str.

(** [send_stdio_signal], and [deliver_record] of a source *)
Definition send_stdio_signal (p : pump) (line : str) (answer : Hlc * bool) : pump :=
  if negb (pu_open p) then p
  else if answer.2 then mkPump (pu_framer p) (pu_teed p) (pu_sent p ++ [RawSignal_new STDIO_SOURCE stream_name answer.1 line]) true
  else mkPump (pu_framer p) (pu_teed p) (pu_sent p) false.

Fixpoint send_records (p : pump) (records : list str) (i : nat) (answers : nat → Hlc * bool) : pump :=
  match records with
  | [] => p
  | record :: records => send_records (send_stdio_signal p record (answers i)) records (S i) answers
  end.

(** [framer.push(chunk)] and its records; [framer.flush()] and its record. *)
Definition frame_chunk (p : pump) (chunk : str) (answers : nat → Hlc * bool) : pump :=
  let '(records, f) := push (pu_framer p) chunk in send_records (set_framer p f) records 0 answers.
Definition frame_end (p : pump) (answers : nat → Hlc * bool) : pump :=
  let '(record, f) := flush (pu_framer p) in send_records (set_framer p f) (option_list record) 0 answers.

(** After the loop. *)
Definition pump_finish (p : pump) (answers : nat → Hlc * bool) : pump * option (result PumpError unit) :=
  let p := frame_end p answers in
  (p, Some (if pu_open p then Ok tt else Err PipelineStopped)).

Definition write_error (e : write_answer) : option (str * nat) :=
  match e with Written => None | WriteEio e part | WriteFailed e part => Some (e, part) end.

(** One iteration; [None] when the loop goes on. *)
Definition capture_turn (pty_eio_is_eof : bool) (p : pump) (t : turn) : pump * option (result PumpError unit) :=
  match (match tu_read t with
         | ReadBytes bytes => Ok bytes
         | ReadEio e => if pty_eio_is_eof then Ok [] else Err (CannotRead e)
         | ReadFailed e => Err (CannotRead e)
         end) with
  | Err e => (p, Some (Err e))
  | Ok [] => pump_finish p (tu_send t)
  | Ok chunk =>
      match write_error (tu_write t) with
      | Some (e, part) => (tee p (take part chunk), Some (Err (CannotTee e)))
      | None =>
          let p := tee p chunk in
          match write_error (tu_flush t) with
          | Some (e, _) => (p, Some (Err (CannotFlush e)))
          | None => (frame_chunk p chunk (tu_send t), None)
          end
      end
  end.

Fixpoint run_turns (step : pump → turn → pump * option (result PumpError unit)) (p : pump) (turns : list turn)
    : pump * option (result PumpError unit) :=
  match turns with
  | [] => (p, None)
  | t :: turns =>
      match step p t with
      | (p, None) => run_turns step p turns
      | ended => ended
      end
  end.
Definition capture_stream_impl (pty_eio_is_eof : bool) (turns : list turn) : pump * option (result PumpError unit) :=
  run_turns (capture_turn pty_eio_is_eof) pump_start turns.

(** The terminal's input: EIO ends it on every side. *)
Definition nonblocking_turn (p : pump) (t : turn) : pump * option (result PumpError unit) :=
  match (match tu_read t with
         | ReadBytes bytes => Ok bytes
         | ReadEio _ => Ok []
         | ReadFailed e => Err (CannotRead e)
         end) with
  | Err e => (p, Some (Err e))
  | Ok [] => pump_finish p (tu_send t)
  | Ok chunk =>
      match tu_write t with
      | WriteEio _ part => pump_finish (tee p (take part chunk)) (tu_send t)
      | WriteFailed e part => (tee p (take part chunk), Some (Err (CannotTee e)))
      | Written =>
          let p := tee p chunk in
          match tu_flush t with
          | WriteEio _ _ => pump_finish p (tu_send t)
          | WriteFailed e _ => (p, Some (Err (CannotFlush e)))
          | Written => (frame_chunk p chunk (tu_send t), None)
          end
      end
  end.
Definition capture_nonblocking_stdin (turns : list turn) : pump * option (result PumpError unit) :=
  run_turns nonblocking_turn pump_start turns.

(** [stdin_capture] and [pty_stdin_capture]: the pump, cancelled when the child
    has exited.  The cancellation is taken between two turns. *)
Definition cancellable (pumped : pump * option (result PumpError unit)) (shutdown : bool) : pump * option (result PumpError unit) :=
  match pumped with
  | (p, None) => (p, if shutdown then Some (Ok tt) else None)
  | ended => ended
  end.
Definition stdin_capture (turns : list turn) (shutdown : bool) := cancellable (capture_stream_impl false turns) shutdown.
Definition pty_stdin_capture (turns : list turn) (shutdown : bool) := cancellable (capture_nonblocking_stdin turns) shutdown.

(** [StdioSource::run]: it stops when its sink is closed, and on shutdown it
    sends what it has. *)
Definition source_turn (p : pump) (t : turn) : pump * option (result PumpError unit) :=
  if tu_shutdown t then (frame_end p (tu_send t), Some (Ok tt))
  else match tu_read t with
  | ReadEio e | ReadFailed e => (p, Some (Err (CannotRead e)))
  | ReadBytes [] => (frame_end p (tu_send t), Some (Ok tt))
  | ReadBytes chunk =>
      match write_error (tu_write t) with
      | Some (e, part) => (tee p (take part chunk), Some (Err (CannotTee e)))
      | None =>
          let p := tee p chunk in
          match write_error (tu_flush t) with
          | Some (e, _) => (p, Some (Err (CannotFlush e)))
          | None =>
              let p := frame_chunk p chunk (tu_send t) in
              (p, if pu_open p then None else Some (Ok tt))
          end
      end
  end.
Definition stdio_source_run (max_record_bytes : nat) (turns : list turn) : option (pump * option (result PumpError unit)) :=
  f ← LineFramer_new max_record_bytes;
  Some (run_turns source_turn (mkPump f [] [] true) turns).
End pumps.

(** ** The detached reader *)

(** The reader's thread: what it puts on the channel for the reads of its
    source, while the channel takes it ([accepts i] for its [i]-th item). *)
Inductive blocking_read := GotBytes (bytes : str) | Interrupted | GotError (error : str).
Fixpoint forward_blocking_reads (reads : list blocking_read) (i : nat) (accepts : nat → bool) : list (result str str) :=
  match reads with
  | [] => []
  | GotBytes [] :: _ => []
  | GotBytes bytes :: reads => if accepts i then Ok bytes :: forward_blocking_reads reads (S i) accepts else []
  | Interrupted :: reads => forward_blocking_reads reads i accepts
  | GotError e :: _ => if accepts i then [Err e] else []
  end.

(** The pump's side: the items not received yet, whether the thread is done
    (the channel closed), and the rest of the chunk in hand. *)
Record DetachedStdinReader := mkReader { dr_chunks : list (result str str); dr_done : bool; dr_pending : str }.
Inductive poll := PollPending | PollReady (r : result str str).
Definition poll_read (d : DetachedStdinReader) (remaining : nat) : DetachedStdinReader * poll :=
  let give d bytes :=
    (mkReader (dr_chunks d) (dr_done d) (drop (Nat.min (length bytes) remaining) bytes),
     PollReady (Ok (take (Nat.min (length bytes) remaining) bytes))) in
  match dr_pending d with
  | [] =>
      match dr_chunks d with
      | Ok chunk :: rest => give (mkReader rest (dr_done d) []) chunk
      | Err e :: rest => (mkReader rest (dr_done d) [], PollReady (Err e))
      | [] => if dr_done d then (d, PollReady (Ok [])) else (d, PollPending)
      end
  | pending => give d pending
  end.

(** ** Records as log events *)

(** The standard base64 alphabet with padding, from the [base64] crate. *)
Class Base64 := {
  b64_encode : str → str;
  b64_decode : str → option str;
}.
Class Base64Laws `{Base64} := b64_roundtrip : ∀ bytes, b64_decode (b64_encode bytes) = Some bytes.

Definition STDIO_DESCRIPTOR : NormalizerDescriptor := mkDescriptor (bs "stdio-log") (bs "0.1.0") (bs "hiloop.event.v1").

Definition stdio_kind (kind : str) : option string :=
  if bool_decide (kind = bs "stdin") then Some "process.stdin"%string
  else if bool_decide (kind = bs "stdout") then Some "process.stdout"%string
  else if bool_decide (kind = bs "stderr") then Some "process.stderr"%string
  else None.
Definition stdio_supports (raw : RawSignal) : NormalizerSupport :=
  if bool_decide (raw_source raw = STDIO_SOURCE) && bool_decide (is_Some (stdio_kind (raw_kind raw))) then Exact else NotSupported.

Section normalizer.
Context {U : UlidLib} {B : Base64} {N : Type} (mint : N → N * EventId).

Definition stdio_normalize (n : N) (context : NormalizationContext) (raw : RawSignal)
    : N * result NormalizeError NormalizationOutcome :=
  match stdio_kind (raw_kind raw) with
  | None => (n, Err (Unsupported (descriptor_name STDIO_DESCRIPTOR) (raw_source raw) (raw_kind raw)))
  | Some name =>
      let '(n, minted) := mint n in
      let event := Event_new minted (run_context context) (observed_at raw) Log (lit EventNameK name) in
      let event := match from_utf8 (raw_body raw) with
                   | Some message => with_attribute event (key "message") (AString message)
                   | None => with_attribute (with_attribute event (key "message_base64") (AString (b64_encode (raw_body raw))))
                               (key "message_encoding") (AString (bs "base64"))
                   end in
      (n, Ok (from_events [with_attribute (with_attribute event (key "stream") (AString (raw_kind raw)))
                             (key "source") (AString (raw_source raw))]))
  end.
Definition StdioLogNormalizer : Normalizer N := mkNormalizer STDIO_DESCRIPTOR stdio_supports stdio_normalize.
End normalizer.

(** ** Lemmas *)

Definition bodies (p : pump) : list str := raw_body <$> pu_sent p.

Lemma push_all_snoc f cs c :
  push_all f (cs ++ [c]) = let '(r1, f1) := push_all f cs in let '(r2, f2) := push f1 c in (r1 ++ r2, f2).
Proof.
  revert f. induction cs as [|d cs IH]; intros f; cbn [push_all app].
  - destruct (push f c) as [r f']. by rewrite app_nil_r.
  - destruct (push f d) as [r f']. rewrite IH. destruct (push_all f' cs) as [r1 f1]. destruct (push f1 c) as [r2 f2]. by rewrite app_assoc.
Qed.

(** Where a pump is after the chunks it copied: everything copied, framed as
    one stream, and everything framed sent while the channel is open. *)
Record pumped (name : str) (f0 : LineFramer) (chunks : list str) (records : list str) (p : pump) : Prop := {
  pd_teed : pu_teed p = concat chunks;
  pd_bodies : bodies p `prefix_of` records;
  pd_open : pu_open p = true → bodies p = records;
  pd_names : Forall (λ r, raw_source r = STDIO_SOURCE ∧ raw_kind r = name ∧ raw_attributes r = ∅ ∧ raw_payload_ref r = None) (pu_sent p);
}.

Section lemmas.
Variable name : str.

Lemma send_records_spec p records i answers :
  let p' := send_records name p records i answers in
  pu_framer p' = pu_framer p ∧ pu_teed p' = pu_teed p ∧ bodies p' `prefix_of` bodies p ++ records ∧ bodies p `prefix_of` bodies p' ∧
  (pu_open p' = true → pu_open p = true ∧ bodies p' = bodies p ++ records) ∧ (pu_open p = false → bodies p' = bodies p) ∧
  (Forall (λ r, raw_source r = STDIO_SOURCE ∧ raw_kind r = name ∧ raw_attributes r = ∅ ∧ raw_payload_ref r = None) (pu_sent p) →
   Forall (λ r, raw_source r = STDIO_SOURCE ∧ raw_kind r = name ∧ raw_attributes r = ∅ ∧ raw_payload_ref r = None) (pu_sent p')).
Proof.
  cbv zeta. revert p i. induction records as [|r records IH]; intros p i; cbn [send_records].
  - rewrite app_nil_r. by split_and!.
  - destruct (IH (send_stdio_signal name p r (answers i)) (S i)) as (H1 & H2 & H3 & H4 & H5 & H6 & H7). clear IH.
    set (p' := send_records _ _ _ _ _) in *. unfold send_stdio_signal in *. destruct (pu_open p) eqn:Eo; cbn [negb] in *.
    + destruct (answers i) as [ts [|]]; cbn [fst snd] in *.
      * unfold bodies in *. cbn [pu_sent pu_framer pu_teed pu_open] in *. rewrite fmap_app in *. cbn in *. rewrite <- app_assoc in *. cbn in *.
        split_and!; try done.
        -- etrans; [|exact H4]. by apply prefix_app_r.
        -- intros Hf. apply H7. apply Forall_app. split; [done|]. by repeat constructor.
      * cbn [pu_sent pu_framer pu_teed pu_open] in *. assert (bodies p' = bodies p) as -> by by apply H6.
        split_and!; try done; [by eexists|]. intros [Hp _]%H5. destruct (diff_false_true Hp).
    + assert (bodies p' = bodies p) as -> by by apply H6. split_and!; try done; [by eexists|]. intros [Hp _]%H5. rewrite Eo in Hp. destruct (diff_false_true Hp).
Qed.

(** Sending the next records keeps the pump in its place. *)
Lemma send_pumped f0 chunks before records p f i answers :
  pumped name f0 chunks before p → pumped name f0 chunks (before ++ records) (send_records name (set_framer p f) records i answers) ∧
    pu_framer (send_records name (set_framer p f) records i answers) = f.
Proof.
  intros [Ht Hb Ho Hn]. destruct (send_records_spec (set_framer p f) records i answers) as (H1 & H2 & H3 & H4 & H5 & H6 & H7).
  set (p' := send_records _ _ _ _ _) in *. split; [|done]. destruct (pu_open p) eqn:Eo.
  - specialize (Ho eq_refl). constructor; [by rewrite H2|..|by apply H7].
    + rewrite <- Ho. done.
    + intros Hp. destruct (H5 Hp) as [_ ->]. by rewrite <- Ho.
  - constructor; [by rewrite H2|..|by apply H7].
    + rewrite H6 by done. by apply prefix_app_r.
    + intros Hp. destruct (H5 Hp) as [Hp' _]. cbn in Hp'. congruence.
Qed.

Lemma frame_chunk_pumped f0 chunks c p answers :
  pumped name f0 chunks (push_all f0 chunks).1 p → pu_framer p = (push_all f0 chunks).2 →
  let p' := frame_chunk name (tee p c) c answers in
  pumped name f0 (chunks ++ [c]) (push_all f0 (chunks ++ [c])).1 p' ∧ pu_framer p' = (push_all f0 (chunks ++ [c])).2.
Proof.
  intros Hp Hf. cbv zeta. unfold frame_chunk. cbn [tee pu_framer]. rewrite push_all_snoc, Hf.
  destruct (push_all f0 chunks) as [r1 f1]. cbn [fst snd] in *. destruct (push f1 c) as [r2 f2]. cbn [fst snd].
  apply send_pumped. destruct Hp as [Ht Hb Ho Hn]. constructor; try done. cbn. rewrite Ht, concat_app. cbn. by rewrite app_nil_r.
Qed.

Lemma frame_end_pumped f0 chunks p answers :
  pumped name f0 chunks (push_all f0 chunks).1 p → pu_framer p = (push_all f0 chunks).2 →
  pumped name f0 chunks (frame_stream f0 chunks) (frame_end name p answers).
Proof.
  intros Hp Hf. unfold frame_end, frame_stream. rewrite Hf. destruct (push_all f0 chunks) as [r1 f1]. cbn [fst snd] in *.
  destruct (flush f1) as [record f2]. cbn [fst]. by apply send_pumped.
Qed.
End lemmas.

(** ** What a pump does in one turn *)

Definition read_bytes (t : turn) : str := match tu_read t with ReadBytes bytes => bytes | _ => [] end.

(** It goes on with a whole chunk; it stops by an error, having copied a part; it
    stops at the end, with the last record; or, a source, because its sink is
    closed. *)
Inductive turn_outcome (name : str) (p : pump) (t : turn) : pump → option (result PumpError unit) → Prop :=
| turn_goes_on c : tu_read t = ReadBytes c → c ≠ [] → turn_outcome name p t (frame_chunk name (tee p c) c (tu_send t)) None
| turn_fails part e : part `prefix_of` read_bytes t → e ≠ PipelineStopped → turn_outcome name p t (tee p part) (Some (Err e))
| turn_ends part p' r : part `prefix_of` read_bytes t → p' = frame_end name (tee p part) (tu_send t) →
    (r = Ok tt ∧ pu_open p' = true ∨ r = Err PipelineStopped ∧ pu_open p' = false ∨ r = Ok tt ∧ pu_open p' = false) →
    turn_outcome name p t p' (Some r)
| turn_closed c p' : tu_read t = ReadBytes c → p' = frame_chunk name (tee p c) c (tu_send t) → pu_open p' = false →
    turn_outcome name p t p' (Some (Ok tt)).

Lemma tee_nil p : tee p [] = p.
Proof. destruct p. unfold tee. cbn. by rewrite app_nil_r. Qed.

Lemma finish_outcome name p t part :
  part `prefix_of` read_bytes t → let r := pump_finish name (tee p part) (tu_send t) in turn_outcome name p t r.1 r.2.
Proof.
  intros Hp. cbv zeta. unfold pump_finish. cbn [fst snd]. eapply turn_ends; [done|reflexivity|]. destruct (pu_open (frame_end name (tee p part) (tu_send t))); auto.
Qed.

Lemma capture_turn_outcome name pty p t : turn_outcome name p t (capture_turn name pty p t).1 (capture_turn name pty p t).2.
Proof.
  assert (turn_outcome name p t (pump_finish name p (tu_send t)).1 (pump_finish name p (tu_send t)).2) as Hfin.
  { pose proof (finish_outcome name p t [] (prefix_nil _)) as H. by rewrite tee_nil in H. }
  assert (∀ e, e ≠ PipelineStopped → turn_outcome name p t p (Some (Err e))) as Herr.
  { intros e He. rewrite <- (tee_nil p) at 2. apply turn_fails; [apply prefix_nil|done]. }
  unfold capture_turn. destruct (tu_read t) as [[|b c]|e|e] eqn:Er; [done| |by destruct pty; [|apply Herr]|by apply Herr].
  destruct (tu_write t) as [|e part|e part] eqn:Ew; cbn [write_error].
  - destruct (tu_flush t) as [|e part|e part] eqn:Ef; cbn [write_error fst snd].
    + by apply turn_goes_on.
    + apply turn_fails; [|done]. unfold read_bytes. by rewrite Er.
    + apply turn_fails; [|done]. unfold read_bytes. by rewrite Er.
  - apply turn_fails; [|done]. unfold read_bytes. rewrite Er. apply prefix_take.
  - apply turn_fails; [|done]. unfold read_bytes. rewrite Er. apply prefix_take.
Qed.

(** At its end, everything that was read has been copied. *)
Lemma capture_turn_end name pty p t r :
  (capture_turn name pty p t).2 = Some r → (r = Ok tt ∨ r = Err PipelineStopped) →
  (tu_read t = ReadBytes [] ∨ pty = true ∧ ∃ e, tu_read t = ReadEio e) ∧ (capture_turn name pty p t).1 = frame_end name p (tu_send t).
Proof.
  unfold capture_turn, pump_finish. intros He Hr. destruct (tu_read t) as [[|b c]|e|e] eqn:Er.
  - split; [by left|done].
  - destruct (tu_write t) as [|e part|e part], (tu_flush t) as [|e' part'|e' part']; cbn in He; simplify_eq; by destruct Hr.
  - destruct pty; [split; [right; by eauto|done]|]. cbn in He. simplify_eq. by destruct Hr.
  - cbn in He. simplify_eq. by destruct Hr.
Qed.

Lemma nonblocking_turn_outcome name p t : turn_outcome name p t (nonblocking_turn name p t).1 (nonblocking_turn name p t).2.
Proof.
  assert (turn_outcome name p t (pump_finish name p (tu_send t)).1 (pump_finish name p (tu_send t)).2) as Hfin.
  { pose proof (finish_outcome name p t [] (prefix_nil _)) as H. by rewrite tee_nil in H. }
  unfold nonblocking_turn. destruct (tu_read t) as [[|b c]|e|e] eqn:Er; [done| |done|].
  - destruct (tu_write t) as [|e part|e part] eqn:Ew.
    + destruct (tu_flush t) as [|e part|e part] eqn:Ef.
      * by apply turn_goes_on.
      * apply finish_outcome. unfold read_bytes. by rewrite Er.
      * apply turn_fails; [|done]. unfold read_bytes. by rewrite Er.
    + apply finish_outcome. unfold read_bytes. rewrite Er. apply prefix_take.
    + apply turn_fails; [|done]. unfold read_bytes. rewrite Er. apply prefix_take.
  - cbn. rewrite <- (tee_nil p) at 2. apply turn_fails; [apply prefix_nil|done].
Qed.

Lemma source_turn_outcome name p t : turn_outcome name p t (source_turn name p t).1 (source_turn name p t).2.
Proof.
  assert (turn_outcome name p t (frame_end name p (tu_send t)) (Some (Ok tt))) as Hfin.
  { eapply turn_ends; [apply (prefix_nil)|by rewrite tee_nil|]. destruct (pu_open _); auto. }
  assert (∀ e, e ≠ PipelineStopped → turn_outcome name p t p (Some (Err e))) as Herr.
  { intros e He. rewrite <- (tee_nil p) at 2. apply turn_fails; [apply prefix_nil|done]. }
  unfold source_turn. destruct (tu_shutdown t); [done|]. destruct (tu_read t) as [[|b c]|e|e] eqn:Er; [done| |by apply Herr..].
  destruct (write_error (tu_write t)) as [[e part]|].
  - apply turn_fails; [|done]. unfold read_bytes. rewrite Er. apply prefix_take.
  - destruct (write_error (tu_flush t)) as [[e part]|]; cbn [fst snd].
    + apply turn_fails; [|done]. unfold read_bytes. by rewrite Er.
    + destruct (pu_open (frame_chunk name (tee p (b :: c)) (b :: c) (tu_send t))) eqn:Eo; [by apply turn_goes_on|by eapply turn_closed].
Qed.

(** ** What a pump has done *)

(** [chunks] are the reads of whole turns and [part] what it copied of the next
    one: the other end has exactly these bytes, the channel got the records of
    the framed chunks in order, and all of them if it was open to the end. *)
Definition faithful (name : str) (f0 : LineFramer) (turns : list turn) (chunks : list str) (part : str) (p : pump)
    (ended : option (result PumpError unit)) : Prop :=
  ReadBytes <$> chunks = tu_read <$> take (length chunks) turns ∧ Forall (λ c, c ≠ []) chunks ∧
  (∀ t, turns !! length chunks = Some t → part `prefix_of` read_bytes t) ∧
  pu_teed p = concat chunks ++ part ∧
  Forall (λ r, raw_source r = STDIO_SOURCE ∧ raw_kind r = name ∧ raw_attributes r = ∅ ∧ raw_payload_ref r = None) (pu_sent p) ∧
  (bodies p `prefix_of` frame_stream f0 chunks ∨ bodies p `prefix_of` frame_stream f0 (chunks ++ [part])) ∧
  match ended with
  | None => length chunks = length turns ∧ part = []
  | Some (Ok _) => pu_open p = true → bodies p = frame_stream f0 chunks
  | Some (Err PipelineStopped) => pu_open p = false
  | Some (Err _) => True
  end.

Lemma push_all_prefix f cs : (push_all f cs).1 `prefix_of` frame_stream f cs.
Proof. unfold frame_stream. destruct (push_all f cs) as [r f']. cbn. by eexists. Qed.

Lemma pumped_teed name f0 chunks records p part :
  pumped name f0 chunks records p → pu_teed (tee p part) = concat chunks ++ part.
Proof. intros [Ht _ _ _]. cbn. by rewrite Ht. Qed.


Section run.
Variables (name : str) (f0 : LineFramer) (step : pump → turn → pump * option (result PumpError unit)).
Hypothesis step_outcome : ∀ p t, turn_outcome name p t (step p t).1 (step p t).2.

Lemma run_turns_faithful turns past chunks p :
  ReadBytes <$> chunks = tu_read <$> past → Forall (λ c, c ≠ []) chunks →
  pumped name f0 chunks (push_all f0 chunks).1 p → pu_framer p = (push_all f0 chunks).2 →
  let '(p', ended) := run_turns step p turns in ∃ more part, faithful name f0 (past ++ turns) (chunks ++ more) part p' ended ∧
    ∀ r, ended = Some r → ∃ t last, (past ++ turns) !! length (chunks ++ more) = Some t ∧ step last t = (p', Some r) ∧ pu_teed last = concat (chunks ++ more).
Proof.
  revert past chunks p. induction turns as [|t turns IH]; intros past chunks p Hc Hne Hp Hf; cbn [run_turns].
  - exists [], []. rewrite !app_nil_r. assert (length chunks = length past) as Hl by (apply (f_equal length) in Hc; by rewrite !length_fmap in Hc).
    destruct Hp as [Ht Hb Ho Hn]. split; [|done]. unfold faithful. split_and!; try done.
    + by rewrite Hl, take_ge.
    + intros t _. apply prefix_nil.
    + by rewrite app_nil_r.
    + left. etrans; [exact Hb|apply push_all_prefix].
  - assert (length chunks = length past) as Hl by (apply (f_equal length) in Hc; by rewrite !length_fmap in Hc).
    assert (ReadBytes <$> chunks = tu_read <$> take (length chunks) (past ++ t :: turns)) as Hreads by by rewrite Hl, take_app_length.
    assert ((past ++ t :: turns) !! length chunks = Some t) as Hat by by rewrite Hl, list_lookup_middle.
    pose proof (pd_teed _ _ _ _ _ Hp) as Htee. pose proof (step_outcome p t) as Hs. destruct (step p t) as [p' ended] eqn:Es. cbn [fst snd] in Hs.
    assert (∀ q r, ended = Some r → p' = q → ∃ t' last, (past ++ t :: turns) !! length (chunks ++ []) = Some t' ∧
      step last t' = (q, Some r) ∧ pu_teed last = concat (chunks ++ [])) as Hlast.
    { intros q r -> <-. rewrite app_nil_r. by exists t, p. }
    destruct Hs as [c Hr Hc0|part e Hpart He|part p' r Hpart -> Hr|c p' Hr -> Ho'].
    + replace (past ++ t :: turns) with ((past ++ [t]) ++ turns) by by rewrite <- app_assoc.
      destruct (frame_chunk_pumped name f0 chunks c p (tu_send t) Hp Hf) as [Hp' Hf'].
      specialize (IH (past ++ [t]) (chunks ++ [c]) _ ltac:(by rewrite !fmap_app, Hc; cbn; rewrite Hr) ltac:(apply Forall_app; by split; [|constructor]) Hp' Hf').
      destruct (run_turns step _ turns) as [p'' ended]. destruct IH as (more & part & IH). exists (c :: more), part. by rewrite <- (app_assoc chunks) in IH.
    + exists [], part. split; [|intros r [= <-]; by apply Hlast]. rewrite app_nil_r. pose proof (pumped_teed _ _ _ _ _ part Hp) as Htd. destruct Hp as [Ht Hb Ho Hn].
      unfold faithful. rewrite Hat. split_and!; try done; [by intros ? [= <-]| |by destruct e]. left. etrans; [exact Hb|apply push_all_prefix].
    + exists [], part. split; [|intros r' [= <-]; by apply Hlast]. rewrite app_nil_r.
      assert (pumped name f0 (chunks ++ [part]) (push_all f0 chunks).1 (tee p part)) as Hpt.
      { destruct Hp as [Ht Hb Ho Hn]. constructor; try done. cbn. rewrite Ht, concat_app. cbn. by rewrite app_nil_r. }
      assert (pumped name f0 (chunks ++ [part]) (frame_stream f0 chunks) (frame_end name (tee p part) (tu_send t))) as [Ht Hb Ho Hn].
      { unfold frame_end, frame_stream. cbn [pu_framer tee]. rewrite Hf. destruct (push_all f0 chunks) as [r1 f1]. cbn [fst snd] in *.
        destruct (flush f1) as [record f2]. cbn [fst]. by apply send_pumped. }
      unfold faithful. rewrite Hat. split_and!; try done.
      * by intros ? [= <-].
      * rewrite Ht, concat_app. cbn. by rewrite app_nil_r.
      * by left.
      * destruct Hr as [[-> ?]|[[-> ?]|[-> ?]]]; done.
    + exists [], c. split; [|intros r' [= <-]; by apply Hlast]. rewrite app_nil_r. destruct (frame_chunk_pumped name f0 chunks c p (tu_send t) Hp Hf) as [[Ht Hb Ho Hn] _].
      unfold faithful. rewrite Hat. split_and!; try done.
      * intros ? [= <-]. unfold read_bytes. by rewrite Hr.
      * rewrite Ht, concat_app. cbn. by rewrite app_nil_r.
      * right. etrans; [exact Hb|apply push_all_prefix].
      * by rewrite Ho'.
Qed.
End run.

Lemma pump_start_pumped name f0 : pumped name f0 [] (push_all f0 []).1 (mkPump f0 [] [] true) ∧ pu_framer (mkPump f0 [] [] true) = (push_all f0 []).2.
Proof. split; [|done]. constructor; [done|done|done|constructor]. Qed.

(** ** Properties *)

(** Where a pump's stream ends. *)
Definition at_end (pty : bool) (t : turn) : Prop := tu_read t = ReadBytes [] ∨ pty = true ∧ ∃ e, tu_read t = ReadEio e.

Lemma frame_end_teed name p answers : pu_teed (frame_end name p answers) = pu_teed p.
Proof.
  unfold frame_end. destruct (flush (pu_framer p)) as [record f].
  by destruct (send_records_spec name (set_framer p f) (option_list record) 0 answers) as (_ & -> & _).
Qed.

(** The standard streams are copied exactly and recorded completely.
    Whatever a pump's streams, clock and channel answer: the other end gets
    exactly the bytes read, in order, up to the point where the pump is; the
    channel gets, in order, the records of those bytes as the line framer
    cuts them, under the stream's name.  The child's output and input pump
    ends only at the end of its stream or at an I/O error, so a closed event
    pipeline never stops the copying: it ends with success exactly when every
    record was sent, and says so otherwise.  The terminal's and the session's
    variants do the same. *)
Theorem stdio_capture_faithful (name : str) (turns : list turn) (max : nat) (f : LineFramer) :
  LineFramer_new max = Some f →
  (∀ pty, let '(p, ended) := capture_stream_impl name pty turns in
     ∃ chunks part, faithful name (mkLineFramer [] MAX_STDIO_LINE_BYTES) turns chunks part p ended ∧
       (ended = Some (Ok tt) ∨ ended = Some (Err PipelineStopped) →
          part = [] ∧ (∃ t, turns !! length chunks = Some t ∧ at_end pty t) ∧
          (ended = Some (Ok tt) → bodies p = frame_stream (mkLineFramer [] MAX_STDIO_LINE_BYTES) chunks))) ∧
  (let '(p, ended) := capture_nonblocking_stdin name turns in
     ∃ chunks part, faithful name (mkLineFramer [] MAX_STDIO_LINE_BYTES) turns chunks part p ended) ∧
  (∃ p ended, stdio_source_run name max turns = Some (p, ended) ∧ ∃ chunks part, faithful name f turns chunks part p ended).
Proof.
  intros Hf. set (f0 := mkLineFramer [] MAX_STDIO_LINE_BYTES). split_and!.
  - intros pty. destruct (pump_start_pumped name f0) as [Hp Hpf].
    pose proof (run_turns_faithful name f0 (capture_turn name pty) (capture_turn_outcome name pty) turns [] [] _ eq_refl (Forall_nil_2 _) Hp Hpf) as H.
    change (run_turns (capture_turn name pty) (mkPump f0 [] [] true) turns) with (capture_stream_impl name pty turns) in H.
    destruct (capture_stream_impl name pty turns) as [p ended]. destruct H as (chunks & part & Hfa & Hl). exists chunks, part. split; [done|].
    intros He. assert (∃ r, ended = Some r ∧ (r = Ok tt ∨ r = Err PipelineStopped)) as (r & -> & Hr).
    { destruct He as [-> | ->]; eexists; (split; [done|]); auto. }
    destruct (Hl r eq_refl) as (t & last & Ht & Hs & Htee). cbn [app] in *.
    destruct (capture_turn_end name pty last t r) as [Hend Hfe]; [by rewrite Hs|done|]. rewrite Hs in Hfe. cbn [fst] in Hfe.
    destruct Hfa as (_ & _ & _ & Hteed & _ & _ & Hm). assert (part = []) as ->.
    { rewrite Hfe, frame_end_teed, Htee in Hteed. by apply (app_inv_head (concat chunks)); rewrite app_nil_r. }
    split; [reflexivity|]. split; [exists t; by split|]. intros Hok. injection Hok as ->. apply Hm.
    unfold capture_turn, pump_finish in Hs. destruct Hend as [E|[-> [e E]]]; rewrite E in Hs; injection Hs as <- Ho; by destruct (pu_open _).
  - destruct (pump_start_pumped name f0) as [Hp Hpf].
    pose proof (run_turns_faithful name f0 (nonblocking_turn name) (nonblocking_turn_outcome name) turns [] [] _ eq_refl (Forall_nil_2 _) Hp Hpf) as H.
    change (run_turns (nonblocking_turn name) (mkPump f0 [] [] true) turns) with (capture_nonblocking_stdin name turns) in H.
    destruct (capture_nonblocking_stdin name turns) as [p ended]. destruct H as (chunks & part & Hfa & _). by exists chunks, part.
  - destruct (pump_start_pumped name f) as [Hp Hpf]. unfold stdio_source_run. rewrite Hf. cbn [mbind option_bind].
    pose proof (run_turns_faithful name f (source_turn name) (source_turn_outcome name) turns [] [] _ eq_refl (Forall_nil_2 _) Hp Hpf) as H.
    destruct (run_turns (source_turn name) (mkPump f [] [] true) turns) as [p ended]. exists p, ended. split; [done|].
    destruct H as (chunks & part & Hfa & _). by exists chunks, part.
Qed.

(** *** The detached reader *)

Lemma poll_read_bytes d n d' r :
  poll_read d n = (d', PollReady (Ok r)) →
  dr_pending d ++ concat (omap (λ i, match i with Ok b => Some b | Err _ => None end) (dr_chunks d)) =
  r ++ dr_pending d' ++ concat (omap (λ i, match i with Ok b => Some b | Err _ => None end) (dr_chunks d')).
Proof.
  unfold poll_read. destruct (dr_pending d) as [|b p] eqn:Ep.
  - destruct (dr_chunks d) as [|[c|e] rest] eqn:Ec; [by destruct (dr_done d); intros [= <- <-]; rewrite Ep, Ec| |done].
    intros [= <- <-]. cbn [dr_pending dr_chunks omap list_omap concat app]. by rewrite app_assoc, take_drop.
  - intros [= <- <-]. cbn [dr_pending dr_chunks]. by rewrite app_assoc, take_drop.
Qed.

Lemma forward_reads_prefix reads i accepts :
  omap (λ r, match r with Ok b => Some b | Err _ => None end) (forward_blocking_reads reads i accepts) `prefix_of`
  omap (λ r, match r with GotBytes b => Some b | _ => None end) reads.
Proof.
  revert i. induction reads as [|[[|b c]| |e] reads IH]; intros i; cbn [forward_blocking_reads]; [done|apply prefix_nil| |apply IH|].
  - destruct (accepts i); [|apply prefix_nil]. cbn. apply prefix_cons, IH.
  - destruct (accepts i); apply prefix_nil.
Qed.

(** *** The log event *)

(** The record a log event carries. *)
Definition recorded_bytes {U : UlidLib} {B : Base64} (e : Event) : option str :=
  match attr e "message", attr e "message_base64", attr e "message_encoding" with
  | Some (AString m), None, None => Some m
  | None, Some (AString m), Some (AString encoding) => if bool_decide (encoding = bs "base64") then b64_decode m else None
  | _, _, _ => None
  end.

(** A log event holds its record.  Every signal of a pump is normalized
    to exactly one log event, of the stream's name and at the signal's time,
    whose attributes are only the message (as text, or in base64 when it is
    no UTF-8), the stream and the source; the record's bytes can be read back
    from it unchanged, also when they are no text. *)
Theorem stdio_event_recovers_record {U : UlidLib} {B : Base64} {L : Base64Laws} {N : Type} (mint : N → N * EventId) (n : N)
    (context : NormalizationContext) (raw : RawSignal) :
  stdio_supports raw = Exact →
  ∃ e name, (stdio_normalize mint n context raw).2 = Ok (from_events [e]) ∧ stdio_kind (raw_kind raw) = Some name ∧
    event_name e = lit EventNameK name ∧ signal e = Log ∧ ts e = observed_at raw ∧ event_id e = (mint n).2 ∧
    recorded_bytes e = Some (raw_body raw) ∧ attr e "stream" = Some (AString (raw_kind raw)) ∧ attr e "source" = Some (AString STDIO_SOURCE) ∧
    dom (attributes e) ⊆ {[key "message"; key "message_base64"; key "message_encoding"; key "stream"; key "source"]}.
Proof.
  intros Hs. unfold stdio_supports in Hs. destruct (bool_decide (raw_source raw = STDIO_SOURCE)) eqn:E1; [|done].
  apply bool_decide_eq_true in E1. destruct (stdio_kind (raw_kind raw)) as [name|] eqn:Ek; [|done].
  unfold stdio_normalize. rewrite Ek. destruct (mint n) as [n' minted]. cbn [snd]. eexists _, name. split; [reflexivity|].
  unfold recorded_bytes, attr. destruct (from_utf8 (raw_body raw)) as [m|] eqn:Em.
  - unfold from_utf8 in Em. destruct (utf8_valid (raw_body raw)); [|done]. injection Em as <-. rewrite E1. split_and!; try done.
    rewrite !dom_with_attribute. cbn [attributes Event_new]. rewrite dom_empty_L. clear. set_solver.
  - rewrite E1. split_and!; try done.
    + transitivity (b64_decode (b64_encode (raw_body raw))); [reflexivity|apply b64_roundtrip].
    + rewrite !dom_with_attribute. cbn [attributes Event_new]. rewrite dom_empty_L. clear. set_solver.
Qed.

(** ** Witnesses *)

Definition at_time (z : Z) : nat → Hlc * bool := λ i, (mkHlc z (Z.of_nat i), true).
Definition sample_turn (bytes : str) (z : Z) : turn := mkTurn false (ReadBytes bytes) Written Written (at_time z).
Definition sample_turns : list turn := [sample_turn (bs "one" ++ [x0a] ++ bs "tw") 1; sample_turn (bs "o" ++ [xff]) 2; sample_turn [] 3].

Lemma stdio_capture_faithful_witness :
  bodies (capture_stream_impl (bs "stdout") false sample_turns).1 = [bs "one"; bs "two" ++ [xff]] ∧
  ∃ p ended, stdio_source_run (bs "stdout") 4 sample_turns = Some (p, ended) ∧
    ∃ chunks part, faithful (bs "stdout") (mkLineFramer [] 4) sample_turns chunks part p ended.
Proof. split; [vm_compute; reflexivity|]. apply (stdio_capture_faithful (bs "stdout") sample_turns 4 (mkLineFramer [] 4)). reflexivity. Defined.

(** A text form of bytes that can be read back: two hexadecimal digits a byte. *)
Definition hex_byte (b : byte) : str := [Net.hex_digit (bz b / 16); Net.hex_digit (bz b mod 16)].
Fixpoint unhex (s : str) : option str :=
  match s with
  | [] => Some []
  | h :: l :: s => a ← hex_val h; b ← hex_val l; cons (byte_of_Z (a * 16 + b)) <$> unhex s
  | _ => None
  end.
#[local] Instance hex_text : Base64 := {| b64_encode s := s ≫= hex_byte; b64_decode := unhex |}.
#[local] Instance hex_text_laws : Base64Laws.
Proof.
  intros s. change (unhex (s ≫= hex_byte) = Some s). induction s as [|b s IH]; [done|]. cbn [mbind list_bind hex_byte app unhex].
  assert (∀ c : byte, bool_decide ((a ← hex_val (Net.hex_digit (bz c / 16)); d ← hex_val (Net.hex_digit (bz c mod 16)); Some (byte_of_Z (a * 16 + d))) = Some c) = true) as Hc
    by (apply forall_bytes; vm_compute; reflexivity).
  specialize (Hc b). apply bool_decide_eq_true in Hc. destruct (hex_val (Net.hex_digit (bz b / 16))) as [a|]; [|done]. cbn [mbind option_bind] in *.
  destruct (hex_val (Net.hex_digit (bz b mod 16))) as [d|]; [|done]. cbn [mbind option_bind] in *. injection Hc as Hc. change (list_bind _ _ hex_byte s) with (s ≫= hex_byte). rewrite IH. cbn. by rewrite Hc.
Qed.

#[local] Existing Instance crockford_ulid.
Definition mint_one (n : nat) : nat * EventId := (S n, mkEventId (run_ulid (sample_run [1]))).
Definition sample_raw : RawSignal := RawSignal_new STDIO_SOURCE (bs "stderr") (mkHlc 5 0) [xff; x00; x41].
Lemma stdio_event_recovers_record_witness :
  ∃ e, recorded_bytes e = Some [xff; x00; x41] ∧ attr e "stream" = Some (AString (bs "stderr")) ∧
    attr e "message_base64" = Some (AString (bs "ff0041")).
Proof.
  assert (attr (match (stdio_normalize mint_one 0 (NormalizationContext_new Spool.Scripted.ctx) sample_raw).2 with
     | Ok out => default (Event_new (mint_one 0).2 Spool.Scripted.ctx (mkHlc 0 0) Log (lit EventNameK "x")) (head (outcome_events out))
     | Err _ => Event_new (mint_one 0).2 Spool.Scripted.ctx (mkHlc 0 0) Log (lit EventNameK "x") end) "message_base64" = Some (AString (bs "ff0041"))) as Hm
    by (vm_compute; reflexivity).
  destruct (stdio_event_recovers_record mint_one 0 (NormalizationContext_new Spool.Scripted.ctx) sample_raw ltac:(vm_compute; reflexivity))
    as (e & name & He & _ & _ & _ & _ & _ & Hb & Hs & _). rewrite He in Hm. exists e. split; [exact Hb|]. split; [exact Hs|exact Hm].
Defined.
