(* ===== verification/Child.v ===== *)
(** * The captured child (crates/hiloop-interceptor/src/exec_events.rs, and the
    child's part of supervisor.rs)

    What the supervisor gives the child and records of it:

    - the child's environment ([ChildEnv]) with the run's identity, the telemetry
      endpoint, the proxy and the trust bundle;
    - the environment values it may record, scrubbed ([captured_env_values]);
    - the lifecycle signals ([emit_start], [emit_exit], [emit_signal]) and the
      events they become ([ExecLifecycleNormalizer]);
    - the forwarding of terminating signals, and the spawn failure's event.

    [OsString]s are byte strings.  The signal names of the [nix] crate, the scan
    of the redactor and the printing of an argument list are parameters. *)
From Stdlib Require Import Strings.Byte.
From S2P Require Import Prelude Text Utf8 Net Identity Event Capture Spool Seams Pipeline Redact RunEnd.

(** ** 64-bit integers from text *)

(** [str::parse::<i64>] with its [ParseIntError]. *)
Inductive IntError := IntEmpty | IntInvalidDigit | IntPosOverflow | IntNegOverflow.
Definition IntError_fmt (e : IntError) : str :=
  bs match e with
     | IntEmpty => "cannot parse integer from empty string"
     | IntInvalidDigit => "invalid digit found in string"
     | IntPosOverflow => "number too large to fit in target type"
     | IntNegOverflow => "number too small to fit in target type"
     end.
Definition i64_min : Z := -9223372036854775808.
Fixpoint i64_digits (negative : bool) (acc : Z) (s : str) : result IntError Z :=
  match s with
  | [] => Ok acc
  | b :: s =>
      match digit_val b with
      | None => Err IntInvalidDigit
      | Some d =>
          if negative then
            let acc := (acc * 10 - d)%Z in if (i64_min <=? acc)%Z then i64_digits negative acc s else Err IntNegOverflow
          else
            let acc := (acc * 10 + d)%Z in if (acc <=? i64_max)%Z then i64_digits negative acc s else Err IntPosOverflow
      end
  end.
Definition parse_i64 (s : str) : result IntError Z :=
  match s with
  | [] => Err IntEmpty
  | [b] => if byte_is x2b b || byte_is x2d b then Err IntInvalidDigit else i64_digits false 0 s
  | b :: rest =>
      if byte_is x2d b then i64_digits true 0 rest
      else if byte_is x2b b then i64_digits false 0 rest
      else i64_digits false 0 s
  end.

(** ** The child's environment *)

Definition OTEL_RUN_ID : str := bs "hiloop.run.id".
Definition OTEL_LINEAGE_PATH : str := bs "hiloop.run.lineage_path".
Definition OTEL_EXECUTION_ID : str := bs "hiloop.execution.id".

Definition unreserved (b : byte) : bool :=
  is_ascii_alphanumeric b || byte_is x2d b || byte_is x2e b || byte_is x5f b || byte_is x7e b.
Definition upper_hex (d : Z) : byte := if (d <? 10)%Z then byte_of_Z (48 + d) else byte_of_Z (55 + d).
Definition encode_otel_byte (b : byte) : str :=
  if unreserved b then [b] else [x25; upper_hex (bz b / 16); upper_hex (bz b mod 16)].
Definition encode_otel_resource_value (value : str) : str := value ≫= encode_otel_byte.

(** [union_ca_bundle] *)
Definition union_ca_bundle (system_roots : option str) (interception_ca_pem : str) : str :=
  match system_roots with
  | Some roots => roots ++ (if ends_with [x0a] roots then [] else [x0a]) ++ interception_ca_pem
  | None => interception_ca_pem
  end.

(** [read_system_ca_roots]: the bytes of the first readable, non-empty file among
    [SSL_CERT_FILE] and the known places; [read] answers for the file system. *)
Definition SYSTEM_CA_BUNDLE_CANDIDATES : list str :=
  bs <$> ["/etc/ssl/certs/ca-certificates.crt"; "/etc/pki/tls/certs/ca-bundle.crt"; "/etc/ssl/cert.pem";
          "/etc/pki/ca-trust/extracted/pem/tls-ca-bundle.pem"]%string.
Definition read_nonempty (read : str → option str) (path : str) : option str :=
  bytes ← read path; if bool_decide (bytes = []) then None else Some bytes.
Definition first_some {A B} (f : A → option B) (l : list A) : option B := head (omap f l).
Definition read_system_ca_roots (read : str → option str) (ssl_cert_file : option str) : option str :=
  first_some (read_nonempty read) (option_list ssl_cert_file ++ SYSTEM_CA_BUNDLE_CANDIDATES).

Definition ChildEnv := list (str * str).
Abbreviation environment := (gmap str str).

Section child_env.
Context {U : UlidLib}.

Definition visible_id (execution_id : option str) : option str :=
  match execution_id with Some value => if is_blank value then None else Some value | None => None end.

Definition resource_attributes (context : RunContext) (execution_id : option str) : list str :=
  [OTEL_RUN_ID ++ bs "=" ++ RunId_fmt (ctx_run_id context); OTEL_LINEAGE_PATH ++ bs "=" ++ LineagePath_fmt (ctx_lineage_path context)] ++
  match visible_id execution_id with Some id => [OTEL_EXECUTION_ID ++ bs "=" ++ encode_otel_resource_value id] | None => [] end.

Definition for_run (context : RunContext) (execution_id : option str) : ChildEnv :=
  [(bs "HILOOP_RUN_ID", RunId_fmt (ctx_run_id context));
   (bs "HILOOP_LINEAGE_PATH", LineagePath_fmt (ctx_lineage_path context));
   (bs "OTEL_RESOURCE_ATTRIBUTES", join (bs ",") (resource_attributes context execution_id))] ++
  match visible_id execution_id with Some id => [(bs "HILOOP_EXECUTION_ID", id)] | None => [] end.
End child_env.

Definition find_last {A} (p : A → bool) (l : list A) : option A := last (filter (λ x, p x = true) l).
Definition child_value (env : ChildEnv) (inherited : environment) (name : str) : option str :=
  match find_last (λ v : str * str, bool_decide (v.1 = name)) env with
  | Some (_, value) => Some value
  | None => inherited !! name
  end.
(** [command.envs]: each pair overrides. *)
Definition apply_to (env : ChildEnv) (inherited : environment) : environment :=
  foldl (λ m v, <[v.1 := v.2]> m) inherited env.

Definition set_otlp_endpoint (env : ChildEnv) (inherited : environment) (ip : IpAddr) (port : Z) : ChildEnv :=
  env ++
  [(bs "OTEL_EXPORTER_OTLP_ENDPOINT", bs "http://" ++ fmt_socket_addr ip port);
   (bs "OTEL_EXPORTER_OTLP_PROTOCOL", bs "http/protobuf");
   (bs "OTEL_BSP_MAX_EXPORT_BATCH_SIZE", show_uint CAPTURE_OTLP_MAX_EXPORT_BATCH_SIZE)] ++
  match child_value env inherited (bs "OTEL_BSP_MAX_QUEUE_SIZE") ≫= (λ value, capture_otlp_queue_override (from_utf8 value)) with
  | Some queue => [(bs "OTEL_BSP_MAX_QUEUE_SIZE", show_uint queue)]
  | None => []
  end.

Definition ca_variables : list str :=
  bs <$> ["SSL_CERT_FILE"; "REQUESTS_CA_BUNDLE"; "NODE_EXTRA_CA_CERTS"; "CURL_CA_BUNDLE"; "GIT_SSL_CAINFO"]%string.
Definition set_ca_bundle (env : ChildEnv) (ca_path : str) : ChildEnv := env ++ ((λ var, (var, ca_path)) <$> ca_variables).
Definition proxy_variables : list str := bs <$> ["HTTPS_PROXY"; "HTTP_PROXY"; "https_proxy"; "http_proxy"]%string.
Definition set_proxy (env : ChildEnv) (ip : IpAddr) (port : Z) (ca_path : str) : ChildEnv :=
  env ++ ((λ var, (var, bs "http://" ++ fmt_socket_addr ip port)) <$> proxy_variables) ++ ((λ var, (var, ca_path)) <$> ca_variables).

(** ** Recorded environment values *)

(** [None] is the panic of the redactor's slices. *)
Definition captured_env_values (find : ScanMode → str → list Match) (redaction : RedactionPolicy) (env_allowlist : list str)
    (lookup : str → option str) : option (list (str * str)) :=
  omap id <$> mapM (λ name, match lookup name with
                            | None => Some None
                            | Some value =>
                                scrubbed ← policy_redact_body find redaction (from_utf8_lossy value);
                                Some (Some (name, from_utf8_lossy scrubbed))
                            end) env_allowlist.

(** ** Lifecycle signals *)

Definition PROCESS_START : str := bs "process.start".
Definition PROCESS_EXIT : str := bs "process.exit".
Definition PROCESS_SIGNAL : str := bs "process.signal".
Definition PROCESS_SPAWN_FAILED : string := "process.spawn_failed".
Definition PROCESS_ENV_ALLOWLIST : str := bs "process.env_allowlist".
Definition PROCESS_ENV_PREFIX : str := bs "process.env.".
Definition PROCESS_EXIT_CODE : str := bs "process.exit_code".
Definition PROCESS_DURATION_MS : str := bs "process.duration_ms".
Definition PROCESS_TERM_SIGNAL : str := bs "process.term_signal".
Definition PROCESS_ERROR : string := "process.error".
Definition SIGNAL : str := bs "signal".
Definition I64_KEYS : list str := [PROCESS_EXIT_CODE; PROCESS_DURATION_MS].

Definition emit_start (observed_at : Hlc) (env_allowlist : list str) (env_values : list (str * str)) : RawSignal :=
  let raw := RawSignal_new EXEC_SOURCE PROCESS_START observed_at [] in
  let raw := if bool_decide (env_allowlist = []) then raw
             else RawSignal_with_attribute raw PROCESS_ENV_ALLOWLIST (join (bs ",") env_allowlist) in
  foldl (λ raw v, RawSignal_with_attribute raw (PROCESS_ENV_PREFIX ++ v.1) v.2) raw env_values.

(** [duration_ms] is [Duration::as_millis], at most 128 bits. *)
Definition emit_exit (tick : Hlc) (exit_code : Z) (term_signal : option str) (duration_ms : Z) : RawSignal :=
  let raw := RawSignal_new EXEC_SOURCE PROCESS_EXIT tick [] in
  let raw := RawSignal_with_attribute raw PROCESS_EXIT_CODE (show_uint exit_code) in
  let raw := RawSignal_with_attribute raw PROCESS_DURATION_MS (show_uint (if (duration_ms <=? i64_max)%Z then duration_ms else i64_max)) in
  match term_signal with Some name => RawSignal_with_attribute raw PROCESS_TERM_SIGNAL name | None => raw end.

Definition emit_signal (tick : Hlc) (signal_name : str) : RawSignal :=
  RawSignal_with_attribute (RawSignal_new EXEC_SOURCE PROCESS_SIGNAL tick []) SIGNAL signal_name.

(** ** The normalizer *)

Definition EXEC_DESCRIPTOR : NormalizerDescriptor := mkDescriptor (bs "exec-lifecycle") (bs "0.1.0") (bs "hiloop.event.v1").
Definition exec_kinds : list str := [PROCESS_START; PROCESS_EXIT; PROCESS_SIGNAL].
Definition exec_supports (raw : RawSignal) : NormalizerSupport :=
  if bool_decide (raw_source raw = EXEC_SOURCE) && bool_decide (raw_kind raw ∈ exec_kinds) then Exact else NotSupported.

Definition exec_value (k v : str) : result str AttributeValue :=
  if bool_decide (k ∈ I64_KEYS) then
    AI64 <$> map_err (λ e, bs "attribute `" ++ k ++ bs "` is not a 64-bit integer: " ++ IntError_fmt e) (parse_i64 v)
  else Ok (AString v).

(** A blank text of kind [k] is the only error of [text_new]. *)
Definition blank_text (k : text_kind) : str := text_field k ++ bs " must not be blank".

Section exec_normalizer.
Context {U : UlidLib} {N : Type} (mint : N → N * EventId).

Fixpoint exec_attributes (event : Event) (attributes : list (str * str)) : result str Event :=
  match attributes with
  | [] => Ok event
  | (k, v) :: attributes =>
      attribute_key ← map_err (λ _, blank_text AttributeKeyK) (text_new AttributeKeyK k);
      attribute_value ← exec_value k v;
      exec_attributes (with_attribute event attribute_key attribute_value) attributes
  end.

Definition exec_normalize (n : N) (context : NormalizationContext) (raw : RawSignal)
    : N * result NormalizeError NormalizationOutcome :=
  let decode message := Decode (raw_source raw) (raw_kind raw) message in
  if negb (is_supported (exec_supports raw)) then
    (n, Err (Unsupported (descriptor_name EXEC_DESCRIPTOR) (raw_source raw) (raw_kind raw)))
  else match text_new EventNameK (raw_kind raw) with
       | Err _ => (n, Err (decode (blank_text EventNameK)))
       | Ok name =>
           let '(n, minted) := mint n in
           let event := Event_new minted (run_context context) (observed_at raw) Exec name in
           (n, match exec_attributes event (btree_iter (raw_attributes raw)) with
               | Err message => Err (decode message)
               | Ok event => Ok (from_events [event])
               end)
       end.
Definition ExecLifecycleNormalizer : Normalizer N := mkNormalizer EXEC_DESCRIPTOR exec_supports exec_normalize.

(** ** The spawn failure *)

Definition child_process_context (command : list str) (cwd : option str) (pid : option Z) : ProcessContext :=
  mkProcess pid (head command) command cwd.
Definition spawn_failure_event (argv_json : list str → str) (context : RunContext) (attributes : Attributes) (command : list str)
    (cwd : option str) (minted : EventId) (ts : Hlc) (error : str) : Event :=
  let nc := with_process (with_attributes (NormalizationContext_new context) attributes) (child_process_context command cwd None) in
  with_attribute (stamp_provenance argv_json nc (Event_new minted (run_context nc) ts Exec (lit EventNameK PROCESS_SPAWN_FAILED)))
    (key PROCESS_ERROR) (AString error).
End exec_normalizer.

(** ** Signals *)

Inductive terminating := SIGINT | SIGTERM.
Definition signal_as_str (s : terminating) : str := bs match s with SIGINT => "SIGINT" | SIGTERM => "SIGTERM" end.

(** [term_signal_name]; [names] is [Signal::try_from] with [Signal::as_str]. *)
Definition term_signal_name (names : Z → option str) (status : ExitStatus) : option str :=
  match status with ExitedSignal signo => names signo | ExitedCode _ => None end.

(** What the loop sees and does. *)
Inductive supervised := WorkDone | Received (s : terminating) | WindowChanged.
Inductive action := KillGroup (pgid : Z) (s : terminating) | RecordSignal (name : str) | ResizePty.

Definition i32_max : Z := 2147483647.
Definition forward_signal (child_pid : option Z) (s : terminating) : list action :=
  match child_pid with
  | Some pid => if (pid <=? i32_max)%Z then [KillGroup pid s] else []
  | None => []
  end.
Definition forward_and_record (child_pid : option Z) (s : terminating) (emitter : bool) : list action :=
  forward_signal child_pid s ++ (if emitter then [RecordSignal (signal_as_str s)] else []).

(** [with_signal_forwarding]: the actions, and whether the work was done. *)
Fixpoint with_signal_forwarding (installed : bool) (child_pid : option Z) (pty emitter : bool) (seen : list supervised)
    : list action * bool :=
  match seen with
  | [] => ([], false)
  | WorkDone :: _ => ([], true)
  | e :: seen =>
      let '(actions, done) := with_signal_forwarding installed child_pid pty emitter seen in
      ((if negb installed then []
        else match e with
             | Received s => forward_and_record child_pid s emitter
             | WindowChanged => if pty then [ResizePty] else []
             | WorkDone => []
             end) ++ actions, done)
  end.

(** ** Lemmas *)

Lemma i64_digits_parse acc s z : parse_digits i64_max acc s = Some z → i64_digits false acc s = Ok z.
Proof.
  revert acc. induction s as [|b s IH]; intros acc; cbn [parse_digits i64_digits]; [by intros [= ->]|].
  destruct (digit_val b) as [d|]; [|done]. cbn [mbind option_bind]. destruct (_ <=? i64_max)%Z; [apply IH|done].
Qed.

Lemma parse_i64_show z : (0 ≤ z ≤ i64_max)%Z → parse_i64 (show_uint z) = Ok z.
Proof.
  intros Hz. pose proof (show_uint_fuel_digits 20 z ltac:(lia)) as Hd. fold (show_uint z) in Hd. pose proof (show_uint_ne z) as Hne.
  assert (parse_digits i64_max 0 (show_uint z) = Some z) as Hp.
  { unfold show_uint. apply parse_show_fuel; [done|]. unfold i64_max in *. simpl. lia. }
  apply i64_digits_parse in Hp. unfold parse_i64. destruct (show_uint z) as [|b s]; [done|]. apply Forall_cons in Hd as [Hb _].
  assert (byte_is x2b b = false ∧ byte_is x2d b = false) as [-> ->] by (split; apply byte_is_false; by intros ->). by destruct s.
Qed.

Lemma last_filter_Some {A} (p : A → bool) l x : find_last p l = Some x → x ∈ l ∧ p x = true.
Proof. unfold find_last. intros H. apply last_Some in H as [l' Hl]. assert (x ∈ filter (λ x, p x = true) l) as Hx by (rewrite Hl; set_solver). by apply list_elem_of_filter in Hx as [? ?]. Qed.

(** The child sees what [child_value] says. *)
Lemma apply_to_child_value env inherited name : apply_to env inherited !! name = child_value env inherited name.
Proof.
  unfold apply_to, child_value, find_last. induction env as [|[k v] env IH] using rev_ind; [done|].
  rewrite foldl_app, filter_app. cbn [foldl fst snd]. rewrite filter_cons. cbn [fst]. destruct (decide _) as [Hk|Hk].
  - apply bool_decide_eq_true in Hk as ->. rewrite lookup_insert_eq. cbn. by rewrite last_snoc.
  - rewrite filter_nil, app_nil_r, lookup_insert_ne; [done|]. intros ->. apply Hk. by apply bool_decide_eq_true.
Qed.

(** *** Resource attributes *)

(** The documented text form of identifiers: letters and digits. *)
Class UlidText (U : UlidLib) := ulid_alphanumeric : ∀ u : Ulid, Forall (λ b, is_ascii_alphanumeric b = true) (ulid_to_string u).

(** How a reader of the variable takes it apart: at the commas, at the first
    equals sign, with percent-decoded values. *)
Fixpoint percent_decode (s : str) : str :=
  match s with
  | [] => []
  | b :: s' =>
      if byte_is x25 b then
        match s' with
        | h :: l :: rest =>
            match hex_val h, hex_val l with
            | Some a, Some c => byte_of_Z (a * 16 + c) :: percent_decode rest
            | _, _ => b :: percent_decode s'
            end
        | _ => b :: percent_decode s'
        end
      else b :: percent_decode s'
  end.
Definition read_resource_attributes (s : str) : list (option (str * str)) :=
  (λ piece, '(k, v) ← split_once x3d piece; Some (k, percent_decode v)) <$> split_on (byte_is x2c) s.

Lemma encode_byte_decodes b rest : percent_decode (encode_otel_byte b ++ rest) = b :: percent_decode rest.
Proof.
  unfold encode_otel_byte. destruct (unreserved b) eqn:E.
  - cbn [app percent_decode]. assert (byte_is x25 b = false) as -> by (apply byte_is_false; intros ->; by vm_compute in E). done.
  - cbn [app percent_decode]. rewrite byte_is_refl.
    assert (∀ c : byte, bool_decide ((a ← hex_val (upper_hex (bz c / 16)); d ← hex_val (upper_hex (bz c mod 16)); Some (byte_of_Z (a * 16 + d))) = Some c) = true) as Hc
      by (apply forall_bytes; vm_compute; reflexivity).
    specialize (Hc b). apply bool_decide_eq_true in Hc. destruct (hex_val (upper_hex (bz b / 16))) as [a|]; [|done]. cbn [mbind option_bind] in Hc.
    destruct (hex_val (upper_hex (bz b mod 16))) as [d|]; [|done]. cbn [mbind option_bind] in Hc. injection Hc as Hc. by rewrite Hc.
Qed.
Lemma encode_decodes value : percent_decode (encode_otel_resource_value value) = value.
Proof. induction value as [|b value IH]; [done|]. unfold encode_otel_resource_value. rewrite bind_cons, encode_byte_decodes. by f_equal. Qed.

(** Bytes an encoded value has: unreserved ones and percent signs. *)
Definition value_byte (b : byte) : bool := unreserved b || byte_is x25 b.
Lemma encode_bytes value : Forall (λ b, value_byte b = true) (encode_otel_resource_value value).
Proof.
  unfold encode_otel_resource_value. apply Forall_bind. apply Forall_forall. intros b _.
  assert (∀ c, forallb value_byte (encode_otel_byte c) = true) as H by (apply forall_bytes; vm_compute; reflexivity).
  specialize (H b). apply Forall_forall. intros c Hc. rewrite forallb_forall in H. apply H. by apply list_elem_of_In.
Qed.
Lemma plain_decodes s : Forall (λ b, unreserved b = true) s → percent_decode s = s.
Proof.
  induction 1 as [|b s Hb _ IH]; [done|]. cbn [percent_decode].
  assert (byte_is x25 b = false) as -> by (apply byte_is_false; intros ->; by vm_compute in Hb). by f_equal.
Qed.
Lemma value_byte_free c s : value_byte c = false → Forall (λ b, value_byte b = true) s → c ∉ s.
Proof. intros Hc Hs Hin. rewrite Forall_forall in Hs. specialize (Hs _ Hin). congruence. Qed.

Lemma split_once_first c k v : c ∉ k → split_once c (k ++ c :: v) = Some (k, v).
Proof.
  induction k as [|b k IH]; intros Hk; cbn [app split_once]; [by rewrite byte_is_refl|].
  assert (byte_is c b = false) as -> by (apply byte_is_false; set_solver). rewrite IH by set_solver. done.
Qed.

Section resource.
Context {U : UlidLib} {T : UlidText U}.

Lemma run_id_plain r : Forall (λ b, unreserved b = true) (RunId_fmt r).
Proof.
  unfold RunId_fmt. pose proof (ulid_alphanumeric (run_ulid r)) as H. eapply Forall_impl; [exact H|]. cbn. intros b Hb. unfold unreserved. by rewrite Hb.
Qed.
Lemma lineage_plain_from i segs : Forall (λ b, unreserved b = true) (fmt_segments i segs).
Proof.
  revert i. induction segs as [|r segs IH]; intros i; cbn [fmt_segments]; [constructor|].
  apply Forall_app. split; [case_bool_decide; repeat constructor|]. apply Forall_app. split; [apply run_id_plain|apply IH].
Qed.
Lemma plain_value s : Forall (λ b, unreserved b = true) s → Forall (λ b, value_byte b = true) s.
Proof. intros H. eapply Forall_impl; [exact H|]. cbn. intros b Hb. unfold value_byte. by rewrite Hb. Qed.

Lemma read_joined (pairs : list (str * str)) :
  pairs ≠ [] → Forall (λ p, x2c ∉ p.1 ∧ x3d ∉ p.1 ∧ Forall (λ b, value_byte b = true) p.2) pairs →
  read_resource_attributes (join (bs ",") ((λ p, p.1 ++ bs "=" ++ p.2) <$> pairs)) = (λ p, Some (p.1, percent_decode p.2)) <$> pairs.
Proof.
  intros Hne Hp. unfold read_resource_attributes. change (bs ",") with [x2c]. rewrite split_on_join.
  - rewrite <- list_fmap_compose. apply list_fmap_ext. intros i [k v] Hin%list_elem_of_lookup_2. rewrite Forall_forall in Hp.
    destruct (Hp _ Hin) as (_ & Hk & _). cbn [fst snd compose] in *.
    change (bs "=" ++ v) with (x3d :: v). by rewrite split_once_first.
  - intros Hn. by apply fmap_nil_inv in Hn.
  - apply Forall_fmap. eapply Forall_impl; [exact Hp|]. intros [k v] (Hk & _ & Hv). cbn in *. apply Forall_forall. intros b Hb.
    apply byte_is_false. intros ->. apply elem_of_app in Hb as [Hb|Hb]; [done|]. apply elem_of_cons in Hb as [Hb|Hb]; [done|].
    by apply (value_byte_free x2c v).
Qed.

Lemma resource_attributes_read context execution_id :
  read_resource_attributes (join (bs ",") (resource_attributes context execution_id)) =
    [Some (OTEL_RUN_ID, RunId_fmt (ctx_run_id context)); Some (OTEL_LINEAGE_PATH, LineagePath_fmt (ctx_lineage_path context))] ++
    match visible_id execution_id with Some id => [Some (OTEL_EXECUTION_ID, id)] | None => [] end.
Proof.
  set (pairs := [(OTEL_RUN_ID, RunId_fmt (ctx_run_id context)); (OTEL_LINEAGE_PATH, LineagePath_fmt (ctx_lineage_path context))] ++
     match visible_id execution_id with Some id => [(OTEL_EXECUTION_ID, encode_otel_resource_value id)] | None => [] end).
  assert (resource_attributes context execution_id = (λ p, p.1 ++ bs "=" ++ p.2) <$> pairs) as ->
    by (unfold resource_attributes, pairs; by destruct (visible_id execution_id)).
  assert (∀ s : str, bool_decide (x2c ∉ s ∧ x3d ∉ s) = true → x2c ∉ s ∧ x3d ∉ s) as Hlit by (intros s; apply bool_decide_eq_true_1).
  rewrite read_joined.
  - unfold pairs. rewrite fmap_app. cbn [fmap list_fmap fst snd]. rewrite (plain_decodes (RunId_fmt _)), (plain_decodes (LineagePath_fmt _))
      by (apply run_id_plain || apply lineage_plain_from).
    destruct (visible_id execution_id); [|done]. cbn. by rewrite encode_decodes.
  - done.
  - unfold pairs. apply Forall_app. split.
    + constructor; [|constructor; [|constructor]]; (split; [apply Hlit; vm_compute; reflexivity|split; [apply Hlit; vm_compute; reflexivity|]]);
        apply plain_value; [apply run_id_plain|apply lineage_plain_from].
    + destruct (visible_id execution_id); [|constructor]. constructor; [|constructor].
      split; [apply Hlit; vm_compute; reflexivity|split; [apply Hlit; vm_compute; reflexivity|apply encode_bytes]].
Qed.
End resource.

(** *** Lifecycle events *)

Section exec.
Context {U : UlidLib}.

Lemma exec_attributes_Ok (l : list (str * str)) (e0 : Event) :
  NoDup l.*1 → (∀ k s, (k, s) ∈ l → attributes e0 !! mkText k = None) →
  (∀ k s, (k, s) ∈ l → is_blank k = false ∧ ∃ v, exec_value k s = Ok v) →
  ∃ e, exec_attributes e0 l = Ok e ∧ spine e = spine e0 ∧ payload_ref e = payload_ref e0 ∧
    ∀ k v, attributes e !! k = Some v ↔ attributes e0 !! k = Some v ∨ ∃ s, (as_str k, s) ∈ l ∧ exec_value (as_str k) s = Ok v.
Proof.
  revert e0. induction l as [|[k s] l IH]; intros e0 Hnd Hfresh Hok; cbn [exec_attributes].
  { exists e0. split_and!; [done..|]. intros k v. split; [by left|]. intros [?|(s & Hin & _)]; [done|]. by apply elem_of_nil in Hin. }
  apply NoDup_cons in Hnd as [Hni Hnd]. destruct (Hok k s) as (Hb & v0 & Hv0); [by left|]. unfold text_new. rewrite Hb, Hv0. cbn [map_err mbind result_bind].
  destruct (IH (with_attribute e0 (mkText k) v0) Hnd) as (e & -> & Hsp & Hp & Ha).
  { intros k' s' Hin. cbn. rewrite lookup_insert_ne; [apply (Hfresh k' s'); by right|]. intros [= ->]. apply Hni. apply list_elem_of_fmap. by exists (k', s'). }
  { intros k' s' Hin. apply Hok. by right. }
  exists e. split_and!; [done..|]. intros k' v. rewrite Ha. cbn [attributes with_attribute]. destruct (decide (k' = mkText k)) as [->|Hne].
  - rewrite lookup_insert_eq. cbn [as_str]. split.
    + intros [[= <-]|(s' & Hin & Hv)]; [right; exists s; split; [by left|done]|]. destruct Hni. apply list_elem_of_fmap. by exists (k, s').
    + intros [H|(s' & Hin & Hv)]; [by rewrite (Hfresh k s) in H by (by left)|].
      apply elem_of_cons in Hin as [[= ->]|Hin]; [left; congruence|]. right. by exists s'.
  - rewrite lookup_insert_ne by done. setoid_rewrite elem_of_cons. split; [naive_solver|].
    intros [H|(s' & [[= Hk' _]|Hin] & Hv)]; [by left| |right; by exists s']. destruct Hne. destruct k'. cbn in Hk'. by subst.
Qed.

(** A signal the normalizer takes, with keys and integers that can be read. *)
Lemma exec_normalize_Ok {N : Type} (mint : N → N * EventId) n context raw :
  exec_supports raw = Exact → (∀ k s, raw_attributes raw !! k = Some s → is_blank k = false ∧ ∃ v, exec_value k s = Ok v) →
  ∃ e, (exec_normalize mint n context raw).2 = Ok (from_events [e]) ∧ as_str (event_name e) = raw_kind raw ∧ signal e = Exec ∧
    ts e = observed_at raw ∧ event_id e = (mint n).2 ∧
    ∀ k v, attributes e !! k = Some v ↔ ∃ s, raw_attributes raw !! as_str k = Some s ∧ exec_value (as_str k) s = Ok v.
Proof.
  intros Hs Hok. unfold exec_normalize. rewrite Hs. cbn [is_supported negb]. unfold exec_supports in Hs. destruct (_ && _) eqn:E; [|done].
  apply andb_true_iff in E as [_ Hk%bool_decide_eq_true].
  assert (text_new EventNameK (raw_kind raw) = Ok (mkText (raw_kind raw))) as ->.
  { apply text_new_Ok. split; [|done]. unfold exec_kinds in Hk.
    repeat (apply elem_of_cons in Hk as [-> |Hk]; [vm_compute; reflexivity|]). by apply elem_of_nil in Hk. }
  destruct (mint n) as [n' minted]. cbn [snd].
  destruct (exec_attributes_Ok (btree_iter (raw_attributes raw)) (Event_new minted (run_context context) (observed_at raw) Exec (mkText (raw_kind raw))))
    as (e & -> & Hsp & _ & Ha).
  - apply NoDup_btree_iter.
  - intros k s _. apply lookup_empty.
  - intros k s Hin%elem_of_btree_iter. by apply Hok.
  - exists e. unfold spine in Hsp. cbn in Hsp. injection Hsp as H1 H2 H3 H4 H5 H6. rewrite H1, H2, H5, H6. split_and!; try done.
    intros k v. rewrite Ha. cbn [attributes Event_new]. rewrite lookup_empty. setoid_rewrite elem_of_btree_iter. cbn [fst snd]. naive_solver.
Qed.
End exec.

(** The values recorded: one for each listed and set variable, scrubbed. *)
Lemma captured_env_values_spec find redaction allowlist lookup values :
  captured_env_values find redaction allowlist lookup = Some values →
  ∀ name s, (name, s) ∈ values ↔
    name ∈ allowlist ∧ ∃ value scrubbed, lookup name = Some value ∧ policy_redact_body find redaction (from_utf8_lossy value) = Some scrubbed ∧
      s = from_utf8_lossy scrubbed.
Proof.
  unfold captured_env_values. intros Hv. apply fmap_Some in Hv as (found & Hm & ->). apply mapM_Some in Hm.
  intros name s. rewrite list_elem_of_omap. split.
  - intros (x & Hx & Hid). cbn in Hid. subst x. apply list_elem_of_lookup in Hx as [i Hi].
    destruct (Forall2_lookup_r _ _ _ _ _ Hm Hi) as (name' & Hn & He). destruct (lookup name') as [value|] eqn:El; [|done].
    destruct (policy_redact_body find redaction _) as [scrubbed|] eqn:Er; [|done]. cbn in He. injection He as <- <-.
    split; [by eapply list_elem_of_lookup_2|]. by exists value, scrubbed.
  - intros (Hin & value & scrubbed & El & Er & ->). apply list_elem_of_lookup in Hin as [i Hi].
    destruct (Forall2_lookup_l _ _ _ _ _ Hm Hi) as (x & Hx & He). rewrite El, Er in He. cbn in He. injection He as <-.
    eexists. split; [by eapply list_elem_of_lookup_2|done].
Qed.

Lemma env_attributes_lookup (values : list (str * str)) raw k v :
  (∀ p q, p ∈ values → q ∈ values → p.1 = q.1 → p.2 = q.2) →
  raw_attributes (foldl (λ raw w, RawSignal_with_attribute raw (PROCESS_ENV_PREFIX ++ w.1) w.2) raw values) !! k = Some v ↔
    (∃ name, (name, v) ∈ values ∧ k = PROCESS_ENV_PREFIX ++ name) ∨
    (raw_attributes raw !! k = Some v ∧ ∀ p, p ∈ values → k ≠ PROCESS_ENV_PREFIX ++ p.1).
Proof.
  induction values as [|[name s] values IH] using rev_ind; intros Hf.
  - cbn. split; [right; split; [done|]; by intros p ?%elem_of_nil|]. intros [(? & ?%elem_of_nil & _)|[? _]]; done.
  - rewrite foldl_app. cbn [foldl RawSignal_with_attribute raw_attributes fst snd].
    destruct (decide (k = PROCESS_ENV_PREFIX ++ name)) as [->|Hne].
    + rewrite lookup_insert_eq. split.
      * intros [= <-]. left. exists name. split; [set_solver|done].
      * intros [(name' & Hin & Hk)|[_ Hn]]; [|destruct (Hn (name, s)); [set_solver|done]].
        apply app_inv_head in Hk as <-. f_equal. apply (Hf (name, s) (name, v)); [set_solver|done|done].
    + rewrite lookup_insert_ne by done. rewrite IH by (intros p q Hp Hq; apply Hf; set_solver). split.
      * intros [(name' & Hin & ->)|[Hr Hn]]; [left; exists name'; split; [set_solver|done]|]. right. split; [done|].
        intros p [Hp|Hp%list_elem_of_singleton]%elem_of_app; [by apply Hn|]. by subst p.
      * intros [(name' & Hin & ->)|[Hr Hn]]; [|right; split; [done|]; intros p Hp; apply Hn; set_solver].
        left. exists name'. split; [|done]. apply elem_of_app in Hin as [Hin|Hin%list_elem_of_singleton]; [done|]. by injection Hin as -> ->.
Qed.

Lemma prefix_not_i64 name : PROCESS_ENV_PREFIX ++ name ∉ I64_KEYS.
Proof. unfold I64_KEYS. rewrite !elem_of_cons, elem_of_nil. intros [H|[H|H]]; [discriminate H..|done]. Qed.
Lemma prefix_not_blank name : is_blank (PROCESS_ENV_PREFIX ++ name) = false.
Proof. by apply is_blank_visible. Qed.
Lemma exec_value_text k s : k ∉ I64_KEYS → exec_value k s = Ok (AString s).
Proof. intros Hk. unfold exec_value. by rewrite bool_decide_false. Qed.
Lemma exec_value_i64 k z : k ∈ I64_KEYS → (0 ≤ z ≤ i64_max)%Z → exec_value k (show_uint z) = Ok (AI64 z).
Proof. intros Hk Hz. unfold exec_value. rewrite bool_decide_true by done. by rewrite parse_i64_show. Qed.

Lemma emit_start_head tick allowlist values :
  raw_source (emit_start tick allowlist values) = EXEC_SOURCE ∧ raw_kind (emit_start tick allowlist values) = PROCESS_START ∧
  observed_at (emit_start tick allowlist values) = tick.
Proof.
  unfold emit_start. set (r := if bool_decide (allowlist = []) then _ else _).
  assert (raw_source r = EXEC_SOURCE ∧ raw_kind r = PROCESS_START ∧ observed_at r = tick) as Hr by (unfold r; by case_bool_decide).
  clearbody r. revert r Hr. induction values as [|w l IH]; intros r Hr; [done|]. cbn [foldl]. by apply IH.
Qed.

Section lifecycle.
Context {U : UlidLib} {N : Type} (mint : N → N * EventId) (n : N) (context : NormalizationContext) (tick : Hlc).

Lemma start_recorded find redaction allowlist lookup values :
  captured_env_values find redaction allowlist lookup = Some values →
  ∃ e, (exec_normalize mint n context (emit_start tick allowlist values)).2 = Ok (from_events [e]) ∧
     as_str (event_name e) = PROCESS_START ∧ signal e = Exec ∧ ts e = tick ∧
     ∀ k v, attributes e !! k = Some v ↔
       (allowlist ≠ [] ∧ as_str k = PROCESS_ENV_ALLOWLIST ∧ v = AString (join (bs ",") allowlist)) ∨
       (∃ name value scrubbed, name ∈ allowlist ∧ lookup name = Some value ∧
          policy_redact_body find redaction (from_utf8_lossy value) = Some scrubbed ∧
          as_str k = PROCESS_ENV_PREFIX ++ name ∧ v = AString (from_utf8_lossy scrubbed)).
Proof.
  intros Hv. pose proof (captured_env_values_spec _ _ _ _ _ Hv) as Hspec. set (raw := emit_start tick allowlist values).
  assert (∀ k s, raw_attributes raw !! k = Some s ↔ (∃ name, (name, s) ∈ values ∧ k = PROCESS_ENV_PREFIX ++ name) ∨
    (allowlist ≠ [] ∧ k = PROCESS_ENV_ALLOWLIST ∧ s = join (bs ",") allowlist)) as Hraw.
  { intros k s. unfold raw, emit_start. rewrite env_attributes_lookup.
    - apply or_iff_compat_l. destruct (bool_decide_reflect (allowlist = [])) as [->|Hne]; cbn [raw_attributes RawSignal_new RawSignal_with_attribute].
      + rewrite lookup_empty. naive_solver.
      + rewrite insert_empty, lookup_singleton_Some. split; [naive_solver|]. intros (_ & -> & ->). split; [done|]. by intros [] _.
    - intros [n1 s1] [n2 s2] H1%Hspec H2%Hspec. cbn. intros <-. naive_solver. }
  destruct (emit_start_head tick allowlist values) as (Hs & Hk & Ht). fold raw in Hs, Hk, Ht.
  destruct (exec_normalize_Ok mint n context raw) as (e & He & Hn & Hsig & Hts & _ & Ha).
  { unfold exec_supports. rewrite Hs, Hk. by vm_compute. }
  { intros k s [(name & _ & ->)|(_ & -> & _)]%Hraw.
    - split; [apply prefix_not_blank|]. eexists. apply exec_value_text, prefix_not_i64.
    - split; [by vm_compute|]. eexists. apply exec_value_text. by_compute. }
  exists e. rewrite Hn, Hts, Hk, Ht. split_and!; [done..|]. intros k v. rewrite Ha. split.
  - intros (s & [(name & Hin & Hk')|(Hne & Hk' & ->)]%Hraw & Hval).
    + right. rewrite Hk', exec_value_text in Hval by apply prefix_not_i64. injection Hval as <-.
      apply Hspec in Hin as (Hl & value & scrubbed & H1 & H2 & ->). by exists name, value, scrubbed.
    + left. rewrite Hk', exec_value_text in Hval by by_compute. by injection Hval as <-.
  - intros [(Hne & Hk' & ->)|(name & value & scrubbed & Hl & H1 & H2 & Hk' & ->)]; rewrite Hk'; setoid_rewrite Hraw.
    + exists (join (bs ",") allowlist). split; [by right|]. apply exec_value_text. by_compute.
    + exists (from_utf8_lossy scrubbed). split; [|apply exec_value_text, prefix_not_i64]. left. exists name. split; [|done]. apply Hspec. eauto 10.
Qed.

Lemma exit_recorded exit_code term_signal duration_ms :
  is_u8 exit_code → (0 ≤ duration_ms)%Z →
  ∃ e, (exec_normalize mint n context (emit_exit tick exit_code term_signal duration_ms)).2 = Ok (from_events [e]) ∧
     as_str (event_name e) = PROCESS_EXIT ∧ signal e = Exec ∧ ts e = tick ∧
     ∀ k v, attributes e !! k = Some v ↔
       (as_str k = PROCESS_EXIT_CODE ∧ v = AI64 exit_code) ∨
       (as_str k = PROCESS_DURATION_MS ∧ v = AI64 (Z.min duration_ms i64_max)) ∨
       (∃ name, term_signal = Some name ∧ as_str k = PROCESS_TERM_SIGNAL ∧ v = AString name).
Proof.
  intros Hc Hd. set (raw := emit_exit tick exit_code term_signal duration_ms). set (ms := Z.min duration_ms i64_max).
  assert (∀ k s, raw_attributes raw !! k = Some s ↔ (k = PROCESS_EXIT_CODE ∧ s = show_uint exit_code) ∨ (k = PROCESS_DURATION_MS ∧ s = show_uint ms) ∨
    (∃ name, term_signal = Some name ∧ k = PROCESS_TERM_SIGNAL ∧ s = name)) as Hraw.
  { assert ((if (duration_ms <=? i64_max)%Z then duration_ms else i64_max) = ms) as Hms by (unfold ms; destruct (Z.leb_spec duration_ms i64_max); lia).
    assert (PROCESS_EXIT_CODE ≠ PROCESS_DURATION_MS ∧ PROCESS_EXIT_CODE ≠ PROCESS_TERM_SIGNAL ∧ PROCESS_DURATION_MS ≠ PROCESS_TERM_SIGNAL) as (N1 & N2 & N3) by by_compute.
    intros k s. unfold raw, emit_exit. rewrite Hms. destruct term_signal as [name|]; cbn [raw_attributes RawSignal_with_attribute RawSignal_new];
      rewrite !lookup_insert_Some, lookup_empty; naive_solver. }
  assert (∀ k s, raw_attributes raw !! k = Some s → k ∈ [PROCESS_EXIT_CODE; PROCESS_DURATION_MS; PROCESS_TERM_SIGNAL]) as Hkeys.
  { intros k s Hk%Hraw. rewrite !elem_of_cons. naive_solver. }
  assert (∀ k s v, raw_attributes raw !! k = Some s → exec_value k s = Ok v ↔ (k = PROCESS_EXIT_CODE ∧ v = AI64 exit_code) ∨
    (k = PROCESS_DURATION_MS ∧ v = AI64 ms) ∨ (k = PROCESS_TERM_SIGNAL ∧ v = AString s)) as Hval.
  { assert (PROCESS_EXIT_CODE ≠ PROCESS_DURATION_MS ∧ PROCESS_EXIT_CODE ≠ PROCESS_TERM_SIGNAL ∧ PROCESS_DURATION_MS ≠ PROCESS_TERM_SIGNAL) as (N1 & N2 & N3) by by_compute.
    unfold is_u8, u8_max in Hc. intros k s v [[-> ->]|[[-> ->]|(name & _ & -> & ->)]]%Hraw.
    - rewrite exec_value_i64; [naive_solver|by_compute|unfold i64_max; lia].
    - rewrite exec_value_i64; [naive_solver|by_compute|unfold ms, i64_max in *; lia].
    - rewrite exec_value_text; [naive_solver|by_compute]. }
  destruct (exec_normalize_Ok mint n context raw) as (e & He & Hn & Hsig & Hts & _ & Ha).
  { by destruct term_signal. }
  { intros k s Hk. pose proof (Hkeys k s Hk) as Hin. rewrite !elem_of_cons in Hin.
    split; [destruct Hin as [-> |[-> |[-> |Hin]]]; [by vm_compute..|by apply elem_of_nil in Hin]|].
    destruct Hin as [-> |[-> |[-> |Hin]]]; [| | |by apply elem_of_nil in Hin]; eexists; apply Hval; eauto 6. }
  exists e. rewrite Hn, Hts. split_and!; [done|by destruct term_signal|done|by destruct term_signal|]. intros k v. rewrite Ha. split.
  - intros (s & Hs & Hv). apply Hval in Hv as [?|[?|[Hk ->]]]; [by left|by right; left| |done]. right. right.
    apply Hraw in Hs as [[Hk' _]|[[Hk' _]|(name & -> & _ & ->)]]; [rewrite Hk in Hk'; by apply bs_ne in Hk'..|by exists name].
  - intros [[Hk ->]|[[Hk ->]|(name & -> & Hk & ->)]]; rewrite Hk.
    + exists (show_uint exit_code). assert (raw_attributes raw !! PROCESS_EXIT_CODE = Some (show_uint exit_code)) as Hr by (apply Hraw; by left).
      split; [done|]. apply (Hval _ _ _ Hr). by left.
    + exists (show_uint ms). assert (raw_attributes raw !! PROCESS_DURATION_MS = Some (show_uint ms)) as Hr by (apply Hraw; by right; left).
      split; [done|]. apply (Hval _ _ _ Hr). by right; left.
    + exists name. assert (raw_attributes raw !! PROCESS_TERM_SIGNAL = Some name) as Hr by (apply Hraw; right; right; by exists name).
      split; [done|]. apply (Hval _ _ _ Hr). by right; right.
Qed.

Lemma signal_recorded signal_name :
  ∃ e, (exec_normalize mint n context (emit_signal tick signal_name)).2 = Ok (from_events [e]) ∧
     as_str (event_name e) = PROCESS_SIGNAL ∧ signal e = Exec ∧ ts e = tick ∧
     ∀ k v, attributes e !! k = Some v ↔ as_str k = SIGNAL ∧ v = AString signal_name.
Proof.
  assert (∀ k s, raw_attributes (emit_signal tick signal_name) !! k = Some s ↔ k = SIGNAL ∧ s = signal_name) as Hraw.
  { intros k s. unfold emit_signal. cbn [raw_attributes RawSignal_with_attribute RawSignal_new]. rewrite insert_empty, lookup_singleton_Some. naive_solver. }
  destruct (exec_normalize_Ok mint n context (emit_signal tick signal_name)) as (e & He & Hn & Hsig & Hts & _ & Ha).
  { by vm_compute. }
  { intros k s [-> ->]%Hraw. split; [by vm_compute|]. eexists. apply exec_value_text. by_compute. }
  exists e. rewrite Hn, Hts. split_and!; [done..|]. intros k v. rewrite Ha. split.
  - intros (s & [Hk ->]%Hraw & Hv). rewrite Hk, exec_value_text in Hv by by_compute. by injection Hv as <-.
  - intros [Hk ->]. rewrite Hk. exists signal_name. split; [by apply Hraw|]. apply exec_value_text. by_compute.
Qed.
End lifecycle.

(** ** Properties *)

(** The process's lifecycle is recorded as it happened.  Each signal of
    the emitter becomes exactly one exec event at its time: the start names
    the listed variables and carries, of the child's environment, exactly the
    listed ones that are set, each scrubbed by the redactor; the exit carries
    the exit byte and the duration as integers (the duration cut at the
    largest) and the signal that ended the child if one did; a forwarded
    signal its name.  Nothing else is in them, and none is refused. *)
Theorem exec_lifecycle_recorded {U : UlidLib} {N : Type} (mint : N → N * EventId) (n : N) (context : NormalizationContext)
    (find : ScanMode → str → list Match) (redaction : RedactionPolicy) (allowlist : list str) (lookup : str → option str)
    (values : list (str * str)) (tick : Hlc) (exit_code duration_ms : Z) (term_signal : option str) (signal_name : str) :
  captured_env_values find redaction allowlist lookup = Some values → is_u8 exit_code → (0 ≤ duration_ms)%Z →
  (∃ e, (exec_normalize mint n context (emit_start tick allowlist values)).2 = Ok (from_events [e]) ∧
     as_str (event_name e) = PROCESS_START ∧ signal e = Exec ∧ ts e = tick ∧
     ∀ k v, attributes e !! k = Some v ↔
       (allowlist ≠ [] ∧ as_str k = PROCESS_ENV_ALLOWLIST ∧ v = AString (join (bs ",") allowlist)) ∨
       (∃ name value scrubbed, name ∈ allowlist ∧ lookup name = Some value ∧
          policy_redact_body find redaction (from_utf8_lossy value) = Some scrubbed ∧
          as_str k = PROCESS_ENV_PREFIX ++ name ∧ v = AString (from_utf8_lossy scrubbed))) ∧
  (∃ e, (exec_normalize mint n context (emit_exit tick exit_code term_signal duration_ms)).2 = Ok (from_events [e]) ∧
     as_str (event_name e) = PROCESS_EXIT ∧ signal e = Exec ∧ ts e = tick ∧
     ∀ k v, attributes e !! k = Some v ↔
       (as_str k = PROCESS_EXIT_CODE ∧ v = AI64 exit_code) ∨
       (as_str k = PROCESS_DURATION_MS ∧ v = AI64 (Z.min duration_ms i64_max)) ∨
       (∃ name, term_signal = Some name ∧ as_str k = PROCESS_TERM_SIGNAL ∧ v = AString name)) ∧
  (∃ e, (exec_normalize mint n context (emit_signal tick signal_name)).2 = Ok (from_events [e]) ∧
     as_str (event_name e) = PROCESS_SIGNAL ∧ signal e = Exec ∧ ts e = tick ∧
     ∀ k v, attributes e !! k = Some v ↔ as_str k = SIGNAL ∧ v = AString signal_name).
Proof. intros Hv Hc Hd. split_and!; [by apply start_recorded|by apply exit_recorded|apply signal_recorded]. Qed.

Lemma child_value_app env extra inherited name :
  child_value (env ++ extra) inherited name =
    match find_last (λ v : str * str, bool_decide (v.1 = name)) extra with Some (_, v) => Some v | None => child_value env inherited name end.
Proof.
  unfold child_value, find_last. rewrite filter_app. destruct (last (filter _ extra)) as [[k v]|] eqn:E.
  - by rewrite (proj2 (last_app_Some _ _ _) (or_introl E)).
  - apply last_None in E. by rewrite E, app_nil_r.
Qed.

Lemma find_last_app {A} (p : A → bool) l k : find_last p (l ++ k) = match find_last p k with Some x => Some x | None => find_last p l end.
Proof.
  unfold find_last. rewrite filter_app. destruct (last (filter _ k)) as [x|] eqn:E; [by rewrite (proj2 (last_app_Some _ _ _) (or_introl E))|].
  apply last_None in E. by rewrite E, app_nil_r.
Qed.
(** Variables that are all given one value. *)
Lemma find_last_named (names : list str) (x name : str) :
  find_last (λ v : str * str, bool_decide (v.1 = name)) ((λ var, (var, x)) <$> names) = if bool_decide (name ∈ names) then Some (name, x) else None.
Proof.
  induction names as [|n names IH]; [done|]. change (?a <$> n :: names) with ([(n, x)] ++ (a <$> names)). rewrite find_last_app, IH.
  destruct (decide (name ∈ names)) as [Hin|Hin].
  - by rewrite !bool_decide_true by (try apply elem_of_cons; auto).
  - rewrite bool_decide_false by done. unfold find_last. rewrite filter_cons, filter_nil. cbn [fst].
    destruct (decide (n = name)) as [<-|Hn].
    + rewrite !bool_decide_true by (try done; left). done.
    + rewrite decide_False by (rewrite bool_decide_false; done). rewrite bool_decide_false; [done|]. intros [?|?]%elem_of_cons; congruence.
Qed.

(** C35: the child's environment.  Every variable the child sees is the last
    value the supervisor injected, or else its inherited one.  It is told the
    run and its lineage, and the execution unless its identifier is blank; the
    resource attributes, taken apart as telemetry readers do, are exactly
    these, whatever bytes the execution's identifier has.  With a proxy the
    four proxy variables name it and the five trust variables name the
    bundle; in a transparent run the five trust variables name the bundle and
    nothing else is changed.  Telemetry goes to the receiver's address as
    protobuf in batches of the capture's size; a queue size below that is raised
    to it, any other left alone. *)
Theorem child_environment_exact {U : UlidLib} {T : UlidText U} (context : RunContext) (execution_id : option str)
    (env : ChildEnv) (inherited : environment) (ip : IpAddr) (port : Z) (ca_path : str) :
  let trust : list str := [bs "SSL_CERT_FILE"; bs "REQUESTS_CA_BUNDLE"; bs "NODE_EXTRA_CA_CERTS"; bs "CURL_CA_BUNDLE"; bs "GIT_SSL_CAINFO"] in
  let proxies : list str := [bs "HTTPS_PROXY"; bs "HTTP_PROXY"; bs "https_proxy"; bs "http_proxy"] in
  let execution := match execution_id with Some id => if is_blank id then None else Some id | None => None end in
  let sees env name := apply_to env inherited !! name in
  (∀ name, sees env name = child_value env inherited name) ∧
  (sees (for_run context execution_id) (bs "HILOOP_RUN_ID") = Some (RunId_fmt (ctx_run_id context)) ∧
   sees (for_run context execution_id) (bs "HILOOP_LINEAGE_PATH") = Some (LineagePath_fmt (ctx_lineage_path context)) ∧
   sees (for_run context execution_id) (bs "HILOOP_EXECUTION_ID") =
     match execution with Some id => Some id | None => inherited !! bs "HILOOP_EXECUTION_ID" end ∧
   ∃ text, sees (for_run context execution_id) (bs "OTEL_RESOURCE_ATTRIBUTES") = Some text ∧
     read_resource_attributes text =
       [Some (bs "hiloop.run.id", RunId_fmt (ctx_run_id context)); Some (bs "hiloop.run.lineage_path", LineagePath_fmt (ctx_lineage_path context))] ++
       match execution with Some id => [Some (bs "hiloop.execution.id", id)] | None => [] end) ∧
  (∀ name, sees (set_proxy env ip port ca_path) name =
     if bool_decide (name ∈ trust) then Some ca_path
     else if bool_decide (name ∈ proxies) then Some (bs "http://" ++ fmt_socket_addr ip port) else sees env name) ∧
  (∀ name, sees (set_ca_bundle env ca_path) name = if bool_decide (name ∈ trust) then Some ca_path else sees env name) ∧
  (sees (set_otlp_endpoint env inherited ip port) (bs "OTEL_EXPORTER_OTLP_ENDPOINT") = Some (bs "http://" ++ fmt_socket_addr ip port) ∧
   sees (set_otlp_endpoint env inherited ip port) (bs "OTEL_EXPORTER_OTLP_PROTOCOL") = Some (bs "http/protobuf") ∧
   sees (set_otlp_endpoint env inherited ip port) (bs "OTEL_BSP_MAX_EXPORT_BATCH_SIZE") = Some (bs "64") ∧
   sees (set_otlp_endpoint env inherited ip port) (bs "OTEL_BSP_MAX_QUEUE_SIZE") =
     match child_value env inherited (bs "OTEL_BSP_MAX_QUEUE_SIZE") with
     | Some value => match from_utf8 value ≫= parse_uint usize_max with
                     | Some queue => if ((0 <? queue) && (queue <? 64))%Z then Some (bs "64") else Some value
                     | None => Some value
                     end
     | None => None
     end).
Proof.
  cbv zeta. split; [apply apply_to_child_value|]. split; [|split; [|split]].
  - assert (match execution_id with Some id => if is_blank id then None else Some id | None => None end = visible_id execution_id) as -> by done.
    rewrite !apply_to_child_value. unfold for_run. rewrite !child_value_app. split_and!.
    1-3: by destruct (visible_id execution_id).
    eexists. split; [|apply resource_attributes_read]. by destruct (visible_id execution_id).
  - intros name. rewrite !apply_to_child_value. unfold set_proxy. rewrite !child_value_app, find_last_app, !find_last_named.
    unfold ca_variables, proxy_variables. cbn [fmap list_fmap]. by repeat case_bool_decide.
  - intros name. rewrite !apply_to_child_value. unfold set_ca_bundle. rewrite child_value_app, find_last_named.
    unfold ca_variables. cbn [fmap list_fmap]. by case_bool_decide.
  - rewrite !apply_to_child_value. unfold set_otlp_endpoint. rewrite !child_value_app.
    destruct (child_value env inherited (bs "OTEL_BSP_MAX_QUEUE_SIZE")) as [value|] eqn:Ev; cbn [mbind option_bind]; [|by split_and!].
    unfold capture_otlp_queue_override. cbn [mbind option_bind]. destruct (from_utf8 value ≫= parse_uint usize_max) as [queue|]; [|by split_and!].
    cbn [mbind option_bind]. change CAPTURE_OTLP_MAX_EXPORT_BATCH_SIZE with 64%Z.
    destruct ((0 <? queue) && (queue <? 64))%Z; by split_and!.
Qed.

(** ** Witnesses *)

#[local] Existing Instance crockford_ulid.
Definition child_mint (n : nat) : nat * EventId := (S n, mkEventId (run_ulid (sample_run [1]))).
Lemma exec_lifecycle_recorded_witness :
  ∃ e, (exec_normalize child_mint 0 (NormalizationContext_new Spool.Scripted.ctx) (emit_exit (mkHlc 7 0) 137 (Some (bs "SIGKILL")) 1500)).2 =
      Ok (from_events [e]) ∧ attr e "process.exit_code" = Some (AI64 137) ∧ attr e "process.term_signal" = Some (AString (bs "SIGKILL")).
Proof.
  destruct (exec_lifecycle_recorded child_mint 0 (NormalizationContext_new Spool.Scripted.ctx) (λ _ _, []) RedactionPolicy_enabled
    [bs "HOME"] (λ _, Some (bs "/root")) [(bs "HOME", bs "/root")] (mkHlc 7 0) 137 1500 (Some (bs "SIGKILL")) (bs "SIGINT"))
    as (_ & (e & He & _ & _ & _ & Ha) & _); [vm_compute; reflexivity|split; vm_compute; discriminate|vm_compute; discriminate|].
  exists e. split; [exact He|]. split.
  - apply (Ha (key "process.exit_code") (AI64 137)). left. split; reflexivity.
  - apply (Ha (key "process.term_signal") (AString (bs "SIGKILL"))). right. right. exists (bs "SIGKILL"). split; [reflexivity|]. split; reflexivity.
Defined.

#[local] Instance crockford_text : UlidText crockford_ulid.
Proof.
  intros [ds Hds]. cbn. unfold CrockfordUlid.to_string. cbn. apply Forall_fmap. eapply Forall_impl; [exact (proj2 (CrockfordUlid.valid_spec _ Hds))|].
  cbn. intros d Hd. assert (∀ d, d < 32 → is_ascii_alphanumeric (CrockfordUlid.enc_digit d) = true) as H; [|by apply H].
  clear. intros d Hd. do 32 (destruct d as [|d]; [by vm_compute|]). lia.
Qed.
Example execution_id_escaped :
  read_resource_attributes (join (bs ",") (resource_attributes Spool.Scripted.ctx (Some (bs "a,b=c%")))) =
    [Some (OTEL_RUN_ID, bs "00000000000000000000000007"); Some (OTEL_LINEAGE_PATH, bs "00000000000000000000000007"); Some (OTEL_EXECUTION_ID, bs "a,b=c%")].
Proof. vm_compute. reflexivity. Qed.
Lemma child_environment_exact_witness :
  apply_to (set_proxy [] (V4 (mkIpv4 x7f x00 x00 x01)) 8080 (bs "/tmp/ca.pem")) ∅ !! bs "SSL_CERT_FILE" = Some (bs "/tmp/ca.pem") ∧
  ∃ text, apply_to (for_run Spool.Scripted.ctx (Some (bs "a,b"))) ∅ !! bs "OTEL_RESOURCE_ATTRIBUTES" = Some text ∧
    last (read_resource_attributes text) = Some (Some (bs "hiloop.execution.id", bs "a,b")).
Proof.
  destruct (child_environment_exact (T := crockford_text) Spool.Scripted.ctx (Some (bs "a,b")) [] ∅ (V4 (mkIpv4 x7f x00 x00 x01)) 8080 (bs "/tmp/ca.pem"))
    as (_ & (_ & _ & _ & text & Ht & Hr) & Hca & _).
  split; [rewrite Hca; reflexivity|]. exists text. split; [exact Ht|]. rewrite Hr. reflexivity.
Defined.
