(* ===== verification/NetnsRun.v ===== *)
(** * Transparent runs (crates/hiloop-interceptor/src/netns/run.rs, and the
    choice of supervisor.rs [run])

    - The selected transport ([NetworkCapture]) and its event; the decision
      which kind of run the options give, or why they are refused
      ([run_plan], [system_checks]).
    - The end of a transparent run ([netns_run_end]): the relay has stopped, the
      substrate's result is recorded, blobs and spool are drained, the
      completion report is built from the workload's own report and the host's
      accounts and exported, and the run's result is decided.

    As at the end of a captured run, the report's constructor must accept it:
    an [Err] is the panic.  The relay, the spool, the supervisor and the blob
    drain are those of their own files. *)
From Stdlib Require Import Strings.Byte.
From stdpp Require Import relations.
From S2P Require Import Prelude Text Net Identity Event Capture Completion Spool Seams Pipeline Egress Substrate Protocol Exporters Fatal.
From S2P Require Import EventRelay Blob BlobDrain Anomaly RunEnd.

(** ** The transport *)

Inductive NetworkCapture :=
| CaptureOff
| CaptureProxy (requested : NetCaptureMode) (preflight : option PreflightReport)
| CaptureNetns (requested : NetCaptureMode) (preflight : PreflightReport).

Definition NetworkCapture_proxy : NetworkCapture := CaptureProxy ModeProxy None.
Definition proxy_fallback (preflight : PreflightReport) : NetworkCapture := CaptureProxy ModeAuto (Some preflight).
Definition uses_proxy (n : NetworkCapture) : bool := match n with CaptureProxy _ _ => true | _ => false end.
Definition netns_runner (n : NetworkCapture) : option PreflightReport :=
  match n with CaptureNetns _ preflight => Some preflight | _ => None end.

Definition preflight_passed (p : PreflightReport) : bool := match pf_result p with PreflightPassed => true | _ => false end.

Section transport.
Context {U : UlidLib}.
Definition selection (n : NetworkCapture) : NetCaptureMode * SelectedNetCaptureMode * option PreflightReport :=
  match n with
  | CaptureOff => (ModeOff, SelOff, None)
  | CaptureProxy requested preflight => (requested, SelProxy, preflight)
  | CaptureNetns requested preflight => (requested, if preflight_passed preflight then SelNetns else SelNone, Some preflight)
  end.
Definition transport_event (n : NetworkCapture) (minted : EventId) (context : RunContext) (ts : Hlc) (policy : CapturePolicy) : Event :=
  let '(requested, selected, report) := selection n in
  capture_transport minted context ts requested selected policy
    (match report with Some r => pf_result r | None => PreflightNotApplicable end)
    (match report with Some r => pf_ipv4 r | None => true end)
    (match report with Some r => pf_ipv6 r | None => false end)
    (report ≫= pf_reason).
End transport.

Section choice.
Context {NL : IpNetLib}.
Definition netns_capture_policy (egress : EgressPolicy) : CapturePolicy := if is_allow_all egress then PolicyObserve else PolicyStrict.

(** ** Which run *)

Record RunOptions := mkRunOptions {
  ro_command : list str; ro_network : NetworkCapture;
  ro_events_jsonl : option str; ro_raw_jsonl : option str; ro_blob_dir : option str;
  ro_otlp : bool; ro_export_grpc : bool; ro_egress : EgressPolicy; ro_anomaly : AnomalyConfig }.

Inductive RunRefusal :=
| NoCommand
| PreflightRefused (reason diagnostic : str)
| RawNeedsExporter | OtlpNeedsExporter | ProxyNeedsExporter | ProxyNeedsBlobs | EgressNeedsProxy | AnomalyNeedsProxy.

(** The sinks of a captured run, durable ones first. *)
Inductive SinkKind := JsonlSink (path : str) | SpooledGateway.
Inductive RunPlan := NetnsPlan | CapturedPlan (sinks : list SinkKind) (raw : option str) | PlainPlan.

Definition is_some {A} (o : option A) : bool := match o with Some _ => true | None => false end.
Definition sinks_of (o : RunOptions) : list SinkKind :=
  (JsonlSink <$> option_list (ro_events_jsonl o)) ++ (if ro_export_grpc o then [SpooledGateway] else []).

Definition run_plan (o : RunOptions) : result RunRefusal RunPlan :=
  if bool_decide (ro_command o = []) then Err NoCommand
  else match netns_runner (ro_network o) with
       | Some preflight =>
           if negb (preflight_passed preflight) then
             Err (PreflightRefused (match pf_reason preflight with Some r => to_string r | None => bs "unknown" end)
                    (default (bs "no diagnostic available") (pf_diagnostic preflight)))
           else Ok NetnsPlan
       | None =>
           let has_exporter := is_some (ro_events_jsonl o) || ro_export_grpc o in
           if is_some (ro_raw_jsonl o) && negb has_exporter then Err RawNeedsExporter
           else if ro_otlp o && negb has_exporter then Err OtlpNeedsExporter
           else if uses_proxy (ro_network o) && negb has_exporter then Err ProxyNeedsExporter
           else if uses_proxy (ro_network o) && (negb (is_some (ro_blob_dir o)) && negb (ro_export_grpc o)) then Err ProxyNeedsBlobs
           else if negb (is_allow_all (ro_egress o)) && negb (uses_proxy (ro_network o)) then Err EgressNeedsProxy
           else if anomaly_enabled (ro_anomaly o) && negb (uses_proxy (ro_network o)) then Err AnomalyNeedsProxy
           else if has_exporter then Ok (CapturedPlan (sinks_of o) (ro_raw_jsonl o))
           else Ok PlainPlan
       end.

Inductive SystemRefusal := NotNetns | PreflightNotPassed | RawUnsupported | NetnsNeedsExporter | NetnsNeedsBlobs.
Definition system_checks (o : RunOptions) : result SystemRefusal unit :=
  match netns_runner (ro_network o) with
  | None => Err NotNetns
  | Some preflight =>
      if negb (preflight_passed preflight) then Err PreflightNotPassed
      else if is_some (ro_raw_jsonl o) then Err RawUnsupported
      else if negb (is_some (ro_events_jsonl o) || ro_export_grpc o) then Err NetnsNeedsExporter
      else if negb (is_some (ro_blob_dir o) || ro_export_grpc o) then Err NetnsNeedsBlobs
      else Ok tt
  end.

End choice.

(** ** The completion report *)

Definition transparent_event_delivery (spool : option SpoolReport) (relay : RelayEventDelivery) (fatal : CaptureEventDelivery)
    : CaptureEventDelivery :=
  let add := saturating_add u64_max in
  let producer_observed := add (add (EventRelay.observed relay) (Completion.observed fatal)) 1%Z in
  match spool with
  | Some sp =>
      let pending := Z.of_nat (rp_pending_events sp) in
      let spool_observed := add (add (add (rp_delivered_events sp) pending) (rp_dropped_events sp)) (rp_rejected_events sp) in
      let pre_spool_dropped := saturating_sub producer_observed spool_observed in
      mkEventDelivery (add spool_observed pre_spool_dropped) (rp_spooled_events sp) (rp_delivered_events sp)
        (add (rp_dropped_events sp) pre_spool_dropped) (rp_rejected_events sp) pending
  | None =>
      mkEventDelivery producer_observed 0 (add (add (EventRelay.landed relay) (Completion.landed fatal)) 1%Z)
        (add (EventRelay.dropped relay) (Completion.dropped fatal)) (add (EventRelay.rejected relay) (Completion.rejected fatal)) 0
  end.

Definition netns_network (failed : bool) (n : NetworkObservations) : CaptureSourceReport :=
  if failed then configured_unavailable PlatformObserved RuntimeFailed
  else from_event_counts PlatformObserved (full n) (metadata_only_observations n) OpaqueNetworkTraffic.

Section completion.
Context {U : UlidLib}.
Abbreviation inner_completion := (option (CaptureCompletionReport * Event)).

Definition netns_sources (network : CaptureSourceReport) (inner : inner_completion) : CaptureSourcesReport :=
  match inner with
  | Some (r, _) => mkSourcesReport (process (sources r)) (stdio (sources r)) network (otlp (sources r))
  | None =>
      let missing_inner := configured_unavailable PlatformObserved RuntimeFailed in
      mkSourcesReport missing_inner missing_inner network (configured_unavailable WorkloadReported RuntimeFailed)
  end.

Definition err_of {E A} (r : result E A) : option E := match r with Err e => Some e | Ok _ => None end.

Definition netns_errors (inner : inner_completion) (relay : result warning unit) (run : result SupervisedRunError SubstrateExit)
    (blobs : option BlobDrainOutcome) : list str :=
  match inner with
  | Some (r, _) => option_list (Completion.error r)
  | None => [bs "captured workload produced no completion report"]
  end ++
  ((λ w : warning, default [] (head w)) <$> option_list (err_of relay)) ++
  (SupervisedRunError_fmt <$> option_list (err_of run)) ++
  (error_message <$> option_list (blobs ≫= BlobDrain.error)).

Definition netns_report (spool : option SpoolReport) (relay_state : RelayCaptureState) (inner : inner_completion)
    (relay : result warning unit) (run : result SupervisedRunError SubstrateExit) (blobs : option BlobDrainOutcome)
    (auth_refreshes : option Z) : result CaptureCompletionError CaptureCompletionReport :=
  let fatal := match err_of run with Some e => fatal_event_delivery e | None => CaptureEventDelivery_default end in
  let errors := netns_errors inner relay run blobs in
  CaptureCompletionReport_new
    (netns_sources (netns_network (negb (is_ok relay) || negb (is_ok run)) (network relay_state)) inner)
    (transparent_event_delivery spool (EventRelay.events relay_state) fatal)
    (blob_delivery <$> blobs) auth_refreshes
    (match errors with [] => None | _ => Some (join (bs "; ") errors) end).

(** The workload's process attributes and execution identifier are kept. *)
Definition kept_key (k : AttributeKey) : bool := starts_with (bs "process.") (as_str k) || bool_decide (k = key EXECUTION_ID).
Definition with_inner_attributes (e : Event) (inner : inner_completion) : Event :=
  match inner with
  | Some (_, inner_event) =>
      mkEvent (event_id e) (ts e) (run_id e) (lineage_path e) (signal e) (event_name e)
        (filter (λ kv, kept_key kv.1 = true) (attributes inner_event) ∪ attributes e) (payload_ref e)
  | None => e
  end.
End completion.

(** ** The end of the run *)

Definition combined_cleanup_error (relay flush : result warning unit) : option warning :=
  match err_of relay, err_of flush with
  | Some relay, Some flush => Some [alternate relay ++ bs "; " ++ alternate flush]
  | Some error, None | None, Some error => Some error
  | None, None => None
  end.
Definition exit_byte (code : Z) : Z := Z.max 0 (Z.min code u8_max).

Inductive NetnsFailure := RunFailed (error : SupervisedRunError) (cleanup : option warning) | CleanupFailed (error : warning).

(** The result of the whole run. *)
Definition netns_result (run : result SupervisedRunError SubstrateExit) (cleanup : option warning) : result NetnsFailure Z :=
  match run with
  | Err e => Err (RunFailed e cleanup)
  | Ok exit =>
      match cleanup with
      | Some w => Err (CleanupFailed w)
      | None => Ok (match exit with ExitCode code => exit_byte code | ExitSignal s => exit_byte (128 + get_signal s) end)
      end
  end.

Section run_end.
Context {U : UlidLib} {J : Type} {EJ : Exporter J} {CJ : CompletionExporter J} {W : Type} {SW : SinkWorld W} (policy : SpoolPolicy).
Abbreviation sinks := (list (J + (W * SinkLog) * SpoolState)).
#[local] Instance netns_spool : Exporter ((W * SinkLog) * SpoolState) := spool_exporter policy.

Definition export_run_completion (cut : option sinks) (x : sinks) (event : Event) (report : CaptureCompletionReport)
    : sinks * result warning unit :=
  match cut with
  | Some x => (x, Err [bs "capture-health export timed out after 10s"])
  | None => let '(x, r) := export_completion x event report in
            (x, map_err (λ e, [bs "failed to export the capture-health event"; ExportError_fmt e]) r)
  end.

Definition flush_after_supervision (x : sinks) (run : result SupervisedRunError SubstrateExit)
    : sinks * result SupervisedRunError SubstrateExit * result warning unit :=
  let '(x, flushed) := export_flush x in
  let '(run, flushed) := record_flush run flushed in
  (x, run, map_err (λ e, [bs "flush transparent-run events"; ExportError_fmt e]) flushed).

(** Up to the report. *)
Definition netns_run_report (context : RunContext) (x : sinks) (minted : EventId) (wall : Z) (wait_result : result ProvisionError SubstrateExit)
    (relay_state : RelayCaptureState) (relay : result warning unit) (blobs : option BlobDrainOutcome) (retry : DrainRetryPolicy)
    (auth_refreshes : option Z)
    : sinks * result SupervisedRunError SubstrateExit * result CaptureCompletionError CaptureCompletionReport :=
  let inner := (take_completion relay_state).2 in
  let '(supervisor, run) := finish_wait (FatalRunSupervisor_new context x) minted wall wait_result in
  let '(x, spool) := drain_spool policy retry (fs_exporter supervisor) in
  (x, run, netns_report spool relay_state inner relay run blobs auth_refreshes).

Definition netns_run_end (context : RunContext) (attributes : Attributes) (argv_json : list str → str) (x : sinks) (minted : EventId)
    (wall : Z) (wait_result : result ProvisionError SubstrateExit) (relay_state : RelayCaptureState) (relay : result warning unit)
    (blobs : option BlobDrainOutcome) (retry : DrainRetryPolicy) (auth_refreshes : option Z) (health_id : EventId) (health_ts : Hlc)
    (cut : sinks → option sinks) : sinks * result CaptureCompletionError (result NetnsFailure Z) :=
  let '(x, run, report) := netns_run_report context x minted wall wait_result relay_state relay blobs retry auth_refreshes in
  match report with
  | Err e => (x, Err e)
  | Ok report =>
      let health := capture_drain_event argv_json (with_attributes (NormalizationContext_new context) attributes) health_id health_ts report in
      let '(x, _) := export_run_completion (cut x) x (with_inner_attributes health (take_completion relay_state).2) report in
      let '(x, run, flushed) := flush_after_supervision x run in
      let '(x, _) := drain_spool policy retry x in
      (x, Ok (netns_result run (combined_cleanup_error relay flushed)))
  end.
End run_end.

(** ** Lemmas *)

Section end_lemmas.
Context {U : UlidLib} {J : Type} {EJ : Exporter J} {CJ : CompletionExporter J}.
Context {W : Type} {SW : SinkWorld W} {SL : SerializerLaws W} (policy : SpoolPolicy).
Context (Hmax : (0 ≤ max_bytes policy)%Z) (Hbatch : 0 < drain_batch_size policy).
#[local] Instance spool_sink_exporter : Exporter ((W * SinkLog) * SpoolState) := spool_exporter policy.
Abbreviation sinks := (list (J + (W * SinkLog) * SpoolState)).
Implicit Types (acc es : list Event) (l : sinks).

(** The run's sinks once they were offered [acc]. *)
Definition sinks_inv acc l : Prop :=
  ∃ (pre : list J) w lg sp, l = (inl <$> pre) ++ [inr ((w, lg), sp)] ∧ state_inv policy acc None lg sp ∧ spooled_inv acc sp.

Definition netns_sinks (pre : list J) (w : W) : sinks := (inl <$> pre) ++ [inr ((w, mkLog [] []), SpoolState_default)].

Lemma sinks_inv_start pre w : sinks_inv [] (netns_sinks pre w).
Proof. exists pre, w, (mkLog [] []), SpoolState_default. split_and!; [done| |done]. split_and!; [|split; simpl; lia|done]. unfold data_inv. simpl. done. Qed.

Lemma sinks_inv_export acc l es :
  (Z.of_nat (length (acc ++ es)) ≤ u64_max)%Z → batch_fits policy es → sinks_inv acc l → sinks_inv (acc ++ es) (export l es).1.
Proof.
  intros Hlen Hfit (pre & w & lg & sp & -> & Hst & Hsp).
  destruct (spool_export policy (w, lg) sp es) as [[[w' lg'] sp'] r] eqn:E.
  destruct (spool_step_open policy Hmax Hbatch _ _ _ _ _ _ _ _ _ Hlen Hfit Hst E) as [Hst' _].
  pose proof (spool_export_parks policy acc _ _ _ _ _ _ Hlen Hsp E) as Hsp'. destruct Hst as (_ & _ & Hseen & _). rewrite Hseen in Hsp'.
  destruct (join_all_sinks (λ x, export x es) pre ((w, lg), sp) ((w', lg'), sp')) as [pre' Hpre].
  { intros y. cbn. destruct (export y es). by eexists _, _. }
  { cbn. by rewrite E. }
  exists pre', w', lg', sp'. split_and!; [exact Hpre|done..].
Qed.

Lemma sinks_inv_flush acc l : (Z.of_nat (length acc) ≤ u64_max)%Z → sinks_inv acc l → sinks_inv acc (export_flush l).1.
Proof.
  intros Hlen (pre & w & lg & sp & -> & Hst & Hsp). destruct (spool_flush policy (w, lg) sp) as [[[w' lg'] sp'] r] eqn:E.
  destruct (spool_flush_inv policy Hbatch _ _ _ _ _ _ _ _ _ Hlen Hst E) as [Hst' _].
  pose proof (parks_nothing_inv acc _ _ (spool_flush_parks policy _ _ _ _ _ E) Hsp) as Hsp'.
  destruct (join_all_sinks export_flush pre ((w, lg), sp) ((w', lg'), sp')) as [pre' Hpre].
  { intros y. cbn. destruct (export_flush y). by eexists _, _. }
  { cbn. by rewrite E. }
  exists pre', w', lg', sp'. split_and!; [exact Hpre|done..].
Qed.

(** The relay changes its exporter only by exporting and flushing. *)
Lemma connection_step_exporter {X} {EX : Exporter X} (s : @server U X) c read written s1 c' resp :
  connection_step s c read written = Some (s1, c', resp) →
  exporter s1 = exporter s ∨ (∃ es, exporter s1 = (export (exporter s) es).1) ∨ exporter s1 = (export_flush (exporter s)).1.
Proof.
  intros E. destruct c as [|role|role es|role n r|role r|c]; cbn [connection_step] in E; try done.
  - destruct read as [[token| | |]|]; [|by simplify_eq; left..].
    destruct (admit_token (credentials s) token) as [creds [role|]]; simplify_eq; by left.
  - destruct read as [[token|es|rc|]|]; [by simplify_eq; left..| | |by simplify_eq; left].
    + destruct (record_completion (capture s) role rc). simplify_eq. by left.
    + destruct (export_flush (exporter s)) as [x r]. simplify_eq. right. by right.
  - destruct (export (exporter s) es) as [x r] eqn:Ee. simplify_eq. right. left. exists es. cbn. by rewrite Ee.
  - simplify_eq. by left.
Qed.

Lemma relay_step_exporter {X} {EX : Exporter X} (s : @server U X) lab s' :
  relay_step lab s = Some s' →
  exporter s' = exporter s ∨ (∃ es, exporter s' = (export (exporter s) es).1) ∨ exporter s' = (export_flush (exporter s)).1.
Proof.
  destruct lab as [|i read written|i|]; cbn [relay_step]; intros E.
  - case_bool_decide; simplify_eq; by left.
  - destruct (connections s !! i) as [c|]; [|done]. cbn in E. destruct (connection_step s c read written) as [[[s1 c'] resp]|] eqn:Ec; [|done].
    cbn in E. injection E as <-. exact (connection_step_exporter _ _ _ _ _ _ _ Ec).
  - destruct (connections s !! i) as [c|]; [|done]. cbn in E. destruct (Nat.eqb _ _); [|done]. simplify_eq. by left.
  - simplify_eq. by left.
Qed.

Lemma logged_export {X} {EX : Exporter X} (w : X * export_log) es :
  (export w es).1.1 = (export w.1 es).1 ∧ (export w es).1.2.*1 = w.2.*1 ++ [es].
Proof. cbn. destruct (export w.1 es) as [x r]. cbn. by rewrite fmap_app. Qed.
Lemma logged_flush {X} {EX : Exporter X} (w : X * export_log) : (export_flush w).1.1 = (export_flush w.1).1 ∧ (export_flush w).1.2 = w.2.
Proof. cbn. by destruct (export_flush w.1). Qed.

Lemma relay_sinks acc0 (x : sinks) gw wl (s : @server U (sinks * export_log)) :
  rtc relay_run (relay_bind (x, []) gw wl) s → sinks_inv acc0 x → events_fit (W := W) policy (acc0 ++ concat (exporter s).2.*1) →
  sinks_inv (acc0 ++ concat (exporter s).2.*1) (exporter s).1.
Proof.
  intros Hr Hx. revert s Hr. refine (rtc_ind_r (λ s, events_fit policy (acc0 ++ concat (exporter s).2.*1) →
    sinks_inv (acc0 ++ concat (exporter s).2.*1) (exporter s).1) _ _ _); [cbn; by rewrite app_nil_r|].
  intros s1 s2 _ [lab Hl] IH. apply relay_step_exporter in Hl as [-> |[[es ->]| ->]]; [done| |]; intros Hfit.
  - destruct (logged_export (exporter s1) es) as [E1 E2]. rewrite E1, E2 in *. rewrite concat_app in *. cbn [concat] in *.
    rewrite app_nil_r, app_assoc in *.
    destruct (events_fit_split policy (acc0 ++ concat (exporter s1).2.*1) es []) as (Hlen & Hfit0 & Hb); [by rewrite app_nil_r|].
    by apply sinks_inv_export; [..|apply IH].
  - destruct (logged_flush (exporter s1)) as [E1 E2]. rewrite E1, E2 in *. by apply sinks_inv_flush; [apply Hfit|apply IH].
Qed.
End end_lemmas.

(** What the supervisor exports for the substrate's result. *)
Definition fatal_events {U : UlidLib} (context : RunContext) (minted : EventId) (wall : Z) (wait_result : result ProvisionError SubstrateExit)
    : list Event :=
  match wait_result with
  | Err (ProvisionDataplane _ _) => [capture_fatal minted context (tick_with_wall_ns None wall) DataplaneFailed]
  | _ => []
  end.
Definition fatal_of (run : result SupervisedRunError SubstrateExit) : CaptureEventDelivery :=
  match err_of run with Some e => fatal_event_delivery e | None => CaptureEventDelivery_default end.

Lemma finish_wait_spec {U : UlidLib} {X} {EX : Exporter X} context (x : X) minted wall wait_result s run :
  finish_wait (FatalRunSupervisor_new context x) minted wall wait_result = (s, run) →
  fs_exporter s = match fatal_events context minted wall wait_result with [] => x | es => (export x es).1 end ∧
  (0 ≤ Completion.observed (fatal_of run))%Z ∧
  Completion.observed (fatal_of run) = Z.of_nat (length (fatal_events context minted wall wait_result)) ∧
  (∀ exit, run = Ok exit ↔ wait_result = Ok exit).
Proof.
  unfold finish_wait. destruct wait_result as [exit|[reason d|stage reason d|component d|d]]; cbn [fatal_events].
  - intros [= <- <-]. split_and!; naive_solver.
  - intros [= <- <-]. split_and!; naive_solver.
  - intros [= <- <-]. split_and!; naive_solver.
  - unfold persist. cbn [FatalRunSupervisor_new fs_clock fs_context fs_exporter]. destruct (export x _) as [x' r]. cbn.
    intros [= <- <-]. cbn. split_and!; [done|by destruct r as [|[]]|by destruct r as [|[]]|naive_solver].
  - intros [= <- <-]. split_and!; naive_solver.
Qed.

Lemma transparent_accounts {U : UlidLib} {W : Type} {SW : SinkWorld W} (acc : list Event) (lg : SinkLog) (sp : SpoolState) relay fatal :
  (Z.of_nat (length acc) ≤ u64_max)%Z → data_inv acc lg sp → spooled_inv acc sp →
  let produced := (EventRelay.observed relay + Completion.observed fatal + 1)%Z in
  (0 ≤ EventRelay.observed relay)%Z → (0 ≤ Completion.observed fatal)%Z → (produced ≤ u64_max)%Z →
  let e := transparent_event_delivery (Some (report sp)) relay fatal in
  delivery_wf e ∧ events_account e ∧ Completion.landed e = Z.of_nat (length (acked lg)) ∧
  Completion.observed e = Z.max (Z.of_nat (length acc)) produced ∧
  (Completion.dropped e = 0 → Completion.rejected e = 0 → Completion.pending e = 0 → acked lg = acc ∧ produced ≤ Z.of_nat (length acc))%Z.
Proof.
  intros Hlen (Hsub & Hdel & Hdr & Hrej & Hsum & _) Hsp produced Hr Hf Hp e. unfold spooled_inv in Hsp.
  assert (e = mkEventDelivery (Z.max (Z.of_nat (length acc)) produced) (spooled_events sp) (delivered_events sp)
    (dropped_events sp + Z.max 0 (produced - Z.of_nat (length acc))) (rejected_events sp) (Z.of_nat (length (queue sp)))) as ->.
  { unfold e, transparent_event_delivery, saturating_add, saturating_sub, produced in *. cbn. f_equal; lia. }
  unfold delivery_wf, events_account, is_u64. cbn. split_and!; try lia.
  intros Hd0 Hr0 Hp0. split; [|lia]. assert (queue sp = []) as Hq by (apply nil_length_inv; lia). rewrite Hq in *. cbn in Hsub, Hsum.
  rewrite app_nil_r in Hsub. apply sublist_same_length; [done|]. lia.
Qed.

(** Without a gateway, the accounts are the relay's and the supervisor's own. *)
Lemma direct_accounts relay fatal :
  (EventRelay.landed relay + EventRelay.dropped relay + EventRelay.rejected relay = EventRelay.observed relay)%Z →
  (0 ≤ EventRelay.landed relay)%Z → (0 ≤ EventRelay.dropped relay)%Z → (0 ≤ EventRelay.rejected relay)%Z →
  (Completion.landed fatal + Completion.dropped fatal + Completion.rejected fatal = Completion.observed fatal)%Z →
  (0 ≤ Completion.landed fatal)%Z → (0 ≤ Completion.dropped fatal)%Z → (0 ≤ Completion.rejected fatal)%Z →
  (EventRelay.observed relay + Completion.observed fatal + 1 ≤ u64_max)%Z →
  delivery_wf (transparent_event_delivery None relay fatal) ∧ events_account (transparent_event_delivery None relay fatal).
Proof.
  intros. unfold transparent_event_delivery, saturating_add, delivery_wf, events_account, is_u64. cbn. split_and!; lia.
Qed.

Lemma fatal_of_accounts run : let f := fatal_of run in
  (Completion.landed f + Completion.dropped f + Completion.rejected f = Completion.observed f)%Z ∧
  (0 ≤ Completion.landed f)%Z ∧ (0 ≤ Completion.dropped f)%Z ∧ (0 ≤ Completion.rejected f)%Z.
Proof. unfold fatal_of. destruct run as [|[[r sub [| |[[[]|] fl]]]|e]]; cbn; lia. Qed.

Lemma netns_result_Ok run cleanup code :
  netns_result run cleanup = Ok code ↔ cleanup = None ∧ ∃ exit, run = Ok exit ∧
    code = match exit with ExitCode c => exit_byte c | ExitSignal s => exit_byte (128 + get_signal s) end.
Proof. unfold netns_result. destruct run as [exit|e], cleanup; naive_solver. Qed.

Lemma record_flush_Ok run flush exit : (record_flush run flush).1 = Ok exit ↔ run = Ok exit.
Proof. unfold record_flush. destruct run as [|[]]; naive_solver. Qed.

Lemma available_sources network (inner : CaptureCompletionReport) :
  has_unavailable_source (mkSourcesReport (process (sources inner)) (stdio (sources inner)) network (otlp (sources inner))) = false →
  is_unavailable (Completion.state (process (sources inner))) = false ∧ is_unavailable (Completion.state (stdio (sources inner))) = false ∧
  is_unavailable (Completion.state (otlp (sources inner))) = false ∧ is_unavailable (Completion.state network) = false.
Proof. unfold has_unavailable_source. cbn. rewrite !orb_false_iff. naive_solver. Qed.

(** ** Properties *)

Section netns_end.
Context {U : UlidLib} {J : Type} {EJ : Exporter J} {CJ : CompletionExporter J} {W : Type} {SW : SinkWorld W} {SL : SerializerLaws W}.
Context {BW : Type} {DW : DrainWorld BW} (policy : SpoolPolicy).
#[local] Instance end_spool : Exporter ((W * SinkLog) * SpoolState) := spool_exporter policy.
Abbreviation sinks := (list (J + (W * SinkLog) * SpoolState)).

Lemma completion_new_fields s e b a err r :
  CaptureCompletionReport_new s e b a err = Ok r → r = mkCompletionReport s e b a err.
Proof.
  unfold CaptureCompletionReport_new. destruct (ok_or _ _) as [n|]; [|done]. cbn [mbind result_bind].
  destruct (negb _); [done|]. destruct (_ <? _)%Z; [done|]. destruct (_ <? _)%Z; [done|]. destruct b as [b|]; [|by intros [= <-]].
  destruct (check_blobs b); [|done]. by intros [= <-].
Qed.

(** The report that the accounts give is accepted. *)
Lemma netns_report_accepted spool (relay_state : RelayCaptureState) inner relay run blobs auth :
  let e := transparent_event_delivery spool (EventRelay.events relay_state) (fatal_of run) in
  delivery_wf e → events_account e → (∀ o, blobs = Some o → blobs_wf (blob_delivery o) ∧ blobs_account (blob_delivery o)) →
  netns_report spool relay_state inner relay run blobs auth =
    Ok (mkCompletionReport (netns_sources (netns_network (negb (is_ok relay) || negb (is_ok run)) (network relay_state)) inner) e
          (blob_delivery <$> blobs) auth (match netns_errors inner relay run blobs with [] => None | errors => Some (join (bs "; ") errors) end)).
Proof.
  intros e He Ha Hb. unfold netns_report. rewrite completion_new_accepts; [by destruct (netns_errors inner relay run blobs)|exact He|exact Ha|].
  intros b (o & -> & ->)%fmap_Some. by apply Hb.
Qed.

(** What a complete report says of the run's parts. *)
Lemma complete_parts spool relay_state inner relay run blobs auth report :
  netns_report spool relay_state inner relay run blobs auth = Ok report → is_complete report = true →
  relay = Ok tt ∧ (∃ exit, run = Ok exit) ∧ (blobs ≫= BlobDrain.error) = None ∧
  (∃ r e, inner = Some (r, e) ∧ Completion.error r = None ∧
     is_unavailable (Completion.state (process (sources r))) = false ∧ is_unavailable (Completion.state (stdio (sources r))) = false ∧
     is_unavailable (Completion.state (otlp (sources r))) = false).
Proof.
  intros Hr Hc. unfold netns_report in Hr. set (errors := netns_errors inner relay run blobs) in *.
  assert (Completion.error report = match errors with [] => None | _ => Some (join (bs "; ") errors) end ∧
    sources report = netns_sources (netns_network (negb (is_ok relay) || negb (is_ok run)) (network relay_state)) inner) as [He Hs].
  { apply completion_new_fields in Hr as ->. by destruct errors. }
  unfold is_complete in Hc. rewrite !andb_true_iff in Hc. destruct Hc as (((((Herr & Hu) & _) & _) & _) & _).
  assert (errors = []) as Hnil by (rewrite He in Herr; by destruct errors). clear He Herr. unfold errors, netns_errors in Hnil.
  apply app_eq_nil in Hnil as [H1 Hnil]. apply app_eq_nil in Hnil as [H2 Hnil]. apply app_eq_nil in Hnil as [H3 H4].
  apply negb_true_iff in Hu. rewrite Hs in Hu. destruct inner as [[r e]|]; [|done]. cbn [netns_sources] in Hu.
  destruct (available_sources _ _ Hu) as (Hp & Hst & Ho & _). split_and!.
  - by destruct relay as [[]|].
  - destruct run; [by eexists|done].
  - by destruct (blobs ≫= BlobDrain.error).
  - exists r, e. split_and!; try done. by destruct (Completion.error r).
Qed.

(** The relay's part of the run: its accounts, and what reached the sinks. *)
Lemma netns_relay_part pre (w0 : W) transport gw wl (s : @server U (sinks * export_log)) context minted wall wait_result sup run :
  (0 ≤ max_bytes policy)%Z → 0 < drain_batch_size policy →
  rtc relay_run (relay_bind ((export (netns_sinks pre w0) [transport]).1, []) gw wl) s →
  events_fit (W := W) policy ([transport] ++ concat (exporter s).2.*1 ++ fatal_events context minted wall wait_result) →
  finish_wait (FatalRunSupervisor_new context (exporter s).1) minted wall wait_result = (sup, run) →
  sinks_inv policy ([transport] ++ concat (exporter s).2.*1 ++ fatal_events context minted wall wait_result) (fs_exporter sup).
Proof.
  intros Hmax Hbatch Hr Hfit Hw. destruct (finish_wait_spec _ _ _ _ _ _ _ Hw) as (Hx & _).
  rewrite app_assoc in Hfit |- *. set (fe := fatal_events context minted wall wait_result) in *.
  destruct (events_fit_split policy ([transport] ++ concat (exporter s).2.*1) fe []) as (Hlen & Hfit0 & Hb); [by rewrite app_nil_r|].
  destruct (events_fit_split policy [] [transport] (concat (exporter s).2.*1)) as (Hlen1 & _ & Hb1); [done|].
  assert (sinks_inv policy [transport] (export (netns_sinks pre w0) [transport]).1) as H0.
  { exact (sinks_inv_export policy Hmax Hbatch [] (netns_sinks pre w0) [transport] Hlen1 Hb1 (ltac:(apply sinks_inv_start; done))). }
  pose proof (relay_sinks policy Hmax Hbatch [transport] _ gw wl s Hr H0 Hfit0) as H1. rewrite Hx. destruct fe as [|f fe'] eqn:E.
  - by rewrite app_nil_r.
  - by apply sinks_inv_export.
Qed.

(** C2: the end of a transparent run.  Take any interleaving of the relay
    with the namespaces, any result of the substrate and of the relay, and
    any blob drain.  Building the completion report never panics; what it
    says landed is what the gateway acknowledged.  A report that claims
    completeness tells the truth: the substrate ended normally, the relay
    served to its end, the workload's own report arrived, had no error and
    no source missing, and the gateway acknowledged exactly the transport
    event and every event the namespaces announced, in order.  The run
    succeeds only if the substrate did and nothing failed after it, and then
    with the workload's exit code. *)
Theorem netns_completion_faithful (pre : list J) (w0 : W) (transport : Event) (gw wl : str) (s : @server U (sinks * export_log))
    (context : RunContext) (attributes : Attributes) (argv_json : list str → str) (minted health_id : EventId) (wall : Z) (health_ts : Hlc)
    (wait_result : result ProvisionError SubstrateExit) (relay : result warning unit) (blobs : option BlobDrainOutcome)
    (retry : DrainRetryPolicy) (auth : option Z) (cut : sinks → option sinks) :
  (0 ≤ max_bytes policy)%Z → 0 < drain_batch_size policy →
  rtc relay_run (relay_bind ((export (netns_sinks pre w0) [transport]).1, []) gw wl) s →
  events_fit (W := W) policy ([transport] ++ concat (exporter s).2.*1 ++ fatal_events context minted wall wait_result) →
  (EventRelay.observed (EventRelay.events (capture s)) + 2 ≤ u64_max)%Z →
  (∀ o, blobs = Some o → ∃ (w : BW) d drain_retry, o = (finish w d drain_retry).2 ∧
     (Z.of_nat (BlobDrain.found (outcome_report o)) ≤ u64_max)%Z) →
  (∃ x run report pre' w' log spool,
    netns_run_report policy context (exporter s).1 minted wall wait_result (capture s) relay blobs retry auth = (x, run, Ok report) ∧
    x = (inl <$> pre') ++ [inr ((w', log), spool)] ∧
    Completion.landed (Completion.events report) = Z.of_nat (length (acked log)) ∧ events_account (Completion.events report) ∧
    (is_complete report = true →
      relay = Ok tt ∧ (∃ exit, wait_result = Ok exit) ∧ offered s = concat (exporter s).2.*1 ∧
      acked log = [transport] ++ concat (exporter s).2.*1 ∧
      ∃ r e, completion (capture s) = Some (r, e) ∧ Completion.error r = None ∧
        is_unavailable (Completion.state (process (sources r))) = false ∧ is_unavailable (Completion.state (stdio (sources r))) = false ∧
        is_unavailable (Completion.state (otlp (sources r))) = false)) ∧
  ∃ ended, (netns_run_end policy context attributes argv_json (exporter s).1 minted wall wait_result (capture s) relay blobs retry auth
      health_id health_ts cut).2 = Ok ended ∧
    ∀ code, ended = Ok code → relay = Ok tt ∧ ∃ exit, wait_result = Ok exit ∧
      code = match exit with ExitCode c => exit_byte c | ExitSignal s => exit_byte (128 + get_signal s) end.
Proof.
  intros Hmax Hbatch Hr Hfit Hob Hblobs. destruct (relay_run_inv _ _ _ _ Hr) as (Hrange & Hacc & _). specialize (Hacc ltac:(lia)).
  destruct (finish_wait (FatalRunSupervisor_new context (exporter s).1) minted wall wait_result) as [sup run] eqn:Ew.
  destruct (finish_wait_spec _ _ _ _ _ _ _ Ew) as (_ & Hf0 & Hf & Hok).
  destruct (netns_relay_part _ _ _ _ _ _ _ _ _ _ _ _ Hmax Hbatch Hr Hfit Ew) as (pre' & w & lg & sp & Hx & Hst & Hsp).
  set (acc := [transport] ++ concat (exporter s).2.*1 ++ fatal_events context minted wall wait_result) in *.
  destruct (drain_spool_run policy Hbatch acc pre' w lg sp retry (proj1 Hfit) Hst Hsp) as (w' & lg' & sp' & Hdrain & Hdata & Hsp').
  assert (length (fatal_events context minted wall wait_result) ≤ 1) as Hf1 by (destruct wait_result as [|[]]; cbn; lia).
  destruct (transparent_accounts acc lg' sp' (EventRelay.events (capture s)) (fatal_of run) (proj1 Hfit) Hdata Hsp') as (Hwf & Hac & Hland & Hobs & Hall); [lia|done|lia|].
  assert (∀ o, blobs = Some o → blobs_wf (blob_delivery o) ∧ blobs_account (blob_delivery o)) as Hb.
  { intros o Ho. destruct (Hblobs o Ho) as (bw & d & dr & -> & Hfound). by apply blob_delivery_accounts. }
  pose proof (netns_report_accepted (Some (report sp')) (capture s) (take_completion (capture s)).2 relay run blobs auth Hwf Hac Hb) as Hrep.
  set (rep := mkCompletionReport _ _ _ _ _) in Hrep.
  assert (netns_run_report policy context (exporter s).1 minted wall wait_result (capture s) relay blobs retry auth =
    ((inl <$> pre') ++ [inr ((w', lg'), sp')], run, Ok rep)) as Hrun.
  { unfold netns_run_report. change (netns_spool policy) with (end_spool). rewrite Ew, Hx. rewrite Hdrain. by rewrite Hrep. }
  split.
  - eexists _, run, rep, pre', w', lg', sp'. split; [exact Hrun|]. split; [done|]. split; [exact Hland|]. split; [exact Hac|]. intros Hc.
    destruct (complete_parts _ _ _ _ _ _ _ _ Hrep Hc) as (Hrel & [exit Hexit] & _ & (r & e & Hin & Hrest)).
    unfold is_complete in Hc. rewrite !andb_true_iff, !Z.eqb_eq in Hc. destruct Hc as ((((_ & Hd0) & Hr0) & Hp0) & _).
    destruct (Hall Hd0 Hr0 Hp0) as [Hack Hle]. apply Hok in Hexit. subst wait_result. cbn [fatal_events] in *.
    assert (acc = [transport] ++ concat (exporter s).2.*1) as Ha by (unfold acc; cbn [fatal_events]; by rewrite app_nil_r).
    rewrite Ha in *. rewrite (ac_observed _ Hacc) in Hle. unfold offered in *. rewrite length_app in Hle. cbn in Hle, Hf.
    assert (connections s ≫= unexported = []) as Hun by (apply nil_length_inv; lia). split; [exact Hrel|]. split; [by eexists|].
    split; [by rewrite Hun, app_nil_r|]. split; [exact Hack|]. exists r, e. split; [exact Hin|exact Hrest].
  - unfold netns_run_end. rewrite Hrun. destruct (export_run_completion _ _ _ _) as [x1 r1].
    destruct (flush_after_supervision _ x1 run) as [[x2 run2] flushed] eqn:Efl. destruct (drain_spool policy retry x2) as [x3 sr].
    eexists. split; [reflexivity|]. intros code [Hclean (exit & Hrun2 & ->)]%netns_result_Ok. split.
    { unfold combined_cleanup_error in Hclean. destruct relay as [[]|]; [done|]. by destruct flushed. }
    exists exit. split; [|done]. apply Hok. unfold flush_after_supervision in Efl. destruct (export_flush x1) as [x4 fl].
    pose proof (record_flush_Ok run fl exit) as Hrf. destruct (record_flush run fl) as [run3 fl3]. simplify_eq. by apply Hrf.
Qed.
End netns_end.

(** *** Witness: a workload that exports an event and reports *)

Section witnesses.
#[local] Existing Instances crockford_ulid Scripted.fake_sink Scripted.fake_serializer flaky_world LineRun.memory_exporter memory_completion.
#[local] Instance witness_spool : Exporter ((Scripted.FakeSink * SinkLog) * SpoolState) := spool_exporter Scripted.policy.


Definition witness_id : EventId := mkEventId (run_ulid (sample_run [1])).
Definition witness_transport : Event :=
  transport_event (CaptureNetns ModeNetns (Substrate.passed false)) witness_id Scripted.ctx (mkHlc 0 0) PolicyObserve.
Definition workload_moves : list relay_label :=
  [Accept; Move 0 (Ok (Authenticate (bs "w"))) (Ok ()); Move 0 (Ok (Export [Scripted.ev 1])) (Ok ());
   Move 0 (Ok Flush) (Ok ()); Move 0 (Ok Flush) (Ok ());
   Move 0 (Ok (EventRelay.Completion (mkRelayCompletion Scripted.done_report (Scripted.ev 2)))) (Ok ())].
Definition served : @server crockford_ulid (list (list (list Event) + (Scripted.FakeSink * SinkLog) * SpoolState) * export_log) :=
  relay_exec (relay_bind ((export (netns_sinks [[]] (Scripted.mkFakeSink 0 [])) [witness_transport]).1, []) (bs "g") (bs "w")) workload_moves.
Definition served_events : list Event := [witness_transport] ++ concat (exporter served).2.*1 ++ [].
Definition served_report := netns_run_report Scripted.policy Scripted.ctx (exporter served).1 witness_id 0 (Ok (ExitCode 0)) (capture served)
  (Ok ()) None DrainRetryPolicy_default None.

Lemma served_fits : events_fit (W := Scripted.FakeSink) Scripted.policy served_events.
Proof.
  assert ((Z.of_nat (length served_events) <=? u64_max)%Z &&
    (max_bytes Scripted.policy + bytes_of (park (W := Scripted.FakeSink) <$> served_events) <=? u64_max)%Z = true) as H
    by (vm_compute; reflexivity).
  apply andb_true_iff in H as [H1 H2]. split; [by apply Z.leb_le|by apply Z.leb_le].
Qed.

Lemma netns_completion_faithful_witness :
  ∃ x report pre' w' log spool, served_report = (x, Ok (ExitCode 0), Ok report) ∧ x = (inl <$> pre') ++ [inr ((w', log), spool)] ∧
    acked log = [witness_transport] ++ concat (exporter served).2.*1 ∧ length (acked log) = 2.
Proof.
  destruct (netns_completion_faithful (BW := nat) Scripted.policy [[]] (Scripted.mkFakeSink 0 []) witness_transport (bs "g") (bs "w") served
    Scripted.ctx ∅ LineRun.argv_json witness_id witness_id 0 (mkHlc 0 0) (Ok (ExitCode 0)) (Ok ()) None DrainRetryPolicy_default None (λ _, None))
    as [(x & run & rep & pre' & w' & log & spool & Hrun & Hx & _ & _ & Hc) _].
  - vm_compute; discriminate.
  - vm_compute; lia.
  - exact (relay_exec_run _ _).
  - exact served_fits.
  - apply Z.leb_le. vm_compute. reflexivity.
  - discriminate.
  - assert (complete_result served_report = true) as Hok by (vm_compute; reflexivity).
    assert (match served_report.1.2 with Ok (ExitCode 0) => true | _ => false end = true) as Hexit by (vm_compute; reflexivity).
    unfold complete_result in Hok. change (served_report = (x, run, Ok rep)) in Hrun. rewrite Hrun in Hok, Hexit. cbn in Hok, Hexit.
    destruct run as [[[]|]|]; try discriminate Hexit.
    destruct (Hc Hok) as (_ & _ & _ & Hack & _). exists x, rep, pre', w', log, spool. split; [exact Hrun|]. split; [exact Hx|].
    split; [exact Hack|]. rewrite Hack. apply Nat.eqb_eq. vm_compute. reflexivity.
Defined.
End witnesses.
