(* ===== verification/Otlp.v ===== *)
(** * The OTLP receiver (crates/hiloop-interceptor/src/otlp.rs)

    - The guard on the protobuf envelope ([validate_otlp_cardinality]): it walks
      the bytes of an export without decoding its repeated messages.  A parser
      takes the input slice and returns what it consumed it for with the rest.
    - The receiver ([receiver_step]): its requests interleaved frame by frame,
      the four body permits, and the signals whose bodies hold a permit until
      the pipeline drops them.  What hyper delivers of a request (its frames,
      its end, an error, a timeout) and what the sink answers are labels.
    - The normalizer: a span as an event.  Decoding is the prost crate's
      ([ProstDecode]). *)
From Stdlib Require Import Strings.Byte SpecFloat.
From stdpp Require Import relations.
From S2P Require Import Prelude Text Identity Event Spool Seams Pipeline.

(** ** The envelope guard *)

Inductive OtlpEnvelopeError := EnvelopeLimit (level : str) | EnvelopeMalformed (message : str).
Definition OtlpEnvelopeError_fmt (e : OtlpEnvelopeError) : str :=
  match e with
  | EnvelopeLimit level => bs "OTLP " ++ level ++ bs " limit of " ++ show_uint (Z.of_nat DEFAULT_EXPORT_BATCH_SIZE) ++ bs " exceeded"
  | EnvelopeMalformed message => bs "malformed OTLP envelope: " ++ message
  end.
Abbreviation parsed A := (result OtlpEnvelopeError A).

Definition check_otlp_limit (count : nat) (level : str) : parsed unit :=
  if bool_decide (DEFAULT_EXPORT_BATCH_SIZE < count) then Err (EnvelopeLimit level) else Ok ().

(** The loop of [take_varint] from [index] on; [turns] is what is left of
    [0..10]. *)
Fixpoint take_varint_from (turns : nat) (index : Z) (value : Z) (input : str) : parsed (Z * str) :=
  match turns with
  | O => Err (EnvelopeMalformed (bs "varint overflow"))
  | S turns =>
      match input with
      | [] => Err (EnvelopeMalformed (bs "truncated varint"))
      | b :: rest =>
          if (index =? 9)%Z && (1 <? bz b)%Z then Err (EnvelopeMalformed (bs "varint overflow"))
          else
            let value := Z.lor value (Z.shiftl (Z.land (bz b) 127) (index * 7) mod (u64_max + 1)) in
            if (Z.land (bz b) 128 =? 0)%Z then Ok (value, rest) else take_varint_from turns (index + 1) value rest
      end
  end.
Definition take_varint (input : str) : parsed (Z * str) := take_varint_from 10 0 0 input.

Definition take_key (input : str) : parsed (Z * Z * str) :=
  '(key, rest) ← take_varint input;
  let field := Z.shiftr key 3 in
  if (u32_max <? field)%Z then Err (EnvelopeMalformed (bs "field number is too large"))
  else if (field =? 0)%Z || (536870911 <? field)%Z then Err (EnvelopeMalformed (bs "invalid field number"))
  else Ok (field, Z.land key 7, rest).

Definition take_length_delimited (input : str) : parsed (str * str) :=
  '(length, rest) ← take_varint input;
  if (usize_max <? length)%Z then Err (EnvelopeMalformed (bs "message length is too large"))
  else if (Z.of_nat (List.length rest) <? length)%Z then Err (EnvelopeMalformed (bs "truncated message"))
  else Ok (take (Z.to_nat length) rest, drop (Z.to_nat length) rest).

Definition take_fixed (width : nat) (input : str) : parsed str :=
  if bool_decide (length input < width) then Err (EnvelopeMalformed (bs "truncated fixed-width field")) else Ok (drop width input).

(** The loop over a group's fields; each turn consumes a byte, so a fuel above
    the input's length is never used up ([skip_group_fuel]). *)
Fixpoint skip_group (skip : Z → Z → str → parsed str) (field : Z) (fuel : nat) (input : str) : parsed str :=
  match fuel with
  | O => Err (EnvelopeMalformed (bs "truncated varint"))
  | S fuel =>
      '(nested_field, nested_wire, rest) ← take_key input;
      if (nested_wire =? 4)%Z then
        if (nested_field =? field)%Z then Ok rest else Err (EnvelopeMalformed (bs "mismatched end group"))
      else rest ← skip nested_field nested_wire rest; skip_group skip field fuel rest
  end.

(** [levels] is [100 - depth]. *)
Fixpoint skip_field (levels : nat) (field wire : Z) (input : str) : parsed str :=
  if (wire =? 0)%Z then snd <$> take_varint input
  else if (wire =? 1)%Z then take_fixed 8 input
  else if (wire =? 2)%Z then snd <$> take_length_delimited input
  else if (wire =? 3)%Z then
    match levels with
    | O => Err (EnvelopeMalformed (bs "group nesting is too deep"))
    | S levels => skip_group (skip_field levels) field (S (length input)) input
    end
  else if (wire =? 4)%Z then Err (EnvelopeMalformed (bs "unexpected end group"))
  else if (wire =? 5)%Z then take_fixed 4 input
  else Err (EnvelopeMalformed (bs "invalid wire type")).

(** The loop the three levels share: count a nested message, check the count,
    take the message and go into it. *)
Section walk.
Context {A : Type} (nested : Z) (count : A → parsed A) (inside : A → str → parsed A).
Fixpoint walk (fuel : nat) (input : str) (a : A) : parsed A :=
  match input, fuel with
  | [], _ => Ok a
  | _, O => Err (EnvelopeMalformed (bs "truncated varint"))
  | input, S fuel =>
      '(field, wire, rest) ← take_key input;
      if (field =? nested)%Z && (wire =? 2)%Z then
        a ← count a;
        '(message, rest) ← take_length_delimited rest;
        a ← inside a message;
        walk fuel rest a
      else rest ← skip_field 100 field wire rest; walk fuel rest a
  end.
End walk.

Definition validate_scope (scope : str) (records : nat) : parsed nat :=
  walk 2 (λ records, _ ← check_otlp_limit (S records) (bs "record"); Ok (S records)) (λ records _, Ok records)
    (length scope) scope records.
Definition validate_resource (resource : str) (counts : nat * nat) : parsed (nat * nat) :=
  walk 2 (λ '(scopes, records), _ ← check_otlp_limit (S scopes) (bs "scope"); Ok (S scopes, records))
    (λ '(scopes, records) scope, records ← validate_scope scope records; Ok (scopes, records))
    (length resource) resource counts.
Definition validate_otlp_cardinality (export : str) : parsed unit :=
  _ ← walk 1 (λ '(resources, counts), _ ← check_otlp_limit (S resources) (bs "resource"); Ok (S resources, counts))
        (λ '(resources, counts) resource, counts ← validate_resource resource counts; Ok (resources, counts))
        (length export) export (0, (0, 0));
  Ok ().

(** ** The receiver *)

Definition OTLP_TRACES_KIND : str := bs "traces".
Definition TRACES_PATH : str := bs "/v1/traces".
Definition MAX_OTLP_BODY_BYTES : nat := Z.to_nat (1024 * 1024).
Definition MAX_IN_FLIGHT_OTLP_BODIES : nat := 4.
#[global] Arguments MAX_OTLP_BODY_BYTES : simpl never.

Inductive status := StatusOk | NotFound | TooManyRequests | PayloadTooLarge | BadRequest | RequestTimeout | ServiceUnavailable.

(** A request's point in [handle_request]; while [Receiving] and [Offering] it
    holds a permit. *)
Inductive exchange :=
| Receiving (bytes : str)
| Offering (raw : RawSignal)
| Responded (s : status)
| Disconnected.

(** [rx_alive] are the delivered signals whose body is still referenced,
    [rx_delivered] all signals ever delivered. *)
Record receiver := mkReceiver {
  rx_slots : nat; rx_exchanges : list exchange; rx_alive : list RawSignal; rx_delivered : list RawSignal }.
Definition receiver_bind : receiver := mkReceiver MAX_IN_FLIGHT_OTLP_BODIES [] [] [].

(** What the body gives next; [Timeout] is the end of the read's time. *)
Inductive frame := FrameData (data : str) | FrameTrailers | FrameError | FrameEnd | FrameTimeout.

(** The body is read to its end within the cap ([Limited]); at its end it is
    validated and becomes a signal observed at [now]. *)
Definition receive_frame (bytes : str) (f : frame) (now : Hlc) : exchange :=
  match f with
  | FrameData data =>
      if bool_decide (MAX_OTLP_BODY_BYTES - length bytes < length data) then Responded PayloadTooLarge else Receiving (bytes ++ data)
  | FrameTrailers => Receiving bytes
  | FrameError => Responded BadRequest
  | FrameTimeout => Responded RequestTimeout
  | FrameEnd =>
      match validate_otlp_cardinality bytes with
      | Ok _ => Offering (RawSignal_with_attribute (RawSignal_new OTLP_SOURCE OTLP_TRACES_KIND now bytes) (bs "otlp.path") TRACES_PATH)
      | Err (EnvelopeLimit _) => Responded PayloadTooLarge
      | Err (EnvelopeMalformed _) => Responded BadRequest
      end
  end.

Inductive receiver_label :=
| Arrive (method path : str)
| Frame (i : nat) (f : frame) (now : Hlc)
| SinkAnswer (i : nat) (answer : SinkSend)
| Disconnect (i : nat)
| Release (j : nat).

(** A permit is returned when its exchange ends without a delivery. *)
Definition returns_permit (e : exchange) : nat := match e with Responded _ | Disconnected => 1 | _ => 0 end.

Definition receiver_step_fn (l : receiver_label) (s : receiver) : option receiver :=
  match l with
  | Arrive method path =>
      let '(slots, e) :=
        if negb (bool_decide (method = bs "POST")) || negb (bool_decide (path = TRACES_PATH)) then (rx_slots s, Responded NotFound)
        else match rx_slots s with O => (O, Responded TooManyRequests) | S slots => (slots, Receiving []) end in
      Some (mkReceiver slots (rx_exchanges s ++ [e]) (rx_alive s) (rx_delivered s))
  | Frame i f now =>
      match rx_exchanges s !! i with
      | Some (Receiving bytes) =>
          let e := receive_frame bytes f now in
          Some (mkReceiver (rx_slots s + returns_permit e) (<[i := e]> (rx_exchanges s)) (rx_alive s) (rx_delivered s))
      | _ => None
      end
  | SinkAnswer i answer =>
      match rx_exchanges s !! i with
      | Some (Offering raw) =>
          match answer with
          | Closed => Some (mkReceiver (S (rx_slots s)) (<[i := Responded ServiceUnavailable]> (rx_exchanges s)) (rx_alive s) (rx_delivered s))
          | _ => Some (mkReceiver (rx_slots s) (<[i := Responded StatusOk]> (rx_exchanges s)) (rx_alive s ++ [raw]) (rx_delivered s ++ [raw]))
          end
      | _ => None
      end
  | Disconnect i =>
      match rx_exchanges s !! i with
      | Some (Receiving _ | Offering _) =>
          Some (mkReceiver (S (rx_slots s)) (<[i := Disconnected]> (rx_exchanges s)) (rx_alive s) (rx_delivered s))
      | _ => None
      end
  | Release j =>
      match rx_alive s !! j with
      | Some _ => Some (mkReceiver (S (rx_slots s)) (rx_exchanges s) (delete j (rx_alive s)) (rx_delivered s))
      | None => None
      end
  end.
Definition receiver_step (s s' : receiver) : Prop := ∃ l, receiver_step_fn l s = Some s'.

(** ** Spans as events *)

(** The decoded types of the opentelemetry-proto crate, as far as the code
    reads them; [OtherValue] are the value kinds it drops. *)
Inductive any_value := StringValue (s : str) | IntValue (z : Z) | DoubleValue (f : f64) | BoolValue (b : bool) | OtherValue.
Record KeyValue := mkKeyValue { kv_key : str; kv_value : option (option any_value) }.
Record OtlpSpan := mkSpan {
  span_trace_id : str; span_span_id : str; span_parent_span_id : str; sp_name : str;
  span_start_time_unix_nano : Z; span_attributes : list KeyValue }.
Record ScopeSpans := mkScopeSpans { scope_span_list : list OtlpSpan }.
Record ResourceSpans := mkResourceSpans { scope_spans : list ScopeSpans }.
Record ExportTraceServiceRequest := mkExportRequest { resource_spans : list ResourceSpans }.
Definition request_spans (r : ExportTraceServiceRequest) : list OtlpSpan :=
  resource_spans r ≫= λ rs, scope_spans rs ≫= scope_span_list.

Definition hex_byte_lower (b : byte) : str := hex_padded 2 (bz b).
Definition hex (bytes : str) : str := bytes ≫= hex_byte_lower.

Definition convert_any_value (v : option any_value) : option AttributeValue :=
  v ← v;
  match v with
  | StringValue s => Some (AString s)
  | IntValue z => Some (AI64 z)
  | DoubleValue f => match FiniteF64_new f with Ok f => Some (AF64 f) | Err _ => None end
  | BoolValue b => Some (ABool b)
  | OtherValue => None
  end.

Definition span_name (span : OtlpSpan) : str := if is_blank (sp_name span) then bs "otel.span" else sp_name span.
Definition llm_key (k : str) : bool := starts_with (bs "gen_ai.") k || starts_with (bs "llm.") k.
Definition span_is_llm (span : OtlpSpan) : bool := existsb (λ a, llm_key (kv_key a)) (span_attributes span).

Definition OTLP_DESCRIPTOR : NormalizerDescriptor := mkDescriptor (bs "otlp-trace") (bs "0.1.0") (bs "hiloop.event.v1").
Definition otlp_supports (raw : RawSignal) : NormalizerSupport :=
  if bool_decide (raw_source raw = OTLP_SOURCE) && bool_decide (raw_kind raw = OTLP_TRACES_KIND) then Exact else NotSupported.

Class ProstDecode := prost_decode : str → result str ExportTraceServiceRequest.

Section normalizer.
Context {U : UlidLib} {N : Type} (mint : N → N * EventId).

Definition with_id (e : Event) (name : string) (id : str) : Event :=
  if bool_decide (id = []) then e else with_attribute e (key name) (AString (hex id)).
Definition with_span_attribute (e : Event) (a : KeyValue) : Event :=
  match text_new AttributeKeyK (kv_key a) with
  | Err _ => e
  | Ok k => match kv_value a ≫= convert_any_value with Some v => with_attribute e k v | None => e end
  end.

Definition EventError_fmt (k : text_kind) : str := text_field k ++ bs " must not be blank".
Definition span_to_event (n : N) (context : NormalizationContext) (span : OtlpSpan) : N * result NormalizeError Event :=
  let signal := if span_is_llm span then Llm else Span in
  match text_new EventNameK (span_name span) with
  | Err _ => (n, Err (InvalidOutput (descriptor_name OTLP_DESCRIPTOR) (EventError_fmt EventNameK)))
  | Ok name =>
      let ts := mkHlc (span_start_time_unix_nano span) 0 in
      let '(n, minted) := mint n in
      let event := Event_new minted (run_context context) ts signal name in
      let event := with_id event "otel.trace_id" (span_trace_id span) in
      let event := with_id event "otel.span_id" (span_span_id span) in
      let event := with_id event "otel.parent_span_id" (span_parent_span_id span) in
      (n, Ok (fold_left with_span_attribute (span_attributes span) event))
  end.

Fixpoint spans_to_events (n : N) (context : NormalizationContext) (events : list Event) (spans : list OtlpSpan)
    : N * result NormalizeError (list Event) :=
  match spans with
  | [] => (n, Ok events)
  | span :: spans =>
      match span_to_event n context span with
      | (n, Ok e) => spans_to_events n context (events ++ [e]) spans
      | (n, Err e) => (n, Err e)
      end
  end.

Definition otlp_normalize `{ProstDecode} (n : N) (context : NormalizationContext) (raw : RawSignal)
    : N * result NormalizeError NormalizationOutcome :=
  match validate_otlp_cardinality (raw_body raw) with
  | Err e => (n, Err (Decode (raw_source raw) (raw_kind raw) (OtlpEnvelopeError_fmt e)))
  | Ok _ =>
      match prost_decode (raw_body raw) with
      | Err e => (n, Err (Decode (raw_source raw) (raw_kind raw) e))
      | Ok request =>
          let '(n, r) := spans_to_events n context [] (request_spans request) in
          (n, from_events <$> r)
      end
  end.
Definition OtlpTraceNormalizer `{ProstDecode} : Normalizer N := mkNormalizer OTLP_DESCRIPTOR otlp_supports otlp_normalize.
End normalizer.

(** ** The wire format

    What the protobuf encoding says, as a relation between bytes and fields: a
    varint is at most ten bytes whose value fits 64 bits; an item is a
    length-delimited [Message] or any other field; groups nest to [levels]. *)

Fixpoint base128 (bytes : str) : Z :=
  match bytes with [] => 0%Z | b :: rest => (bz b mod 128 + 128 * base128 rest)%Z end.
(** [bytes] is a varint cut after [index] bytes of it. *)
Definition varint_tail (index : Z) (bytes : str) : Prop :=
  ∃ init last, bytes = init ++ [last] ∧ Forall (λ b, (128 ≤ bz b)%Z) init ∧ (bz last < 128)%Z ∧
    (Z.of_nat (length bytes) ≤ 10 - index)%Z ∧ (2 ^ (7 * index) * base128 bytes ≤ u64_max)%Z.
Definition varint (bytes : str) (v : Z) : Prop := varint_tail 0 bytes ∧ v = base128 bytes.

Inductive item := Message (payload : str) | Opaque.
Definition key_of (field wire : Z) (bytes : str) : Prop := (1 ≤ field ≤ 536870911)%Z ∧ varint bytes (8 * field + wire)%Z.
Inductive wire_body : nat → Z → Z → str → item → Prop :=
| body_varint levels field vb v : varint vb v → wire_body levels field 0 vb Opaque
| body_fixed64 levels field bytes : length bytes = 8 → wire_body levels field 1 bytes Opaque
| body_bytes levels field lb payload : varint lb (Z.of_nat (length payload)) → wire_body levels field 2 (lb ++ payload) (Message payload)
| body_group levels field bytes eb items :
    wire_message levels bytes items → key_of field 4 eb → wire_body (S levels) field 3 (bytes ++ eb) Opaque
| body_fixed32 levels field bytes : length bytes = 4 → wire_body levels field 5 bytes Opaque
with wire_message : nat → str → list (Z * item) → Prop :=
| wire_nil levels : wire_message levels [] []
| wire_cons levels kb field wire body it rest items :
    key_of field wire kb → wire_body levels field wire body it → wire_message levels rest items →
    wire_message levels (kb ++ body ++ rest) ((field, it) :: items).

(** The payloads of the messages of a field. *)
Definition messages (field : Z) (items : list (Z * item)) : list str :=
  omap (λ '(f, it), match it with Message payload => if (f =? field)%Z then Some payload else None | Opaque => None end) items.

(** An export as its resources, their scopes and the scopes' records. *)
Definition envelope (export : str) (resources scopes records : list str) : Prop :=
  ∃ items ritems sitems, wire_message 100 export items ∧ resources = messages 1 items ∧
    Forall2 (wire_message 100) resources ritems ∧ scopes = (ritems ≫= messages 2) ∧
    Forall2 (wire_message 100) scopes sitems ∧ records = (sitems ≫= messages 2).

(** ** Lemmas *)

Lemma lor_shifted value m n : (0 ≤ n)%Z → (0 ≤ value < 2 ^ n)%Z → Z.lor value (Z.shiftl m n) = (value + m * 2 ^ n)%Z.
Proof.
  intros Hn Hv. rewrite <- Z.shiftl_mul_pow2 by done. symmetry. apply Z.add_nocarry_lor. apply Z.bits_inj'. intros i Hi.
  rewrite Z.land_spec, Z.bits_0. destruct (Z.lt_ge_cases i n) as [Hlt|Hge].
  - rewrite (Z.shiftl_spec_low m n i) by lia. apply andb_false_r.
  - destruct (decide (value = 0%Z)) as [->|Hne]; [by rewrite Z.bits_0|].
    rewrite (Z.bits_above_log2 value i); [done|lia|]. apply Z.log2_lt_pow2; [lia|].
    apply Z.lt_le_trans with (2 ^ n)%Z; [lia|]. by apply Z.pow_le_mono_r.
Qed.

Lemma land_127 z : (0 ≤ z)%Z → Z.land z 127 = (z mod 128)%Z.
Proof. intros. exact (Z.land_ones z 7 ltac:(lia)). Qed.
Lemma land_128 b : (Z.land (bz b) 128 =? 0)%Z = (bz b <? 128)%Z.
Proof. by destruct b. Qed.
Lemma base128_nonneg bytes : (0 ≤ base128 bytes)%Z.
Proof. induction bytes as [|b bytes IH]; cbn; [lia|]. pose proof (Z.mod_pos_bound (bz b) 128). lia. Qed.
Lemma base128_app a b : base128 (a ++ b) = (base128 a + 128 ^ Z.of_nat (length a) * base128 b)%Z.
Proof.
  induction a as [|x a IH]; cbn [base128 app length].
  { change (128 ^ Z.of_nat 0)%Z with 1%Z. lia. }
  rewrite IH, Nat2Z.inj_succ, Z.pow_succ_r by lia. lia.
Qed.

Lemma pow7_succ index : (0 ≤ index)%Z → (2 ^ (7 * (index + 1)) = 128 * 2 ^ (7 * index))%Z.
Proof. intros. rewrite Z.mul_add_distr_l, Z.pow_add_r by lia. change (2 ^ (7 * 1))%Z with 128%Z. lia. Qed.

(** A varint cut after its first byte. *)
Lemma varint_tail_cons index b rest : (0 ≤ index)%Z →
  varint_tail index (b :: rest) ↔
    (index < 10)%Z ∧ (2 ^ (7 * index) * (bz b mod 128 + 128 * base128 rest) ≤ u64_max)%Z ∧
    (((bz b < 128)%Z ∧ rest = []) ∨ ((128 ≤ bz b)%Z ∧ varint_tail (index + 1) rest)).
Proof.
  intros Hi. pose proof (Z.pow_pos_nonneg 2 (7 * index) ltac:(lia) ltac:(lia)) as Hp. split.
  - intros (init & last & E & Hf & Hl & Hlen & Hb). cbn [length] in Hlen. split; [lia|]. split; [exact Hb|].
    destruct init as [|x init]; [injection E as -> ->; by left|]. injection E as -> ->. apply Forall_cons in Hf as [Hx Hf]. right. split; [done|].
    exists init, last. split_and!; [done..|lia|]. cbn [base128] in Hb. rewrite pow7_succ by done.
    pose proof (Z.mod_pos_bound (bz x) 128). nia.
  - intros (Hlt & Hb & [[Hl ->]|[Hx (init & last & -> & Hf & Hl & Hlen & _)]]).
    + exists [], b. split_and!; [done|by constructor|done|cbn; lia|exact Hb].
    + exists (b :: init), last. split_and!; [done|by constructor|done|cbn [length] in *; lia|exact Hb].
Qed.

Lemma take_varint_from_spec turns index value input v rest :
  (0 ≤ index)%Z → (index + Z.of_nat turns = 10)%Z → (0 ≤ value < 2 ^ (7 * index))%Z →
  take_varint_from turns index value input = Ok (v, rest) ↔
    ∃ bytes, input = bytes ++ rest ∧ varint_tail index bytes ∧ v = (value + 2 ^ (7 * index) * base128 bytes)%Z.
Proof.
  revert index value input. induction turns as [|turns IH]; intros index value input Hi Ht Hv; cbn [take_varint_from].
  { split; [done|]. intros (bytes & _ & (init & last & -> & _ & _ & Hlen & _) & _). rewrite length_app in Hlen. cbn in Hlen. lia. }
  destruct input as [|b input].
  { split; [done|]. intros (bytes & E & (init & last & -> & _) & _). by destruct init. }
  pose proof (bz_range b) as Hb. pose proof (Z.mod_pos_bound (bz b) 128 ltac:(lia)) as Hm.
  pose proof (Z.pow_pos_nonneg 2 (7 * index) ltac:(lia) ltac:(lia)) as Hp.
  assert (∀ P : Prop, (∃ bytes, b :: input = bytes ++ rest ∧ varint_tail index bytes ∧ v = (value + 2 ^ (7 * index) * base128 bytes)%Z) ↔
    ∃ tail, input = tail ++ rest ∧ varint_tail index (b :: tail) ∧ v = (value + 2 ^ (7 * index) * (bz b mod 128 + 128 * base128 tail))%Z) as Hcons.
  { intros _. split.
    - intros (bytes & E & Hvt & ->). destruct bytes as [|x bytes]; [destruct Hvt as (init & last & Hnil & _); by destruct init|].
      injection E as <- ->. by exists bytes.
    - intros (tail & -> & Hvt & ->). by exists (b :: tail). }
  rewrite (Hcons True). clear Hcons.
  destruct ((index =? 9)%Z && (1 <? bz b)%Z) eqn:Eo.
  { apply andb_true_iff in Eo as [->%Z.eqb_eq Hgt%Z.ltb_lt]. split; [done|]. intros (tail & _ & Hvt & _).
    apply varint_tail_cons in Hvt as (_ & Hle & Hcase); [|done]. exfalso.
    pose proof (base128_nonneg tail). change (2 ^ (7 * 9))%Z with 9223372036854775808%Z in Hle. unfold u64_max in Hle.
    destruct Hcase as [[Hl ->]|[Hge (init & last & -> & _ & _ & Hlen & _)]].
    - rewrite Z.mod_small in Hle by lia. lia.
    - rewrite length_app in Hlen. cbn in Hlen. lia. }
  assert ((2 ^ (7 * index) * (bz b mod 128) ≤ u64_max)%Z) as Hfit.
  { apply andb_false_iff in Eo. destruct (decide (index = 9%Z)) as [->|Hne].
    - destruct Eo as [Eo|Eo]; [done|]. apply Z.ltb_ge in Eo. change (2 ^ (7 * 9))%Z with 9223372036854775808%Z. unfold u64_max.
      rewrite Z.mod_small by lia. lia.
    - assert (2 ^ (7 * index) ≤ 2 ^ 56)%Z by (apply Z.pow_le_mono_r; lia). change (2 ^ 56)%Z with 72057594037927936%Z in *. unfold u64_max. nia. }
  cbv zeta. rewrite land_127 by lia. rewrite land_128. rewrite (Z.mul_comm index 7).
  rewrite Z.mod_small by (rewrite Z.shiftl_mul_pow2 by lia; nia). rewrite lor_shifted by lia.
  destruct (Z.ltb_spec (bz b) 128) as [Hlt|Hge].
  - split.
    + intros [= <- <-]. exists []. split; [done|]. split; [|cbn; lia]. apply varint_tail_cons; [done|]. split; [lia|]. cbn.
      rewrite Z.mul_0_r, Z.add_0_r. split; [done|by left].
    + intros (tail & -> & Hvt & ->). apply varint_tail_cons in Hvt as (_ & _ & [[_ ->]|[? _]]); [|lia|done]. cbn. f_equal. f_equal. lia.
  - rewrite IH; [|lia|lia|rewrite pow7_succ by done; nia]. split.
    + intros (bytes & -> & Hvt & ->). exists bytes. split; [done|]. rewrite pow7_succ by done. split; [|lia].
      apply varint_tail_cons; [done|]. split; [lia|]. split; [|by right].
      destruct Hvt as (init & last & -> & _ & _ & Hlen & Hle). rewrite pow7_succ in Hle by done.
      assert (index ≤ 8)%Z as Hi8 by (rewrite length_app in Hlen; cbn in Hlen; lia).
      assert (∃ k, u64_max + 1 = k * (128 * 2 ^ (7 * index)))%Z as [k Hk].
      { exists (2 ^ (64 - (7 * index + 7)))%Z. change 128%Z with (2 ^ 7)%Z. rewrite <- !Z.pow_add_r by lia.
        replace (64 - (7 * index + 7) + (7 + 7 * index))%Z with 64%Z by lia. done. }
      set (B := base128 (init ++ [last])) in *. set (P := (2 ^ (7 * index))%Z) in *.
      assert (B < k)%Z by nia. assert (P * (bz b mod 128 + 128 * B) ≤ P * (127 + 128 * (k - 1)))%Z by nia. lia.
    + intros (tail & -> & Hvt & ->). apply varint_tail_cons in Hvt as (_ & _ & [[? _]|[_ Hvt]]); [lia| |done].
      exists tail. split; [done|]. split; [done|]. rewrite pow7_succ by done. lia.
Qed.

Lemma take_varint_spec input v rest : take_varint input = Ok (v, rest) ↔ ∃ bytes, input = bytes ++ rest ∧ varint bytes v.
Proof.
  unfold take_varint, varint. rewrite take_varint_from_spec by (cbn; lia). change (2 ^ (7 * 0))%Z with 1%Z.
  split; intros (bytes & -> & Ht & ->); exists bytes; split_and!; done || lia.
Qed.

Lemma varint_ne bytes v : varint bytes v → bytes ≠ [].
Proof. intros [(init & last & -> & _) _]. by destruct init. Qed.
Lemma key_length field wire kb : key_of field wire kb → 1 ≤ length kb.
Proof. intros [_ H]. apply varint_ne in H. destruct kb; cbn; [done|lia]. Qed.

Lemma key_parts k : (Z.shiftr k 3 = k / 8)%Z ∧ (Z.land k 7 = k mod 8)%Z.
Proof. split; [exact (Z.shiftr_div_pow2 k 3 ltac:(lia))|exact (Z.land_ones k 3 ltac:(lia))]. Qed.

Lemma take_key_spec input field wire rest :
  take_key input = Ok (field, wire, rest) ↔ (0 ≤ wire < 8)%Z ∧ ∃ kb, input = kb ++ rest ∧ key_of field wire kb.
Proof.
  unfold take_key. split.
  - destruct (take_varint input) as [[k r]|e] eqn:E; [|done]. cbn [mbind result_bind]. destruct (key_parts k) as [-> ->].
    apply take_varint_spec in E as (kb & -> & Hv). pose proof (Z.div_mod k 8 ltac:(lia)) as Hd. pose proof (Z.mod_pos_bound k 8 ltac:(lia)) as Hm.
    assert (0 ≤ k)%Z as Hk by (destruct Hv as [_ ->]; apply base128_nonneg). pose proof (Z.div_pos k 8 Hk ltac:(lia)) as Hq.
    destruct (Z.ltb_spec u32_max (k / 8)) as [|_]; [done|]. destruct (Z.eqb_spec (k / 8) 0) as [|H0]; [done|]. cbn [orb].
    destruct (Z.ltb_spec 536870911 (k / 8)) as [|H1]; [done|]. intros [= <- <- <-]. split; [done|]. exists kb. split; [done|].
    split; [lia|]. by rewrite <- Hd.
  - intros (Hw & kb & -> & [Hf Hv]). rewrite (proj2 (take_varint_spec _ _ _)) by eauto. cbn [mbind result_bind].
    destruct (key_parts (8 * field + wire)) as [-> ->].
    rewrite (Z.mul_comm 8), Z.div_add_l, (Z.div_small wire), Z.add_0_r by lia.
    rewrite (Z.add_comm _ wire), Z.mod_add, (Z.mod_small wire) by lia.
    rewrite !(proj2 (Z.ltb_ge _ _)), (proj2 (Z.eqb_neq _ _)) by (unfold u32_max; lia). done.
Qed.

Lemma take_length_delimited_spec input message rest :
  take_length_delimited input = Ok (message, rest) ↔ ∃ lb, input = lb ++ message ++ rest ∧ varint lb (Z.of_nat (length message)).
Proof.
  unfold take_length_delimited. split.
  - destruct (take_varint input) as [[k r]|e] eqn:E; [|done]. cbn [mbind result_bind]. apply take_varint_spec in E as (lb & -> & Hv).
    assert (0 ≤ k)%Z as Hk by (destruct Hv as [_ ->]; apply base128_nonneg).
    destruct (Z.ltb_spec usize_max k) as [|_]; [done|]. destruct (Z.ltb_spec (Z.of_nat (length r)) k) as [|Hl]; [done|].
    intros [= <- <-]. exists lb. rewrite take_drop. split; [done|]. rewrite length_take_le, Z2Nat.id by lia. done.
  - intros (lb & -> & Hv). rewrite (proj2 (take_varint_spec _ _ _)) by eauto. cbn [mbind result_bind].
    assert (Z.of_nat (length message) ≤ usize_max)%Z as Hm.
    { destruct Hv as [(_ & _ & _ & _ & _ & _ & Hle) ->]. change (2 ^ (7 * 0))%Z with 1%Z in Hle. unfold usize_max. lia. }
    rewrite !(proj2 (Z.ltb_ge _ _)) by (rewrite ?length_app; lia). rewrite Nat2Z.id, take_app_length, drop_app_length. done.
Qed.

Lemma take_fixed_spec width input rest : take_fixed width input = Ok rest ↔ ∃ bytes, input = bytes ++ rest ∧ length bytes = width.
Proof.
  unfold take_fixed. case_bool_decide as H; split.
  - done.
  - intros (bytes & -> & <-). rewrite length_app in H. lia.
  - intros [= <-]. exists (take width input). rewrite take_drop, length_take. split; [done|lia].
  - intros (bytes & -> & <-). by rewrite drop_app_length.
Qed.

(** What [skip] does at a level, and so what the loop over a group does. *)
Definition skips (levels : nat) (skip : Z → Z → str → parsed str) : Prop :=
  ∀ field wire input rest, skip field wire input = Ok rest ↔ ∃ body it, input = body ++ rest ∧ wire_body levels field wire body it.

Lemma skip_group_spec levels skip field fuel input rest : skips levels skip → length input < fuel →
  skip_group skip field fuel input = Ok rest ↔
    ∃ body eb items, input = body ++ eb ++ rest ∧ wire_message levels body items ∧ key_of field 4 eb.
Proof.
  intros Hskip. revert input. induction fuel as [|fuel IH]; intros input Hlen; [lia|]. cbn [skip_group]. split.
  - destruct (take_key input) as [[[f w] r]|] eqn:E; [|done]. cbn [mbind result_bind]. apply take_key_spec in E as (_ & kb & -> & Hk).
    pose proof (key_length _ _ _ Hk) as Hne. destruct (Z.eqb_spec w 4) as [->|Hw].
    + destruct (Z.eqb_spec f field) as [->|]; [|done]. intros [= <-]. exists [], kb, []. split; [done|]. split; [constructor|done].
    + destruct (skip f w r) as [r1|] eqn:Es; [|done]. cbn [mbind result_bind]. apply Hskip in Es as (body & it & -> & Hb).
      rewrite IH by (rewrite !length_app in Hlen; lia).
      intros (body' & eb & items & -> & Hm & He). exists (kb ++ body ++ body'), eb, ((f, it) :: items).
      split; [by rewrite <- !app_assoc|]. split; [by econstructor|done].
  - intros (body0 & eb & items0 & -> & Hm0 & He). inversion Hm0 as [|? kb f w body it rest' items Hk Hb Hm]; subst.
    + rewrite (proj2 (take_key_spec _ field 4 rest)); [|split; [lia|by exists eb]]. cbn. by rewrite Z.eqb_refl.
    + pose proof (key_length _ _ _ Hk) as Hne. assert (0 ≤ w < 8 ∧ w ≠ 4)%Z as [Hw H4] by (inversion Hb; lia).
      rewrite (proj2 (take_key_spec _ f w (body ++ rest' ++ eb ++ rest))); [|split; [done|exists kb; by rewrite <- !app_assoc]].
      cbn [mbind result_bind]. rewrite (proj2 (Z.eqb_neq _ _) H4).
      rewrite (proj2 (Hskip _ _ _ (rest' ++ eb ++ rest))) by eauto. cbn [mbind result_bind].
      apply IH; [|by eauto 10]. rewrite !length_app in Hlen. rewrite !length_app. lia.
Qed.

(** The fields without nesting. *)
Lemma skip_plain levels field wire input rest : wire ≠ 3%Z →
  (if (wire =? 0)%Z then snd <$> take_varint input
   else if (wire =? 1)%Z then take_fixed 8 input
   else if (wire =? 2)%Z then snd <$> take_length_delimited input
   else if (wire =? 5)%Z then take_fixed 4 input
   else Err (EnvelopeMalformed (bs "invalid wire type"))) = Ok rest ↔
  ∃ body it, input = body ++ rest ∧ wire_body levels field wire body it.
Proof.
  intros H3. destruct (Z.eqb_spec wire 0) as [->|H0]; [|destruct (Z.eqb_spec wire 1) as [->|H1]; [|destruct (Z.eqb_spec wire 2) as [->|H2]; [|destruct (Z.eqb_spec wire 5) as [->|H5]]]].
  - split.
    + intros ([v r] & E & <-)%fmap_Ok. apply take_varint_spec in E as (vb & -> & Hv). exists vb, Opaque. split; [done|by econstructor].
    + intros (body & it & -> & Hb). inversion Hb; subst. by rewrite (proj2 (take_varint_spec _ v rest)) by eauto.
  - rewrite take_fixed_spec. split.
    + intros (bytes & -> & Hl). exists bytes, Opaque. split; [done|by constructor].
    + intros (body & it & -> & Hb). inversion Hb; subst. eauto.
  - split.
    + intros ([v r] & E & <-)%fmap_Ok. apply take_length_delimited_spec in E as (lb & -> & Hv). exists (lb ++ v), (Message v).
      split; [by rewrite <- app_assoc|by constructor].
    + intros (body & it & -> & Hb). inversion Hb; subst. rewrite <- app_assoc. by rewrite (proj2 (take_length_delimited_spec _ payload rest)) by eauto.
  - rewrite take_fixed_spec. split.
    + intros (bytes & -> & Hl). exists bytes, Opaque. split; [done|by constructor].
    + intros (body & it & -> & Hb). inversion Hb; subst. eauto.
  - split; [done|]. intros (body & it & -> & Hb). by inversion Hb; subst.
Qed.

Lemma skip_field_spec levels : skips levels (skip_field levels).
Proof.
  induction levels as [|levels IH]; intros field wire input rest; destruct (decide (wire = 3%Z)) as [->|H3]; cbn [skip_field].
  - split; [done|]. intros (body & it & -> & Hb). by inversion Hb.
  - rewrite <- (skip_plain 0 field wire) by done. rewrite (proj2 (Z.eqb_neq wire 3)) by done. repeat case_match; try done; breflect; subst; by split.
  - change (skip_group (skip_field levels) field (S (length input)) input = Ok rest ↔ ∃ body it, input = body ++ rest ∧ wire_body (S levels) field 3 body it).
    rewrite (skip_group_spec levels) by (done || lia). split.
    + intros (body & eb & items & -> & Hm & He). exists (body ++ eb), Opaque. split; [by rewrite <- app_assoc|by econstructor].
    + intros (body & it & -> & Hb). inversion Hb; subst. eexists _, _, _. split; [by rewrite <- app_assoc|done].
  - rewrite <- (skip_plain (S levels) field wire) by done. rewrite (proj2 (Z.eqb_neq wire 3)) by done. repeat case_match; try done; breflect; subst; by split.
Qed.

(** [Iterator::try_fold] *)
Fixpoint try_fold {E A B} (f : A → B → result E A) (a : A) (l : list B) : result E A :=
  match l with [] => Ok a | b :: l => a ← f a b; try_fold f a l end.

Section walks.
Context {A : Type} (nested : Z) (count : A → parsed A) (inside : A → str → parsed A).
Abbreviation enter := (λ a m, a ← count a; inside a m).

Lemma walk_cons fuel kb field wire rest a : (0 ≤ wire < 8)%Z → key_of field wire kb →
  walk nested count inside (S fuel) (kb ++ rest) a =
    if (field =? nested)%Z && (wire =? 2)%Z then
      a ← count a; '(message, rest) ← take_length_delimited rest; a ← inside a message; walk nested count inside fuel rest a
    else rest ← skip_field 100 field wire rest; walk nested count inside fuel rest a.
Proof.
  intros Hw Hk. pose proof (key_length _ _ _ Hk) as Hl. destruct kb as [|k kb]; cbn [length] in Hl; [lia|].
  cbn [walk app]. rewrite app_comm_cons. by rewrite (proj2 (take_key_spec _ field wire rest)) by eauto.
Qed.

(** On well-formed bytes the walk visits the field's messages in order. *)
Lemma walk_wf fuel input items a : wire_message 100 input items → length input ≤ fuel →
  walk nested count inside fuel input a = try_fold enter a (messages nested items).
Proof.
  revert input items a. induction fuel as [|fuel IH]; intros input items a Hm Hl.
  { destruct input; cbn in Hl; [|lia]. inversion Hm as [|? kb f w body it rest its Hk Hb Hr E]; subst; [done|].
    apply key_length in Hk. by destruct kb; [cbn in Hk; lia|]. }
  inversion Hm as [|? kb f w body it rest its Hk Hb Hr]; subst; [done|]. pose proof (key_length _ _ _ Hk) as Hne.
  rewrite !length_app in Hl. assert (0 ≤ w < 8)%Z as Hw by (inversion Hb; lia). rewrite (walk_cons _ _ _ _ _ _ Hw Hk).
  destruct (Z.eqb_spec w 2) as [->|H2].
  - inversion Hb as [| |? ? lb payload Hv| |]; subst. cbn [messages omap list_omap]. destruct (Z.eqb_spec f nested) as [->|Hf]; cbn [andb].
    + cbn [try_fold]. destruct (count a) as [a1|]; [|done]. cbn [mbind result_bind]. rewrite <- app_assoc.
      rewrite (proj2 (take_length_delimited_spec _ payload rest)) by eauto. cbn [mbind result_bind].
      destruct (inside a1 payload) as [a2|]; [|done]. cbn [mbind result_bind]. apply IH; [done|lia].
    + rewrite (proj2 (skip_field_spec 100 f 2%Z _ rest)) by eauto. apply (IH rest its); [done|lia].
  - rewrite andb_false_r. rewrite (proj2 (skip_field_spec 100 f w (body ++ rest) rest) (ex_intro _ body (ex_intro _ it (conj eq_refl Hb)))). cbn [mbind result_bind].
    assert (it = Opaque) as -> by (inversion Hb; subst; congruence). apply (IH rest its); [done|lia].
Qed.

Lemma walk_Ok fuel input a a' : walk nested count inside fuel input a = Ok a' → length input ≤ fuel → ∃ items, wire_message 100 input items.
Proof.
  revert input a. induction fuel as [|fuel IH]; intros [|x input] a H Hl; cbn [length] in Hl; try (by exists []; constructor); [lia|].
  destruct (take_key (x :: input)) as [[[f w] r]|] eqn:E; [|cbn [walk] in H; by rewrite E in H].
  apply take_key_spec in E as (Hw & kb & E & Hk). rewrite E in *. rewrite (walk_cons _ _ _ _ _ _ Hw Hk) in H.
  pose proof (key_length _ _ _ Hk) as Hne. apply (f_equal length) in E. rewrite length_app in E. cbn [length] in E.
  destruct ((f =? nested)%Z && (w =? 2)%Z) eqn:Ef.
  - apply andb_true_iff in Ef as [_ ->%Z.eqb_eq]. destruct (count a) as [a1|]; [|done]. cbn [mbind result_bind] in H.
    destruct (take_length_delimited r) as [[m rest]|] eqn:Et; [|done]. cbn [mbind result_bind] in H.
    apply take_length_delimited_spec in Et as (lb & -> & Hv). destruct (inside a1 m) as [a2|]; [|done]. cbn [mbind result_bind] in H.
    rewrite !length_app in E. destruct (IH _ _ H ltac:(lia)) as [items Hm]. exists ((f, Message m) :: items).
    rewrite (app_assoc lb). econstructor; [done|by constructor|done].
  - destruct (skip_field 100 f w r) as [rest|] eqn:Es; [|done]. cbn [mbind result_bind] in H.
    apply skip_field_spec in Es as (body & it & -> & Hb). rewrite !length_app in E.
    destruct (IH _ _ H ltac:(lia)) as [items Hm]. exists ((f, it) :: items). by econstructor.
Qed.
End walks.

Lemma try_fold_collect (l a : list str) : try_fold (λ (a : list str) m, a ← Ok a; Ok (a ++ [m])) a l = (Ok (a ++ l) : parsed _).
Proof. revert a. induction l as [|m l IH]; intros a; cbn [try_fold]; [by rewrite app_nil_r|]. cbn [mbind result_bind]. by rewrite IH, <- app_assoc. Qed.

(** A message's fields are determined by its bytes. *)
Lemma messages_unique field input items items' :
  wire_message 100 input items → wire_message 100 input items' → messages field items = messages field items'.
Proof.
  intros H H'. pose proof (walk_wf field Ok (λ a m, Ok (a ++ [m])) _ _ _ [] H (le_n _)) as E.
  pose proof (walk_wf field Ok (λ a m, Ok (a ++ [m])) _ _ _ [] H' (le_n _)) as E'. rewrite try_fold_collect in E, E'. cbn [app] in E, E'. congruence.
Qed.

Abbreviation LIMIT := DEFAULT_EXPORT_BATCH_SIZE.
(** A count within its limit, or the limit's error. *)
Definition counted {A} (good : Prop) (r : parsed A) (a : A) : Prop := (good ∧ r = Ok a) ∨ (¬ good ∧ ∃ level, r = Err (EnvelopeLimit level)).

Lemma check_limit n level : n ≤ LIMIT →
  (n < LIMIT ∧ check_otlp_limit (S n) level = Ok ()) ∨ (n = LIMIT ∧ check_otlp_limit (S n) level = Err (EnvelopeLimit level)).
Proof. intros. unfold check_otlp_limit. case_bool_decide; [right|left]; split; done || lia. Qed.

Lemma try_fold_each {A B} (f : A → B → parsed A) a l a' : try_fold f a l = Ok a' → Forall (λ b, ∃ a1 a2, f a1 b = Ok a2) l.
Proof.
  revert a. induction l as [|b l IH]; intros a H; [done|]. cbn [try_fold] in H. destruct (f a b) as [a1|] eqn:E; [|done].
  constructor; [by eexists _, _|by eapply IH].
Qed.

Lemma scope_counted scope items n : wire_message 100 scope items → n ≤ LIMIT →
  counted (n + length (messages 2 items) ≤ LIMIT) (validate_scope scope n) (n + length (messages 2 items)).
Proof.
  intros Hm. unfold validate_scope. rewrite (walk_wf _ _ _ _ _ _ _ Hm) by lia. revert n. clear Hm.
  induction (messages 2 items) as [|m l IH]; intros n Hn; cbn [try_fold length].
  { left. rewrite Nat.add_0_r. by split. }
  destruct (check_limit n (bs "record") Hn) as [[Hlt E]|[-> E]]; rewrite E; cbn [mbind result_bind].
  - replace (n + S (length l)) with (S n + length l) by lia. apply IH. lia.
  - right. split; [lia|by eexists].
Qed.
Lemma scope_Ok scope n n' : validate_scope scope n = Ok n' → ∃ items, wire_message 100 scope items.
Proof. intros H. by eapply walk_Ok. Qed.

Lemma resource_counted resource items sitems scopes records :
  wire_message 100 resource items → Forall2 (wire_message 100) (messages 2 items) sitems → scopes ≤ LIMIT → records ≤ LIMIT →
  counted (scopes + length (messages 2 items) ≤ LIMIT ∧ records + length (sitems ≫= messages 2) ≤ LIMIT)
    (validate_resource resource (scopes, records)) (scopes + length (messages 2 items), records + length (sitems ≫= messages 2)).
Proof.
  intros Hm Hs. unfold validate_resource. rewrite (walk_wf _ _ _ _ _ _ _ Hm) by lia. clear Hm. revert scopes records.
  induction Hs as [|scope sit l sits Hscope _ IH]; intros scopes records H1 H2; cbn [try_fold length mbind list_bind].
  { left. rewrite !Nat.add_0_r. by split. }
  rewrite length_app. destruct (check_limit scopes (bs "scope") H1) as [[Hlt E]|[-> E]]; rewrite E; cbn [mbind result_bind].
  - destruct (scope_counted scope sit records Hscope H2) as [[Hg E2]|[Hg (level & E2)]]; rewrite E2; cbn [mbind result_bind].
    + replace (scopes + S (length l)) with (S scopes + length l) by lia. rewrite Nat.add_assoc. apply IH; lia.
    + right. split; [lia|by eexists].
  - right. split; [lia|by eexists].
Qed.
Lemma resource_Ok resource counts counts' : validate_resource resource counts = Ok counts' →
  ∃ items sitems, wire_message 100 resource items ∧ Forall2 (wire_message 100) (messages 2 items) sitems.
Proof.
  intros H. pose proof H as H0. unfold validate_resource in H. destruct (walk_Ok _ _ _ _ _ _ _ H (le_n _)) as [items Hm].
  rewrite (walk_wf _ _ _ _ _ _ _ Hm) in H by lia. apply try_fold_each in H. exists items.
  induction H as [|m l (a1 & a2 & E) _ [sits IH]]; [by exists []|].
  destruct a1 as [sc rec]. destruct (check_otlp_limit _ _); [|done]. cbn [mbind result_bind] in E.
  destruct (validate_scope m rec) as [rec'|] eqn:Es; [|done]. destruct (scope_Ok _ _ _ Es) as [sit Hsit]. exists (sit :: sits).
  destruct IH as [_ IH]. split; [done|by constructor].
Qed.

Lemma export_counted resources ritems sitems n scopes records :
  Forall2 (wire_message 100) resources ritems → Forall2 (wire_message 100) (ritems ≫= messages 2) sitems →
  n ≤ LIMIT → scopes ≤ LIMIT → records ≤ LIMIT →
  counted (n + length resources ≤ LIMIT ∧ scopes + length (ritems ≫= messages 2) ≤ LIMIT ∧ records + length (sitems ≫= messages 2) ≤ LIMIT)
    (try_fold (λ a resource, a ← (λ '(resources, counts), _ ← check_otlp_limit (S resources) (bs "resource"); Ok (S resources, counts)) a;
       (λ '(resources, counts) resource, counts ← validate_resource resource counts; Ok (resources, counts)) a resource)
       (n, (scopes, records)) resources)
    (n + length resources, (scopes + length (ritems ≫= messages 2), records + length (sitems ≫= messages 2))).
Proof.
  intros Hr. revert sitems n scopes records.
  induction Hr as [|resource items rs its Hm _ IH]; intros sitems n scopes records Hs H1 H2 H3; cbn [try_fold length mbind list_bind] in *.
  { inversion Hs; subst. left. cbn. rewrite !Nat.add_0_r. by split. }
  apply Forall2_app_inv_l in Hs as (s1 & s2 & Hs1 & Hs2 & ->). rewrite bind_app, !length_app.
  destruct (check_limit n (bs "resource") H1) as [[Hlt E]|[-> E]]; rewrite E; cbn [mbind result_bind].
  - destruct (resource_counted resource items s1 scopes records Hm Hs1 H2 H3) as [[Hg E2]|[Hg (level & E2)]]; rewrite E2; cbn [mbind result_bind].
    + replace (n + S (length rs)) with (S n + length rs) by lia. rewrite !Nat.add_assoc.
      destruct (IH s2 (S n) _ _ Hs2 ltac:(lia) (proj1 Hg) (proj2 Hg)) as [[Hg2 E3]|[Hg2 Hl]]; [left; split; [lia|exact E3]|right; split; [lia|exact Hl]].
    + right. split; [lia|by eexists].
  - right. split; [lia|by eexists].
Qed.

Lemma validate_envelope export resources scopes records : envelope export resources scopes records →
  counted (length resources ≤ LIMIT ∧ length scopes ≤ LIMIT ∧ length records ≤ LIMIT) (validate_otlp_cardinality export) ().
Proof.
  intros (items & ritems & sitems & Hm & -> & Hr & -> & Hs & ->). unfold validate_otlp_cardinality. rewrite (walk_wf _ _ _ _ _ _ _ Hm) by lia.
  destruct (export_counted _ _ _ 0 0 0 Hr Hs ltac:(lia) ltac:(lia) ltac:(lia)) as [[Hg E]|[Hg [level E]]]; rewrite E; cbn [mbind result_bind].
  - by left.
  - right. split; [done|by eexists].
Qed.

Lemma validate_Ok_envelope export : validate_otlp_cardinality export = Ok () → ∃ resources scopes records, envelope export resources scopes records.
Proof.
  intros H. unfold validate_otlp_cardinality in H. destruct (walk _ _ _ _ _ _) as [a|] eqn:E in H; [clear H|done].
  destruct (walk_Ok _ _ _ _ _ _ _ E (le_n _)) as [items Hm]. rewrite (walk_wf _ _ _ _ _ _ _ Hm) in E by lia. apply try_fold_each in E.
  assert (∃ ritems sitems, Forall2 (wire_message 100) (messages 1 items) ritems ∧ Forall2 (wire_message 100) (ritems ≫= messages 2) sitems)
    as (ritems & sitems & Hr & Hs); [|by eexists _, _, _, items, ritems, sitems].
  clear Hm. induction E as [|m l ([n [sc rec]] & a2 & E) _ (ritems & sitems & Hr & Hs)]; [by exists [], []|].
  destruct (check_otlp_limit _ _); [|done]. cbn [mbind result_bind] in E.
  destruct (validate_resource m (sc, rec)) as [c|] eqn:Er; [|done]. destruct (resource_Ok _ _ _ Er) as (it & si & Hm & Hsi).
  exists (it :: ritems), (si ++ sitems). split; [by constructor|]. cbn. by apply Forall2_app.
Qed.

Lemma wire_messages_unique inputs i1 i2 :
  Forall2 (wire_message 100) inputs i1 → Forall2 (wire_message 100) inputs i2 → (i1 ≫= messages 2) = (i2 ≫= messages 2).
Proof.
  intros H1. revert i2. induction H1 as [|input i inputs i1 Hi _ IH]; intros i2 H2; inversion H2; subst; [done|]. cbn. f_equal; [|by apply IH].
  by eapply messages_unique.
Qed.
Lemma envelope_unique export r1 s1 c1 r2 s2 c2 : envelope export r1 s1 c1 → envelope export r2 s2 c2 → r1 = r2 ∧ s1 = s2 ∧ c1 = c2.
Proof.
  intros (i & ri & si & Hm & -> & Hr & -> & Hs & ->) (i' & ri' & si' & Hm' & -> & Hr' & -> & Hs' & ->).
  assert (messages 1 i = messages 1 i') as E by (by eapply messages_unique). rewrite <- E in Hr'.
  assert ((ri ≫= messages 2) = (ri' ≫= messages 2)) as E2 by (by eapply wire_messages_unique). rewrite <- E2 in Hs'.
  split_and!; [done..|]. by eapply wire_messages_unique.
Qed.

(** *** Spans *)

Section span_lemmas.
Context {U : UlidLib}.

(** The value a span's attributes give a key: the last one that converts. *)
Definition span_value (l : list KeyValue) (k : AttributeKey) : option AttributeValue :=
  last (omap (λ a, if bool_decide (kv_key a = as_str k) then kv_value a ≫= convert_any_value else None) l).
(** The value its identifiers give a key. *)
Definition id_text (id : str) : option AttributeValue := if bool_decide (id = []) then None else Some (AString (hex id)).
Definition id_value (span : OtlpSpan) (k : AttributeKey) : option AttributeValue :=
  if bool_decide (k = key "otel.trace_id") then id_text (span_trace_id span)
  else if bool_decide (k = key "otel.span_id") then id_text (span_span_id span)
  else if bool_decide (k = key "otel.parent_span_id") then id_text (span_parent_span_id span)
  else None.

Record span_event (context : NormalizationContext) (span : OtlpSpan) (e : Event) : Prop := {
  se_ts : ts e = mkHlc (span_start_time_unix_nano span) 0;
  se_run : run_id e = ctx_run_id (run_context context) ∧ lineage_path e = ctx_lineage_path (run_context context);
  se_signal : signal e = if span_is_llm span then Llm else Span;
  se_name : as_str (event_name e) = span_name span;
  se_attributes k : is_blank (as_str k) = false →
    attributes e !! k = match span_value (span_attributes span) k with Some v => Some v | None => id_value span k end;
}.

Lemma span_attributes_fold l e k : is_blank (as_str k) = false →
  attributes (fold_left with_span_attribute l e) !! k =
    match span_value l k with Some v => Some v | None => attributes e !! k end.
Proof.
  intros Hk. induction l as [|a l IH] using rev_ind; [done|].
  rewrite fold_left_app. cbn [fold_left]. unfold span_value. rewrite omap_app. cbn [omap list_omap].
  unfold with_span_attribute at 1, text_new. case_bool_decide as Hka.
  - rewrite Hka, Hk. destruct (kv_value a ≫= convert_any_value) as [v|] eqn:Ev.
    + rewrite last_snoc. cbn. assert (@mkText AttributeKeyK (as_str k) = k) as -> by (by destruct k). by rewrite lookup_insert_eq.
    + rewrite app_nil_r. exact IH.
  - rewrite app_nil_r. destruct (is_blank (kv_key a)); [exact IH|]. destruct (kv_value a ≫= convert_any_value) as [v|]; [|exact IH].
    cbn. rewrite lookup_insert_ne; [exact IH|]. intros <-. by apply Hka.
Qed.

Lemma spine_fold l e : spine (fold_left with_span_attribute l e) = spine e.
Proof.
  revert e. induction l as [|a l IH]; intros e; cbn [fold_left]; [done|]. rewrite IH. unfold with_span_attribute.
  destruct (text_new _ _); [|done]. destruct (_ ≫= _); done.
Qed.
Lemma spine_with_id e s id : spine (with_id e s id) = spine e.
Proof. unfold with_id. by case_bool_decide. Qed.
Lemma attributes_with_id e s id k :
  attributes (with_id e s id) !! k = if bool_decide (k = key s) then match id_text id with Some v => Some v | None => attributes e !! k end
                                     else attributes e !! k.
Proof.
  unfold with_id, id_text. do 2 case_bool_decide; subst; cbn; rewrite ?lookup_insert_eq; try done. by rewrite lookup_insert_ne by congruence.
Qed.

Lemma span_name_visible span : is_blank (span_name span) = false.
Proof. unfold span_name. destruct (is_blank (sp_name span)) eqn:E; [by vm_compute|done]. Qed.

Lemma span_to_event_total {N} (mint : N → N * EventId) n context span :
  ∃ n' e, span_to_event mint n context span = (n', Ok e) ∧ span_event context span e.
Proof.
  unfold span_to_event, text_new. rewrite span_name_visible. destruct (mint n) as [n' minted]. eexists _, _. split; [done|].
  set (e0 := Event_new _ _ _ _ _).
  set (e := with_id (with_id (with_id e0 "otel.trace_id" _) "otel.span_id" _) "otel.parent_span_id" _).
  assert (spine (fold_left with_span_attribute (span_attributes span) e) = spine e0) as Hs.
  { rewrite spine_fold. unfold e. by rewrite !spine_with_id. }
  unfold spine in Hs. injection Hs as H1 H2 H3 H4 H5 H6. split; [done|done|done|by rewrite H6|].
  intros k Hk. rewrite span_attributes_fold by done. destruct (span_value _ k); [done|]. unfold e. rewrite !attributes_with_id. clear H1 H2 H3 H4 H5 H6 e. unfold id_value.
  assert (key "otel.trace_id" ≠ key "otel.span_id") by (by apply lit_ne).
  assert (key "otel.trace_id" ≠ key "otel.parent_span_id") by (by apply lit_ne).
  assert (key "otel.span_id" ≠ key "otel.parent_span_id") by (by apply lit_ne).
  repeat case_bool_decide; subst; try done; unfold id_text; case_bool_decide; done.
Qed.

Lemma spans_to_events_total {N} (mint : N → N * EventId) n context spans events0 :
  ∃ n' events, spans_to_events mint n context events0 spans = (n', Ok (events0 ++ events)) ∧ Forall2 (span_event context) spans events.
Proof.
  revert n events0. induction spans as [|span spans IH]; intros n events0; cbn [spans_to_events].
  { exists n, []. by rewrite app_nil_r. }
  destruct (span_to_event_total mint n context span) as (n1 & e & -> & He).
  destruct (IH n1 (events0 ++ [e])) as (n2 & events & -> & Hf). exists n2, (e :: events). rewrite <- app_assoc. split; [done|by constructor].
Qed.

Lemma hex_inj a b : hex a = hex b → a = b.
Proof.
  revert b. induction a as [|x a IH]; intros [|y b] E; try done. unfold hex in E. cbn [mbind list_bind] in E.
  apply app_inj_1 in E as [E1 E2]; [|done]. f_equal; [|by apply IH]. apply (inj bz).
  eapply (hex_padded_inj 2); [..|exact E1]; change (16 ^ Z.of_nat 2)%Z with 256%Z; apply bz_range.
Qed.
End span_lemmas.

(** *** The receiver *)

Definition holds_permit (e : exchange) : nat := match e with Receiving _ | Offering _ => 1 | _ => 0 end.
Definition held_bytes (e : exchange) : nat :=
  match e with Receiving bytes => length bytes | Offering raw => length (raw_body raw) | _ => 0 end.
Definition answered_ok (e : exchange) : nat := match e with Responded StatusOk => 1 | _ => 0 end.

(** The memory the receiver is answerable for: bodies being read, offered, and
    delivered but not yet dropped. *)
Definition retained_bytes (s : receiver) : nat :=
  sum_list (held_bytes <$> rx_exchanges s) + sum_list (length ∘ raw_body <$> rx_alive s).

(** A signal the receiver may send. *)
Record otlp_signal (raw : RawSignal) : Prop := {
  os_supported : otlp_supports raw = Exact;
  os_size : length (raw_body raw) ≤ MAX_OTLP_BODY_BYTES;
  os_valid : validate_otlp_cardinality (raw_body raw) = Ok ();
}.
Definition exchange_ok (e : exchange) : Prop :=
  match e with Receiving bytes => length bytes ≤ MAX_OTLP_BODY_BYTES | Offering raw => otlp_signal raw | _ => True end.

Record receiver_inv (s : receiver) : Prop := {
  ri_permits : rx_slots s + sum_list (holds_permit <$> rx_exchanges s) + length (rx_alive s) = MAX_IN_FLIGHT_OTLP_BODIES;
  ri_exchanges : Forall exchange_ok (rx_exchanges s);
  ri_alive : Forall otlp_signal (rx_alive s);
  ri_delivered : Forall otlp_signal (rx_delivered s);
  ri_answers : sum_list (answered_ok <$> rx_exchanges s) = length (rx_delivered s);
}.

Lemma receive_frame_ok bytes f now : length bytes ≤ MAX_OTLP_BODY_BYTES →
  exchange_ok (receive_frame bytes f now) ∧ holds_permit (receive_frame bytes f now) + returns_permit (receive_frame bytes f now) = 1 ∧
  answered_ok (receive_frame bytes f now) = 0.
Proof.
  intros Hb. destruct f as [data| | | |]; cbn [receive_frame]; try done.
  - case_bool_decide; [done|]. cbn. rewrite length_app. split_and!; [lia|done..].
  - destruct (validate_otlp_cardinality bytes) as [[]|[]] eqn:E; [|done..]. by split; [split|].
Qed.

Lemma receiver_inv_step s s' : receiver_inv s → receiver_step s s' → receiver_inv s'.
Proof.
  intros [Hp He Ha Hd Hn] [l Hl]. destruct l as [method path|i f now|i answer|i|j]; cbn [receiver_step_fn] in Hl.
  - destruct (_ || _); [|destruct (rx_slots s) as [|slots] eqn:Es]; injection Hl as <-;
      (split; cbn -[MAX_IN_FLIGHT_OTLP_BODIES MAX_OTLP_BODY_BYTES]; rewrite ?fmap_app, ?sum_list_app;
        cbn -[MAX_IN_FLIGHT_OTLP_BODIES MAX_OTLP_BODY_BYTES]; [lia| |done|done|lia]);
      (apply Forall_app; split; [done|]; constructor; [|done]); cbn; done || lia.
  - destruct (rx_exchanges s !! i) as [[bytes| | |]|] eqn:Ei; try done. injection Hl as <-.
    pose proof (Forall_lookup_1 _ _ _ _ He Ei) as Hb. destruct (receive_frame_ok bytes f now Hb) as (Hok & Hr & Hz).
    set (e := receive_frame bytes f now) in *. pose proof (sum_list_insert holds_permit _ _ _ e Ei) as H1.
    pose proof (sum_list_insert answered_ok _ _ _ e Ei) as H2. cbn in H1, H2.
    split; cbn; [lia|by apply Forall_insert|done|done|lia].
  - destruct (rx_exchanges s !! i) as [[|raw| |]|] eqn:Ei; try done. pose proof (Forall_lookup_1 _ _ _ _ He Ei) as Hb. cbn in Hb.
    pose proof (sum_list_insert holds_permit _ _ _ (Responded StatusOk) Ei) as H1. pose proof (sum_list_insert answered_ok _ _ _ (Responded StatusOk) Ei) as H2.
    pose proof (sum_list_insert holds_permit _ _ _ (Responded ServiceUnavailable) Ei) as H3.
    pose proof (sum_list_insert answered_ok _ _ _ (Responded ServiceUnavailable) Ei) as H4. cbn in H1, H2, H3, H4.
    destruct answer; injection Hl as <-; split; cbn; rewrite ?length_app, ?Forall_app; cbn; try lia; try done; try by apply Forall_insert.
    all: by split; [|constructor].
  - destruct (rx_exchanges s !! i) as [[bytes|raw| |]|] eqn:Ei; try done; injection Hl as <-;
      pose proof (sum_list_insert holds_permit _ _ _ Disconnected Ei) as H1; pose proof (sum_list_insert answered_ok _ _ _ Disconnected Ei) as H2;
      cbn in H1, H2; (split; cbn; [lia|by apply Forall_insert|done|done|lia]).
  - destruct (rx_alive s !! j) as [raw|] eqn:Ej; [|done]. injection Hl as <-. pose proof (lookup_lt_Some _ _ _ Ej).
    split; cbn; [rewrite length_delete by eauto; lia|done|by apply Forall_delete|done|done].
Qed.

Lemma receiver_reachable s : rtc receiver_step receiver_bind s → receiver_inv s.
Proof.
  intros H. refine (rtc_ind_r receiver_inv receiver_bind _ _ s H); [|intros ? ? _ ? ?; by eapply receiver_inv_step]. by split.
Qed.

Lemma sum_le_bound {A} (f g : A → nat) (bound : nat) l : Forall (λ x, f x ≤ bound * g x) l → sum_list (f <$> l) ≤ bound * sum_list (g <$> l).
Proof. induction 1 as [|x l Hx _ IH]; cbn; lia. Qed.

Lemma retained_bound s : receiver_inv s → retained_bytes s ≤ MAX_OTLP_BODY_BYTES * MAX_IN_FLIGHT_OTLP_BODIES.
Proof.
  intros [Hp He Ha _ _]. unfold retained_bytes.
  assert (sum_list (held_bytes <$> rx_exchanges s) ≤ MAX_OTLP_BODY_BYTES * sum_list (holds_permit <$> rx_exchanges s)).
  { apply sum_le_bound. eapply Forall_impl; [exact He|]. intros [bytes|raw| |] Hx; cbn [held_bytes holds_permit exchange_ok] in *; try lia.
    pose proof (os_size _ Hx). lia. }
  assert (sum_list (length ∘ raw_body <$> rx_alive s) ≤ MAX_OTLP_BODY_BYTES * sum_list ((λ _, 1) <$> rx_alive s)).
  { apply sum_le_bound. eapply Forall_impl; [exact Ha|]. intros raw Hx. pose proof (os_size _ Hx). cbn. lia. }
  assert (sum_list ((λ _ : RawSignal, 1) <$> rx_alive s) = length (rx_alive s)) as E by (clear; induction (rx_alive s); cbn; lia).
  rewrite E in *. nia.
Qed.

(** Reading the messages of a field. *)
Definition read_messages (field : Z) (input : str) : parsed (list str) :=
  walk field Ok (λ a m, Ok (a ++ [m])) (length input) input [].
Lemma read_messages_Ok field input l : read_messages field input = Ok l → ∃ items, wire_message 100 input items ∧ messages field items = l.
Proof.
  intros H. unfold read_messages in H. destruct (walk_Ok _ _ _ _ _ _ _ H (le_n _)) as [items Hm]. exists items. split; [done|].
  rewrite (walk_wf _ _ _ _ _ _ _ Hm) in H by lia.
  rewrite try_fold_collect in H. cbn [app] in H. congruence.
Qed.

Lemma body_cap : Z.of_nat MAX_OTLP_BODY_BYTES = (1024 * 1024)%Z.
Proof. unfold MAX_OTLP_BODY_BYTES. by rewrite Z2Nat.id. Qed.

(** ** Properties *)

(** C20: the envelope guard is exact.  It accepts an export exactly when its
    bytes are a well-formed protobuf message whose resources, their scopes and
    the scopes' records can all be read and number at most 128 each; a
    well-formed export with more is refused as over a limit, never as
    malformed; and the bytes determine the resources, scopes and records, so
    the guard counts what a decoder would allocate. *)
Theorem otlp_envelope_exact (export : str) :
  (validate_otlp_cardinality export = Ok () ↔
    ∃ resources scopes records, envelope export resources scopes records ∧
      length resources ≤ DEFAULT_EXPORT_BATCH_SIZE ∧ length scopes ≤ DEFAULT_EXPORT_BATCH_SIZE ∧ length records ≤ DEFAULT_EXPORT_BATCH_SIZE) ∧
  (∀ resources scopes records, envelope export resources scopes records →
    ¬ (length resources ≤ DEFAULT_EXPORT_BATCH_SIZE ∧ length scopes ≤ DEFAULT_EXPORT_BATCH_SIZE ∧ length records ≤ DEFAULT_EXPORT_BATCH_SIZE) →
    ∃ level, validate_otlp_cardinality export = Err (EnvelopeLimit level)) ∧
  (∀ r1 s1 c1 r2 s2 c2, envelope export r1 s1 c1 → envelope export r2 s2 c2 → r1 = r2 ∧ s1 = s2 ∧ c1 = c2).
Proof.
  split_and!.
  - split.
    + intros H. destruct (validate_Ok_envelope _ H) as (rs & ss & cs & He). exists rs, ss, cs. split; [done|].
      destruct (validate_envelope _ _ _ _ He) as [[Hg _]|[_ [level E]]]; [done|congruence].
    + intros (rs & ss & cs & He & Hg). destruct (validate_envelope _ _ _ _ He) as [[_ E]|[Hn _]]; done.
  - intros rs ss cs He Hn. destruct (validate_envelope _ _ _ _ He) as [[Hg _]|[_ Hl]]; done.
  - apply envelope_unique.
Qed.

(** C21: the receiver's memory is bounded.  Whatever requests arrive, however
    their frames, disconnections and deliveries interleave and however long the
    pipeline keeps a signal, the permits account for every body being read,
    offered or still referenced downstream, so that at most 4 MiB of bodies are
    retained; every delivered signal is one the normalizer supports, of at most
    1 MiB and within the envelope's limits; and the requests answered 200 are
    as many as the signals delivered. *)
Theorem otlp_receiver_bounded (s : receiver) :
  rtc receiver_step receiver_bind s →
  rx_slots s + sum_list (holds_permit <$> rx_exchanges s) + length (rx_alive s) = 4 ∧
  (Z.of_nat (retained_bytes s) ≤ 4 * (1024 * 1024))%Z ∧
  Forall otlp_signal (rx_delivered s) ∧
  sum_list (answered_ok <$> rx_exchanges s) = length (rx_delivered s).
Proof.
  intros H%receiver_reachable. split_and!; [apply H| |apply H|apply H].
  pose proof (inj_le _ _ (retained_bound s H)) as Hb. rewrite Nat2Z.inj_mul, body_cap in Hb.
  change (Z.of_nat MAX_IN_FLIGHT_OTLP_BODIES) with 4%Z in Hb. rewrite Z.mul_comm. exact Hb.
Qed.

(** What prost documents of repeated message fields: each occurrence is one
    element. *)
Class ProstLaws `{ProstDecode} := prost_records : ∀ body request resources scopes records,
  prost_decode body = Ok request → envelope body resources scopes records → length (request_spans request) = length records.

(** A trace export becomes one event per span, in order, and never more
    than 128.  The normalizer fails only where the guard or the decoder does.
    A span's event carries its start time, the run's identity, its name (or a
    fixed one when blank) and the LLM signal exactly when an attribute's key
    says so; each key has the last value of the span that converts, or else the
    text of its identifier, from which the identifier can be read back. *)
Theorem otlp_events_exact {U : UlidLib} `{PL : ProstLaws} {N : Type} (mint : N → N * EventId) (n : N) (context : NormalizationContext)
    (raw : RawSignal) :
  (∀ request, validate_otlp_cardinality (raw_body raw) = Ok () → prost_decode (raw_body raw) = Ok request →
    ∃ n' events, otlp_normalize mint n context raw = (n', Ok (from_events events)) ∧
      Forall2 (span_event context) (request_spans request) events ∧ length events ≤ 128) ∧
  (∀ n' e, otlp_normalize mint n context raw = (n', Err e) →
    n' = n ∧ ((∃ x, validate_otlp_cardinality (raw_body raw) = Err x) ∨ (∃ x, prost_decode (raw_body raw) = Err x))) ∧
  (∀ a b, hex a = hex b → a = b).
Proof.
  unfold otlp_normalize. split_and!; [| |apply hex_inj].
  - intros request Hv Hd. rewrite Hv, Hd. destruct (spans_to_events_total mint n context (request_spans request) []) as (n' & events & -> & Hf).
    exists n', events. split; [done|]. split; [done|]. destruct (validate_Ok_envelope _ Hv) as (rs & ss & cs & He).
    destruct (validate_envelope _ _ _ _ He) as [[(_ & _ & Hc) _]|[_ [level E]]]; [|congruence].
    rewrite <- (Forall2_length _ _ _ Hf), (prost_records _ _ _ _ _ Hd He). done.
  - intros n' e. destruct (validate_otlp_cardinality (raw_body raw)) as [[]|x]; [|by intros [= <- _]; eauto].
    destruct (prost_decode (raw_body raw)) as [request|x]; [|by intros [= <- _]; eauto].
    by destruct (spans_to_events_total mint n context (request_spans request) []) as (n1 & events & -> & Hf).
Qed.

(** *** Witnesses *)

Section witnesses.
#[local] Existing Instance crockford_ulid.

(** One resource with one scope with one empty span. *)
Definition sample_export : str := [x0a; x04; x12; x02; x12; x00].
Definition sample_span : OtlpSpan :=
  mkSpan [xab; x01] [] [] [] 7 [mkKeyValue (bs "llm.model") (Some (Some (StringValue (bs "m")))); mkKeyValue (bs "llm.model") (Some (Some OtherValue))].
#[local] Instance sample_decode : ProstDecode := λ body,
  if bool_decide (body = sample_export) then Ok (mkExportRequest [mkResourceSpans [mkScopeSpans [sample_span]]]) else Err (bs "not the sample").

Lemma sample_envelope : envelope sample_export [[x12; x02; x12; x00]] [[x12; x00]] [[]].
Proof.
  destruct (read_messages_Ok 1 sample_export [[x12; x02; x12; x00]] eq_refl) as (i & Hi & Ei).
  destruct (read_messages_Ok 2 [x12; x02; x12; x00] [[x12; x00]] eq_refl) as (ri & Hri & Eri).
  destruct (read_messages_Ok 2 [x12; x00] [[]] eq_refl) as (si & Hsi & Esi).
  exists i, [ri], [si]. split; [done|]. split; [done|]. split; [by repeat constructor|]. cbn. rewrite app_nil_r, Eri. split; [done|].
  split; [by repeat constructor|]. by rewrite app_nil_r, Esi.
Qed.
#[local] Instance sample_laws : ProstLaws.
Proof.
  intros body request rs ss cs Hd He. unfold prost_decode, sample_decode in Hd. case_bool_decide; [subst|done]. injection Hd as <-.
  by destruct (envelope_unique _ _ _ _ _ _ _ He sample_envelope) as (_ & _ & ->).
Qed.

Fixpoint receiver_exec (s : receiver) (ls : list receiver_label) : receiver :=
  match ls with [] => s | l :: ls => receiver_exec (default s (receiver_step_fn l s)) ls end.
Lemma receiver_exec_run s ls : rtc receiver_step s (receiver_exec s ls).
Proof.
  revert s. induction ls as [|l ls IH]; intros s; cbn [receiver_exec]; [done|].
  destruct (receiver_step_fn l s) as [s'|] eqn:E; cbn [default]; [|apply IH]. eapply rtc_l; [by exists l|apply IH].
Qed.

(** Five requests at once, of which one is refused, one delivered and one lost. *)
Definition five_requests : receiver :=
  receiver_exec receiver_bind
    (replicate 5 (Arrive (bs "POST") TRACES_PATH) ++
     [Frame 0 (FrameData (take 3 sample_export)) (mkHlc 1 0); Frame 1 (FrameData [xff]) (mkHlc 1 0);
      Frame 0 (FrameData (drop 3 sample_export)) (mkHlc 2 0); Frame 0 FrameEnd (mkHlc 3 0); Disconnect 2; SinkAnswer 0 Delivered]).

Lemma otlp_receiver_bounded_witness :
  (Z.of_nat (retained_bytes five_requests) ≤ 4 * (1024 * 1024))%Z ∧ length (rx_delivered five_requests) = 1 ∧ Forall otlp_signal (rx_delivered five_requests).
Proof.
  destruct (otlp_receiver_bounded five_requests (receiver_exec_run _ _)) as (_ & Hb & Hd & _).
  split; [exact Hb|]. split; [vm_compute; reflexivity|exact Hd].
Defined.

Definition otlp_mint (n : nat) : nat * EventId := (S n, mkEventId (run_ulid (sample_run [1]))).
Definition sample_otlp : RawSignal := RawSignal_new OTLP_SOURCE OTLP_TRACES_KIND (mkHlc 9 0) sample_export.
Lemma otlp_events_exact_witness : ∃ n' e,
  otlp_normalize otlp_mint 0 LineRun.context sample_otlp = (n', Ok (from_events [e])) ∧ signal e = Llm ∧
  as_str (event_name e) = bs "otel.span" ∧ attributes e !! key "llm.model" = Some (AString (bs "m")).
Proof.
  destruct (otlp_events_exact otlp_mint 0 LineRun.context sample_otlp) as [H _].
  destruct (H (mkExportRequest [mkResourceSpans [mkScopeSpans [sample_span]]])) as (n' & events & E & Hf & _);
    [vm_compute; reflexivity|vm_compute; reflexivity|].
  cbn in Hf. inversion Hf as [|span e spans es He Hnil]; subst. inversion Hnil; subst. exists n', e. split; [exact E|].
  destruct He as [_ _ Hs Hn Ha]. split; [exact Hs|]. split; [exact Hn|]. rewrite (Ha (key "llm.model") eq_refl). reflexivity.
Defined.
End witnesses.
