(* ===== verification/GrpcClient.v ===== *)
(** * The gateway's gRPC clients (crates/hiloop-interceptor/src/grpc_client.rs,
    grpc_export.rs)

    - A failed call's status folded into one line ([fold_status_message]).
    - The shared bearer credential ([credential_step]): rejected calls wait for
      the rotation gate, which the rotation's own task holds; the refresher's
      answers, panics and timeouts are labels.
    - One event batch as a request ([to_proto_event], [ingest_within]): the
      call, its classification, and the single retry after a rotation.  The
      calls themselves are an interface ([IngestWorld]).

    tonic's descriptions of codes and its rules for metadata are [Tonic]. *)
From Stdlib Require Import Strings.Byte.
From stdpp Require Import relations.
From S2P Require Import Prelude Text Identity Event Spool Pipeline.

(** ** Statuses *)

(** [tonic::Code] *)
Inductive Code :=
| CodeOk | Cancelled | CodeUnknown | InvalidArgument | DeadlineExceeded | CodeNotFound | AlreadyExists | PermissionDenied | ResourceExhausted
| FailedPrecondition | CodeAborted | OutOfRange | Unimplemented | CodeInternal | CodeUnavailable | DataLoss | Unauthenticated.
#[export] Instance code_eq_dec : EqDecision Code.
Proof. solve_decision. Defined.

(** A source of the status's error chain: its text, and whether it is tonic's
    transport error. *)
Record ErrorSource := mkSource { source_text : str; is_transport : bool }.
Record Status := mkStatus { status_code : Code; status_message : str; status_sources : list ErrorSource }.

Class Tonic := {
  code_description : Code → str;
  (** [str::parse] to [MetadataValue<Ascii>], and its [to_str] *)
  metadata_parse : str → option str;
  metadata_to_str : str → option str;
}.

(** [str::contains] *)
Definition contains (s part : str) : bool := bool_decide (is_Some (find_bytes part s)).

Section statuses.
Context {T : Tonic}.

Definition push_part (parts : list str) (part : str) : list str := let part := trim part in if bool_decide (part = []) then parts else parts ++ [part].
Definition status_parts (s : Status) : list str :=
  fold_left push_part (source_text <$> status_sources s)
    (push_part [] (if bool_decide (status_message s = []) then code_description (status_code s) else status_message s)).

(** Hop [i] says nothing that another does not. *)
Definition subsumed (parts : list str) (i : nat) (part : str) : bool :=
  existsb (λ '(j, other), negb (Nat.eqb j i) && contains other part && (bool_decide (length part < length other) || bool_decide (j < i)))
    (imap pair parts).
Definition kept_parts (parts : list str) : list str :=
  (filter (λ '(i, part), subsumed parts i part = false) (imap pair parts)).*2.
Definition fold_status_message (s : Status) : str := join (bs ": ") (kept_parts (status_parts s)).

Definition is_transport_failure (s : Status) : bool := existsb is_transport (status_sources s).
End statuses.

(** ** The credential *)

Inductive RefreshOutcome := Refreshed | Unrefreshable | RefreshFailed (reason : str) | RefreshPending.

Section credential.
Context {T : Tonic}.

Definition bearer_value (token : str) : option str := metadata_parse (bs "Bearer " ++ token).
(** [TOKEN_ENV]: an empty variable is none. *)
Definition token_from_env (var : option str) : option str := match var with Some [] => None | v => v end.

(** A call of [refresh_rejected], from the bearer it presented. *)
Inductive refresh_call :=
| WaitingGate (presented : option str)
| WaitingRotation (presented : option str)
| Resolved (presented : option str) (outcome : RefreshOutcome).

(** The rotation in flight: the call that started it, the bearer it replaces
    and the token its refresher was given. *)
Record rotation := mkRotation { ro_caller : nat; ro_rejected : option str; ro_token : option str }.

(** [cr_history] are the rotations that ended: the bearer each replaced, and
    the bearer it installed or why it did not. *)
Record credential := mkCredential {
  cr_bearer : option str; cr_refresher : bool; cr_gate : option rotation; cr_refreshes : Z;
  cr_calls : list refresh_call; cr_history : list (option str * result str str) }.

Definition GatewayCredential_new (token : option str) (refresher : bool) : option credential :=
  match token with
  | None => Some (mkCredential None refresher None 0 [] [])
  | Some token => bearer ← bearer_value token; Some (mkCredential (Some bearer) refresher None 0 [] [])
  end.

Inductive rotation_answer := Rotated (token : str) | RefresherError (message : str) | TaskFailed (message : str).
Definition rotation_result (a : rotation_answer) : result str str :=
  match a with
  | Rotated token => match bearer_value token with
                     | Some bearer => Ok bearer
                     | None => Err (bs "the refreshed token is not a valid header: invalid API token")
                     end
  | RefresherError message => Err message
  | TaskFailed message => Err (bs "the credential refresh task failed: " ++ message)
  end.

Inductive credential_label :=
| RejectCall (presented : option str)
| Acquire (i : nat)
| GateTimeout (i : nat)
| RotationEnds (a : rotation_answer)
| RotationTimeout (i : nat).

Definition set_call (c : credential) (i : nat) (call : refresh_call) : credential :=
  mkCredential (cr_bearer c) (cr_refresher c) (cr_gate c) (cr_refreshes c) (<[i := call]> (cr_calls c)) (cr_history c).

Definition credential_step_fn (l : credential_label) (c : credential) : option credential :=
  match l with
  | RejectCall presented =>
      Some (mkCredential (cr_bearer c) (cr_refresher c) (cr_gate c) (cr_refreshes c)
              (cr_calls c ++ [if cr_refresher c then WaitingGate presented else Resolved presented Unrefreshable]) (cr_history c))
  | Acquire i =>
      match cr_calls c !! i, cr_gate c with
      | Some (WaitingGate presented), None =>
          if bool_decide (cr_bearer c = presented) then
            let token := bearer ← presented; header ← metadata_to_str bearer; strip_prefix (bs "Bearer ") header in
            Some (mkCredential (cr_bearer c) (cr_refresher c) (Some (mkRotation i presented token)) (cr_refreshes c)
                    (<[i := WaitingRotation presented]> (cr_calls c)) (cr_history c))
          else Some (set_call c i (Resolved presented Refreshed))
      | _, _ => None
      end
  | GateTimeout i =>
      match cr_calls c !! i with Some (WaitingGate presented) => Some (set_call c i (Resolved presented RefreshPending)) | _ => None end
  | RotationEnds a =>
      match cr_gate c with
      | Some r =>
          let result := rotation_result a in
          let '(bearer, refreshes, outcome) :=
            match result with
            | Ok bearer => (Some bearer, ((cr_refreshes c + 1) mod (u64_max + 1))%Z, Refreshed)
            | Err message => (cr_bearer c, cr_refreshes c, RefreshFailed message)
            end in
          let calls := match cr_calls c !! ro_caller r with
                       | Some (WaitingRotation presented) => <[ro_caller r := Resolved presented outcome]> (cr_calls c)
                       | _ => cr_calls c
                       end in
          Some (mkCredential bearer (cr_refresher c) None refreshes calls (cr_history c ++ [(ro_rejected r, result)]))
      | None => None
      end
  | RotationTimeout i =>
      match cr_calls c !! i with Some (WaitingRotation presented) => Some (set_call c i (Resolved presented RefreshPending)) | _ => None end
  end.
Definition credential_step (c c' : credential) : Prop := ∃ l, credential_step_fn l c = Some c'.

(** [AuthInterceptor::call]: the header of every request. *)
Definition authorization (c : credential) : option str := cr_bearer c.
End credential.

(** ** Events on the wire *)

Inductive ProtoValue := PString (s : str) | PInt (z : Z) | PDouble (f : f64) | PBool (b : bool).
Record ProtoPayload := mkProtoPayload { pp_digest : str; pp_media_type : option str; pp_size_bytes : option Z }.
Record ProtoEvent := mkProtoEvent {
  pe_ts : option (Z * Z); pe_run_id : str; pe_signal : str; pe_name : str; pe_attributes : gmap str ProtoValue;
  pe_payload_ref : option ProtoPayload; pe_event_id : str; pe_lineage_path : str }.
Record IngestRequest := mkIngestRequest { iq_events : list ProtoEvent; iq_project_id : str; iq_org_id : str }.

Definition signal_str (s : SignalType) : str :=
  bs match s with
     | Span => "span" | Log => "log" | Metric => "metric" | NetSignal => "net" | Exec => "exec" | Llm => "llm" | Annotation => "annotation"
     end.
Definition to_proto_attr (v : AttributeValue) : ProtoValue :=
  match v with AString s => PString s | AI64 z => PInt z | AF64 f => PDouble (as_f64 f) | ABool b => PBool b end.
Definition to_proto_payload (p : PayloadRef) : ProtoPayload :=
  mkProtoPayload (as_str (digest p)) (as_str <$> media_type p) (size_bytes p).

Section wire.
Context {U : UlidLib}.
Definition to_proto_event (e : Event) : ProtoEvent :=
  mkProtoEvent (Some (wall_ns (ts e), logical (ts e))) (RunId_fmt (run_id e)) (signal_str (signal e)) (as_str (event_name e))
    (kmap as_str (to_proto_attr <$> attributes e)) (to_proto_payload <$> payload_ref e) (EventId_fmt (event_id e))
    (LineagePath_fmt (lineage_path e)).
(** [encode_trusted_ingest_batch], before prost's encoding *)
Definition trusted_ingest_batch (events : list Event) : IngestRequest := mkIngestRequest (to_proto_event <$> events) [] [].
End wire.

(** ** The exporter *)

Inductive rpc_outcome := RpcTimeout | RpcFailed (s : Status) | RpcAccepted (accepted : Z).

(** The calls an exporter makes: [Ingest] under its deadline, with the
    credential's current bearer, and [refresh_rejected]. *)
Class IngestWorld (W : Type) := {
  current_bearer : W → option str;
  ingest_rpc : W → IngestRequest → W * rpc_outcome;
  refresh_rejected : W → option str → W * RefreshOutcome;
}.

Inductive IngestFailure := FailTimeout | FailRpc (s : Status) | FailMismatch (accepted expected : Z).

Definition GRPC : str := bs "grpc".
Section exporter.
Context {U : UlidLib} {T : Tonic} {W : Type} {IW : IngestWorld W} (tenant_id : option str) (project_id : str).

Definition ingest_rejection_message (s : Status) : str := bs "ingest rejected: " ++ fold_status_message s.
Definition ingest_error (s : Status) : ExportError :=
  let message := ingest_rejection_message s in
  match status_code s with
  | ResourceExhausted => Backpressure GRPC message
  | CodeUnavailable => Unavailable GRPC message
  | InvalidArgument | PermissionDenied | Unauthenticated => Rejected GRPC message
  | _ => if is_transport_failure s then Unavailable GRPC message else Other GRPC message
  end.
Definition into_export_error (f : IngestFailure) : ExportError :=
  match f with
  | FailTimeout => Unavailable GRPC (bs "ingest timed out after 10s")
  | FailRpc s => ingest_error s
  | FailMismatch accepted expected =>
      Other GRPC (bs "gateway accepted " ++ show_uint accepted ++ bs " of " ++ show_uint expected ++ bs " events")
  end.

Definition ingest_request (proto_events : list ProtoEvent) : IngestRequest := mkIngestRequest proto_events project_id (default [] tenant_id).
Definition ingest_once (w : W) (proto_events : list ProtoEvent) : W * result IngestFailure unit :=
  let expected := Z.min (Z.of_nat (length proto_events)) u64_max in
  match ingest_rpc w (ingest_request proto_events) with
  | (w, RpcTimeout) => (w, Err FailTimeout)
  | (w, RpcFailed s) => (w, Err (FailRpc s))
  | (w, RpcAccepted accepted) => (w, if (accepted =? expected)%Z then Ok () else Err (FailMismatch accepted expected))
  end.

Definition ingest_within (w : W) (events : list Event) : W * result ExportError unit :=
  if bool_decide (events = []) then (w, Ok ())
  else
    let proto_events := to_proto_event <$> events in
    let presented := current_bearer w in
    match ingest_once w proto_events with
    | (w, Ok _) => (w, Ok ())
    | (w, Err (FailRpc s as failure)) =>
        if bool_decide (status_code s = Unauthenticated) then
          match refresh_rejected w presented with
          | (w, Refreshed) => let '(w, r) := ingest_once w proto_events in (w, map_err into_export_error r)
          | (w, Unrefreshable) => (w, Err (into_export_error failure))
          | (w, RefreshFailed reason) =>
              (w, Err (Rejected GRPC (ingest_rejection_message s ++ bs "; refreshing the export credential failed: " ++ reason)))
          | (w, RefreshPending) =>
              (w, Err (Unavailable GRPC (ingest_rejection_message s
                         ++ bs "; a credential refresh is still in flight, so the batch parks for redelivery")))
          end
        else (w, Err (into_export_error failure))
    | (w, Err failure) => (w, Err (into_export_error failure))
    end.

(** The default [flush] does nothing. *)
#[export] Instance grpc_exporter : Exporter W := {| export := ingest_within; export_flush w := (w, Ok ()) |}.
End exporter.

(** ** Lemmas *)

Lemma find_bytes_complete needle a b : is_Some (find_bytes needle (a ++ needle ++ b)).
Proof.
  induction a as [|x a IH]; cbn [app].
  - destruct (needle ++ b) as [|y s] eqn:E; cbn [find_bytes]; unfold starts_with; rewrite bool_decide_true by (exists b; done); by eexists.
  - cbn [find_bytes]. destruct (starts_with _ _); [by eexists|]. destruct IH as [i ->]. by eexists.
Qed.
Lemma contains_spec s part : contains s part = true ↔ ∃ a b, s = a ++ part ++ b.
Proof.
  unfold contains. rewrite bool_decide_eq_true. split.
  - intros [i Hi]. apply find_bytes_Some in Hi as [[b Hb] _]. exists (take i s), b. by rewrite <- Hb, take_drop.
  - intros (a & b & ->). apply find_bytes_complete.
Qed.
Lemma contains_length s part : contains s part = true → length part ≤ length s.
Proof. intros (a & b & ->)%contains_spec. rewrite !length_app. lia. Qed.
Lemma contains_trans x y z : contains x y = true → contains y z = true → contains x z = true.
Proof.
  rewrite !contains_spec. intros (a & b & ->) (c & d & ->). exists (a ++ c), (d ++ b). by rewrite <- !app_assoc.
Qed.
Lemma contains_same_length x y : contains x y = true → length x ≤ length y → x = y.
Proof.
  intros (a & b & ->)%contains_spec. rewrite !length_app. intros. destruct a; [|cbn in *; lia]. destruct b; [|cbn in *; lia]. by rewrite app_nil_r.
Qed.

Lemma subsumed_spec parts i part : subsumed parts i part = true ↔
  ∃ j other, parts !! j = Some other ∧ j ≠ i ∧ contains other part = true ∧ (length part < length other ∨ j < i).
Proof.
  unfold subsumed. rewrite existsb_exists. split.
  - intros ([j other] & Hin & H). apply list_elem_of_In, elem_of_lookup_imap in Hin as (k & y & [= -> ->] & Hk).
    rewrite !andb_true_iff, orb_true_iff, !bool_decide_eq_true, negb_true_iff, Nat.eqb_neq in H. exists k, y. naive_solver.
  - intros (j & other & Hj & Hne & Hc & Hl). exists (j, other). split; [apply list_elem_of_In, elem_of_lookup_imap; by exists j, other|].
    rewrite !andb_true_iff, orb_true_iff, !bool_decide_eq_true, negb_true_iff, Nat.eqb_neq. naive_solver.
Qed.
Lemma elem_of_kept parts part : part ∈ kept_parts parts ↔ ∃ i, parts !! i = Some part ∧ subsumed parts i part = false.
Proof.
  unfold kept_parts. rewrite list_elem_of_fmap. split.
  - intros ([i p] & -> & [Hs Hin]%list_elem_of_filter). apply elem_of_lookup_imap in Hin as (k & y & [= -> ->] & Hk). by exists k.
  - intros (i & Hi & Hs). exists (i, part). split; [done|]. apply list_elem_of_filter. split; [done|]. apply elem_of_lookup_imap. by exists i, part.
Qed.

(** Every hop is kept within one that subsumes it. *)
Lemma part_kept parts i part : parts !! i = Some part → ∃ k, k ∈ kept_parts parts ∧ contains k part = true.
Proof.
  assert (∃ m, Forall (λ p, length p ≤ m) parts) as [m Hm].
  { clear. induction parts as [|p parts [m IH]]; [by exists 0|]. exists (Nat.max m (length p)). constructor; [lia|].
    eapply Forall_impl; [exact IH|]. cbn. lia. }
  remember ((m - length part) * length parts + i) as n eqn:En. revert i part En.
  induction n as [n IH] using lt_wf_ind. intros i part -> Hi. destruct (subsumed parts i part) eqn:Es.
  - apply subsumed_spec in Es as (j & other & Hj & Hne & Hc & Hl). pose proof (contains_length _ _ Hc) as Hle.
    pose proof (Forall_lookup_1 _ _ _ _ Hm Hj) as Ho. pose proof (lookup_lt_Some _ _ _ Hi). pose proof (lookup_lt_Some _ _ _ Hj). cbn in Ho.
    destruct (IH ((m - length other) * length parts + j)) with (i := j) (part := other) as (k & Hk & Hck); [|done|done|].
    + destruct (decide (length part < length other)) as [Hlt|Hge].
      * assert ((m - length other + 1) * length parts ≤ (m - length part) * length parts) by (apply Nat.mul_le_mono_r; lia). lia.
      * assert (length part = length other) as -> by lia. lia.
    + exists k. split; [done|]. by eapply contains_trans.
  - exists part. split; [apply elem_of_kept; by exists i|]. apply contains_spec. exists [], []. by rewrite app_nil_r.
Qed.

Lemma kept_incomparable parts i j p q :
  parts !! i = Some p → parts !! j = Some q → subsumed parts i p = false → subsumed parts j q = false → i ≠ j → contains p q = false.
Proof.
  intros Hi Hj Hsi Hsj Hne. apply not_true_iff_false. intros Hc. pose proof (contains_length _ _ Hc) as Hle.
  destruct (decide (length q < length p)) as [Hlt|Hge].
  - assert (subsumed parts j q = true) as E by (apply subsumed_spec; exists i, p; auto). congruence.
  - assert (p = q) as -> by (apply contains_same_length; [done|lia]). destruct (decide (i < j)).
    + assert (subsumed parts j q = true) as E by (apply subsumed_spec; exists i, q; auto). congruence.
    + assert (subsumed parts i q = true) as E; [|congruence]. apply subsumed_spec. exists j, q. split_and!; [done..|right; lia].
Qed.

(** *** Rotations *)

Definition rotated (h : list (option str * result str str)) : list (option str * str) :=
  omap (λ '(rejected, r), match r with Ok bearer => Some (rejected, bearer) | Err _ => None end) h.
(** The bearer after a history. *)
Definition bearer_after (b0 : option str) (h : list (option str * result str str)) : option str :=
  match last (rotated h) with Some (_, b) => Some b | None => b0 end.

Record credential_inv (b0 : option str) (c : credential) : Prop := {
  ci_bearer : cr_bearer c = bearer_after b0 (cr_history c);
  ci_gate r : cr_gate c = Some r → ro_rejected r = cr_bearer c ∧ cr_refresher c = true;
  ci_history k rejected r : cr_history c !! k = Some (rejected, r) → rejected = bearer_after b0 (take k (cr_history c));
  ci_refreshes : (cr_refreshes c = Z.of_nat (length (rotated (cr_history c))) mod (u64_max + 1))%Z;
  ci_waiting i p : cr_calls c !! i = Some (WaitingRotation p) → ∃ r, cr_gate c = Some r ∧ ro_caller r = i ∧ ro_rejected r = p;
  ci_static : cr_refresher c = false → cr_history c = [] ∧ ∀ i call, cr_calls c !! i = Some call → ∃ p, call = Resolved p Unrefreshable;
}.

Section rotations.
Context {T : Tonic}.

Lemma rotated_snoc h rejected r :
  rotated (h ++ [(rejected, r)]) = rotated h ++ match r with Ok b => [(rejected, b)] | Err _ => [] end.
Proof. unfold rotated. rewrite omap_app. by destruct r. Qed.
Lemma bearer_after_snoc b0 h rejected r :
  bearer_after b0 (h ++ [(rejected, r)]) = match r with Ok b => Some b | Err _ => bearer_after b0 h end.
Proof. unfold bearer_after. rewrite rotated_snoc. destruct r; [by rewrite last_snoc|by rewrite app_nil_r]. Qed.

Lemma credential_new_inv token refresher c : GatewayCredential_new token refresher = Some c → credential_inv (cr_bearer c) c.
Proof.
  unfold GatewayCredential_new. destruct token as [token|].
  - destruct (bearer_value token); [|done]. cbn. intros [= <-]. split; by intros.
  - intros [= <-]. split; by intros.
Qed.

Lemma credential_inv_calls b0 c calls gate :
  credential_inv b0 c → (∀ i p, calls !! i = Some (WaitingRotation p) → ∃ r, gate = Some r ∧ ro_caller r = i ∧ ro_rejected r = p) →
  (cr_refresher c = false → ∀ i call, calls !! i = Some call → ∃ p, call = Resolved p Unrefreshable) →
  (∀ r, gate = Some r → ro_rejected r = cr_bearer c ∧ cr_refresher c = true) →
  credential_inv b0 (mkCredential (cr_bearer c) (cr_refresher c) gate (cr_refreshes c) calls (cr_history c)).
Proof. intros [Hb Hg Hh Hr _ Hs] Hw Hc Hgate. split; cbn; try done. intros Hf. split; [by apply Hs|by apply Hc]. Qed.

Lemma static_call b0 c i call : credential_inv b0 c → cr_calls c !! i = Some call → (∀ p, call ≠ Resolved p Unrefreshable) → cr_refresher c = true.
Proof. intros [_ _ _ _ _ Hs] Hi Hne. destruct (cr_refresher c); [done|]. destruct (proj2 (Hs eq_refl) _ _ Hi) as [p ->]. by destruct (Hne p). Qed.

Lemma credential_inv_rotation b0 c r result calls :
  credential_inv b0 c → cr_gate c = Some r → (∀ i p, calls !! i ≠ Some (WaitingRotation p)) →
  credential_inv b0 (mkCredential (match result with Ok bearer => Some bearer | Err _ => cr_bearer c end) (cr_refresher c) None
    (match result with Ok _ => ((cr_refreshes c + 1) mod (u64_max + 1))%Z | Err _ => cr_refreshes c end) calls
    (cr_history c ++ [(ro_rejected r, result)])).
Proof.
  intros [Hb Hg Hh Hr _ Hs] Eg Hw. destruct (Hg r Eg) as [Hrej Hrf]. split; cbn.
  - rewrite bearer_after_snoc. by destruct result.
  - done.
  - intros k rejected r' Hk. destruct (decide (k < length (cr_history c))) as [Hlt|Hge].
    + rewrite lookup_app_l in Hk by done. rewrite take_app_le by lia. by eapply Hh.
    + rewrite lookup_app_r in Hk by lia. apply list_lookup_singleton_Some in Hk as [E [= <- <-]].
      replace k with (length (cr_history c)) by lia. rewrite take_app_length. congruence.
  - rewrite rotated_snoc. destruct result; [|by rewrite app_nil_r]. rewrite length_app, Hr. cbn [length].
    rewrite Nat2Z.inj_add. symmetry. by rewrite Z.add_mod_idemp_l.
  - intros i p Hi. by destruct (Hw i p).
  - congruence.
Qed.

Lemma set_call_waiting c i call gate :
  (∀ j p, cr_calls c !! j = Some (WaitingRotation p) → ∃ r, gate = Some r ∧ ro_caller r = j ∧ ro_rejected r = p) →
  (∀ p, call ≠ WaitingRotation p) →
  ∀ j p, <[i := call]> (cr_calls c) !! j = Some (WaitingRotation p) → ∃ r, gate = Some r ∧ ro_caller r = j ∧ ro_rejected r = p.
Proof. intros Hw Hc j p Hj. apply list_lookup_insert_Some in Hj as [(_ & E & _)|[_ Hj]]; [by destruct (Hc p)|by apply Hw]. Qed.

Lemma credential_inv_step b0 c c' : credential_inv b0 c → credential_step c c' → credential_inv b0 c'.
Proof.
  intros Hc [l Hl]. pose proof Hc as [Hb Hg Hh Hr Hw Hs].
  destruct l as [presented|i|i|a|i]; cbn [credential_step_fn] in Hl.
  - injection Hl as <-. apply credential_inv_calls; [done|..|done].
    + intros i p [Hi|[_ Hi]]%lookup_app_Some; [by apply Hw|]. apply list_lookup_singleton_Some in Hi as [_ Hi]. by destruct (cr_refresher c).
    + intros Hf i call Hi. rewrite Hf in Hi.
      apply lookup_app_Some in Hi as [Hi|[_ Hi]]; [by eapply (proj2 (Hs Hf))|]. apply list_lookup_singleton_Some in Hi as [_ <-]. by eexists.
  - destruct (cr_calls c !! i) as [[presented| |]|] eqn:Ei; try done. destruct (cr_gate c) eqn:Eg; [done|].
    pose proof (static_call _ _ _ _ Hc Ei ltac:(done)) as Hrf.
    case_bool_decide as Hp; injection Hl as <-; apply credential_inv_calls; try done; try (intros Hf; congruence).
    + intros j p Hj. apply list_lookup_insert_Some in Hj as [(<- & [= <-] & _)|[_ Hj]]; [by eexists|]. by destruct (Hw _ _ Hj) as (? & ? & _).
    + intros r [= <-]. by rewrite Hp.
    + rewrite Eg. by apply set_call_waiting.
  - destruct (cr_calls c !! i) as [[presented| |]|] eqn:Ei; try done. pose proof (static_call _ _ _ _ Hc Ei ltac:(done)) as Hrf.
    injection Hl as <-. apply credential_inv_calls; [done|by apply set_call_waiting|intros Hf; congruence|done].
  - destruct (cr_gate c) as [r|] eqn:Eg; [|done].
    assert (∀ o i p, match cr_calls c !! ro_caller r with
      | Some (WaitingRotation presented) => <[ro_caller r := Resolved presented o]> (cr_calls c) | _ => cr_calls c end !! i
      ≠ Some (WaitingRotation p)) as Hnone.
    { intros o i p Hi. destruct (decide (i = ro_caller r)) as [->|Hne].
      - destruct (cr_calls c !! ro_caller r) as [[]|] eqn:E; try (rewrite E in Hi; done). by rewrite list_lookup_insert_eq in Hi by (by eapply lookup_lt_Some).
      - assert (cr_calls c !! i = Some (WaitingRotation p)) as Hi'.
        { destruct (cr_calls c !! ro_caller r) as [[]|]; try done. by rewrite list_lookup_insert_ne in Hi. }
        destruct (Hw _ _ Hi') as (r' & [= <-] & E & _). congruence. }
    pose proof (credential_inv_rotation b0 c r (rotation_result a)) as Hrot.
    destruct (rotation_result a) as [bearer|message]; injection Hl as <-; by apply Hrot.
  - destruct (cr_calls c !! i) as [[|presented|]|] eqn:Ei; try done. pose proof (static_call _ _ _ _ Hc Ei ltac:(done)) as Hrf.
    injection Hl as <-. apply credential_inv_calls; [done|by apply set_call_waiting|intros Hf; congruence|done].
Qed.

(** A call that is told to retry presented a bearer that is gone, or one just
    rotated for it. *)
Lemma refreshed_call b0 c l c' i p : credential_inv b0 c → credential_step_fn l c = Some c' →
  cr_calls c !! i ≠ Some (Resolved p Refreshed) → cr_calls c' !! i = Some (Resolved p Refreshed) →
  cr_bearer c' ≠ p ∨ ∃ b, last (cr_history c') = Some (p, Ok b) ∧ cr_bearer c' = Some b.
Proof.
  intros [_ _ _ _ Hw _] Hl Hn Hi. destruct l as [presented|j|j|a|j]; cbn [credential_step_fn] in Hl.
  - injection Hl as <-. cbn in Hi. apply lookup_app_Some in Hi as [Hi|[_ Hi]]; [done|]. apply list_lookup_singleton_Some in Hi as [_ Hi].
    by destruct (cr_refresher c).
  - destruct (cr_calls c !! j) as [[presented| |]|] eqn:Ej; try done. destruct (cr_gate c); [done|].
    case_bool_decide as Hp; injection Hl as <-; cbn in Hi; apply list_lookup_insert_Some in Hi as [(-> & [= ->] & _)|[_ Hi]]; try done. by left.
  - destruct (cr_calls c !! j) as [[presented| |]|] eqn:Ej; try done. injection Hl as <-. cbn in Hi.
    by apply list_lookup_insert_Some in Hi as [(-> & ? & _)|[_ Hi]].
  - destruct (cr_gate c) as [r|] eqn:Eg; [|done]. destruct (cr_calls c !! ro_caller r) as [[|presented|]|] eqn:Er.
    all: destruct (rotation_result a) as [bearer|message]; injection Hl as <-; cbn in Hi; try done.
    all: apply list_lookup_insert_Some in Hi as [(<- & Hi & _)|[_ Hi]]; try done; simplify_eq.
    right. exists bearer. destruct (Hw _ _ Er) as (r' & [= <-] & _ & <-). cbn. by rewrite last_snoc.
  - destruct (cr_calls c !! j) as [[|presented|]|] eqn:Ej; try done. injection Hl as <-. cbn in Hi.
    by apply list_lookup_insert_Some in Hi as [(-> & ? & _)|[_ Hi]].
Qed.

Lemma credential_reachable token refresher c0 c :
  GatewayCredential_new token refresher = Some c0 → rtc credential_step c0 c → credential_inv (cr_bearer c0) c.
Proof.
  intros Hn H. refine (rtc_ind_r (credential_inv (cr_bearer c0)) c0 _ _ c H); [by eapply credential_new_inv|].
  intros ? ? _ ? ?. by eapply credential_inv_step.
Qed.

(** Successful rotations replace one another's bearers. *)
Lemma rotations_chain b0 h :
  (∀ k rejected r, h !! k = Some (rejected, r) → rejected = bearer_after b0 (take k h)) →
  (rotated h).*1 = take (length (rotated h)) (b0 :: (Some <$> (rotated h).*2)).
Proof.
  induction h as [|[rejected r] h IH] using rev_ind; [done|]. intros Hh. rewrite rotated_snoc.
  assert ((rotated h).*1 = take (length (rotated h)) (b0 :: (Some <$> (rotated h).*2))) as IH'.
  { apply IH. intros k x y Hk. rewrite (Hh k x y) by (by apply lookup_app_l_Some). f_equal. apply take_app_le.
    apply lookup_lt_Some in Hk. lia. }
  destruct r as [b|]; [|by rewrite app_nil_r]. rewrite !fmap_app, length_app, IH'. cbn [fmap list_fmap length].
  rewrite Nat.add_1_r. set (l := rotated h) in *. rewrite app_comm_cons.
  rewrite (take_app_le (b0 :: (Some <$> l.*2))) by (cbn; rewrite !length_fmap; lia).
  assert (rejected = bearer_after b0 h) as ->.
  { rewrite (Hh (length h) rejected (Ok b)); [by rewrite take_app_length|]. by rewrite lookup_app_r, Nat.sub_diag. }
  erewrite (take_S_r (b0 :: (Some <$> l.*2))); [done|]. unfold bearer_after. fold l.
  destruct l as [|x l' _] using rev_ind; [done|]. rewrite last_snoc, length_app, !fmap_app, Nat.add_1_r.
  change (((Some <$> l'.*2) ++ (Some <$> [x].*2)) !! length l' = Some (let (_, b1) := x in Some b1)).
  rewrite lookup_app_r by (rewrite !length_fmap; lia). rewrite !length_fmap, Nat.sub_diag. by destruct x.
Qed.
End rotations.

(** *** Events on the wire *)

Section injective.
Context {U : UlidLib} {UL : UlidLaws U}.

Lemma run_id_fmt_inj (a b : RunId) : RunId_fmt a = RunId_fmt b → a = b.
Proof. destruct a as [a], b as [b]. unfold RunId_fmt. cbn. intros E. apply (f_equal ulid_from_string) in E. rewrite !ulid_roundtrip in E. congruence. Qed.
Lemma event_id_fmt_inj (a b : EventId) : EventId_fmt a = EventId_fmt b → a = b.
Proof. destruct a as [a], b as [b]. unfold EventId_fmt. cbn. intros E. apply (f_equal ulid_from_string) in E. rewrite !ulid_roundtrip in E. congruence. Qed.
Lemma lineage_fmt_inj (p q : LineagePath) : LineagePath_fmt p = LineagePath_fmt q → p = q.
Proof.
  destruct p as [p], q as [q]. unfold LineagePath_fmt. cbn. rewrite !fmt_join. intros E. f_equal. revert E.
  assert (∀ l : list RunId, l ≠ [] → split_on (byte_is LINEAGE_SEPARATOR) (join [LINEAGE_SEPARATOR] (RunId_fmt <$> l)) = RunId_fmt <$> l) as Hsplit.
  { intros l Hl. apply split_on_join; [by destruct l|]. apply Forall_fmap, Forall_true. apply run_id_text_free. }
  assert (∀ l : list RunId, join [LINEAGE_SEPARATOR] (RunId_fmt <$> l) = [] → l = []) as Hnil.
  { intros [|x l] E; [done|]. exfalso. pose proof (run_id_text_ne x) as Hne. destruct l; cbn in E; [done|]. destruct (RunId_fmt x); done. }
  intros E. destruct (decide (p = [])) as [->|Hp]; [symmetry; by apply Hnil|]. destruct (decide (q = [])) as [->|Hq]; [by apply Hnil|].
  apply (f_equal (split_on (byte_is LINEAGE_SEPARATOR))) in E. rewrite !Hsplit in E by done.
  revert q E Hq. clear -UL. induction p as [|x p IH]; intros [|y q] E _; try done. injection E as E1 E2. f_equal; [by apply run_id_fmt_inj|].
  destruct q as [|z q]; [by destruct p|]. by apply IH.
Qed.

Lemma signal_str_inj a b : signal_str a = signal_str b → a = b.
Proof. destruct a, b; vm_compute; intros E; try reflexivity; discriminate E. Qed.
#[export] Instance to_proto_attr_inj : Inj (=) (=) to_proto_attr.
Proof. intros [s|z|[f]|b] [s'|z'|[f']|b']; cbn; congruence. Qed.
#[export] Instance as_str_inj k : Inj (=) (=) (@as_str k).
Proof. intros [a] [b]. cbn. congruence. Qed.
#[export] Instance to_proto_payload_inj : Inj (=) (=) to_proto_payload.
Proof.
  intros [[d] m sz] [[d'] m' sz']. unfold to_proto_payload. cbn. intros [= -> Hm ->]. f_equal. by apply (inj (fmap as_str)) in Hm.
Qed.

#[export] Instance to_proto_event_inj : Inj (=) (=) to_proto_event.
Proof.
  intros e e'. unfold to_proto_event. intros E. injection E as E1 E2 E3 E4 E5 E6 E7 E8 E9.
  destruct e as [i t r l s n a p], e' as [i' t' r' l' s' n' a' p']. cbn in *. destruct t, t'. cbn in *. f_equal.
  - by apply event_id_fmt_inj.
  - congruence.
  - by apply run_id_fmt_inj.
  - by apply lineage_fmt_inj.
  - by apply signal_str_inj.
  - by apply (inj as_str).
  - apply (inj (kmap as_str)) in E6. by apply (inj (fmap to_proto_attr)) in E6.
  - by apply (inj (fmap to_proto_payload)) in E7.
Qed.
End injective.

(** *** Deliveries *)

(** The calls with their request, bearer and outcome. *)
Definition ingest_log := list (IngestRequest * option str * rpc_outcome).
#[export] Instance logged_ingest {W} {IW : IngestWorld W} : IngestWorld (W * ingest_log) := {|
  current_bearer w := current_bearer w.1;
  ingest_rpc w request := let '(w', o) := ingest_rpc w.1 request in ((w', w.2 ++ [(request, current_bearer w.1, o)]), o);
  refresh_rejected w presented := let '(w', o) := refresh_rejected w.1 presented in ((w', w.2), o);
|}.

Definition judged (s : Status) : bool := match status_code s with InvalidArgument | PermissionDenied | Unauthenticated => true | _ => false end.
Definition congested (s : Status) : bool := match status_code s with ResourceExhausted | CodeUnavailable => true | _ => is_transport_failure s end.

(** What a failed delivery's class says of the outcome of its last call. *)
Definition class_explained (f : AttemptFailure) (o : rpc_outcome) : Prop :=
  match f with
  | Permanent _ => ∃ s, o = RpcFailed s ∧ judged s = true
  | Transient _ => o = RpcTimeout ∨ ∃ s, o = RpcFailed s ∧ (congested s = true ∨ status_code s = Unauthenticated)
  | Ambiguous _ => (∃ n, o = RpcAccepted n) ∨ ∃ s, o = RpcFailed s ∧ judged s = false ∧ congested s = false
  end.

Section deliveries.
Context {U : UlidLib} {T : Tonic} {W : Type} {IW : IngestWorld W} (tenant_id : option str) (project_id : str).

Definition failure_outcome (f : IngestFailure) (o : rpc_outcome) : Prop :=
  match f with FailTimeout => o = RpcTimeout | FailRpc s => o = RpcFailed s | FailMismatch n _ => o = RpcAccepted n end.

Lemma failure_class f o : failure_outcome f o → class_explained (classify (into_export_error f)) o.
Proof.
  destruct f as [|s|n m]; cbn [failure_outcome]; intros ->; cbn [into_export_error classify class_explained]; [by left| |by left; eexists].
  unfold ingest_error. destruct (status_code s) eqn:E; try (destruct (is_transport_failure s) eqn:Et); cbn [classify class_explained].
  all: first [ exists s; unfold judged; by rewrite E | right; exists s; unfold judged, congested; rewrite E, ?Et; auto ].
Qed.

Lemma ingest_once_spec (w : W) log ps w' r : ingest_once tenant_id project_id (w, log) ps = (w', r) →
  ∃ o, w'.2 = log ++ [(ingest_request tenant_id project_id ps, current_bearer w, o)] ∧
    (r = Ok () ↔ o = RpcAccepted (Z.min (Z.of_nat (length ps)) u64_max)) ∧ ∀ f, r = Err f → failure_outcome f o.
Proof.
  unfold ingest_once. cbn [ingest_rpc logged_ingest]. cbn. destruct (ingest_rpc w _) as [w1 [|s|n]]; intros [= <- <-]; eexists; (split; [done|]).
  - split; [done|]. by intros f [= <-].
  - split; [done|]. by intros f [= <-].
  - destruct (Z.eqb_spec n (Z.min (Z.of_nat (length ps)) u64_max)) as [->|Hne]; (split; [naive_solver|]); [done|]. by intros f [= <-].
Qed.

Lemma delivery_last (calls : ingest_log) q b o n (r : result ExportError unit) : last calls = Some (q, b, o) → (r = Ok () ↔ o = RpcAccepted n) →
  (∀ e, r = Err e → class_explained (classify e) o) →
  (r = Ok () ↔ ∃ q b, last calls = Some (q, b, RpcAccepted n)) ∧ ∀ e, r = Err e → ∃ q b o, last calls = Some (q, b, o) ∧ class_explained (classify e) o.
Proof. intros Hl Hr He. split; [rewrite Hr, Hl; naive_solver|]. intros e E. exists q, b, o. auto. Qed.
End deliveries.

(** ** Properties *)

(** Rotations of the shared credential.  Under any interleaving of
    rejected calls, timeouts and answers of the refresher, at most one rotation
    is in flight and it replaces the bearer that is current until it ends, so
    successful rotations form a chain from the first bearer to the current one:
    with fresh tokens no bearer is ever rotated twice.  A call told to retry
    finds the bearer it presented gone or rotated on its behalf; the count
    reported at the end of the run is that of the rotations; and a credential
    without refresher never changes. *)
Theorem credential_single_flight {T : Tonic} (token : option str) (refresher : bool) (c0 c : credential) :
  GatewayCredential_new token refresher = Some c0 → rtc credential_step c0 c →
  let chain := rotated (cr_history c) in
  (∀ r, cr_gate c = Some r → ro_rejected r = cr_bearer c) ∧
  chain.*1 = take (length chain) (cr_bearer c0 :: (Some <$> chain.*2)) ∧
  (NoDup (cr_bearer c0 :: (Some <$> chain.*2)) → NoDup chain.*1) ∧
  Some (cr_bearer c) = last (cr_bearer c0 :: (Some <$> chain.*2)) ∧
  (cr_refreshes c = Z.of_nat (length chain) mod (u64_max + 1))%Z ∧
  (cr_refresher c = false → cr_bearer c = cr_bearer c0) ∧
  (∀ l c' i p, credential_step_fn l c = Some c' → cr_calls c !! i ≠ Some (Resolved p Refreshed) →
    cr_calls c' !! i = Some (Resolved p Refreshed) →
    cr_bearer c' ≠ p ∨ ∃ b, last (cr_history c') = Some (p, Ok b) ∧ cr_bearer c' = Some b).
Proof.
  intros Hn H chain. pose proof (credential_reachable _ _ _ _ Hn H) as Hinv. pose proof Hinv as [Hb Hg Hh Hr _ Hs].
  pose proof (rotations_chain _ _ Hh) as Hchain. split_and!; [intros r Er; by apply Hg|done| | |done| |].
  - intros Hnd. fold chain in Hchain. rewrite Hchain. eapply sublist_NoDup; [exact Hnd|apply sublist_take].
  - rewrite Hb. unfold bearer_after. fold chain. destruct chain as [|x l _] using rev_ind; [done|].
    rewrite last_snoc, !fmap_app. cbn [fmap list_fmap]. rewrite app_comm_cons, last_snoc. by destruct x.
  - intros Hf. rewrite Hb. by rewrite (proj1 (Hs Hf)).
  - intros l c' i p. by eapply refreshed_call.
Qed.

(** C22: one batch's delivery.  An empty batch makes no call.  Any other makes
    one call, or two when the first was refused as unauthenticated, all with the
    same request, which determines the events of the batch.  The export succeeds
    exactly when the last call's acknowledgement counts the whole batch; a
    failure is permanent only if the gateway judged the batch or its credential,
    transient only for a timeout, congestion, a transport failure or a rotation
    still in flight. *)
Theorem ingest_delivery_exact {U : UlidLib} {UL : UlidLaws U} {T : Tonic} {W : Type} {IW : IngestWorld W} (tenant_id : option str) (project_id : str)
    (w : W) (log : ingest_log) (es : list Event) (w' : W * ingest_log) (r : result ExportError unit) :
  ingest_within tenant_id project_id (w, log) es = (w', r) →
  (es = [] → w' = (w, log) ∧ r = Ok ()) ∧
  (es ≠ [] → ∃ calls, w'.2 = log ++ calls ∧
    (∃ b o, calls = [(mkIngestRequest (to_proto_event <$> es) project_id (default [] tenant_id), b, o)] ∨
      ∃ b' s, calls = [(mkIngestRequest (to_proto_event <$> es) project_id (default [] tenant_id), b', RpcFailed s);
                       (mkIngestRequest (to_proto_event <$> es) project_id (default [] tenant_id), b, o)] ∧ status_code s = Unauthenticated) ∧
    (∀ es', to_proto_event <$> es' = to_proto_event <$> es → es' = es) ∧
    (r = Ok () ↔ ∃ q b, last calls = Some (q, b, RpcAccepted (Z.min (Z.of_nat (length es)) u64_max))) ∧
    ∀ e, r = Err e → ∃ q b o, last calls = Some (q, b, o) ∧ class_explained (classify e) o).
Proof.
  intros H. unfold ingest_within in H. case_bool_decide as Hes; [by simplify_eq|]. split; [done|intros _].
  cbv zeta in H. set (q := mkIngestRequest (to_proto_event <$> es) project_id (default [] tenant_id)).
  destruct (ingest_once tenant_id project_id (w, log) (to_proto_event <$> es)) as [[w1 log1] r1] eqn:E1.
  destruct (ingest_once_spec _ _ _ _ _ _ _ E1) as (o1 & Hlog & Hok & Hf). cbn in Hlog. fold q in Hlog. rewrite length_fmap in Hok. subst log1.
  assert (∀ es', to_proto_event <$> es' = to_proto_event <$> es → es' = es) as Hinj by (intros es'; apply (inj (fmap to_proto_event))).
  match goal with |- ?G => assert (w'.2 = log ++ [(q, current_bearer w, o1)] → (r = Ok () ↔ r1 = Ok ()) →
    (∀ e, r = Err e → class_explained (classify e) o1) → G) as Hone end.
  { intros Hw Hr He. exists [(q, current_bearer w, o1)]. split; [exact Hw|]. split; [by eexists _, _; left|]. split; [exact Hinj|].
    apply (delivery_last _ q (current_bearer w) o1); [done|by rewrite Hr|done]. }
  destruct r1 as [[]|[|s|n m]]; [injection H as <- <-; by apply Hone| | |].
  - injection H as <- <-. apply Hone; [done..|]. intros e [= <-]. apply (failure_class FailTimeout). by apply Hf.
  - specialize (Hf _ eq_refl). cbn in Hf. subst o1. case_bool_decide as Hs.
    + match type of H with context [refresh_rejected ?x ?y] => destruct (refresh_rejected x y) as [[w2 log2] o] eqn:Er end. cbn in Er.
      assert (log2 = log ++ [(q, current_bearer w, RpcFailed s)]) as -> by (by destruct (refresh_rejected w1 _); simplify_eq). destruct o as [| |reason|].
      * destruct (ingest_once _ _ (w2, _) _) as [[w3 log3] r3] eqn:E3. destruct (ingest_once_spec _ _ _ _ _ _ _ E3) as (o3 & Hlog3 & Hok3 & Hf3).
        cbn in Hlog3. fold q in Hlog3. subst log3. rewrite length_fmap in Hok3. injection H as <- <-.
        exists ([(q, current_bearer w, RpcFailed s)] ++ [(q, current_bearer w2, o3)]). split; [by rewrite app_assoc|].
        split; [eexists _, _; right; by eexists _, _|]. split; [exact Hinj|]. eapply delivery_last; [by rewrite last_snoc| |].
        -- rewrite <- Hok3. by destruct r3 as [[]|].
        -- intros e He. destruct r3 as [|f]; [done|]. injection He as <-. apply failure_class. by apply Hf3.
      * injection H as <- <-. apply Hone; [done..|]. intros e [= <-]. by apply (failure_class (FailRpc s)).
      * injection H as <- <-. apply Hone; [done..|]. intros e [= <-]. exists s. split; [done|]. unfold judged. by rewrite Hs.
      * injection H as <- <-. apply Hone; [done..|]. intros e [= <-]. right. exists s. auto.
    + injection H as <- <-. apply Hone; [done..|]. intros e [= <-]. by apply (failure_class (FailRpc s)).
  - injection H as <- <-. apply Hone; [done..|]. intros e [= <-]. apply (failure_class (FailMismatch n m)). by apply Hf.
Qed.

(** The line shown for a failed call says everything its hops say, and nothing
    twice: each hop's text is inside a kept one, and no kept hop contains
    another. *)
Theorem status_folded {T : Tonic} (s : Status) :
  (∀ part, part ∈ status_parts s → ∃ k, k ∈ kept_parts (status_parts s) ∧ contains k part = true) ∧
  (∀ i j p q, status_parts s !! i = Some p → status_parts s !! j = Some q → i ≠ j →
    subsumed (status_parts s) i p = false → subsumed (status_parts s) j q = false → contains p q = false).
Proof.
  split.
  - intros part [i Hi]%list_elem_of_lookup. by eapply part_kept.
  - intros i j p q Hi Hj Hne Hp Hq. by eapply kept_incomparable.
Qed.

(** *** Witnesses *)

Section witnesses.
#[local] Existing Instance crockford_ulid.
#[local] Instance plain_tonic : Tonic := {| code_description _ := bs "description"; metadata_parse := Some; metadata_to_str := Some |}.

Fixpoint credential_exec (c : credential) (ls : list credential_label) : credential :=
  match ls with [] => c | l :: ls => credential_exec (default c (credential_step_fn l c)) ls end.
Lemma credential_exec_run c ls : rtc credential_step c (credential_exec c ls).
Proof.
  revert c. induction ls as [|l ls IH]; intros c; cbn [credential_exec]; [done|].
  destruct (credential_step_fn l c) as [c'|] eqn:E; cbn [default]; [|apply IH]. eapply rtc_l; [by exists l|apply IH].
Qed.

(** Two calls are rejected with one bearer; the first gives up waiting, its
    rotation lands, and the second finds the new bearer. *)
Definition first_credential : credential := mkCredential (Some (bs "Bearer a")) true None 0 [] [].
Definition rotated_once : credential :=
  credential_exec first_credential
    [RejectCall (Some (bs "Bearer a")); RejectCall (Some (bs "Bearer a")); Acquire 0; RotationTimeout 0; RotationEnds (Rotated (bs "b")); Acquire 1].

Lemma credential_single_flight_witness :
  (rotated (cr_history rotated_once)).*1 = [Some (bs "Bearer a")] ∧ Some (cr_bearer rotated_once) = Some (Some (bs "Bearer b")) ∧
  cr_calls rotated_once !! 1 = Some (Resolved (Some (bs "Bearer a")) Refreshed).
Proof.
  destruct (credential_single_flight (T := plain_tonic) (Some (bs "a")) true first_credential rotated_once eq_refl (credential_exec_run _ _))
    as (_ & Hchain & _ & Hb & _).
  split; [rewrite Hchain; vm_compute; reflexivity|]. split; [rewrite Hb; vm_compute; reflexivity|vm_compute; reflexivity].
Defined.

(** A gateway that refuses the first call's bearer. *)
#[local] Instance aging_gateway : IngestWorld nat := {|
  current_bearer n := Some (if Nat.eqb n 0 then bs "Bearer a" else bs "Bearer b");
  ingest_rpc n q := if Nat.eqb n 0 then (n, RpcFailed (mkStatus Unauthenticated (bs "expired") [])) else (n, RpcAccepted 1);
  refresh_rejected n _ := (S n, Refreshed);
|}.
Lemma ingest_delivery_exact_witness : ∃ calls w',
  ingest_within None (bs "p") (0, []) [Scripted.ev 1] = ((w', calls), Ok ()) ∧ length calls = 2.
Proof.
  destruct (ingest_within None (bs "p") (0, []) [Scripted.ev 1]) as [[w' calls] r] eqn:E.
  destruct (ingest_delivery_exact (UL := crockford_ulid_laws) (T := plain_tonic) None (bs "p") 0 [] [Scripted.ev 1] (w', calls) r E) as [_ H].
  destruct H as (calls' & Hc & _ & _ & Hok & _); [discriminate|]. cbn in Hc. subst calls'.
  assert (match (ingest_within None (bs "p") (0, []) [Scripted.ev 1]).1.2 with [_; (_, _, RpcAccepted n)] => (n =? 1)%Z | _ => false end = true) as Ht
    by (vm_compute; reflexivity).
  rewrite E in Ht. cbn in Ht. destruct calls as [|c1 [|[[q b] [| |n]] [|]]]; try discriminate Ht.
  apply Z.eqb_eq in Ht. subst n. exists [c1; (q, b, RpcAccepted 1)], w'. split; [|reflexivity]. f_equal. apply Hok. exists q, b. reflexivity.
Defined.
End witnesses.
