(* ===== verification/BlobUpload.v ===== *)
(** * The blob upload client (crates/hiloop-interceptor/src/blob_upload.rs)

    Probing a gateway for missing digests in batches that fit its frames, and
    uploading a blob as a stream of frames; a call refused as unauthenticated
    is retried once after a rotation of the shared credential.  The calls are
    an interface ([BlobWorld]); prost's [encoded_len] of a probe is [ProbeLen].
    [grpc_drain_world] is the client as the blob drain's uploader. *)
From Stdlib Require Import Strings.Byte.
From S2P Require Import Prelude Text Identity Event Spool Blob BlobDrain GrpcClient.

Definition GRPC_BLOB : str := bs "grpc-blob".
Definition UPLOAD_CHUNK_BYTES : nat := Z.to_nat (24 * 1024).
Definition MAX_BLOB_PROBE_BYTES : Z := 64 * 1024.
#[global] Arguments UPLOAD_CHUNK_BYTES : simpl never.

(** ** Failures *)

Inductive BlobCallFailure := AuthFailure (message : str) | ClassifiedFailure (kind : BlobStoreErrorKind) (message : str).

Definition kind_for_status (c : Code) : BlobStoreErrorKind :=
  match c with
  | ResourceExhausted => KBackpressure
  | CodeUnavailable | DeadlineExceeded => KUnavailable
  | InvalidArgument | FailedPrecondition | PermissionDenied | Unauthenticated | CodeNotFound | AlreadyExists | OutOfRange => KRejected
  | _ => KOther
  end.
Definition from_status (s : Status) (message : str) : BlobCallFailure :=
  if bool_decide (status_code s = Unauthenticated) then AuthFailure message else ClassifiedFailure (kind_for_status (status_code s)) message.
Definition into_error (f : BlobCallFailure) : BlobStoreError :=
  match f with
  | AuthFailure message => BlobStoreError_rejected GRPC_BLOB message
  | ClassifiedFailure KBackpressure message => BlobStoreError_backpressure GRPC_BLOB message
  | ClassifiedFailure KUnavailable message => BlobStoreError_unavailable GRPC_BLOB message
  | ClassifiedFailure KRejected message => BlobStoreError_rejected GRPC_BLOB message
  | ClassifiedFailure KOther message => BlobStoreError_other GRPC_BLOB message
  end.
Definition classify_refresh (outcome : RefreshOutcome) (message : str) : result BlobStoreError unit :=
  match outcome with
  | Refreshed => Ok ()
  | Unrefreshable => Err (BlobStoreError_rejected GRPC_BLOB message)
  | RefreshFailed reason => Err (BlobStoreError_rejected GRPC_BLOB (message ++ bs "; refreshing the credential failed: " ++ reason))
  | RefreshPending => Err (BlobStoreError_unavailable GRPC_BLOB (message ++ bs "; a credential refresh is still in flight"))
  end.

(** ** Probe batches *)

(** [HasBlobsRequest { digests, org_id }.encoded_len()] *)
Class ProbeLen := probe_len : list str → str → Z.

Section batches.
Context {PL : ProbeLen}.

(** The loop over the digests from [index] on: the ranges cut so far, the
    open batch's start and its length. *)
Fixpoint probe_loop (base_len : Z) (digests : list PayloadDigest) (index start : nat) (batch_len : Z) (batches : list (nat * nat))
    : result BlobStoreError (list (nat * nat) * nat) :=
  match digests with
  | [] => Ok (batches, start)
  | digest :: digests =>
      let digest_len := probe_len [as_str digest] [] in
      if (MAX_BLOB_PROBE_BYTES <? saturating_add usize_max base_len digest_len)%Z then
        Err (BlobStoreError_rejected GRPC_BLOB (bs "blob digest " ++ as_str digest ++ bs " exceeds the gateway probe frame limit"))
      else
        let '(batches, start, batch_len) :=
          if (MAX_BLOB_PROBE_BYTES <? saturating_add usize_max batch_len digest_len)%Z then (batches ++ [(start, index)], index, base_len)
          else (batches, start, batch_len) in
        probe_loop base_len digests (S index) start (batch_len + digest_len) batches
  end.
Definition probe_batches (digests : list PayloadDigest) (org_id : str) : result BlobStoreError (list (nat * nat)) :=
  let base_len := probe_len [] org_id in
  if (MAX_BLOB_PROBE_BYTES <? base_len)%Z
  then Err (BlobStoreError_rejected GRPC_BLOB (bs "blob probe tenant identity exceeds the gateway frame limit"))
  else '(batches, start) ← probe_loop base_len digests 0 0 base_len [];
       Ok (if bool_decide (start < length digests) then batches ++ [(start, length digests)] else batches).
Definition range_of {A} (l : list A) (r : nat * nat) : list A := take (r.2 - r.1) (drop r.1 l).
End batches.

(** ** Upload frames *)

Record UploadFrame := mkFrame { uf_digest : str; uf_data : str; uf_org_id : str }.

(** [stream::unfold]: each frame after the first takes at least a byte, so a
    fuel above the number of bytes is never used up ([upload_frames_exact]). *)
Fixpoint frames_from (fuel : nat) (bytes : str) (offset : nat) (identity : option (str * str)) : list UploadFrame :=
  match fuel with
  | O => []
  | S fuel =>
      match identity with
      | None => if Nat.eqb offset (length bytes) then []
                else let end_ := Nat.min (offset + UPLOAD_CHUNK_BYTES) (length bytes) in
                     mkFrame [] (take (end_ - offset) (drop offset bytes)) [] :: frames_from fuel bytes end_ None
      | Some (digest, org_id) =>
          let end_ := Nat.min (offset + UPLOAD_CHUNK_BYTES) (length bytes) in
          mkFrame digest (take (end_ - offset) (drop offset bytes)) org_id :: frames_from fuel bytes end_ None
      end
  end.
Definition upload_frames (digest : PayloadDigest) (org_id bytes : str) : list UploadFrame :=
  frames_from (S (length bytes)) bytes 0 (Some (as_str digest, org_id)).

(** ** The client *)

Inductive blob_rpc (A : Type) := BlobTimeout | BlobFailed (s : Status) | BlobAnswer (a : A).
Arguments BlobTimeout {A}.
Arguments BlobFailed {A} s.
Arguments BlobAnswer {A} a.

(** The gateway's two methods under their deadlines, the credential's bearer
    and its rotation. *)
Class BlobWorld (W : Type) := {
  blob_bearer : W → option str;
  has_blobs_rpc : W → list str → str → W * blob_rpc (list str);
  upload_rpc : W → list UploadFrame → W * blob_rpc Z;
  blob_refresh : W → option str → W * RefreshOutcome;
}.

Section client.
Context {T : Tonic} {PL : ProbeLen} {W : Type} {BW : BlobWorld W} (tenant_id : option str) (escape_debug : str → str).

Definition tenant_wire_value : str := default [] tenant_id.

Definition has_blobs_once (w : W) (digests : list PayloadDigest) : W * result BlobCallFailure (list str) :=
  match has_blobs_rpc w (as_str <$> digests) tenant_wire_value with
  | (w, BlobTimeout) => (w, Err (ClassifiedFailure KUnavailable (bs "blob probe timed out after 10s")))
  | (w, BlobFailed s) => (w, Err (from_status s (bs "blob probe rejected: " ++ fold_status_message s)))
  | (w, BlobAnswer missing) => (w, Ok missing)
  end.
Definition upload_once (w : W) (digest : PayloadDigest) (bytes : str) : W * result BlobCallFailure Z :=
  match upload_rpc w (upload_frames digest tenant_wire_value bytes) with
  | (w, BlobTimeout) => (w, Err (ClassifiedFailure KUnavailable (bs "blob upload of " ++ as_str digest ++ bs " timed out after 60s")))
  | (w, BlobFailed s) => (w, Err (from_status s (bs "blob upload of " ++ as_str digest ++ bs " rejected: " ++ fold_status_message s)))
  | (w, BlobAnswer size) => (w, Ok size)
  end.

Definition refresh_or_fail (w : W) (failure : BlobCallFailure) (presented : option str) : W * result BlobStoreError unit :=
  match failure with
  | AuthFailure message => let '(w, outcome) := blob_refresh w presented in (w, classify_refresh outcome message)
  | _ => (w, Err (into_error failure))
  end.

(** A call, and its retry after a rotation. *)
Definition call_with_refresh {A} (call : W → W * result BlobCallFailure A) (w : W) : W * result BlobStoreError A :=
  let presented := blob_bearer w in
  match call w with
  | (w, Ok a) => (w, Ok a)
  | (w, Err failure) =>
      match refresh_or_fail w failure presented with
      | (w, Ok _) => let '(w, r) := call w in (w, map_err into_error r)
      | (w, Err e) => (w, Err e)
      end
  end.

Fixpoint probe_all (w : W) (digests : list PayloadDigest) (ranges : list (nat * nat)) (missing : list str) : W * result BlobStoreError (list str) :=
  match ranges with
  | [] => (w, Ok missing)
  | range :: ranges =>
      match call_with_refresh (λ w, has_blobs_once w (range_of digests range)) w with
      | (w, Ok more) => probe_all w digests ranges (missing ++ more)
      | (w, Err e) => (w, Err e)
      end
  end.

(** Each answer is looked up among the digests asked about. *)
Definition requested_digest (digests : list PayloadDigest) (raw : str) : result BlobStoreError PayloadDigest :=
  ok_or (list_find (λ d, as_str d = raw) (reverse digests) ≫= λ '(_, d), Some d)
    (BlobStoreError_rejected GRPC_BLOB (bs "gateway reported unrequested digest " ++ escape_debug raw ++ bs " as missing")).
Fixpoint requested_digests (digests : list PayloadDigest) (raws : list str) : result BlobStoreError (list PayloadDigest) :=
  match raws with
  | [] => Ok []
  | raw :: raws => d ← requested_digest digests raw; ds ← requested_digests digests raws; Ok (d :: ds)
  end.

Definition grpc_find_missing (w : W) (digests : list PayloadDigest) : W * result BlobStoreError (list PayloadDigest) :=
  if bool_decide (digests = []) then (w, Ok [])
  else match probe_batches digests tenant_wire_value with
       | Err e => (w, Err e)
       | Ok ranges => let '(w, r) := probe_all w digests ranges [] in (w, raws ← r; requested_digests digests raws)
       end.

Definition grpc_upload (w : W) (digest : PayloadDigest) (bytes : str) : W * result BlobStoreError unit :=
  let size := Z.of_nat (length bytes) in
  if (MAX_UPLOAD_BLOB_BYTES <? size)%Z then
    (w, Err (BlobStoreError_rejected GRPC_BLOB (bs "blob " ++ as_str digest ++ bs " is " ++ show_uint size ++ bs " bytes, over the "
               ++ show_uint MAX_UPLOAD_BLOB_BYTES ++ bs " byte upload cap")))
  else
    match call_with_refresh (λ w, upload_once w digest bytes) w with
    | (w, Err e) => (w, Err e)
    | (w, Ok stored) =>
        (w, if (stored =? size)%Z then Ok ()
            else Err (BlobStoreError_rejected GRPC_BLOB (bs "gateway stored " ++ show_uint stored ++ bs " bytes of " ++ as_str digest
                        ++ bs ", expected " ++ show_uint size)))
    end.

(** The client behind the blob drain, next to the store it drains. *)
Context (listing : W → W * result BlobStoreError (list FinalizedBlob))
  (lookup_blob : W → PayloadDigest → W * result BlobStoreError (option FinalizedBlob))
  (read : W → str → W * option str) (sleep : W → Z → W).
Definition grpc_drain_world : DrainWorld W := {|
  store_finalized_blobs := listing; store_finalized_blob := lookup_blob; read_file := read;
  find_missing := grpc_find_missing; upload := grpc_upload; drain_sleep := sleep |}.
End client.

(** ** Lemmas *)

(** What prost documents of the length: fields add up. *)
Class ProbeLenLaws `{ProbeLen} := {
  probe_len_nonneg ds org : (0 ≤ probe_len ds org)%Z;
  probe_len_cons d ds org : (probe_len (d :: ds) org = probe_len [d] [] + probe_len ds org)%Z;
}.

Lemma over_saturating limit a b : (0 ≤ limit < usize_max)%Z → (limit <? saturating_add usize_max a b)%Z = (limit <? a + b)%Z.
Proof.
  intros. unfold saturating_add. destruct (Z.ltb_spec limit (a + b)), (Z.ltb_spec limit (Z.min usize_max (a + b))); try done; exfalso; lia.
Qed.

Section batch_lemmas.
Context {PL : ProbeLen} {LL : ProbeLenLaws}.

Lemma probe_len_snoc ds d org : (probe_len (ds ++ [d]) org = probe_len ds org + probe_len [d] [])%Z.
Proof.
  induction ds as [|x ds IH]; cbn [app]; [by rewrite (probe_len_cons d [] org); lia|]. rewrite (probe_len_cons x), IH, (probe_len_cons x ds org). lia.
Qed.

Definition batch_ok (org : str) (b : list PayloadDigest) : Prop := b ≠ [] ∧ (probe_len (as_str <$> b) org ≤ MAX_BLOB_PROBE_BYTES)%Z.

Lemma range_of_app {A} (a b c : list A) : range_of (a ++ b ++ c) (length a, length a + length b) = b.
Proof. unfold range_of. cbn. rewrite drop_app_length. replace (length a + length b - length a) with (length b) by lia. apply take_app_length. Qed.

(** The cut batches hold [cut], the open one [cur]. *)
Lemma probe_loop_spec org rest cut cur batches :
  (probe_len [] org ≤ MAX_BLOB_PROBE_BYTES)%Z → (cur = [] → cut = []) → (probe_len (as_str <$> cur) org ≤ MAX_BLOB_PROBE_BYTES)%Z →
  let all := cut ++ cur ++ rest in
  concat (range_of all <$> batches) = cut → Forall (λ r, batch_ok org (range_of all r)) batches →
  match probe_loop (probe_len [] org) rest (length cut + length cur) (length cut) (probe_len (as_str <$> cur) org) batches with
  | Ok (batches', start) => ∃ cut' cur', all = cut' ++ cur' ∧ start = length cut' ∧ (probe_len (as_str <$> cur') org ≤ MAX_BLOB_PROBE_BYTES)%Z ∧
      concat (range_of all <$> batches') = cut' ∧ Forall (λ r, batch_ok org (range_of all r)) batches'
  | Err e => kind e = KRejected ∧ ∃ d, d ∈ rest ∧ (MAX_BLOB_PROBE_BYTES < probe_len [] org + probe_len [as_str d] [])%Z
  end.
Proof.
  intros Hbase. revert cut cur batches. induction rest as [|d rest IH]; intros cut cur batches Hcut Hcur all Hcat Hok; cbn [probe_loop].
  { exists cut, cur. unfold all in *. rewrite app_nil_r in *. done. }
  rewrite !over_saturating by (unfold usize_max, u64_max, MAX_BLOB_PROBE_BYTES; lia).
  destruct (Z.ltb_spec MAX_BLOB_PROBE_BYTES (probe_len [] org + probe_len [as_str d] [])) as [Hbig|Hsmall].
  { split; [done|]. exists d. split; [by left|done]. }
  destruct (Z.ltb_spec MAX_BLOB_PROBE_BYTES (probe_len (as_str <$> cur) org + probe_len [as_str d] [])) as [Hover|Hfits].
  - (* the open batch is cut before [d] *)
    specialize (IH (cut ++ cur) [d] (batches ++ [(length cut, length cut + length cur)])).
    assert (all = (cut ++ cur) ++ [d] ++ rest) as Eall by (unfold all; by rewrite <- app_assoc).
    assert (range_of all (length cut, length cut + length cur) = cur) as Er by (unfold all; apply (range_of_app cut cur (d :: rest))).
    assert (cur ≠ []) as Hne by (intros ->; cbn in Hover; lia).
    cbv zeta in IH. rewrite <- Eall in IH.
    replace (probe_len (as_str <$> [d]) org) with (probe_len [] org + probe_len [as_str d] [])%Z in IH by (cbn; rewrite (probe_len_cons _ [] org); lia).
    rewrite length_app in IH. cbn [length] in IH. rewrite Nat.add_1_r in IH.
    assert (match probe_loop (probe_len [] org) rest (S (length cut + length cur)) (length cut + length cur)
        (probe_len [] org + probe_len [as_str d] []) (batches ++ [(length cut, length cut + length cur)]) with
      | Ok (batches', start) => ∃ cut' cur', all = cut' ++ cur' ∧ start = length cut' ∧ (probe_len (as_str <$> cur') org ≤ MAX_BLOB_PROBE_BYTES)%Z ∧
          concat (range_of all <$> batches') = cut' ∧ Forall (λ r, batch_ok org (range_of all r)) batches'
      | Err e => kind e = KRejected ∧ ∃ d, d ∈ rest ∧ (MAX_BLOB_PROBE_BYTES < probe_len [] org + probe_len [as_str d] [])%Z
      end) as Hgo.
    { apply IH; [done|done|..].
      - rewrite fmap_app, concat_app, Hcat. cbn [fmap list_fmap concat]. rewrite Er. by rewrite app_nil_r.
      - apply Forall_app. split; [done|]. constructor; [|done]. by rewrite Er. }
    destruct (probe_loop _ rest _ _ _ _) as [[bs' st]|e]; [exact Hgo|]. destruct Hgo as [He (x & Hx & Hl)]. split; [done|]. exists x. split; [by right|done].
  - specialize (IH cut (cur ++ [d]) batches). assert (all = cut ++ (cur ++ [d]) ++ rest) as Eall by (unfold all; by rewrite <- app_assoc).
    cbv zeta in IH. rewrite <- Eall in IH. rewrite fmap_app in IH. cbn [fmap list_fmap] in IH. rewrite probe_len_snoc in IH.
    rewrite length_app in IH. cbn [length] in IH. rewrite Nat.add_1_r, Nat.add_succ_r in IH.
    specialize (IH ltac:(by destruct cur) Hfits Hcat Hok).
    destruct (probe_loop _ rest _ _ _ _) as [[bs' st]|e]; [exact IH|]. destruct IH as [He (x & Hx & Hl)]. split; [done|]. exists x. split; [by right|done].
Qed.

Lemma probe_batches_spec ds org :
  match probe_batches ds org with
  | Ok ranges => concat (range_of ds <$> ranges) = ds ∧ Forall (λ r, batch_ok org (range_of ds r)) ranges
  | Err e => kind e = KRejected ∧
      ((MAX_BLOB_PROBE_BYTES < probe_len [] org)%Z ∨ ∃ d, d ∈ ds ∧ (MAX_BLOB_PROBE_BYTES < probe_len [] org + probe_len [as_str d] [])%Z)
  end.
Proof.
  unfold probe_batches. destruct (Z.ltb_spec MAX_BLOB_PROBE_BYTES (probe_len [] org)) as [|Hbase]; [by split; [|left]|].
  pose proof (probe_loop_spec org ds [] [] [] Hbase ltac:(done) Hbase eq_refl ltac:(done)) as H. cbn in H.
  destruct (probe_loop _ ds 0 0 _ []) as [[batches start]|e]; cbn [mbind result_bind]; [|naive_solver].
  destruct H as (cut & cur & E & -> & Hlen & Hcat & Hok). case_bool_decide as Hlt.
  - rewrite fmap_app, concat_app, Hcat. cbn [fmap list_fmap concat]. rewrite E in Hlt |- *. rewrite length_app in Hlt |- *.
    pose proof (range_of_app cut cur []) as Er. rewrite app_nil_r in Er. rewrite Er, app_nil_r. split; [done|].
    rewrite E in Hok. apply Forall_app. split; [done|]. constructor; [|done]. rewrite Er. split; [|done]. intros ->. cbn in Hlt. lia.
  - rewrite E in Hlt. rewrite length_app in Hlt. assert (cur = []) as -> by (apply nil_length_inv; lia). rewrite app_nil_r in E. by rewrite Hcat.
Qed.
End batch_lemmas.

(** *** Frames *)

Lemma frames_rest fuel bytes offset : length bytes - offset < fuel → offset ≤ length bytes →
  let fs := frames_from fuel bytes offset None in
  concat (uf_data <$> fs) = drop offset bytes ∧
  Forall (λ f, uf_digest f = [] ∧ uf_org_id f = [] ∧ uf_data f ≠ [] ∧ length (uf_data f) ≤ UPLOAD_CHUNK_BYTES) fs ∧
  (∀ i f, fs !! i = Some f → S i < length fs → length (uf_data f) = UPLOAD_CHUNK_BYTES).
Proof.
  assert (0 < UPLOAD_CHUNK_BYTES) as Hpos by (unfold UPLOAD_CHUNK_BYTES; lia).
  revert offset. induction fuel as [|fuel IH]; intros offset Hf Ho; [lia|]. cbn [frames_from].
  destruct (Nat.eqb_spec offset (length bytes)) as [->|Hne].
  { cbn. rewrite drop_ge by lia. split_and!; [done|by constructor|done]. }
  set (e := Nat.min (offset + UPLOAD_CHUNK_BYTES) (length bytes)). destruct (IH e) as (Hc & Hall & Hfull); [lia|lia|].
  assert (length (take (e - offset) (drop offset bytes)) = e - offset) as Hl by (rewrite length_take, length_drop; lia).
  cbn [fmap list_fmap concat uf_data]. split_and!.
  - rewrite Hc. replace e with (offset + (e - offset)) at 2 by lia. rewrite <- drop_drop. apply take_drop.
  - constructor; [|done]. cbn. split_and!; [done..| |lia]. intros E. rewrite E in Hl. cbn in Hl. lia.
  - intros [|i] f Hi Hlt.
    + injection Hi as <-. cbn in Hlt |- *. rewrite Hl. destruct (decide (offset + UPLOAD_CHUNK_BYTES ≤ length bytes)); [lia|]. exfalso.
      assert (e = length bytes) as Ee by lia. destruct fuel as [|fuel]; cbn [frames_from length] in Hlt; [lia|].
      rewrite Ee, Nat.eqb_refl in Hlt. cbn in Hlt. lia.
    + cbn in Hi, Hlt. apply (Hfull i f Hi). lia.
Qed.

Lemma upload_frames_spec digest org bytes :
  let fs := upload_frames digest org bytes in
  concat (uf_data <$> fs) = bytes ∧
  (∃ f rest, fs = f :: rest ∧ uf_digest f = as_str digest ∧ uf_org_id f = org ∧
    Forall (λ f, uf_digest f = [] ∧ uf_org_id f = [] ∧ uf_data f ≠ []) rest) ∧
  Forall (λ f, length (uf_data f) ≤ UPLOAD_CHUNK_BYTES) fs.
Proof.
  unfold upload_frames. cbn [frames_from]. set (e := Nat.min (0 + UPLOAD_CHUNK_BYTES) (length bytes)).
  assert (0 < UPLOAD_CHUNK_BYTES) as Hpos by (unfold UPLOAD_CHUNK_BYTES; lia).
  destruct (decide (bytes = [])) as [->|Hne].
  { cbn. split; [done|]. split; [by eexists _, _|]. constructor; [cbn [uf_data]; rewrite length_take; cbn; lia|done]. }
  assert (0 < length bytes) by (destruct bytes; cbn; [done|lia]).
  destruct (frames_rest (length bytes) bytes e) as (Hc & Hall & _); [lia|lia|].
  cbn [fmap list_fmap concat uf_data]. rewrite Nat.sub_0_r, drop_0. split_and!.
  - rewrite Hc. apply take_drop.
  - eexists _, _. split; [reflexivity|]. split; [reflexivity|]. split; [reflexivity|]. eapply Forall_impl; [exact Hall|].
    intros f (H1 & H2 & H3 & _). auto.
  - constructor; [cbn [uf_data]; rewrite length_take; lia|]. eapply Forall_impl; [exact Hall|]. intros f (_ & _ & _ & H1). exact H1.
Qed.

(** *** Calls *)

Inductive blob_call := Probed (digests : list str) (org : str) (o : blob_rpc (list str)) | Put (frames : list UploadFrame) (o : blob_rpc Z).
#[export] Instance logged_blobs {W} {BW : BlobWorld W} : BlobWorld (W * list blob_call) := {|
  blob_bearer w := blob_bearer w.1;
  has_blobs_rpc w ds org := let '(w', o) := has_blobs_rpc w.1 ds org in ((w', w.2 ++ [Probed ds org o]), o);
  upload_rpc w fs := let '(w', o) := upload_rpc w.1 fs in ((w', w.2 ++ [Put fs o]), o);
  blob_refresh w presented := let '(w', o) := blob_refresh w.1 presented in ((w', w.2), o);
|}.

(** What a class of error says of the last answer of a call. *)
Definition kind_explained {A} (k : BlobStoreErrorKind) (o : blob_rpc A) : Prop :=
  match o with
  | BlobTimeout => k = KUnavailable
  | BlobFailed s => k = kind_for_status (status_code s) ∨ status_code s = Unauthenticated ∧ (k = KRejected ∨ k = KUnavailable)
  | BlobAnswer _ => False
  end.

Section call_lemmas.
Context {T : Tonic} {W : Type} {BW : BlobWorld W}.

(** A call that makes one logged attempt. *)
Definition one_attempt {A} (entry : blob_rpc A → blob_call) (call : W * list blob_call → (W * list blob_call) * result BlobCallFailure A) : Prop :=
  ∀ w w' r, call w = (w', r) → ∃ o, w'.2 = w.2 ++ [entry o] ∧
    (∀ a, r = Ok a ↔ o = BlobAnswer a) ∧
    (∀ f, r = Err f → match f with
                      | AuthFailure _ => ∃ s, o = BlobFailed s ∧ status_code s = Unauthenticated
                      | ClassifiedFailure k _ => kind_explained k o
                      end).

Lemma into_error_explained {A} f (o : blob_rpc A) :
  match f with AuthFailure _ => ∃ s, o = BlobFailed s ∧ status_code s = Unauthenticated | ClassifiedFailure k _ => kind_explained k o end →
  kind_explained (kind (into_error f)) o.
Proof. destruct f as [m|[] m]; cbn; try done. intros (s & -> & Hs). right. auto. Qed.

Lemma call_with_refresh_spec {A} (entry : blob_rpc A → blob_call) call w w' (r : result BlobStoreError A) :
  one_attempt entry call → call_with_refresh call w = (w', r) →
  ∃ o, (w'.2 = w.2 ++ [entry o] ∨ ∃ s, status_code s = Unauthenticated ∧ w'.2 = w.2 ++ [entry (BlobFailed s); entry o]) ∧
    (∀ a, r = Ok a ↔ o = BlobAnswer a) ∧ ∀ e, r = Err e → kind_explained (kind e) o.
Proof.
  intros Hcall H. unfold call_with_refresh in H. destruct (call w) as [w1 r1] eqn:E1. destruct (Hcall _ _ _ E1) as (o1 & Hl1 & Ho1 & Hf1).
  destruct r1 as [a|f].
  { simplify_eq. exists o1. split; [by left|]. split; [|done]. intros b. rewrite <- Ho1. naive_solver. }
  specialize (Hf1 f eq_refl). destruct f as [m|k m]; cbn [refresh_or_fail] in H.
  - destruct Hf1 as (s & -> & Hs). destruct (blob_refresh w1 (blob_bearer w)) as [w2 out] eqn:Er.
    assert (w2.2 = w1.2) as Hw2 by (cbn in Er; destruct (blob_refresh w1.1 _); by simplify_eq).
    destruct out as [| |reason|]; cbn [classify_refresh] in H.
    + destruct (call w2) as [w3 r3] eqn:E3. destruct (Hcall _ _ _ E3) as (o3 & Hl3 & Ho3 & Hf3). simplify_eq. exists o3. split.
      { right. exists s. split; [done|]. by rewrite Hl3, Hw2, Hl1, <- app_assoc. }
      split; [intros b; rewrite <- Ho3; destruct r3; naive_solver|]. intros e He. destruct r3 as [|f]; [done|]. injection He as <-.
      apply into_error_explained. by apply Hf3.
    + simplify_eq. exists (BlobFailed s). split; [left; by rewrite Hw2|]. split; [done|]. intros e [= <-]. right. cbn. auto.
    + simplify_eq. exists (BlobFailed s). split; [left; by rewrite Hw2|]. split; [done|]. intros e [= <-]. right. cbn. auto.
    + simplify_eq. exists (BlobFailed s). split; [left; by rewrite Hw2|]. split; [done|]. intros e [= <-]. right. cbn. auto.
  - simplify_eq. exists o1. split; [by left|]. split; [intros b; rewrite <- Ho1; naive_solver|]. intros e [= <-]. by apply (into_error_explained (ClassifiedFailure k m)).
Qed.

Lemma from_status_explained {A} s m (o : blob_rpc A) : o = BlobFailed s →
  match from_status s m with AuthFailure _ => ∃ s, o = BlobFailed s ∧ status_code s = Unauthenticated | ClassifiedFailure k _ => kind_explained k o end.
Proof. intros ->. unfold from_status. case_bool_decide; [by eexists|by left]. Qed.

Lemma has_blobs_attempt tenant ds : one_attempt (Probed (as_str <$> ds) (tenant_wire_value tenant)) (λ w, has_blobs_once tenant w ds).
Proof.
  intros [w log] w' r. unfold has_blobs_once. cbn. destruct (has_blobs_rpc w _ _) as [w1 [|s|a]]; intros [= <- <-]; eexists; (split; [done|]); split.
  all: try naive_solver. intros f [= <-]. by apply from_status_explained.
Qed.
Lemma upload_attempt tenant d bytes : one_attempt (Put (upload_frames d (tenant_wire_value tenant) bytes)) (λ w, upload_once tenant w d bytes).
Proof.
  intros [w log] w' r. unfold upload_once. cbn -[upload_frames]. destruct (upload_rpc w _) as [w1 [|s|a]]; intros [= <- <-]; eexists; (split; [done|]); split.
  all: try naive_solver. intros f [= <-]. by apply from_status_explained.
Qed.
End call_lemmas.

Lemma requested_digest_Ok escape ds raw d : requested_digest escape ds raw = Ok d → as_str d = raw ∧ d ∈ ds.
Proof.
  unfold requested_digest. destruct (list_find _ _) as [[i x]|] eqn:E; cbn; [|done]. intros [= <-].
  apply list_find_Some in E as (Hi & Hx & _). split; [done|]. apply list_elem_of_lookup_2 in Hi. exact (proj1 (elem_of_reverse _ _) Hi).
Qed.
Lemma requested_digests_Ok escape ds raws m : requested_digests escape ds raws = Ok m → as_str <$> m = raws ∧ Forall (λ d, d ∈ ds) m.
Proof.
  revert m. induction raws as [|raw raws IH]; intros m; cbn [requested_digests]; [by intros [= <-]|].
  destruct (requested_digest escape ds raw) as [d|] eqn:E; [|done]. cbn [mbind result_bind].
  destruct (requested_digests escape ds raws) as [m'|]; [|done]. cbn [mbind result_bind]. intros [= <-].
  apply requested_digest_Ok in E as [<- Hd]. destruct (IH _ eq_refl) as [<- Hm]. split; [done|by constructor].
Qed.

Section probing.
Context {T : Tonic} {PL : ProbeLen} {W : Type} {BW : BlobWorld W} (tenant_id : option str).
Abbreviation org := (tenant_wire_value tenant_id).

(** A probe for one of the ranges. *)
Definition probes_range (ds : list PayloadDigest) (ranges : list (nat * nat)) (c : blob_call) : Prop :=
  ∃ r o, r ∈ ranges ∧ c = Probed (as_str <$> range_of ds r) org o.

Lemma probe_all_spec (w : W * list blob_call) ds ranges missing w' r : probe_all tenant_id w ds ranges missing = (w', r) →
  ∃ new, w'.2 = w.2 ++ new ∧ Forall (probes_range ds ranges) new ∧
    ∀ m, r = Ok m → ∃ answers, m = missing ++ concat answers ∧
      Forall2 (λ rg a, Probed (as_str <$> range_of ds rg) org (BlobAnswer a) ∈ new) ranges answers.
Proof.
  revert w missing. induction ranges as [|rg ranges IH]; intros w missing H; cbn [probe_all] in H.
  { simplify_eq. exists []. rewrite app_nil_r. split; [done|]. split; [done|]. intros m [= <-]. exists []. by rewrite app_nil_r. }
  destruct (call_with_refresh _ w) as [w1 r1] eqn:E.
  destruct (call_with_refresh_spec _ _ _ _ _ (has_blobs_attempt tenant_id (range_of ds rg)) E) as (o & Hlog & Ho & _).
  assert (∃ new1, w1.2 = w.2 ++ new1 ∧ Forall (probes_range ds (rg :: ranges)) new1 ∧ Probed (as_str <$> range_of ds rg) org o ∈ new1)
    as (new1 & Hl1 & Hp1 & Hin).
  { destruct Hlog as [Hl|(s & _ & Hl)]; eexists; (split; [exact Hl|]); (split; [repeat constructor; eexists _, _; (split; [by left|done])|]).
    - by left.
    - right. by left. }
  destruct r1 as [more|e].
  - destruct (IH w1 _ H) as (new2 & Hl2 & Hp2 & Hm). exists (new1 ++ new2). split; [by rewrite Hl2, Hl1, <- app_assoc|]. split.
    { apply Forall_app. split; [done|]. eapply Forall_impl; [exact Hp2|]. intros c (r' & o' & Hr & ->). exists r', o'. split; [by right|done]. }
    intros m ->. destruct (Hm m eq_refl) as (answers & -> & Hf). exists (more :: answers). cbn [concat]. rewrite <- app_assoc. split; [done|].
    constructor.
    + apply elem_of_app. left. by rewrite (proj1 (Ho more) eq_refl) in Hin.
    + eapply Forall2_impl; [exact Hf|]. intros ? ? Hx. apply elem_of_app. by right.
  - simplify_eq. exists new1. split; [done|]. by split.
Qed.
End probing.

(** ** Properties *)

(** Probing for missing blobs.  The digests asked about are cut into
    batches that cover them in order, each within the gateway's 64 KiB frame;
    every probe made is for one of these batches.  The digests reported missing
    are then exactly what the answered probes named, batch by batch, and all of
    them were asked about: a gateway that names another digest makes the probe
    fail.  Where no batching is possible no call is made. *)
Theorem blob_probe_exact {T : Tonic} {PL : ProbeLen} {LL : ProbeLenLaws} {W : Type} {BW : BlobWorld W} (tenant_id : option str)
    (escape_debug : str → str) (w : W) (log : list blob_call) (digests : list PayloadDigest) (w' : W * list blob_call)
    (r : result BlobStoreError (list PayloadDigest)) :
  grpc_find_missing tenant_id escape_debug (w, log) digests = (w', r) →
  ∃ batches calls, w'.2 = log ++ calls ∧ Forall (batch_ok (tenant_wire_value tenant_id)) batches ∧
    Forall (λ c, ∃ b o, b ∈ batches ∧ c = Probed (as_str <$> b) (tenant_wire_value tenant_id) o) calls ∧
    (∀ missing, r = Ok missing → concat batches = digests ∧
      ∃ answers, Forall2 (λ b a, Probed (as_str <$> b) (tenant_wire_value tenant_id) (BlobAnswer a) ∈ calls) batches answers ∧
        as_str <$> missing = concat answers ∧ ∀ d, d ∈ missing → d ∈ digests) ∧
    (calls = [] → digests = [] ∨ ∃ e, r = Err e ∧ kind e = KRejected).
Proof.
  intros H. unfold grpc_find_missing in H. case_bool_decide as Hd.
  { simplify_eq. exists [], []. rewrite app_nil_r. split_and!; try done; [|by left]. intros missing [= <-]. split; [done|]. exists []. by split_and!. }
  pose proof (probe_batches_spec digests (tenant_wire_value tenant_id)) as Hb. destruct (probe_batches digests _) as [ranges|e].
  2:{ simplify_eq. exists [], []. rewrite app_nil_r. split_and!; try done. intros _. right. eexists. split; [done|apply Hb]. }
  destruct Hb as [Hcat Hok]. destruct (probe_all tenant_id (w, log) digests ranges []) as [w1 r1] eqn:E.
  destruct (probe_all_spec _ _ _ _ _ _ _ E) as (new & Hlog & Hprobes & Hans). simplify_eq. cbn in Hlog.
  exists (range_of digests <$> ranges), new. split; [done|]. split; [by apply Forall_fmap|]. split; [|split].
  - eapply Forall_impl; [exact Hprobes|]. intros c (rg & o & Hin & ->). exists (range_of digests rg), o. split; [|done]. by apply list_elem_of_fmap_2.
  - intros missing Hm. split; [done|]. destruct r1 as [raws|]; [|done]. cbn [mbind result_bind] in Hm.
    destruct (requested_digests_Ok _ _ _ _ Hm) as [Ht Hin]. destruct (Hans raws eq_refl) as (answers & -> & Hf). exists answers. split_and!.
    + by apply Forall2_fmap_l.
    + done.
    + by apply Forall_forall.
  - intros ->. destruct r1 as [raws|e].
    + destruct (Hans raws eq_refl) as (answers & -> & Hf). left. destruct Hf as [|rg a rgs as' Hin _]; [done|]. by apply elem_of_nil in Hin.
    + exfalso. destruct ranges as [|rg ranges]; [by injection E|]. cbn [probe_all] in E.
      destruct (call_with_refresh _ (w, log)) as [w2 r2] eqn:E2.
      destruct (call_with_refresh_spec _ _ _ _ _ (has_blobs_attempt tenant_id (range_of digests rg)) E2) as (o & Hl2 & _).
      assert (length (w2.2) ≤ length (w'.2)) as Hle.
      { destruct r2 as [more|]; [|by simplify_eq]. destruct (probe_all_spec _ _ _ _ _ _ _ E) as (new2 & -> & _). rewrite length_app. lia. }
      rewrite Hlog, app_nil_r in Hle. cbn in Hl2. destruct Hl2 as [E3|(s & _ & E3)]; rewrite E3, length_app in Hle; cbn in Hle; lia.
Qed.

(** Uploading a blob.  A blob over the cap makes no call and is rejected.
    Any other is sent once, or once more after a refused credential, as frames
    of at most 24 KiB whose data is the blob, the first carrying the digest and
    the tenant; the upload succeeds exactly when the last answer says that all
    its bytes are stored, and an error's class is that of the last answer. *)
Theorem blob_upload_exact {T : Tonic} {W : Type} {BW : BlobWorld W} (tenant_id : option str) (w : W) (log : list blob_call)
    (digest : PayloadDigest) (bytes : str) (w' : W * list blob_call) (r : result BlobStoreError unit) :
  grpc_upload tenant_id (w, log) digest bytes = (w', r) →
  let fs := upload_frames digest (tenant_wire_value tenant_id) bytes in
  (concat (uf_data <$> fs) = bytes ∧
   (∃ f rest, fs = f :: rest ∧ uf_digest f = as_str digest ∧ uf_org_id f = tenant_wire_value tenant_id ∧
     Forall (λ f, uf_digest f = [] ∧ uf_org_id f = [] ∧ uf_data f ≠ []) rest) ∧
   Forall (λ f, length (uf_data f) ≤ UPLOAD_CHUNK_BYTES) fs) ∧
  ((MAX_UPLOAD_BLOB_BYTES < Z.of_nat (length bytes))%Z → w' = (w, log) ∧ ∃ e, r = Err e ∧ kind e = KRejected) ∧
  ((Z.of_nat (length bytes) ≤ MAX_UPLOAD_BLOB_BYTES)%Z → ∃ o,
    (w'.2 = log ++ [Put fs o] ∨ ∃ s, status_code s = Unauthenticated ∧ w'.2 = log ++ [Put fs (BlobFailed s); Put fs o]) ∧
    (r = Ok () ↔ o = BlobAnswer (Z.of_nat (length bytes))) ∧
    ∀ e, r = Err e → kind_explained (kind e) o ∨ kind e = KRejected ∧ ∃ n, o = BlobAnswer n ∧ n ≠ Z.of_nat (length bytes)).
Proof.
  intros H fs. split; [apply upload_frames_spec|]. unfold grpc_upload in H. destruct (Z.ltb_spec MAX_UPLOAD_BLOB_BYTES (Z.of_nat (length bytes))) as [Hbig|Hok].
  { simplify_eq. split; [intros _; split; [done|by eexists]|lia]. }
  split; [lia|intros _]. destruct (call_with_refresh _ (w, log)) as [w1 r1] eqn:E.
  destruct (call_with_refresh_spec _ _ _ _ _ (upload_attempt tenant_id digest bytes) E) as (o & Hlog & Ho & He). fold fs in Hlog. cbn in Hlog.
  exists o. destruct r1 as [stored|e]; simplify_eq.
  - split; [done|]. pose proof (proj1 (Ho stored) eq_refl) as ->. destruct (Z.eqb_spec stored (Z.of_nat (length bytes))) as [->|Hne].
    + split; [done|]. intros e Hx. discriminate Hx.
    + split; [split; [intros Hx; discriminate Hx|intros [= ->]; by destruct Hne]|]. intros e Hx. injection Hx as <-. right. split; [reflexivity|].
      by exists stored.
  - split; [done|]. split; [split; [done|]; intros Hx; by apply Ho in Hx|]. intros e' [= <-]. left. by apply He.
Qed.

(** *** Witnesses *)

Section witnesses.
#[local] Instance plain_tonic : Tonic := {| code_description _ := bs "description"; metadata_parse := Some; metadata_to_str := Some |}.
(** A length with a two-byte header per field. *)
#[local] Instance short_len : ProbeLen := λ ds org,
  (foldr (λ d n, 2 + Z.of_nat (length d) + n) 0 ds + (if bool_decide (org = []) then 0 else 2 + Z.of_nat (length org)))%Z.
#[local] Instance short_len_laws : ProbeLenLaws.
Proof.
  split.
  - intros ds org. unfold probe_len, short_len. assert (0 ≤ foldr (λ (d : str) n, 2 + Z.of_nat (length d) + n) 0 ds)%Z by (induction ds; cbn; lia).
    case_bool_decide; lia.
  - intros d ds org. unfold probe_len, short_len. cbn. lia.
Qed.

(** A gateway that refuses the first bearer, misses the second digest, and
    stores what it is sent. *)
#[local] Instance sample_gateway : BlobWorld nat := {|
  blob_bearer n := Some [byte_of_Z (Z.of_nat n)];
  has_blobs_rpc n ds _ := (n, if Nat.eqb n 0 then BlobFailed (mkStatus Unauthenticated (bs "expired") []) else BlobAnswer (drop 1 ds));
  upload_rpc n fs := (n, BlobAnswer (Z.of_nat (length (concat (uf_data <$> fs)))));
  blob_refresh n _ := (S n, Refreshed);
|}.
Definition two_digests : list PayloadDigest := mkText <$> [bs "blake3:a"; bs "blake3:b"].

Lemma blob_probe_exact_witness : ∃ w', grpc_find_missing None (λ s, s) (0, []) two_digests = (w', Ok [mkText (bs "blake3:b")]) ∧
  ∀ d, d ∈ [@mkText PayloadDigestK (bs "blake3:b")] → d ∈ two_digests.
Proof.
  destruct (grpc_find_missing None (λ s, s) (0, []) two_digests) as [w' r] eqn:E.
  destruct (blob_probe_exact None (λ s, s) 0 [] two_digests w' r E) as (batches & calls & _ & _ & _ & Hm & _).
  assert (r = Ok [mkText (bs "blake3:b")]) as -> by (replace r with (grpc_find_missing None (λ s, s) (0, []) two_digests).2 by (by rewrite E); vm_compute; reflexivity).
  exists w'. split; [reflexivity|]. destruct (Hm _ eq_refl) as (_ & answers & _ & _ & Hin). exact Hin.
Defined.

Lemma blob_upload_exact_witness : ∃ w', grpc_upload None (0, []) (mkText (bs "blake3:a")) (bs "body") = (w', Ok ()).
Proof.
  destruct (grpc_upload None (0, []) (mkText (bs "blake3:a")) (bs "body")) as [w' r] eqn:E.
  destruct (blob_upload_exact None 0 [] (mkText (bs "blake3:a")) (bs "body") w' r E) as (_ & _ & H).
  destruct (H ltac:(vm_compute; discriminate)) as (o & _ & Hok & _). exists w'. f_equal. apply Hok.
  assert (r = Ok ()) as Hr by (replace r with (grpc_upload None (0, []) (mkText (bs "blake3:a")) (bs "body")).2 by (by rewrite E); vm_compute; reflexivity).
  by apply Hok.
Defined.
End witnesses.
