(* ===== verification/Programs.v ===== *)
(** * Programs over system calls

    Code that is a sequence of calls to the system (sockets, tools, files,
    processes, the messages of a control channel) is a program: a tree whose
    nodes are calls and whose branches are the answers.  [runs] relates a
    program to its logs, whatever the answers are: a complete run has a result,
    and a run that stopped on the way (the process was killed, or a call never
    answered) has none.  [exec] runs a program against an environment, a
    function from the calls made so far to the next answer; witnesses evaluate
    it.  A loop of the code takes a number of turns, and has no result when
    these are used up ([Unfinished]). *)
From S2P Require Import Prelude.

(** A future under [time::timeout]. *)
Inductive timed (A : Type) := InTime (a : A) | Elapsed.
Arguments InTime {A} a.
Arguments Elapsed {A}.

Section programs.
Context {call : Type} {answer : call → Type}.

Inductive prog (A : Type) : Type :=
| Ret (a : A)
| Unfinished
| Call (c : call) (k : answer c → prog A).
Arguments Ret {A} a.
Arguments Unfinished {A}.
Arguments Call {A} c k.

Record entry := mkEntry { en_call : call; en_answer : answer en_call }.

Fixpoint pbind {A B} (f : A → prog B) (p : prog A) : prog B :=
  match p with Ret a => f a | Unfinished => Unfinished | Call c k => Call c (λ r, pbind f (k r)) end.

(** One call, and [?] on a program that can fail. *)
Definition perform (c : call) : prog (answer c) := Call c Ret.
Definition ptry {E A B} (p : prog (result E A)) (f : A → prog (result E B)) : prog (result E B) :=
  pbind (λ r, match r with Ok a => f a | Err e => Ret (Err e) end) p.
Definition pmap_err {E F A} (f : E → F) (p : prog (result E A)) : prog (result F A) := pbind (λ r, Ret (map_err f r)) p.

(** [for x in l { f(x)? }] *)
Fixpoint pfor {E A} (l : list A) (f : A → prog (result E unit)) : prog (result E unit) :=
  match l with [] => Ret (Ok tt) | x :: l => ptry (f x) (λ _, pfor l f) end.

Fixpoint runs {A} (p : prog A) (log : list entry) (o : option A) : Prop :=
  match p with
  | Ret a => log = [] ∧ (o = None ∨ o = Some a)
  | Unfinished => log = [] ∧ o = None
  | Call c k => (log = [] ∧ o = None) ∨ ∃ r rest, log = mkEntry c r :: rest ∧ runs (k r) rest o
  end.

Fixpoint exec {A} (env : list entry → ∀ c, answer c) (before : list entry) (p : prog A) : list entry * option A :=
  match p with
  | Ret a => ([], Some a)
  | Unfinished => ([], None)
  | Call c k =>
      let r := env before c in
      let '(rest, o) := exec env (before ++ [mkEntry c r]) (k r) in
      (mkEntry c r :: rest, o)
  end.

Lemma exec_runs {A} env before (p : prog A) log o : exec env before p = (log, o) → runs p log o.
Proof.
  revert before log. induction p as [b| |c k IH]; intros before log; simpl; [intros [= <- <-]; auto..|].
  destruct (exec env _ (k _)) as [rest b] eqn:Hx. intros [= <- <-]. right. eauto.
Qed.

Lemma exec_entries {A} env (P : entry → Prop) before (p : prog A) :
  (∀ before c, P (mkEntry c (env before c))) → Forall P (exec env before p).1.
Proof.
  intros HP. revert before. induction p as [b| |c k IH]; intros before; simpl; [constructor..|].
  specialize (IH (env before c) (before ++ [mkEntry c (env before c)])). destruct (exec env _ (k _)) as [rest o]. by constructor.
Qed.

Lemma runs_pbind {A B} (p : prog A) (f : A → prog B) log o :
  runs (pbind f p) log o ↔
  (o = None ∧ runs p log None) ∨ ∃ l1 a l2, log = l1 ++ l2 ∧ runs p l1 (Some a) ∧ runs (f a) l2 o.
Proof.
  revert log. induction p as [a| |c k IH]; intros log; simpl.
  - split.
    + intros H. right. exists [], a, log. auto.
    + intros [(-> & -> & _)|(l1 & a' & l2 & -> & (-> & [Hd|[= ->]]) & Hrest)]; [|done..].
      by destruct (f a); simpl; auto.
  - split; [by intros [-> ->]; auto|]. by intros [(-> & -> & _)|(l1 & a & l2 & _ & (_ & [=]) & _)].
  - split.
    + intros [[-> ->]|(r & rest & -> & [[-> H0]|(l1 & a & l2 & -> & H1 & H2)]%IH)]; [by auto|left; eauto 6|].
      right. exists (mkEntry c r :: l1), a, l2. split; [done|]. split; [right; eauto|done].
    + intros [(-> & [[-> _]|(r & rest & -> & H)])|(l1 & a & l2 & -> & [[_ [=]]|(r & rest & -> & H1)] & H2)]; [by auto| |].
      * right. exists r, rest. split; [done|]. apply IH. by left.
      * right. exists r, (rest ++ l2). split; [done|]. apply IH. right. by exists rest, a, l2.
Qed.

Lemma runs_perform c log o :
  runs (perform c) log o ↔ (log = [] ∧ o = None) ∨ ∃ r, log = [mkEntry c r] ∧ (o = None ∨ o = Some r).
Proof.
  simpl. split.
  - intros [?|(r & rest & -> & -> & Ho)]; [by left|]. right. eauto.
  - intros [?|(r & -> & Ho)]; [by left|]. right. exists r, []. auto.
Qed.

Lemma runs_ptry {E A B} (p : prog (result E A)) (f : A → prog (result E B)) log o :
  runs (ptry p f) log o ↔
  (o = None ∧ runs p log None) ∨
  (∃ e, runs p log (Some (Err e)) ∧ (o = None ∨ o = Some (Err e))) ∨
  (∃ l1 a l2, log = l1 ++ l2 ∧ runs p l1 (Some (Ok a)) ∧ runs (f a) l2 o).
Proof.
  unfold ptry. rewrite runs_pbind. split.
  - intros [?|(l1 & [a|e] & l2 & -> & H1 & H2)]; [by auto|right; right; eauto 10|].
    right. left. destruct H2 as [-> Ho]. rewrite app_nil_r. eauto.
  - intros [?|[(e & H1 & Ho)|(l1 & a & l2 & -> & H1 & H2)]]; [by auto| |].
    + right. exists log, (Err e), []. rewrite app_nil_r. done.
    + right. eauto 10.
Qed.

Lemma runs_pmap_err {E F A} (f : E → F) (p : prog (result E A)) log o :
  runs (pmap_err f p) log o → o = None ∧ runs p log None ∨ ∃ r, runs p log (Some r) ∧ (o = None ∨ o = Some (map_err f r)).
Proof.
  unfold pmap_err. rewrite runs_pbind. intros [?|(l1 & a & l2 & -> & H1 & -> & Ho)]; [by auto|].
  rewrite app_nil_r. right. eauto.
Qed.

(** A program after some of its calls. *)
Inductive reaches {A} (p : prog A) : list entry → prog A → Prop :=
| reach_start : reaches p [] p
| reach_call log c k r : reaches p log (Call c k) → reaches p (log ++ [mkEntry c r]) (k r).

Lemma reaches_runs {A} (p q : prog A) log rest o : reaches p log q → runs q rest o → runs p (log ++ rest) o.
Proof.
  intros H. revert rest. induction H as [|log c k r _ IH]; intros rest Hr; [done|].
  rewrite <- app_assoc. apply IH. right. by exists r, rest.
Qed.
Lemma runs_empty {A} (p : prog A) : runs p [] None.
Proof. destruct p; simpl; auto. Qed.

(** ** What a log shows

    [shows es log]: entries that satisfy the predicates [es] occur in [log], in
    this order.  [entails es fs] ([es ⊑ₑ fs]): whatever log shows [es] shows [fs]. *)
Inductive shows : list (entry → Prop) → list entry → Prop :=
| shows_nil log : shows [] log
| shows_skip es e log : shows es log → shows es (e :: log)
| shows_take (P : entry → Prop) es e log : P e → shows es log → shows (P :: es) (e :: log).

Definition entails (es fs : list (entry → Prop)) : Prop := ∀ log, shows es log → shows fs log.

Lemma shows_app es fs l1 l2 : shows es l1 → shows fs l2 → shows (es ++ fs) (l1 ++ l2).
Proof.
  intros H1 H2. induction H1 as [log|es e log _ IH|P es e log HP _ IH]; simpl.
  - induction log; simpl; [done|by constructor].
  - by constructor.
  - by constructor.
Qed.

Lemma shows_app_inv es fs log : shows (es ++ fs) log → ∃ l1 l2, log = l1 ++ l2 ∧ shows es l1 ∧ shows fs l2.
Proof.
  intros H. remember (es ++ fs) as gs eqn:Hgs. revert es Hgs.
  induction H as [log|gs e log Hs IH|P gs e log HP Hs IH]; intros es Hgs.
  - symmetry in Hgs. apply app_eq_nil in Hgs as [-> ->]. exists [], log. split_and!; [done|constructor..].
  - destruct (IH es Hgs) as (l1 & l2 & -> & H1 & H2). exists (e :: l1), l2. split_and!; [done|by constructor|done].
  - destruct es as [|Q es]; simplify_eq/=.
    + exists [], (e :: log). split_and!; [done|constructor|by constructor].
    + destruct (IH es eq_refl) as (l1 & l2 & -> & H1 & H2). exists (e :: l1), l2. split_and!; [done|by constructor|done].
Qed.

Lemma shows_one (P : entry → Prop) e : P e → shows [P] [e].
Proof. intros. by repeat constructor. Qed.

Lemma shows_elem es log P : shows es log → P ∈ es → ∃ e, e ∈ log ∧ P e.
Proof.
  intros H. induction H as [log|es e log _ IH|Q es e log HQ _ IH]; intros HP.
  - by apply not_elem_of_nil in HP.
  - destruct (IH HP) as (e' & He' & Hp). exists e'. split; [by right|done].
  - apply elem_of_cons in HP as [->|HP]; [exists e; split; [left|done]|].
    destruct (IH HP) as (e' & He' & Hp). exists e'. split; [by right|done].
Qed.

#[export] Instance entails_preorder : PreOrder entails.
Proof. split; [by intros es log|]. intros es fs gs H1 H2 log H. auto. Qed.

Lemma entails_nil es : entails es [].
Proof. intros log _. constructor. Qed.
Lemma entails_app es fs es' fs' : entails es fs → entails es' fs' → entails (es ++ es') (fs ++ fs').
Proof. intros H1 H2 log (l1 & l2 & -> & ? & ?)%shows_app_inv. apply shows_app; auto. Qed.
Lemma shows_skip_all es l1 l2 : shows es l2 → shows es (l1 ++ l2).
Proof. intros H. apply (shows_app []); [constructor|done]. Qed.
Lemma shows_extend es l1 l2 : shows es l1 → shows es (l1 ++ l2).
Proof. intros H. rewrite <- (app_nil_r es). apply shows_app; [done|constructor]. Qed.
Lemma entails_skip (P : entry → Prop) es fs : entails es fs → entails (P :: es) fs.
Proof.
  intros H log Hs. apply (shows_app_inv [P]) in Hs as (l1 & l2 & -> & _ & ?). apply shows_skip_all. auto.
Qed.
Lemma entails_later l es fs : entails es fs → entails (l ++ es) fs.
Proof. apply (entails_app l [] es), entails_nil. Qed.
Lemma entails_first l es fs : entails es fs → entails (es ++ l) fs.
Proof. intros H. rewrite <- (app_nil_r fs). apply entails_app; [done|apply entails_nil]. Qed.
Lemma entails_take (P Q : entry → Prop) es fs : (∀ e, P e → Q e) → entails es fs → entails (P :: es) (Q :: fs).
Proof.
  intros HPQ H log Hs. remember (P :: es) as gs eqn:Hgs. revert Hgs.
  induction Hs as [log|gs e log Hs IH|R gs e log HR Hs IH]; intros Hgs; simplify_eq; [by apply shows_skip; auto|by apply shows_take; auto].
Qed.

(** ** Specifications

    [wp P p Φ]: no entry of a run of [p] satisfies [P], and a complete run with
    result [a] shows some [es] with [Φ es a].  [located P p R]: before an entry
    that satisfies [P], a run of [p] shows some [es] that [R] accepts for it. *)
Definition wp {A} (P : entry → Prop) (p : prog A) (Φ : list (entry → Prop) → A → Prop) : Prop :=
  ∀ log o, runs p log o → Forall (λ e, ¬ P e) log ∧ ∀ a, o = Some a → ∃ es, shows es log ∧ Φ es a.
Definition located {A} (P : entry → Prop) (p : prog A) (R : list (entry → Prop) → entry → Prop) : Prop :=
  ∀ log o, runs p log o → ∀ pre s post, log = pre ++ s :: post → P s → ∃ es, shows es pre ∧ R es s.

Section rules.
Context (P : entry → Prop).

Lemma wp_mono {A} (p : prog A) Φ Ψ : wp P p Φ → (∀ es a, Φ es a → Ψ es a) → wp P p Ψ.
Proof.
  intros Hp HΦ log o Hr. destruct (Hp _ _ Hr) as [? Hs]. split; [done|].
  intros a ->. destruct (Hs a eq_refl) as (es & ? & ?). eauto.
Qed.
Lemma wp_ret {A} (a : A) Φ : Φ [] a → wp P (Ret a) Φ.
Proof. intros H log o [-> Ho]. split; [done|]. intros b ->. destruct Ho as [|[= ->]]; [done|]. exists []. split; [constructor|done]. Qed.
Lemma wp_unfinished {A} Φ : wp P (Unfinished (A := A)) Φ.
Proof. by intros log o [-> ->]. Qed.
Lemma wp_Call {A} c (k : answer c → prog A) Φ :
  (∀ r, ¬ P (mkEntry c r)) → (∀ r, wp P (k r) (λ es a, Φ (eq (mkEntry c r) :: es) a)) → wp P (Call c k) Φ.
Proof.
  intros HP Hk log o [[-> ->]|(r & rest & -> & Hr)]; [done|]. destruct (Hk r _ _ Hr) as [Hno Hs].
  split; [by constructor|]. intros a ->. destruct (Hs a eq_refl) as (es & ? & ?).
  exists (eq (mkEntry c r) :: es). split; [by constructor|done].
Qed.
Lemma wp_perform c Φ : (∀ r, ¬ P (mkEntry c r)) → (∀ r, Φ [eq (mkEntry c r)] r) → wp P (perform c) Φ.
Proof. intros HP HΦ. apply wp_Call; [done|]. intros r. by apply wp_ret. Qed.
Lemma wp_pbind {A B} (p : prog A) (f : A → prog B) Φ :
  wp P p (λ es a, wp P (f a) (λ es' b, Φ (es ++ es') b)) → wp P (pbind f p) Φ.
Proof.
  intros Hp log o [(-> & H1)|(l1 & a & l2 & -> & H1 & H2)]%runs_pbind; [split; [by eapply Hp|done]|].
  destruct (Hp _ _ H1) as [Hno1 Hs1]. destruct (Hs1 a eq_refl) as (es & Hs & Hf).
  destruct (Hf _ _ H2) as [Hno2 Hs2]. split; [by apply Forall_app|].
  intros b ->. destruct (Hs2 b eq_refl) as (es' & Hs' & ?). exists (es ++ es'). split; [by apply shows_app|done].
Qed.
Lemma wp_ptry {E A B} (p : prog (result E A)) (f : A → prog (result E B)) Φ :
  wp P p (λ es r, match r with Ok a => wp P (f a) (λ es' b, Φ (es ++ es') b) | Err e => Φ es (Err e) end) →
  wp P (ptry p f) Φ.
Proof.
  intros Hp. apply wp_pbind. eapply wp_mono; [exact Hp|]. intros es [a|e] H; [done|].
  apply wp_ret. by rewrite app_nil_r.
Qed.
Lemma wp_pmap_err {E F A} (g : E → F) (p : prog (result E A)) Φ :
  wp P p (λ es r, Φ es (map_err g r)) → wp P (pmap_err g p) Φ.
Proof.
  intros Hp. apply wp_pbind. eapply wp_mono; [exact Hp|]. intros es r H. apply wp_ret. by rewrite app_nil_r.
Qed.
Lemma wp_pfor {E A} (l : list A) (f : A → prog (result E unit)) (G : A → list (entry → Prop)) :
  (∀ x, x ∈ l → wp P (f x) (λ es r, r = Ok tt → entails es (G x))) →
  wp P (pfor l f) (λ es r, r = Ok tt → entails es (concat (G <$> l))).
Proof.
  induction l as [|x l IH]; intros Hf; simpl; [apply wp_ret; by intros _|].
  apply wp_ptry. eapply wp_mono; [apply Hf; left|]. intros es [[]|e] Hx; [|done].
  eapply wp_mono; [apply IH; intros y Hy; apply Hf; by right|].
  intros es' r Hr ->. apply entails_app; auto.
Qed.

Lemma located_quiet {A} (p : prog A) R Φ : wp P p Φ → located P p R.
Proof.
  intros Hp log o Hr pre s post -> HP. destruct (Hp _ _ Hr) as [Hno _].
  apply Forall_app in Hno as [_ Hno]. by inversion Hno.
Qed.
Lemma located_mono {A} (p : prog A) (R R' : list (entry → Prop) → entry → Prop) :
  located P p R → (∀ es s, R es s → R' es s) → located P p R'.
Proof. intros Hp HR log o Hr pre s post Hl HP. destruct (Hp _ _ Hr _ _ _ Hl HP) as (es & ? & ?). eauto. Qed.

(** An entry of the second part of a log, when the first part has none. *)
Lemma located_split l1 l2 pre s post : l1 ++ l2 = pre ++ s :: post → P s → Forall (λ e, ¬ P e) l1 →
  ∃ pre', pre = l1 ++ pre' ∧ l2 = pre' ++ s :: post.
Proof.
  intros Heq HP Hno. apply app_eq_app in Heq as [k [[-> Hk]|[-> Hk]]].
  - destruct k as [|e k]; [|by simplify_eq/=; apply Forall_app in Hno as [_ Hno]; inversion Hno].
    exists []. rewrite !app_nil_r. split; [done|]. by symmetry.
  - eauto.
Qed.

Lemma located_pbind {A B} (p : prog A) (f : A → prog B) R :
  wp P p (λ es a, located P (f a) (λ es' s, R (es ++ es') s)) → located P (pbind f p) R.
Proof.
  intros Hp log o [(-> & H1)|(l1 & a & l2 & -> & H1 & H2)]%runs_pbind pre s post Heq HP.
  - destruct (Hp _ _ H1) as [Hno _]. subst log. apply Forall_app in Hno as [_ Hno]. by inversion Hno.
  - destruct (Hp _ _ H1) as [Hno Hs]. destruct (Hs a eq_refl) as (es & Hsh & Hf).
    destruct (located_split _ _ _ _ _ Heq HP Hno) as (pre' & -> & ->).
    destruct (Hf _ _ H2 _ _ _ eq_refl HP) as (es' & ? & ?). exists (es ++ es'). split; [by apply shows_app|done].
Qed.
Lemma located_ptry {E A B} (p : prog (result E A)) (f : A → prog (result E B)) R :
  wp P p (λ es r, match r with Ok a => located P (f a) (λ es' s, R (es ++ es') s) | Err _ => True end) →
  located P (ptry p f) R.
Proof.
  intros Hp. apply located_pbind. eapply wp_mono; [exact Hp|]. intros es [a|e] H; [done|].
  eapply located_quiet, (wp_ret _ (λ _ _, True)). done.
Qed.
(** Both parts may have such entries. *)
Lemma located_both {A B} (p : prog A) (f : A → prog B) R :
  located P p R →
  (∀ log a, runs p log (Some a) → ∃ es, shows es log ∧ located P (f a) (λ es' s, R (es ++ es') s)) →
  located P (pbind f p) R.
Proof.
  intros Hp Hf log o [(-> & H1)|(l1 & a & l2 & -> & H1 & H2)]%runs_pbind pre s post Heq HP; [by eapply Hp|].
  destruct (Hf _ _ H1) as (es & Hsh & Hloc).
  apply app_eq_app in Heq as [k [[-> Hk]|[-> ->]]].
  - destruct k as [|e k]; simplify_eq/=; [|by eapply Hp].
    destruct (Hloc _ _ H2 [] s post eq_refl HP) as (es' & ? & ?). exists (es ++ es'). split; [|done].
    rewrite app_nil_r in Hsh. rewrite <- (app_nil_r pre). by apply shows_app.
  - destruct (Hloc _ _ H2 _ _ _ eq_refl HP) as (es' & ? & ?). exists (es ++ es'). split; [by apply shows_app|done].
Qed.
(** The calls the predicate is about. *)
Lemma located_Call {B} c (k : answer c → prog B) R :
  (∀ r, R [] (mkEntry c r)) →
  (∀ r, located P (k r) (λ es s, R (eq (mkEntry c r) :: es) s)) → located P (Call c k) R.
Proof.
  intros HR Hk log o Hr pre s post -> HP.
  destruct Hr as [[Hr _]|(r & rest & Heq & Hr)]; [by destruct pre|].
  destruct pre as [|e pre]; simplify_eq/=.
  - exists []. split; [constructor|done].
  - destruct (Hk r _ _ Hr _ _ _ eq_refl HP) as (es & ? & ?). exists (eq (mkEntry c r) :: es). split; [by constructor|done].
Qed.

(** Every entry of a run satisfies [P]. *)
Definition each {A} (p : prog A) : Prop := ∀ log o, runs p log o → Forall P log.
Lemma each_ret {A} (a : A) : each (Ret a).
Proof. by intros log o [-> _]. Qed.
Lemma each_unfinished {A} : each (Unfinished (A := A)).
Proof. by intros log o [-> _]. Qed.
Lemma each_perform c : (∀ r, P (mkEntry c r)) → each (perform c).
Proof. by intros HP log o [[-> _]|(r & -> & _)]%runs_perform; [|repeat constructor]. Qed.
Lemma each_pbind {A B} (p : prog A) (f : A → prog B) : each p → (∀ a, each (f a)) → each (pbind f p).
Proof.
  intros Hp Hf log o [(-> & H1)|(l1 & a & l2 & -> & H1 & H2)]%runs_pbind; [by eapply Hp|].
  apply Forall_app. split; [by eapply Hp|by eapply Hf].
Qed.
Lemma each_ptry {E A B} (p : prog (result E A)) (f : A → prog (result E B)) : each p → (∀ a, each (f a)) → each (ptry p f).
Proof. intros Hp Hf. apply each_pbind; [done|]. intros [a|e]; [done|apply each_ret]. Qed.
Lemma each_pmap_err {E F A} (g : E → F) (p : prog (result E A)) : each p → each (pmap_err g p).
Proof. intros Hp. apply each_pbind; [done|]. intros r. apply each_ret. Qed.

End rules.

End programs.
Arguments prog {call} answer A.
Arguments Ret {call answer A} a.
Arguments Unfinished {call answer A}.
Arguments Call {call answer A} c k.
Arguments entry {call} answer.
Arguments mkEntry {call answer} en_call en_answer.

Infix "⊑ₑ" := entails (at level 70).

Notation "x ⟵ y ; z" := (pbind (λ x, z) y) (at level 20, y at level 100, z at level 200, only parsing).
Notation "x ⇠ y ; z" := (ptry y (λ x, z)) (at level 20, y at level 100, z at level 200, only parsing).

(** One rule of [wp], chosen by the program or by the result it goes on with. *)
Ltac split_on_value r := first [is_var r; destruct r | destruct r eqn:?]; cbn [map_err];
  repeat match goal with u : unit |- _ => destruct u end; simplify_eq.
Ltac wp_rule :=
  lazymatch goal with
  | |- wp _ (ptry _ _) _ => apply wp_ptry
  | |- wp _ (pbind _ _) _ => apply wp_pbind
  | |- wp _ (pmap_err _ _) _ => apply wp_pmap_err
  | |- wp _ (Ret _) _ => apply wp_ret
  | |- wp _ Unfinished _ => apply wp_unfinished
  | |- wp _ (if ?b then _ else _) _ => destruct b eqn:?
  | |- wp _ (match ?r with _ => _ end) _ => split_on_value r
  | |- match map_err _ ?r with Ok _ => _ | Err _ => _ end => split_on_value r
  | |- match ?r with Ok _ => _ | Err _ => _ end => split_on_value r
  end.
