(* ===== verification/Listener.v ===== *)
(** * Transparent sockets (crates/hiloop-interceptor/src/netns/listener.rs)

    The calls the processes of the namespace make, and the code over them that
    creates the transparent listeners, hands them to the gateway worker, checks
    what the worker inherited, and creates the sockets UDP replies leave by. *)
From Stdlib Require Import Strings.Byte.
From S2P Require Import Prelude Text Net Capture Substrate Protocol Udp Programs.

(** ** Calls

    Constants of Linux's headers. *)

Definition AF_UNIX : Z := 1.
Definition AF_INET : Z := 2.
Definition AF_INET6 : Z := 10.
Definition SOCK_STREAM : Z := 1.
Definition SOCK_DGRAM : Z := 2.
Definition SOL_SOCKET : Z := 1.
Definition SO_REUSEADDR : Z := 2.
Definition SO_TYPE : Z := 3.
Definition SO_REUSEPORT : Z := 15.
Definition SO_ACCEPTCONN : Z := 30.
Definition SO_DOMAIN : Z := 39.
Definition SOL_IP : Z := 0.
Definition IP_TRANSPARENT : Z := 19.
Definition IP_RECVORIGDSTADDR : Z := 20.
Definition IPPROTO_IPV6 : Z := 41.
Definition IPV6_V6ONLY : Z := 26.
Definition IPV6_RECVORIGDSTADDR : Z := 74.
Definition IPV6_TRANSPARENT : Z := 75.
Definition FD_CLOEXEC : Z := 1.

Inductive namespace := UserNs | MountNs | NetNs | PidNs | UtsNs.
#[export] Instance namespace_eq_dec : EqDecision namespace.
Proof. solve_decision. Defined.

Inductive mount_flag := MsRec | MsPrivate | MsBind | MsRemount | MsReadOnly.

(** What a [pre_exec] closure does in the new process, in order; the process
    becomes the command only when all of it succeeds. *)
Inductive child_call :=
| ChildDuplicate (source target : Z)
| ChildDeathSignal
| ChildRequireParent
| ChildUnshare (namespaces : list namespace)
| ChildPrivateRoot
| ChildLockdown (allowed : list Z).

(** A finished process: [status.success()], [status] as text, its output. *)
Record Output := mkOutput { out_success : bool; out_status : str; out_stdout : str; out_stderr : str }.
(** [waitpid(-1, .., WNOHANG)] *)
Inductive wait_answer := Reaped (pid status : Z) | NoneExited | WaitFailed (errno : Z) (text : str).
Inductive fork_answer := InParent (child : Z) | InChild.
Inductive broker_answer := BrokerRequest (datagram : str) | BrokerWouldBlock | BrokerFailed (error : IoError).

Inductive sys_call :=
| CreateSocket (family kind : Z)
| SetSocketOption (fd level name value : Z)
| GetSocketOption (fd option : Z)
| BindSocket (fd : Z) (address : SocketAddr)
| ConnectSocket (fd : Z) (address : SocketAddr)
| ListenSocket (fd backlog : Z)
| LocalAddress (fd : Z)
| PeerName (fd : Z)
| GetFdFlags (fd : Z)
| SetFdFlags (fd flags : Z)
| CloneSocket (fd : Z)
| DenyInspection
| CloseDescriptorsExcept (allowed : list Z)
| PrepareLockdown (allowed : list Z)
| ApplyLockdown (allowed : list Z)
| ParentPid
| SetDeathSignal
| Unshare (namespaces : list namespace)
| SetResGid (real effective saved : Z)
| SetResUid (real effective saved : Z)
| Mount (source : option str) (target : str) (filesystem : option str) (flags : list mount_flag)
| LivenessPipe
| PollLiveness
| Fork
| WaitChild (pid : Z)
| WaitAny
| KillDescendants
| Exec (command : NamespaceCommand)
| CurrentExe
| SocketPair
| Spawn (command : NamespaceCommand) (pre_exec : list child_call)
| RunTool (program : str) (arguments : list str) (stdin : option str)
| FsWrite (path contents : str)
| FsRead (path : str)
| NewTempFile
| WriteTempFile (path contents : str)
| CloseTempFile (path : str)
| InterfaceIndex (name : str)
| SetReadTimeout (ms : Z)
| SetNonblocking
| SendReady (byte_ : byte)
| ReceiveReadiness
| SendSupervisor (message : ManagerMessage)
| ReceiveSupervisor
| PollSupervisor (timeout_ms : Z)
| SendWorkload (message : WorkloadMessage)
| ReceiveWorkload
| SendReply (reply : WorkloadReply)
| ReceiveOrder
| ReceiveBroker
| SendBroker (status : byte) (descriptors : list Z)
| Now
| Sleep (ms : Z).

(** [GetSocketOption] answers the value and its length, [PeerName] the family and
    the length of the address, [InterfaceIndex] an
    error number, [ReceiveReadiness] the bytes that fit its buffer of one. *)
Definition answer (c : sys_call) : Type :=
  match c with
  | CreateSocket _ _ | GetFdFlags _ | Spawn _ _ => result IoError Z
  | GetSocketOption _ _ | PeerName _ | SocketPair | WaitChild _ => result IoError (Z * Z)
  | LocalAddress _ => result IoError Z
  | PollLiveness | SendBroker _ _ | SendReady _ => result IoError Z
  | PollSupervisor _ => result IoError bool
  | ParentPid | Now => Z
  | Fork => result IoError fork_answer
  | WaitAny => wait_answer
  | Exec _ => IoError
  | RunTool _ _ _ => result IoError Output
  | CurrentExe | FsRead _ | NewTempFile | ReceiveReadiness => result IoError str
  | InterfaceIndex _ => result Z Z
  | ReceiveSupervisor => result IoError SupervisorMessage
  | ReceiveWorkload => result IoError WorkloadReply
  | ReceiveOrder => result IoError WorkloadMessage
  | ReceiveBroker => broker_answer
  | KillDescendants | Sleep _ => unit
  | _ => result IoError unit
  end.

Notation program := (prog answer).
Definition sys (c : sys_call) : program (answer c) := perform c.

(** ** Creating the listeners *)

Definition create_socket (family kind : Z) : program (result IoError Z) := sys (CreateSocket family kind).
Definition set_socket_option (fd level name value : Z) : program (result IoError unit) :=
  sys (SetSocketOption fd level name value).
Definition bind_specific_ipv4 (fd : Z) (ip : Ipv4Addr) (port : Z) : program (result IoError unit) :=
  sys (BindSocket fd (SockV4 ip port)).
Definition bind_specific_ipv6 (fd : Z) (ip : Ipv6Addr) (port : Z) : program (result IoError unit) :=
  sys (BindSocket fd (SockV6 ip port 0 0)).
Definition UNSPECIFIED_V4 : Ipv4Addr := mkIpv4 x00 x00 x00 x00.
Definition zero_seg : segment := mkSeg x00 x00.
Definition UNSPECIFIED_V6 : Ipv6Addr := mkIpv6 zero_seg zero_seg zero_seg zero_seg zero_seg zero_seg zero_seg zero_seg.
Definition bind_ipv4 (fd port : Z) : program (result IoError unit) := bind_specific_ipv4 fd UNSPECIFIED_V4 port.
Definition bind_ipv6 (fd port : Z) : program (result IoError unit) := bind_specific_ipv6 fd UNSPECIFIED_V6 port.
Definition listen (fd : Z) : program (result IoError unit) := sys (ListenSocket fd 128).
(** [connect_socket]: the flow label and scope of an IPv6 address are kept. *)
Definition connect_socket (fd : Z) (address : SocketAddr) : program (result IoError unit) := sys (ConnectSocket fd address).

Definition local_port_ipv4 (fd : Z) : program (result IoError Z) :=
  port ⇠ sys (LocalAddress fd);
  Ret (ok_or (NonZeroU16_new port) (io_other (bs "kernel returned transparent listener port zero"))).

Definition create_ipv4_listener (requested : option Z) : program (result IoError (Z * Z)) :=
  ipv4 ⇠ create_socket AF_INET SOCK_STREAM;
  _ ⇠ set_socket_option ipv4 SOL_IP IP_TRANSPARENT 1;
  _ ⇠ set_socket_option ipv4 SOL_SOCKET SO_REUSEADDR 1;
  _ ⇠ bind_ipv4 ipv4 (default 0%Z requested);
  _ ⇠ listen ipv4;
  port ⇠ local_port_ipv4 ipv4;
  Ret (Ok (ipv4, port)).

Definition create_ipv6_listener (port : Z) : program (result IoError Z) :=
  ipv6 ⇠ create_socket AF_INET6 SOCK_STREAM;
  _ ⇠ set_socket_option ipv6 IPPROTO_IPV6 IPV6_TRANSPARENT 1;
  _ ⇠ set_socket_option ipv6 IPPROTO_IPV6 IPV6_V6ONLY 1;
  _ ⇠ set_socket_option ipv6 SOL_SOCKET SO_REUSEADDR 1;
  _ ⇠ bind_ipv6 ipv6 port;
  _ ⇠ listen ipv6;
  Ret (Ok ipv6).

Definition create_ipv4_udp_listener (port : Z) : program (result IoError Z) :=
  socket ⇠ create_socket AF_INET SOCK_DGRAM;
  _ ⇠ set_socket_option socket SOL_IP IP_TRANSPARENT 1;
  _ ⇠ set_socket_option socket SOL_IP IP_RECVORIGDSTADDR 1;
  _ ⇠ set_socket_option socket SOL_SOCKET SO_REUSEADDR 1;
  _ ⇠ bind_ipv4 socket port;
  Ret (Ok socket).

Definition create_ipv6_udp_listener (port : Z) : program (result IoError Z) :=
  socket ⇠ create_socket AF_INET6 SOCK_DGRAM;
  _ ⇠ set_socket_option socket IPPROTO_IPV6 IPV6_TRANSPARENT 1;
  _ ⇠ set_socket_option socket IPPROTO_IPV6 IPV6_RECVORIGDSTADDR 1;
  _ ⇠ set_socket_option socket IPPROTO_IPV6 IPV6_V6ONLY 1;
  _ ⇠ set_socket_option socket SOL_SOCKET SO_REUSEADDR 1;
  _ ⇠ bind_ipv6 socket port;
  Ret (Ok socket).

Record TransparentListeners := mkListeners { tl_tcp4 : Z; tl_tcp6 : Z; tl_udp4 : Z; tl_udp6 : Z; tl_port : Z }.
Inductive TransparentListenerError :=
| ListenIpv4 (e : IoError) | ListenIpv6 (e : IoError) | ListenUdpIpv4 (e : IoError) | ListenUdpIpv6 (e : IoError).
Definition TransparentListenerError_fmt (e : TransparentListenerError) : str :=
  match e with
  | ListenIpv4 e => bs "create IPv4 transparent listener: " ++ IoError_fmt e
  | ListenIpv6 e => bs "create IPv6 transparent listener: " ++ IoError_fmt e
  | ListenUdpIpv4 e => bs "create IPv4 transparent UDP listener: " ++ IoError_fmt e
  | ListenUdpIpv6 e => bs "create IPv6 transparent UDP listener: " ++ IoError_fmt e
  end.

Definition TransparentListeners_bind (requested : option Z) : program (result TransparentListenerError TransparentListeners) :=
  tcp ⇠ pmap_err ListenIpv4 (create_ipv4_listener requested);
  tcp6 ⇠ pmap_err ListenIpv6 (create_ipv6_listener tcp.2);
  udp4 ⇠ pmap_err ListenUdpIpv4 (create_ipv4_udp_listener tcp.2);
  udp6 ⇠ pmap_err ListenUdpIpv6 (create_ipv6_udp_listener tcp.2);
  Ret (Ok (mkListeners tcp.1 tcp6 udp4 udp6 tcp.2)).
Definition raw_fds (l : TransparentListeners) : list Z := [tl_tcp4 l; tl_tcp6 l; tl_udp4 l; tl_udp6 l].

Definition create_transparent_reply_socket (key : UdpFlowKey) : program (result IoError Z) :=
  let '(family, level, name) :=
    if sock_is_ipv4 (fk_destination key) then (AF_INET, SOL_IP, IP_TRANSPARENT) else (AF_INET6, IPPROTO_IPV6, IPV6_TRANSPARENT) in
  socket ⇠ create_socket family SOCK_DGRAM;
  _ ⇠ set_socket_option socket level name 1;
  _ ⇠ set_socket_option socket SOL_SOCKET SO_REUSEADDR 1;
  _ ⇠ set_socket_option socket SOL_SOCKET SO_REUSEPORT 1;
  _ ⇠ match fk_destination key with
      | SockV4 ip port => bind_specific_ipv4 socket ip port
      | SockV6 ip port _ _ => bind_specific_ipv6 socket ip port
      end;
  _ ⇠ connect_socket socket (fk_client key);
  Ret (Ok socket).

(** ** The worker's inherited descriptors *)

Definition IPV4_LISTENER_FD : Z := 3.
Definition IPV6_LISTENER_FD : Z := 4.
Definition IPV4_UDP_FD : Z := 5.
Definition IPV6_UDP_FD : Z := 6.
Definition READY_FD : Z := 7.

Definition descriptor_flags (fd : Z) : program (result IoError Z) := sys (GetFdFlags fd).
Definition set_descriptor_close_on_exec (fd flags : Z) : program (result IoError unit) :=
  sys (SetFdFlags fd (Z.lor flags FD_CLOEXEC)).

Definition socket_option (fd option : Z) : program (result IoError Z) :=
  answer ⇠ sys (GetSocketOption fd option);
  let '(value, length) := answer in
  Ret (if (length =? 4)%Z then Ok value else Err (io_error InvalidData (bs "socket option returned an unexpected length"))).

Definition require_socket_option (fd option expected : Z) (description : string) : program (result IoError unit) :=
  actual ⇠ socket_option fd option;
  Ret (if (actual =? expected)%Z then Ok tt
       else Err (io_error InvalidData
                   (bs "inherited descriptor " ++ bs description ++ bs " was " ++ show_int actual ++ bs ", expected " ++ show_int expected))).

Definition peer_socket_family (fd : Z) : program (result IoError Z) :=
  answer ⇠ sys (PeerName fd);
  let '(family, length) := answer in
  Ret (if (length <? 2)%Z then Err (io_error InvalidData (bs "peer address omitted its socket family")) else Ok family).

Definition validate_datagram_descriptor (fd family : Z) : program (result IoError Z) :=
  flags ⇠ descriptor_flags fd;
  _ ⇠ require_socket_option fd SO_TYPE SOCK_DGRAM "socket type";
  _ ⇠ require_socket_option fd SO_DOMAIN family "socket family";
  _ ⇠ require_socket_option fd SO_ACCEPTCONN 0 "listener state";
  Ret (Ok flags).
Definition validate_listener_descriptor (fd family : Z) : program (result IoError Z) :=
  flags ⇠ descriptor_flags fd;
  _ ⇠ require_socket_option fd SO_TYPE SOCK_STREAM "socket type";
  _ ⇠ require_socket_option fd SO_DOMAIN family "socket family";
  _ ⇠ require_socket_option fd SO_ACCEPTCONN 1 "listener state";
  Ret (Ok flags).
Definition validate_connected_unix_descriptor (fd : Z) : program (result IoError Z) :=
  flags ⇠ descriptor_flags fd;
  _ ⇠ require_socket_option fd SO_TYPE SOCK_DGRAM "socket type";
  _ ⇠ require_socket_option fd SO_DOMAIN AF_UNIX "socket family";
  peer ⇠ peer_socket_family fd;
  Ret (if (peer =? AF_UNIX)%Z then Ok flags
       else Err (io_error InvalidData (bs "readiness descriptor peer family was " ++ show_int peer ++ bs ", expected AF_UNIX"))).

(** [local_addr] and [peer_addr] of the adopted sockets *)
Definition from_inherited_fds : program (result IoError unit) :=
  ipv4_flags ⇠ validate_listener_descriptor IPV4_LISTENER_FD AF_INET;
  ipv6_flags ⇠ validate_listener_descriptor IPV6_LISTENER_FD AF_INET6;
  udp_ipv4_flags ⇠ validate_datagram_descriptor IPV4_UDP_FD AF_INET;
  udp_ipv6_flags ⇠ validate_datagram_descriptor IPV6_UDP_FD AF_INET6;
  ready_flags ⇠ validate_connected_unix_descriptor READY_FD;
  _ ⇠ set_descriptor_close_on_exec IPV4_LISTENER_FD ipv4_flags;
  _ ⇠ set_descriptor_close_on_exec IPV6_LISTENER_FD ipv6_flags;
  _ ⇠ set_descriptor_close_on_exec IPV4_UDP_FD udp_ipv4_flags;
  _ ⇠ set_descriptor_close_on_exec IPV6_UDP_FD udp_ipv6_flags;
  _ ⇠ set_descriptor_close_on_exec READY_FD ready_flags;
  _ ⇠ sys DenyInspection;
  _ ⇠ sys (LocalAddress IPV4_LISTENER_FD);
  _ ⇠ sys (LocalAddress IPV6_LISTENER_FD);
  _ ⇠ sys (LocalAddress IPV4_UDP_FD);
  _ ⇠ sys (LocalAddress IPV6_UDP_FD);
  _ ⇠ sys (PeerName READY_FD);
  Ret (Ok tt).

Definition notify_ready : program (result IoError unit) :=
  sent ⇠ sys (SendReady x01);
  Ret (if (sent =? 1)%Z then Ok tt else Err (io_other (bs "gateway readiness was partially sent"))).
