(* ===== verification/Manager.v ===== *)
(** * The namespace manager (crates/hiloop-interceptor/src/netns/manager.rs)

    The manager creates the namespaces, then, as the first process of the new
    PID namespace, sets up the gateway: sysctls, transparent listeners, the link
    to the workload's namespace and its nftables rules, the confined gateway
    worker, and only then the workload.  It supervises both, takes everything
    down, and reports to the supervisor.  The workload's helper is here too.

    Each role is a program over the calls of Listener.  Loops take their turns
    as an argument; a panic ends a run without a result. *)
From Stdlib Require Import Strings.Byte.
From S2P Require Import Prelude Text Utf8 Net Capture Substrate Protocol Udp Routing Programs Listener.

(** ** Constants and failures *)

Definition MANAGER_ROLE : str := bs "__hiloop-netns-manager".
Definition WORKLOAD_ROLE : str := bs "__hiloop-netns-workload".
Definition CONTROL_FD : Z := 3.
Definition WORKER_READY_FD : Z := 7.
Definition CHILD_POLL_INTERVAL : Z := 20.
Definition WORKER_READY_TIMEOUT : Z := 10000.
Definition REAP_TIMEOUT : Z := 2000.
Definition PASTA_INTERFACE : str := bs "hlhost0".
Definition HOST_LOOPBACK_IPV4 : str := bs "169.254.2.2".
Definition HOST_LOOPBACK_IPV6 : str := bs "fd00:6869:6c6f:6f71::2".
Definition ENODEV : Z := 19.
Definition ECHILD : Z := 10.
Definition pid_max : Z := 2147483647.

Record ManagerFailure := mkFailure { mf_stage : StartupStage; mf_reason : CaptureTransportDegradationReason; mf_error : IoError }.
Definition failure_new (stage : StartupStage) (error : IoError) : ManagerFailure := mkFailure stage NetnsStartupFailed error.
Definition classified (stage : StartupStage) (reason : CaptureTransportDegradationReason) (error : IoError) : ManagerFailure :=
  mkFailure stage reason error.

Definition protocol_order (expected : string) : IoError := io_error InvalidData (bs expected).

(** ** Exit statuses *)

(** [WIFEXITED], [WEXITSTATUS], [WIFSIGNALED] and [WTERMSIG]; [None] is the
    panic on a signal number that Linux does not have. *)
Definition substrate_exit_from_wait_status (status : Z) : option SubstrateExit :=
  let low := Z.land status 127 in
  if (low =? 0)%Z then Some (ExitCode (Z.land (Z.shiftr status 8) 255))
  else if (low <? 127)%Z then match LinuxSignal_new low with Ok signal => Some (ExitSignal signal) | Err _ => None end
  else Some (ExitCode 1).
Definition clamp (lo hi z : Z) : Z := Z.max lo (Z.min hi z).
Definition exit_code_for_substrate (exit : SubstrateExit) : Z :=
  match exit with ExitCode code => clamp 0 255 code | ExitSignal signal => clamp 0 255 (128 + get_signal signal) end.
Definition exit_code_from_wait_status (status : Z) : option Z := exit_code_for_substrate <$> substrate_exit_from_wait_status status.

(** [{exit:?}] *)
Definition SubstrateExit_debug (exit : SubstrateExit) : str :=
  match exit with
  | ExitCode code => bs "Code(" ++ show_int code ++ bs ")"
  | ExitSignal signal => bs "Signal(LinuxSignal(" ++ show_int (get_signal signal) ++ bs "))"
  end.

(** ** Tools *)

Definition require_success (operation : str) (output : Output) : result IoError unit :=
  if out_success output then Ok tt
  else Err (io_other (operation ++ bs " exited " ++ out_status output ++ bs ": " ++ trim (from_utf8_lossy (out_stderr output)))).

Definition contains (needle s : str) : bool := match find_bytes needle s with Some _ => true | None => false end.

Definition tun_failure : IoError → ManagerFailure := classified StagePasta TunUnavailable.
Definition ipv6_failure : IoError → ManagerFailure := classified StagePasta Ipv6Unavailable.

Definition validate_carrier (require_ipv6 : bool) : program (result ManagerFailure unit) :=
  output ⇠ pmap_err tun_failure (sys (RunTool (bs "ip") (words ["-details"; "link"; "show"; "dev"] ++ [PASTA_INTERFACE]) None));
  _ ⇠ Ret (map_err tun_failure (require_success (bs "inspect pasta interface") output));
  if negb (contains (bs "mtu " ++ show_uint LINK_MTU) (from_utf8_lossy (out_stdout output)))
  then Ret (Err (tun_failure (io_other (bs "pasta interface did not report MTU " ++ show_uint LINK_MTU))))
  else
    route ⇠ pmap_err tun_failure (sys (RunTool (bs "ip") (words ["-4"; "route"; "show"; "default"]) None));
    _ ⇠ Ret (map_err tun_failure (require_success (bs "inspect pasta IPv4 route") route));
    if Nat.eqb (length (out_stdout route)) 0
    then Ret (Err (tun_failure (io_other (bs "pasta installed no IPv4 default route"))))
    else if require_ipv6 then
      route ⇠ pmap_err ipv6_failure (sys (RunTool (bs "ip") (words ["-6"; "route"; "show"; "default"]) None));
      _ ⇠ Ret (map_err ipv6_failure (require_success (bs "inspect pasta IPv6 route") route));
      if Nat.eqb (length (out_stdout route)) 0
      then Ret (Err (ipv6_failure (io_other (bs "pasta installed no IPv6 default route"))))
      else Ret (Ok tt)
    else Ret (Ok tt).

(** [fs::read_to_string] *)
Definition read_to_string (path : str) : program (result IoError str) :=
  bytes ⇠ sys (FsRead path);
  Ret (ok_or (from_utf8 bytes) (io_error InvalidData (bs "stream did not contain valid UTF-8"))).

Definition gateway_sysctls : list str :=
  words ["/proc/sys/net/ipv4/ip_forward"; "/proc/sys/net/ipv6/conf/all/forwarding";
         "/proc/sys/net/ipv4/conf/all/src_valid_mark"; "/proc/sys/net/ipv4/conf/default/src_valid_mark"].
Definition PORT_START : str := bs "/proc/sys/net/ipv4/ip_unprivileged_port_start".

Definition disable_sysctl (path : str) : program (result IoError unit) :=
  _ ⇠ sys (FsWrite path (bs "0"));
  value ⇠ read_to_string path;
  Ret (if bool_decide (trim value = bs "0") then Ok tt
       else Err (io_other (bs "gateway namespace sysctl remained enabled at " ++ path))).

Definition configure_gateway_sysctls : program (result IoError unit) :=
  _ ⇠ pfor gateway_sysctls disable_sysctl;
  _ ⇠ sys (FsWrite PORT_START (bs "0"));
  value ⇠ read_to_string PORT_START;
  Ret (if bool_decide (trim value = bs "0") then Ok tt
       else Err (io_other (bs "gateway namespace did not reserve cap-free DNS port binding"))).

(** [ParseIntError]'s text for a text that is not a [u64]. *)
Fixpoint parse_u64_error (acc : Z) (s : str) : str :=
  match s with
  | [] => bs "invalid digit found in string"
  | b :: s =>
      match digit_val b with
      | None => bs "invalid digit found in string"
      | Some d => if (u64_max <? acc * 10 + d)%Z then bs "number too large to fit in target type" else parse_u64_error (acc * 10 + d) s
      end
  end.
Definition CounterError_fmt (e : CounterError) : str :=
  match e with
  | DuplicateCount => bs "nft counter output contains duplicate packet counts"
  | OmittedCount => bs "nft counter output omits the packet count"
  | InvalidCount value =>
      bs "invalid nft counter packet count `" ++ value ++ bs "`: "
      ++ parse_u64_error 0 (default value (strip_prefix [x2b] value))
  | NoCount => bs "nft counter output contains no packet count"
  end.

Definition validate_fragment_counter (family : string) (counter : str) : program (result IoError unit) :=
  output ⇠ sys (RunTool (bs "nft") (words ["list"; "counter"; "inet"] ++ [NFT_TABLE; counter]) None);
  _ ⇠ Ret (require_success (bs "inspect fragmented UDP counter") output);
  packets ⇠ Ret (map_err (λ e, io_error InvalidData (CounterError_fmt e)) (parse_counter_packets (from_utf8_lossy (out_stdout output))));
  Ret (if (packets =? 0)%Z then Err (io_other (bs family ++ bs " fragmented UDP did not hit the fail-closed nft rule")) else Ok tt).
Definition validate_fragment_counters (enable_ipv6 : bool) : program (result IoError unit) :=
  pfor (take (if enable_ipv6 then 2 else 1) [("IPv4"%string, IPV4_FRAGMENT_COUNTER); ("IPv6"%string, IPV6_FRAGMENT_COUNTER)])
    (λ f, validate_fragment_counter f.1 f.2).

(** ** The generated hosts file *)

Definition RESERVED_HOST : str := bs "host.hiloop.internal".

(** [split_inclusive] on newlines *)
Fixpoint split_inclusive (s : str) : list str :=
  match s with
  | [] => []
  | b :: s =>
      if byte_is x0a b then [b] :: split_inclusive s
      else match split_inclusive s with [] => [[b]] | l :: ls => (b :: l) :: ls end
  end.

Definition hosts_line (line : str) : str :=
  let content := default line (strip_suffix [x0a] line) in
  let comment_at := position (byte_is x23) content in
  let fields := split_ascii_whitespace (take (default (length content) comment_at) content) in
  if existsb (λ field, bool_decide (field = RESERVED_HOST)) (drop 1 fields) then
    let retained := omap (λ f, if Nat.eqb f.1 0 || negb (bool_decide (f.2 = RESERVED_HOST)) then Some f.2 else None)
                         (imap pair fields) in
    if Nat.ltb 1 (length retained) then
      join [x20] retained
      ++ match comment_at with Some at_ => [x20] ++ drop at_ content | None => [] end
      ++ [x0a]
    else []
  else line.

Definition generated_hosts (existing : str) : str :=
  let generated := concat (hosts_line <$> split_inclusive existing) in
  let generated := if ends_with [x0a] generated then generated else generated ++ [x0a] in
  generated ++ HOST_LOOPBACK_IPV4 ++ [x20] ++ RESERVED_HOST ++ [x0a] ++ HOST_LOOPBACK_IPV6 ++ [x20] ++ RESERVED_HOST ++ [x0a].

Definition generated_hosts_file : program (result IoError str) :=
  file ⇠ sys NewTempFile;
  existing ⇠ sys (FsRead (bs "/etc/hosts"));
  _ ⇠ sys (WriteTempFile file (generated_hosts existing));
  Ret (Ok file).

Definition generated_resolv_file (contents : str) : program (result IoError str) :=
  if Nat.eqb (length contents) 0 then Ret (Err (io_error InvalidInput (bs "generated resolver configuration is empty")))
  else
    file ⇠ sys NewTempFile;
    _ ⇠ sys (WriteTempFile file contents);
    Ret (Ok file).

(** ** The workload's helper and the worker *)

Definition pid_of_child (id : Z) (missing : string) : result IoError Z :=
  if (id <=? pid_max)%Z then Ok id else Err (io_other (bs missing)).
Definition pid_u32 (pid : Z) : result ManagerFailure Z :=
  if (pid <? 0)%Z then Err (failure_new StageNamespace (io_error InvalidData (bs "out of range integral type conversion attempted")))
  else Ok pid.

Definition workload_pre_exec (control_fd : Z) : list child_call :=
  [ChildDuplicate control_fd CONTROL_FD; ChildDeathSignal; ChildRequireParent; ChildUnshare [NetNs; MountNs]; ChildPrivateRoot].
Definition spawn_workload_helper : program (result IoError Z) :=
  pair ⇠ sys SocketPair;
  exe ⇠ sys CurrentExe;
  id ⇠ sys (Spawn (arg (NamespaceCommand_new exe) WORKLOAD_ROLE) (workload_pre_exec pair.2));
  Ret (pid_of_child id "workload helper returned no PID").

Definition worker_descriptors : list Z := [IPV4_LISTENER_FD; IPV6_LISTENER_FD; IPV4_UDP_FD; IPV6_UDP_FD; WORKER_READY_FD].
Definition worker_pre_exec (l : TransparentListeners) (ready_fd : Z) : list child_call :=
  [ChildDuplicate (tl_tcp4 l) IPV4_LISTENER_FD; ChildDuplicate (tl_tcp6 l) IPV6_LISTENER_FD;
   ChildDuplicate (tl_udp4 l) IPV4_UDP_FD; ChildDuplicate (tl_udp6 l) IPV6_UDP_FD; ChildDuplicate ready_fd WORKER_READY_FD;
   ChildDeathSignal; ChildRequireParent; ChildLockdown worker_descriptors].
(** The command is [command_from_spec] of the request's; its standard streams
    are inherited. *)
Definition spawn_gateway_worker (worker : Wire.Command) (listeners : TransparentListeners) : program (result IoError (Z * Z)) :=
  pair ⇠ sys SocketPair;
  _ ⇠ sys (SetReadTimeout WORKER_READY_TIMEOUT);
  _ ⇠ sys (PrepareLockdown worker_descriptors);
  id ⇠ sys (Spawn (Wire.into_command worker) (worker_pre_exec listeners pair.2));
  pid ⇠ Ret (pid_of_child id "gateway worker returned no PID");
  readiness ⇠ sys ReceiveReadiness;
  if negb (Nat.eqb (length readiness) 1) then Ret (Err (io_error InvalidData (bs "gateway worker sent partial readiness")))
  else if negb (bool_decide (readiness = [x01])) then Ret (Err (io_error InvalidData (bs "gateway worker sent invalid readiness byte")))
  else _ ⇠ sys SetNonblocking; Ret (Ok (pid, pair.1)).

Definition wire_routing_command (c : NamespacedCommand) : Wire.ExecCommand := Wire.ExecCommand_new (cmd_program c) (cmd_args c).
Definition workload_commands (plan : RoutingPlan) : list NamespacedCommand :=
  filter (λ c, cmd_namespace c = WorkloadNs) (rp_setup plan).
Definition gateway_commands (plan : RoutingPlan) : list NamespacedCommand :=
  filter (λ c, cmd_namespace c = GatewayNs) (rp_setup plan).

Definition configure_workload (plan : RoutingPlan) (hosts_path resolv_path : str) : program (result ManagerFailure unit) :=
  _ ⇠ pmap_err (failure_new StageWorkload)
        (sys (SendWorkload (WorkloadConfigure (wire_routing_command <$> workload_commands plan) hosts_path resolv_path)));
  reply ⇠ pmap_err (failure_new StageWorkload) (sys ReceiveWorkload);
  Ret match reply with
      | WorkloadReady => Ok tt
      | WorkloadFailed reason diagnostic => Err (classified StageWorkload (Wire.to_reason reason) (io_other diagnostic))
      | ExecFailed _ => Err (failure_new StageWorkload (protocol_order "workload exec preceded start"))
      end.

Definition start_workload (workload : Wire.Command) : program (result IoError unit) :=
  _ ⇠ sys (SendWorkload (WorkloadStart workload));
  reply ⟵ sys ReceiveWorkload;
  Ret match reply with
      | Err error => match io_kind error with UnexpectedEof => Ok tt | _ => Err error end
      | Ok (ExecFailed diagnostic) => Err (io_other diagnostic)
      | Ok (WorkloadReady | WorkloadFailed _ _) => Err (protocol_order "workload sent an invalid exec acknowledgement")
      end.

(** ** Routing *)

(** The script goes to the tool that reads it. *)
Definition routing_stdin (c : NamespacedCommand) (nft_script : option str) : option str :=
  if bool_decide (cmd_program c = bs "nft") && bool_decide (cmd_args c = words ["-f"; "-"]) then nft_script else None.
Definition execute_routing_command (c : NamespacedCommand) (nft_script : option str) : program (result IoError unit) :=
  output ⇠ sys (RunTool (cmd_program c) (cmd_args c) (routing_stdin c nft_script));
  Ret (require_success (cmd_program c) output).

Definition gateway_setup_failure (index : nat) (c : NamespacedCommand) : StartupStage * CaptureTransportDegradationReason :=
  if bool_decide (head (cmd_args c) = Some (bs "-6")) then (StageRouting, Ipv6Unavailable)
  else if Nat.ltb index 4 then (StageVeth, NetnsStartupFailed)
  else (StageRouting, TproxyUnavailable).

Definition execute_gateway_setup (plan : RoutingPlan) : program (result ManagerFailure unit) :=
  pfor (imap pair (gateway_commands plan)) (λ ic,
    pmap_err (λ error, let '(stage, reason) := gateway_setup_failure ic.1 ic.2 in classified stage reason error)
      (execute_routing_command ic.2 (Some (rp_nft_script plan)))).

Definition parse_ipv4 (value : str) : result ManagerFailure Ipv4Addr :=
  ok_or (Ipv4Addr_from_str value) (failure_new StageNamespace (io_error InvalidData (bs "invalid IPv4 address syntax"))).
Definition parse_ipv6 (value : str) : result ManagerFailure Ipv6Addr :=
  ok_or (Ipv6Addr_from_str value) (failure_new StageNamespace (io_error InvalidData (bs "invalid IPv6 address syntax"))).
Definition substrate_info (port : Z) : result ManagerFailure SubstrateInfo :=
  v4 ← parse_ipv4 HOST_LOOPBACK_IPV4;
  v6 ← parse_ipv6 HOST_LOOPBACK_IPV6;
  map_err (λ error, failure_new StageRouting (io_other (SubstrateInfoError_fmt error)))
    (SubstrateInfo_new port LINK_MTU GATEWAY_IPV4 GATEWAY_IPV6 v4 v6 DropFragments).

(** ** Supervision *)

Record RunningGateway := mkRunning {
  rg_workload_pid : Z; rg_worker_pid : option Z; rg_routing : RoutingPlan;
  rg_listeners : option TransparentListeners; rg_broker : option Z }.

Inductive TerminalState := TerminalWorkload (exit : SubstrateExit) | WorkerFailed (exit : SubstrateExit) | TerminalShutdown | ControlClosed.

Definition reaped : Type := list (Z * SubstrateExit).
Definition terminal_from_reaped (exits : reaped) (workload_pid : Z) (worker_pid : option Z) : option TerminalState :=
  match list_find (λ e, worker_pid = Some e.1) exits with
  | Some (_, (_, exit)) => Some (WorkerFailed exit)
  | None => (λ f, TerminalWorkload f.2.2) <$> list_find (λ e, e.1 = workload_pid) exits
  end.

(** [pid <= 0]: nobody exited, or the call failed. *)
Fixpoint reap_available_children (turns : nat) (exits : reaped) : program reaped :=
  match turns with
  | O => Unfinished
  | S turns =>
      waited ⟵ sys WaitAny;
      match waited with
      | Reaped pid status =>
          match substrate_exit_from_wait_status status with
          | Some exit => reap_available_children turns (exits ++ [(pid, exit)])
          | None => Unfinished
          end
      | NoneExited | WaitFailed _ _ => Ret exits
      end
  end.

Definition send_broker_error : program (result IoError unit) :=
  sent ⇠ sys (SendBroker BROKER_STATUS_ERROR []);
  Ret (if (sent =? 1)%Z then Ok tt else Err (io_other (bs "UDP broker error response was partially sent"))).
Definition send_broker_socket (socket : Z) : program (result IoError unit) :=
  sent ⇠ sys (SendBroker BROKER_STATUS_OK [socket]);
  Ret (if (sent =? 1)%Z then Ok tt else Err (io_other (bs "UDP broker response was partially sent"))).
Definition answer_broker (datagram : str) : program (result IoError unit) :=
  match decode_request datagram with
  | None => send_broker_error
  | Some key =>
      socket ⟵ create_transparent_reply_socket key;
      match socket with Err _ => send_broker_error | Ok socket => send_broker_socket socket end
  end.
Fixpoint service_gateway_control (turns : nat) : program (result IoError unit) :=
  match turns with
  | O => Unfinished
  | S turns =>
      received ⟵ sys ReceiveBroker;
      match received with
      | BrokerWouldBlock => Ret (Ok tt)
      | BrokerFailed error => Ret (Err error)
      | BrokerRequest datagram => _ ⇠ answer_broker datagram; service_gateway_control turns
      end
  end.

Definition control_readable : program (result IoError bool) := sys (PollSupervisor CHILD_POLL_INTERVAL).

Fixpoint supervise_children (turns : nat) (running : RunningGateway) : program TerminalState :=
  match turns with
  | O => Unfinished
  | S remaining =>
      exits ⟵ reap_available_children turns [];
      match terminal_from_reaped exits (rg_workload_pid running) (rg_worker_pid running) with
      | Some terminal => Ret terminal
      | None =>
          serviced ⟵ match rg_broker running with Some _ => service_gateway_control turns | None => Ret (Ok tt) end;
          match serviced with
          | Err _ => Ret (WorkerFailed (ExitCode 1))
          | Ok _ =>
              readable ⟵ control_readable;
              match readable with
              | Ok false => supervise_children remaining running
              | Ok true =>
                  message ⟵ sys ReceiveSupervisor;
                  Ret match message with Ok Shutdown => TerminalShutdown | _ => ControlClosed end
              | Err _ => Ret ControlClosed
              end
          end
      end
  end.

(** ** Teardown *)

Definition network_interface_is_absent (name : str) : program bool :=
  index ⟵ sys (InterfaceIndex name);
  Ret match index with Err errno => (errno =? ENODEV)%Z | Ok _ => false end.

Definition no_children_left : program (option (result IoError unit)) :=
  waited ⟵ sys WaitAny;
  Ret match waited with
      | WaitFailed errno text => Some (if (errno =? ECHILD)%Z then Ok tt else Err (io_other text))
      | _ => None
      end.
Fixpoint reap_until (turns : nat) (deadline : Z) : program (result IoError unit) :=
  match turns with
  | O => Unfinished
  | S remaining =>
      exits ⟵ reap_available_children turns [];
      ended ⟵ match exits with [] => no_children_left | _ => Ret None end;
      match ended with
      | Some r => Ret r
      | None =>
          now ⟵ sys Now;
          if (deadline <=? now)%Z then Ret (Err (io_error TimedOut (bs "PID-namespace descendants did not exit after SIGKILL")))
          else _ ⟵ sys (Sleep CHILD_POLL_INTERVAL); reap_until remaining deadline
      end
  end.
Definition reap_descendants (turns : nat) : program (result IoError unit) :=
  start ⟵ sys Now; reap_until turns (start + REAP_TIMEOUT).

Definition delete_veth (c : NamespacedCommand) : program (list str) :=
  r ⟵ execute_routing_command c None;
  match r with
  | Ok _ => Ret []
  | Err error =>
      absent ⟵ network_interface_is_absent GATEWAY_INTERFACE;
      Ret match absent with true => [] | false => [bs "delete workload veth: " ++ IoError_fmt error] end
  end.
Fixpoint run_teardown (commands : list NamespacedCommand) : program (list str) :=
  match commands with
  | [] => Ret []
  | c :: commands =>
      r ⟵ execute_routing_command c None;
      rest ⟵ run_teardown commands;
      Ret (match r with
           | Ok _ => []
           | Err error => [cmd_program c ++ bs " " ++ join (bs " ") (cmd_args c) ++ bs ": " ++ IoError_fmt error]
           end ++ rest)
  end.

(** The listeners and the broker are closed first. *)
Definition cleanup_gateway (turns : nat) (running : RunningGateway) : program (list str) :=
  let teardown := rp_teardown (rg_routing running) in
  veth ⟵ match teardown with [] => Ret [] | veth :: _ => delete_veth veth end;
  _ ⟵ sys KillDescendants;
  links ⟵ run_teardown (drop 1 teardown);
  reaped ⟵ reap_descendants turns;
  Ret (veth ++ links ++ match reaped with
                        | Ok _ => []
                        | Err error => [bs "reap PID-namespace descendants: " ++ IoError_fmt error]
                        end).

(** ** The gateway *)

Definition listener_failure (error : TransparentListenerError) : ManagerFailure :=
  let reason := match error with ListenIpv4 _ | ListenUdpIpv4 _ => TproxyUnavailable | ListenIpv6 _ | ListenUdpIpv6 _ => Ipv6Unavailable end in
  classified StageRouting reason (io_other (TransparentListenerError_fmt error)).

(** [let _ = cleanup_gateway(..); return Err(failure)] *)
Definition abandon {A} (turns : nat) (running : RunningGateway) (failure : ManagerFailure) : program (result ManagerFailure A) :=
  _ ⟵ cleanup_gateway turns running; Ret (Err failure).
(** A step of the startup once there is something to clean up. *)
Definition guarded {A B} (turns : nat) (running : RunningGateway) (p : program (result ManagerFailure A))
    (f : A → program (result ManagerFailure B)) : program (result ManagerFailure B) :=
  r ⟵ p;
  match r with Ok a => f a | Err failure => abandon turns running failure end.

Definition send_supervisor (stage : StartupStage) (m : ManagerMessage) : program (result ManagerFailure unit) :=
  pmap_err (failure_new stage) (sys (SendSupervisor m)).

(** What [start_gateway] does once the workload runs. *)
Definition finish_gateway (turns : nat) (running : RunningGateway) (require_ipv6 validate_dataplane : bool) :
    program (result ManagerFailure SubstrateExit) :=
  terminal ⟵ supervise_children turns running;
  validation ⟵ match terminal with
               | TerminalWorkload (ExitCode 0) =>
                   if validate_dataplane then
                     _ ⟵ sys (Sleep CHILD_POLL_INTERVAL);
                     validate_fragment_counters require_ipv6
                   else Ret (Ok tt)
               | _ => Ret (Ok tt)
               end;
  failures ⟵ cleanup_gateway turns running;
  match validation with
  | Err error =>
      _ ⇠ send_supervisor StageRouting (ManagerFailed Wire.Routing Wire.TproxyUnavailable (IoError_fmt error));
      _ ⇠ send_supervisor StageNamespace (CleanupComplete failures);
      Ret (Ok (ExitCode 1))
  | Ok _ =>
      match terminal with
      | TerminalWorkload exit =>
          _ ⇠ send_supervisor StageWorkload (WorkloadExited (Wire.of_exit exit));
          _ ⇠ send_supervisor StageNamespace (CleanupComplete failures);
          Ret (Ok exit)
      | TerminalShutdown =>
          _ ⇠ send_supervisor StageNamespace (CleanupComplete failures);
          Ret (Ok (ExitCode 0))
      | ControlClosed => Ret (Ok (ExitCode 0))
      | WorkerFailed exit =>
          _ ⇠ send_supervisor StageGatewayWorker
                (ManagerFailed Wire.GatewayWorker Wire.NetnsStartupFailed (bs "gateway worker exited " ++ SubstrateExit_debug exit));
          _ ⇠ send_supervisor StageNamespace (CleanupComplete failures);
          Ret (Ok (ExitCode 1))
      end
  end.

Definition start_gateway (turns : nat) (request : Wire.Provision) : program (result ManagerFailure SubstrateExit) :=
  parts ⇠ Ret (map_err (failure_new StageWorkload) (Wire.into_parts request));
  let require_ipv6 := Wire.p_require_ipv6 parts in
  _ ⇠ validate_carrier require_ipv6;
  _ ⇠ pmap_err (failure_new StageRouting) configure_gateway_sysctls;
  listeners ⇠ pmap_err listener_failure (TransparentListeners_bind (Wire.p_port parts));
  let port := tl_port listeners in
  hosts_file ⇠ pmap_err (failure_new StageWorkload) generated_hosts_file;
  resolv_file ⇠ pmap_err (classified StageWorkload ResolverUnavailable) (generated_resolv_file (Wire.p_resolv_conf parts));
  workload_pid ⇠ pmap_err (failure_new StageNamespace) spawn_workload_helper;
  pid ⇠ Ret (pid_u32 workload_pid);
  let routing := RoutingPlan_new pid port require_ipv6 in
  let starting := mkRunning workload_pid None routing (Some listeners) None in
  guarded turns starting (execute_gateway_setup routing) (λ _,
  guarded turns starting (configure_workload routing hosts_file resolv_file) (λ _,
  guarded turns starting (pmap_err (failure_new StageWorkload) (sys (CloseTempFile hosts_file))) (λ _,
  guarded turns starting (pmap_err (failure_new StageWorkload) (sys (CloseTempFile resolv_file))) (λ _,
  guarded turns starting (pmap_err (failure_new StageGatewayWorker) (spawn_gateway_worker (Wire.p_gateway_worker parts) listeners))
    (λ worker,
  let running := mkRunning workload_pid (Some worker.1) routing None (Some worker.2) in
  guarded turns running (pmap_err (failure_new StageWorkload) (start_workload (Wire.p_workload parts))) (λ _,
  guarded turns running (Ret (substrate_info port)) (λ info,
  guarded turns running (send_supervisor StageNamespace (Ready (Wire.of_info info))) (λ _,
  finish_gateway turns running require_ipv6 (Wire.p_validate_dataplane parts))))))))).

(** ** The manager's processes

    An exit code is its number. *)
Definition gateway_init (turns : nat) : program (result IoError Z) :=
  first ⇠ sys ReceiveSupervisor;
  match first with
  | PastaReady =>
      _ ⇠ sys DenyInspection;
      second ⇠ sys ReceiveSupervisor;
      match second with
      | Configure request =>
          r ⟵ start_gateway turns request;
          match r with
          | Ok exit => Ret (Ok (exit_code_for_substrate exit))
          | Err failure =>
              _ ⟵ sys (SendSupervisor (ManagerFailed (Wire.of_stage (mf_stage failure)) (Wire.of_reason (mf_reason failure))
                                             (IoError_fmt (mf_error failure))));
              Ret (Ok 1%Z)
          end
      | Shutdown => Ret (Ok 0%Z)
      | _ => Ret (Err (protocol_order "expected provision request"))
      end
  | Shutdown => Ret (Ok 0%Z)
  | _ => Ret (Err (protocol_order "expected pasta readiness"))
  end.

Definition validate_inherited_stream (fd : Z) : program (result IoError unit) :=
  flags ⇠ sys (GetFdFlags fd);
  option ⇠ sys (GetSocketOption fd SO_TYPE);
  if negb (option.1 =? SOCK_STREAM)%Z then Ret (Err (io_error InvalidInput (bs "inherited control descriptor is not a stream socket")))
  else sys (SetFdFlags fd (Z.lor flags FD_CLOEXEC)).
Definition inherited_control_stream : program (result IoError unit) :=
  _ ⇠ validate_inherited_stream CONTROL_FD;
  _ ⇠ sys (PeerName CONTROL_FD);
  Ret (Ok tt).

Definition arm_parent_death_signal : program (result IoError unit) :=
  expected ⟵ sys ParentPid;
  _ ⇠ sys SetDeathSignal;
  parent ⟵ sys ParentPid;
  Ret (if negb (parent =? expected)%Z || (expected <=? 1)%Z
       then Err (io_error BrokenPipe (bs "namespace supervisor exited during helper startup")) else Ok tt).

Definition create_user_namespace : program (result IoError unit) := sys (Unshare [UserNs]).
Definition enter_mapped_identity : program (result IoError unit) :=
  _ ⇠ sys (SetResGid 0 0 0); sys (SetResUid 0 0 0).
Definition mount_private_root : program (result IoError unit) := sys (Mount None (bs "/") None [MsRec; MsPrivate]).
Definition mount_private_proc : program (result IoError unit) := sys (Mount (Some (bs "proc")) (bs "/proc") (Some (bs "proc")) []).
Definition create_gateway_namespaces : program (result IoError unit) :=
  _ ⇠ sys (Unshare [MountNs; NetNs; PidNs; UtsNs]); mount_private_root.

Definition require_parent_liveness : program (result IoError unit) :=
  ready ⇠ sys PollLiveness;
  Ret (if (ready =? 0)%Z then Ok tt else Err (io_error BrokenPipe (bs "namespace manager exited during gateway startup"))).

Fixpoint wait_for_gateway_init (turns : nat) (child : Z) : program (result IoError Z) :=
  match turns with
  | O => Unfinished
  | S turns =>
      waited ⟵ sys (WaitChild child);
      match waited with
      | Ok (pid, status) =>
          if (pid =? child)%Z then match exit_code_from_wait_status status with Some code => Ret (Ok code) | None => Unfinished end
          else wait_for_gateway_init turns child
      | Err error => match io_kind error with Interrupted => wait_for_gateway_init turns child | _ => Ret (Err error) end
      end
  end.

(** Both sides of the fork. *)
Definition fork_gateway_init (turns : nat) : program (result IoError Z) :=
  _ ⇠ sys LivenessPipe;
  side ⇠ sys Fork;
  match side with
  | InChild =>
      _ ⇠ sys SetDeathSignal;
      _ ⇠ require_parent_liveness;
      _ ⇠ mount_private_proc;
      gateway_init turns
  | InParent child =>
      _ ⇠ sys (SendSupervisor (GatewayNamespaceReady child));
      wait_for_gateway_init turns child
  end.

Definition report_startup_failure (reason : CaptureTransportDegradationReason) (error : IoError) : program (result IoError Z) :=
  _ ⟵ sys (SendSupervisor (ManagerFailed (Wire.of_stage StageNamespace) (Wire.of_reason reason) (IoError_fmt error)));
  Ret (Err error).

Definition manager_entrypoint (turns : nat) : program (result IoError Z) :=
  _ ⇠ sys (CloseDescriptorsExcept [CONTROL_FD]);
  _ ⇠ inherited_control_stream;
  user ⟵ (_ ⇠ arm_parent_death_signal; create_user_namespace);
  match user with
  | Err error => report_startup_failure UserNamespaceDenied error
  | Ok _ =>
      _ ⇠ sys (SendSupervisor UserNamespaceReady);
      maps ⇠ sys ReceiveSupervisor;
      match maps with
      | IdMapsInstalled =>
          gateway ⟵ (_ ⇠ enter_mapped_identity; _ ⇠ arm_parent_death_signal; create_gateway_namespaces);
          match gateway with
          | Err error => report_startup_failure NetnsStartupFailed error
          | Ok _ =>
              _ ⇠ sys (CloneSocket CONTROL_FD);
              r ⟵ fork_gateway_init turns;
              match r with Ok exit => Ret (Ok exit) | Err error => report_startup_failure NetnsStartupFailed error end
          end
      | Shutdown => Ret (Ok 0%Z)
      | _ => Ret (Err (protocol_order "expected uid/gid maps"))
      end
  end.

(** ** The workload's process *)

Record WorkloadSetupFailure := mkSetupFailure { sf_reason : CaptureTransportDegradationReason; sf_error : IoError }.

Definition workload_setup_reason (program : str) (arguments : list str) : CaptureTransportDegradationReason :=
  if bool_decide (program = bs "ip") && bool_decide (head arguments = Some (bs "-6")) then Ipv6Unavailable else NetnsStartupFailed.

(** A path with a zero byte is refused before the call. *)
Definition c_path (path : str) : result IoError str :=
  match position (byte_is x00) path with
  | Some at_ => Err (io_error InvalidInput (bs "nul byte found in provided data at position: " ++ show_uint (Z.of_nat at_)))
  | None => Ok path
  end.
Definition bind_mount_read_only (source target : str) : program (result IoError unit) :=
  source ⇠ Ret (c_path source);
  target ⇠ Ret (c_path target);
  _ ⇠ sys (Mount (Some source) target None [MsBind]);
  sys (Mount None target None [MsBind; MsRemount; MsReadOnly]).

Definition run_workload_command (c : Wire.ExecCommand) : program (result WorkloadSetupFailure unit) :=
  let '(program_, arguments) := Wire.exec_into_parts c in
  let fail := mkSetupFailure (workload_setup_reason program_ arguments) in
  output ⇠ pmap_err fail (sys (RunTool program_ arguments None));
  Ret (map_err fail (require_success (from_utf8_lossy program_) output)).
Definition configure_workload_namespace (commands : list Wire.ExecCommand) (hosts_path resolv_path : str) :
    program (result WorkloadSetupFailure unit) :=
  _ ⇠ pfor commands run_workload_command;
  _ ⇠ pmap_err (mkSetupFailure NetnsStartupFailed) (bind_mount_read_only hosts_path (bs "/etc/hosts"));
  pmap_err (mkSetupFailure ResolverUnavailable) (bind_mount_read_only resolv_path (bs "/etc/resolv.conf")).

Definition set_close_on_exec (fd : Z) : program (result IoError unit) :=
  flags ⇠ sys (GetFdFlags fd); sys (SetFdFlags fd (Z.lor flags FD_CLOEXEC)).
(** [exec] returns only when it failed. *)
Definition exec_locked_down (command : NamespaceCommand) : program (result IoError Z) :=
  _ ⇠ sys (ApplyLockdown [CONTROL_FD]);
  _ ⇠ set_close_on_exec CONTROL_FD;
  error ⟵ sys (Exec command);
  _ ⟵ sys (SendReply (ExecFailed (IoError_fmt error)));
  Ret (Err error).

Definition workload_entrypoint : program (result IoError Z) :=
  _ ⇠ sys (CloseDescriptorsExcept [CONTROL_FD]);
  _ ⇠ inherited_control_stream;
  order ⇠ sys ReceiveOrder;
  match order with
  | WorkloadConfigure commands hosts_path resolv_path =>
      setup ⟵ configure_workload_namespace commands hosts_path resolv_path;
      match setup with
      | Err failure =>
          _ ⟵ sys (SendReply (WorkloadFailed (Wire.of_reason (sf_reason failure)) (IoError_fmt (sf_error failure))));
          Ret (Err (sf_error failure))
      | Ok _ =>
          _ ⇠ sys (SendReply WorkloadReady);
          order ⇠ sys ReceiveOrder;
          match order with
          | WorkloadStart command =>
              _ ⇠ sys (PrepareLockdown [CONTROL_FD]);
              exec_locked_down (Wire.into_command command)
          | WorkloadShutdown => Ret (Ok 0%Z)
          | WorkloadConfigure _ _ _ => Ret (Err (protocol_order "workload configured twice"))
          end
      end
  | WorkloadShutdown => Ret (Ok 0%Z)
  | WorkloadStart _ => Ret (Err (protocol_order "workload start preceded setup"))
  end.

(** ** Evidence

    What a log shows of the steps of a startup. *)

Notation evidence := (list (entry answer → Prop)).
Definition answered (c : sys_call) (r : answer c) : entry answer → Prop := eq (mkEntry c r).
(** A tool that succeeded, with an output that satisfies [good]. *)
Definition tool_ok (program : str) (arguments : list str) (stdin : option str) (good : str → Prop) (e : entry answer) : Prop :=
  ∃ out, e = mkEntry (RunTool program arguments stdin) (Ok out) ∧ out_success out = true ∧ good (out_stdout out).
Definition reads_zero (path : str) (e : entry answer) : Prop := ∃ v, e = mkEntry (FsRead path) (Ok v) ∧ trim v = bs "0".

Definition carrier_evidence (v6 : bool) : evidence :=
  [tool_ok (bs "ip") (words ["-details"; "link"; "show"; "dev"] ++ [PASTA_INTERFACE]) None
     (λ out, contains (bs "mtu " ++ show_uint LINK_MTU) (from_utf8_lossy out) = true);
   tool_ok (bs "ip") (words ["-4"; "route"; "show"; "default"]) None (λ out, out ≠ [])]
  ++ if v6 then [tool_ok (bs "ip") (words ["-6"; "route"; "show"; "default"]) None (λ out, out ≠ [])] else [].
Definition sysctl_evidence : evidence :=
  concat ((λ path, [answered (FsWrite path (bs "0")) (Ok tt); reads_zero path]) <$> (gateway_sysctls ++ [PORT_START])).
(** Each socket is transparent before it is bound; all have one port. *)
Definition listener_evidence (requested : option Z) (l : TransparentListeners) : evidence :=
  [answered (SetSocketOption (tl_tcp4 l) SOL_IP IP_TRANSPARENT 1) (Ok tt);
   answered (BindSocket (tl_tcp4 l) (SockV4 UNSPECIFIED_V4 (default 0%Z requested))) (Ok tt);
   answered (ListenSocket (tl_tcp4 l) 128) (Ok tt);
   answered (LocalAddress (tl_tcp4 l)) (Ok (tl_port l));
   answered (SetSocketOption (tl_tcp6 l) IPPROTO_IPV6 IPV6_TRANSPARENT 1) (Ok tt);
   answered (BindSocket (tl_tcp6 l) (SockV6 UNSPECIFIED_V6 (tl_port l) 0 0)) (Ok tt);
   answered (ListenSocket (tl_tcp6 l) 128) (Ok tt);
   answered (SetSocketOption (tl_udp4 l) SOL_IP IP_TRANSPARENT 1) (Ok tt);
   answered (SetSocketOption (tl_udp4 l) SOL_IP IP_RECVORIGDSTADDR 1) (Ok tt);
   answered (BindSocket (tl_udp4 l) (SockV4 UNSPECIFIED_V4 (tl_port l))) (Ok tt);
   answered (SetSocketOption (tl_udp6 l) IPPROTO_IPV6 IPV6_TRANSPARENT 1) (Ok tt);
   answered (SetSocketOption (tl_udp6 l) IPPROTO_IPV6 IPV6_RECVORIGDSTADDR 1) (Ok tt);
   answered (BindSocket (tl_udp6 l) (SockV6 UNSPECIFIED_V6 (tl_port l) 0 0)) (Ok tt)].
Definition wrote_hosts (file : str) (e : entry answer) : Prop :=
  ∃ existing, e = mkEntry (WriteTempFile file (generated_hosts existing)) (Ok tt).
Definition files_evidence (hosts resolv resolv_conf : str) : evidence :=
  [wrote_hosts hosts; answered (WriteTempFile resolv resolv_conf) (Ok tt)].
(** The helper runs in its own network and mount namespaces. *)
Definition spawned_helper (pid : Z) (e : entry answer) : Prop :=
  ∃ exe fd, e = mkEntry (Spawn (arg (NamespaceCommand_new exe) WORKLOAD_ROLE) (workload_pre_exec fd)) (Ok pid).
Definition setup_evidence (plan : RoutingPlan) : evidence :=
  (λ c, tool_ok (cmd_program c) (cmd_args c) (routing_stdin c (Some (rp_nft_script plan))) (λ _, True)) <$> gateway_commands plan.
Definition configure_evidence (plan : RoutingPlan) (hosts resolv : str) : evidence :=
  [answered (SendWorkload (WorkloadConfigure (wire_routing_command <$> workload_commands plan) hosts resolv)) (Ok tt);
   answered ReceiveWorkload (Ok WorkloadReady)].
Definition spawned_worker (worker : Wire.Command) (l : TransparentListeners) (pid : Z) (e : entry answer) : Prop :=
  ∃ fd, e = mkEntry (Spawn (Wire.into_command worker) (worker_pre_exec l fd)) (Ok pid).
Definition worker_evidence (worker : Wire.Command) (l : TransparentListeners) (pid : Z) : evidence :=
  [answered (PrepareLockdown worker_descriptors) (Ok tt); spawned_worker worker l pid; answered ReceiveReadiness (Ok [x01])].

(** A startup: what was asked, and what the system answered. *)
Record startup := mkStartup {
  su_parts : Wire.ProvisionParts; su_listeners : TransparentListeners; su_hosts : str; su_resolv : str;
  su_workload_pid : Z; su_worker_pid : Z }.
Definition su_plan (u : startup) : RoutingPlan :=
  RoutingPlan_new (su_workload_pid u) (tl_port (su_listeners u)) (Wire.p_require_ipv6 (su_parts u)).
(** Everything that precedes the start of the workload. *)
Definition captured_evidence (u : startup) : evidence :=
  carrier_evidence (Wire.p_require_ipv6 (su_parts u)) ++ sysctl_evidence
  ++ listener_evidence (Wire.p_port (su_parts u)) (su_listeners u)
  ++ files_evidence (su_hosts u) (su_resolv u) (Wire.p_resolv_conf (su_parts u))
  ++ [spawned_helper (su_workload_pid u)]
  ++ setup_evidence (su_plan u)
  ++ configure_evidence (su_plan u) (su_hosts u) (su_resolv u)
  ++ worker_evidence (Wire.p_gateway_worker (su_parts u)) (su_listeners u) (su_worker_pid u).

(** ** Proof automation *)

(** The entries that count: the start of the workload, and what is reported. *)
Definition reported (e : entry answer) : Prop :=
  match en_call e with SendWorkload (WorkloadStart _) | SendSupervisor _ => True | _ => False end.

Ltac wp_one :=
  lazymatch goal with
  | |- wp ?P (sys ?c) _ => refine (wp_perform P c _ _ _); [intros ? []|intros ?]
  | _ => wp_rule
  end.
Ltac wp_steps := repeat (wp_one; cbn [app]).
Ltac accept :=
  intros ? <-; unfold answered, tool_ok, reads_zero, wrote_hosts, spawned_helper, spawned_worker;
  first [reflexivity | repeat eexists; eauto; done].
Ltac entail :=
  repeat rewrite app_nil_r; repeat rewrite <- app_assoc; cbn [app fmap list_fmap];
  repeat first [match goal with H : ?es ⊑ₑ ?F |- ?es ++ _ ⊑ₑ _ => refine (entails_app es F _ _ H _) end
               | apply entails_take; [solve [accept]|] | apply entails_skip | apply entails_nil | reflexivity].

Lemma require_success_Ok op out : require_success op out = Ok tt → out_success out = true.
Proof. unfold require_success. by destruct (out_success out). Qed.
Lemma length_nonzero (s : str) : Nat.eqb (length s) 0 = false → s ≠ [].
Proof. by destruct s. Qed.
#[local] Hint Resolve require_success_Ok length_nonzero : core.

Lemma validate_carrier_wp v6 :
  wp reported (validate_carrier v6) (λ es r, r = Ok tt → es ⊑ₑ carrier_evidence v6).
Proof.
  unfold validate_carrier, carrier_evidence. wp_steps; try done; intros _; rewrite ?negb_false_iff in *; entail.
Qed.

Lemma zero_read {b : bool} {A B} {x : A} {e : B} : (if b then Ok x else Err e) = Ok x → b = true.
Proof. by destruct b. Qed.

Lemma read_to_string_wp path :
  wp reported (read_to_string path) (λ es r, ∀ v, r = Ok v → es ⊑ₑ [answered (FsRead path) (Ok v)]).
Proof.
  unfold read_to_string, from_utf8. wp_steps; [|done]. destruct (utf8_valid a); intros v [= <-]. entail.
Qed.

Lemma zero_sysctl_wp path text :
  wp reported (_ ⇠ sys (FsWrite path (bs "0"));
               value ⇠ read_to_string path;
               Ret (if bool_decide (trim value = bs "0") then Ok tt else Err (io_other text)))
    (λ es r, r = Ok tt → es ⊑ₑ [answered (FsWrite path (bs "0")) (Ok tt); reads_zero path]).
Proof.
  wp_steps; [|done]. eapply wp_mono; [apply read_to_string_wp|]. intros es [v|e] Hes; [|done]. wp_steps.
  intros Hz%zero_read%bool_decide_eq_true. apply (entails_app [_] [_]); [entail|]. rewrite app_nil_r.
  etrans; [apply Hes; done|]. apply entails_take; [|apply entails_nil]. unfold answered, reads_zero. intros ? <-. eauto.
Qed.

Lemma configure_gateway_sysctls_wp : wp reported configure_gateway_sysctls (λ es r, r = Ok tt → es ⊑ₑ sysctl_evidence).
Proof.
  unfold configure_gateway_sysctls. apply wp_ptry.
  eapply wp_mono; [apply wp_pfor; intros x _; apply zero_sysctl_wp|].
  intros es [[]|e] Hes; [|done]. unfold sysctl_evidence. rewrite fmap_app, concat_app.
  eapply wp_mono; [apply zero_sysctl_wp|]. intros es' r Hes' Hr. apply entails_app; auto.
Qed.

Lemma local_port_wp fd : wp reported (local_port_ipv4 fd) (λ es r, ∀ p, r = Ok p → es ⊑ₑ [answered (LocalAddress fd) (Ok p)]).
Proof.
  unfold local_port_ipv4, NonZeroU16_new. wp_steps; [|done]. destruct (a =? 0)%Z; intros v [= <-]. entail.
Qed.

Lemma bind_listeners_wp requested :
  wp reported (TransparentListeners_bind requested) (λ es r, ∀ l, r = Ok l → es ⊑ₑ listener_evidence requested l).
Proof.
  unfold TransparentListeners_bind, create_ipv4_listener, create_ipv6_listener, create_ipv4_udp_listener, create_ipv6_udp_listener,
    create_socket, set_socket_option, bind_ipv4, bind_ipv6, bind_specific_ipv4, bind_specific_ipv6, listen.
  wp_steps; try done. eapply wp_mono; [apply local_port_wp|]. intros es [p|e] Hes; [|done]. specialize (Hes p eq_refl).
  wp_steps; try done. intros l [= <-]. unfold listener_evidence. cbn [tl_tcp4 tl_tcp6 tl_udp4 tl_udp6 tl_port fst snd]. entail.
Qed.

Lemma generated_hosts_file_wp :
  wp reported generated_hosts_file (λ es r, ∀ file, r = Ok file → es ⊑ₑ [wrote_hosts file]).
Proof. unfold generated_hosts_file. wp_steps; try done. intros f [= <-]. entail. Qed.
Lemma generated_resolv_file_wp contents :
  wp reported (generated_resolv_file contents) (λ es r, ∀ file, r = Ok file → es ⊑ₑ [answered (WriteTempFile file contents) (Ok tt)]).
Proof. unfold generated_resolv_file. wp_steps; try done. intros f [= <-]. entail. Qed.

Lemma pid_of_child_Ok id missing pid : pid_of_child id missing = Ok pid → pid = id.
Proof. unfold pid_of_child. destruct (id <=? pid_max)%Z; naive_solver. Qed.
Lemma pid_u32_Ok pid p : pid_u32 pid = Ok p → p = pid.
Proof. unfold pid_u32. destruct (pid <? 0)%Z; naive_solver. Qed.

Lemma spawn_workload_helper_wp :
  wp reported spawn_workload_helper (λ es r, ∀ pid, r = Ok pid → es ⊑ₑ [spawned_helper pid]).
Proof. unfold spawn_workload_helper. wp_steps; try done. intros pid ->%pid_of_child_Ok. entail. Qed.

Lemma spawn_gateway_worker_wp worker l :
  wp reported (spawn_gateway_worker worker l) (λ es r, ∀ w, r = Ok w → es ⊑ₑ worker_evidence worker l w.1).
Proof.
  unfold spawn_gateway_worker. wp_steps; try done. intros w [= <-].
  repeat match goal with H : negb _ = false |- _ => apply negb_false_iff in H end.
  match goal with H : pid_of_child _ _ = _ |- _ => apply pid_of_child_Ok in H as -> end.
  match goal with H : bool_decide _ = true |- _ => apply bool_decide_eq_true in H as -> end.
  unfold worker_evidence. entail.
Qed.

Lemma execute_routing_command_wp c script :
  wp reported (execute_routing_command c script)
    (λ es r, r = Ok tt → es ⊑ₑ [tool_ok (cmd_program c) (cmd_args c) (routing_stdin c script) (λ _, True)]).
Proof. unfold execute_routing_command. wp_steps; try done. intros Hr. entail. Qed.

Lemma concat_imap {A B} (f : A → B) (l : list A) : concat ((λ ic, [f ic.2]) <$> imap pair l) = f <$> l.
Proof.
  rewrite fmap_imap. change (concat (imap (λ _ x, [f x]) l) = f <$> l).
  induction l as [|x l IH]; [done|]. cbn. f_equal. exact IH.
Qed.

Lemma execute_gateway_setup_wp plan : wp reported (execute_gateway_setup plan) (λ es r, r = Ok tt → es ⊑ₑ setup_evidence plan).
Proof.
  unfold execute_gateway_setup, setup_evidence. rewrite <- concat_imap.
  apply wp_pfor. intros [i c] _. apply wp_pmap_err. eapply wp_mono; [apply execute_routing_command_wp|].
  cbn. intros es [[]|e] Hes Hr; [auto|]. by destruct (gateway_setup_failure i c).
Qed.

Lemma configure_workload_wp plan hosts resolv :
  wp reported (configure_workload plan hosts resolv) (λ es r, r = Ok tt → es ⊑ₑ configure_evidence plan hosts resolv).
Proof. unfold configure_workload, configure_evidence. wp_steps; try done. by destruct a. Qed.

(** ** Supervision and teardown *)

Definition reaped_entry (pid : Z) (exit : SubstrateExit) (e : entry answer) : Prop :=
  ∃ status, e = mkEntry WaitAny (Reaped pid status) ∧ substrate_exit_from_wait_status status = Some exit.
Definition no_children (e : entry answer) : Prop := ∃ text, e = mkEntry WaitAny (WaitFailed ECHILD text).
Definition veth_gone (c : NamespacedCommand) (e : entry answer) : Prop :=
  tool_ok (cmd_program c) (cmd_args c) (routing_stdin c None) (λ _, True) e
  ∨ e = mkEntry (InterfaceIndex GATEWAY_INTERFACE) (Err ENODEV).
Definition killed : entry answer → Prop := answered KillDescendants tt.
(** A teardown, whatever it met: the link and the rest were asked to go, every
    process was killed, and the reaping begun at [start] ended, because nobody is
    left, because waiting failed, or because its time was over. *)
Definition tool_ran (c : NamespacedCommand) (e : entry answer) : Prop :=
  ∃ r, e = mkEntry (RunTool (cmd_program c) (cmd_args c) (routing_stdin c None)) r.
Definition reaping_over (start : Z) (e : entry answer) : Prop :=
  (∃ errno text, e = mkEntry WaitAny (WaitFailed errno text)) ∨ ∃ now, e = mkEntry Now now ∧ (start + REAP_TIMEOUT ≤ now)%Z.
Definition cleanup_evidence (plan : RoutingPlan) (start : Z) : evidence :=
  (tool_ran <$> take 1 (rp_teardown plan)) ++ [killed] ++ (tool_ran <$> drop 1 (rp_teardown plan)) ++ [answered Now start; reaping_over start].
(** A teardown that reports nothing: the link is gone, every process was killed
    and reaped, the rules and routes were removed. *)
Definition clean_evidence (plan : RoutingPlan) : evidence :=
  (veth_gone <$> take 1 (rp_teardown plan)) ++ [killed]
  ++ ((λ c, tool_ok (cmd_program c) (cmd_args c) (routing_stdin c None) (λ _, True)) <$> drop 1 (rp_teardown plan)) ++ [no_children].

Lemma reap_available_children_wp turns exits :
  wp reported (reap_available_children turns exits)
    (λ es exits', ∀ pid exit, (pid, exit) ∈ exits' → (pid, exit) ∈ exits ∨ es ⊑ₑ [reaped_entry pid exit]).
Proof.
  revert exits. induction turns as [|turns IH]; intros exits; cbn [reap_available_children]; [apply wp_unfinished|].
  wp_steps; [|by left..].
  eapply wp_mono; [apply IH|]. intros es exits' H p x' [Hin|Hes]%H; [|by right; apply entails_skip].
  apply elem_of_app in Hin as [?|[= -> ->]%list_elem_of_singleton]; [by left|right].
  apply entails_take; [|apply entails_nil]. intros ? <-. by exists status.
Qed.

Lemma quiet_bind {A B} (p : program A) (f : A → program B) Φ :
  wp reported p (λ _ _, True) → (∀ a, wp reported (f a) (λ _ b, Φ b)) → wp reported (pbind f p) (λ _ b, Φ b).
Proof. intros Hp Hf. apply wp_pbind. eapply wp_mono; [exact Hp|]. intros es a _. apply Hf. Qed.
Lemma quiet_try {E A B} (p : program (result E A)) (f : A → program (result E B)) :
  wp reported p (λ _ _, True) → (∀ a, wp reported (f a) (λ _ _, True)) → wp reported (ptry p f) (λ _ _, True).
Proof. intros Hp Hf. apply wp_ptry. eapply wp_mono; [exact Hp|]. intros es [a|e] _; [apply Hf|done]. Qed.

Lemma reply_socket_quiet key : wp reported (create_transparent_reply_socket key) (λ _ _, True).
Proof.
  unfold create_transparent_reply_socket, create_socket, set_socket_option, connect_socket, bind_specific_ipv4, bind_specific_ipv6.
  destruct (fk_destination key); cbn [sock_is_ipv4]; wp_steps; done.
Qed.
Lemma answer_broker_quiet d : wp reported (answer_broker d) (λ _ _, True).
Proof.
  unfold answer_broker, send_broker_error, send_broker_socket. destruct (decode_request d); [|wp_steps; done].
  apply quiet_bind; [apply reply_socket_quiet|]. intros [s|e]; wp_steps; done.
Qed.
Lemma service_gateway_control_quiet turns : wp reported (service_gateway_control turns) (λ _ _, True).
Proof.
  induction turns as [|turns IH]; cbn [service_gateway_control]; [apply wp_unfinished|].
  wp_steps; [|done..]. eapply wp_mono; [apply answer_broker_quiet|]. intros es [[]|e] _; [exact IH|done].
Qed.

Lemma terminal_workload exits wpid gpid exit :
  terminal_from_reaped exits wpid gpid = Some (TerminalWorkload exit) →
  (wpid, exit) ∈ exits ∧ ∀ e, e ∈ exits → gpid ≠ Some e.1.
Proof.
  unfold terminal_from_reaped. destruct (list_find _ exits) as [[i [p x]]|] eqn:Hf; [done|].
  intros Hw. destruct (list_find (λ e, e.1 = wpid) exits) as [[i [p x]]|] eqn:Hg; simplify_eq/=.
  apply list_find_Some in Hg as (Hl & <- & _). apply list_find_None in Hf. split; [by eapply list_elem_of_lookup_2|].
  by rewrite Forall_forall in Hf.
Qed.

Lemma supervise_children_wp turns running :
  wp reported (supervise_children turns running)
    (λ es t, ∀ exit, t = TerminalWorkload exit → es ⊑ₑ [reaped_entry (rg_workload_pid running) exit]).
Proof.
  induction turns as [|turns IH]; cbn [supervise_children]; [apply wp_unfinished|].
  apply wp_pbind. eapply wp_mono; [apply reap_available_children_wp|]. intros es exits Hreaped.
  destruct (terminal_from_reaped _ _ _) as [t|] eqn:Ht.
  { apply wp_ret. intros exit ->. rewrite app_nil_r. apply terminal_workload in Ht as [Hin _].
    by destruct (Hreaped _ _ Hin) as [?%not_elem_of_nil|]. }
  apply wp_pbind. eapply (wp_mono _ _ (λ _ _, True)).
  { destruct (rg_broker running); [apply service_gateway_control_quiet|]. by apply wp_ret. }
  intros es1 [[]|e] _; [|by apply wp_ret]. unfold control_readable. wp_steps; try done.
  - intros exit Hx. by destruct r as [[]|].
  - eapply wp_mono; [apply IH|]. intros es2 t H exit Hx. do 2 apply entails_later. apply entails_skip. auto.
Qed.

Lemma execute_routing_command_ran c : wp reported (execute_routing_command c None) (λ es r,
  es ⊑ₑ [tool_ran c] ∧ (r = Ok tt → es ⊑ₑ [tool_ok (cmd_program c) (cmd_args c) (routing_stdin c None) (λ _, True)])).
Proof.
  unfold execute_routing_command. wp_steps; (split; [apply entails_take; [intros ? <-; by eexists|apply entails_nil]|]); [|done].
  intros Hr. entail.
Qed.
Lemma run_teardown_wp cs :
  wp reported (run_teardown cs) (λ es fs, es ⊑ₑ (tool_ran <$> cs) ∧ (fs = [] →
    es ⊑ₑ ((λ c, tool_ok (cmd_program c) (cmd_args c) (routing_stdin c None) (λ _, True)) <$> cs))).
Proof.
  induction cs as [|c cs IH]; cbn [run_teardown]; [apply wp_ret; split; [|intros _]; apply entails_nil|].
  apply wp_pbind. eapply wp_mono; [apply execute_routing_command_ran|]. intros es r [Hran Hes].
  apply wp_pbind. eapply wp_mono; [apply IH|]. intros es' rest [Hran' Hes']. apply wp_ret. rewrite app_nil_r. split.
  - by apply (entails_app es [_]).
  - intros Hnil. destruct r as [[]|e]; [|done]. cbn. apply (entails_app es [_]); auto.
Qed.

Lemma reap_until_wp turns start :
  wp reported (reap_until turns (start + REAP_TIMEOUT)) (λ es r, es ⊑ₑ [reaping_over start] ∧ (r = Ok tt → es ⊑ₑ [no_children])).
Proof.
  induction turns as [|turns IH]; cbn [reap_until]; [apply wp_unfinished|].
  apply wp_pbind. eapply (wp_mono _ _ (λ _ _, True)); [eapply wp_mono; [apply reap_available_children_wp|done]|].
  intros es exits _. apply wp_pbind.
  apply (wp_mono _ _ (λ es r, (∀ x, r = Some x → es ⊑ₑ [reaping_over start]) ∧ (r = Some (Ok tt) → es ⊑ₑ [no_children]))).
  { destruct exits; [|by apply wp_ret]. unfold no_children_left. wp_steps. destruct r; try done. split.
    - intros x _. apply entails_take; [|apply entails_nil]. intros ? <-. left. by eexists _, _.
    - destruct (Z.eqb_spec errno ECHILD) as [->|]; [|done]. intros _. apply entails_take; [|apply entails_nil].
      intros ? <-. by exists text. }
  intros es1 [r|] [Hover Hr].
  - apply wp_ret. rewrite app_nil_r. split; [|intros ->]; apply entails_later; eauto.
  - wp_steps.
    + split; [|done]. do 2 apply entails_later. apply entails_take; [|apply entails_nil]. intros ? <-. right. eexists. split; [done|].
      by apply Z.leb_le.
    + eapply wp_mono; [apply IH|]. intros es2 r2 [H2 H3]. split; [|intros ->]; do 2 apply entails_later; do 2 apply entails_skip; auto.
Qed.

Lemma cleanup_gateway_wp turns running :
  wp reported (cleanup_gateway turns running) (λ es fs, (∃ start, es ⊑ₑ cleanup_evidence (rg_routing running) start) ∧
    (fs = [] → es ⊑ₑ clean_evidence (rg_routing running))).
Proof.
  unfold cleanup_gateway, clean_evidence, cleanup_evidence. apply wp_pbind.
  apply (wp_mono _ _ (λ es fs, es ⊑ₑ (tool_ran <$> take 1 (rp_teardown (rg_routing running))) ∧
    (fs = [] → es ⊑ₑ (veth_gone <$> take 1 (rp_teardown (rg_routing running)))))).
  { destruct (rp_teardown _) as [|veth rest]; [apply wp_ret; split; [|intros _]; apply entails_nil|].
    unfold delete_veth, network_interface_is_absent. apply wp_pbind. eapply wp_mono; [apply execute_routing_command_ran|].
    intros es [[]|e] [Hran Hes].
    - apply wp_ret. rewrite app_nil_r. split; [done|]. intros _. etrans; [by apply Hes|]. apply entails_take; [|apply entails_nil]. by left.
    - wp_steps. split; [by apply entails_first|]. destruct r as [|errno]; [done|]. destruct (Z.eqb_spec errno ENODEV) as [->|]; [|done]. intros _.
      apply entails_later, entails_take; [|apply entails_nil]. intros ? <-. by right. }
  intros es1 fs1 [Hran1 H1]. wp_steps. destruct r. eapply wp_mono; [apply run_teardown_wp|]. intros es2 fs2 [Hran2 H2]. unfold reap_descendants. wp_steps.
  eapply wp_mono; [apply reap_until_wp|]. intros es3 r3 [Hover H3]. apply wp_ret. rewrite app_nil_r. split.
  - eexists. apply entails_app; [done|]. apply entails_take; [done|]. apply entails_app; [done|]. by apply entails_take.
  - intros (-> & (-> & Hr)%app_eq_nil)%app_eq_nil. apply entails_app; [auto|]. apply entails_take; [done|].
    apply entails_app; [auto|]. apply entails_skip. by destruct r3 as [[]|]; auto.
Qed.

(** ** What a report rests on *)

Definition exec_acknowledged (e : entry answer) : Prop :=
  ∃ error, e = mkEntry ReceiveWorkload (Err error) ∧ io_kind error = UnexpectedEof.
(** The workload runs, captured. *)
Definition running_evidence (u : startup) : evidence :=
  captured_evidence u ++ [answered (SendWorkload (WorkloadStart (Wire.p_workload (su_parts u)))) (Ok tt); exec_acknowledged].

(** What is known before an entry: [cmd] starts only a captured workload, an
    exit is the workload's own, a clean report follows a clean teardown. *)
Definition justified (request : Wire.Provision) (es : evidence) (s : entry answer) : Prop :=
  match en_call s with
  | SendWorkload (WorkloadStart cmd) =>
      ∃ u, Wire.into_parts request = Ok (su_parts u) ∧ cmd = Wire.p_workload (su_parts u) ∧ es ⊑ₑ captured_evidence u
  | SendSupervisor (Ready info) =>
      ∃ u i, Wire.into_parts request = Ok (su_parts u) ∧ substrate_info (tl_port (su_listeners u)) = Ok i ∧ info = Wire.of_info i ∧
             es ⊑ₑ running_evidence u
  | SendSupervisor (WorkloadExited exit) =>
      ∃ u x, Wire.into_parts request = Ok (su_parts u) ∧ exit = Wire.of_exit x ∧
             ∃ start, es ⊑ₑ running_evidence u ++ [reaped_entry (su_workload_pid u) x] ++ cleanup_evidence (su_plan u) start
  | SendSupervisor (CleanupComplete failures) =>
      ∃ u start, Wire.into_parts request = Ok (su_parts u) ∧ es ⊑ₑ running_evidence u ++ cleanup_evidence (su_plan u) start ∧
           (failures = [] → es ⊑ₑ running_evidence u ++ clean_evidence (su_plan u))
  | SendSupervisor (ManagerFailed _ _ _) => True
  | _ => False
  end.

Lemma justified_mono request es es' s : es' ⊑ₑ es → justified request es s → justified request es' s.
Proof.
  unfold justified. intros Hes. destruct (en_call s); try done.
  - destruct message; try done.
    + intros (u & i & ? & ? & ? & H). exists u, i. split_and!; [done..|]. by rewrite Hes.
    + intros (u & x & ? & ? & start & H). exists u, x. split_and!; [done..|]. exists start. by rewrite Hes.
    + intros (u & start & ? & H & Hc). exists u, start. split_and!; [done|by rewrite Hes|]. intros Hf. rewrite Hes. auto.
  - destruct message; try done. intros (u & ? & ? & H). exists u. split_and!; [done..|]. by rewrite Hes.
Qed.

Lemma abandon_quiet {A} turns running failure : wp reported (abandon (A := A) turns running failure) (λ _ _, True).
Proof. apply quiet_bind; [|intros; by apply wp_ret]. eapply wp_mono; [apply cleanup_gateway_wp|done]. Qed.

Lemma located_guarded {A B} turns running (p : program (result ManagerFailure A)) (f : A → program (result ManagerFailure B)) R :
  wp reported p (λ es r, match r with Ok a => located reported (f a) (λ es' s, R (es ++ es') s) | Err _ => True end) →
  located reported (guarded turns running p f) R.
Proof.
  intros Hp. apply located_pbind. eapply wp_mono; [exact Hp|]. intros es [a|e] H; [done|].
  eapply located_quiet, abandon_quiet.
Qed.

Lemma located_ret {A} (a : A) R : located reported (Ret a) R.
Proof. eapply located_quiet, (wp_ret _ _ (λ _ _, True)). done. Qed.

Lemma located_send stage m (f : unit → program (result ManagerFailure SubstrateExit)) R :
  (∀ r, R [] (mkEntry (SendSupervisor m) r)) →
  located reported (f tt) (λ es s, R (answered (SendSupervisor m) (Ok tt) :: es) s) →
  located reported (ptry (send_supervisor stage m) f) R.
Proof. intros HR Hf. refine (located_Call _ (SendSupervisor m) _ _ HR _). intros [[]|e]; [exact Hf|apply located_ret]. Qed.
Lemma located_guarded_send {B} turns running stage m (f : unit → program (result ManagerFailure B)) R :
  (∀ r, R [] (mkEntry (SendSupervisor m) r)) →
  located reported (f tt) (λ es s, R (answered (SendSupervisor m) (Ok tt) :: es) s) →
  located reported (guarded turns running (send_supervisor stage m) f) R.
Proof.
  intros HR Hf. refine (located_Call _ (SendSupervisor m) _ _ HR _).
  intros [[]|e]; [exact Hf|eapply located_quiet, abandon_quiet].
Qed.

Lemma validate_fragment_counters_quiet v6 : wp reported (validate_fragment_counters v6) (λ _ _, True).
Proof.
  unfold validate_fragment_counters. eapply wp_mono; [|done].
  apply (wp_pfor _ _ _ (λ _, [])). intros [family counter] _. unfold validate_fragment_counter. wp_steps; try done.
  intros _. apply entails_nil.
Qed.

Lemma finish_gateway_located turns u request v6 validate running :
  Wire.into_parts request = Ok (su_parts u) → rg_workload_pid running = su_workload_pid u → rg_routing running = su_plan u →
  located reported (finish_gateway turns running v6 validate) (λ es s, justified request (running_evidence u ++ es) s).
Proof.
  intros Hparts Hpid Hplan. unfold finish_gateway. apply located_pbind. eapply wp_mono; [apply supervise_children_wp|].
  intros es1 terminal Hterm. apply located_pbind. eapply (wp_mono _ _ (λ _ _, True)).
  { destruct terminal as [[[]|]| | |]; try (by apply wp_ret). destruct validate; [|by apply wp_ret].
    wp_steps. apply validate_fragment_counters_quiet. }
  intros es2 validation _. apply located_pbind. eapply wp_mono; [apply cleanup_gateway_wp|]. intros es3 failures [[start Hrun] Hclean].
  rewrite Hplan in Hclean, Hrun.
  assert (∀ es r, justified request (running_evidence u ++ es1 ++ es2 ++ es3 ++ es) (mkEntry (SendSupervisor (CleanupComplete failures)) r)) as Hdone.
  { intros es r. exists u, start. split_and!; [done| |intros Hnil].
    all: apply entails_app; [done|]; do 2 apply entails_later; apply entails_first; auto. }
  destruct validation as [[]|error].
  2:{ apply located_send; [done|]. apply located_send; [intros; by apply (Hdone [_])|]. apply located_ret. }
  destruct terminal as [exit|exit| |]; [| | |apply located_ret].
  - apply located_send; [intros r|apply located_send; [intros; by apply (Hdone [_])|apply located_ret]].
    exists u, exit. split_and!; [done..|]. exists start. apply entails_app; [done|]. rewrite <- Hpid.
    apply (entails_app es1 [_]); [auto|]. apply entails_later. by apply entails_first.
  - apply located_send; [done|]. apply located_send; [intros; by apply (Hdone [_])|apply located_ret].
  - apply located_send; [intros; by apply (Hdone [])|apply located_ret].
Qed.

Lemma start_workload_located turns u request v6 validate running :
  Wire.into_parts request = Ok (su_parts u) → rg_workload_pid running = su_workload_pid u → rg_routing running = su_plan u →
  located reported
    (guarded turns running (pmap_err (failure_new StageWorkload) (start_workload (Wire.p_workload (su_parts u)))) (λ _,
     guarded turns running (Ret (substrate_info (tl_port (su_listeners u)))) (λ info,
     guarded turns running (send_supervisor StageNamespace (Ready (Wire.of_info info))) (λ _,
     finish_gateway turns running v6 validate))))
    (λ es s, justified request (captured_evidence u ++ es) s).
Proof.
  intros Hparts Hpid Hplan. apply located_both.
  - refine (located_Call _ (SendWorkload _) _ _ _ _).
    + intros r. exists u. split_and!; [done..|]. by rewrite app_nil_r.
    + intros [[]|e]; [|apply located_ret].
      refine (located_quiet _ _ _ (λ _ _, True) (wp_Call _ ReceiveWorkload _ _ _ _)); [by intros r []|]. intros r. by apply wp_ret.
  - intros log a Hr. cbn in Hr. destruct Hr as [[_ [=]]|(sent & rest & -> & Hr)]. destruct sent as [[]|e].
    2:{ destruct Hr as [-> [[=]|[= ->]]]. exists []. split; [constructor|]. eapply located_quiet, abandon_quiet. }
    cbn in Hr. destruct Hr as [[_ [=]]|(reply & rest' & -> & -> & [[=]|[= ->]])].
    destruct (match reply with Err error => _ | Ok _ => _ end) as [[]|e] eqn:Hack; cbn [map_err].
    2:{ exists []. split; [constructor|]. eapply located_quiet, abandon_quiet. }
    exists [answered (SendWorkload (WorkloadStart (Wire.p_workload (su_parts u)))) (Ok tt); exec_acknowledged]. split.
    { constructor; [done|]. apply shows_one. destruct reply as [[]|error]; [done..|]. exists error. split; [done|].
      by destruct (io_kind error). }
    apply located_guarded, wp_ret. destruct (substrate_info _) as [info|] eqn:Hinfo; [|done].
    apply located_guarded_send.
    + intros r. exists u, info. split_and!; [done..|]. unfold running_evidence. by rewrite !app_nil_r.
    + eapply located_mono; [by apply finish_gateway_located|]. intros es s. apply justified_mono. unfold running_evidence.
      rewrite <- app_assoc. apply entails_app; [done|]. apply entails_app; [done|]. by apply entails_skip.
Qed.

(** ** The whole startup *)

Lemma start_gateway_located turns request : located reported (start_gateway turns request) (justified request).
Proof.
  unfold start_gateway. apply located_ptry, wp_ret. destruct (Wire.into_parts request) as [parts|] eqn:Hparts; [|done]. cbn [map_err].
  apply located_ptry. eapply wp_mono; [apply validate_carrier_wp|]. intros e1 [[]|] H1; [|done]. specialize (H1 eq_refl).
  apply located_ptry, wp_pmap_err. eapply wp_mono; [apply configure_gateway_sysctls_wp|]. intros e2 [[]|] H2; [|done]. specialize (H2 eq_refl).
  apply located_ptry, wp_pmap_err. eapply wp_mono; [apply bind_listeners_wp|]. intros e3 [l|] H3; [|done]. specialize (H3 l eq_refl).
  apply located_ptry, wp_pmap_err. eapply wp_mono; [apply generated_hosts_file_wp|]. intros e4 [hosts|] H4; [|done]. specialize (H4 hosts eq_refl).
  apply located_ptry, wp_pmap_err. eapply wp_mono; [apply generated_resolv_file_wp|]. intros e5 [resolv|] H5; [|done]. specialize (H5 resolv eq_refl).
  apply located_ptry, wp_pmap_err. eapply wp_mono; [apply spawn_workload_helper_wp|]. intros e6 [pid|] H6; [|done]. specialize (H6 pid eq_refl).
  apply located_ptry, wp_ret. destruct (pid_u32 pid) as [pid'|] eqn:Hpid; [|done]. apply pid_u32_Ok in Hpid as ->.
  apply located_guarded. eapply wp_mono; [apply execute_gateway_setup_wp|]. intros e7 [[]|] H7; [|done]. specialize (H7 eq_refl).
  apply located_guarded. eapply wp_mono; [apply configure_workload_wp|]. intros e8 [[]|] H8; [|done]. specialize (H8 eq_refl).
  apply located_guarded. wp_steps; [|done].
  apply located_guarded. wp_steps; [|done].
  apply located_guarded, wp_pmap_err. eapply wp_mono; [apply spawn_gateway_worker_wp|]. intros e9 [w|] H9; [|done]. specialize (H9 w eq_refl).
  set (u := mkStartup parts l hosts resolv pid w.1).
  eapply located_mono; [by apply (start_workload_located turns u request)|]. intros es s. apply justified_mono.
  unfold captured_evidence, files_evidence, su_plan. cbn [su_parts su_listeners su_hosts su_resolv su_workload_pid su_worker_pid u app].
  repeat rewrite <- app_assoc. refine (entails_app _ _ _ _ H1 (entails_app _ _ _ _ H2 (entails_app _ _ _ _ H3 _))). cbn [app].
  refine (entails_app _ [_] _ _ H4 (entails_app _ [_] _ _ H5 (entails_app _ [_] _ _ H6 _))).
  repeat rewrite <- app_assoc. refine (entails_app _ _ _ _ H7 (entails_app _ _ _ _ H8 _)). do 2 apply entails_skip.
  refine (entails_app _ _ _ _ H9 _). done.
Qed.

(** The namespaces are made, the supervisor has mapped the identity and
    attached the carrier, and the process cannot be inspected. *)
Definition namespace_evidence : evidence :=
  [answered (Unshare [UserNs]) (Ok tt); answered ReceiveSupervisor (Ok IdMapsInstalled);
   answered (Unshare [MountNs; NetNs; PidNs; UtsNs]) (Ok tt); answered Fork (Ok InChild);
   answered ReceiveSupervisor (Ok PastaReady); answered DenyInspection (Ok tt)].
Definition asked (request : Wire.Provision) : entry answer → Prop := answered ReceiveSupervisor (Ok (Configure request)).

Definition startup_message (e : entry answer) : bool :=
  match en_call e with SendSupervisor (UserNamespaceReady | GatewayNamespaceReady _ | ManagerFailed _ _ _) => true | _ => false end.
Definition manager_justified (before : evidence) (es : evidence) (s : entry answer) : Prop :=
  startup_message s = true ∨ ∃ es1 es2 request, es = es1 ++ es2 ∧ es1 ⊑ₑ before ++ [asked request] ∧ justified request es2 s.

Lemma manager_justified_app before e es s :
  e ⊑ₑ before → ∀ after, manager_justified after es s → manager_justified (before ++ after) (e ++ es) s.
Proof.
  intros He after [?|(es1 & es2 & request & -> & H & ?)]; [by left|right].
  exists (e ++ es1), es2, request. split_and!; [by rewrite app_assoc| |done]. rewrite <- app_assoc. by apply entails_app.
Qed.

Lemma gateway_init_located turns :
  located reported (gateway_init turns) (manager_justified [answered ReceiveSupervisor (Ok PastaReady); answered DenyInspection (Ok tt)]).
Proof.
  unfold gateway_init. apply located_ptry. wp_steps; [|done]. destruct a; try apply located_ret.
  apply located_ptry. wp_steps; [|done]. apply located_ptry. wp_steps; [|done]. destruct a; try apply located_ret.
  apply located_both.
  - eapply located_mono; [apply start_gateway_located|]. intros es s Hs. right.
    eexists [_; _; _], es, request. split_and!; [done| |done]. done.
  - intros log r _. exists []. split; [constructor|]. destruct r as [x|f]; [apply located_ret|].
    refine (located_Call _ (SendSupervisor _) _ _ _ _); [by left|]. intros ?. apply located_ret.
Qed.

Lemma arm_parent_death_signal_quiet : wp reported arm_parent_death_signal (λ _ _, True).
Proof. unfold arm_parent_death_signal. wp_steps; done. Qed.
Lemma inherited_control_stream_quiet : wp reported inherited_control_stream (λ _ _, True).
Proof. unfold inherited_control_stream, validate_inherited_stream. wp_steps; done. Qed.
Lemma wait_for_gateway_init_quiet turns child : wp reported (wait_for_gateway_init turns child) (λ _ _, True).
Proof.
  induction turns as [|turns IH]; cbn [wait_for_gateway_init]; [apply wp_unfinished|].
  apply quiet_bind; [wp_steps; done|]. intros [[pid status]|e].
  - destruct (pid =? child)%Z; [|exact IH]. destruct (exit_code_from_wait_status status); [by apply wp_ret|apply wp_unfinished].
  - destruct (io_kind e); first [exact IH|by apply wp_ret].
Qed.

Lemma report_startup_failure_located reason error R :
  (∀ es s, startup_message s = true → R es s) → located reported (report_startup_failure reason error) R.
Proof. intros HR. refine (located_Call _ (SendSupervisor _) _ _ _ _); [intros; by apply HR|]. intros ?. apply located_ret. Qed.

Lemma fork_gateway_init_located turns :
  located reported (fork_gateway_init turns)
    (manager_justified [answered Fork (Ok InChild); answered ReceiveSupervisor (Ok PastaReady); answered DenyInspection (Ok tt)]).
Proof.
  unfold fork_gateway_init. apply located_ptry. wp_steps; [|done]. apply located_ptry. wp_steps; [|done].
  destruct a as [child|].
  - apply located_both.
    + refine (located_Call _ (SendSupervisor _) _ _ _ _); [by left|]. intros r. apply located_ret.
    + intros log r _. exists []. split; [constructor|]. destruct r as [[]|e]; [|apply located_ret].
      eapply located_quiet, wait_for_gateway_init_quiet.
  - apply located_ptry. wp_steps; [|done]. unfold require_parent_liveness, mount_private_proc.
    apply located_ptry. wp_steps; [|done..].
    apply located_ptry. wp_steps; [|done].
    eapply located_mono; [apply gateway_init_located|]. intros es s Hs.
    apply (manager_justified_app [answered Fork (Ok InChild)] [_; _; _; _; _] es s); [|exact Hs]. entail.
Qed.

Lemma manager_entrypoint_located turns : located reported (manager_entrypoint turns) (manager_justified namespace_evidence).
Proof.
  unfold manager_entrypoint. apply located_ptry. wp_steps; [|done].
  apply located_ptry. eapply wp_mono; [apply inherited_control_stream_quiet|]. intros e1 [[]|] _; [|done].
  apply located_pbind. apply (wp_mono _ _ (λ es r, r = Ok tt → es ⊑ₑ [answered (Unshare [UserNs]) (Ok tt)])).
  { apply wp_ptry. eapply wp_mono; [apply arm_parent_death_signal_quiet|]. intros es [[]|e] _; [|done].
    unfold create_user_namespace. wp_steps. intros ->. apply entails_later. entail. }
  intros e2 [[]|error] H2; [|apply report_startup_failure_located; by left]. specialize (H2 eq_refl).
  refine (located_Call _ (SendSupervisor _) _ _ _ _); [by left|]. intros [[]|e]; [|apply located_ret].
  apply (located_ptry _ (sys ReceiveSupervisor)). wp_steps; [|done]. destruct a; try apply located_ret.
  apply located_pbind.
  apply (wp_mono _ _ (λ es r, r = Ok tt → es ⊑ₑ [answered (Unshare [MountNs; NetNs; PidNs; UtsNs]) (Ok tt)])).
  { unfold enter_mapped_identity, create_gateway_namespaces, mount_private_root. wp_steps; try done.
    eapply wp_mono; [apply arm_parent_death_signal_quiet|]. intros es [[]|e] _; [|done].
    wp_steps; [|done]. intros ->. do 2 apply entails_skip. apply entails_later. entail. }
  intros e3 [[]|error] H3; [|apply report_startup_failure_located; by left]. specialize (H3 eq_refl).
  apply (located_ptry _ (sys (CloneSocket CONTROL_FD))). wp_steps; [|done]. apply located_both.
  - eapply located_mono; [apply fork_gateway_init_located|]. intros es s Hs.
    match goal with |- manager_justified _ (?c :: e1 ++ e2 ++ ?a :: ?b :: e3 ++ ?d :: es) _ =>
      replace (c :: e1 ++ e2 ++ a :: b :: e3 ++ d :: es) with ((c :: e1 ++ e2 ++ a :: b :: e3 ++ [d]) ++ es)
        by (cbn; rewrite <- !app_assoc; cbn; by rewrite <- !app_assoc);
      apply (manager_justified_app [answered (Unshare [UserNs]) (Ok tt); answered ReceiveSupervisor (Ok IdMapsInstalled);
        answered (Unshare [MountNs; NetNs; PidNs; UtsNs]) (Ok tt)] (c :: e1 ++ e2 ++ a :: b :: e3 ++ [d]) es s); [|exact Hs]
    end.
    apply entails_skip, entails_later. refine (entails_app _ [_] _ _ H2 _). apply entails_skip, entails_take; [done|by apply entails_first].
  - intros log r _. exists []. split; [constructor|]. destruct r; [apply located_ret|].
    apply report_startup_failure_located. by left.
Qed.

(** ** The manager's guarantees *)

Lemma manager_shows turns log o pre s post :
  runs (manager_entrypoint turns) log o → log = pre ++ s :: post → reported s →
  startup_message s = true ∨
  ∃ request es, shows (namespace_evidence ++ [asked request] ++ es) pre ∧ justified request es s.
Proof.
  intros Hr Hl Hs. destruct (manager_entrypoint_located turns _ _ Hr _ _ _ Hl Hs) as (es & Hsh & [?|(es1 & es2 & request & -> & H1 & H2)]); [by left|].
  right. exists request, es2. split; [|done]. rewrite app_assoc. revert Hsh. by apply entails_app.
Qed.

(** ** The workload's process

    What it has done when it says it is ready, and when it becomes the workload. *)
Definition workload_ran (c : Wire.ExecCommand) : entry answer → Prop :=
  let '(program_, arguments) := Wire.exec_into_parts c in tool_ok program_ arguments None (λ _, True).
Definition mounted_read_only (source target : str) : evidence :=
  [answered (Mount (Some source) target None [MsBind]) (Ok tt); answered (Mount None target None [MsBind; MsRemount; MsReadOnly]) (Ok tt)].
Definition configured_evidence (commands : list Wire.ExecCommand) (hosts resolv : str) : evidence :=
  [answered ReceiveOrder (Ok (WorkloadConfigure commands hosts resolv))] ++ (workload_ran <$> commands)
  ++ mounted_read_only hosts (bs "/etc/hosts") ++ mounted_read_only resolv (bs "/etc/resolv.conf").
Definition exec_evidence (command : Wire.Command) : evidence :=
  [answered (SendReply WorkloadReady) (Ok tt); answered ReceiveOrder (Ok (WorkloadStart command)); answered (ApplyLockdown [CONTROL_FD]) (Ok tt)].

Definition helper_step (e : entry answer) : Prop := match en_call e with SendReply WorkloadReady | Exec _ => True | _ => False end.
Definition helper_justified (es : evidence) (s : entry answer) : Prop :=
  ∃ commands hosts resolv, es ⊑ₑ configured_evidence commands hosts resolv ∧
    ∀ c, en_call s = Exec c → ∃ command, c = Wire.into_command command ∧ es ⊑ₑ configured_evidence commands hosts resolv ++ exec_evidence command.

Lemma c_path_Ok path p : c_path path = Ok p → p = path.
Proof. unfold c_path. case_match; [done|]. by intros [= ->]. Qed.
Lemma bind_mount_wp source target :
  wp helper_step (bind_mount_read_only source target) (λ es r, r = Ok tt → es ⊑ₑ mounted_read_only source target).
Proof.
  unfold bind_mount_read_only. wp_steps; try done.
  all: repeat match goal with H : c_path _ = Ok _ |- _ => apply c_path_Ok in H as -> end. intros ->. entail.
Qed.
Lemma run_workload_command_wp c : wp helper_step (run_workload_command c) (λ es r, r = Ok tt → es ⊑ₑ [workload_ran c]).
Proof.
  unfold run_workload_command, workload_ran. destruct (Wire.exec_into_parts c) as [p a]. wp_steps; try done.
  intros Hr. assert (out_success a0 = true) by (apply (require_success_Ok (from_utf8_lossy p)); by destruct (require_success _ _) as [[]|]). entail.
Qed.
Lemma configure_workload_namespace_wp commands hosts resolv :
  wp helper_step (configure_workload_namespace commands hosts resolv) (λ es r, r = Ok tt →
    es ⊑ₑ (workload_ran <$> commands) ++ mounted_read_only hosts (bs "/etc/hosts") ++ mounted_read_only resolv (bs "/etc/resolv.conf")).
Proof.
  unfold configure_workload_namespace. apply wp_ptry. eapply wp_mono.
  { apply (wp_pfor _ _ _ (λ c, [workload_ran c])). intros c _. apply run_workload_command_wp. }
  intros e1 [[]|] H1; [|done]. apply wp_ptry, wp_pmap_err. eapply wp_mono; [apply bind_mount_wp|]. intros e2 [[]|] H2; [|done].
  apply wp_pmap_err. eapply wp_mono; [apply bind_mount_wp|]. intros e3 [[]|] H3; [|done]. intros _. apply entails_app; [|apply entails_app; auto].
  etrans; [by apply H1|]. clear. induction commands as [|c cs IH]; [done|]. by apply entails_take.
Qed.
Lemma inherited_stream_quiet : wp helper_step inherited_control_stream (λ _ _, True).
Proof. unfold inherited_control_stream, validate_inherited_stream. wp_steps; done. Qed.

Lemma workload_entrypoint_located : located helper_step workload_entrypoint helper_justified.
Proof.
  assert (∀ (r : result IoError Z) R, located helper_step (Ret r) R) as Hret by (intros; by eapply located_quiet, (wp_ret _ _ (λ _ _, True))).
  unfold workload_entrypoint. apply located_ptry. wp_steps; [|done]. apply located_ptry. eapply wp_mono; [apply inherited_stream_quiet|].
  intros e1 [[]|] _; [|done]. apply located_ptry. wp_steps; [|done]. destruct a as [commands hosts resolv|command|]; [|apply Hret..].
  apply located_pbind. eapply wp_mono; [apply configure_workload_namespace_wp|]. intros e2 [[]|failure] H2.
  2:{ apply (located_quiet _ _ _ (λ _ _, True)). wp_steps; done. }
  specialize (H2 eq_refl). refine (located_Call _ (SendReply WorkloadReady) _ _ _ _).
  { intros r. exists commands, hosts, resolv. split; [|by intros c [=]]. apply entails_skip, entails_later. apply entails_take; [done|]. by rewrite app_nil_r. }
  intros [[]|e]; [|apply Hret]. apply (located_ptry _ (sys ReceiveOrder)). wp_steps; [|done]. destruct a as [|command|]; [apply Hret| |apply Hret].
  apply located_ptry. wp_steps; [|done]. unfold exec_locked_down, set_close_on_exec. apply located_ptry. wp_steps; [|done].
  apply located_ptry. wp_steps; try done. refine (located_Call _ (Exec _) _ _ _ _).
  - intros error. exists commands, hosts, resolv. split.
    + apply entails_skip, entails_later. apply entails_take; [done|]. by apply entails_first.
    + intros c [= <-]. exists command. split; [done|]. apply entails_skip, entails_later. apply entails_take; [done|].
      apply entails_app; [done|]. entail.
  - intros error. apply (located_quiet _ _ _ (λ _ _, True)). apply (wp_Call _ (SendReply _)); [by intros r []|]. intros r. by apply wp_ret.
Qed.

(** What the helper received is what the manager sent it. *)
Definition receives_configuration (commands : list Wire.ExecCommand) (hosts resolv : str) (log : list (entry answer)) : Prop :=
  ∀ c h r, mkEntry ReceiveOrder (Ok (WorkloadConfigure c h r)) ∈ log → c = commands ∧ h = hosts ∧ r = resolv.
Lemma configured_entry commands hosts resolv log :
  shows (configured_evidence commands hosts resolv) log → mkEntry ReceiveOrder (Ok (WorkloadConfigure commands hosts resolv)) ∈ log.
Proof. intros H. destruct (shows_elem _ _ (answered ReceiveOrder (Ok (WorkloadConfigure commands hosts resolv))) H) as (e & He & <-); [left|done]. Qed.

(** C4: the manager tells the workload's process to start only after the
    namespaces exist, the carrier is attached, forwarding is off, the
    transparent listeners are bound, every rule and link command of the gateway
    has succeeded (the nftables script among them), the workload's own
    namespace was configured and said so, and the confined gateway worker has
    reported that it is ready; on every other path it is never told to start.
    And the process that says so, in every run in which the configuration it
    receives is the one the manager sent, had run every command of the plan for
    its namespace with success and mounted both files read-only; what it
    becomes then is the command it is told to start, confined. *)
Theorem workload_starts_captured (turns : nat) (log : list (entry answer)) (o : option (result IoError Z))
    (pre post : list (entry answer)) (cmd : Wire.Command) (r : result IoError unit) :
  runs (manager_entrypoint turns) log o → log = pre ++ mkEntry (SendWorkload (WorkloadStart cmd)) r :: post →
  ∃ request u, Wire.into_parts request = Ok (su_parts u) ∧ cmd = Wire.p_workload (su_parts u) ∧
    shows (namespace_evidence ++ [asked request] ++ captured_evidence u) pre ∧
    let plan := su_plan u in let commands := wire_routing_command <$> workload_commands plan in
    ∀ wlog wo wpre s wpost,
      runs workload_entrypoint wlog wo → wlog = wpre ++ s :: wpost → receives_configuration commands (su_hosts u) (su_resolv u) wpre →
      (en_call s = SendReply WorkloadReady →
        shows (((λ c, tool_ok (cmd_program c) (cmd_args c) None (λ _, True)) <$> workload_commands plan)
               ++ mounted_read_only (su_hosts u) (bs "/etc/hosts") ++ mounted_read_only (su_resolv u) (bs "/etc/resolv.conf")) wpre) ∧
      (∀ c, en_call s = Exec c → ∃ command, c = Wire.into_command command ∧
        shows (configured_evidence commands (su_hosts u) (su_resolv u) ++ exec_evidence command) wpre).
Proof.
  intros Hr Hl. destruct (manager_shows _ _ _ _ _ _ Hr Hl I) as [[=]|(request & es & Hsh & u & ? & ? & Hes)].
  exists request, u. split_and!; [done..| |].
  { revert Hsh. apply entails_app; [done|]. by apply entails_app. }
  intros plan commands wlog wo wpre s wpost Hw Hwl Hrec. split.
  - intros Hs. destruct (workload_entrypoint_located _ _ Hw _ _ _ Hwl) as (wes & Hwsh & c & h & f & Hc & _); [unfold helper_step; by rewrite Hs|].
    apply Hc in Hwsh. destruct (Hrec _ _ _ (configured_entry _ _ _ _ Hwsh)) as (-> & -> & ->).
    revert Hwsh. unfold configured_evidence. apply entails_skip. unfold commands. by rewrite <- list_fmap_compose.
  - intros c Hs. destruct (workload_entrypoint_located _ _ Hw _ _ _ Hwl) as (wes & Hwsh & cs & h & f & Hc & He); [unfold helper_step; by rewrite Hs|].
    destruct (He c Hs) as (command & -> & Hx). destruct (Hrec _ _ _ (configured_entry _ _ _ _ (Hc _ Hwsh))) as (-> & -> & ->).
    exists command. split; [done|]. by apply Hx.
Qed.

(** C5: an exit the manager reports is the exit status with which the process
    it started as the workload was reaped, and it is reported after the whole
    clean-up has run: the link and every rule and route of the teardown were
    asked to go, whatever was left in the namespace was killed, and its reaping
    has ended because nobody was left, waiting failed or its time was over;
    and a cleanup it reports without failures was one in
    which the link is gone, every process reaped and every rule removed. *)
Theorem exit_report_faithful (turns : nat) (log : list (entry answer)) (o : option (result IoError Z))
    (pre post : list (entry answer)) (r : result IoError unit) :
  runs (manager_entrypoint turns) log o →
  (∀ exit, log = pre ++ mkEntry (SendSupervisor (WorkloadExited exit)) r :: post →
     ∃ request u x start, Wire.into_parts request = Ok (su_parts u) ∧ exit = Wire.of_exit x ∧
       shows (namespace_evidence ++ [asked request] ++ running_evidence u ++ [reaped_entry (su_workload_pid u) x]
              ++ cleanup_evidence (su_plan u) start) pre) ∧
  (log = pre ++ mkEntry (SendSupervisor (CleanupComplete [])) r :: post →
     ∃ request u, Wire.into_parts request = Ok (su_parts u) ∧
       shows (namespace_evidence ++ [asked request] ++ running_evidence u ++ clean_evidence (su_plan u)) pre).
Proof.
  intros Hr. split.
  - intros exit Hl. destruct (manager_shows _ _ _ _ _ _ Hr Hl I) as [[=]|(request & es & Hsh & u & x & ? & ? & start & Hes)].
    exists request, u, x, start. split_and!; [done..|]. revert Hsh. apply entails_app; [done|]. by apply entails_app.
  - intros Hl. destruct (manager_shows _ _ _ _ _ _ Hr Hl I) as [[=]|(request & es & Hsh & u & start & ? & ? & Hes)].
    exists request, u. split_and!; [done..|]. revert Hsh. apply entails_app; [done|]. by apply entails_app; auto.
Qed.

(** ** A sample run

    An environment in which everything succeeds, for a request that starts
    [true] under the worker [gw]; the workload exits with status 7 in the second
    turn of supervision. *)

Definition count_calls (p : sys_call → bool) (before : list (entry answer)) : nat := length (List.filter (λ e, p (en_call e)) before).
Definition is_receive_supervisor (c : sys_call) : bool := match c with ReceiveSupervisor => true | _ => false end.
Definition is_receive_workload (c : sys_call) : bool := match c with ReceiveWorkload => true | _ => false end.
Definition is_wait (c : sys_call) : bool := match c with WaitAny => true | _ => false end.
Definition sample_command (program : string) : Wire.Command := Wire.mkCommand (bs program) [] [] None.
Definition sample_request : Wire.Provision :=
  Wire.mkProvision (sample_command "true") (sample_command "gw") None false false (bs "nameserver 127.0.0.1").
Definition sample_env (before : list (entry answer)) (c : sys_call) : answer c :=
  match c with
  | CreateSocket _ _ => Ok 9%Z | GetFdFlags _ => Ok 0%Z | Spawn command _ => if bool_decide (nc_program command = bs "gw") then Ok 12%Z else Ok 11%Z
  | GetSocketOption _ _ => Ok (SOCK_STREAM, 4%Z) | PeerName _ => Ok (AF_UNIX, 2%Z) | SocketPair => Ok (20%Z, 21%Z) | WaitChild pid => Ok (pid, 0%Z)
  | LocalAddress _ => Ok 40000%Z
  | PollLiveness => Ok 0%Z | SendBroker _ _ => Ok 1%Z | SendReady _ => Ok 1%Z
  | PollSupervisor _ => Ok false
  | ParentPid => 5%Z | Now => 0%Z
  | Fork => Ok InChild
  | WaitAny => match count_calls is_wait before with
               | 0 => NoneExited | 1 => Reaped 11 (7 * 256) | 2 => NoneExited | _ => WaitFailed ECHILD (bs "No child processes")
               end
  | Exec _ => io_other []
  | RunTool _ _ _ => Ok (mkOutput true (bs "exit status: 0") (bs "mtu 65520 default via fe80::1") [])
  | CurrentExe => Ok (bs "/usr/bin/hiloop") | FsRead _ => Ok (bs "0") | NewTempFile => Ok (bs "/tmp/file") | ReceiveReadiness => Ok [x01]
  | InterfaceIndex _ => Err ENODEV
  | ReceiveSupervisor => match count_calls is_receive_supervisor before with
                         | 0 => Ok IdMapsInstalled | 1 => Ok PastaReady | _ => Ok (Configure sample_request)
                         end
  | ReceiveWorkload => match count_calls is_receive_workload before with
                       | 0 => Ok WorkloadReady | _ => Err (io_error UnexpectedEof (bs "failed to fill whole buffer"))
                       end
  | ReceiveOrder => Ok WorkloadShutdown
  | ReceiveBroker => BrokerWouldBlock
  | KillDescendants => tt | Sleep _ => tt
  | _ => Ok tt
  end.
Definition sample_run : list (entry answer) * option (result IoError Z) := exec sample_env [] (manager_entrypoint 5).
Definition position_of (p : sys_call → bool) : nat := default 0 (position (λ e, p (en_call e)) sample_run.1).
Definition is_start (c : sys_call) : bool := match c with SendWorkload (WorkloadStart _) => true | _ => false end.
Definition is_exited (c : sys_call) : bool := match c with SendSupervisor (WorkloadExited _) => true | _ => false end.
Definition start_at : nat := Eval vm_compute in position_of is_start.
Definition exited_at : nat := Eval vm_compute in position_of is_exited.

Example sample_run_exit : sample_run.2 = Some (Ok 7%Z).
Proof. vm_compute. reflexivity. Qed.

Lemma sample_runs : runs (manager_entrypoint 5) sample_run.1 sample_run.2.
Proof. apply (exec_runs sample_env []). fold sample_run. by destruct sample_run. Qed.

(** A run of the helper that receives a configuration with one command, says it
    is ready and becomes the workload: the premise about the helper is met. *)
Definition helper_commands : list Wire.ExecCommand := [wire_routing_command (mkCommand WorkloadNs (bs "ip") [bs "link"; bs "set"; bs "lo"; bs "up"])].
Definition is_order (c : sys_call) : bool := match c with ReceiveOrder => true | _ => false end.
Definition is_ready_reply (c : sys_call) : bool := match c with SendReply WorkloadReady => true | _ => false end.
Definition helper_env (before : list (entry answer)) (c : sys_call) : answer c :=
  match c with
  | ReceiveOrder => match count_calls is_order before with
                    | 0 => Ok (WorkloadConfigure helper_commands (bs "/tmp/hosts") (bs "/tmp/resolv")) | _ => Ok (WorkloadStart (sample_command "true"))
                    end
  | c => sample_env before c
  end.
Definition helper_run : list (entry answer) * option (result IoError Z) := exec helper_env [] workload_entrypoint.
Definition ready_at : nat := Eval vm_compute in default 0 (position (λ e, is_ready_reply (en_call e)) helper_run.1).
Example helper_run_ready :
  runs workload_entrypoint helper_run.1 helper_run.2 ∧
  helper_run.1 !! ready_at = Some (mkEntry (SendReply WorkloadReady) (Ok tt)) ∧
  receives_configuration helper_commands (bs "/tmp/hosts") (bs "/tmp/resolv") (take ready_at helper_run.1).
Proof.
  split; [apply (exec_runs helper_env []); fold helper_run; by destruct helper_run|]. split; [by vm_compute|].
  intros c h r H. cut (mkEntry ReceiveOrder (Ok (WorkloadConfigure c h r)) ∈ filter (λ e, is_order (en_call e)) (take ready_at helper_run.1)); [|apply list_elem_of_filter; split; [exact I|exact H]].
  clear H. replace (filter (λ e, is_order (en_call e)) (take ready_at helper_run.1)) with [mkEntry ReceiveOrder (Ok (WorkloadConfigure helper_commands (bs "/tmp/hosts") (bs "/tmp/resolv")) : answer ReceiveOrder)]
    by (vm_compute; reflexivity). intros H%list_elem_of_singleton.
  apply (f_equal (λ e, match e with mkEntry ReceiveOrder (Ok (WorkloadConfigure c' h' r')) => Some (c', h', r') | _ => None end)) in H.
  by injection H as -> -> ->.
Qed.

Lemma workload_starts_captured_witness :
  ∃ request u, Wire.into_parts request = Ok (su_parts u) ∧ sample_command "true" = Wire.p_workload (su_parts u) ∧
    shows (namespace_evidence ++ [asked request] ++ captured_evidence u) (take start_at sample_run.1).
Proof.
  destruct (workload_starts_captured 5 sample_run.1 sample_run.2 (take start_at sample_run.1) (drop (S start_at) sample_run.1)
    (sample_command "true") (Ok tt) sample_runs) as (request & u & H1 & H2 & H3 & _); [vm_compute; reflexivity|].
  exact (ex_intro _ request (ex_intro _ u (conj H1 (conj H2 H3)))).
Defined.

Lemma exit_report_faithful_witness :
  ∃ request u x start, Wire.into_parts request = Ok (su_parts u) ∧ Wire.Code 7 = Wire.of_exit x ∧
    shows (namespace_evidence ++ [asked request] ++ running_evidence u ++ [reaped_entry (su_workload_pid u) x]
           ++ cleanup_evidence (su_plan u) start) (take exited_at sample_run.1).
Proof.
  refine (proj1 (exit_report_faithful 5 sample_run.1 sample_run.2 (take exited_at sample_run.1) (drop (S exited_at) sample_run.1) (Ok tt) sample_runs) _ _).
  vm_compute. reflexivity.
Defined.
