(* ===== verification/NetSession.v ===== *)
(** * The supervisor's side of a namespace (crates/hiloop-interceptor/src/netns/system.rs, pasta.rs)

    Launching a namespace: the manager is spawned, its identity mapped, the
    carrier (pasta) attached, the request sent, and the answers awaited; any
    failure aborts and reaps what was started.  The session that results waits
    for the manager's terminal messages, takes the processes down and decides
    the run's result.

    The launch is a program over its own calls; each [select] is one call,
    answered by the branch that wins.  The session's loop handles one event at
    a time, so that a wait that is cancelled leaves the state it has reached.
    The debug text of an unexpected message is the parameter [debug]. *)
From Stdlib Require Import Strings.Byte.
From S2P Require Import Prelude Text Utf8 Net Capture Substrate Protocol Udp Routing DnsRelay Fatal Programs Listener Manager.

(** ** Calls *)

Inductive process := Bootstrap | Pasta.
#[export] Instance process_eq_dec : EqDecision process.
Proof. solve_decision. Defined.

Notation message := (option (result IoError ManagerMessage)).
(** [io::Result<ExitStatus>], the status as its text. *)
Notation exit_status := (result IoError str).

Inductive StartupManagerEvent := StartupMessage (m : message) | StartupBootstrap (status : exit_status) | StartupTimeout.
Inductive PastaReadinessEvent := PastaReadyEvent (r : result IoError unit) | PastaExited (status : exit_status) | PastaBootstrap (status : exit_status).
Inductive ManagerReadyEvent :=
| ReadyMessage (m : message) | ReadyPasta (status : exit_status) | ReadyBootstrap (status : exit_status) | ReadyTimeout.
Inductive TerminalEvent :=
| TerminalManager (m : message) | TerminalPasta (status : exit_status) | TerminalBootstrap (status : exit_status) | TerminalMissing (component : str).
(** A joined task: its value, or why it was not joined. *)
Notation joined A := (result str A).
(** [error.raw_os_error()] matters to [start_kill]. *)
Record KillError := mkKillError { ke_error : IoError; ke_errno : option Z }.

Inductive launch_call :=
| ReadResolvConf | CreateRelayDirectory | BindRelay (path : str)
| CreateControl | ConfigureControl | AdoptControl
| PrepareSanitizer (allowed : list Z)
| SpawnManager (program : str) (role : str)
| NextManager (timeout_ms : Z)
| GraceMessage
| EffectiveIds
| WriteProc (path contents : str)
| SendManager (m : SupervisorMessage)
| CreateReadiness
| SpawnPasta (program : str) (arguments : list str)
| AwaitPasta (path : str) (pid timeout_ms : Z)
| NextWithPasta (timeout_ms : Z)
| NextTerminal
| SendShutdown
| JoinShutdown
| WaitProcess (p : process)
| KillProcess (p : process)
| TerminatePasta
| JoinReader
| JoinStderr.

(** [SpawnManager] answers the process id, [SpawnPasta] the process id and
    whether the standard error is piped. *)
Definition launch_answer (c : launch_call) : Type :=
  match c with
  | ReadResolvConf | CreateRelayDirectory | CreateReadiness => result IoError str
  | SpawnManager _ _ => result IoError (option Z)
  | NextManager _ => StartupManagerEvent
  | GraceMessage => timed message
  | EffectiveIds => Z * Z
  | SpawnPasta _ _ => result IoError (option Z * bool)
  | AwaitPasta _ _ _ => PastaReadinessEvent
  | NextWithPasta _ => ManagerReadyEvent
  | NextTerminal => TerminalEvent
  | SendShutdown => timed (result IoError unit)
  | JoinShutdown => joined (result IoError unit)
  | WaitProcess _ => timed exit_status
  | KillProcess _ => result KillError unit
  | JoinReader => timed (joined unit)
  | JoinStderr => timed (joined (result IoError str))
  | _ => result IoError unit
  end.
Notation task := (prog launch_answer).
Definition call (c : launch_call) : task (launch_answer c) := perform c.

(** ** Pasta *)

Definition IPV6_GATEWAY : str := bs "fe80::1".
Definition PINNED_PASTA_VERSION : str := bs "2026_06_11.a9c61ff".
Definition EXPECTED_VERSION_LINE : str := bs "pasta 2026_06_11.a9c61ff".

Record PastaCommand := mkPasta { pc_program : str; pc_args : list str }.
Definition PastaCommand_attach (program : str) (target_pid : Z) (pid_file : str) (enable_ipv6 : bool) : PastaCommand :=
  mkPasta program
    (words ["--foreground"; "--quiet"; "--config-net"; "--pid"] ++ [pid_file; bs "--mtu"; show_uint LINK_MTU; bs "--ns-ifname"; PASTA_INTERFACE]
     ++ words ["--tcp-ports"; "none"; "--udp-ports"; "none"; "--tcp-ns"; "none"; "--udp-ns"; "none"; "--gateway"]
     ++ [IPV6_GATEWAY; bs "--map-host-loopback"; HOST_LOOPBACK_IPV4; bs "--map-host-loopback"; HOST_LOOPBACK_IPV6]
     ++ (if enable_ipv6 then [] else [bs "--ipv4-only"]) ++ [show_uint target_pid]).

Definition validate_version_output (stdout : str) : result IoError unit :=
  let first_line := default [] (head (split_on (byte_is x0a) stdout)) in
  if bool_decide (first_line = EXPECTED_VERSION_LINE) then Ok tt
  else Err (io_error InvalidData
              (bs "required pasta " ++ PINNED_PASTA_VERSION ++ bs ", found `" ++ from_utf8_lossy first_line ++ bs "`")).

(** [wait_until_ready] over the successive contents of the pid file, a missing
    file being empty; [None] when the time is over first. *)
Fixpoint pid_file_ready (expected_pid : Z) (reads : list (result IoError str)) : option (result IoError unit) :=
  match reads with
  | [] => None
  | Err error :: _ => Some (Err error)
  | Ok value :: reads =>
      if bool_decide (trim value = show_uint expected_pid) then Some (Ok tt)
      else if negb (Nat.eqb (length (trim value)) 0) then
        Some (Err (io_error InvalidData
                     (bs "pasta pidfile contained `" ++ trim value ++ bs "` instead of " ++ show_uint expected_pid)))
      else pid_file_ready expected_pid reads
  end.
Definition wait_until_ready (expected_pid : Z) (reads : list (result IoError str)) : result IoError unit :=
  default (Err (io_error TimedOut (bs "pasta readiness timed out"))) (pid_file_ready expected_pid reads).

Inductive PastaStartupFailure := FailUserNamespace | FailTun | FailIpv6 | FailOther.
Definition classify_startup_stderr (stderr : str) : PastaStartupFailure :=
  if contains (bs "user namespace") stderr || contains (bs "uid_map") stderr || contains (bs "gid_map") stderr then FailUserNamespace
  else if contains (bs "/dev/net/tun") stderr || contains (bs "TUNSETIFF") stderr || contains (bs "tap device") stderr then FailTun
  else if contains (bs "IPv6") stderr || contains (bs "IPv6 route") stderr then FailIpv6
  else FailOther.

(** ** Errors *)

Definition unavailable_from_io (reason : CaptureTransportDegradationReason) (operation : string) (source : IoError) : ProvisionError :=
  ProvisionUnavailable reason (bs operation ++ bs ": " ++ IoError_fmt source).
Definition namespace_startup_from_io (operation : string) (source : IoError) : ProvisionError :=
  ProvisionStartup StageNamespace NetnsStartupFailed (bs operation ++ bs ": " ++ IoError_fmt source).
Definition namespace_startup (source : IoError) : ProvisionError := namespace_startup_from_io "start namespace manager" source.
Definition pasta_startup_from_io (reason : CaptureTransportDegradationReason) (operation : string) (source : IoError) : ProvisionError :=
  ProvisionStartup StagePasta reason (bs operation ++ bs ": " ++ IoError_fmt source).
Definition pasta_startup (source : IoError) : ProvisionError := pasta_startup_from_io NetnsStartupFailed "start pasta" source.
Definition protocol_startup (diagnostic : str) : ProvisionError := ProvisionStartup StageNamespace NetnsStartupFailed diagnostic.
Definition manager_startup_exit (status : exit_status) : ProvisionError :=
  match status with
  | Ok status => ProvisionStartup StageNamespace NetnsStartupFailed (bs "namespace manager exited before readiness: " ++ status)
  | Err error => namespace_startup_from_io "wait for namespace-manager readiness" error
  end.
Definition child_exit_error (operation : string) (status : exit_status) : IoError :=
  match status with Ok status => io_other (bs operation ++ bs ": " ++ status) | Err error => error end.
Definition child_dataplane_error (component operation : string) (status : exit_status) : ProvisionError :=
  ProvisionDataplane (bs component)
    (bs operation ++ bs ": " ++ match status with Ok status => status | Err error => IoError_fmt error end).
Definition dataplane_manager (operation : string) (source : IoError) : ProvisionError :=
  ProvisionDataplane (bs "manager") (bs operation ++ bs ": " ++ IoError_fmt source).

Definition pasta_error (source : IoError) (stderr : str) (require_ipv6 : bool) : ProvisionError :=
  let reason := match classify_startup_stderr stderr with
                | FailUserNamespace => UserNamespaceDenied
                | FailTun => TunUnavailable
                | FailIpv6 => if require_ipv6 then Ipv6Unavailable else NetnsStartupFailed
                | FailOther => NetnsStartupFailed
                end in
  ProvisionUnavailable reason
    (if Nat.eqb (length (trim stderr)) 0 then IoError_fmt source else IoError_fmt source ++ bs ": " ++ trim stderr).

Definition NameserverError_fmt (e : NameserverError) : str :=
  match e with
  | MissingAddress => bs "resolv.conf nameserver is missing its address"
  | TrailingFields => bs "resolv.conf nameserver contains trailing fields"
  | InvalidNameserver address => bs "invalid resolv.conf nameserver `" ++ address ++ bs "`: invalid IP address syntax"
  | NoNameserver => bs "resolv.conf contains no nameserver"
  end.

(** ** Cleanup failures *)

(** [CleanupFailures]; the first error is kept only for its text, which is in
    the diagnostics. *)
Definition CleanupFailures : Type := list str.
Definition record_io (c : CleanupFailures) (operation : str) (error : IoError) : CleanupFailures :=
  c ++ [operation ++ bs ": " ++ IoError_fmt error].
Definition cleanup_diagnostic (c : CleanupFailures) : str := join (bs "; ") c.
Definition into_error (c : CleanupFailures) : ProvisionError := ProvisionCleanup (cleanup_diagnostic c).
Definition attach_cleanup (error : ProvisionError) (c : CleanupFailures) : ProvisionError :=
  match c with
  | [] => error
  | _ =>
      let more (d : str) := d ++ bs "; cleanup failed: " ++ cleanup_diagnostic c in
      match error with
      | ProvisionUnavailable reason d => ProvisionUnavailable reason (more d)
      | ProvisionStartup stage reason d => ProvisionStartup stage reason (more d)
      | ProvisionDataplane component d => ProvisionDataplane component (more d)
      | ProvisionCleanup d => ProvisionCleanup (more d)
      end
  end.

Definition ESRCH : Z := 3.
Definition is_invalid_input (e : IoError) : bool := match io_kind e with InvalidInput => true | _ => false end.
Definition process_name (p : process) : str := match p with Bootstrap => bs "namespace manager" | Pasta => bs "pasta" end.

Definition kill_failures (p : process) (killed : result KillError unit) : CleanupFailures :=
  match killed with
  | Err e => if negb (is_invalid_input (ke_error e)) && negb (bool_decide (ke_errno e = Some ESRCH))
             then record_io [] (bs "kill " ++ process_name p) (ke_error e) else []
  | Ok _ => []
  end.
Definition wait_or_kill (p : process) : task CleanupFailures :=
  first ⟵ call (WaitProcess p);
  match first with
  | InTime (Ok _) => Ret []
  | _ =>
      let waited := match first with
                    | InTime (Err error) => record_io [] (bs "wait for " ++ process_name p) error
                    | _ => [bs "wait for " ++ process_name p ++ bs " timed out"]
                    end in
      killed ⟵ call (KillProcess p);
      second ⟵ call (WaitProcess p);
      Ret (waited ++ kill_failures p killed
           ++ match second with
              | InTime (Ok _) => []
              | InTime (Err error) => record_io [] (bs "reap " ++ process_name p ++ bs " after kill") error
              | Elapsed => [bs "reap " ++ process_name p ++ bs " after kill timed out"]
              end)
  end.

Definition finish_reader (running : bool) : task CleanupFailures :=
  if running then
    joined ⟵ call JoinReader;
    Ret match joined with
        | InTime (Ok _) => []
        | InTime (Err error) => [bs "join namespace-manager message reader: " ++ error]
        | Elapsed => [bs "join namespace-manager message reader timed out"]
        end
  else Ret [].
Definition finish_stderr (running : bool) : task (str * CleanupFailures) :=
  if running then
    joined ⟵ call JoinStderr;
    Ret match joined with
        | InTime (Ok (Ok stderr)) => (stderr, [])
        | InTime (Ok (Err error)) => ([], record_io [] (bs "read pasta stderr") error)
        | InTime (Err error) => ([], [bs "join pasta stderr reader: " ++ error])
        | Elapsed => ([], [bs "join pasta stderr reader timed out"])
        end
  else Ret ([], []).
Definition stop_pasta (running : bool) : task CleanupFailures :=
  if running then
    terminated ⟵ call TerminatePasta;
    stopped ⟵ wait_or_kill Pasta;
    Ret (match terminated with Err error => record_io [] (bs "terminate pasta") error | Ok _ => [] end ++ stopped)
  else Ret [].
Definition stop_bootstrap (running : bool) : task CleanupFailures := if running then wait_or_kill Bootstrap else Ret [].

(** [read_bounded_to_eof]: the stream is drained, only its beginning is kept. *)
Definition STDERR_CAPTURE_LIMIT : nat := Z.to_nat 65536.
Fixpoint read_bounded_to_eof (captured : str) (chunks : list (result IoError str)) : result IoError str :=
  match chunks with
  | [] => Ok (from_utf8_lossy captured)
  | Err error :: _ => Err error
  | Ok chunk :: chunks => read_bounded_to_eof (captured ++ take (STDERR_CAPTURE_LIMIT - length captured) chunk) chunks
  end.

(** ** Launching

    The control channel, its reader, the manager's process and the DNS relay
    exist from the spawn on, until they are given up together; a launch keeps
    track of pasta and the reader of its standard error. *)

Record SystemNetworkProvisioner := mkProvisioner {
  pv_pasta_path : str; pv_helper_path : str; pv_startup_timeout : Z; pv_resolver_timeout : Z }.

Inductive LaunchFailure := LaunchError (e : ProvisionError) | LaunchPasta (source : IoError) (require_ipv6 : bool).

Definition DNS_RELAY_SOCKET_ENV : str := bs "HILOOP_DNS_RELAY_SOCKET".
(** The relay's socket and the workload's resolver configuration. *)
Definition DnsRelayResources_start : task (result ProvisionError (str * str)) :=
  let failing operation := unavailable_from_io ResolverUnavailable operation in
  contents ⇠ pmap_err (failing "read the host resolver configuration") (call ReadResolvConf);
  config ⇠ Ret (map_err (λ e, failing "parse the host resolver configuration" (io_error InvalidData (NameserverError_fmt e)))
                  (ResolverConfig_parse contents));
  directory ⇠ pmap_err (failing "create the private DNS relay directory") (call CreateRelayDirectory);
  let socket_path := directory ++ bs "/dns.sock" in
  _ ⇠ pmap_err (failing "bind the private host DNS relay") (call (BindRelay socket_path));
  Ret (Ok (socket_path, rc_workload_contents config)).

Section supervisor.
Context (debug : ManagerMessage → str).

Definition decode_startup_message (m : message) : result ProvisionError ManagerMessage :=
  match m with
  | Some (Ok m) => Ok m
  | Some (Err error) => Err (namespace_startup_from_io "receive namespace-manager readiness" error)
  | None => Err (namespace_startup (io_error BrokenPipe (bs "namespace-manager message reader stopped")))
  end.
Definition failed_startup (stage : Wire.Stage) (reason : Wire.DegradationReason) (diagnostic : str) : ProvisionError :=
  ProvisionStartup (Wire.to_stage stage) (Wire.to_reason reason) diagnostic.
Definition error_from_early_manager_message (m : ManagerMessage) (readiness : string) : ProvisionError :=
  match m with
  | ManagerFailed stage reason diagnostic => failed_startup stage reason diagnostic
  | m => protocol_startup (bs "manager sent unexpected message before " ++ bs readiness ++ bs ": " ++ debug m)
  end.

Definition message_after_bootstrap_exit (status : exit_status) : task (result ProvisionError ManagerMessage) :=
  m ⟵ call GraceMessage;
  Ret match m with
      | InTime (Some (Ok m)) => Ok m
      | InTime (Some (Err error)) => Err (namespace_startup_from_io "read final namespace-manager message" error)
      | InTime None | Elapsed => Err (manager_startup_exit status)
      end.

Definition receive_manager_before_pasta (timeout : Z) : task (result ProvisionError ManagerMessage) :=
  event ⟵ call (NextManager timeout);
  match event with
  | StartupMessage m => Ret (decode_startup_message m)
  | StartupBootstrap status => message_after_bootstrap_exit status
  | StartupTimeout => Ret (Err (namespace_startup (io_error TimedOut (bs "namespace manager timed out"))))
  end.

Definition install_id_maps (pid : Z) : task (result IoError unit) :=
  ids ⟵ call EffectiveIds;
  let base := bs "/proc/" ++ show_uint pid in
  _ ⇠ call (WriteProc (base ++ bs "/setgroups") (bs "deny"));
  _ ⇠ call (WriteProc (base ++ bs "/uid_map") (bs "0 " ++ show_uint ids.1 ++ bs " 1"));
  call (WriteProc (base ++ bs "/gid_map") (bs "0 " ++ show_uint ids.2 ++ bs " 1")).

(** Which of pasta and its reader exist, with the outcome. *)
Definition start_pasta (pv : SystemNetworkProvisioner) (gateway_pid : Z) (enable_ipv6 : bool) :
    task ((bool * bool) * result LaunchFailure (str * Z)) :=
  let failing operation error := LaunchError (pasta_startup_from_io NetnsStartupFailed operation error) in
  readiness ⟵ call CreateReadiness;
  match readiness with
  | Err error => Ret ((false, false), Err (failing "create anonymous pasta readiness file" error))
  | Ok path =>
      sanitizer ⟵ call (PrepareSanitizer []);
      match sanitizer with
      | Err error => Ret ((false, false), Err (failing "prepare pasta descriptor isolation" error))
      | Ok _ =>
          let command := PastaCommand_attach (pv_pasta_path pv) gateway_pid path enable_ipv6 in
          spawned ⟵ call (SpawnPasta (pc_program command) (pc_args command));
          Ret match spawned with
              | Err error =>
                  ((false, false), Err (LaunchError (unavailable_from_io PastaMissing "spawn the pinned pasta executable" error)))
              | Ok (None, _) => ((true, false), Err (LaunchPasta (io_other (bs "pasta returned no PID")) false))
              | Ok (Some _, false) => ((true, false), Err (LaunchPasta (io_other (bs "pasta stderr was not piped")) false))
              | Ok (Some pid, true) => ((true, true), Ok (path, pid))
              end
      end
  end.

Definition wait_for_pasta_ready (path : str) (pid timeout : Z) (require_ipv6 : bool) : task (result LaunchFailure unit) :=
  event ⟵ call (AwaitPasta path pid timeout);
  match event with
  | PastaReadyEvent r => Ret (map_err (λ source, LaunchPasta source require_ipv6) r)
  | PastaExited status => Ret (Err (LaunchPasta (child_exit_error "pasta exited before readiness" status) require_ipv6))
  | PastaBootstrap status =>
      r ⟵ message_after_bootstrap_exit status;
      Ret match r with
          | Ok m => Err (LaunchError (error_from_early_manager_message m "pasta readiness"))
          | Err error => Err (LaunchError error)
          end
  end.

Definition receive_manager_with_pasta (timeout : Z) (require_ipv6 : bool) : task (result LaunchFailure ManagerMessage) :=
  event ⟵ call (NextWithPasta timeout);
  match event with
  | ReadyMessage m => Ret (map_err LaunchError (decode_startup_message m))
  | ReadyPasta status => Ret (Err (LaunchPasta (child_exit_error "pasta exited before manager readiness" status) require_ipv6))
  | ReadyBootstrap status => pmap_err LaunchError (message_after_bootstrap_exit status)
  | ReadyTimeout => Ret (Err (LaunchError (namespace_startup (io_error TimedOut (bs "namespace manager timed out")))))
  end.

(** [launch_inner] up to pasta: the id of the gateway's first process. *)
Definition launch_namespace (pv : SystemNetworkProvisioner) (bootstrap_id : option Z) : task (result LaunchFailure Z) :=
  pid ⇠ Ret (ok_or bootstrap_id (LaunchError (namespace_startup (io_other (bs "namespace manager returned no PID")))));
  first ⇠ pmap_err LaunchError (receive_manager_before_pasta (pv_startup_timeout pv));
  match first with
  | UserNamespaceReady =>
      _ ⇠ pmap_err (λ e, LaunchError (unavailable_from_io UserNamespaceDenied "install namespace uid/gid maps" e)) (install_id_maps pid);
      _ ⇠ pmap_err (λ e, LaunchError (namespace_startup_from_io "send uid/gid-map readiness to namespace manager" e))
            (call (SendManager IdMapsInstalled));
      second ⇠ pmap_err LaunchError (receive_manager_before_pasta (pv_startup_timeout pv));
      Ret match second with
          | GatewayNamespaceReady pid => Ok pid
          | ManagerFailed stage reason diagnostic => Err (LaunchError (failed_startup stage reason diagnostic))
          | m => Err (LaunchError (protocol_startup (bs "manager sent unexpected namespace message " ++ debug m)))
          end
  | ManagerFailed stage reason diagnostic => Ret (Err (LaunchError (failed_startup stage reason diagnostic)))
  | m => Ret (Err (LaunchError (protocol_startup (bs "manager sent unexpected startup message " ++ debug m))))
  end.
(** [launch_inner] from the spawn of pasta on. *)
Definition launch_ready (pv : SystemNetworkProvisioner) (request : ProvisionRequest) (require_ipv6 validate_dataplane : bool)
    (resolv_conf path : str) (pasta_pid : Z) : task (result LaunchFailure SubstrateInfo) :=
  _ ⇠ wait_for_pasta_ready path pasta_pid (pv_startup_timeout pv) require_ipv6;
  _ ⇠ pmap_err (λ e, LaunchError (pasta_startup_from_io NetnsStartupFailed "send pasta readiness to namespace manager" e))
        (call (SendManager PastaReady));
  _ ⇠ pmap_err (λ e, LaunchError (namespace_startup_from_io "send provision request to namespace manager" e))
        (call (SendManager (Configure (Wire.from_request request require_ipv6 validate_dataplane resolv_conf))));
  ready ⇠ receive_manager_with_pasta (pv_startup_timeout pv) require_ipv6;
  Ret match ready with
      | Ready info =>
          map_err (λ e, LaunchError (namespace_startup_from_io "validate namespace-manager substrate information" e)) (Wire.to_info info)
      | ManagerFailed stage reason diagnostic => Err (LaunchError (failed_startup stage reason diagnostic))
      | m => Err (LaunchError (protocol_startup (bs "manager sent unexpected ready message " ++ debug m)))
      end.

Definition launch_inner (pv : SystemNetworkProvisioner) (request : ProvisionRequest) (require_ipv6 validate_dataplane : bool)
    (resolv_conf : str) (bootstrap_id : option Z) : task ((bool * bool) * result LaunchFailure SubstrateInfo) :=
  gateway ⟵ launch_namespace pv bootstrap_id;
  match gateway with
  | Err failure => Ret ((false, false), Err failure)
  | Ok gateway_pid =>
      started ⟵ start_pasta pv gateway_pid require_ipv6;
      match started with
      | (held, Err failure) => Ret (held, Err failure)
      | (held, Ok (path, pasta_pid)) =>
          r ⟵ launch_ready pv request require_ipv6 validate_dataplane resolv_conf path pasta_pid;
          Ret (held, r)
      end
  end.

Definition abort (held : bool * bool) : task (str * CleanupFailures) :=
  sent ⟵ call SendShutdown;
  let sending := match sent with
                 | InTime (Ok _) => []
                 | InTime (Err error) => record_io [] (bs "send launch-abort shutdown to namespace manager") error
                 | Elapsed => [bs "send launch-abort shutdown to namespace manager timed out"]
                 end in
  bootstrap ⟵ stop_bootstrap true;
  pasta ⟵ stop_pasta held.1;
  reader ⟵ finish_reader true;
  stderr ⟵ finish_stderr held.2;
  Ret (stderr.1, sending ++ bootstrap ++ pasta ++ reader ++ stderr.2).
Definition fail_launch (held : bool * bool) (failure : LaunchFailure) : task ProvisionError :=
  report ⟵ abort held;
  Ret (attach_cleanup match failure with
                      | LaunchError error => error
                      | LaunchPasta source require_ipv6 => pasta_error source report.1 require_ipv6
                      end report.2).

(** ** The session *)

Record RealNetworkSession := mkSession {
  ns_info : SubstrateInfo; ns_control : bool; ns_reader : bool; ns_shutdown_task : bool;
  ns_bootstrap : bool; ns_pasta : bool; ns_stderr : bool;
  ns_exit : option SubstrateExit; ns_failure : option ProvisionError; ns_cleanup : CleanupFailures;
  ns_shutdown_requested : bool; ns_terminal : bool; ns_finished : bool; ns_dns_relay : bool }.

Definition promote (held : bool * bool) (info : SubstrateInfo) : result ProvisionError RealNetworkSession :=
  if negb held.1 then Err (ProvisionDataplane (bs "pasta") (bs "pasta is not running"))
  else if negb held.2 then Err (ProvisionDataplane (bs "pasta") (bs "pasta stderr reader is not running"))
  else Ok (mkSession info true true false true true true None None [] false false false true).

Definition set_exit (s : RealNetworkSession) (exit : SubstrateExit) : RealNetworkSession :=
  mkSession (ns_info s) (ns_control s) (ns_reader s) (ns_shutdown_task s) (ns_bootstrap s) (ns_pasta s) (ns_stderr s)
    (Some exit) (ns_failure s) (ns_cleanup s) (ns_shutdown_requested s) (ns_terminal s) (ns_finished s) (ns_dns_relay s).
Definition record_failure (s : RealNetworkSession) (error : ProvisionError) : RealNetworkSession :=
  mkSession (ns_info s) (ns_control s) (ns_reader s) (ns_shutdown_task s) (ns_bootstrap s) (ns_pasta s) (ns_stderr s)
    (ns_exit s) (Some (default error (ns_failure s))) (ns_cleanup s) (ns_shutdown_requested s) (ns_terminal s) (ns_finished s) (ns_dns_relay s).
Definition extend_cleanup (s : RealNetworkSession) (failures : CleanupFailures) : RealNetworkSession :=
  mkSession (ns_info s) (ns_control s) (ns_reader s) (ns_shutdown_task s) (ns_bootstrap s) (ns_pasta s) (ns_stderr s)
    (ns_exit s) (ns_failure s) (ns_cleanup s ++ failures) (ns_shutdown_requested s) (ns_terminal s) (ns_finished s) (ns_dns_relay s).
Definition set_terminal (s : RealNetworkSession) : RealNetworkSession :=
  mkSession (ns_info s) (ns_control s) (ns_reader s) (ns_shutdown_task s) (ns_bootstrap s) (ns_pasta s) (ns_stderr s)
    (ns_exit s) (ns_failure s) (ns_cleanup s) (ns_shutdown_requested s) true (ns_finished s) (ns_dns_relay s).
Definition request_shutdown (s : RealNetworkSession) (control task_ : bool) : RealNetworkSession :=
  mkSession (ns_info s) control (ns_reader s) task_ (ns_bootstrap s) (ns_pasta s) (ns_stderr s)
    (ns_exit s) (ns_failure s) (ns_cleanup s) true (ns_terminal s) (ns_finished s) (ns_dns_relay s).
Definition join_shutdown (s : RealNetworkSession) : RealNetworkSession :=
  mkSession (ns_info s) (ns_control s) (ns_reader s) false (ns_bootstrap s) (ns_pasta s) (ns_stderr s)
    (ns_exit s) (ns_failure s) (ns_cleanup s) (ns_shutdown_requested s) (ns_terminal s) (ns_finished s) (ns_dns_relay s).
(** Every handle is given up; [failure] and [cleanup] are taken for the result. *)
Definition close_session (s : RealNetworkSession) : RealNetworkSession :=
  mkSession (ns_info s) false false false false false false (ns_exit s) None [] (ns_shutdown_requested s) (ns_terminal s) true false.

Definition begin_shutdown (s : RealNetworkSession) : RealNetworkSession :=
  if ns_shutdown_requested s then s
  else if ns_terminal s then request_shutdown s (ns_control s) (ns_shutdown_task s)
  else if ns_control s then request_shutdown s false true
  else record_failure (request_shutdown s false (ns_shutdown_task s))
         (ProvisionDataplane (bs "manager") (bs "control channel was already closed before shutdown")).

Definition finish_shutdown_request (s : RealNetworkSession) : task RealNetworkSession :=
  if ns_shutdown_task s then
    joined ⟵ call JoinShutdown;
    let s := join_shutdown s in
    Ret match joined with
        | Ok (Ok _) => s
        | Ok (Err error) => record_failure s (dataplane_manager "send shutdown to namespace manager" error)
        | Err error => record_failure s (ProvisionDataplane (bs "manager") (bs "namespace-manager shutdown task failed: " ++ error))
        end
  else Ret s.

Definition next_terminal_event (s : RealNetworkSession) : task TerminalEvent :=
  if negb (ns_pasta s) then Ret (TerminalMissing (bs "pasta"))
  else if negb (ns_bootstrap s) then Ret (TerminalMissing (bs "namespace manager"))
  else
    event ⟵ call NextTerminal;
    match event with
    | TerminalPasta _ | TerminalBootstrap _ =>
        grace ⟵ call GraceMessage;
        Ret match grace with InTime m => TerminalManager m | Elapsed => event end
    | _ => Ret event
    end.

Definition handle_terminal_event (s : RealNetworkSession) (event : TerminalEvent) : RealNetworkSession :=
  let fatal error := set_terminal (record_failure s error) in
  match event with
  | TerminalManager (Some (Ok (WorkloadExited value))) =>
      match Wire.to_exit value with
      | Ok exit => set_exit s exit
      | Err error => fatal (dataplane_manager "decode workload exit from namespace manager" error)
      end
  | TerminalManager (Some (Ok (ManagerFailed stage reason diagnostic))) =>
      record_failure s match Wire.to_stage stage with
                       | StageGatewayWorker => ProvisionDataplane (bs "gateway_worker") diagnostic
                       | stage => ProvisionStartup stage (Wire.to_reason reason) diagnostic
                       end
  | TerminalManager (Some (Ok (CleanupComplete failures))) => set_terminal (extend_cleanup s failures)
  | TerminalManager (Some (Ok m)) => fatal (ProvisionDataplane (bs "manager") (bs "unexpected manager message " ++ debug m))
  | TerminalManager (Some (Err error)) => fatal (dataplane_manager "receive terminal namespace-manager message" error)
  | TerminalManager None => fatal (ProvisionDataplane (bs "manager") (bs "namespace-manager message reader stopped"))
  | TerminalPasta status => fatal (child_dataplane_error "pasta" "pasta exited before namespace teardown" status)
  | TerminalBootstrap status => fatal (child_dataplane_error "manager" "namespace manager exited before reporting cleanup" status)
  | TerminalMissing component => fatal (ProvisionDataplane component (bs "required process handle is missing"))
  end.

Fixpoint await_terminal (turns : nat) (s : RealNetworkSession) : task RealNetworkSession :=
  if ns_terminal s then Ret s
  else match turns with
       | O => Unfinished
       | S turns => event ⟵ next_terminal_event s; await_terminal turns (handle_terminal_event s event)
       end.

Definition finish_processes (s : RealNetworkSession) : task RealNetworkSession :=
  bootstrap ⟵ stop_bootstrap (ns_bootstrap s);
  pasta ⟵ stop_pasta (ns_pasta s);
  reader ⟵ finish_reader (ns_reader s);
  stderr ⟵ finish_stderr (ns_stderr s);
  Ret (extend_cleanup s (bootstrap ++ pasta ++ reader ++ stderr.2)).

Definition session_result (s : RealNetworkSession) : result ProvisionError SubstrateExit :=
  let fallback := if ns_shutdown_requested s then Some (ExitCode 0) else None in
  let r := match ns_failure s with
           | Some error => Err error
           | None => ok_or match ns_exit s with Some exit => Some exit | None => fallback end
                       (ProvisionDataplane (bs "workload") (bs "manager completed without a workload exit"))
           end in
  match r with
  | Ok exit => match ns_cleanup s with [] => Ok exit | _ => Err (into_error (ns_cleanup s)) end
  | Err error => Err (attach_cleanup error (ns_cleanup s))
  end.

Definition wait_inner (turns : nat) (s : RealNetworkSession) (shutdown : bool) :
    task (RealNetworkSession * result ProvisionError SubstrateExit) :=
  if ns_finished s then Ret (s, Err (ProvisionDataplane (bs "manager") (bs "network session has already completed")))
  else
    s ⟵ (if shutdown then finish_shutdown_request (begin_shutdown s) else Ret s);
    s ⟵ await_terminal turns s;
    s ⟵ finish_processes s;
    Ret (close_session s, session_result s).
Definition session_wait (turns : nat) (s : RealNetworkSession) := wait_inner turns s false.
Definition session_shutdown (turns : nat) (s : RealNetworkSession) : task (RealNetworkSession * result ProvisionError unit) :=
  r ⟵ wait_inner turns s true;
  Ret (r.1, (λ _, tt) <$> r.2).

(** ** Provisioning *)

(** The relay, and the channel to the manager. *)
Definition launch_control : task (result ProvisionError (str * str)) :=
  relay ⇠ DnsRelayResources_start;
  _ ⇠ pmap_err (namespace_startup_from_io "create namespace-manager control channel") (call CreateControl);
  _ ⇠ pmap_err (namespace_startup_from_io "configure namespace-manager control channel") (call ConfigureControl);
  _ ⇠ pmap_err (namespace_startup_from_io "adopt namespace-manager control channel") (call AdoptControl);
  _ ⇠ pmap_err (namespace_startup_from_io "prepare namespace-manager descriptor isolation") (call (PrepareSanitizer [CONTROL_FD]));
  Ret (Ok relay).
Definition launch (pv : SystemNetworkProvisioner) (request : ProvisionRequest) (require_ipv6 validate_dataplane : bool) :
    task (result ProvisionError RealNetworkSession) :=
  relay ⇠ launch_control;
  let request := mkRequest (pr_workload request) (env (pr_gateway_worker request) DNS_RELAY_SOCKET_ENV relay.1) (pr_intercept_port request) in
  bootstrap_id ⇠ pmap_err (namespace_startup_from_io "spawn namespace-manager helper") (call (SpawnManager (pv_helper_path pv) MANAGER_ROLE));
  launched ⟵ launch_inner pv request require_ipv6 validate_dataplane relay.2 bootstrap_id;
  let '(held, r) := launched in
  match r with
  | Ok info =>
      match promote held info with
      | Ok session => Ret (Ok session)
      | Err error => e ⟵ fail_launch held (LaunchError error); Ret (Err e)
      end
  | Err failure => e ⟵ fail_launch held failure; Ret (Err e)
  end.

End supervisor.

Record HostConnectivity := mkConnectivity { hc_ipv4 : bool; hc_ipv6 : bool }.
(** [found name]: an executable file of that name is on the PATH. *)
Fixpoint require_tools_from (found : str → bool) (tools : list str) : result IoError unit :=
  match tools with
  | [] => Ok tt
  | tool :: tools =>
      if found tool then require_tools_from found tools
      else Err (io_other (bs "required Linux networking tool `" ++ tool ++ bs "` was not found on PATH"))
  end.
Definition require_tools (found : str → bool) : result IoError unit := require_tools_from found (words ["ip"; "nft"]).
Definition verify_dependencies (version : result IoError unit) (found : str → bool) : result ProvisionError unit :=
  _ ← map_err (unavailable_from_io PastaMissing "verify the pinned pasta executable") version;
  map_err (unavailable_from_io TproxyUnavailable "locate required Linux networking tools") (require_tools found).
Definition preflight_dependencies (c : HostConnectivity) (version : result IoError unit) (found : str → bool)
    (resolver : result IoError unit) : result PreflightReport unit :=
  let report reason error := failed reason (IoError_fmt error) (hc_ipv4 c) (hc_ipv6 c) in
  _ ← map_err (report PastaMissing) version;
  _ ← map_err (report TproxyUnavailable) (require_tools found);
  map_err (report ResolverUnavailable) resolver.

Definition report_for_error (error : ProvisionError) (c : HostConnectivity) : PreflightReport :=
  let '(reason, diagnostic) :=
    match error with
    | ProvisionUnavailable reason diagnostic | ProvisionStartup _ reason diagnostic => (reason, diagnostic)
    | ProvisionDataplane component diagnostic => (NetnsStartupFailed, component ++ bs ": " ++ diagnostic)
    | ProvisionCleanup diagnostic => (NetnsStartupFailed, diagnostic)
    end in
  failed reason diagnostic (hc_ipv4 c) (hc_ipv6 c).

Definition no_ipv4_route : str := bs "the host has no usable IPv4 route".
Definition provision (debug : ManagerMessage → str) (pv : SystemNetworkProvisioner) (c : HostConnectivity) (version : result IoError unit)
    (found : str → bool) (request : ProvisionRequest) : task (result ProvisionError RealNetworkSession) :=
  if negb (hc_ipv4 c) then Ret (Err (ProvisionUnavailable NetnsStartupFailed no_ipv4_route))
  else
    _ ⇠ Ret (verify_dependencies version found);
    launch debug pv request (hc_ipv6 c) false.

(** The probe's session: its launch, its wait under a timeout, and the shutdown
    that follows when the time is over. *)
Inductive probe_outcome :=
| ProbeNotLaunched (error : ProvisionError)
| ProbeWaited (r : result ProvisionError SubstrateExit)
| ProbeTimedOut (shutdown : result ProvisionError unit).
Definition preflight (c : HostConnectivity) (dependencies : result PreflightReport unit) (probe : probe_outcome) : PreflightReport :=
  if negb (hc_ipv4 c) then failed NetnsStartupFailed no_ipv4_route false (hc_ipv6 c)
  else match dependencies with
       | Err report => report
       | Ok _ =>
           match probe with
           | ProbeNotLaunched error => report_for_error error c
           | ProbeWaited (Ok (ExitCode 0)) => passed (hc_ipv6 c)
           | ProbeWaited (Ok exit) =>
               failed NetnsStartupFailed (bs "namespace security probe exited " ++ SubstrateExit_debug exit) (hc_ipv4 c) (hc_ipv6 c)
           | ProbeWaited (Err error) => report_for_error error c
           | ProbeTimedOut shutdown =>
               failed NetnsStartupFailed
                 match shutdown with
                 | Ok _ => bs "namespace security probe timed out"
                 | Err error => bs "namespace security probe timed out; ordered shutdown failed: " ++ ProvisionError_fmt error
                 end (hc_ipv4 c) (hc_ipv6 c)
           end
       end.

(** ** The life of a session

    [held evs s]: a launched session that has handled the events [evs] so far,
    whatever waits were cancelled and whatever shutdowns were begun. *)
Section life.
Context (debug : ManagerMessage → str).

Definition launched (info : SubstrateInfo) : RealNetworkSession :=
  mkSession info true true false true true true None None [] false false false true.
Definition shutdown_joined (s : RealNetworkSession) (joined : result str (result IoError unit)) : RealNetworkSession :=
  let s := join_shutdown s in
  match joined with
  | Ok (Ok _) => s
  | Ok (Err error) => record_failure s (dataplane_manager "send shutdown to namespace manager" error)
  | Err error => record_failure s (ProvisionDataplane (bs "manager") (bs "namespace-manager shutdown task failed: " ++ error))
  end.

Inductive held : list TerminalEvent → RealNetworkSession → Prop :=
| held_launched info : held [] (launched info)
| held_event evs s e : held evs s → ns_terminal s = false → held (evs ++ [e]) (handle_terminal_event debug s e)
| held_begin evs s : held evs s → held evs (begin_shutdown s)
| held_joined evs s joined : held evs s → ns_shutdown_task s = true → held evs (shutdown_joined s joined).

(** What the manager said, to the waits before and to this one. *)
Definition said (e : entry launch_answer) : option ManagerMessage :=
  match e with
  | mkEntry NextTerminal (TerminalManager (Some (Ok m))) | mkEntry GraceMessage (InTime (Some (Ok m))) => Some m
  | _ => None
  end.
Definition told (e : TerminalEvent) : option ManagerMessage := match e with TerminalManager (Some (Ok m)) => Some m | _ => None end.
Definition received (evs : list TerminalEvent) (log : list (entry launch_answer)) : list ManagerMessage := omap told evs ++ omap said log.
Definition tells (evs : list TerminalEvent) (m : ManagerMessage) : Prop := m ∈ omap told evs.

Definition session_inv (evs : list TerminalEvent) (s : RealNetworkSession) : Prop :=
  (ns_failure s = None → ∀ stage reason d, ¬ tells evs (ManagerFailed stage reason d)) ∧
  (ns_failure s = None → ns_terminal s = true → ∃ failures, tells evs (CleanupComplete failures) ∧ (ns_cleanup s = [] → failures = [])) ∧
  (∀ exit, ns_exit s = Some exit → ∃ w, tells evs (WorkloadExited w) ∧ Wire.to_exit w = Ok exit) ∧
  (ns_failure s = None → ns_exit s = None → ∀ w, ¬ tells evs (WorkloadExited w)) ∧
  ns_finished s = false.

Lemma told_Some e m : told e = Some m ↔ e = TerminalManager (Some (Ok m)).
Proof. destruct e as [[[]|]| | |]; naive_solver. Qed.
Lemma tells_app evs e m : tells (evs ++ [e]) m ↔ tells evs m ∨ e = TerminalManager (Some (Ok m)).
Proof.
  unfold tells. rewrite omap_app, elem_of_app, <- told_Some. cbn. destruct (told e); set_solver.
Qed.

Lemma record_failure_Some s error : ∃ e, ns_failure (record_failure s error) = Some e.
Proof. cbn. eauto. Qed.

Lemma inv_failed evs s s' e :
  session_inv evs s → ns_finished s' = ns_finished s → ns_exit s' = ns_exit s → (∃ e, ns_failure s' = Some e) →
  session_inv (evs ++ [e]) s'.
Proof.
  intros (_ & _ & H3 & _ & H5) Hf He [error Herr]. unfold session_inv. rewrite Herr, He, Hf. split_and!; try done.
  intros exit (w & Hw & ?)%H3. exists w. rewrite tells_app. auto.
Qed.

Lemma session_inv_event evs s e : session_inv evs s → ns_terminal s = false → session_inv (evs ++ [e]) (handle_terminal_event debug s e).
Proof.
  intros Hinv Hterm. unfold handle_terminal_event.
  destruct e as [[[[]|]|]| | |]; try (by eapply inv_failed; [exact Hinv|done|done|cbn; eauto]).
  - destruct (Wire.to_exit exit) as [x|] eqn:Hx; [|by eapply inv_failed; [exact Hinv|done|done|cbn; eauto]].
    destruct Hinv as (H1 & H2 & H3 & H4 & H5). split_and!; cbn; try done.
    + intros Hf stage reason d. rewrite tells_app. intros [?|[=]]. by eapply H1.
    + intros _ Ht. by rewrite Ht in Hterm.
    + intros ? [= <-]. exists exit. rewrite tells_app. auto.
  - destruct Hinv as (H1 & H2 & H3 & H4 & H5). split_and!; cbn; try done.
    + intros Hf stage reason d. rewrite tells_app. intros [?|[=]]. by eapply H1.
    + intros _ _. exists failures. rewrite tells_app. split; [by right|]. by intros [_ ?]%app_eq_nil.
    + intros x (w & ? & ?)%H3. exists w. rewrite tells_app. auto.
    + intros Hf Hx w. rewrite tells_app. intros [?|[=]]. by eapply H4.
Qed.

Lemma inv_recorded evs s error : session_inv evs s → session_inv evs (record_failure s error).
Proof. by intros (H1 & H2 & H3 & H4 & H5); split_and!. Qed.
Lemma session_inv_begin evs s : session_inv evs s → session_inv evs (begin_shutdown s).
Proof.
  intros Hinv. unfold begin_shutdown. destruct (ns_shutdown_requested s); [done|]. destruct (ns_terminal s) eqn:Ht; [exact Hinv|].
  destruct (ns_control s); [exact Hinv|]. apply inv_recorded. exact Hinv.
Qed.
Lemma session_inv_joined evs s joined : session_inv evs s → session_inv evs (shutdown_joined s joined).
Proof. intros Hinv. destruct joined as [[|]|]; [exact Hinv|apply inv_recorded; exact Hinv..]. Qed.

Lemma held_inv evs s : held evs s → session_inv evs s.
Proof.
  induction 1; [|by apply session_inv_event|by apply session_inv_begin|by apply session_inv_joined].
  split_and!; try done; intros; by intros ?%not_elem_of_nil.
Qed.

(** ** A wait *)

Lemma finish_shutdown_held evs s log s' :
  held evs s → runs (finish_shutdown_request s) log (Some s') → held evs s' ∧ omap said log = [].
Proof.
  intros Hs. unfold finish_shutdown_request. destruct (ns_shutdown_task s) eqn:Ht.
  - intros [[_ [=]]|(joined & rest & -> & -> & [[=]|[= ->]])]. split; [by apply (held_joined evs s joined)|done].
  - by intros [-> [[=]|[= ->]]].
Qed.

Lemma next_event_spec s log e : runs (next_terminal_event s) log (Some e) → omap said log = omap told [e].
Proof.
  unfold next_terminal_event. destruct (negb (ns_pasta s)); [by intros [-> [[=]|[= ->]]]|].
  destruct (negb (ns_bootstrap s)); [by intros [-> [[=]|[= ->]]]|].
  intros [[_ [=]]|(ev & rest & -> & H)].
  destruct ev as [m| | |]; cbn in H; [| | |by destruct H as [-> [[=]|[= ->]]]].
  - destruct H as [-> [[=]|[= ->]]]. by destruct m as [[]|].
  - destruct H as [[_ [=]]|([m|] & rest' & -> & -> & [[=]|[= ->]])]; [|done]. by destruct m as [[]|].
  - destruct H as [[_ [=]]|([m|] & rest' & -> & -> & [[=]|[= ->]])]; [|done]. by destruct m as [[]|].
Qed.

Lemma await_terminal_spec turns evs s log s' :
  held evs s → runs (await_terminal debug turns s) log (Some s') →
  ∃ evs', held (evs ++ evs') s' ∧ ns_terminal s' = true ∧ omap told evs' = omap said log.
Proof.
  revert evs s log. induction turns as [|turns IH]; intros evs s log Hs; cbn [await_terminal]; destruct (ns_terminal s) eqn:Ht.
  1,3: intros [-> [[=]|[= ->]]]; exists []; by rewrite app_nil_r.
  - by intros [_ [=]].
  - intros [[[=] _]|(l1 & e & l2 & -> & H1 & H2)]%runs_pbind.
    destruct (IH (evs ++ [e]) (handle_terminal_event debug s e) l2) as (evs' & Hh & ? & Hsaid); [by constructor|done|].
    exists (e :: evs'). rewrite <- app_assoc in Hh. split_and!; [done..|].
    by rewrite omap_app, <- Hsaid, (next_event_spec _ _ _ H1), <- omap_app.
Qed.

(** A process that was waited for, and nothing else to report of it. *)
Definition reaped_process (p : process) (e : entry launch_answer) : Prop := ∃ status, e = mkEntry (WaitProcess p) (InTime (Ok status)).

Lemma wait_or_kill_spec p log fs : runs (wait_or_kill p) log (Some fs) → omap said log = [] ∧ (fs = [] → shows [reaped_process p] log).
Proof.
  intros [[_ [=]]|(w & rest & -> & H)]. destruct w as [[status|e]|]; cbn in H.
  - destruct H as [-> [[=]|[= ->]]]. split; [done|]. intros _. apply shows_one. by exists status.
  - destruct H as [[_ [=]]|(k & rest' & -> & [[_ [=]]|(w2 & rest2 & -> & -> & [Hf|Hf])])]; simplify_eq; done.
  - destruct H as [[_ [=]]|(k & rest' & -> & [[_ [=]]|(w2 & rest2 & -> & -> & [Hf|Hf])])]; simplify_eq; done.
Qed.
Lemma stop_bootstrap_spec b log fs :
  runs (stop_bootstrap b) log (Some fs) → omap said log = [] ∧ (fs = [] → b = true → shows [reaped_process Bootstrap] log).
Proof.
  unfold stop_bootstrap. destruct b; [|by intros [-> _]]. intros [? Hs]%wait_or_kill_spec. auto.
Qed.
Lemma stop_pasta_spec b log fs :
  runs (stop_pasta b) log (Some fs) → omap said log = [] ∧ (fs = [] → b = true → shows [reaped_process Pasta] log).
Proof.
  unfold stop_pasta. destruct b; [|by intros [-> _]].
  intros [[[=] _]|(l0 & t & l' & -> & [[_ [=]]|(r & rest & -> & -> & _)] & H)]%runs_pbind.
  apply runs_pbind in H as [[[=] _]|(l1 & fs' & l2 & -> & H1 & -> & [Hf|Hf])]; simplify_eq.
  apply wait_or_kill_spec in H1 as [Hsaid Hs]. rewrite app_nil_r. split; [done|].
  intros [_ ->]%app_eq_nil _. apply shows_skip. auto.
Qed.
Lemma finish_reader_said b log fs : runs (finish_reader b) log (Some fs) → omap said log = [].
Proof. unfold finish_reader. destruct b; [|by intros [-> _]]. by intros [[_ [=]]|(j & rest & -> & -> & _)]. Qed.
Lemma finish_stderr_said b log fs : runs (finish_stderr b) log (Some fs) → omap said log = [].
Proof. unfold finish_stderr. destruct b; [|by intros [-> _]]. by intros [[_ [=]]|(j & rest & -> & -> & _)]. Qed.

Lemma finish_processes_spec s log s' :
  runs (finish_processes s) log (Some s') →
  omap said log = [] ∧ ∃ fs, s' = extend_cleanup s fs ∧
    (fs = [] → ns_bootstrap s = true → ns_pasta s = true → shows [reaped_process Bootstrap; reaped_process Pasta] log).
Proof.
  intros [[[=] _]|(l1 & f1 & r1 & -> & H1 & H)]%runs_pbind.
  apply runs_pbind in H as [[[=] _]|(l2 & f2 & r2 & -> & H2 & H)].
  apply runs_pbind in H as [[[=] _]|(l3 & f3 & r3 & -> & H3 & H)].
  apply runs_pbind in H as [[[=] _]|(l4 & f4 & r4 & -> & H4 & H)].
  cbn in H. destruct H as [-> [Hf|Hf]]; simplify_eq.
  apply stop_bootstrap_spec in H1 as [Hb0 Hb]. apply stop_pasta_spec in H2 as [Hp0 Hp].
  apply finish_reader_said in H3. apply finish_stderr_said in H4.
  split; [by rewrite !omap_app, Hb0, Hp0, H3, H4|]. exists (f1 ++ f2 ++ f3 ++ f4.2). split; [done|].
  intros (-> & (-> & _)%app_eq_nil)%app_eq_nil Hb1 Hp1. apply (shows_app [_] [_]); [auto|].
  rewrite <- (app_nil_r [_]). apply shows_app; [auto|constructor].
Qed.

Lemma held_processes evs s : held evs s → ns_bootstrap s = true ∧ ns_pasta s = true.
Proof.
  induction 1 as [|evs s e _ IH|evs s _ IH|evs s joined _ IH]; [done| | |].
  - unfold handle_terminal_event. destruct e as [[[[]|]|]| | |]; try done. by destruct (Wire.to_exit exit).
  - unfold begin_shutdown. by destruct (ns_shutdown_requested s), (ns_terminal s), (ns_control s).
  - by destruct joined as [[|]|].
Qed.

Lemma handle_requested s e : ns_shutdown_requested (handle_terminal_event debug s e) = ns_shutdown_requested s.
Proof. unfold handle_terminal_event. destruct e as [[[[]|]|]| | |]; try done. by destruct (Wire.to_exit exit). Qed.
Lemma await_requested turns s log s' :
  runs (await_terminal debug turns s) log (Some s') → ns_shutdown_requested s' = ns_shutdown_requested s.
Proof.
  revert s log. induction turns as [|turns IH]; intros s log; cbn [await_terminal]; destruct (ns_terminal s).
  1,3: by intros [-> [[=]|[= ->]]].
  - by intros [_ [=]].
  - intros [[[=] _]|(l1 & e & l2 & -> & H1 & H2)]%runs_pbind. by rewrite (IH _ _ H2), handle_requested.
Qed.
Lemma begin_requested s : ns_shutdown_requested (begin_shutdown s) = true.
Proof. unfold begin_shutdown. destruct (ns_shutdown_requested s) eqn:?; [done|]. by destruct (ns_terminal s), (ns_control s). Qed.
Lemma shutdown_requested_spec s log s' :
  runs (finish_shutdown_request s) log (Some s') → ns_shutdown_requested s' = ns_shutdown_requested s.
Proof.
  unfold finish_shutdown_request. destruct (ns_shutdown_task s).
  - intros [[_ [=]]|(joined & rest & -> & -> & [[=]|[= ->]])]. by destruct joined as [[|]|].
  - by intros [-> [[=]|[= ->]]].
Qed.

Lemma wait_inner_spec evs s turns shutdown log s' r :
  held evs s → runs (wait_inner debug turns s shutdown) log (Some (s', r)) →
  ∃ evs' s2 fs, held (evs ++ evs') s2 ∧ ns_terminal s2 = true ∧ omap told (evs ++ evs') = received evs log ∧
    r = session_result (extend_cleanup s2 fs) ∧ s' = close_session (extend_cleanup s2 fs) ∧
    (fs = [] → shows [reaped_process Bootstrap; reaped_process Pasta] log) ∧
    ns_shutdown_requested s2 = ns_shutdown_requested s || shutdown.
Proof.
  intros Hs. unfold wait_inner. destruct (held_inv _ _ Hs) as (_ & _ & _ & _ & ->).
  intros [[[=] _]|(l1 & s1 & l2 & -> & H1 & H)]%runs_pbind.
  apply runs_pbind in H as [[[=] _]|(l3 & s2 & l4 & -> & H2 & H)].
  apply runs_pbind in H as [[[=] _]|(l5 & s3 & l6 & -> & H3 & -> & [Hr|Hr])]; simplify_eq.
  assert (held evs s1 ∧ omap said l1 = [] ∧ ns_shutdown_requested s1 = ns_shutdown_requested s || shutdown) as (Hs1 & Hl1 & Hq).
  { destruct shutdown.
    - apply finish_shutdown_held with (evs := evs) in H1 as HH; [|by constructor]. destruct HH. split_and!; [done..|].
      by rewrite (shutdown_requested_spec _ _ _ H1), begin_requested, orb_true_r.
    - destruct H1 as [-> [[=]|[= ->]]]. by rewrite orb_false_r. }
  destruct (await_terminal_spec _ _ _ _ _ Hs1 H2) as (evs' & Hs2 & Ht & Hsaid).
  apply finish_processes_spec in H3 as (Hl5 & fs & -> & Hfs). destruct (held_processes _ _ Hs2) as [Hb Hp].
  exists evs', s2, fs. split_and!; try done.
  - unfold received. by rewrite !omap_app, Hl1, Hl5, Hsaid, app_nil_l, !app_nil_r.
  - intros Hnil. apply shows_skip_all, shows_skip_all. rewrite app_nil_r. auto.
  - by rewrite (await_requested _ _ _ _ H2).
Qed.

Lemma session_result_Ok s exit :
  session_result s = Ok exit →
  ns_failure s = None ∧ ns_cleanup s = [] ∧
  (ns_exit s = Some exit ∨ ns_exit s = None ∧ ns_shutdown_requested s = true ∧ exit = ExitCode 0).
Proof.
  unfold session_result. destruct (ns_failure s); [done|]. destruct (ns_exit s) as [x|]; cbn.
  - destruct (ns_cleanup s); [|done]. intros [= <-]. auto.
  - destruct (ns_shutdown_requested s); [|done]. cbn. destruct (ns_cleanup s); [|done]. intros [= <-]. auto 6.
Qed.

Lemma session_Ok evs s s' turns shutdown log exit :
  held evs s → runs (wait_inner debug turns s shutdown) log (Some (s', Ok exit)) →
  CleanupComplete [] ∈ received evs log ∧
  (∀ stage reason d, ManagerFailed stage reason d ∉ received evs log) ∧
  shows [reaped_process Bootstrap; reaped_process Pasta] log ∧
  ((∃ w, WorkloadExited w ∈ received evs log ∧ Wire.to_exit w = Ok exit) ∨
   (∀ w, WorkloadExited w ∉ received evs log) ∧ ns_shutdown_requested s || shutdown = true ∧ exit = ExitCode 0).
Proof.
  intros Hs Hr. destruct (wait_inner_spec _ _ _ _ _ _ _ Hs Hr) as (evs' & s2 & fs & Hs2 & Ht & Hrec & Hres & -> & Hfs & Hq).
  symmetry in Hres. apply session_result_Ok in Hres as (Hf & Hc & Hx). cbn in Hf, Hc, Hx. apply app_eq_nil in Hc as [Hc ->].
  destruct (held_inv _ _ Hs2) as (H1 & H2 & H3 & H4 & _). unfold tells in *. rewrite Hrec in *.
  destruct (H2 Hf Ht) as (failures & Hin & Hnil). rewrite (Hnil Hc) in Hin. split_and!; [done|by auto|by auto|].
  destruct Hx as [Hx|(Hx & Hreq & ->)]; [left; auto|right]. rewrite <- Hq. auto.
Qed.

(** C26: the result of waiting for (or shutting down) a session that was launched,
    whatever waits were cancelled before: an exit is returned only if the
    manager reported a complete cleanup without failures and never a failure,
    both processes were reaped, and the exit is the one the manager reported
    for the workload, or 0 for a shutdown before any exit was reported.
    Afterwards the session holds no process, task or socket, and every later
    wait or shutdown makes no call at all and answers that the session has
    already completed. *)
Theorem session_exit_faithful (evs : list TerminalEvent) (s s' : RealNetworkSession) (turns : nat) (shutdown : bool)
    (log : list (entry launch_answer)) (r : result ProvisionError SubstrateExit) :
  held evs s → runs (wait_inner debug turns s shutdown) log (Some (s', r)) →
  (∀ exit, r = Ok exit →
    CleanupComplete [] ∈ received evs log ∧
    (∀ stage reason d, ManagerFailed stage reason d ∉ received evs log) ∧
    shows [reaped_process Bootstrap; reaped_process Pasta] log ∧
    ((∃ w, WorkloadExited w ∈ received evs log ∧ Wire.to_exit w = Ok exit) ∨
     (∀ w, WorkloadExited w ∉ received evs log) ∧ ns_shutdown_requested s || shutdown = true ∧ exit = ExitCode 0)) ∧
  (ns_control s' = false ∧ ns_reader s' = false ∧ ns_shutdown_task s' = false ∧ ns_bootstrap s' = false ∧ ns_pasta s' = false ∧
   ns_stderr s' = false ∧ ns_dns_relay s' = false ∧ ns_finished s' = true) ∧
  (∀ turns' shutdown' log' o, runs (wait_inner debug turns' s' shutdown') log' o →
    log' = [] ∧ (o = None ∨ o = Some (s', Err (ProvisionDataplane (bs "manager") (bs "network session has already completed"))))).
Proof.
  intros Hs Hr. split; [intros exit ->; by eapply session_Ok|].
  destruct (wait_inner_spec _ _ _ _ _ _ _ Hs Hr) as (evs' & s2 & fs & _ & _ & _ & _ & -> & _). split; [done|].
  intros turns' shutdown' log' o [-> [-> | ->]]; auto.
Qed.
End life.

(** ** The launch *)



Definition spawned_manager (e : entry launch_answer) : Prop := match e with mkEntry (SpawnManager _ _) (Ok _) => True | _ => False end.
Definition spawned_pasta (e : entry launch_answer) : Prop := match e with mkEntry (SpawnPasta _ _) (Ok _) => True | _ => False end.
Definition spawned (e : entry launch_answer) : Prop := spawned_manager e ∨ spawned_pasta e.


Section launching.
Context (debug : ManagerMessage → str).














End launching.

(** ** The two sides together *)

Lemma sent_exit_decodes x exit : Wire.to_exit (Wire.of_exit x) = Ok exit → exit = x.
Proof.
  destruct x as [c|[z]]; cbn; [by intros [= <-]|]. unfold LinuxSignal_new. destruct (_ && _); cbn; by intros [= <-].
Qed.

Lemma cleanup_killed plan start : cleanup_evidence plan start ⊑ₑ [killed].
Proof. unfold cleanup_evidence. apply entails_later. apply entails_take; [done|]. apply entails_nil. Qed.
Lemma manager_sent turns log o m r :
  runs (manager_entrypoint turns) log o → mkEntry (SendSupervisor m) r ∈ log →
  startup_message (mkEntry (SendSupervisor m) r) = true ∨
  ∃ request es, shows (namespace_evidence ++ [asked request] ++ es) log ∧ justified request es (mkEntry (SendSupervisor m) r).
Proof.
  intros Hr (pre & post & Heq)%list_elem_of_split. destruct (manager_shows _ _ _ _ _ _ Hr Heq I) as [?|(request & es & ? & ?)]; [by left|right].
  exists request, es. split; [|done]. rewrite Heq. by apply shows_extend.
Qed.

(** C3: a run inside a namespace that returns an exit to its caller: if what the
    session heard is what the manager said (frames arrive as sent), then the
    exit is the status with which the captured workload was reaped, or 0 when a
    shutdown was asked for before it exited; in either case the workload had
    been started captured, everything in the namespace was killed and reaped,
    and the link, the rules and both processes are gone. *)
Theorem transparent_exit_end_to_end (debug : ManagerMessage → str) (mturns turns : nat) (mlog : list (entry answer))
    (mo : option (result IoError Z)) (evs : list TerminalEvent) (s s' : RealNetworkSession) (shutdown : bool)
    (log : list (entry launch_answer)) (exit : SubstrateExit) :
  runs (manager_entrypoint mturns) mlog mo →
  held debug evs s → runs (wait_inner debug turns s shutdown) log (Some (s', Ok exit)) →
  (∀ m, m ∈ received evs log → ∃ r, mkEntry (SendSupervisor m) r ∈ mlog) →
  (∃ request u, Wire.into_parts request = Ok (su_parts u) ∧
     shows (namespace_evidence ++ [asked request] ++ running_evidence u ++ clean_evidence (su_plan u)) mlog) ∧
  shows [reaped_process Bootstrap; reaped_process Pasta] log ∧
  ((∃ request u, Wire.into_parts request = Ok (su_parts u) ∧
      shows (namespace_evidence ++ [asked request] ++ running_evidence u ++ [reaped_entry (su_workload_pid u) exit; killed]) mlog) ∨
   ns_shutdown_requested s || shutdown = true ∧ exit = ExitCode 0).
Proof.
  intros Hm Hs Hr Hheard. destruct (session_Ok _ _ _ _ _ _ _ _ Hs Hr) as (Hclean & _ & Hreaped & Hexit).
  assert (∀ m, m ∈ received evs log → ∃ request es,
    startup_message (mkEntry (SendSupervisor m) (Ok tt)) = true ∨
    shows (namespace_evidence ++ [asked request] ++ es) mlog ∧ justified request es (mkEntry (SendSupervisor m) (Ok tt))) as Hsent.
  { intros m [r Hin]%Hheard. destruct (manager_sent _ _ _ _ _ Hm Hin) as [?|(request & es & ? & ?)]; [|eauto 6].
    exists sample_request, []. by left. }
  split_and!; [|done|].
  - destruct (Hsent _ Hclean) as (request & es & [[=]|(Hsh & u & ? & ? & _ & Hes)]). exists request, u. split; [done|].
    revert Hsh. apply entails_app; [done|]. apply entails_app; [done|]. by apply Hes.
  - destruct Hexit as [(w & Hw & Hx)|(_ & ? & ?)]; [left|by right].
    destruct (Hsent _ Hw) as (request & es & [[=]|(Hsh & u & x & ? & -> & start & Hes)]). apply sent_exit_decodes in Hx as ->.
    exists request, u. split; [done|]. revert Hsh. do 2 (apply entails_app; [done|]). etrans; [exact Hes|]. apply entails_app; [done|].
    refine (entails_app [_] [_] _ [_] _ (cleanup_killed _ _)). done.
Qed.

(** ** Samples *)

Definition sample_info : SubstrateInfo := match substrate_info 40000 with Ok i => i | Err _ => mkInfo 0 0 GATEWAY_IPV4 GATEWAY_IPV6 GATEWAY_IPV4 GATEWAY_IPV6 DropFragments end.
Definition sample_debug (m : ManagerMessage) : str := bs "message".
Definition count_launch (p : launch_call → bool) (before : list (entry launch_answer)) : nat := length (List.filter (λ e, p (en_call e)) before).
Definition is_next_manager (c : launch_call) : bool := match c with NextManager _ => true | _ => false end.
Definition is_next_terminal (c : launch_call) : bool := match c with NextTerminal => true | _ => false end.
(** A system in which everything works. *)
Definition sample_system (before : list (entry launch_answer)) (c : launch_call) : launch_answer c :=
  match c with
  | ReadResolvConf => Ok (bs "nameserver 1.1.1.1") | CreateRelayDirectory => Ok (bs "/tmp/relay") | CreateReadiness => Ok (bs "/proc/1/fd/9")
  | SpawnManager _ _ => Ok (Some 30%Z)
  | NextManager _ => if Nat.eqb (count_launch is_next_manager before) 0 then StartupMessage (Some (Ok UserNamespaceReady))
                     else StartupMessage (Some (Ok (GatewayNamespaceReady 31)))
  | GraceMessage => Elapsed
  | EffectiveIds => (1000%Z, 1000%Z)
  | SpawnPasta _ _ => Ok (Some 32%Z, true)
  | AwaitPasta _ _ _ => PastaReadyEvent (Ok tt)
  | NextWithPasta _ => ReadyMessage (Some (Ok (Ready (Wire.of_info sample_info))))
  | NextTerminal => if Nat.eqb (count_launch is_next_terminal before) 0 then TerminalManager (Some (Ok (WorkloadExited (Wire.Code 7))))
                    else TerminalManager (Some (Ok (CleanupComplete [])))
  | SendShutdown => InTime (Ok tt) | JoinShutdown => Ok (Ok tt) | WaitProcess _ => InTime (Ok (bs "exit status: 0")) | KillProcess _ => Ok tt
  | JoinReader => InTime (Ok tt) | JoinStderr => InTime (Ok (Ok []))
  | _ => Ok tt
  end.
Definition sample_wait := exec sample_system [] (wait_inner sample_debug 3 (launched sample_info) false).

Lemma sample_wait_runs :
  runs (wait_inner sample_debug 3 (launched sample_info) false) sample_wait.1
    (Some (close_session (set_terminal (set_exit (launched sample_info) (ExitCode 7))), Ok (ExitCode 7))).
Proof. apply (exec_runs sample_system []). vm_compute. reflexivity. Qed.

Lemma session_exit_faithful_witness : CleanupComplete [] ∈ received [] sample_wait.1 ∧ shows [reaped_process Bootstrap; reaped_process Pasta] sample_wait.1.
Proof.
  destruct (session_exit_faithful sample_debug [] (launched sample_info) _ 3 false sample_wait.1 _ (held_launched _ _) sample_wait_runs) as [H _].
  destruct (H _ eq_refl) as (H1 & _ & H2 & _). exact (conj H1 H2).
Defined.


Definition is_clean_report (c : sys_call) : bool := match c with SendSupervisor (CleanupComplete _) => true | _ => false end.
Definition clean_at : nat := Eval vm_compute in position_of is_clean_report.
Lemma transparent_exit_end_to_end_witness :
  ∃ request u, Wire.into_parts request = Ok (su_parts u) ∧
    shows (namespace_evidence ++ [asked request] ++ running_evidence u ++ clean_evidence (su_plan u)) sample_run.1.
Proof.
  refine (proj1 (transparent_exit_end_to_end sample_debug 5 3 sample_run.1 sample_run.2 [] (launched sample_info) _ false sample_wait.1 (ExitCode 7)
    sample_runs (held_launched _ _) sample_wait_runs _)).
  intros m Hm. change (received [] sample_wait.1) with [WorkloadExited (Wire.Code 7); CleanupComplete []] in Hm.
  exists (Ok tt). apply elem_of_cons in Hm as [->|Hm].
  - apply (list_elem_of_lookup_2 _ exited_at). vm_compute. reflexivity.
  - apply list_elem_of_singleton in Hm as ->. apply (list_elem_of_lookup_2 _ clean_at). vm_compute. reflexivity.
Defined.
