(* ===== verification/Gateway.v ===== *)
(** * The gateway's TCP flows (crates/hiloop-interceptor/src/netns/gateway.rs, ingress.rs, tls_transport.rs)

    The gateway worker accepts the workload's intercepted connections one at a
    time, classifies and authorizes each, and serves every admitted flow in a
    task of its own: the TLS policy engine decides whether the flow is refused,
    spliced to its destination or served as HTTP, and each HTTP request passes
    the proxy's handler before it goes upstream.  Acceptor and flows are
    programs over calls (see Programs); [gateway_step] interleaves them over the
    engine they share.  The HTTP server and client (hyper), rustls and the
    http crate's types are the class [HttpLib] and calls that answer anything. *)
From Stdlib Require Import Strings.Byte.
From S2P Require Import Prelude Text Net Identity Event Capture Spool Seams Pipeline Blob Egress NetCapture Redact Anomaly Relay.
From S2P Require Import ProxyMeta ProxyTee ProxyHandler Substrate Protocol Classifier Route TlsPolicy Programs Listener.

(** ** The http crate and the HTTP client *)

(** [authority_from_str] is the text of a parsed [Authority]; [connect_addresses]
    the addresses [HttpConnector] dials for a URI, given the resolver. *)
Class HttpLib := {
  authority_from_str : str → result str str;
  uri_from_parts : str → str → option str → result str Uri;
  connect_addresses : Uri → (str → result IoError (list (IpAddr * Z))) → result IoError (list (IpAddr * Z));
}.
Definition with_port (port : Z) (addresses : list (IpAddr * Z)) : list (IpAddr * Z) := (λ a, (a.1, port)) <$> addresses.
(** An authority keeps its text; a URI made from parts has them; the connector
    dials an address literal as it is, and any other host at the addresses it
    resolves to, with the port of the URI. *)
Class HttpLaws (HT : HttpLib) : Prop := {
  authority_text : ∀ s a, authority_from_str s = Ok a → a = s;
  uri_parts : ∀ scheme authority path u, uri_from_parts scheme authority path = Ok u →
    uri_scheme u = Some scheme ∧ uri_authority u = Some authority;
  connect_literal : ∀ u ip port resolve, is_u16 port → uri_authority u = Some (fmt_socket_addr ip port) →
    connect_addresses u resolve = Ok [(ip, port)];
  connect_domain : ∀ u domain port resolve, is_u16 port → uri_authority u = Some (domain ++ port_suffix port) →
    x3a ∉ domain → IpAddr_from_str domain = None →
    connect_addresses u resolve = with_port port <$> resolve domain;
}.
(** A domain of the url crate is neither an address literal nor has a colon. *)
Class UrlDomains (L : UrlLib) : Prop :=
  url_domain : ∀ s d, Host_parse s = Some (HostDomain d) →
    x3a ∉ d ∧ IpAddr_from_str (default d (strip_suffix (bs ".") d)) = None.

(** ** Counted copies (tls_transport.rs) *)

Inductive side := ToUpstream | ToClient.
(** What the two copies do: each reads a chunk or the end of its stream, writes
    some of the bytes it holds, and shuts its writer down after the last. *)
Inductive copy_event :=
| CopyRead (s : side) (chunk : str)
| CopyEof (s : side)
| CopyWrote (s : side) (n : nat)
| CopyShutdown (s : side)
| CopyFailed (s : side) (error : IoError).
Record half := mkHalf { hf_read : str; hf_written : nat; hf_eof : bool; hf_shut : bool; hf_count : Z }.
Record copy_state := mkCopy { cp_up : half; cp_down : half; cp_error : option IoError }.
Definition half_new : half := mkHalf [] 0 false false 0.
Definition copy_start : copy_state := mkCopy half_new half_new None.
(** [CountingWriter]: the count is an [AtomicU64], which wraps. *)
Definition counted (h : half) (n : nat) : half :=
  mkHalf (hf_read h) (hf_written h + n) (hf_eof h) (hf_shut h) ((hf_count h + Z.of_nat n) mod 2 ^ 64).
Definition half_step (h : half) (e : copy_event) : half :=
  match e with
  | CopyRead _ chunk => if hf_eof h then h else mkHalf (hf_read h ++ chunk) (hf_written h) false (hf_shut h) (hf_count h)
  | CopyEof _ => mkHalf (hf_read h) (hf_written h) true (hf_shut h) (hf_count h)
  | CopyWrote _ n => if bool_decide (hf_written h + n ≤ length (hf_read h)) then counted h n else h
  | CopyShutdown _ =>
      if hf_eof h && bool_decide (hf_written h = length (hf_read h))
      then mkHalf (hf_read h) (hf_written h) (hf_eof h) true (hf_count h) else h
  | CopyFailed _ _ => h
  end.
Definition event_side (e : copy_event) : side :=
  match e with CopyRead s _ | CopyEof s | CopyWrote s _ | CopyShutdown s | CopyFailed s _ => s end.
(** [try_join!]: the first failure ends both. *)
Definition copy_done (c : copy_state) : bool :=
  bool_decide (is_Some (cp_error c)) || hf_shut (cp_up c) && hf_shut (cp_down c).
Definition copy_step (c : copy_state) (e : copy_event) : copy_state :=
  if copy_done c then c
  else match e with
       | CopyFailed _ error => mkCopy (cp_up c) (cp_down c) (Some error)
       | e => match event_side e with
              | ToUpstream => mkCopy (half_step (cp_up c) e) (cp_down c) None
              | ToClient => mkCopy (cp_up c) (half_step (cp_down c) e) None
              end
       end.
Definition copies (events : list copy_event) : copy_state := foldl copy_step copy_start events.
(** Both copies, once they have ended; [None] while they run. *)
Record CountedCopy := mkCounted { cc_upstream : Z; cc_downstream : Z; cc_result : result IoError unit }.
Definition copy_bidirectional_counted (events : list copy_event) : option CountedCopy :=
  let c := copies events in
  if copy_done c
  then Some (mkCounted (hf_count (cp_up c)) (hf_count (cp_down c)) match cp_error c with Some e => Err e | None => Ok tt end)
  else None.

(** All of a stream has been relayed. *)
Definition relayed (h : half) : Prop := hf_eof h = true ∧ hf_written h = length (hf_read h).

Lemma half_step_count h e :
  (hf_count h = Z.of_nat (hf_written h) mod 2 ^ 64)%Z → hf_written h ≤ length (hf_read h) → (hf_shut h = true → relayed h) →
  let h' := half_step h e in
  (hf_count h' = Z.of_nat (hf_written h') mod 2 ^ 64)%Z ∧ hf_written h' ≤ length (hf_read h') ∧ (hf_shut h' = true → relayed h').
Proof.
  intros Hc Hl Hs. unfold relayed in *. destruct e as [s chunk|s|s n|s|s err]; simpl.
  - destruct (hf_eof h) eqn:E; simpl; [split_and!; [done..|naive_solver]|]. rewrite length_app. split_and!; [done|lia|]. intros Hx. apply Hs in Hx as [? _]. congruence.
  - split_and!; [done|done|]. intros Hx. by apply Hs in Hx as [_ ?].
  - case_bool_decide as Hn; simpl; [|done]. split_and!; [|done|].
    + rewrite Hc, Nat2Z.inj_add, Zplus_mod_idemp_l. done.
    + intros Hx. apply Hs in Hx as [? ?]. split; [done|lia].
  - destruct (hf_eof h && _) eqn:E; simpl; [|done]. apply andb_true_iff in E as [? ?%bool_decide_eq_true]. done.
  - done.
Qed.
Definition half_ok (h : half) : Prop :=
  (hf_count h = Z.of_nat (hf_written h) mod 2 ^ 64)%Z ∧ hf_written h ≤ length (hf_read h) ∧ (hf_shut h = true → relayed h).

Lemma copies_ok events : half_ok (cp_up (copies events)) ∧ half_ok (cp_down (copies events)).
Proof.
  unfold copies. assert (half_ok half_new) as Hnew by (split_and!; [done|simpl; lia|done]).
  assert (half_ok (cp_up copy_start) ∧ half_ok (cp_down copy_start)) as Hstart by done.
  revert Hstart. generalize copy_start as c. induction events as [|e events IH]; intros c Hc; [done|]. simpl. apply IH.
  destruct Hc as [(? & ? & ?) (? & ? & ?)]. unfold copy_step. destruct (copy_done c); [done|].
  destruct e as [s chunk|s|s n|s|s err]; try done; destruct s; cbn [event_side cp_up cp_down]; split; try done; by apply half_step_count.
Qed.

(** What a finished copy says: the bytes written each way, modulo the counter's
    width, and, if it succeeded, that all of both streams was relayed. *)
Definition copy_exact (events : list copy_event) (cc : CountedCopy) : Prop :=
  let up := cp_up (copies events) in
  let down := cp_down (copies events) in
  hf_written up ≤ length (hf_read up) ∧ hf_written down ≤ length (hf_read down) ∧
  (cc_upstream cc = Z.of_nat (hf_written up) mod 2 ^ 64)%Z ∧ (cc_downstream cc = Z.of_nat (hf_written down) mod 2 ^ 64)%Z ∧
  (cc_result cc = Ok tt → relayed up ∧ relayed down).

Lemma copy_bidirectional_exact events cc : copy_bidirectional_counted events = Some cc → copy_exact events cc.
Proof.
  unfold copy_bidirectional_counted. destruct (copies_ok events) as [(Hu & Hul & Hus) (Hd & Hdl & Hds)].
  destruct (copy_done (copies events)) eqn:Ed; [|done]. intros [= <-]. unfold copy_exact. simpl.
  split_and!; try done. unfold copy_done in Ed. destruct (cp_error (copies events)); [done|]. intros _.
  rewrite bool_decide_false in Ed by (by intros [? [=]]). simpl in Ed. apply andb_true_iff in Ed as [? ?]. auto.
Qed.

Inductive TlsTransportError :=
| TransportContract (error : CaptureContractError)
| TransportCopy (error : IoError)
| EventChannelClosed
| CopyAndEventChannelClosed (error : IoError).
Definition finish_splice (copy : result IoError unit) (queued : bool) (counts : ByteCounts) : result TlsTransportError ByteCounts :=
  match copy, queued with
  | Ok _, true => Ok counts
  | Err error, true => Err (TransportCopy error)
  | Ok _, false => Err EventChannelClosed
  | Err error, false => Err (CopyAndEventChannelClosed error)
  end.

(** A handshake error of rustls: the error it wraps (if it is rustls's) and the
    sources below. *)
Inductive AlertDescription := UnknownCA | AlertBadCertificate | AlertCertificateUnknown | OtherAlert.
Inductive RustlsError := AlertReceived (alert : AlertDescription) | OtherRustls.
Record HandshakeError := mkHandshake { he_kind : IoErrorKind; he_inner : option RustlsError; he_sources : list (option RustlsError) }.
Definition classify_rustls_error (error : RustlsError) : HandshakeFailure :=
  match error with
  | AlertReceived UnknownCA => ClientTrustAlert UnknownCa
  | AlertReceived AlertBadCertificate => ClientTrustAlert BadCertificate
  | AlertReceived AlertCertificateUnknown => ClientTrustAlert CertificateUnknown
  | _ => FailureProtocolMismatch
  end.
Definition classify_client_handshake_error (error : HandshakeError) : HandshakeFailure :=
  match he_inner error with
  | Some rustls => classify_rustls_error rustls
  | None =>
      match head (omap id (he_sources error)) with
      | Some rustls => classify_rustls_error rustls
      | None =>
          match he_kind error with
          | UnexpectedEof => Eof
          | TimedOut => Timeout
          | ConnectionReset | ConnectionAborted | BrokenPipe => Reset
          | InvalidData => FailureProtocolMismatch
          | _ => Internal
          end
      end
  end.

(** ** Calls of the acceptor and of a flow *)

Section calls.
Context {L : UrlLib} {N : IpNetLib} {U : UlidLib} {HT : HttpLib} (blake3_hex : str → str).
Context (parse_json : str → option Value) (find : ScanMode → str → list Match).
Context {H : Type} {HL : HeaderLib H} {W : Type} {HW : HandlerWorld W}.

(** The state each request of a connection is served with. *)
Record HttpForwarder := mkForwarder { fw_tls : bool; fw_route : AuthorizedRoute; fw_handler : CaptureHandler }.
Inductive flow_call :=
| AcceptClient
| ClientLocalAddr
| PeekClient
| PeekPreface (limit : nat)
| DeadlinePassed
| PollSleep
| Evidence
| DecideTransport (flow : TlsPolicyFlow)
| RecordFailure (flow : TlsPolicyFlow) (failure : HandshakeFailure)
| ConnectUpstream (ip : IpAddr) (port : Z)
| Tick
| MintId
| CopyBytes
| SendEvent (event : Event)
| ServerConfig (host : str)
| AcceptTls
| UpstreamConfig
| ServeConnection (h2 : bool) (forwarder : HttpForwarder).

(** [AcceptTls] answers the negotiated protocol, [ServeConnection] how the
    connection ended, [SendEvent] whether the queue is open. *)
Definition flow_answer (c : flow_call) : Type :=
  match c with
  | AcceptClient | ConnectUpstream _ _ | ServerConfig _ | UpstreamConfig | ServeConnection _ _ => result IoError unit
  | ClientLocalAddr => result IoError (IpAddr * Z)
  | PeekClient => timed (result IoError str)
  | PeekPreface _ => result IoError str
  | DeadlinePassed | SendEvent _ => bool
  | PollSleep => unit
  | Evidence => DnsAnswerEvidence
  | DecideTransport _ => TlsTransportDecision
  | RecordFailure _ _ => HandshakeFailureDecision
  | Tick => Hlc
  | MintId => EventId
  | CopyBytes => list copy_event
  | AcceptTls => result HandshakeError (option str)
  end.
Abbreviation program := (prog flow_answer).
Definition flow (c : flow_call) : program (flow_answer c) := perform c.

(** ** Acceptance (ingress.rs) *)

Inductive IngressError :=
| IngressSocket (error : IoError)
| IngressClassification (error : ClassificationError)
| ClassificationTimeout
| IngressDenied (denial : RouteDenial)
| IngressUpstream (error : IoError).
Record AdmittedTcpFlow := mkAdmitted { ad_route : AuthorizedRoute; ad_protocol : TcpProtocol }.

Definition CaptureContractError_fmt (e : CaptureContractError) : str :=
  match e with
  | Blank field => field ++ bs " must not be blank"
  | PortError => bs "original destination port must be between 1 and 65535"
  | IntegerRange field value => field ++ bs " exceeds the event integer range: " ++ show_int value
  end.
Definition recover_original_destination : program (result IoError OriginalDestination) :=
  destination ⇠ flow ClientLocalAddr;
  Ret (map_err (λ e, io_error InvalidData (CaptureContractError_fmt e)) (OriginalDestination_new destination.1 destination.2)).

Fixpoint classify_stream (turns : nat) : program (result IngressError TcpProtocol) :=
  match turns with
  | 0 => Unfinished
  | S turns =>
      peeked ⟵ flow PeekClient;
      match peeked with
      | Elapsed => Ret (Err ClassificationTimeout)
      | InTime (Err error) => Ret (Err (IngressSocket error))
      | InTime (Ok []) => Ret (Err (IngressSocket (io_error UnexpectedEof (bs "client closed before TCP classification completed"))))
      | InTime (Ok prefix) =>
          match classify_tcp_prefix blake3_hex (take MAX_CLASSIFICATION_BYTES prefix) with
          | Err error => Ret (Err (IngressClassification error))
          | Ok (Classified protocol) => Ret (Ok protocol)
          | Ok NeedMore =>
              late ⟵ flow DeadlinePassed;
              if (late : bool) then Ret (Err ClassificationTimeout) else _ ⟵ flow PollSleep; classify_stream turns
          end
      end
  end.

(** [TransparentTcpIngress::accept] *)
Definition ingress_accept (turns : nat) (policy : EgressPolicy) : program (result IngressError AdmittedTcpFlow) :=
  _ ⇠ pmap_err IngressSocket (flow AcceptClient);
  original_destination ⇠ pmap_err IngressSocket recover_original_destination;
  protocol ⇠ classify_stream turns;
  dns ⟵ flow Evidence;
  Ret (route ← map_err IngressDenied (authorize_route policy dns original_destination protocol);
       Ok (mkAdmitted route protocol)).

Definition tls_flow_identity (a : AdmittedTcpFlow) : result CaptureContractError (option TlsFlowIdentity) :=
  match ad_protocol a with
  | TlsClientHello hello => Some <$> flow_identity hello (original_destination (ad_route a))
  | _ => Ok None
  end.

(** [connect_authorized] with [DirectTcpConnector] *)
Definition connect_authorized (a : AdmittedTcpFlow) : program (result IoError unit) :=
  let destination := original_destination (ad_route a) in
  flow (ConnectUpstream (od_ip destination) (od_port destination)).

(** ** Splices *)

Definition TlsTransportError_fmt (e : TlsTransportError) : str :=
  match e with
  | TransportContract error => CaptureContractError_fmt error
  | TransportCopy error => bs "raw TCP splice failed: " ++ IoError_fmt error
  | EventChannelClosed => bs "capture event queue closed during raw TCP splice"
  | CopyAndEventChannelClosed error => bs "raw TCP splice failed and its capture event queue was closed: " ++ IoError_fmt error
  end.
Definition io_transport {A} (p : program (result TlsTransportError A)) : program (result IoError A) :=
  pmap_err (λ e, io_other (TlsTransportError_fmt e)) p.

(** Both splices: copy, then one event with the counts. *)
Definition splice (event : EventId → ByteCounts → Event) : program (result TlsTransportError ByteCounts) :=
  copying ⟵ flow CopyBytes;
  match copy_bidirectional_counted copying with
  | None => Unfinished
  | Some copied =>
      counts ⇠ Ret (map_err TransportContract (ByteCounts_new (cc_upstream copied) (cc_downstream copied)));
      id ⟵ flow MintId;
      queued ⟵ flow (SendEvent (event id counts));
      Ret (finish_splice (cc_result copied) queued counts)
  end.
Definition raw_tls_splice (context : RunContext) (started_at : Hlc) (reason : TlsPassthroughReason) (flow : TlsFlowIdentity) :=
  splice (λ id counts, tls_passthrough id context started_at reason flow counts).
Definition raw_tcp_splice (context : RunContext) (started_at : Hlc) (destination : OriginalDestination) :=
  splice (λ id counts, net_passthrough id context started_at Tcp destination UnsupportedApplicationProtocol counts).
Definition emit_interception_failure (context : RunContext) (timestamp : Hlc) (tls : TlsFlowIdentity)
    (decision : HandshakeFailureDecision) : program (result TlsTransportError unit) :=
  id ⟵ flow MintId;
  queued ⟵ flow (SendEvent (tls_interception_failed id context timestamp (failed_reason decision) tls (retry_required decision)));
  Ret (if (queued : bool) then Ok tt else Err EventChannelClosed).

(** ** HTTP (gateway.rs) *)

Definition route_authority (route : AuthorizedRoute) : str :=
  let host := match dest_host (route_identity route) with
              | Domain host => host
              | Ip (V4 ip) => fmt_ipv4 ip
              | Ip (V6 ip) => [x5b] ++ fmt_ipv6 ip ++ [x5d]
              end in
  match dest_port (route_identity route) with
  | Some port => host ++ port_suffix port
  | None => host
  end.

Definition request_authority (r : Request (H := H)) : option str :=
  match uri_authority (rq_uri r) with
  | Some authority => Some authority
  | None => header_str (rq_headers r) HOST
  end.

Definition absolute_request (r : Request (H := H)) (route : AuthorizedRoute) (tls : bool) : result IoError Request :=
  authority ← map_err (io_error InvalidData) (authority_from_str (route_authority route));
  uri ← map_err (io_error InvalidData)
          (uri_from_parts (if tls then bs "https" else bs "http") authority (uri_path_and_query (rq_uri r)));
  Ok (mkReq (rq_method r) uri (rq_headers r) (rq_body r) (rq_end_stream r)).

(** [PinnedResolver::call]: only the admitted host, at the flow's address. *)
Definition resolver_call (route : AuthorizedRoute) (name : str) : result IoError (list (IpAddr * Z)) :=
  if bool_decide (name = host_str (route_identity route))
  then Ok [(od_ip (original_destination route), 0%Z)]
  else Err (io_error PermissionDenied (bs "upstream resolver received a request outside the admitted authority")).

(** The service of a connection, with what becomes of a forwarded request. *)
Definition proxy_http_request (c : HandlerConfig) (fw : HttpForwarder) (r : Request) (f : finale) :
    M (W := W) (@Outcome H * option (@TeeState H)) :=
  let refused := conclude c (forbidden (H := H)) f ≫= λ tee, mret (forbidden, tee) in
  match request_authority r with
  | None => refused
  | Some authority =>
      match validate_request_authority (fw_route fw) authority with
      | Err _ => refused
      | Ok _ =>
          match absolute_request r (fw_route fw) (fw_tls fw) with
          | Err _ => refused
          | Ok r => http_exchange parse_json find c r f
          end
      end
  end.
(** A request hyper hands to the service of a connection, the world it meets,
    and what becomes of it upstream. *)
Record exchange := mkExchange { ex_world : W; ex_request : Request (H := H); ex_finale : finale (H := H) }.

(** An exchange of a served connection runs with the connection's handler. *)
Definition run_exchange (c : HandlerConfig) (fw : HttpForwarder) (x : exchange) : @Env W * (@Outcome H * option (@TeeState H)) :=
  proxy_http_request c fw (ex_request x) (ex_finale x) (mkEnv (ex_world x) (fw_handler fw) []).

(** [pinned_client] and [serve_http] *)
Definition serve_http (tls h2 : bool) (route : AuthorizedRoute) (handler : CaptureHandler) : program (result IoError unit) :=
  _ ⇠ flow UpstreamConfig;
  flow (ServeConnection h2 (mkForwarder tls route (with_connect_host handler (dest_host (route_identity route))))).

Definition H2 : str := bs "h2".
Definition cleartext_http2 : program (result IoError bool) :=
  prefix ⇠ flow (PeekPreface (length HTTP2_PREFACE));
  Ret (Ok (bool_decide (take (length HTTP2_PREFACE) prefix = HTTP2_PREFACE))).

(** ** A flow's task *)

(** [TcpGateway]: what the tasks share, besides the calls' state. *)
Record TcpGateway := mkGateway { gw_context : RunContext; gw_handler : CaptureHandler }.

Definition io_contract {A} (r : result CaptureContractError A) : result IoError A := map_err (λ e, io_other (CaptureContractError_fmt e)) r.
Definition tls_identity (a : AdmittedTcpFlow) (missing : string) : result IoError TlsFlowIdentity :=
  identity ← io_contract (tls_flow_identity a);
  ok_or identity (io_other (bs missing)).

Definition terminate_tls (g : TcpGateway) (a : AdmittedTcpFlow) : program (result IoError unit) :=
  identity ⇠ Ret (tls_identity a "TLS termination selected for non-TLS flow");
  _ ⇠ flow (ServerConfig (host_str (route_identity (ad_route a))));
  accepted ⟵ flow AcceptTls;
  match accepted with
  | Ok alpn => serve_http true (bool_decide (alpn = Some H2)) (ad_route a) (gw_handler g)
  | Err error =>
      decision ⟵ flow (RecordFailure (FlowAdmitted (ad_route a) (ad_protocol a)) (classify_client_handshake_error error));
      now ⟵ flow Tick;
      io_transport (emit_interception_failure (gw_context g) now identity decision)
  end.

Definition consume_transport_decision (g : TcpGateway) (a : AdmittedTcpFlow) (decision : TlsTransportDecision) :
    program (result IoError unit) :=
  match decision with
  | Denied _ => Ret (Ok tt)
  | PassthroughTls reason =>
      identity ⇠ Ret (tls_identity a "TLS passthrough selected for non-TLS flow");
      _ ⇠ connect_authorized a;
      now ⟵ flow Tick;
      _ ⇠ io_transport (raw_tls_splice (gw_context g) now reason identity);
      Ret (Ok tt)
  | PassthroughTcp =>
      _ ⇠ connect_authorized a;
      now ⟵ flow Tick;
      _ ⇠ io_transport (raw_tcp_splice (gw_context g) now (original_destination (ad_route a)));
      Ret (Ok tt)
  | CaptureHttp =>
      h2 ⇠ cleartext_http2;
      serve_http false h2 (ad_route a) (gw_handler g)
  | TerminateTls => terminate_tls g a
  end.

Definition handle_tcp_flow (g : TcpGateway) (a : AdmittedTcpFlow) : program (result IoError unit) :=
  decision ⟵ flow (DecideTransport (FlowAdmitted (ad_route a) (ad_protocol a)));
  consume_transport_decision g a decision.

(** ** The worker *)

(** A program after some of its calls. *)
Record task := mkTask { tk_log : list (entry flow_answer); tk_rest : program (result IoError unit); tk_flow : AdmittedTcpFlow }.
Record gateway := mkState {
  gs_engine : TlsPolicyEngine; gs_accept : list (entry flow_answer) * program (result IngressError AdmittedTcpFlow);
  gs_tasks : list task; gs_stopped : option IngressError }.

(** The engine answers under its lock; every other call, anything. *)
Definition engine_answers (e : TlsPolicyEngine) (c : flow_call) : flow_answer c → TlsPolicyEngine → Prop :=
  match c as c return flow_answer c → TlsPolicyEngine → Prop with
  | DecideTransport f => λ r e', r = decide e f ∧ e' = e
  | RecordFailure f failure => λ r e', (e', r) = record_handshake_failure e f failure
  | _ => λ _ e', e' = e
  end.

(** A socket's port has 16 bits. *)
Definition sane (e : entry flow_answer) : Prop :=
  match en_call e as c return flow_answer c → Prop with
  | ClientLocalAddr => λ r, match r with Ok (_, port) => is_u16 port | Err _ => True end
  | _ => λ _, True
  end (en_answer e).

(** One step: the acceptor or a flow's task makes its next call, or the
    acceptor ends an acceptance ([serve_tcp]): it spawns an admitted flow's
    task, goes on after a denied one, and stops after any other failure. *)
Inductive gateway_step (g : TcpGateway) (policy : EgressPolicy) (turns : nat) : gateway → gateway → Prop :=
| step_accept e log c k tasks r :
    sane (mkEntry c r) →
    gateway_step g policy turns (mkState e (log, Call c k) tasks None) (mkState e (log ++ [mkEntry c r], k r) tasks None)
| step_admitted e log a tasks :
    gateway_step g policy turns (mkState e (log, Ret (Ok a)) tasks None)
      (mkState e ([], ingress_accept turns policy) (tasks ++ [mkTask [] (handle_tcp_flow g a) a]) None)
| step_denied e log denial tasks :
    gateway_step g policy turns (mkState e (log, Ret (Err (IngressDenied denial))) tasks None)
      (mkState e ([], ingress_accept turns policy) tasks None)
| step_failed e log error tasks :
    (∀ denial, error ≠ IngressDenied denial) →
    gateway_step g policy turns (mkState e (log, Ret (Err error)) tasks None) (mkState e (log, Ret (Err error)) tasks (Some error))
| step_task e acceptor i log c k a r e' tasks :
    tasks !! i = Some (mkTask log (Call c k) a) → engine_answers e c r e' →
    gateway_step g policy turns (mkState e acceptor tasks None)
      (mkState e' acceptor (<[i := mkTask (log ++ [mkEntry c r]) (k r) a]> tasks) None).

Definition gateway_start (policy : EgressPolicy) (registry : CompatibilityRegistry) (turns : nat) : gateway :=
  mkState (TlsPolicyEngine_new policy registry) ([], ingress_accept turns policy) [] None.

(** What the worker serves requests with: no relay, no bound transport
    ([CaptureHandler::new] in [run_gateway]). *)
Definition worker_config (max_capture_bytes : option Z) (redaction : RedactionPolicy) (egress : EgressPolicy) (anomaly : AnomalyConfig) :
    HandlerConfig := mkHandlerConfig max_capture_bytes redaction egress anomaly None false.

(** ** Specification *)

(** The address a flow may reach: its own, as the policy normalizes it when it
    names an address. *)
Definition pinned_address (route : AuthorizedRoute) : IpAddr :=
  match dest_host (route_identity route) with Ip ip => ip | Domain _ => od_ip (original_destination route) end.
Definition authorized (policy : EgressPolicy) (a : AdmittedTcpFlow) : Prop :=
  is_u16 (od_port (original_destination (ad_route a))) ∧
  ∃ dns, authorize_route policy dns (original_destination (ad_route a)) (ad_protocol a) = Ok (ad_route a).

(** The events a log hands to the queue, and whether they entered it. *)
Definition sent_event (e : entry flow_answer) : option (Event * bool) :=
  match en_call e as c return flow_answer c → option (Event * bool) with
  | SendEvent event => λ queued, Some (event, queued)
  | _ => λ _, None
  end (en_answer e).
Definition sent (log : list (entry flow_answer)) : list (Event * bool) := omap sent_event log.
(** The copies and the handshake failures in a log. *)
Definition copied (log : list (entry flow_answer)) : list (list copy_event) :=
  omap (λ e : entry flow_answer,
    match en_call e as c return flow_answer c → option (list copy_event) with CopyBytes => Some | _ => λ _, None end (en_answer e)) log.
Definition recorded (log : list (entry flow_answer)) : list (TlsPolicyFlow * HandshakeFailure * HandshakeFailureDecision) :=
  omap (λ e : entry flow_answer,
    match en_call e as c return flow_answer c → option (TlsPolicyFlow * HandshakeFailure * HandshakeFailureDecision) with
    | RecordFailure f failure => λ d, Some (f, failure, d)
    | _ => λ _, None
    end (en_answer e)) log.
(** The connections opened in a log. *)
Definition connected (log : list (entry flow_answer)) : list (IpAddr * Z) :=
  omap (λ e : entry flow_answer,
    match en_call e as c return flow_answer c → option (IpAddr * Z) with
    | ConnectUpstream ip port => λ r, match r with Ok _ => Some (ip, port) | Err _ => None end
    | _ => λ _, None
    end (en_answer e)) log.

(** ** Lemmas *)

Implicit Types (policy : EgressPolicy) (a : AdmittedTcpFlow) (log : list (entry flow_answer)).

Lemma ip_text_literal (route : AuthorizedRoute) ip port :
  dest_host (route_identity route) = Ip ip → dest_port (route_identity route) = Some port →
  route_authority route = fmt_socket_addr ip port.
Proof. unfold route_authority, port_suffix. intros -> ->. destruct ip; simpl; by rewrite <- ?app_assoc. Qed.

Lemma default_strip_elem (b : byte) s suffix : b ∈ default s (strip_suffix suffix s) → b ∈ s.
Proof.
  destruct (strip_suffix suffix s) as [t|] eqn:E; [|done]. apply strip_suffix_Some in E as ->. simpl. intros ?. apply elem_of_app. by left.
Qed.

Lemma dial_pinned {HTL : HttpLaws HT} {UL : UrlLaws L} {UD : UrlDomains L} policy a u :
  authorized policy a → uri_authority u = Some (route_authority (ad_route a)) →
  connect_addresses u (resolver_call (ad_route a)) = Ok [(pinned_address (ad_route a), od_port (original_destination (ad_route a)))].
Proof.
  intros [Hport [dns Ha]] Hu. apply authorize_route_Ok in Ha as (_ & Hp & Hid); [|done].
  unfold pinned_address. destruct (dest_host _) as [hostname|ip] eqn:Hh.
  - destruct Hid as (authority & d & Hd & Hdom). destruct (canonicalize_domain _ _ _ Hd Hdom) as (s & parsed & Hparse & ->).
    destruct (url_domain _ _ Hparse) as [Hcolon Hlit].
    rewrite (connect_domain u (default parsed (strip_suffix (bs ".") parsed)) (od_port (original_destination (ad_route a)))); [|done| | |done].
    + unfold resolver_call, host_str. rewrite Hh. simpl. by rewrite bool_decide_true.
    + rewrite Hu. unfold route_authority. by rewrite Hh, Hp.
    + intros Hin. by apply default_strip_elem, Hcolon in Hin.
  - apply connect_literal; [done|]. rewrite Hu. f_equal. by apply ip_text_literal.
Qed.

Lemma absolute_request_Ok {HTL : HttpLaws HT} r route tls r' :
  absolute_request r route tls = Ok r' →
  rq_method r' = rq_method r ∧ uri_authority (rq_uri r') = Some (route_authority route).
Proof.
  unfold absolute_request. intros (authority & H1 & (uri & H2 & [= <-])%bind_Ok)%bind_Ok.
  apply map_err_Ok in H1, H2. apply authority_text in H1 as ->. by apply uri_parts in H2 as [_ H2].
Qed.

Lemma validated_authority route authority :
  validate_request_authority route authority = Ok tt →
  ∃ d, canonicalize_host authority = Ok d ∧
    dest_host (with_default_port d (od_port (original_destination route))) = dest_host (route_identity route) ∧
    dest_port (with_default_port d (od_port (original_destination route))) = dest_port (route_identity route).
Proof.
  unfold validate_request_authority. destruct (canonicalize_host authority) as [d|]; [|done]. cbv zeta.
  destruct (_ && _) eqn:E; [|done]. intros _. apply andb_true_iff in E as [E1%bool_decide_eq_true E2%bool_decide_eq_true]. eauto.
Qed.

Lemma evaluate_host policy d d' : dest_host d = dest_host d' → evaluate policy d = evaluate policy d'.
Proof. unfold evaluate. by intros ->. Qed.

(** What a forwarded request of a connection is. *)
Lemma run_exchange_forwards {HTL : HttpLaws HT} c fw x m u h b :
  (run_exchange c fw x).2.1 = Forward m u h b →
  m = rq_method (ex_request x) ∧ uri_authority u = Some (route_authority (fw_route fw)) ∧
  (∃ authority, request_authority (ex_request x) = Some authority ∧ validate_request_authority (fw_route fw) authority = Ok tt) ∧
  (m ≠ CONNECT_METHOD → ∀ host, connect_host (fw_handler fw) = Some host →
     is_allow_all (hc_egress c) = true ∨ ∀ d, dest_host d = host → allowed (evaluate (hc_egress c) d) = true) ∧
  (m = CONNECT_METHOD → is_allow_all (hc_egress c) = true ∨
     ∃ d, canonicalize_host (route_authority (fw_route fw)) = Ok d ∧ allowed (evaluate (hc_egress c) d) = true).
Proof.
  unfold run_exchange, proxy_http_request.
  assert (∀ env : @Env W, (((conclude c (forbidden (H := H)) (ex_finale x) ≫= λ tee, mret (forbidden, tee)) : M (W := W) (@Outcome H * option (@TeeState H))) env).2.1
    ≠ Forward m u h b) as Hno.
  { intros env. unfold mbind, M_bind. by destruct (conclude _ _ _ env). }
  destruct (request_authority (ex_request x)) as [authority|] eqn:Ea; [|by intros ?%Hno].
  destruct (validate_request_authority (fw_route fw) authority) as [[]|] eqn:Ev; [|by intros ?%Hno].
  destruct (absolute_request _ _ _) as [r|] eqn:Er; [|by intros ?%Hno].
  apply absolute_request_Ok in Er as [Hm Hu]. unfold http_exchange. unfold mbind at 1, M_bind at 1.
  destruct (on_request parse_json find c r _) as [env1 o] eqn:Eo. unfold mbind at 1, M_bind at 1.
  destruct (conclude c o (ex_finale x) env1) as [env2 tee]. unfold mret, M_ret. cbn [fst snd]. intros ->.
  apply on_request_forwards in Eo as (-> & -> & Hp). split_and!; [done|done|eauto| |].
  2:{ intros Hc. rewrite bool_decide_true in Hp by done. destruct Hp as [_ Hp]. unfold canonical_authority in Hp. rewrite bool_decide_true, Hu in Hp by done.
      cbn [mbind option_bind] in Hp. destruct (canonicalize_host _) as [d|]; [|by left]. destruct Hp; [by left|right; eauto]. }
  intros Hne host Hh. rewrite bool_decide_false in Hp by done. unfold permitted_request in Hp.
  destruct (canonical_authority r) as [d|]; [|by left]. destruct Hp as [[?|Hal] Heq]; [by left|right].
  intros d' <-. rewrite (evaluate_host _ d' d); [done|]. by apply Heq.
Qed.

(** *** A flow's task *)

(** Which calls a flow's task makes, given what the engine may decide. *)
Definition passthrough (d : TlsTransportDecision) : Prop := match d with PassthroughTls _ | PassthroughTcp => True | _ => False end.
Definition flow_entry (splices : Prop) a (e : entry flow_answer) : Prop :=
  match en_call e with
  | ConnectUpstream ip port => splices ∧ ip = od_ip (original_destination (ad_route a)) ∧ port = od_port (original_destination (ad_route a))
  | ServeConnection _ fw => fw_route fw = ad_route a ∧ connect_host (fw_handler fw) = Some (dest_host (route_identity (ad_route a)))
  | _ => True
  end.
Definition decided (D : TlsTransportDecision → Prop) (e : entry flow_answer) : Prop :=
  match en_call e as c return flow_answer c → Prop with DecideTransport _ => D | _ => λ _, True end (en_answer e).

Ltac each :=
  first [ apply each_ptry; [|intros ?] | apply each_pmap_err | apply each_pbind; [|intros ?]
        | match goal with |- each _ (flow ?c) => refine (each_perform _ c _); intros ?; try exact I end
        | apply each_ret | apply each_unfinished
        | match goal with |- each _ (match ?x with _ => _ end) => destruct x end ].

Lemma consume_entries (S : Prop) g a d : (passthrough d → S) → each (flow_entry S a) (consume_transport_decision g a d).
Proof.
  intros HS. destruct d as [denial| | |reason|]; simpl in HS; unfold consume_transport_decision, connect_authorized; cbv zeta; repeat each.
  all: by split; auto.
Qed.

(** A task connects only to its destination and only where the engine said to
    splice, and serves only its own route. *)
Lemma handle_tcp_flow_entries (D : TlsTransportDecision → Prop) (S : Prop) g a log o :
  (∀ d, D d → passthrough d → S) → runs (handle_tcp_flow g a) log o → Forall (decided D) log → Forall (flow_entry S a) log.
Proof.
  intros HD. intros [[-> _]|(d & rest & -> & Hr)] Hlog; [done|]. apply Forall_cons in Hlog as [Hd _]. apply Forall_cons. split; [done|].
  exact (consume_entries S g a d (HD d Hd) _ _ Hr).
Qed.

(** *** The acceptor and the interleaving *)

Lemma ingress_accept_authorized {UL : UrlLaws L} turns policy log a :
  runs (ingress_accept turns policy) log (Some (Ok a)) → Forall sane log → authorized policy a.
Proof.
  unfold ingress_accept, recover_original_destination.
  intros [([=] & _)|[(e & _ & [[=]|[=]])|(l1 & x & l2 & -> & _ & Hr)]]%runs_ptry.
  apply runs_ptry in Hr as [([=] & _)|[(e & _ & [[=]|[=]])|(l3 & dest & l4 & -> & Hd & Hr)]].
  intros [_ [Hl3 _]%Forall_app]%Forall_app.
  assert (is_u16 (od_port dest)) as Hport.
  { apply runs_pmap_err in Hd as [[[=] _]|(r & Hd & [[=]|[= Hr0]])]. destruct r as [d|]; [|done]. simplify_eq/=.
    destruct Hd as [[_ [=]]|([[ip port]|e] & rest & -> & [-> [[=]|[= Hd]]])].
    symmetry in Hd. apply map_err_Ok in Hd. unfold OriginalDestination_new in Hd. cbn in Hd.
    apply Forall_cons in Hl3 as [Hs _]. by destruct (_ =? _)%Z; simplify_eq. }
  apply runs_ptry in Hr as [([=] & _)|[(e & _ & [[=]|[=]])|(l5 & protocol & l6 & -> & _ & Hr)]].
  destruct Hr as [[_ [=]]|(dns & rest & -> & _ & [[=]|[= Ha]])].
  symmetry in Ha. apply bind_Ok in Ha as (route & Hroute & [= <-]). apply map_err_Ok in Hroute.
  pose proof (authorize_route_Ok _ _ _ _ _ Hport Hroute) as (Hdest & _). split; simpl; rewrite Hdest; [done|by exists dns].
Qed.

Definition task_ok policy (e : TlsPolicyEngine) (g : TcpGateway) (t : task) : Prop :=
  authorized policy (tk_flow t) ∧ reaches (handle_tcp_flow g (tk_flow t)) (tk_log t) (tk_rest t) ∧
  Forall (decided (λ d, passthrough d → posture e ≠ PolicyStrict)) (tk_log t).
Definition gateway_inv policy (g : TcpGateway) (turns : nat) (s : gateway) : Prop :=
  (is_allow_all policy = false → posture (gs_engine s) = PolicyStrict) ∧
  reaches (ingress_accept turns policy) (gs_accept s).1 (gs_accept s).2 ∧ Forall sane (gs_accept s).1 ∧
  Forall (task_ok policy (gs_engine s) g) (gs_tasks s).

Lemma strict_decisions e f : posture e = PolicyStrict → ¬ passthrough (decide e f).
Proof.
  intros Hp. unfold decide. destruct f as [denial|route protocol]; [by intros []|]. rewrite Hp. unfold decide_policy_strict.
  destruct protocol as [http|hello|]; [by intros []| |by intros []]. by destruct (encrypted_client_hello hello); intros [].
Qed.
Lemma engine_posture e c r e' : engine_answers e c r e' → posture e' = posture e.
Proof.
  destruct c as [| | | | | | |f|f failure| | | | | | | | |]; simpl; try (by intros ->); [by intros [_ ->]|].
  unfold record_handshake_failure. destruct f as [denial|route protocol]; [by intros [= -> _]|].
  destruct protocol as [http|hello|]; try by intros [= -> _]. by repeat case_match; intros [= -> _]; simplify_eq/=.
Qed.

Lemma gateway_step_inv {UL : UrlLaws L} policy g turns s s' : gateway_inv policy g turns s → gateway_step g policy turns s s' → gateway_inv policy g turns s'.
Proof.
  intros (Hp & Hr & Hs & Ht) Hstep.
  destruct Hstep as [e log c k tasks r Hsane|e log a tasks|e log denial tasks|e log error tasks Hne|e [alog acc] i log c k a r e' tasks Hi He];
    simpl in *; unfold gateway_inv; simpl.
  - split_and!; [done|by constructor|by apply Forall_app; split; [|constructor]|done].
  - split_and!; [done|constructor|constructor|]. apply Forall_app. split; [done|]. constructor; [|constructor].
    split; [|split; [constructor|constructor]]. eapply ingress_accept_authorized; [|exact Hs]. rewrite <- (app_nil_r log).
    eapply reaches_runs; [exact Hr|]. simpl. auto.
  - split_and!; [done|constructor|constructor|done].
  - done.
  - pose proof (engine_posture _ _ _ _ He) as Hpost. split_and!; [by rewrite Hpost|done..|].
    assert (Forall (task_ok policy e' g) tasks) as Ht'.
    { eapply Forall_impl; [exact Ht|]. intros t (? & ? & Hd). split_and!; [done..|]. unfold task_ok. by rewrite Hpost. }
    apply Forall_insert; [done|]. apply (Forall_lookup_1 _ _ _ _ Ht') in Hi as (Ha & Hreach & Hd). simpl in *.
    split_and!; [done|by constructor|]. apply Forall_app. split; [done|]. constructor; [|constructor].
    destruct c; try exact I. simpl in He. destruct He as [-> ->]. intros Hpass Hstrict. by apply (strict_decisions e flow0 Hstrict).
Qed.

Lemma gateway_reachable_inv {UL : UrlLaws L} policy registry g turns s :
  rtc (gateway_step g policy turns) (gateway_start policy registry turns) s → gateway_inv policy g turns s.
Proof.
  assert (gateway_inv policy g turns (gateway_start policy registry turns)) as Hinit.
  { split_and!; simpl; [|constructor|constructor|constructor]. by intros ->. }
  revert Hinit. induction 2; eauto using gateway_step_inv.
Qed.


Lemma splice_runs event log r :
  runs (splice event) log (Some r) → ∃ events cc rest, log = mkEntry CopyBytes events :: rest ∧ copy_bidirectional_counted events = Some cc ∧
    match ByteCounts_new (cc_upstream cc) (cc_downstream cc) with
    | Ok counts => ∃ id queued, rest = [mkEntry MintId id; mkEntry (SendEvent (event id counts)) queued] ∧ r = finish_splice (cc_result cc) queued counts
    | Err e => rest = [] ∧ r = Err (TransportContract e)
    end.
Proof.
  unfold splice. intros [[_ [=]]|(events & rest & -> & Hr)]. exists events. cbn in Hr.
  destruct (copy_bidirectional_counted events) as [cc|]; [|by destruct Hr]. exists cc, rest. split_and!; [done..|].
  destruct (ByteCounts_new _ _) as [counts|e]; cbn in Hr.
  - destruct Hr as [[_ [=]]|(id & l1 & -> & [[_ [=]]|(queued & l2 & -> & -> & [[=]|[= ->]])])]. eauto.
  - destruct Hr as [-> [[=]|[= ->]]]. done.
Qed.

Lemma io_transport_runs {A} (p : program (result TlsTransportError A)) log r :
  runs (io_transport p) log (Some r) → ∃ r', runs p log (Some r') ∧ r = map_err (λ e, io_other (TlsTransportError_fmt e)) r'.
Proof. unfold io_transport. intros [[[=] _]|(r' & Hr & [[=]|[= ->]])]%runs_pmap_err. eauto. Qed.

(** The event a spliced flow leaves. *)
Inductive splice_event (g : TcpGateway) a counts : TlsTransportDecision → Event → Prop :=
| event_tls id ts reason identity : tls_flow_identity a = Ok (Some identity) →
    splice_event g a counts (PassthroughTls reason) (tls_passthrough id (gw_context g) ts reason identity counts)
| event_tcp id ts :
    splice_event g a counts PassthroughTcp
      (net_passthrough id (gw_context g) ts Tcp (original_destination (ad_route a)) UnsupportedApplicationProtocol counts).

Definition splice_reported (g : TcpGateway) a (log : list (entry flow_answer)) (r : result IoError unit) (events : list copy_event) : Prop :=
  ∃ cc, copy_exact events cc ∧
    match ByteCounts_new (cc_upstream cc) (cc_downstream cc) with
    | Ok counts => ∃ d event queued, mkEntry (DecideTransport (FlowAdmitted (ad_route a) (ad_protocol a))) d ∈ log ∧
        splice_event g a counts d event ∧ sent log = [(event, queued)] ∧ (r = Ok tt ↔ cc_result cc = Ok tt ∧ queued = true)
    | Err _ => sent log = [] ∧ r ≠ Ok tt
    end.
Lemma finish_splice_Ok copy queued counts : (∃ c, finish_splice copy queued counts = Ok c) ↔ copy = Ok tt ∧ queued = true.
Proof. destruct copy as [[]|], queued; simpl; naive_solver. Qed.

Lemma sent_app l1 l2 : sent (l1 ++ l2) = sent l1 ++ sent l2.
Proof. apply omap_app. Qed.
Lemma copied_app l1 l2 : copied (l1 ++ l2) = copied l1 ++ copied l2.
Proof. apply omap_app. Qed.

Lemma spliced_flow g a d event pre log r r' :
  runs (splice event) log (Some r') → (∀ id counts, splice_event g a counts d (event id counts)) → (r = Ok tt ↔ ∃ c, r' = Ok c) →
  mkEntry (DecideTransport (FlowAdmitted (ad_route a) (ad_protocol a))) d ∈ pre → sent pre = [] → copied pre = [] →
  ∃ events, copied (pre ++ log) = [events] ∧ splice_reported g a (pre ++ log) r events.
Proof.
  intros Hs Hev Hr Hd Hpre Hno. apply splice_runs in Hs as (events & cc & rest & -> & Hcc & Hrest). exists events.
  assert (sent (pre ++ mkEntry CopyBytes events :: rest) = sent rest ∧
    copied (pre ++ mkEntry CopyBytes events :: rest) = events :: copied rest) as [Hsent Hcopied].
  { rewrite sent_app, copied_app, Hpre, Hno. done. }
  unfold splice_reported. rewrite Hsent, Hcopied. destruct (ByteCounts_new _ _) as [counts|e] eqn:Ec.
  - destruct Hrest as (id & queued & -> & ->). split; [done|]. exists cc. split; [by apply copy_bidirectional_exact|]. rewrite Ec.
    exists d, (event id counts), queued. split_and!; [apply elem_of_app; by left|done|done|]. rewrite Hr. apply finish_splice_Ok.
  - destruct Hrest as [-> ->]. split; [done|]. exists cc. split; [by apply copy_bidirectional_exact|]. rewrite Ec.
    split; [done|]. rewrite Hr. by intros [? [=]].
Qed.

Lemma unit_Ok {A} (r' : result TlsTransportError A) :
  (match map_err (λ e, io_other (TlsTransportError_fmt e)) r' with Ok _ => Ok tt | Err e => Err e end : result IoError unit) = Ok tt ↔
  ∃ c, r' = Ok c.
Proof. destruct r'; simpl; naive_solver. Qed.

(** A splice in a flow's task, after the connection. *)
Lemma passthrough_runs g a d event pre log r :
  (∀ id counts, splice_event g a counts d (event id counts)) →
  mkEntry (DecideTransport (FlowAdmitted (ad_route a) (ad_protocol a))) d ∈ pre → sent pre = [] → copied pre = [] →
  runs (_ ⇠ io_transport (splice event); Ret (Ok tt)) log (Some r) →
  ∃ events, copied (pre ++ log) = [events] ∧ splice_reported g a (pre ++ log) r events.
Proof.
  intros Hev Hd Hpre Hno [([=] & _)|[(e & Hr & [[=]|[= ->]])|(l1 & c & l2 & -> & Hr & [-> [[=]|[= ->]]])]]%runs_ptry.
  - apply io_transport_runs in Hr as (r' & Hr & He). eapply spliced_flow; try done. rewrite <- unit_Ok, <- He. done.
  - apply io_transport_runs in Hr as (r' & Hr & He). rewrite app_nil_r. eapply spliced_flow; try done. rewrite <- unit_Ok, <- He. done.
Qed.

(** Calls that open nothing, copy nothing and report nothing. *)
Definition plain (e : entry flow_answer) : Prop :=
  match en_call e with ConnectUpstream _ _ | CopyBytes | SendEvent _ | RecordFailure _ _ => False | _ => True end.
Definition bare log : Prop := sent log = [] ∧ copied log = [] ∧ recorded log = [] ∧ connected log = [].
Lemma plain_bare log : Forall plain log → bare log.
Proof.
  induction 1 as [|[c r] log He _ IH]; [done|]. by destruct c; try done; exact IH.
Qed.
Lemma bare_app l1 l2 : bare l1 → bare l2 → bare (l1 ++ l2).
Proof. intros (? & ? & ? & ?) (? & ? & ? & ?). unfold bare, sent, copied, recorded, connected in *. rewrite !omap_app. by split_and!; apply app_nil. Qed.

Lemma serve_http_bare tls h2 route handler log o : runs (serve_http tls h2 route handler) log o → bare log.
Proof. intros Hr. eapply plain_bare. revert Hr. revert log o. change (each plain (serve_http tls h2 route handler)). unfold serve_http. repeat each. Qed.

(** What a finished flow's log says of its own report. *)
Definition flow_reported (g : TcpGateway) a log (r : result IoError unit) : Prop :=
  bare log ∨
  (connected log = [] ∨ connected log = [(od_ip (original_destination (ad_route a)), od_port (original_destination (ad_route a)))]) ∧
  ((∃ events, copied log = [events] ∧ recorded log = [] ∧ connected log ≠ [] ∧ splice_reported g a log r events) ∨
   (∃ failure d identity id ts queued, copied log = [] ∧ connected log = [] ∧
      recorded log = [(FlowAdmitted (ad_route a) (ad_protocol a), failure, d)] ∧ tls_flow_identity a = Ok (Some identity) ∧
      sent log = [(tls_interception_failed id (gw_context g) ts (failed_reason d) identity (retry_required d), queued)] ∧
      (r = Ok tt ↔ queued = true))).

Lemma tls_identity_Ok a missing identity : tls_identity a missing = Ok identity → tls_flow_identity a = Ok (Some identity).
Proof. unfold tls_identity, io_contract. intros (o & Ho & Hi)%bind_Ok. apply map_err_Ok in Ho. apply ok_or_Ok in Hi. by rewrite Ho, Hi. Qed.

Lemma splice_silent event log o : runs (splice event) log o → recorded log = [] ∧ connected log = [].
Proof.
  intros Hr. assert (Forall (λ e : entry flow_answer, match en_call e with ConnectUpstream _ _ | RecordFailure _ _ => False | _ => True end) log) as Hf.
  { revert Hr. revert log o. match goal with |- ∀ log o, _ → Forall ?P log => change (each P (splice event)) end. unfold splice. repeat each. }
  clear -Hf. induction Hf as [|[c x] log He _ IH]; [done|]. by destruct c; try done; exact IH.
Qed.

(** A connection and a splice, once the engine has decided. *)
Lemma connected_splice g a d event log r :
  (∀ now id counts, splice_event g a counts d (event now id counts)) →
  runs (_ ⇠ connect_authorized a; now ⟵ flow Tick; _ ⇠ io_transport (splice (event now)); Ret (Ok tt)) log (Some r) →
  flow_reported g a (mkEntry (DecideTransport (FlowAdmitted (ad_route a) (ad_protocol a))) d :: log) r.
Proof.
  intros Hev Hr. unfold connect_authorized in Hr. destruct Hr as [[_ [=]]|([[]|e] & l1 & -> & Hr)].
  2:{ destruct Hr as [-> _]. by left. }
  destruct Hr as [[_ [=]]|(now & l2 & -> & Hr)]. fold (@pbind flow_call flow_answer) in Hr. right.
  match goal with |- context [?x :: mkEntry Tick now :: l2] => set (c := x) end.
  assert (recorded l2 = [] ∧ connected l2 = []) as [Hrec Hcon].
  { apply runs_ptry in Hr as [([=] & _)|[(e & Hr & _)|(l3 & x & l4 & -> & Hr & [-> _])]];
      apply io_transport_runs in Hr as (r' & Hr & _); rewrite ?app_nil_r; by eapply splice_silent. }
  pose proof (passthrough_runs g a d (event now) [mkEntry (DecideTransport (FlowAdmitted (ad_route a) (ad_protocol a))) d; c; mkEntry Tick now] l2 r
    (Hev now) ltac:(left) eq_refl eq_refl Hr) as (events & Hcop & Hrep).
  assert (connected (mkEntry (DecideTransport (FlowAdmitted (ad_route a) (ad_protocol a))) d :: c :: mkEntry Tick now :: l2)
    = [(od_ip (original_destination (ad_route a)), od_port (original_destination (ad_route a)))]) as Hconn.
  { change ((od_ip (original_destination (ad_route a)), od_port (original_destination (ad_route a))) :: connected l2
      = [(od_ip (original_destination (ad_route a)), od_port (original_destination (ad_route a)))]). by rewrite Hcon. }
  rewrite Hconn. split; [by right|]. left. exists events. split_and!; [exact Hcop|exact Hrec|done|exact Hrep].
Qed.

Lemma terminate_tls_runs g a log r :
  runs (terminate_tls g a) log (Some r) →
  flow_reported g a (mkEntry (DecideTransport (FlowAdmitted (ad_route a) (ad_protocol a))) TerminateTls :: log) r.
Proof.
  unfold terminate_tls. destruct (tls_identity a _) as [identity|e] eqn:Ei; [|by intros [-> _]; left].
  apply tls_identity_Ok in Ei. intros [[_ [=]]|([[]|e] & l1 & -> & Hr)]; [|by destruct Hr as [-> _]; left].
  destruct Hr as [[_ [=]]|([alpn|error] & l2 & -> & Hr)].
  { left. apply serve_http_bare in Hr. exact Hr. }
  destruct Hr as [[_ [=]]|(d & l3 & -> & [[_ [=]]|(ts & l4 & -> & [[_ [=]]|(id & l5 & -> & Hr)])])].
  destruct Hr as [[_ [=]]|(queued & l6 & -> & -> & [[=]|[= ->]])].
  right. split; [by left|]. right. eexists _, d, identity, id, ts, queued. split_and!; [done..|]. by destruct queued; simpl.
Qed.

(** ** Properties *)

(** C6: the gateway's flows are confined.  However the acceptor and the
    flows interleave, whatever sockets, TLS and HTTP do, every flow in service
    was authorized by the policy for its own destination; a connection opened
    for it outside HTTP goes to that destination, and only under the allow-all
    policy; and a request of a connection it serves is sent on only if its own
    authority names the flow's identity and the policy permits that identity
    (for a nested CONNECT: the destination that the flow's own authority, which
    replaces the request's, canonicalizes to), to the pinned address and port. *)
Theorem gateway_flows_confined {HTL : HttpLaws HT} {UL : UrlLaws L} {UD : UrlDomains L} (policy : EgressPolicy)
    (registry : CompatibilityRegistry) (g : TcpGateway) (turns : nat) (s : gateway) (t : task) :
  rtc (gateway_step g policy turns) (gateway_start policy registry turns) s → t ∈ gs_tasks s →
  let route := ad_route (tk_flow t) in
  authorized policy (tk_flow t) ∧
  (∀ ip port r, mkEntry (ConnectUpstream ip port) r ∈ tk_log t →
     is_allow_all policy = true ∧ ip = od_ip (original_destination route) ∧ port = od_port (original_destination route)) ∧
  (∀ h2 fw served max redaction anomaly x m u h b, mkEntry (ServeConnection h2 fw) served ∈ tk_log t →
     (run_exchange (worker_config max redaction policy anomaly) fw x).2.1 = Forward m u h b →
     connect_addresses u (resolver_call (fw_route fw)) = Ok [(pinned_address route, od_port (original_destination route))] ∧
     (∃ authority d, request_authority (ex_request x) = Some authority ∧ canonicalize_host authority = Ok d ∧
        with_default_port d (od_port (original_destination route)) = route_identity route) ∧
     (m ≠ CONNECT_METHOD → is_allow_all policy = true ∨ allowed (evaluate policy (route_identity route)) = true) ∧
     (m = CONNECT_METHOD → is_allow_all policy = true ∨
        ∃ d, canonicalize_host (route_authority route) = Ok d ∧ allowed (evaluate policy d) = true)).
Proof.
  intros Hr Ht route. apply gateway_reachable_inv in Hr as (Hstrict & _ & _ & Htasks). rewrite Forall_forall in Htasks.
  destruct (Htasks t Ht) as (Ha & Hreach & Hd). split; [done|].
  pose proof (reaches_runs _ _ _ _ _ Hreach (runs_empty _)) as Hruns. rewrite app_nil_r in Hruns.
  assert (Forall (flow_entry (is_allow_all policy = true) (tk_flow t)) (tk_log t)) as Hall.
  { eapply handle_tcp_flow_entries; [|exact Hruns|exact Hd]. intros d Hpass Hp. apply Hpass in Hp. destruct (is_allow_all policy); [done|]. by destruct Hp; auto. }
  rewrite Forall_forall in Hall. split.
  - intros ip port r Hin. exact (Hall _ Hin).
  - intros h2 fw served max redaction anomaly x m u h b Hin Hf. destruct (Hall _ Hin) as [Hroute Hhost].
    apply run_exchange_forwards in Hf as (_ & Hu & (authority & Hq & Hv) & Hp & Hpc). rewrite Hroute in *.
    split_and!; [by eapply dial_pinned| | |exact Hpc].
    + apply validated_authority in Hv as (d & Hd' & H1 & H2). exists authority, d. split_and!; [done..|].
      destruct (with_default_port d _), (route_identity (ad_route (tk_flow t))) eqn:E; unfold route; rewrite E; simpl in *; congruence.
    + intros Hm. destruct (Hp Hm _ Hhost) as [?|Hal]; [by left|right]. by apply Hal.
Qed.

(** C8: what the gateway does not capture it reports.  A finished flow
    that was spliced leaves exactly one passthrough event, with the bytes
    written each way (unless they exceed the event's integers); its task succeeds
    exactly when both streams were relayed to their end and the event was
    queued.  A flow whose client refused the interception leaves exactly one
    failure event, with the engine's decision.  Every other flow opens no
    connection of its own and reports nothing here: its requests passed the
    proxy's handler. *)
Theorem uncaptured_flow_reported (g : TcpGateway) (a : AdmittedTcpFlow) (log : list (entry flow_answer)) (r : result IoError unit) :
  runs (handle_tcp_flow g a) log (Some r) → flow_reported g a log r.
Proof.
  intros [[_ [=]]|(d & rest & -> & Hr)]. change (runs (consume_transport_decision g a d) rest (Some r)) in Hr.
  destruct d as [denial| | |reason|]; cbn [consume_transport_decision] in Hr.
  - destruct Hr as [-> _]. by left.
  - by apply terminate_tls_runs.
  - left. destruct Hr as [[_ [=]]|([h2|e] & l1 & -> & Hr)]; [|by destruct Hr as [-> _]]. apply serve_http_bare in Hr. exact Hr.
  - destruct (tls_identity a _) as [identity|e] eqn:Ei; [|by destruct Hr as [-> _]; left]. apply tls_identity_Ok in Ei.
    eapply (connected_splice g a _ (λ now id counts, tls_passthrough id (gw_context g) now reason identity counts)); [|exact Hr].
    intros now id counts. by constructor.
  - eapply (connected_splice g a _ (λ now id counts, net_passthrough id (gw_context g) now Tcp (original_destination (ad_route a)) UnsupportedApplicationProtocol counts)); [|exact Hr].
    intros now id counts. constructor.
Qed.

(** *** Sequential runs *)

Lemma accept_exec env log (p : program (result IngressError AdmittedTcpFlow)) l r g policy turns e tasks :
  exec env log p = (l, Some r) → Forall sane l →
  rtc (gateway_step g policy turns) (mkState e (log, p) tasks None) (mkState e (log ++ l, Ret r) tasks None).
Proof.
  revert log l. induction p as [x| |c k IH]; intros log l; simpl; [intros [= <- <-] _; by rewrite app_nil_r|done|].
  destruct (exec env (log ++ _) (k _)) as [l' o] eqn:E. intros [= <- ->] [Hs Hl]%Forall_cons.
  eapply rtc_l; [by apply step_accept|].
  assert (log ++ mkEntry c (env log c) :: l' = (log ++ [mkEntry c (env log c)]) ++ l') as -> by by rewrite <- app_assoc.
  by eapply IH.
Qed.
(** A task that only asks the engine for decisions. *)
Definition unlearned (e : TlsPolicyEngine) (x : entry flow_answer) : Prop := engine_answers e (en_call x) (en_answer x) e.
Lemma task_exec env log p l r g policy turns e acceptor tasks i a :
  exec env log p = (l, Some r) → Forall (unlearned e) l → tasks !! i = Some (mkTask log p a) →
  rtc (gateway_step g policy turns) (mkState e acceptor tasks None)
    (mkState e acceptor (<[i := mkTask (log ++ l) (Ret r) a]> tasks) None).
Proof.
  revert log l tasks. induction p as [x| |c k IH]; intros log l tasks; simpl.
  - intros [= <- <-] _ Hi. by rewrite app_nil_r, list_insert_id.
  - done.
  - destruct (exec env (log ++ _) (k _)) as [l' o] eqn:E. intros [= <- ->] [He Hl]%Forall_cons Hi.
    eapply rtc_l; [by eapply step_task|].
    assert (log ++ mkEntry c (env log c) :: l' = (log ++ [mkEntry c (env log c)]) ++ l') as -> by by rewrite <- app_assoc.
    rewrite <- (list_insert_insert_eq tasks i (mkTask ((log ++ [mkEntry c (env log c)]) ++ l') (Ret r) a) (mkTask (log ++ [mkEntry c (env log c)]) (k (env log c)) a)).
    eapply IH; [done..|]. apply list_lookup_insert_eq. by eapply lookup_lt_Some.
Qed.

(** *** Classification ends *)

#[local] Opaque MAX_CLASSIFICATION_BYTES.

Definition polls (log : list (entry flow_answer)) : nat :=
  length (List.filter (λ e, match en_call e with DeadlinePassed => true | _ => false end) log).

(** Classification always ends: once the clock has passed the deadline at some
    poll, no turns beyond it are needed, whatever the client sends. *)
Lemma polls_app l1 l2 : polls (l1 ++ l2) = polls l1 + polls l2.
Proof. unfold polls. by rewrite List.filter_app, length_app. Qed.
Lemma polls_one c r : polls [mkEntry c r] = match c with DeadlinePassed => 1 | _ => 0 end.
Proof. by destruct c. Qed.
Lemma classification_ends_from (env : list (entry flow_answer) → ∀ c, flow_answer c) n turns log :
  (∀ log, n ≤ polls log → env log DeadlinePassed = true) → polls log ≤ n → n < turns + polls log →
  is_Some (exec env log (classify_stream turns)).2.
Proof.
  intros Hclock. revert log. induction turns as [|turns IH]; intros log Hle Hn; [simpl in Hn; lia|]. simpl.
  set (l1 := log ++ _). assert (polls l1 = polls log) as Hl1 by (unfold l1; rewrite polls_app, polls_one; lia).
  destruct (env log _) as [[[|b prefix]|e]|]; simpl; [done| |done..].
  destruct (classify_tcp_prefix blake3_hex _) as [[|protocol]|e]; simpl; [|done..].
  set (l2 := l1 ++ _). assert (polls l2 = S (polls log)) as Hl2 by (unfold l2; rewrite polls_app, Hl1, polls_one; lia).
  destruct (env l1 DeadlinePassed) eqn:Ed; simpl; [done|].
  assert (polls log < n). { destruct (decide_rel le n (polls log)) as [Hx|Hx]; [|lia]. rewrite <- Hl1 in Hx. apply Hclock in Hx. congruence. }
  specialize (IH (l2 ++ [mkEntry PollSleep (env l2 PollSleep)])). rewrite polls_app, polls_one, Hl2 in IH.
  specialize (IH ltac:(lia) ltac:(lia)).
  destruct (exec env _ (classify_stream turns)) as [rest o]. exact IH.
Qed.

(** Classification always ends: if the clock has passed the deadline by the
    [n]-th time it is asked, [n + 1] turns give a result, whatever the client sends. *)
Theorem classification_ends (env : list (entry flow_answer) → ∀ c, flow_answer c) (n turns : nat) :
  (∀ log, n ≤ polls log → env log DeadlinePassed = true) → n < turns → is_Some (exec env [] (classify_stream turns)).2.
Proof. intros Hclock Hn. apply (classification_ends_from env n turns []); [done|unfold polls; simpl; lia..]. Qed.

(** *** What ends the worker *)

(** One client that sends nothing until the classification deadline stops the
    acceptor, and with it the worker and every flow. *)
Lemma silent_client_stops_gateway g policy registry turns :
  ∃ s, rtc (gateway_step g policy (S turns)) (gateway_start policy registry (S turns)) s ∧ gs_stopped s = Some ClassificationTimeout ∧
    ∀ s', ¬ gateway_step g policy (S turns) s s'.
Proof.
  eexists. split; [|split].
  - eapply rtc_l; [by apply (step_accept _ _ _ _ [] AcceptClient _ [] (Ok tt))|]. cbn.
    eapply rtc_l; [by apply (step_accept _ _ _ _ _ ClientLocalAddr _ [] (Ok (V4 (mkIpv4 x0a x00 x00 x01), 22%Z)))|]. cbn.
    eapply rtc_l; [by apply (step_accept _ _ _ _ _ PeekClient _ [] Elapsed)|]. cbn.
    apply rtc_once, step_failed. by intros ? [=].
  - done.
  - intros s' Hs. inversion Hs.
Qed.
End calls.

(** ** Witnesses *)

Module SampleHttp.
#[export] Instance url_lib : UrlLib := {|
  Host_parse s :=
    match Ipv4Addr_from_str s with
    | Some v4 => Some (HostIpv4 v4)
    | None =>
        if contains_byte x3a s || bool_decide (is_Some (IpAddr_from_str (default s (strip_suffix (bs ".") s)))) then None
        else Some (HostDomain s)
    end
|}.
#[export] Instance url_laws : UrlLaws url_lib.
Proof. intros a. simpl. by rewrite ipv4_from_str_fmt. Qed.
#[export] Instance url_domains : UrlDomains url_lib.
Proof.
  intros s d. simpl. destruct (Ipv4Addr_from_str s); [done|]. destruct (_ || _) eqn:E; [done|]. intros [= <-].
  apply orb_false_iff in E as [E1 E2]. apply bool_decide_eq_false in E2. split.
  - intros Hin. apply contains_byte_spec in Hin. congruence.
  - destruct (IpAddr_from_str _); [|done]. destruct E2. eauto.
Qed.

Definition literal (host : str) : option IpAddr :=
  if contains_byte x3a host
  then rest ← strip_prefix (bs "[") host; text ← strip_suffix (bs "]") rest; V6 <$> Ipv6Addr_from_str text
  else IpAddr_from_str host.
#[export] Instance http_lib : HttpLib := {|
  authority_from_str s := Ok s;
  uri_from_parts scheme authority path :=
    Ok (mkUri (Some scheme) (Some authority) (fst <$> rsplit_once x3a authority) None (default (bs "/") path) path
          (scheme ++ bs "://" ++ authority ++ default [] path));
  connect_addresses u resolve :=
    match uri_authority u ≫= rsplit_once x3a with
    | Some (host, port) =>
        match parse_uint u16_max port, literal host with
        | Some port, Some ip => Ok [(ip, port)]
        | Some port, None => with_port port <$> resolve host
        | None, _ => Err (io_other (bs "invalid port"))
        end
    | None => Err (io_other (bs "no authority"))
    end;
|}.
Lemma split_port host port : is_u16 port →
  rsplit_once x3a (host ++ port_suffix port) = Some (host, show_uint port) ∧ parse_uint u16_max (show_uint port) = Some port.
Proof.
  intros Hp. split; [apply rsplit_once_Some; split; [done|]|].
  - apply show_uint_no; [destruct Hp; lia|done].
  - apply parse_show_uint; unfold is_u16, u16_max, u64_max in *; lia.
Qed.
Lemma ipv4_literal a : IpAddr_from_str (fmt_ipv4 a) = Some (V4 a).
Proof.
  unfold IpAddr_from_str, parse_with. pose proof (read_fmt_ipv4 a [] I) as H. rewrite app_nil_r in H. by rewrite H.
Qed.
Lemma v6_colon a : x3a ∈ fmt_ipv6 a.
Proof.
  unfold fmt_ipv6. destruct (to_ipv4_mapped a); [by left|].
  destruct (longest_zeros _ _ _ _) as [start len]. case_bool_decide.
  - apply elem_of_app. right. by left.
  - unfold fmt_subslice. cbn. apply elem_of_app. right. by left.
Qed.
#[export] Instance http_laws : HttpLaws http_lib.
Proof.
  split.
  - by intros s a [= ->].
  - by intros scheme authority path u [= <-].
  - intros u ip port resolve Hp Hu. cbn [connect_addresses http_lib]. rewrite Hu. cbn [mbind option_bind].
    destruct ip as [a|a].
    + destruct (split_port (fmt_ipv4 a) port Hp) as [E1 E2]. change (fmt_socket_addr (V4 a) port) with (fmt_ipv4 a ++ port_suffix port).
      rewrite E1, E2. unfold literal. rewrite (proj2 (contains_byte_false x3a (fmt_ipv4 a))).
      2:{ apply Forall_forall. intros b Hb. apply byte_is_false. intros ->. by apply elem_of_fmt_ipv4 in Hb as [?|?]. }
      by rewrite ipv4_literal.
    + destruct (split_port (bs "[" ++ fmt_ipv6 a ++ bs "]") port Hp) as [E1 E2].
      replace (fmt_socket_addr (V6 a) port) with ((bs "[" ++ fmt_ipv6 a ++ bs "]") ++ port_suffix port)
        by (unfold fmt_socket_addr, port_suffix; simpl; by rewrite <- app_assoc).
      rewrite E1, E2. unfold literal. rewrite (proj2 (contains_byte_spec x3a (bs "[" ++ fmt_ipv6 a ++ bs "]"))).
      2:{ apply elem_of_app. right. apply elem_of_app. left. apply v6_colon. }
      rewrite (proj2 (strip_prefix_Some (bs "[") _ (fmt_ipv6 a ++ bs "]")) eq_refl). cbn [mbind option_bind].
      rewrite (proj2 (strip_suffix_Some (bs "]") _ (fmt_ipv6 a)) eq_refl). cbn [mbind option_bind]. by rewrite ipv6_text_roundtrip.
  - intros u d port resolve Hp Hu Hc Hd. cbn [connect_addresses http_lib]. rewrite Hu. cbn [mbind option_bind].
    destruct (split_port d port Hp) as [-> ->]. unfold literal. destruct (contains_byte x3a d) eqn:E; [by apply contains_byte_spec in E|].
    by rewrite Hd.
Qed.
End SampleHttp.

Section witnesses.
#[local] Existing Instances SampleHttp.url_lib SampleHttp.url_laws SampleHttp.url_domains SampleHttp.http_lib SampleHttp.http_laws.
#[local] Existing Instances Sample.ipnet_lib Fields.header_lib Fields.header_laws counting sample_world crockford_ulid.

Definition sample_egress : EgressPolicy := mkPolicy ModeDeny [bs "example.com"] [].
Definition sample_gateway : TcpGateway := mkGateway Scripted.ctx CaptureHandler_new.
(** A client of port [port] that sends [first], admitted and served under [policy]. *)
Definition sample_client (policy : EgressPolicy) (port : Z) (first : str) (before : list (entry flow_answer)) (c : flow_call) : flow_answer c :=
  match c with
  | AcceptClient | ConnectUpstream _ _ | ServerConfig _ | UpstreamConfig | ServeConnection _ _ => Ok tt
  | ClientLocalAddr => Ok (V4 (mkIpv4 x0a x00 x00 x01), port)
  | PeekClient => InTime (Ok first)
  | PeekPreface _ => Ok first
  | DeadlinePassed | SendEvent _ => true
  | PollSleep => tt
  | Evidence => λ _ _, true
  | DecideTransport f => decide (TlsPolicyEngine_new policy CompatibilityRegistry_current) f
  | RecordFailure f failure => (record_handshake_failure (TlsPolicyEngine_new policy CompatibilityRegistry_current) f failure).2
  | Tick => mkHlc 0 0
  | MintId => event_id (Scripted.ev 1)
  | CopyBytes => [CopyRead ToUpstream (bs "ping"); CopyWrote ToUpstream 4; CopyEof ToUpstream; CopyShutdown ToUpstream; CopyEof ToClient; CopyShutdown ToClient]
  | AcceptTls => Ok None
  end.
Definition sample_get : str := bs "GET / HTTP/1.1" ++ [x0d; x0a] ++ bs "Host: api.example.com" ++ [x0d; x0a; x0d; x0a].
Definition sample_accept := exec (sample_client sample_egress 80 sample_get) [] (ingress_accept id 1 sample_egress).
Definition sample_admitted : AdmittedTcpFlow :=
  mkAdmitted (mkRoute (mkOriginalDestination (V4 (mkIpv4 x0a x00 x00 x01)) 80) (mkDestination (Domain (bs "api.example.com")) (Some 80%Z)) FromHttpHost)
    (CleartextHttp (mkHttpIdentity (Some (bs "api.example.com")))).
Definition sample_task := exec (sample_client sample_egress 80 sample_get) [] (handle_tcp_flow sample_gateway sample_admitted).

Lemma strict_records f failure :
  let e := TlsPolicyEngine_new sample_egress CompatibilityRegistry_current in
  (e, (record_handshake_failure e f failure).2) = record_handshake_failure e f failure.
Proof. by destruct f as [|route []]. Qed.
Lemma sample_reached : ∃ s, rtc (gateway_step id sample_gateway sample_egress 1) (gateway_start id sample_egress CompatibilityRegistry_current 1) s ∧
  mkTask sample_task.1 (Ret (Ok tt)) sample_admitted ∈ gs_tasks s.
Proof.
  eexists. split.
  - etrans.
    { apply (accept_exec id (sample_client sample_egress 80 sample_get) [] (ingress_accept id 1 sample_egress) sample_accept.1 (Ok sample_admitted)).
      - rewrite (surjective_pairing (exec _ _ _)). f_equal.
      - apply exec_entries. by intros before []. }
    eapply rtc_l; [apply step_admitted|].
    apply (task_exec id (sample_client sample_egress 80 sample_get) [] (handle_tcp_flow sample_gateway sample_admitted) sample_task.1 (Ok tt)) with
      (i := 0) (a := sample_admitted).
    + rewrite (surjective_pairing (exec _ _ _)). f_equal.
    + apply exec_entries. intros before []; try done. apply strict_records.
    + reflexivity.
  - apply list_elem_of_lookup. exists 0. reflexivity.
Qed.
Definition sample_forwarder : HttpForwarder :=
  mkForwarder false (ad_route sample_admitted) (with_connect_host CaptureHandler_new (Domain (bs "api.example.com"))).
Definition sample_exchange : exchange :=
  mkExchange 0 (mkReq (bs "GET") (mkUri None None None None (bs "/v1") (Some (bs "/v1")) (bs "/v1")) [(bs "host", bs "API.example.com:80")] [] true) Abandoned.

Lemma gateway_flows_confined_witness :
  ∃ m u h b, (run_exchange no_json no_find (worker_config None RedactionPolicy_enabled sample_egress AnomalyConfig_default) sample_forwarder sample_exchange).2.1
    = Forward m u h b ∧ connect_addresses u (resolver_call (fw_route sample_forwarder)) = Ok [(V4 (mkIpv4 x0a x00 x00 x01), 80%Z)].
Proof.
  destruct sample_reached as (s & Hr & Ht).
  pose proof (gateway_flows_confined id no_json no_find sample_egress CompatibilityRegistry_current sample_gateway 1 s _ Hr Ht) as (_ & _ & G).
  destruct ((run_exchange no_json no_find (worker_config None RedactionPolicy_enabled sample_egress AnomalyConfig_default) sample_forwarder sample_exchange).2.1)
    as [m u h b|status] eqn:E; [|vm_compute in E; discriminate].
  exists m, u, h, b. split; [reflexivity|].
  apply (G false sample_forwarder (Ok tt) None RedactionPolicy_enabled AnomalyConfig_default sample_exchange m u h b); [|exact E].
  apply list_elem_of_lookup. exists 3. vm_compute. reflexivity.
Defined.

Definition sample_opaque : AdmittedTcpFlow := mkAdmitted (mkRoute sample_dest (pinned sample_dest) FromOriginalDestination) OtherTcp.
Definition sample_spliced := exec (sample_client EgressPolicy_default 22 (bs "SSH-2.0")) [] (handle_tcp_flow sample_gateway sample_opaque).
Lemma uncaptured_flow_reported_witness :
  ∃ event queued, sent sample_spliced.1 = [(event, queued)] ∧ event_name event = name "net.passthrough".
Proof.
  destruct (uncaptured_flow_reported sample_gateway sample_opaque sample_spliced.1 (Ok tt)) as
    [(_ & _ & _ & Hc)|(_ & [(events & _ & _ & _ & (cc & _ & Hcc))|(failure & d & identity & id & ts & queued & Hc & _)])].
  - apply (exec_runs (sample_client EgressPolicy_default 22 (bs "SSH-2.0")) []). rewrite (surjective_pairing (exec _ _ _)). f_equal.
  - assert (length (connected sample_spliced.1) = 1) as Hl by reflexivity. by rewrite Hc in Hl.
  - assert ((λ x : Event * bool, event_name x.1) <$> sent sample_spliced.1 = [name "net.passthrough"]) as Hn by (vm_compute; reflexivity).
    destruct (ByteCounts_new _ _) as [counts|]; [|destruct Hcc as [_ []]; reflexivity].
    destruct Hcc as (d & event & queued & _ & _ & Hs & _). exists event, queued. split; [exact Hs|].
    rewrite Hs in Hn. by injection Hn.
  - assert (length (copied sample_spliced.1) = 1) as Hl by reflexivity. by rewrite Hc in Hl.
Defined.

Lemma classification_ends_witness :
  is_Some (exec (sample_client sample_egress 80 (bs "GET")) [] (classify_stream id 2)).2.
Proof. apply (classification_ends id _ 0 2); [reflexivity|lia]. Defined.

(** A CIDR grant admits a flow by its address under a name no rule lists, but
    the handler judges the name alone: none of the flow's requests is sent on. *)
Definition cidr_policy : EgressPolicy := mkPolicy ModeDeny [] [NetV4 (Sample.mkNet (mkIpv4 x0a x00 x00 x00) 8)].
Lemma cidr_grant_serves_nothing max redaction anomaly x m u h b :
  authorize_route cidr_policy NoDnsAnswerEvidence (original_destination (ad_route sample_admitted)) (ad_protocol sample_admitted)
    = Ok (ad_route sample_admitted) ∧
  (rq_method (ex_request x) ≠ CONNECT_METHOD →
   (run_exchange no_json no_find (worker_config max redaction cidr_policy anomaly) sample_forwarder x).2.1 ≠ Forward m u h b).
Proof.
  split; [vm_compute; reflexivity|]. intros Hm Hf. apply (run_exchange_forwards no_json no_find (HTL := SampleHttp.http_laws)) in Hf as (-> & _ & _ & Hp & _).
  destruct (Hp Hm _ eq_refl) as [Ha|Ha]; [discriminate Ha|].
  specialize (Ha (mkDestination (Domain (bs "api.example.com")) None) eq_refl). vm_compute in Ha. discriminate.
Qed.
End witnesses.
