(* ===== verification/GatewayConfig.v ===== *)
(** * The gateway's and the workload's configuration (crates/hiloop-interceptor/src/netns/gateway.rs, supervisor.rs)

    A transparent run's options cross to the gateway worker and to the
    supervisor inside the namespace as JSON in one environment variable each.
    Both ends are modelled: what is sent, and what the helper builds from it.
    serde_json is an interface ([ConfigJson]): what it reads back is what was
    written, except that it does not promise a float's last digit. *)
From Stdlib Require Import Strings.Byte.
From S2P Require Import Prelude Text Utf8 Net Identity Event Spool Seams Egress Substrate Redact Anomaly Pipeline Protocol NetCapture Relay ProxyMeta ProxyTee ProxyHandler.
From S2P Require Import Routing Programs Listener Classifier Route TlsPolicy Gateway.

Definition GATEWAY_WORKER_ROLE : str := bs "__hiloop-netns-gateway-worker".
Definition CAPTURED_WORKLOAD_ROLE : str := bs "__hiloop-netns-captured-workload".
Definition GATEWAY_CONFIG_ENV : str := bs "HILOOP_NETNS_GATEWAY_CONFIG".
Definition WORKLOAD_CONFIG_ENV : str := bs "HILOOP_NETNS_WORKLOAD_CONFIG".
Definition PROXY_VARIABLES : list str :=
  words ["HTTP_PROXY"; "HTTPS_PROXY"; "ALL_PROXY"; "NO_PROXY"; "http_proxy"; "https_proxy"; "all_proxy"; "no_proxy"].

Section config.
Context {L : UrlLib} {N : IpNetLib} {U : UlidLib}.

(** ** Options (supervisor.rs)

    The options that cross; a duration is its nanoseconds. *)
Record Options := mkOptions {
  op_context : RunContext; op_execution_id : option str; op_command : list str; op_otlp : bool; op_max_capture_bytes : option Z;
  op_export_batch_size : nat; op_export_flush_interval : option Z; op_attributes : Attributes; op_redaction : RedactionPolicy;
  op_egress : EgressPolicy; op_anomaly : AnomalyConfig; op_env_allowlist : list str; op_ca_bundle : option str }.

(** [invocation] is the identifier [RunOptions::new] mints. *)
Definition Options_new (context : RunContext) (command : list str) (otlp : bool) (max_capture_bytes : option Z) (invocation : str) : Options :=
  mkOptions context None command otlp max_capture_bytes DEFAULT_EXPORT_BATCH_SIZE (Some DEFAULT_EXPORT_FLUSH_INTERVAL)
    {[ key WRAPPER_INVOCATION_ID := AString invocation ]} RedactionPolicy_default EgressPolicy_default AnomalyConfig_default [] None.
Definition with_attributes (o : Options) (attributes : Attributes) : Options :=
  mkOptions (op_context o) (op_execution_id o) (op_command o) (op_otlp o) (op_max_capture_bytes o) (op_export_batch_size o)
    (op_export_flush_interval o) attributes (op_redaction o) (op_egress o) (op_anomaly o) (op_env_allowlist o) (op_ca_bundle o).
Definition with_redaction (o : Options) (redaction : RedactionPolicy) : Options :=
  mkOptions (op_context o) (op_execution_id o) (op_command o) (op_otlp o) (op_max_capture_bytes o) (op_export_batch_size o)
    (op_export_flush_interval o) (op_attributes o) redaction (op_egress o) (op_anomaly o) (op_env_allowlist o) (op_ca_bundle o).
Definition with_egress (o : Options) (egress : EgressPolicy) : Options :=
  mkOptions (op_context o) (op_execution_id o) (op_command o) (op_otlp o) (op_max_capture_bytes o) (op_export_batch_size o)
    (op_export_flush_interval o) (op_attributes o) (op_redaction o) egress (op_anomaly o) (op_env_allowlist o) (op_ca_bundle o).
Definition with_anomaly_detection (o : Options) (anomaly : AnomalyConfig) : Options :=
  mkOptions (op_context o) (op_execution_id o) (op_command o) (op_otlp o) (op_max_capture_bytes o) (op_export_batch_size o)
    (op_export_flush_interval o) (op_attributes o) (op_redaction o) (op_egress o) anomaly (op_env_allowlist o) (op_ca_bundle o).
Definition with_export_batch_size (o : Options) (size : nat) : Options :=
  mkOptions (op_context o) (op_execution_id o) (op_command o) (op_otlp o) (op_max_capture_bytes o) (Nat.max size 1)
    (op_export_flush_interval o) (op_attributes o) (op_redaction o) (op_egress o) (op_anomaly o) (op_env_allowlist o) (op_ca_bundle o).
Definition with_export_flush_interval (o : Options) (interval : option Z) : Options :=
  mkOptions (op_context o) (op_execution_id o) (op_command o) (op_otlp o) (op_max_capture_bytes o) (op_export_batch_size o)
    (d ← interval; if (d =? 0)%Z then None else Some d) (op_attributes o) (op_redaction o) (op_egress o) (op_anomaly o) (op_env_allowlist o)
    (op_ca_bundle o).
Definition with_execution_id (o : Options) (execution_id : str) : Options :=
  if is_blank execution_id then o
  else mkOptions (op_context o) (Some execution_id) (op_command o) (op_otlp o) (op_max_capture_bytes o) (op_export_batch_size o)
         (op_export_flush_interval o) (<[ key EXECUTION_ID := AString execution_id ]> (op_attributes o)) (op_redaction o) (op_egress o)
         (op_anomaly o) (op_env_allowlist o) (op_ca_bundle o).
Definition with_env_allowlist (o : Options) (env_allowlist : list str) : Options :=
  mkOptions (op_context o) (op_execution_id o) (op_command o) (op_otlp o) (op_max_capture_bytes o) (op_export_batch_size o)
    (op_export_flush_interval o) (op_attributes o) (op_redaction o) (op_egress o) (op_anomaly o) env_allowlist (op_ca_bundle o).
Definition with_ca_bundle (o : Options) (ca_bundle : str) : Options :=
  mkOptions (op_context o) (op_execution_id o) (op_command o) (op_otlp o) (op_max_capture_bytes o) (op_export_batch_size o)
    (op_export_flush_interval o) (op_attributes o) (op_redaction o) (op_egress o) (op_anomaly o) (op_env_allowlist o) (Some ca_bundle).

(** ** Wire configuration *)

Record EgressConfig := mkEgressConfig { ec_deny_by_default : bool; ec_domains : list str; ec_cidrs : list str }.
Definition EgressConfig_from (policy : EgressPolicy) : EgressConfig :=
  mkEgressConfig (bool_decide (policy_mode policy = ModeDeny)) (domains policy) (cidr_rules policy).
Definition EgressConfig_build (c : EgressConfig) : result IoError EgressPolicy :=
  map_err (λ e, io_other (EgressPolicyError_fmt e))
    (EgressPolicy_new (if ec_deny_by_default c then ModeDeny else ModeAllow) (ec_domains c) (ec_cidrs c)).

Record AnomalyConfigWire := mkAnomalyWire {
  aw_enabled : bool; aw_block_on_match : bool; aw_min_base64_bytes : Z; aw_base64_ratio : f64; aw_max_upload_bytes : Z;
  aw_suspicious_content_types : list str }.
Definition AnomalyConfigWire_from (c : AnomalyConfig) : AnomalyConfigWire :=
  mkAnomalyWire (anomaly_enabled c) (blocks_on_match c) (min_base64_bytes c) (base64_ratio c) (max_upload_bytes c) (suspicious_content_types c).
Definition AnomalyConfigWire_build (w : AnomalyConfigWire) : AnomalyConfig :=
  if negb (aw_enabled w) then AnomalyConfig_default
  else
    with_suspicious_content_types
      (with_max_upload_bytes
        (with_base64_ratio
          (with_min_base64_bytes (with_block_on_match AnomalyConfig_enabled (aw_block_on_match w)) (aw_min_base64_bytes w))
          (aw_base64_ratio w))
        (aw_max_upload_bytes w))
      (aw_suspicious_content_types w).

Record GatewayConfig := mkGatewayConfig {
  gc_context : RunContext; gc_attributes : Attributes; gc_event_socket : str; gc_event_token : str; gc_ca_bundle : str; gc_blob_dir : str;
  gc_max_capture_bytes : option Z; gc_redaction_enabled : bool; gc_egress : EgressConfig; gc_anomaly : AnomalyConfigWire }.
Definition GatewayConfig_from_options (o : Options) (event_socket ca_bundle blob_dir event_token : str) : GatewayConfig :=
  mkGatewayConfig (op_context o) (op_attributes o) event_socket event_token ca_bundle blob_dir (op_max_capture_bytes o)
    (policy_enabled (op_redaction o)) (EgressConfig_from (op_egress o)) (AnomalyConfigWire_from (op_anomaly o)).

Record WorkloadConfig := mkWorkloadConfig {
  wc_context : RunContext; wc_attributes : Attributes; wc_event_socket : str; wc_event_token : str; wc_ca_bundle : str;
  wc_execution_id : option str; wc_otlp : bool; wc_redaction_enabled : bool; wc_export_batch_size : nat;
  wc_export_flush_interval_ms : option Z; wc_env_allowlist : list str }.
(** [u64::try_from(duration.as_millis()).ok()] *)
Definition wire_millis (interval : option Z) : option Z :=
  d ← interval; let ms := (d / 1000000)%Z in if (ms <=? u64_max)%Z then Some ms else None.
Definition WorkloadConfig_from_options (o : Options) (event_socket ca_bundle event_token : str) : WorkloadConfig :=
  mkWorkloadConfig (op_context o) (op_attributes o) event_socket event_token ca_bundle (op_execution_id o) (op_otlp o)
    (policy_enabled (op_redaction o)) (op_export_batch_size o) (wire_millis (op_export_flush_interval o)) (op_env_allowlist o).

(** ** Crossing *)

Definition gateway_alike (c c' : GatewayConfig) : Prop :=
  ∃ attributes ratio, attributes_alike (gc_attributes c) attributes ∧
    c' = mkGatewayConfig (gc_context c) attributes (gc_event_socket c) (gc_event_token c) (gc_ca_bundle c) (gc_blob_dir c) (gc_max_capture_bytes c)
           (gc_redaction_enabled c) (gc_egress c)
           (mkAnomalyWire (aw_enabled (gc_anomaly c)) (aw_block_on_match (gc_anomaly c)) (aw_min_base64_bytes (gc_anomaly c)) ratio
              (aw_max_upload_bytes (gc_anomaly c)) (aw_suspicious_content_types (gc_anomaly c))).
Definition workload_alike (c c' : WorkloadConfig) : Prop :=
  ∃ attributes, attributes_alike (wc_attributes c) attributes ∧
    c' = mkWorkloadConfig (wc_context c) attributes (wc_event_socket c) (wc_event_token c) (wc_ca_bundle c) (wc_execution_id c) (wc_otlp c)
           (wc_redaction_enabled c) (wc_export_batch_size c) (wc_export_flush_interval_ms c) (wc_env_allowlist c).
Class ConfigJson := { gateway_json :: SerdeJson GatewayConfig; workload_json :: SerdeJson WorkloadConfig }.
Class ConfigJsonLaws (J : ConfigJson) : Prop := {
  gateway_read : ∀ (c c' : GatewayConfig) payload, to_vec c = Ok payload → from_slice payload = Ok c' → gateway_alike c c';
  gateway_text : ∀ (c : GatewayConfig) payload, to_vec c = Ok payload → utf8_valid payload = true;
  workload_text : ∀ (c : WorkloadConfig) payload, to_vec c = Ok payload → utf8_valid payload = true;
  workload_read : ∀ (c c' : WorkloadConfig) payload, to_vec c = Ok payload → from_slice payload = Ok c' → workload_alike c c';
}.

Section commands.
Context {J : ConfigJson}.

Definition encode {T} `{SerdeJson T} (value : T) : result IoError str := map_err (io_error InvalidData) (to_vec value).
Definition worker_command (c : GatewayConfig) (helper : str) : result IoError NamespaceCommand :=
  config ← encode c;
  Ok (env (arg (NamespaceCommand_new helper) GATEWAY_WORKER_ROLE) GATEWAY_CONFIG_ENV config).
Definition workload_command (c : WorkloadConfig) (helper : str) (command : list str) : result IoError NamespaceCommand :=
  config ← encode c;
  Ok (foldl env_remove (env (args (arg (NamespaceCommand_new helper) CAPTURED_WORKLOAD_ROLE) command) WORKLOAD_CONFIG_ENV config) PROXY_VARIABLES).

(** The environment the helper starts with: the command's entries over the
    inherited ones. *)
Definition started_with (c : NamespaceCommand) (inherited : gmap str str) (name : str) : option str :=
  match nc_environment c !! name with Some value => value | None => inherited !! name end.
(** [take_bootstrap_config]: the value, and the environment without it;
    [std::env::var] gives only Unicode. *)
Definition take_bootstrap_config {T} `{SerdeJson T} (environment : str → option str) (name : str) : result IoError (T * (str → option str)) :=
  value ← ok_or (v ← environment name; if utf8_valid v then Some v else None) (io_error NotFound (name ++ bs " is not set"));
  config ← map_err (io_error InvalidData) (from_slice value);
  Ok (config, λ n, if bool_decide (n = name) then None else environment n).

(** [run_gateway]: what the worker's handler enforces and captures with. *)
Definition gateway_handler_config (c : GatewayConfig) : result IoError HandlerConfig :=
  egress ← EgressConfig_build (gc_egress c);
  Ok (worker_config (gc_max_capture_bytes c) (if gc_redaction_enabled c then RedactionPolicy_enabled else RedactionPolicy_disabled) egress
        (AnomalyConfigWire_build (gc_anomaly c))).
(** [captured_workload_entrypoint]: the options of the supervisor inside. *)
Definition workload_options (c : WorkloadConfig) (command : list str) (invocation : str) : Options :=
  let options := Options_new (wc_context c) command (wc_otlp c) None invocation in
  let options := with_attributes options (wc_attributes c) in
  let options := with_redaction options (if wc_redaction_enabled c then RedactionPolicy_enabled else RedactionPolicy_disabled) in
  let options := with_export_batch_size options (wc_export_batch_size c) in
  let options := with_export_flush_interval options ((λ ms, (ms * 1000000)%Z) <$> wc_export_flush_interval_ms c) in
  let options := with_env_allowlist options (wc_env_allowlist c) in
  let options := with_ca_bundle options (wc_ca_bundle c) in
  match wc_execution_id c with Some id => with_execution_id options id | None => options end.
End commands.
End config.

(** ** Rules that survive printing

    A domain of the url crate is canonical: parsing it again gives itself, and
    it has no upper case, no control, white space or percent character, no colon,
    no at sign and no bracket (the one that loses its last dot too, unless it
    ends in another).  A network the ipnet crate made is read back from
    its text. *)
Definition canonical_domain {L : UrlLib} (d : str) : Prop :=
  Host_parse d = Some (HostDomain d) ∧ to_ascii_lowercase d = d ∧ any_illegal d = false ∧ x40 ∉ d ∧ x3a ∉ d ∧ x5b ∉ d.
Class UrlCanonical (L : UrlLib) : Prop :=
  url_canonical : ∀ s d, Host_parse s = Some (HostDomain d) →
    let d' := default d (strip_suffix (bs ".") d) in d' ≠ [] → ends_with (bs ".") d' = false → canonical_domain d'.
Class IpNetText (N : IpNetLib) : Prop := {
  text_parsed : ∀ s n, ipnet_from_str s = Some n → ipnet_from_str (ipnet_to_string n) = Some n;
  text_new : ∀ a p n, Ipv4Net_new a p = Some n → ipnet_from_str (ipnet_to_string (inl n)) = Some (inl n);
  text_host_v4 : ∀ a, ipnet_from_str (ipnet_to_string (inl (v4net_host a))) = Some (inl (v4net_host a));
  text_host_v6 : ∀ a, ipnet_from_str (ipnet_to_string (inr (v6net_host a))) = Some (inr (v6net_host a));
}.

Section crossing.
Context {L : UrlLib} {N : IpNetLib} {U : UlidLib}.

Lemma canonical_rule d : canonical_domain d → d ≠ [] → ends_with (bs ".") d = false → domain_rule d = Ok d.
Proof.
  intros (Hp & Hl & Hi & Ha & Hc & Hb) Hne Hdot. unfold domain_rule, canonicalize_host. rewrite bool_decide_false by done.
  rewrite Hi. destruct (contains_byte x40 d) eqn:E; [by apply contains_byte_spec in E|]. rewrite Hl. unfold split_host_port.
  destruct (strip_prefix (bs "[") d) as [rest|] eqn:Es; [apply strip_prefix_Some in Es as ->; destruct Hb; left|].
  rewrite (proj2 (rsplit_once_None x3a d) Hc). cbn [mbind result_bind]. rewrite bool_decide_false by done. rewrite Hp. cbn.
  assert (strip_suffix (bs ".") d = None) as ->.
  { unfold strip_suffix. by rewrite Hdot. }
  simpl. by rewrite bool_decide_false.
Qed.

(** What a policy's rules are. *)
Lemma rule_canonical {UC : UrlCanonical L} rule d : domain_rule rule = Ok d → ends_with (bs ".") d = false → canonical_domain d ∧ d ≠ [].
Proof.
  unfold domain_rule. destruct (canonicalize_host rule) as [[host port]|] eqn:E; [|done]. destruct host as [domain|]; [|done]. intros [= ->] Hdot.
  assert (d ≠ []) as Hne.
  { intros ->. unfold canonicalize_host in E. destruct (bool_decide (rule = [])), (any_illegal rule), (contains_byte x40 rule); try done.
    apply bind_Ok in E as ([[hp p] br] & _ & E). destruct (bool_decide (hp = [])); [done|]. destruct br; inv_ok.
    revert select (match _ with HostDomain _ => _ | _ => _ end = Ok _). repeat case_match; intros; simplify_eq; by case_bool_decide. }
  split; [|done]. destruct (canonicalize_domain _ _ _ E eq_refl) as (s & parsed & Hp & ->). by apply (url_canonical s).
Qed.

Lemma normalize_net_idemp n : normalize_net (normalize_net n) = normalize_net n.
Proof.
  destruct n as [n|n]; [done|]. unfold normalize_net at 2 3. destruct (to_ipv4_mapped (v6net_addr n)) as [v4|] eqn:E.
  - destruct (96 <=? v6net_prefix_len n)%Z eqn:Ep.
    + destruct (Ipv4Net_new v4 (v6net_prefix_len n - 96)) eqn:E1; [done|]. destruct (Ipv4Net_new v4 32) eqn:E2; [done|].
      unfold normalize_net. by rewrite E, Ep, E1, E2.
    + unfold normalize_net. by rewrite E, Ep.
  - unfold normalize_net. by rewrite E.
Qed.
Lemma of_to_sum n : of_sum (to_sum n) = n.
Proof. by destruct n. Qed.
Lemma cidr_text {NT : IpNetText N} {NL : IpNetLaws N} rule n : parse_cidr_rule rule = Some n →
  parse_cidr_rule (ipnet_to_string (to_sum n)) = Some n.
Proof.
  unfold parse_cidr_rule at 1. destruct (ipnet_from_str rule) as [x|] eqn:Ex.
  - intros [= <-]. assert (ipnet_from_str (ipnet_to_string (to_sum (normalize_net (of_sum x)))) = Some (to_sum (normalize_net (of_sum x)))) as Ht.
    { destruct x as [x|x]; simpl; [by eapply text_parsed|].
      pose proof (text_parsed _ _ Ex) as Hx. destruct (to_ipv4_mapped (v6net_addr x)); [|done]. destruct (96 <=? _)%Z; [|done].
      destruct (Ipv4Net_new i (v6net_prefix_len x - 96)) eqn:E1; [by eapply text_new|]. destruct (Ipv4Net_new i 32) eqn:E2; [by eapply text_new|done]. }
    unfold parse_cidr_rule. by rewrite Ht, of_to_sum, normalize_net_idemp.
  - destruct (IpAddr_from_str rule) as [ip|]; [|done]. cbn [mbind option_bind]. intros [= <-]. unfold parse_cidr_rule.
    destruct (normalize_ip ip) as [a|a] eqn:En; simpl.
    + by rewrite text_host_v4.
    + rewrite text_host_v6. simpl. destruct (v6net_host_spec a) as [-> _]. by rewrite (normalize_ip_unmapped _ _ En).
Qed.

(** The policy that is sent is the policy that is built. *)
Lemma egress_config_roundtrip {UC : UrlCanonical L} {NT : IpNetText N} {NL : IpNetLaws N} mode ds cs p :
  EgressPolicy_new mode ds cs = Ok p → Forall (λ d, ends_with (bs ".") d = false) (domains p) → EgressConfig_build (EgressConfig_from p) = Ok p.
Proof.
  unfold EgressPolicy_new. intros (ds' & Hds & (cs' & Hcs & [= <-])%bind_Ok)%bind_Ok Hdots. simpl in Hdots.
  unfold EgressConfig_build, EgressConfig_from, EgressPolicy_new, cidr_rules. cbn [ec_deny_by_default ec_domains ec_cidrs policy_mode domains cidrs].
  apply mapM_Ok in Hds, Hcs.
  assert (mapM domain_rule ds' = Ok ds') as ->.
  { clear Hcs. induction Hds as [|rule d ds ds' Hd _ IH]; [done|]. apply Forall_cons in Hdots as [Hdot Hdots].
    destruct (rule_canonical _ _ Hd Hdot) as [Hc Hne]. cbn [mapM]. rewrite canonical_rule by done. cbn [mbind result_bind]. by rewrite IH. }
  cbn [mbind result_bind].
  assert (mapM cidr_rule ((λ n, ipnet_to_string (to_sum n)) <$> cs') = Ok cs') as ->.
  { clear Hds Hdots. induction Hcs as [|rule n cs cs' Hn _ IH]; [done|]. rewrite fmap_cons. cbn [mapM].
    unfold cidr_rule in *. apply ok_or_Ok in Hn. rewrite (cidr_text _ _ Hn). cbn [ok_or mbind result_bind]. by rewrite IH. }
  cbn [mbind result_bind map_err]. by destruct mode.
Qed.
End crossing.

(** ** Properties *)

Lemma removed_variables names c name :
  nc_environment (foldl env_remove c names) !! name = if base.decide (name ∈ names) then Some None else nc_environment c !! name.
Proof.
  revert c. induction names as [|n names IH]; intros c; [by rewrite decide_False by apply not_elem_of_nil|]. cbn [foldl]. rewrite IH.
  destruct (base.decide (name ∈ names)) as [Hin|Hin]; [by rewrite decide_True by by right|]. simpl.
  destruct (base.decide (name = n)) as [->|Hne]; [by rewrite lookup_insert_eq, decide_True by by left|].
  rewrite lookup_insert_ne by done. rewrite decide_False; [done|]. by rewrite elem_of_cons; intros [?|?].
Qed.
Lemma foldl_env_remove_args names c : nc_args (foldl env_remove c names) = nc_args c ∧ nc_program (foldl env_remove c names) = nc_program c.
Proof. revert c. induction names as [|n names IH]; intros c; [done|]. cbn [foldl]. destruct (IH (env_remove c n)) as [-> ->]. done. Qed.

Lemma config_variable_kept : WORKLOAD_CONFIG_ENV ∉ PROXY_VARIABLES.
Proof. vm_compute. intros H. repeat (apply elem_of_cons in H as [H|H]; [discriminate|]). by apply elem_of_nil in H. Qed.
Lemma Ok_inj {E A} (a b : A) : @Ok E A a = Ok b → a = b.
Proof. by intros [=]. Qed.

Section properties.
Context {L : UrlLib} {N : IpNetLib} {U : UlidLib} {J : ConfigJson} {JL : ConfigJsonLaws J}.

Lemma take_encoded {T} {S : SerdeJson T} (v : T) payload environment name config environment' :
  to_vec v = Ok payload → environment name = Some payload → utf8_valid payload = true →
  take_bootstrap_config environment name = Ok (config, environment') →
  from_slice payload = Ok config ∧ ∀ n, environment' n = if bool_decide (n = name) then None else environment n.
Proof.
  unfold take_bootstrap_config. intros _ -> Hu. cbn [mbind option_bind]. rewrite Hu. cbn [ok_or mbind result_bind].
  destruct (from_slice payload) as [c|e]; [|done]. cbn. by intros [= -> <-].
Qed.

(** C28: the gateway enforces the run's own policies.  For a policy made from
    rules none of which is stored with a dot at its end (see
    [dotted_rule_changes] for the others): whatever environment the worker
    inherits, if it can read its configuration, the handler it serves requests
    with has exactly the run's egress policy, redaction switch and capture
    limit, and the run's anomaly rules but for the ratio, whose text serde_json
    reads approximately (none when they are off); the identity and tokens are
    the run's, the attributes are but for their floats, and the configuration is
    gone from its environment. *)
Theorem gateway_config_crosses {UC : UrlCanonical L} {NT : IpNetText N} {NL : IpNetLaws N} (mode : EgressMode) (ds cs : list str) (o : Options)
    (event_socket ca_bundle blob_dir event_token helper : str) (inherited : gmap str str) (cmd : NamespaceCommand)
    (c : GatewayConfig) (environment : str → option str) :
  EgressPolicy_new mode ds cs = Ok (op_egress o) → Forall (λ d, ends_with (bs ".") d = false) (domains (op_egress o)) →
  worker_command (GatewayConfig_from_options o event_socket ca_bundle blob_dir event_token) helper = Ok cmd →
  take_bootstrap_config (started_with cmd inherited) GATEWAY_CONFIG_ENV = Ok (c, environment) →
  (nc_program cmd = helper ∧ nc_args cmd = [GATEWAY_WORKER_ROLE] ∧ environment GATEWAY_CONFIG_ENV = None) ∧
  (gc_context c = op_context o ∧ attributes_alike (op_attributes o) (gc_attributes c) ∧ gc_event_socket c = event_socket ∧
   gc_event_token c = event_token ∧ gc_ca_bundle c = ca_bundle ∧ gc_blob_dir c = blob_dir) ∧
  ∃ h, gateway_handler_config c = Ok h ∧ hc_egress h = op_egress o ∧ hc_redaction h = op_redaction o ∧
    hc_max_capture_bytes h = op_max_capture_bytes o ∧ hc_relay h = None ∧
    (if anomaly_enabled (op_anomaly o)
     then ∃ ratio, hc_anomaly h = mkAnomaly true (block_on_match (op_anomaly o)) (min_base64_bytes (op_anomaly o)) (f64_clamp ratio f64_zero f64_one)
            (max_upload_bytes (op_anomaly o)) (to_ascii_lowercase <$> suspicious_content_types (op_anomaly o))
     else anomaly_enabled (hc_anomaly h) = false).
Proof.
  intros Hp Hdots. unfold worker_command, encode. set (c0 := GatewayConfig_from_options _ _ _ _ _).
  intros (payload & Hv & [= <-])%bind_Ok Ht. apply map_err_Ok in Hv.
  apply (take_encoded c0 payload) in Ht as [Hread Henv]; [|done| |by eapply gateway_text].
  2:{ unfold started_with. simpl. by rewrite lookup_insert_eq. }
  destruct (gateway_read _ _ _ Hv Hread) as (attributes & ratio & Hattr & ->). split_and!; try done.
  unfold gateway_handler_config. cbn [gc_egress]. change (gc_egress c0) with (EgressConfig_from (op_egress o)).
  rewrite (egress_config_roundtrip _ _ _ _ Hp Hdots). cbn [mbind result_bind]. eexists. split; [done|].
  cbn [hc_egress hc_redaction hc_max_capture_bytes hc_relay hc_anomaly worker_config]. split_and!; try done.
  { unfold c0. cbn. by destruct (op_redaction o) as [[]]. }
  unfold c0, AnomalyConfigWire_build. cbn. unfold blocks_on_match. destruct (anomaly_enabled (op_anomaly o)); [by eexists|done].
Qed.

(** The supervisor inside runs the run's command as configured.  It is
    the helper in its workload role with the run's command; no proxy variable of
    the supervisor's own environment reaches it, nor the configuration once
    read.  Its options are the run's: identity, execution id, telemetry,
    redaction, batch size (at least 1), allowlist and attributes, and the flush
    interval in whole milliseconds, so that one below a millisecond is none. *)
Theorem workload_config_crosses (o : Options) (event_socket ca_bundle event_token helper invocation : str) (command : list str)
    (inherited : gmap str str) (cmd : NamespaceCommand) (c : WorkloadConfig) (environment : str → option str) :
  workload_command (WorkloadConfig_from_options o event_socket ca_bundle event_token) helper command = Ok cmd →
  take_bootstrap_config (started_with cmd inherited) WORKLOAD_CONFIG_ENV = Ok (c, environment) →
  (nc_program cmd = helper ∧ nc_args cmd = CAPTURED_WORKLOAD_ROLE :: command ∧
   ∀ name, environment name = if base.decide (name = WORKLOAD_CONFIG_ENV ∨ name ∈ PROXY_VARIABLES) then None else inherited !! name) ∧
  let o' := workload_options c command invocation in
  op_context o' = op_context o ∧ op_command o' = command ∧ op_otlp o' = op_otlp o ∧ op_redaction o' = op_redaction o ∧
  op_export_batch_size o' = Nat.max (op_export_batch_size o) 1 ∧ op_env_allowlist o' = op_env_allowlist o ∧ op_ca_bundle o' = Some ca_bundle ∧
  op_execution_id o' = (id ← op_execution_id o; if is_blank id then None else Some id) ∧
  (∀ k, k ≠ key EXECUTION_ID ∨ op_execution_id o' = None →
     option_relation value_alike (λ _, False) (λ _, False) (op_attributes o !! k) (op_attributes o' !! k)) ∧
  (∀ id, op_execution_id o' = Some id → op_attributes o' !! key EXECUTION_ID = Some (AString id)) ∧
  op_export_flush_interval o' =
    (d ← op_export_flush_interval o;
     if bool_decide (d / 1000000 = 0)%Z || bool_decide (u64_max < d / 1000000)%Z then None else Some (d / 1000000 * 1000000)%Z).
Proof.
  unfold workload_command, encode. set (c0 := WorkloadConfig_from_options _ _ _ _).
  intros (payload & Hv & Hcmd)%bind_Ok Ht. apply map_err_Ok in Hv. apply Ok_inj in Hcmd as <-.
  destruct (foldl_env_remove_args PROXY_VARIABLES
    (env (args (arg (NamespaceCommand_new helper) CAPTURED_WORKLOAD_ROLE) command) WORKLOAD_CONFIG_ENV payload)) as [Hargs Hprog].
  apply (take_encoded c0 payload) in Ht as [Hread Henv]; [|done| |by eapply workload_text].
  2:{ unfold started_with. rewrite removed_variables, decide_False by apply config_variable_kept.
      simpl. by rewrite lookup_insert_eq. }
  destruct (workload_read _ _ _ Hv Hread) as (attributes & Hattr & ->). split; [split_and!; [done|done|]|].
  { intros name. rewrite Henv. case_bool_decide as Hn; [by rewrite decide_True by by left|]. unfold started_with. rewrite removed_variables.
    destruct (base.decide (name ∈ PROXY_VARIABLES)) as [Hin|Hin]; [by rewrite decide_True by by right|]. rewrite decide_False by naive_solver.
    simpl. by rewrite lookup_insert_ne by done. }
  assert (∀ i : option Z, (d ← ((λ ms, (ms * 1000000)%Z) <$> wire_millis i); if (d =? 0)%Z then None else Some d)
    = (d ← i; if bool_decide (d / 1000000 = 0)%Z || bool_decide (u64_max < d / 1000000)%Z then None else Some (d / 1000000 * 1000000)%Z)) as Hint.
  { intros [d|]; [|done]. unfold wire_millis. cbn [mbind option_bind]. cbv zeta. destruct (Z.leb_spec (d / 1000000) u64_max) as [Hle|Hle]; simpl.
    - rewrite (bool_decide_false (u64_max < d / 1000000)%Z) by lia. rewrite orb_false_r.
      case_bool_decide as H0; [by rewrite H0|]. rewrite (proj2 (Z.eqb_neq _ _)) by lia. done.
    - rewrite (bool_decide_true (u64_max < d / 1000000)%Z) by lia. by rewrite orb_true_r. }
  unfold workload_options, c0. cbn [wc_execution_id WorkloadConfig_from_options wc_context wc_otlp wc_attributes wc_redaction_enabled
    wc_export_batch_size wc_export_flush_interval_ms wc_env_allowlist wc_ca_bundle].
  unfold with_execution_id. destruct (op_execution_id o) as [id|]; [destruct (is_blank id) eqn:Eb|]; cbn; rewrite ?Eb; split_and!; try done;
    try (by destruct (op_redaction o) as [[]]); try (intros ? [=]); try apply Hint; try (intros k _; apply Hattr).
  - intros k [Hk|[=]]. rewrite lookup_insert_ne by done. apply Hattr.
  - simplify_eq. by rewrite lookup_insert_eq.
Qed.
End properties.

#[local] Instance EgressConfig_eq_dec : EqDecision EgressConfig.
Proof. solve_decision. Defined.
#[local] Instance wire_eq_dec : EqDecision AnomalyConfigWire.
Proof. solve_decision. Defined.
#[local] Instance GatewayConfig_eq_dec {U : UlidLib} : EqDecision GatewayConfig.
Proof. solve_decision. Defined.
#[local] Instance WorkloadConfig_eq_dec {U : UlidLib} : EqDecision WorkloadConfig.
Proof. solve_decision. Defined.

(** ** Witnesses *)

Module SampleConfig.
Definition config_json {U : UlidLib} (g : GatewayConfig) (w : WorkloadConfig) : ConfigJson := {|
  gateway_json := Single.codec (bs "{gateway}") g; workload_json := Single.codec (bs "{workload}") w |}.
Lemma config_json_laws {U : UlidLib} (g : GatewayConfig) (w : WorkloadConfig) : ConfigJsonLaws (config_json g w).
Proof.
  split; cbn [gateway_json workload_json config_json].
  - intros c c' payload Ht Hf. destruct (Single.single_written _ _ _ _ Ht) as [-> ->]. rewrite Single.single_reads in Hf. injection Hf as <-. exists (gc_attributes g), (aw_base64_ratio (gc_anomaly g)).
    split; [apply attributes_alike_refl|]. by destruct g as [?????????[]].
  - by intros c payload [-> ->]%Single.single_written.
  - by intros c payload [-> ->]%Single.single_written.
  - intros c c' payload Ht Hf. destruct (Single.single_written _ _ _ _ Ht) as [-> ->]. rewrite Single.single_reads in Hf. injection Hf as <-. exists (wc_attributes w).
    split; [apply attributes_alike_refl|]. by destruct w.
Qed.

Lemma only_sends {U : UlidLib} (g : GatewayConfig) (w : WorkloadConfig) (helper : str) (command : list str) (inherited : gmap str str) :
  let J := config_json g w in
  (∃ cmd environment, worker_command g helper = Ok cmd ∧ take_bootstrap_config (started_with cmd inherited) GATEWAY_CONFIG_ENV = Ok (g, environment)) ∧
  (∃ cmd environment, workload_command w helper command = Ok cmd ∧ take_bootstrap_config (started_with cmd inherited) WORKLOAD_CONFIG_ENV = Ok (w, environment)).
Proof.
  intros J. split.
  - unfold worker_command, encode. assert (to_vec g = Ok (bs "{gateway}")) as -> by apply Single.single_writes. eexists _, _. split; [done|]. unfold take_bootstrap_config, started_with. simpl.
    rewrite lookup_insert_eq. cbn [mbind option_bind]. change (utf8_valid (bs "{gateway}")) with true. cbn [ok_or mbind result_bind].
    by rewrite decide_True by done.
  - unfold workload_command, encode. assert (to_vec w = Ok (bs "{workload}")) as -> by apply Single.single_writes. eexists _, _. split; [done|]. unfold take_bootstrap_config, started_with.
    rewrite removed_variables, decide_False by apply config_variable_kept. simpl.
    rewrite lookup_insert_eq. cbn [mbind option_bind]. change (utf8_valid (bs "{workload}")) with true. cbn [ok_or mbind result_bind].
    by rewrite decide_True by done.
Qed.

(** Domains of lower-case letters, digits, hyphens and dots that are not addresses. *)
Definition host_char (b : byte) : bool :=
  is_ascii_digit b || ((97 <=? bz b)%Z && (bz b <=? 122)%Z) || byte_is x2d b || byte_is x2e b.
Definition url_lib : UrlLib := {|
  Host_parse s :=
    match Ipv4Addr_from_str s with
    | Some v4 => Some (HostIpv4 v4)
    | None =>
        if forallb host_char s && bool_decide (Ipv4Addr_from_str (default s (strip_suffix (bs ".") s)) = None)
        then Some (HostDomain s) else None
    end
|}.
Lemma host_chars s : Forall (λ b, host_char b = true) s →
  to_ascii_lowercase s = s ∧ any_illegal s = false ∧ x40 ∉ s ∧ x3a ∉ s ∧ x5b ∉ s.
Proof.
  assert (∀ c s, host_char c = false → Forall (λ b, host_char b = true) s → c ∉ s) as Hn.
  { intros c s' Hc Hs Hin. rewrite Forall_forall in Hs. rewrite (Hs _ Hin) in Hc. done. }
  intros Hs. split_and!; try (by apply Hn).
  - induction Hs as [|b s Hb _ IH]; [done|]. cbn [to_ascii_lowercase fmap list_fmap]. f_equal; [|done].
    revert Hb. by destruct b.
  - induction Hs as [|b s Hb _ IH]; [done|]. cbn [any_illegal]. rewrite IH, orb_false_r. clear -Hb. destruct b; try discriminate; destruct s as [|? [|? ?]]; reflexivity.
Qed.
Lemma url_canonical_domains : UrlCanonical url_lib.
Proof.
  intros s d. cbn [Host_parse url_lib]. destruct (Ipv4Addr_from_str s) eqn:E; [done|].
  destruct (forallb host_char s && _) eqn:Ec; [|done]. intros [= <-]. cbv zeta.
  set (d' := default s (strip_suffix (bs ".") s)). intros Hne Hdot.
  apply andb_true_iff in Ec as [Hc H4]. apply bool_decide_eq_true in H4. fold d' in H4.
  assert (Forall (λ b, host_char b = true) d') as Hd.
  { assert (Forall (λ b, host_char b = true) s) as Hs.
    { eapply Forall_impl; [apply forallb_True, Is_true_true, Hc|]. intros b. apply Is_true_true. }
    unfold d'. destruct (strip_suffix (bs ".") s) as [r|] eqn:Er; [|done]. apply strip_suffix_Some in Er as ->. by apply Forall_app in Hs as [? _]. }
  assert (Forall (λ b, Is_true (host_char b)) d') as Hdb by (eapply Forall_impl; [exact Hd|]; intros b; apply Is_true_true).
  destruct (host_chars _ Hd) as (Hl & Hi & H40 & H3a & H5b). unfold canonical_domain. split_and!; try done.
  cbn [Host_parse url_lib]. rewrite H4. rewrite (proj1 (Is_true_true _) (proj2 (forallb_True _ _) Hdb)).
  assert (strip_suffix (bs ".") d' = None) as -> by (unfold strip_suffix; by rewrite Hdot). cbn [default].
  by rewrite bool_decide_true.
Qed.

(** The printed addresses are read back. *)
Lemma split_slash ip p : split_once x2f (fmt_ip ip ++ bs "/" ++ show_uint p) = Some (fmt_ip ip, show_uint p).
Proof.
  apply split_once_Some. split; [done|]. intros Hin. pose proof (fmt_ip_chars ip) as Hc. rewrite Forall_forall in Hc. by apply Hc in Hin.
Qed.
Lemma groups_text segs tail : tail = [] ∨ (∃ r, tail = x3a :: r) →
  ∃ xs rest, fmt_subslice segs ++ tail = xs ++ rest ∧ Forall (λ b, is_Some (digit_in_radix 16 b)) xs ∧ (rest = [] ∨ ∃ r, rest = x3a :: r).
Proof.
  intros Ht. destruct segs as [|s segs]; [by exists [], tail|]. exists (fmt_hex s). unfold fmt_subslice. rewrite fmap_cons.
  destruct (fmt_hex <$> segs) as [|h hs]; [exists tail; split_and!; [done|apply fmt_hex_digits|done]|].
  rewrite join_cons by done. exists (x3a :: join [x3a] (h :: hs) ++ tail).
  split_and!; [by rewrite <- !app_assoc|apply fmt_hex_digits|right; by eexists].
Qed.
Lemma ipv6_not_v4 a : read_ipv4_addr (fmt_ipv6 a) = None.
Proof.
  assert (∃ xs rest, fmt_ipv6 a = xs ++ rest ∧ Forall (λ b, is_Some (digit_in_radix 16 b)) xs ∧ (rest = [] ∨ ∃ r, rest = x3a :: r)) as (xs & rest & -> & Hx & Hr).
  2:{ by apply read_ipv4_hex. }
  unfold fmt_ipv6. destruct (to_ipv4_mapped a); [by exists [], (bs "::ffff:" ++ fmt_ipv4 i); split_and!; [|constructor|right; eexists]|].
  destruct (longest_zeros _ _ _ _) as [start len]. case_bool_decide.
  - apply groups_text. right. by eexists.
  - destruct (groups_text (v6_segments a) []) as (xs & rest & He & ?); [by left|]. rewrite app_nil_r in He. by exists xs, rest.
Qed.
Lemma ip_text a : IpAddr_from_str (fmt_ip a) = Some a.
Proof.
  destruct a as [a|a]; cbn [fmt_ip]; [apply SampleHttp.ipv4_literal|]. unfold IpAddr_from_str, parse_with. rewrite ipv6_not_v4.
  pose proof (ipv6_text_roundtrip a) as H. unfold Ipv6Addr_from_str, parse_with in H. destruct (read_ipv6_addr (fmt_ipv6 a)) as [[b rest]|]; [|done].
  cbn [mbind option_bind]. destruct rest; [|done]. congruence.
Qed.
Lemma net_text a p : (0 ≤ p ≤ match a with V4 _ => 32 | V6 _ => 128 end)%Z →
  @ipnet_from_str Sample.ipnet_lib (fmt_ip a ++ bs "/" ++ show_uint p) =
    Some (match a with V4 a => inl (Sample.mkNet a p) | V6 a => inr (Sample.mkNet a p) end).
Proof.
  intros Hp. cbn [ipnet_from_str Sample.ipnet_lib]. rewrite split_slash, ip_text. cbn [mbind option_bind].
  rewrite parse_show_uint by (unfold u8_max, u64_max; destruct a; lia). cbn [mbind option_bind]. destruct a; by rewrite (proj2 (Z.leb_le _ _)) by lia.
Qed.
Lemma parse_digits_nonneg max s acc q : (0 ≤ acc)%Z → parse_digits max acc s = Some q → (0 ≤ q)%Z.
Proof.
  revert acc. induction s as [|b s IH]; intros acc Ha; cbn [parse_digits]; [by intros [= <-]|].
  intros (d & Hd & H)%bind_Some. cbv zeta in H. destruct (_ <=? _)%Z; [|done]. apply IH in H; [done|].
  unfold digit_val, is_ascii_digit in Hd. case_match; [|done]. simplify_eq. breflect. lia.
Qed.
Lemma parse_uint_nonneg max s q : parse_uint max s = Some q → (0 ≤ q)%Z.
Proof.
  destruct s as [|b rest]; [done|]. cbn [parse_uint]. destruct (byte_is x2b b); [destruct rest; [done|]|]; by apply parse_digits_nonneg.
Qed.
Lemma ipnet_text : IpNetText Sample.ipnet_lib.
Proof.
  split.
  - intros s n. cbn [ipnet_from_str Sample.ipnet_lib]. destruct (split_once x2f s) as [[a p]|]; [|done].
    intros (ip & _ & (q & Hq & H)%bind_Some)%bind_Some. apply parse_uint_nonneg in Hq.
    destruct ip as [ip|ip]; destruct (q <=? _)%Z eqn:E; simplify_eq; apply Z.leb_le in E.
    + apply (net_text (V4 ip) q). lia.
    + apply (net_text (V6 ip) q). lia.
  - intros a p n. cbn. destruct (_ && _) eqn:E; [|done]. apply andb_true_iff in E as [E1%Z.leb_le E2%Z.leb_le]. intros [= <-].
    apply (net_text (V4 a) p). lia.
  - intros a. apply (net_text (V4 a) 32). lia.
  - intros a. apply (net_text (V6 a) 128). lia.
Qed.
End SampleConfig.

Ltac vm_refl := match goal with |- ?a = ?b => exact (eq_refl b <: a = b) end.
Section witnesses.
#[local] Existing Instances SampleConfig.url_lib Sample.ipnet_lib crockford_ulid.

Definition sample_rules : EgressPolicy := default EgressPolicy_default (match EgressPolicy_new ModeDeny [bs "Example.com:443"] [bs "10.0.0.0/8"] with Ok p => Some p | Err _ => None end).
Definition sample_options : Options :=
  with_export_flush_interval
    (with_execution_id (with_anomaly_detection (with_egress (Options_new Scripted.ctx [bs "agent"] true (Some 65536%Z) (bs "inv")) sample_rules)
       (with_block_on_match AnomalyConfig_enabled true)) (bs "exec-1")) (Some 250000000%Z).
Definition sample_gateway_config : GatewayConfig :=
  GatewayConfig_from_options sample_options (bs "/run/e.sock") (bs "/run/ca.pem") (bs "/run/blobs") (bs "token").
Definition sample_workload_config : WorkloadConfig :=
  WorkloadConfig_from_options sample_options (bs "/run/e.sock") (bs "/run/ca.pem") (bs "token").

Lemma sample_rules_dotless : Forall (λ d, ends_with (bs ".") d = false) (domains (op_egress sample_options)).
Proof. replace (domains (op_egress sample_options)) with [bs "example.com"] by vm_refl. repeat constructor. Qed.

(** A rule that is stored with a dot at its end, as one written with two, does
    not cross as itself: the worker reads its text again and strips another. *)
Lemma dotted_rule_changes :
  let dotted (d : str) : EgressPolicy := mkPolicy ModeDeny [d] [] in
  EgressPolicy_new ModeDeny [bs "example.com.."] [] = Ok (dotted (bs "example.com.")) ∧
  EgressConfig_build (EgressConfig_from (dotted (bs "example.com."))) = Ok (dotted (bs "example.com")) ∧
  EgressPolicy_new ModeDeny [bs "1.2.3.4.."] [] = Ok (dotted (bs "1.2.3.4.")) ∧
  is_ok (EgressConfig_build (EgressConfig_from (dotted (bs "1.2.3.4.")))) = false.
Proof. cbv zeta. split_and!; vm_refl. Qed.

Lemma gateway_config_crosses_witness :
  let J := SampleConfig.config_json sample_gateway_config sample_workload_config in
  ∃ cmd c environment h,
    worker_command sample_gateway_config (bs "/usr/bin/hiloop") = Ok cmd ∧
    take_bootstrap_config (started_with cmd ∅) GATEWAY_CONFIG_ENV = Ok (c, environment) ∧
    gateway_handler_config c = Ok h ∧ hc_egress h = sample_rules ∧ cidr_rules sample_rules = [bs "10.0.0.0/8"] ∧ anomaly_enabled (hc_anomaly h) = true.
Proof.
  intros J.
  destruct (proj1 (SampleConfig.only_sends sample_gateway_config sample_workload_config (bs "/usr/bin/hiloop") [] ∅)) as (cmd & environment & Hcmd & Ht).
  destruct (gateway_config_crosses (JL := SampleConfig.config_json_laws sample_gateway_config sample_workload_config)
    (UC := SampleConfig.url_canonical_domains) (NT := SampleConfig.ipnet_text) (NL := Sample.ipnet_laws)
    ModeDeny [bs "Example.com:443"] [bs "10.0.0.0/8"] sample_options (bs "/run/e.sock") (bs "/run/ca.pem") (bs "/run/blobs") (bs "token")
    (bs "/usr/bin/hiloop") ∅ cmd sample_gateway_config environment)
    as (_ & _ & h & Hh & He & _ & _ & _ & Ha); [vm_refl|exact sample_rules_dotless|exact Hcmd|exact Ht|].
  exists cmd, sample_gateway_config, environment, h. split_and!; [exact Hcmd|exact Ht|exact Hh|exact He|vm_refl|].
  destruct Ha as [ratio ->]. reflexivity.
Defined.

Lemma workload_config_crosses_witness :
  let J := SampleConfig.config_json sample_gateway_config sample_workload_config in
  let inherited : gmap str str := {[ bs "https_proxy" := bs "http://x"; bs "LANG" := bs "C" ]} in
  ∃ cmd c environment,
    workload_command sample_workload_config (bs "/usr/bin/hiloop") [bs "agent"] = Ok cmd ∧
    take_bootstrap_config (started_with cmd inherited) WORKLOAD_CONFIG_ENV = Ok (c, environment) ∧
    environment (bs "https_proxy") = None ∧ environment (bs "LANG") = Some (bs "C") ∧
    op_export_flush_interval (workload_options c [bs "agent"] (bs "inv2")) = Some 250000000%Z ∧
    op_execution_id (workload_options c [bs "agent"] (bs "inv2")) = Some (bs "exec-1").
Proof.
  intros J inherited.
  destruct (proj2 (SampleConfig.only_sends sample_gateway_config sample_workload_config (bs "/usr/bin/hiloop") [bs "agent"] inherited))
    as (cmd & environment & Hcmd & Ht).
  destruct (workload_config_crosses (JL := SampleConfig.config_json_laws sample_gateway_config sample_workload_config) sample_options
    (bs "/run/e.sock") (bs "/run/ca.pem") (bs "token") (bs "/usr/bin/hiloop") (bs "inv2") [bs "agent"] inherited cmd sample_workload_config environment Hcmd Ht)
    as ((_ & _ & Henv) & _ & _ & _ & _ & _ & _ & _ & Hid & _ & _ & Hint).
  exists cmd, sample_workload_config, environment. split_and!; [exact Hcmd|exact Ht|by rewrite Henv|by rewrite Henv|by rewrite Hint|by rewrite Hid].
Defined.
End witnesses.
