(* ===== verification/BoundConnect.v ===== *)
(** * The bound CONNECT transport (crates/hiloop-interceptor/src/bound_connect.rs)

    The proxy answers a CONNECT to a destination of the proof-bound relay
    itself: it terminates the client's TLS, sends each request through the
    proxy's handler to the relay, gives the upload and the response header a
    deadline, and supervises the response's body while the upload goes on.
    The tunnel is a program over calls (see Programs); the wait for the
    response is a function of the timed events it meets; the supervised body is
    a step relation between the supervisor's task, its one-frame channel, the
    client that reads it and the upload's state. *)
From Stdlib Require Import Strings.Byte.
From S2P Require Import Prelude Text Net Identity Event Spool Seams Pipeline Blob Egress NetCapture Redact Anomaly Relay.
From S2P Require Import ProxyMeta ProxyTee ProxyHandler Programs Gateway.

(** Nanoseconds. *)
Definition TLS_CLIENT_HELLO_TIMEOUT : Z := 3000000000.
Definition RELAY_REQUEST_BODY_IDLE_TIMEOUT : Z := 5000000000.
Definition RELAY_RESPONSE_HEADER_TIMEOUT : Z := 5000000000.
Definition RELAY_BODY_PROGRESS_CHUNK_BYTES : nat := 16 * 1024.

(** ** The tunnel *)

Inductive tunnel_call :=
| AwaitUpgrade
| ReadClientHello
| GenServerConfig (authority : str)
| FinishHandshake
| ServeTunnel (authority : str).
(** The first three are under [TLS_CLIENT_HELLO_TIMEOUT]; [ReadClientHello]
    answers the server name the client sent, [ServeTunnel] how the connection
    that serves requests for the authority ended. *)
Definition tunnel_answer (c : tunnel_call) : Type :=
  match c with
  | AwaitUpgrade | FinishHandshake => timed (result str unit)
  | ReadClientHello => timed (result str (option str))
  | GenServerConfig _ => unit
  | ServeTunnel _ => result str unit
  end.
Definition in_time {A} (t : timed (result str A)) : result unit A :=
  match t with InTime (Ok a) => Ok a | _ => Err tt end.
Definition tunnel_io {A} (c : tunnel_call) (f : tunnel_answer c → result unit A) : prog tunnel_answer (result unit A) :=
  r ⟵ perform c; Ret (f r).

Definition tunnel_serve {L : UrlLib} (authority : str) : prog tunnel_answer (result unit unit) :=
  _ ⇠ tunnel_io AwaitUpgrade in_time;
  name ⇠ tunnel_io ReadClientHello in_time;
  connect ⇠ Ret (map_err (λ _, tt) (canonicalize_host authority));
  sni ⇠ Ret (name ← ok_or name tt; map_err (λ _, tt) (canonicalize_host name));
  if negb (bool_decide (dest_host connect = dest_host sni)) then Ret (Err tt)
  else
    _ ⟵ perform (GenServerConfig authority);
    _ ⇠ tunnel_io FinishHandshake in_time;
    tunnel_io (ServeTunnel authority) (map_err (λ _, tt)).

(** ** A request of the tunnel *)

Section requests.
Context {L : UrlLib} {N : IpNetLib} {HT : HttpLib} (parse_json : str → option Value) (find : ScanMode → str → list Match).
Context {H : Type} {HL : HeaderLib H} {W : Type} {HW : HandlerWorld W}.

(** An HTTP/1 request in origin form gets the tunnel's authority; one in
    absolute form and an HTTP/2 request keep theirs. *)
Definition bound_target (http1 : bool) (authority : str) (r : Request (H := H)) : option Request :=
  if http1 then
    match uri_scheme (rq_uri r), uri_authority (rq_uri r) with
    | None, None =>
        if starts_with (bs "/") (uri_path (rq_uri r)) then
          match uri_from_parts (bs "https") authority (uri_path_and_query (rq_uri r)) with
          | Ok uri => Some (mkReq (rq_method r) uri (rq_headers r) (rq_body r) (rq_end_stream r))
          | Err _ => None
          end
        else None
    | Some _, Some _ => Some r
    | _, _ => None
    end
  else Some r.

(** [forward_bound_request], with what becomes of a forwarded request. *)
Definition forward_bound_request (c : HandlerConfig) (http1 : bool) (authority : str) (r : Request) (f : finale) :
    M (W := W) (@Outcome H * option (@TeeState H)) :=
  match bound_target http1 authority r with
  | None => conclude c (forbidden (H := H)) f ≫= λ tee, mret (forbidden, tee)
  | Some r => http_exchange parse_json find c r f
  end.
End requests.

(** ** The wait for the response *)

Section wait.
Context {A : Type}.

Inductive wait_event := BodyProgress | BodyComplete | BodyDropped | UpstreamDone (answer : A).
(** The loop of [forward_bound_request]: [uploading] until the request body is
    complete or dropped; [events] with the times at which the task meets them.
    The answer, and when the wait ended. *)
Fixpoint await_upstream (deadline : Z) (uploading : bool) (events : list (Z * wait_event)) : option A * Z :=
  match events with
  | [] => (None, deadline)
  | (t, e) :: events =>
      if (deadline <? t)%Z then (None, deadline)
      else
        match e with
        | UpstreamDone a => (Some a, t)
        | BodyProgress =>
            await_upstream (if uploading then t + RELAY_REQUEST_BODY_IDLE_TIMEOUT else deadline)%Z uploading events
        | BodyComplete | BodyDropped =>
            await_upstream (if uploading then t + RELAY_RESPONSE_HEADER_TIMEOUT else deadline)%Z false events
        end
  end.
Definition await_response (start : Z) (events : list (Z * wait_event)) : option A * Z :=
  await_upstream (start + RELAY_REQUEST_BODY_IDLE_TIMEOUT)%Z true events.
End wait.
Arguments wait_event A : clear implicits.

(** What the wait means for the exchange. *)
Definition bound_finale {H} (outcome : option (result (bool * str) (Response (H := H)))) : finale :=
  match outcome with
  | Some (Ok response) => Answered response
  | Some (Err (is_connect, message)) => UpstreamFailed is_connect message
  | None => UpstreamFailed false (bs "relay request timed out")
  end.

(** ** The request body *)

Section upload.
Context {H : Type}.
Abbreviation item := (result str (@body_frame H)).

Fixpoint data_chunks (fuel : nat) (data : str) : list item :=
  match fuel, data with
  | S fuel, _ :: _ => Ok (Data (take RELAY_BODY_PROGRESS_CHUNK_BYTES data)) :: data_chunks fuel (drop RELAY_BODY_PROGRESS_CHUNK_BYTES data)
  | _, _ => []
  end.
(** The pump of [request_body_with_progress]: what it puts into its channel. *)
Fixpoint pump_items (body : list item) : list item :=
  match body with
  | [] => []
  | Ok (Data []) :: body => Ok (Data []) :: pump_items body
  | Ok (Data data) :: body => data_chunks (length data) data ++ pump_items body
  | Ok (Trailers t) :: _ => [Ok (Trailers t)]
  | Err e :: _ => [Err e]
  end.
(** What the upstream reads of the body before its end: all of it, or, if the
    pump was aborted, the items that had passed. *)
Definition upstream_body (body : list item) (aborted : option nat) : list item :=
  match aborted with None => pump_items body | Some passed => take passed (pump_items body) end.

(** What taking an item, or the end, from the channel tells the waiting task. *)
Definition body_sign (i : option item) : option (wait_event unit) :=
  match i with
  | Some (Ok (Data [])) => None
  | Some (Ok (Data _)) => Some BodyProgress
  | Some (Ok (Trailers _)) | Some (Err _) | None => Some BodyComplete
  end.

Definition item_bytes (i : item) : str := match i with Ok (Data d) => d | _ => [] end.
(** A body up to its trailers or its failure. *)
Fixpoint body_end (body : list item) : list item :=
  match body with
  | [] => []
  | Ok (Data d) :: body => Ok (Data d) :: body_end body
  | i :: _ => [i]
  end.
End upload.

(** ** The supervised response body *)

Section response.
Context {H : Type}.
Abbreviation item := (result str (@body_frame H)).

(** The upload's state as the supervisor sees it: [Dropped] when the request
    body was dropped before its end. *)
Inductive upload_state := Uploading | UploadComplete | UploadDropped.
(** The supervisor's task: in its loop, with a frame it could not send yet;
    sending that frame once the upload is complete; forwarding to the end, with
    the frame it is sending; sending an error, the last thing it does; or over. *)
Inductive supervisor :=
| Watching (pending : option item)
| Flushing (pending : item)
| Draining (hand : option item)
| Closing (error : str)
| Finished.
(** The client: at the top of its loop, about to look at the timeout flag;
    having found neither the flag set nor a change of it, about to poll the
    channel; after its last frame; or gone. *)
Inductive client := Reading | Polling | SawEnd | SawTimeout | Gone.
Record supervised := mkSup {
  sv_rest : list item; sv_task : supervisor; sv_queue : list item; sv_timeout : bool; sv_abort : bool;
  sv_upload : upload_state; sv_out : list item; sv_client : client }.

Inductive supervise_step : supervised → supervised → Prop :=
(* the upload *)
| upload_done rest k q t a out c :
    supervise_step (mkSup rest k q t a Uploading out c) (mkSup rest k q t a UploadComplete out c)
| upload_dropped rest k q t a out c :
    supervise_step (mkSup rest k q t a Uploading out c) (mkSup rest k q t a UploadDropped out c)
(* the supervisor's loop *)
| watch_complete rest p q t a out c :
    supervise_step (mkSup rest (Watching p) q t a UploadComplete out c) (mkSup rest (match p with Some i => Flushing i | None => Draining None end) q t a UploadComplete out c)
| watch_closed rest p q t a u out :
    u ≠ UploadComplete →
    supervise_step (mkSup rest (Watching p) q t a u out Gone) (mkSup rest Finished q t true u out Gone)
| watch_dropped rest p q t a out c :
    c ≠ Gone →
    supervise_step (mkSup rest (Watching p) q t a UploadDropped out c) (mkSup rest (Draining None) q t true UploadDropped out c)
| watch_send rest i t a out c :
    c ≠ Gone →
    supervise_step (mkSup rest (Watching (Some i)) [] t a Uploading out c) (mkSup rest (Watching None) [i] t a Uploading out c)
| watch_read rest f q t a out c :
    c ≠ Gone →
    supervise_step (mkSup (Ok f :: rest) (Watching None) q t a Uploading out c)
      (mkSup rest (Watching (Some (Ok f))) q t a Uploading out c)
| watch_failed rest e q t a out c :
    c ≠ Gone →
    supervise_step (mkSup (Err e :: rest) (Watching None) q t a Uploading out c) (mkSup rest (Closing e) q t true Uploading out c)
| watch_end q t a out c :
    c ≠ Gone →
    supervise_step (mkSup [] (Watching None) q t a Uploading out c) (mkSup [] Finished q t true Uploading out c)
| watch_deadline rest p q t a out c :
    c ≠ Gone →
    supervise_step (mkSup rest (Watching p) q t a Uploading out c) (mkSup rest Finished q true true Uploading out c)
(* forwarding to the end *)
| flush_send rest i t a u out c :
    supervise_step (mkSup rest (Flushing i) [] t a u out c) (mkSup rest (Draining None) [i] t a u out c)
| flush_closed rest i q t a u out :
    supervise_step (mkSup rest (Flushing i) q t a u out Gone) (mkSup rest Finished q t a u out Gone)
| drain_send rest i t a u out c :
    supervise_step (mkSup rest (Draining (Some i)) [] t a u out c) (mkSup rest (Draining None) [i] t a u out c)
| drain_read rest i q t a u out c :
    supervise_step (mkSup (i :: rest) (Draining None) q t a u out c) (mkSup rest (Draining (Some i)) q t a u out c)
| drain_end q t a u out c :
    supervise_step (mkSup [] (Draining None) q t a u out c) (mkSup [] Finished q t a u out c)
| drain_closed rest h q t a u out :
    supervise_step (mkSup rest (Draining h) q t a u out Gone) (mkSup rest Finished q t true u out Gone)
| close_send rest e t a u out c :
    supervise_step (mkSup rest (Closing e) [] t a u out c) (mkSup rest Finished [Err e] t a u out c)
| close_closed rest e q t a u out :
    supervise_step (mkSup rest (Closing e) q t a u out Gone) (mkSup rest Finished q t a u out Gone)
(* the client's body *)
| client_timeout rest k q a u out :
    supervise_step (mkSup rest k q true a u out Reading) (mkSup rest k q true a u out SawTimeout)
| client_looks rest k q a u out :
    supervise_step (mkSup rest k q false a u out Reading) (mkSup rest k q false a u out Polling)
| client_next rest k i q t a u out :
    supervise_step (mkSup rest k (i :: q) t a u out Polling) (mkSup rest k q t a u (out ++ [i]) Reading)
| client_end rest t a u out :
    supervise_step (mkSup rest Finished [] t a u out Polling) (mkSup rest Finished [] t a u out SawEnd)
| client_waits rest k t a u out :
    k ≠ Finished →
    supervise_step (mkSup rest k [] t a u out Polling) (mkSup rest k [] t a u out Reading)
| client_gone rest k q t a u out :
    supervise_step (mkSup rest k q t a u out Reading) (mkSup rest k q t a u out Gone).

Definition supervise_start (upstream : list item) : supervised := mkSup upstream (Watching None) [] false false Uploading [] Reading.
End response.

(** ** Specification *)

Section wait_spec.
Context {A : Type}.
Definition unanswered (e : Z * wait_event A) : Prop := match e.2 with UpstreamDone _ => False | _ => True end.
(** The times at which the upload showed a sign of life, up to its end. *)
Fixpoint upload_signs (events : list (Z * wait_event A)) : list Z :=
  match events with
  | [] => []
  | (t, BodyProgress) :: events => t :: upload_signs events
  | (_, UpstreamDone _) :: events => upload_signs events
  | (t, _) :: _ => [t]
  end.
Definition last_sign (start : Z) (events : list (Z * wait_event A)) : Z := default start (last (upload_signs events)).
End wait_spec.

Section response_spec.
Context {H : Type}.
Abbreviation item := (result str (@body_frame H)).
(** What the supervisor has read and not yet put into its channel. *)
Definition held (k : supervisor (H := H)) : list item :=
  match k with
  | Watching p | Draining p => option_list p
  | Flushing i => [i]
  | Closing e => [Err e]
  | Finished => []
  end.
Definition failed (l : list item) : Prop := ∃ e, last l = Some (Err e).
(** What is left of the response: all of it, or, once the upload was dropped,
    all but one item. *)
Definition kept_of (upstream : list item) (s : supervised (H := H)) (kept : list item) : Prop :=
  kept = upstream ∨
  sv_upload s = UploadDropped ∧ (∀ p, sv_task s ≠ Watching p) ∧ ∃ l i l', upstream = l ++ [i] ++ l' ∧ kept = l ++ l'.
(** What was read and kept is, in order, what the client has, the channel, and
    what is held; the task is over when it read all of the body or an error, on
    a timeout, or after the client went. *)
Definition in_order (upstream : list item) (s : supervised) : Prop :=
  ∃ kept rest, kept_of upstream s kept ∧ kept = sv_out s ++ sv_queue s ++ held (sv_task s) ++ rest ∧
    match sv_task s with
    | Finished => rest = [] ∨ sv_timeout s = true ∨ sv_client s = Gone ∨ failed (sv_out s ++ sv_queue s)
    | _ => rest = sv_rest s
    end.
Definition supervised_inv (upstream : list item) (s : supervised) : Prop :=
  length (sv_queue s) ≤ 1 ∧ (sv_timeout s = true → sv_abort s = true ∧ sv_task s = Finished) ∧
  (sv_client s = SawTimeout → sv_timeout s = true) ∧
  (sv_client s = SawEnd → sv_task s = Finished ∧ sv_queue s = []) ∧ in_order upstream s.
End response_spec.

(** ** Lemmas *)

Section wait_lemmas.
Context {A : Type}.

Lemma await_complete (deadline : Z) (events : list (Z * wait_event A)) :
  let '(o, t) := await_upstream deadline false events in
  ∃ met later, events = met ++ later ∧ Forall unanswered met ∧
    match o with
    | Some a => (∃ rest, later = (t, UpstreamDone a) :: rest) ∧ (t ≤ deadline)%Z
    | None => t = deadline ∧ match later with [] => True | (u, _) :: _ => (t < u)%Z end
    end.
Proof.
  induction events as [|[u e] events IH]; cbn [await_upstream]; [by exists [], []|].
  destruct (Z.ltb_spec deadline u); [by exists [], ((u, e) :: events)|].
  destruct e; [..|exists [], ((u, UpstreamDone answer) :: events); split_and!; [done..|by eexists|done]].
  all: destruct (await_upstream deadline false events) as [o t]; destruct IH as (met & later & -> & Hm & Ho).
  all: eexists (_ :: met), later; split_and!; [done|by constructor|exact Ho].
Qed.
Lemma await_spec (since : Z) (events : list (Z * wait_event A)) :
  let '(o, t) := await_upstream (since + RELAY_REQUEST_BODY_IDLE_TIMEOUT) true events in
  ∃ met later, events = met ++ later ∧ Forall unanswered met ∧
    match o with
    | Some a => (∃ rest, later = (t, UpstreamDone a) :: rest) ∧ (t ≤ last_sign since met + RELAY_REQUEST_BODY_IDLE_TIMEOUT)%Z
    | None => t = (last_sign since met + RELAY_REQUEST_BODY_IDLE_TIMEOUT)%Z ∧ match later with [] => True | (u, _) :: _ => (t < u)%Z end
    end.
Proof.
  revert since. induction events as [|[u e] events IH]; intros since; cbn [await_upstream]; [by exists [], []|].
  destruct (Z.ltb_spec (since + RELAY_REQUEST_BODY_IDLE_TIMEOUT) u); [by exists [], ((u, e) :: events)|].
  assert (∀ l, default since (last (u :: l)) = default u (last l)) as Hl.
  { intros [|x l]; [done|]. change (last (u :: x :: l)) with (last (x :: l)). destruct (last (x :: l)) eqn:E; [done|by apply last_None in E]. }
  assert (∀ a, let '(o, t) := await_upstream (u + RELAY_RESPONSE_HEADER_TIMEOUT) false events in
    a = BodyComplete ∨ a = BodyDropped →
    ∃ met later, (u, a) :: events = met ++ later ∧ Forall unanswered met ∧
    match o with
    | Some b => (∃ rest, later = (t, UpstreamDone b) :: rest) ∧ (t ≤ last_sign since met + RELAY_REQUEST_BODY_IDLE_TIMEOUT)%Z
    | None => t = (last_sign since met + RELAY_REQUEST_BODY_IDLE_TIMEOUT)%Z ∧ match later with [] => True | (u, _) :: _ => (t < u)%Z end
    end) as Hc.
  { intros a. pose proof (await_complete (u + RELAY_RESPONSE_HEADER_TIMEOUT) events) as Hd.
    destruct (await_upstream _ false events) as [o t]. destruct Hd as (met & later & -> & Hm & Ho). intros Ha.
    exists ((u, a) :: met), later. split_and!; [done|constructor; [by destruct Ha as [-> | ->]|done]|].
    assert (last_sign since ((u, a) :: met) = u) as -> by by destruct Ha as [-> | ->]. exact Ho. }
  destruct e.
  - specialize (IH u). destruct (await_upstream _ true events) as [o t]. destruct IH as (met & later & -> & Hm & Ho).
    exists ((u, BodyProgress) :: met), later. split_and!; [done|by constructor|].
    assert (last_sign since ((u, BodyProgress) :: met) = last_sign u met) as -> by (unfold last_sign; cbn [upload_signs]; apply Hl). exact Ho.
  - specialize (Hc BodyComplete). destruct (await_upstream _ false events) as [o t]. auto.
  - specialize (Hc BodyDropped). destruct (await_upstream _ false events) as [o t]. auto.
  - exists [], ((u, UpstreamDone answer) :: events). split_and!; [done..|by eexists|done].
Qed.
End wait_lemmas.

Section upload_lemmas.
Context {H : Type}.
Abbreviation item := (result str (@body_frame H)).

Lemma chunk_pos : 0 < RELAY_BODY_PROGRESS_CHUNK_BYTES.
Proof. unfold RELAY_BODY_PROGRESS_CHUNK_BYTES. apply Nat.mul_pos_pos; apply Nat.ltb_lt; reflexivity. Qed.
#[local] Opaque RELAY_BODY_PROGRESS_CHUNK_BYTES.

Definition chunk (i : item) : Prop :=
  ∃ d, i = Ok (Data d) ∧ d ≠ [] ∧ length d ≤ RELAY_BODY_PROGRESS_CHUNK_BYTES.
Lemma data_chunks_spec fuel data : length data ≤ fuel →
  concat (item_bytes <$> data_chunks (H := H) fuel data) = data ∧ Forall chunk (data_chunks fuel data).
Proof.
  pose proof chunk_pos. revert data. induction fuel as [|fuel IH]; intros data Hf; [by destruct data; [|simpl in Hf; lia]|].
  destruct data as [|b data]; [done|]. cbn [data_chunks fmap list_fmap concat]. set (d := b :: data) in *.
  assert (length (drop RELAY_BODY_PROGRESS_CHUNK_BYTES d) ≤ fuel) as Hd by (rewrite length_drop; unfold d in *; simpl in *; lia).
  destruct (IH _ Hd) as [-> Hc]. split; [apply take_drop|]. constructor; [|done]. eexists. split; [done|]. split.
  - unfold d. intros E. apply (f_equal length) in E. rewrite length_take in E. simpl in E. lia.
  - rewrite length_take. lia.
Qed.
Lemma pump_items_spec (body : list item) :
  concat (item_bytes <$> pump_items body) = concat (item_bytes <$> body_end body) ∧
  Forall (λ i, chunk i ∨ i ∈ body_end body ∧ item_bytes i = []) (pump_items body).
Proof.
  induction body as [|i body [IHb IHc]]; [done|].
  assert (∀ j, Forall (λ i, chunk i ∨ i ∈ j :: body_end body ∧ item_bytes i = []) (pump_items body)) as Hw.
  { intros j. eapply Forall_impl; [exact IHc|]. intros k [?|[? ?]]; [by left|]. right. split; [by right|done]. }
  destruct i as [[[|b d]|t]|e]; cbn [pump_items body_end fmap list_fmap concat].
  - split; [done|]. constructor; [right; split; [by left|done]|apply Hw].
  - destruct (data_chunks_spec (length (b :: d)) (b :: d) (le_n _)) as [Hd Hc]. rewrite fmap_app, concat_app, Hd, IHb. split; [done|].
    apply Forall_app. split; [|apply Hw]. eapply Forall_impl; [exact Hc|]. by left.
  - split; [done|]. constructor; [|done]. right. split; [by left|done].
  - split; [done|]. constructor; [|done]. right. split; [by left|done].
Qed.
End upload_lemmas.

Section response_lemmas.
Context {H : Type}.
Abbreviation item := (result str (@body_frame H)).

Lemma supervised_start (upstream : list item) : supervised_inv upstream (supervise_start upstream).
Proof. unfold supervised_inv, in_order. cbn. split_and!; try done; [lia|]. exists upstream, upstream. split; [by left|done]. Qed.

Lemma failed_snoc (l k : list item) e : failed (l ++ k ++ [Err e]).
Proof. exists e. by rewrite app_assoc, last_snoc. Qed.

(** What a step keeps in order: the items are where they were, but for the one
    held when the upload is dropped, and a task that ends has a reason. *)
Lemma kept_step (upstream : list item) s s' kept : supervise_step s s' → kept_of upstream s kept → kept_of upstream s' kept.
Proof.
  intros Hstep [->|(Hu & Hw & Hx)]; [by left|]. right. split_and!; [by destruct Hstep| |done].
  intros p. destruct Hstep; cbn in *; try done; by destruct (Hw p).
Qed.
Ltac keep Hk := do 2 eexists; split; [exact Hk|]; cbn; rewrite <- ?app_assoc; cbn; split; [reflexivity|].
Lemma in_order_step (upstream : list item) s s' : supervise_step s s' → in_order upstream s → in_order upstream s'.
Proof.
  intros Hstep (kept & r & Hkept & -> & Hr). pose proof (kept_step _ _ _ _ Hstep Hkept) as Hk. unfold in_order. destruct Hstep; cbn in *; subst.
  5:{ destruct Hkept as [Hkept|(_ & Hn & _)]; [|by destruct (Hn p)]. destruct p as [i|]; cbn in *; [|by keep Hk].
      exists (out ++ q ++ rest), rest. split; [|done]. right. split_and!; [done..|]. exists (out ++ q), i, rest. by rewrite <- Hkept, <- !app_assoc. }
  all: try (keep Hk; first [done | by auto | by destruct k; naive_solver]).
  - destruct p; by keep Hk.
  - keep Hk. right; right; right. exists e. by rewrite last_snoc.
  - keep Hk. naive_solver.
Qed.
Lemma supervised_step_inv (upstream : list item) s s' : supervised_inv upstream s → supervise_step s s' → supervised_inv upstream s'.
Proof.
  intros (Hq & Ht & Hto & He & Hi) Hstep. pose proof (in_order_step upstream s s' Hstep Hi) as Ho. unfold supervised_inv. split_and!; [..|exact Ho].
  all: clear Ho Hi; destruct Hstep; cbn in *; try done; try lia;
    try (by intros X; specialize (Ht X) as [_ [=]]); try (by intros X; specialize (He X) as [[=] _]).
Qed.
Lemma supervised_reachable (upstream : list item) s : rtc supervise_step (supervise_start upstream) s → supervised_inv upstream s.
Proof. intros Hr. pose proof (supervised_start upstream) as Hi. revert Hi. induction Hr; eauto using supervised_step_inv. Qed.
End response_lemmas.

Section tunnel_lemmas.
Context {L : UrlLib}.

(** A tunnel that serves has made exactly the calls before it, each answered in
    time, and makes none after. *)
Definition tunnel_opened (authority name : str) : list (entry tunnel_answer) :=
  [mkEntry AwaitUpgrade (InTime (Ok tt)); mkEntry ReadClientHello (InTime (Ok (Some name)));
   mkEntry (GenServerConfig authority) tt; mkEntry FinishHandshake (InTime (Ok tt))].

Ltac tunnel_next Hr Heq x rest pre :=
  destruct Hr as [[-> _]|(x & rest & -> & Hr)]; [by destruct pre|];
  destruct pre as [|? pre]; [by injection Heq|]; injection Heq as <- Heq; cbn in Hr.
Ltac tunnel_over Hr Heq pre := destruct Hr as [-> _]; by destruct pre.

Lemma tunnel_serve_entries authority log o pre a r post :
  runs (tunnel_serve authority) log o → log = pre ++ mkEntry (ServeTunnel a) r :: post →
  a = authority ∧ post = [] ∧ ∃ name there hello, pre = tunnel_opened authority name ∧
    canonicalize_host authority = Ok there ∧ canonicalize_host name = Ok hello ∧ dest_host there = dest_host hello.
Proof.
  unfold tunnel_serve. cbn. intros Hr Heq.
  tunnel_next Hr Heq x l1 pre. destruct x as [[[]|e]|]; cbn in Hr; [|tunnel_over Hr Heq pre..].
  tunnel_next Hr Heq y l2 pre. destruct y as [[name|e]|]; cbn in Hr; [|tunnel_over Hr Heq pre..].
  destruct (canonicalize_host authority) as [there|e] eqn:Ea; cbn in Hr; [|tunnel_over Hr Heq pre].
  destruct name as [name|]; cbn in Hr; [|tunnel_over Hr Heq pre].
  destruct (canonicalize_host name) as [hello|e] eqn:En; cbn in Hr; [|tunnel_over Hr Heq pre].
  case_bool_decide as Hh; cbn in Hr; [|tunnel_over Hr Heq pre].
  tunnel_next Hr Heq z l3 pre. destruct z. tunnel_next Hr Heq w l4 pre. destruct w as [[[]|e]|]; cbn in Hr; [|tunnel_over Hr Heq pre..].
  destruct Hr as [[-> _]|(v & l5 & -> & [-> _])]; [by destruct pre|].
  destruct pre as [|? pre]; [|injection Heq as _ Heq; by destruct pre]. injection Heq as <- <-.
  split_and!; [done..|]. by exists name, there, hello.
Qed.
End tunnel_lemmas.

Section request_lemmas.
Context {L : UrlLib} {N : IpNetLib} {HT : HttpLib} (parse_json : str → option Value) (find : ScanMode → str → list Match).
Context {H : Type} {HL : HeaderLib H} {HLaws : HeaderLaws H} {W : Type} {HW : HandlerWorld W}.

Lemma bound_route relay d : route_connect relay d = Relay.Bound → contains_host relay (dest_host d) = true.
Proof. unfold route_connect. by destruct (contains_host relay (dest_host d)). Qed.
Lemma destination_bound relay scheme d : route_destination relay scheme d = Relay.Bound →
  scheme = Some (bs "https") ∧ default 443%Z (dest_port d) = bound_port relay.
Proof.
  unfold route_destination. destruct (contains_host relay (dest_host d)); [|done]. cbn [negb].
  destruct (_ && _) eqn:E; [|done]. intros _. apply andb_true_iff in E as [?%bool_decide_eq_true ?%Z.eqb_eq]. done.
Qed.

(** A request of a bound tunnel that is sent on was given the proof. *)
Lemma bound_request_forwards c relay connect (r : Request (H := H)) f (env : @Env W) m u h b :
  hc_relay c = Some relay → route_connect relay connect = Relay.Bound →
  connect_host (ev_handler env) = Some (dest_host connect) → connect_destination (ev_handler env) = Some connect →
  (http_exchange parse_json find c r f env).2.1 = Forward m u h b →
  ∃ d proof, m = rq_method r ∧ u = rq_uri r ∧ canonical_authority r = Some d ∧ dest_host d = dest_host connect ∧ permitted c d ∧
    uri_scheme u = Some (bs "https") ∧ default 443%Z (dest_port d) = bound_port relay ∧
    request_has_ambiguous_authority (relay_view r) d = false ∧ is_websocket_request (relay_view r) = false ∧
    read_proof (open_proof (ev_world env)).2 = Ok proof ∧ get_all h SECRET_PROOF_HEADER = [proof] ∧
    ∀ n, n ≠ SECRET_PROOF_HEADER → get_all h n = if private n then [] else get_all (rq_headers r) n.
Proof.
  intros Hrelay Hbound Hh Hd Hf. apply bound_route in Hbound as Hcont.
  assert ((on_request parse_json find c r env).2 = Forward m u h b) as Ho.
  { unfold http_exchange, mbind, M_bind in Hf. destruct (on_request parse_json find c r env) as [env1 o].
    destruct (conclude c o f env1) as [env2 tee]. exact Hf. }
  assert (routes_bound relay (connect_destination (ev_handler env)) = true) as Hrb by (unfold routes_bound; rewrite Hd; by apply bool_decide_eq_true).
  assert (rq_method r = CONNECT_METHOD ∨ canonical_authority r ≠ None) as Hnamed.
  { unfold on_request in Ho. case_bool_decide as Hm; [by left|]. right. intros En. rewrite En in Ho.
    unfold on_unparseable in Ho. unfold mbind at 1, M_bind at 1, get in Ho. cbn beta iota in Ho.
    unfold with_relay in Ho. rewrite Hrelay, Hrb, orb_true_r in Ho. unfold emit_secret_egress_denied_without_host in Ho.
    destruct (denied_response SECRET_EGRESS_DENIED_KIND [(SECRET_EGRESS_DENIAL_ATTR, denial_as_str AmbiguousAuthority)] (forbidden (H := H)) env (or_intror eq_refl))
      as (env1 & E & _). rewrite E in Ho. discriminate Ho. }
  destruct (on_request_cases parse_json find c r env) as [env' status _ _|Hm Hp|r' env1 Hm Hp Ha]; [done| |].
  { destruct Hp as [Hnest _]. destruct (Hnest relay Hrelay) as [Hn _]. unfold nested_connect in Hn. rewrite Hd in Hn.
    unfold routes_bound in Hn. rewrite (bool_decide_true (route_connect relay connect = Relay.Bound)) in Hn by done. by cbn in Hn. }
  pose proof (capture_request_spec parse_json find c r' env1) as Hspec. destruct (capture_request parse_json find c r' env1) as [env' o].
  cbn in Ho. subst o. destruct Hspec as (id & new & _ & _ & _ & _ & [[[body [= -> -> -> ->]] _]|([=] & _)]).
  unfold permitted_request in Hp.
  destruct Ha as [(-> & -> & Hdir)|(relay' & d & file & proof & Hr' & Hda & Hroute & Hproof & _ & Hws & Hamb & -> & -> & ->)].
  - exfalso. destruct (Hdir relay Hrelay) as [Hment Hdirect]. destruct (canonical_authority r) as [d|] eqn:Ed.
    + destruct Hp as [_ Hhost]. specialize (Hhost _ Hh). specialize (Hdirect d eq_refl). apply direct_not_selected in Hdirect.
      rewrite <- Hhost in Hdirect. congruence.
    + by destruct Hnamed.
  - assert (relay' = relay) as -> by congruence. rewrite Hda in Hp. destruct Hp as [Hp Hhost]. apply destination_bound in Hroute as [Hsch Hport].
    exists d, proof. cbn. split_and!; try done.
    + by rewrite (Hhost _ Hh).
    + by rewrite get_insert, bool_decide_true by done.
    + intros n Hn. rewrite get_insert, bool_decide_false by done. apply get_scrubbed.
Qed.
End request_lemmas.

(** ** Properties *)

(** C17: a bound tunnel discloses the proof only to its own destination.
    Requests are served only after the connection was upgraded, its TLS hello,
    which named the host of the CONNECT, was read, a certificate for the
    CONNECT's authority was made and the handshake finished, in this order and
    each within its deadline; and a request of the tunnel, whatever form it has, is sent on only to that host, over https and
    on the bound port, if the egress policy permits it, with the proof as its
    only private header. *)
Theorem bound_tunnel_confined {L : UrlLib} {N : IpNetLib} {HT : HttpLib} (parse_json : str → option Value) (find : ScanMode → str → list Match)
    {H : Type} {HL : HeaderLib H} {HLaws : HeaderLaws H} {W : Type} {HW : HandlerWorld W}
    (c : HandlerConfig) (relay : FixedTlsRelayConfig) (connect : Destination) (authority : str) :
  hc_relay c = Some relay → route_connect relay connect = Relay.Bound →
  (∀ log o pre a r post, runs (tunnel_serve authority) log o → log = pre ++ mkEntry (ServeTunnel a) r :: post →
     a = authority ∧ post = [] ∧ ∃ name there hello,
       pre = [mkEntry AwaitUpgrade (InTime (Ok tt)); mkEntry ReadClientHello (InTime (Ok (Some name)));
              mkEntry (GenServerConfig authority) tt; mkEntry FinishHandshake (InTime (Ok tt))] ∧
       canonicalize_host authority = Ok there ∧ canonicalize_host name = Ok hello ∧ dest_host there = dest_host hello) ∧
  (∀ http1 (r : Request (H := H)) f (env : @Env W) m u h b,
     connect_host (ev_handler env) = Some (dest_host connect) → connect_destination (ev_handler env) = Some connect →
     (forward_bound_request parse_json find c http1 authority r f env).2.1 = Forward m u h b →
     ∃ r' d proof, bound_target http1 authority r = Some r' ∧ m = rq_method r' ∧ u = rq_uri r' ∧
       canonical_authority r' = Some d ∧ dest_host d = dest_host connect ∧ permitted c d ∧
       uri_scheme u = Some (bs "https") ∧ default 443%Z (dest_port d) = bound_port relay ∧
       request_has_ambiguous_authority (relay_view r') d = false ∧ is_websocket_request (relay_view r') = false ∧
       read_proof (open_proof (ev_world env)).2 = Ok proof ∧ get_all h SECRET_PROOF_HEADER = [proof] ∧
       ∀ n, n ≠ SECRET_PROOF_HEADER → get_all h n = if private n then [] else get_all (rq_headers r') n).
Proof.
  intros Hrelay Hbound. split.
  - intros log o pre a r post Hr Heq. by eapply tunnel_serve_entries.
  - intros http1 r f env m u h b Hh Hd Hf. unfold forward_bound_request in Hf. destruct (bound_target http1 authority r) as [r'|] eqn:Et.
    + destruct (bound_request_forwards parse_json find c relay connect r' f env m u h b Hrelay Hbound Hh Hd Hf) as (d & proof & ? & ? & Hx).
      exists r', d, proof. destruct Hx as (? & ? & ? & ? & ? & ? & ? & ? & ? & ?). split_and!; done.
    + exfalso. unfold mbind, M_bind in Hf. destruct (conclude c forbidden f env) as [env1 tee]. done.
Qed.

(** The upload reaches the relay whole.  The frames the upstream reads
    carry exactly the bytes of the client's body, up to its trailers or its
    failure, in pieces of at most 16 KiB, and besides them only the body's own
    empty frames, trailers and failure; an aborted upload is a prefix of it. *)
Theorem bound_upload_exact {H} (body : list (result str (@body_frame H))) (aborted : option nat) :
  concat (item_bytes <$> upstream_body body None) = concat (item_bytes <$> body_end body) ∧
  Forall (λ i, chunk i ∨ i ∈ body_end body ∧ item_bytes i = []) (upstream_body body None) ∧
  upstream_body body aborted `prefix_of` upstream_body body None.
Proof.
  destruct (pump_items_spec body) as [Hb Hf]. split_and!; [done|done|]. destruct aborted as [n|]; [|done]. apply prefix_take.
Qed.

(** The wait for the response always ends, five seconds after the
    upload's last sign of life (its end included) at the latest: it takes the
    first answer that comes by then, and gives up exactly at that time when
    none does. *)
Theorem bound_wait_ends {A} (start : Z) (events : list (Z * wait_event A)) :
  let '(answer, ended) := await_response start events in
  ∃ met later, events = met ++ later ∧ Forall unanswered met ∧
    match answer with
    | Some a => (∃ rest, later = (ended, UpstreamDone a) :: rest) ∧ (ended ≤ last_sign start met + 5000000000)%Z
    | None => ended = (last_sign start met + 5000000000)%Z ∧ match later with [] => True | (next, _) :: _ => (ended < next)%Z end
    end.
Proof. apply (await_spec start events). Qed.

(** C16: what the client takes for the response.  However the upload, the
    supervisor and the client interleave, the channel holds at most one frame,
    and the client has read a prefix of the response, of which at most one item
    is missing, and that only if the request body was dropped unfinished.  A
    client that sees the body's end without an error has all that was kept,
    unless the upload timed out; a timeout always aborts the upload, and a
    client that looks at the flag after it was set reads nothing more but
    the error. *)
Theorem bound_response_faithful {H} (response : list (result str (@body_frame H))) (s : supervised) :
  rtc supervise_step (supervise_start response) s →
  length (sv_queue s) ≤ 1 ∧
  (∃ kept, (kept = response ∨ sv_upload s = UploadDropped ∧ ∃ l lost l', response = l ++ [lost] ++ l' ∧ kept = l ++ l') ∧
     sv_out s `prefix_of` kept ∧
     (sv_client s = SawEnd → sv_out s = kept ∨ failed (sv_out s) ∨ sv_timeout s = true)) ∧
  (sv_client s = SawTimeout → sv_timeout s = true) ∧
  (sv_timeout s = true → sv_abort s = true ∧
     ∀ s', supervise_step s s' → sv_client s = Reading → sv_out s' = sv_out s ∧ (sv_client s' = Reading ∨ sv_client s' = SawTimeout ∨ sv_client s' = Gone)).
Proof.
  intros Hr. destruct (supervised_reachable _ _ Hr) as (Hq & Ht & Hto & He & kept & rest & Hk & Hup & Hrest). split_and!; [done| |done|].
  - exists kept. split; [destruct Hk as [?|(? & _ & ?)]; auto|]. split; [rewrite Hup; by apply prefix_app_r|].
    intros Hc. destruct (He Hc) as (Hf & Hqe). rewrite Hf, Hqe in *. cbn in *. rewrite app_nil_r in Hrest.
    destruct Hrest as [->|[Hx|[Hx|Hx]]]; [left; by rewrite Hup, app_nil_r|auto|congruence|auto].
  - intros Htt. split; [by apply Ht|]. intros s' Hstep Hc. destruct Hstep; cbn in *; subst; auto; done.
Qed.

(** *** What an abort hides *)

(** The client can read a response with a frame missing from its middle and
    see its normal end: when the request body is dropped unfinished while a
    frame waits for the channel, the supervisor goes on without that frame. *)
Lemma dropped_upload_loses_frame {H} (a b c : str) :
  ∃ s : supervised (H := H), rtc supervise_step (supervise_start [Ok (Data a); Ok (Data b); Ok (Data c)]) s ∧
    sv_client s = SawEnd ∧ sv_out s = [Ok (Data a); Ok (Data c)].
Proof.
  eexists. split.
  - eapply rtc_l; [by apply watch_read|]. eapply rtc_l; [by apply watch_send|]. eapply rtc_l; [by apply watch_read|].
    eapply rtc_l; [apply upload_dropped|]. eapply rtc_l; [by apply watch_dropped|]. eapply rtc_l; [apply client_looks|].
    eapply rtc_l; [apply client_next|].
    eapply rtc_l; [apply drain_read|]. eapply rtc_l; [apply drain_send|]. eapply rtc_l; [apply client_looks|]. eapply rtc_l; [apply client_next|].
    eapply rtc_l; [apply drain_end|]. eapply rtc_l; [apply client_looks|]. apply rtc_once, client_end.
  - done.
Qed.
(** The client can see the normal end of a response that a timeout cut: when
    the supervisor sets the flag and drops the channel after the client found
    the flag unchanged and before it polls the channel. *)
Lemma timeout_passes_as_end {H} (a b : str) :
  ∃ s : supervised (H := H), rtc supervise_step (supervise_start [Ok (Data a); Ok (Data b)]) s ∧
    sv_client s = SawEnd ∧ sv_out s = [Ok (Data a)] ∧ sv_upload s = Uploading ∧ sv_timeout s = true.
Proof.
  eexists. split.
  - eapply rtc_l; [by apply watch_read|]. eapply rtc_l; [by apply watch_send|]. eapply rtc_l; [apply client_looks|].
    eapply rtc_l; [apply client_next|]. eapply rtc_l; [apply client_looks|]. eapply rtc_l; [by apply watch_deadline|].
    apply rtc_once, client_end.
  - done.
Qed.
(** An aborted upload ends like a complete one: the upstream reads what it
    would read of a body that had ended there. *)
Lemma aborted_upload_looks_complete {H} (body : list str) (n : nat) :
  upstream_body ((λ d, Ok (Data d)) <$> body) (Some n) =
    upstream_body (upstream_body ((λ d, Ok (Data d)) <$> body) (Some n)) None (H := H).
Proof.
  cbn [upstream_body]. assert (Forall (λ i, chunk (H := H) i ∨ i = Ok (Data [])) (pump_items ((λ d, Ok (Data d)) <$> body))) as Hf.
  { eapply Forall_impl; [apply pump_items_spec|]. intros i [?|[Hin Hi]]; [by left|]. right.
    assert (∀ i, i ∈ body_end (H := H) ((λ d, Ok (Data d)) <$> body) → ∃ d, i = Ok (Data d)) as Hd.
    { clear. induction body as [|d body IH]; cbn; intros i; [by intros ?%not_elem_of_nil|]. intros [->|?]%elem_of_cons; eauto. }
    destruct (Hd _ Hin) as [d ->]. cbn in Hi. by subst. }
  apply (Forall_take _ n) in Hf. revert Hf. generalize (take n (pump_items (H := H) ((λ d, Ok (Data d)) <$> body))) as l. intros l Hf.
  induction Hf as [|i l [(d & -> & Hne & Hlen)| ->] _ IH]; [done| |by cbn; rewrite <- IH].
  cbn [pump_items]. destruct d as [|x d]; [done|]. rewrite <- IH. cbn [length data_chunks].
  rewrite take_ge, drop_ge by done. by destruct (length d).
Qed.

(** *** Witnesses *)

Section witnesses.
#[local] Existing Instances Sample.url_lib Sample.ipnet_lib SampleHttp.http_lib Fields.header_lib Fields.header_laws counting sample_world.

Definition sample_tunnel (_ : list (entry tunnel_answer)) (c : tunnel_call) : tunnel_answer c :=
  match c with
  | AwaitUpgrade | FinishHandshake => InTime (Ok tt)
  | ReadClientHello => InTime (Ok (Some (bs "api.example.com")))
  | GenServerConfig _ => tt
  | ServeTunnel _ => Ok tt
  end.
Definition sample_authority : str := bs "api.example.com:443".
Definition sample_origin : Request :=
  mkReq (bs "POST") (mkUri None None None None (bs "/v1") (Some (bs "/v1")) (bs "/v1"))
    [(bs "host", bs "api.example.com"); (bs "authorization", bs "Bearer x")] [Ok (Data (bs "hello"))] false.
Definition sample_forward := forward_bound_request no_json no_find sample_config true sample_authority sample_origin Abandoned sample_env.

Lemma bound_tunnel_confined_witness :
  (exec sample_tunnel [] (tunnel_serve sample_authority)).2 = Some (Ok tt) ∧
  (∃ name there hello, canonicalize_host sample_authority = Ok there ∧ canonicalize_host name = Ok hello ∧ dest_host there = dest_host hello) ∧
  ∃ m u h b, sample_forward.2.1 = Forward m u h b ∧ uri_scheme u = Some (bs "https") ∧
    get_all h SECRET_PROOF_HEADER = [bs "s3cret"] ∧ get_all h AUTHORIZATION = [].
Proof.
  destruct (bound_tunnel_confined no_json no_find sample_config sample_relay bound_destination sample_authority eq_refl
    ltac:(vm_compute; reflexivity)) as [G1 G2].
  split; [vm_compute; reflexivity|]. split.
  - destruct (G1 _ _ (tunnel_opened sample_authority (bs "api.example.com")) sample_authority (Ok tt) []
      (exec_runs sample_tunnel [] (tunnel_serve sample_authority) _ _ (surjective_pairing _)))
      as (_ & _ & name & there & hello & _ & Ha & Hb & Hd).
    + vm_compute. reflexivity.
    + exists name, there, hello. split; [exact Ha|]. split; [exact Hb|exact Hd].
  - destruct sample_forward.2.1 as [m u h b|status] eqn:E; [|vm_compute in E; discriminate]. exists m, u, h, b. split; [reflexivity|].
    destruct (G2 true sample_origin Abandoned sample_env m u h b eq_refl eq_refl E)
      as (r' & d & proof & Ht & _ & _ & _ & _ & _ & Hs & _ & _ & _ & Hp & Hg & Hn).
    assert (read_proof (open_proof (ev_world sample_env)).2 = Ok (bs "s3cret")) as Hp' by (vm_compute; reflexivity).
    rewrite Hp' in Hp. injection Hp as <-. split; [exact Hs|]. split; [exact Hg|]. rewrite Hn; [reflexivity|discriminate].
Defined.

Lemma bound_response_faithful_witness :
  ∃ s : supervised (H := unit), rtc supervise_step (supervise_start [Ok (Data (bs "a"))]) s ∧ sv_client s = SawEnd ∧ sv_out s = [Ok (Data (bs "a"))].
Proof.
  assert (∃ s : supervised (H := unit), rtc supervise_step (supervise_start [Ok (Data (bs "a"))]) s ∧ sv_client s = SawEnd ∧
    sv_upload s ≠ UploadDropped ∧ ¬ failed (sv_out s) ∧ sv_timeout s ≠ true) as (s & Hr & Hc & Hu & Hf & Ht).
  { eexists. split.
    - eapply rtc_l; [by apply watch_read|]. eapply rtc_l; [by apply watch_send|]. eapply rtc_l; [apply client_looks|]. eapply rtc_l; [apply client_next|].
      eapply rtc_l; [by apply watch_end|]. eapply rtc_l; [apply client_looks|]. apply rtc_once, client_end.
    - split_and!; [done|done| |done]. intros [e [=]]. }
  exists s. split; [exact Hr|]. split; [exact Hc|].
  destruct (bound_response_faithful _ s Hr) as (_ & (kept & [->|[Hd _]] & _ & He) & _); [|by destruct Hu].
  destruct (He Hc) as [Ho|[Ho|Ho]]; [exact Ho|by destruct Hf|by destruct Ht].
Defined.
End witnesses.
