(* ===== verification/Inspect.v ===== *)
(** * Inspection of captured events (crates/hiloop-interceptor/src/inspect.rs, inspect_cli.rs)

    What [inspect] makes of an events file: the file is read back, its events
    are rolled up by lineage path, and two paths' event names are compared.
    A [BTreeMap] is a [gmap] listed in the order of its keys. *)
From Stdlib Require Import Strings.Byte.
From stdpp Require Import sorting.
From S2P Require Import Prelude Text Utf8 Protocol Identity Event Spool Seams Pipeline Exporters.

(** ** Rollup (inspect.rs) *)

Section inspect.
Context {U : UlidLib}.

Record PathSummary := mkPath { ps_lineage_path : str; ps_events : nat; by_signal : gmap str nat; by_name : gmap str nat }.
Definition PathSummary_new (lineage_path : str) : PathSummary := mkPath lineage_path 0 ∅ ∅.
Record InspectSummary := mkInspect { total_events : nat; paths : list PathSummary }.
Definition summary_path (s : InspectSummary) (lineage_path : str) : option PathSummary :=
  List.find (λ p, bool_decide (ps_lineage_path p = lineage_path)) (paths s).
Record NameDelta := mkDelta { delta_name : str; delta_a : nat; delta_b : nat }.

Definition signal_label (s : SignalType) : str :=
  bs match s with
     | Span => "span" | Log => "log" | Metric => "metric" | NetSignal => "net" | Exec => "exec" | Llm => "llm" | Annotation => "annotation"
     end.

(** [*entry(key).or_default() += 1] *)
Definition bump (m : gmap str nat) (k : str) : gmap str nat := <[k := S (default 0 (m !! k))]> m.
Definition event_path (e : Event) : str := LineagePath_fmt (lineage_path e).
Definition roll_up (by_path : gmap str PathSummary) (e : Event) : gmap str PathSummary :=
  let k := event_path e in
  let summary := default (PathSummary_new k) (by_path !! k) in
  <[k := mkPath (ps_lineage_path summary) (S (ps_events summary)) (bump (by_signal summary) (signal_label (signal e)))
           (bump (by_name summary) (as_str (event_name e)))]> by_path.
Definition summarize (events : list Event) : InspectSummary :=
  mkInspect (length events) (btree_iter (foldl roll_up ∅ events)).*2.

Definition names_of (s : InspectSummary) (lineage_path : str) : gmap str nat :=
  match summary_path s lineage_path with Some p => by_name p | None => ∅ end.
Definition diff_event_names (s : InspectSummary) (path_a path_b : str) : list NameDelta :=
  let a := names_of s path_a in
  let b := names_of s path_b in
  omap (λ name,
          let a_count := default 0 (a !! name) in
          let b_count := default 0 (b !! name) in
          if bool_decide (a_count ≠ b_count) then Some (mkDelta name a_count b_count) else None)
    (merge_sort str_le (elements (dom a ∪ dom b))).

(** ** The command (inspect_cli.rs) *)

Inductive InspectError :=
| ReadFailed (error : IoError)
| InvalidEvent (line : nat) (error : str).

Section command.
Context {JE : SerdeJson Event}.

Fixpoint parse_lines (index : nat) (lines : list str) : result InspectError (list Event) :=
  match lines with
  | [] => Ok []
  | line :: lines =>
      if is_blank line then parse_lines (S index) lines
      else
        event ← map_err (InvalidEvent (S index)) (from_slice line);
        events ← parse_lines (S index) lines;
        Ok (event :: events)
  end.
(** [contents] is what reading the file answers; [read_to_string] refuses text
    that is not UTF-8. *)
Definition read_events (contents : result IoError str) : result InspectError (list Event) :=
  contents ← map_err ReadFailed contents;
  contents ← ok_or (from_utf8 contents) (ReadFailed (io_error InvalidData (bs "stream did not contain valid UTF-8")));
  parse_lines 0 (str_lines contents).

Definition show_count (n : nat) : str := show_uint (Z.of_nat n).
Definition text_line (s : str) : str := s ++ [x0a].
Definition render_path (p : PathSummary) : str :=
  text_line ([x0a] ++ bs "  " ++ ps_lineage_path p ++ [x20; xe2; x80; x94; x20] ++ show_count (ps_events p) ++ bs " event(s)") ++
  text_line (bs "    signals: " ++ join (bs " ") ((λ e, e.1 ++ bs "=" ++ show_count e.2) <$> btree_iter (by_signal p))) ++
  concat ((λ e, text_line (bs "    " ++ e.1 ++ bs ": " ++ show_count e.2)) <$> btree_iter (by_name p)).
Definition render_summary (s : InspectSummary) : str :=
  text_line (show_count (total_events s) ++ bs " events across " ++ show_count (length (paths s)) ++ bs " run lineage path(s)") ++
  concat (render_path <$> paths s).
Definition render_diff (s : InspectSummary) (path_a path_b : str) : str :=
  text_line (bs "event-name divergence: " ++ path_a ++ bs " (a) vs " ++ path_b ++ bs " (b)") ++
  match diff_event_names s path_a path_b with
  | [] => text_line (bs "  (no divergence)")
  | deltas =>
      concat ((λ d, text_line (bs "  " ++ delta_name d ++ bs ": a=" ++ show_count (delta_a d) ++ bs " b=" ++ show_count (delta_b d))) <$> deltas)
  end.
Definition inspect_run (contents : result IoError str) (diff : option (str * str)) : result InspectError str :=
  events ← read_events contents;
  let summary := summarize events in
  Ok match diff with
     | Some (path_a, path_b) => render_diff summary path_a path_b
     | None => render_summary summary
     end.
End command.

(** ** Specification *)

(** How many events have a property. *)
Definition tally (P : Event → bool) (events : list Event) : nat := length (List.filter P events).
Definition on_path (path : str) (e : Event) : bool := bool_decide (event_path e = path).
Definition named (path name : str) (e : Event) : bool := on_path path e && bool_decide (as_str (event_name e) = name).
Definition signalled (path label : str) (e : Event) : bool := on_path path e && bool_decide (signal_label (signal e) = label).
(** A map that counts: an entry for every key that occurs, with how often. *)
Definition counts (m : gmap str nat) (count : str → nat) : Prop :=
  ∀ k, m !! k = if bool_decide (count k = 0) then None else Some (count k).
Definition summary_exact (events : list Event) (path : str) (p : PathSummary) : Prop :=
  ps_lineage_path p = path ∧ ps_events p = tally (on_path path) events ∧
  counts (by_signal p) (λ label, tally (signalled path label) events) ∧
  counts (by_name p) (λ name, tally (named path name) events).
End inspect.

(** ** Lemmas *)

Lemma utf8_valid_app s t : utf8_valid s = true → utf8_valid t = true → utf8_valid (s ++ t) = true.
Proof.
  intros Hs Ht. remember (length s) as n eqn:Hn. revert s Hn Hs. induction n as [n IH] using lt_wf_ind. intros s -> Hs.
  destruct s as [|a s1]; [done|]. cbn [utf8_valid app] in *. destruct (in_range 0 127 a); [by eapply (IH (length s1)); [simpl; lia|..]|].
  destruct s1 as [|b s2]; [done|]. cbn [app] in *.
  destruct (in_range 194 223 a); [apply andb_true_iff in Hs as [-> Hs]; by eapply (IH (length s2)); [simpl; lia|..]|].
  destruct s2 as [|c s3]; [done|]. cbn [app] in *.
  do 3 (destruct (in_range _ _ a); [apply andb_true_iff in Hs as [Hx Hs]; rewrite Hx; by eapply (IH (length s3)); [simpl; lia|..]|]).
  destruct s3 as [|d s4]; [done|]. cbn [app] in *. apply andb_true_iff in Hs as [Hx Hs]. rewrite Hx. by eapply (IH (length s4)); [simpl; lia|..].
Qed.

Section lemmas.
Context {U : UlidLib}.

Lemma tally_snoc P es e : tally P (es ++ [e]) = tally P es + (if P e then 1 else 0).
Proof. unfold tally. rewrite List.filter_app, length_app. cbn. by destruct (P e). Qed.
Lemma tally_pos P es : 0 < tally P es ↔ ∃ e, e ∈ es ∧ P e = true.
Proof.
  unfold tally. split.
  - destruct (List.filter P es) as [|e l] eqn:E; [simpl; lia|]. intros _. exists e.
    assert (In e (List.filter P es)) as Hin by (rewrite E; by left). apply filter_In in Hin as [Hin ?].
    split; [by apply list_elem_of_In|done].
  - intros (e & Hin & Hp). apply list_elem_of_In in Hin. pose proof (proj2 (filter_In P e es) (conj Hin Hp)) as Hf.
    destruct (List.filter P es); [by destruct Hf|simpl; lia].
Qed.

Lemma counts_ext m f g : counts m f → (∀ k, f k = g k) → counts m g.
Proof. intros Hm He k. rewrite <- He. apply Hm. Qed.
Lemma counts_bump m f k : counts m f → counts (bump m k) (λ k', f k' + (if bool_decide (k = k') then 1 else 0)).
Proof.
  intros Hm k'. unfold bump. destruct (decide (k = k')) as [<-|Hne].
  - rewrite lookup_insert_eq, (bool_decide_true (k = k)) by done. rewrite bool_decide_false by lia. rewrite (Hm k).
    case_bool_decide; cbn; f_equal; lia.
  - rewrite lookup_insert_ne, (bool_decide_false (k = k')) by done. rewrite Nat.add_0_r. apply Hm.
Qed.
Lemma counts_empty f : (∀ k, f k = 0) → counts ∅ f.
Proof. intros Hf k. by rewrite lookup_empty, bool_decide_true. Qed.

Lemma on_path_sub path (k : str) (P : str → Event → bool) (es : list Event) : tally (on_path path) es = 0 → tally (λ e, on_path path e && P k e) es = 0.
Proof.
  intros H. destruct (tally (λ e, on_path path e && P k e) es) as [|n] eqn:E; [done|].
  assert (0 < tally (λ e, on_path path e && P k e) es) as Hp by lia. apply tally_pos in Hp as (e & Hin & [Hp _]%andb_true_iff).
  assert (0 < tally (on_path path) es) by (apply tally_pos; eauto). lia.
Qed.

(** The map after any number of events. *)
Definition rolled (events : list Event) (m : gmap str PathSummary) : Prop :=
  ∀ path, match m !! path with
          | Some p => summary_exact events path p ∧ 0 < tally (on_path path) events
          | None => tally (on_path path) events = 0
          end.

Lemma rolled_summary events m path :
  rolled events m → summary_exact events path (default (PathSummary_new path) (m !! path)).
Proof.
  intros Hm. specialize (Hm path). destruct (m !! path) as [p|]; [by destruct Hm|]. cbn. split_and!; [done|done|..]; apply counts_empty; intros k.
  - by apply (on_path_sub path k (λ k e, bool_decide (signal_label (signal e) = k))).
  - by apply (on_path_sub path k (λ k e, bool_decide (as_str (event_name e) = k))).
Qed.

Lemma rolled_step events m e : rolled events m → rolled (events ++ [e]) (roll_up m e).
Proof.
  intros Hm path. unfold roll_up. destruct (decide (event_path e = path)) as [<-|Hne].
  - assert (on_path (event_path e) e = true) as Ht by (unfold on_path; by rewrite bool_decide_true).
    rewrite lookup_insert_eq. destruct (rolled_summary _ _ (event_path e) Hm) as (Hp & He & Hs & Hn). split.
    + split_and!; cbn [ps_lineage_path ps_events by_signal by_name]; [done|..].
      * rewrite He, tally_snoc, Ht. lia.
      * eapply counts_ext; [by apply counts_bump|]. intros k. cbn beta. rewrite tally_snoc. unfold signalled. by rewrite Ht.
      * eapply counts_ext; [by apply counts_bump|]. intros k. cbn beta. rewrite tally_snoc. unfold named. by rewrite Ht.
    + rewrite tally_snoc, Ht. lia.
  - rewrite lookup_insert_ne by done. assert (on_path path e = false) as Hf by (unfold on_path; by rewrite bool_decide_false).
    specialize (Hm path). rewrite tally_snoc, Hf, Nat.add_0_r. destruct (m !! path) as [p|]; [|done].
    destruct Hm as ((Hp & He & Hs & Hn) & Hpos). split; [|done]. split_and!; [done|by rewrite tally_snoc, Hf, Nat.add_0_r|..].
    + eapply counts_ext; [exact Hs|]. intros k. cbn beta. rewrite tally_snoc. unfold signalled at 3. by rewrite Hf, Nat.add_0_r.
    + eapply counts_ext; [exact Hn|]. intros k. cbn beta. rewrite tally_snoc. unfold named at 3. by rewrite Hf, Nat.add_0_r.
Qed.
Lemma rolled_all events : rolled events (foldl roll_up ∅ events).
Proof.
  induction events as [|e events IH] using rev_ind; [intros path; cbn [foldl]; by rewrite lookup_empty|]. rewrite foldl_snoc. by apply rolled_step.
Qed.

Lemma path_entry events k p : foldl roll_up ∅ events !! k = Some p → ps_lineage_path p = k.
Proof. intros H. pose proof (rolled_all events k) as Hr. rewrite H in Hr. by destruct Hr as [[? _] _]. Qed.
Lemma path_keys events : ps_lineage_path <$> paths (summarize events) = (btree_iter (foldl roll_up ∅ events)).*1.
Proof.
  cbn [paths summarize]. rewrite <- list_fmap_compose. apply list_fmap_ext. intros i [k p] Hi. apply (path_entry events k).
  apply (elem_of_btree_iter _ (k, p)). by eapply list_elem_of_lookup_2.
Qed.
Lemma elem_of_paths events p :
  p ∈ paths (summarize events) ↔ foldl roll_up ∅ events !! ps_lineage_path p = Some p.
Proof.
  cbn [paths summarize]. rewrite list_elem_of_fmap. split.
  - intros ([k q] & -> & Hin). apply elem_of_btree_iter in Hin. cbn in *. by rewrite (path_entry _ _ _ Hin).
  - intros Hp. exists (ps_lineage_path p, p). split; [done|]. by apply elem_of_btree_iter.
Qed.

Lemma summary_path_lookup events path : summary_path (summarize events) path = foldl roll_up ∅ events !! path.
Proof.
  unfold summary_path. destruct (List.find _ _) as [p|] eqn:Ef.
  - apply find_some in Ef as [Hin Hp%bool_decide_eq_true]. apply list_elem_of_In, elem_of_paths in Hin. by rewrite <- Hp.
  - destruct (foldl roll_up ∅ events !! path) as [p|] eqn:El; [|done]. pose proof (path_entry _ _ _ El) as Hp.
    assert (p ∈ paths (summarize events)) as Hin by (apply elem_of_paths; by rewrite Hp).
    apply list_elem_of_In in Hin. apply (find_none _ _ Ef) in Hin. by apply bool_decide_eq_false in Hin.
Qed.
Lemma names_of_counts events path : counts (names_of (summarize events) path) (λ name, tally (named path name) events).
Proof.
  unfold names_of. rewrite summary_path_lookup. pose proof (rolled_all events path) as Hr. destruct (foldl roll_up ∅ events !! path) as [p|].
  - by destruct Hr as [(_ & _ & _ & ?) _].
  - apply counts_empty. intros k. by apply (on_path_sub path k (λ k e, bool_decide (as_str (event_name e) = k))).
Qed.
Lemma counts_default m f k : counts m f → default 0 (m !! k) = f k.
Proof. intros Hm. rewrite (Hm k). case_bool_decide; [done|done]. Qed.

Definition map_total (m : gmap str PathSummary) : nat := sum_list (ps_events <$> (map_to_list m).*2).
Lemma map_total_insert m k p : map_total (<[k := p]> m) + default 0 (ps_events <$> m !! k) = map_total m + ps_events p.
Proof.
  unfold map_total. destruct (m !! k) as [q|] eqn:E.
  - rewrite <- (insert_delete_id m k q) at 2 by done. rewrite <- insert_delete_eq.
    rewrite !map_to_list_insert by apply lookup_delete_eq. cbn. lia.
  - rewrite map_to_list_insert by done. cbn. lia.
Qed.
Lemma total_all events : map_total (foldl roll_up ∅ events) = length events.
Proof.
  induction events as [|e events IH] using rev_ind; [cbn [foldl]; unfold map_total; by rewrite map_to_list_empty|].
  rewrite foldl_snoc, length_app, <- IH. unfold roll_up at 1. set (m := foldl roll_up ∅ events).
  match goal with |- context [<[?k := ?p]> m] => pose proof (map_total_insert m k p) as H end. cbn [ps_events] in H.
  destruct (m !! event_path e); cbn in *; lia.
Qed.
End lemmas.

(** ** Properties *)

Section properties.
Context {U : UlidLib}.

(** The summary counts every event once.  Whatever the events, the
    paths are listed in order and once each, they are exactly the lineage
    paths of the events, each with its number of events and exactly its
    counts per signal family and per name, and the paths' numbers add up to
    the total. *)
Theorem inspect_summary_exact (events : list Event) :
  let s := summarize events in
  total_events s = length events ∧ sum_list (ps_events <$> paths s) = length events ∧
  StronglySorted str_le (ps_lineage_path <$> paths s) ∧ NoDup (ps_lineage_path <$> paths s) ∧
  (∀ path, path ∈ ps_lineage_path <$> paths s ↔ path ∈ event_path <$> events) ∧
  Forall (λ p, summary_exact events (ps_lineage_path p) p) (paths s).
Proof.
  intros s. split_and!.
  - done.
  - rewrite <- (total_all events). unfold s, map_total. cbn [paths summarize].
    by rewrite btree_iter_Permutation.
  - unfold s. rewrite path_keys. apply btree_iter_sorted.
  - unfold s. rewrite path_keys. apply NoDup_btree_iter.
  - intros path. unfold s. rewrite path_keys, !list_elem_of_fmap. pose proof (rolled_all events path) as Hr. split.
    + intros ([k p] & -> & Hin). apply elem_of_btree_iter in Hin. cbn in *. rewrite Hin in Hr. destruct Hr as [_ (e & ? & He)%tally_pos].
      apply bool_decide_eq_true in He. eauto.
    + intros (e & -> & Hin). destruct (foldl roll_up ∅ events !! event_path e) as [p|] eqn:E.
      * exists (event_path e, p). split; [done|]. by apply elem_of_btree_iter.
      * assert (0 < tally (on_path (event_path e)) events); [|lia]. apply tally_pos. exists e. split; [done|]. by apply bool_decide_eq_true.
  - apply Forall_forall. intros p Hp. apply elem_of_paths in Hp. pose proof (rolled_all events (ps_lineage_path p)) as Hr.
    unfold s in Hp. rewrite Hp in Hr. by destruct Hr.
Qed.

(** The comparison is exactly where two runs diverged: one entry, in the
    order of the names, for each event name whose count differs, with both
    counts. *)
Theorem inspect_diff_exact (events : list Event) (path_a path_b : str) :
  let deltas := diff_event_names (summarize events) path_a path_b in
  StronglySorted str_le (delta_name <$> deltas) ∧ NoDup (delta_name <$> deltas) ∧
  ∀ d, d ∈ deltas ↔
    delta_a d = tally (named path_a (delta_name d)) events ∧ delta_b d = tally (named path_b (delta_name d)) events ∧ delta_a d ≠ delta_b d.
Proof.
  intros deltas. set (a := names_of (summarize events) path_a). set (b := names_of (summarize events) path_b).
  set (names := merge_sort str_le (elements (dom a ∪ dom b))).
  assert (StronglySorted str_le names) as Hsort by (apply (StronglySorted_merge_sort str_le); apply _).
  assert (NoDup names) as Hnd by (unfold names; rewrite merge_sort_Permutation; apply NoDup_elements).
  assert ((delta_name <$> deltas) `sublist_of` names) as Hsub.
  { unfold deltas, diff_event_names. fold a b names. clear Hsort Hnd. induction names as [|n names IH]; [constructor|]. cbn.
    case_bool_decide; cbn; by constructor. }
  split_and!.
  - clear Hnd. revert Hsort Hsub. generalize (delta_name <$> deltas) as l. intros l Hs Hl. revert Hs. induction Hl as [|x l k Hl IH|x l k Hl IH]; intros Hs.
    + done.
    + apply StronglySorted_inv in Hs as [? Hf]. constructor; [by apply IH|]. apply Forall_forall. intros y Hy. rewrite Forall_forall in Hf. apply Hf. by eapply elem_of_sublist.
    + apply StronglySorted_inv in Hs as [? _]. by apply IH.
  - by eapply sublist_NoDup.
  - intros [n x y]. cbn. unfold deltas, diff_event_names. fold a b names. rewrite list_elem_of_omap.
    pose proof (counts_default _ _ n (names_of_counts events path_a)) as Ha. pose proof (counts_default _ _ n (names_of_counts events path_b)) as Hb.
    fold a in Ha. fold b in Hb. split.
    + intros (m & _ & Hm). cbv zeta in Hm. case_bool_decide; [|done]. simplify_eq. split_and!; done.
    + intros (-> & -> & Hne). exists n. split.
      * unfold names. rewrite merge_sort_Permutation, elem_of_elements, elem_of_union, !elem_of_dom.
        destruct (a !! n); [by left; eexists|]. destruct (b !! n); [by right; eexists|]. cbn in *. lia.
      * cbv zeta. rewrite Ha, Hb. by rewrite bool_decide_true.
Qed.

(** What serde_json promises of an event read from its own text: a float may
    differ from the one written, or be refused (it is written with all its
    digits and read with less care), and everything else is the same. *)
Definition event_alike (e e' : Event) : Prop :=
  attributes_alike (attributes e) (attributes e') ∧
  e' = mkEvent (event_id e) (ts e) (run_id e) (lineage_path e) (signal e) (event_name e) (attributes e') (payload_ref e).
Definition has_float (e : Event) : Prop := ∃ k f, attributes e !! k = Some (AF64 f).
Class EventJsonLaws (JE : SerdeJson Event) : Prop := {
  event_text : ∀ (e : Event) line, to_vec e = Ok line → utf8_valid line = true ∧ x0a ∉ line ∧ x0d ∉ line ∧ is_blank line = false;
  event_read : ∀ (e e' : Event) line, to_vec e = Ok line → from_slice line = Ok e' → event_alike e e';
  event_refused : ∀ (e : Event) line error, to_vec e = Ok line → from_slice line = Err (A := Event) error → has_float e;
}.

Lemma alike_without_float e e' : event_alike e e' → ¬ has_float e → e' = e.
Proof.
  intros [Ha He] Hn. assert (attributes e' = attributes e) as Hat.
  { apply map_eq. intros k. specialize (Ha k). destruct (attributes e !! k) as [v|] eqn:E, (attributes e' !! k) as [v'|] eqn:E'; cbn in Ha; try done.
    destruct v as [s|z|f|b], v' as [s'|z'|f'|b']; cbn in Ha; simplify_eq; try done. destruct Hn. by exists k, f. }
  rewrite He, Hat. by destruct e.
Qed.
Lemma summarize_alike es es' : Forall2 event_alike es es' → summarize es' = summarize es.
Proof.
  intros H. unfold summarize. rewrite (Forall2_length _ _ _ H). do 2 f_equal. generalize (∅ : gmap str PathSummary) as m. f_equal.
  induction H as [|e e' es es' [_ He] _ IH]; intros m; [done|]. cbn [foldl]. rewrite IH. do 2 f_equal. by rewrite He.
Qed.

Section log.
Context {JE : SerdeJson Event} {EJ : EventJsonLaws JE}.

Lemma log_lines (es : list Event) : Forall (λ e, is_ok (to_vec e) = true) es → ∃ lines, Forall2 (λ e line, to_vec e = Ok line) es lines.
Proof.
  induction 1 as [|e es He _ (lines & IH)]; [by exists []|]. destruct (to_vec e) as [line|] eqn:E; [|done]. exists (line :: lines). by constructor.
Qed.
Lemma log_batches batches file lines :
  Forall2 (λ e line, to_vec e = Ok line) (concat batches) lines →
  foldl (λ x es, (export x es).1) (mkJsonl (file : str)) batches = mkJsonl (file ++ concat ((λ line, line ++ [x0a]) <$> lines)).
Proof.
  revert file lines. induction batches as [|es batches IH]; intros file lines; cbn [concat foldl].
  - intros ->%Forall2_nil_inv_l. cbn. by rewrite app_nil_r.
  - intros (l1 & l2 & H1 & H2 & ->)%Forall2_app_inv_l. cbn [export jsonl_exporter]. cbn [jsonl_file]. rewrite (jsonl_export_lines file es l1 H1).
    cbn [fst]. rewrite (IH _ l2 H2), fmap_app, concat_app. by rewrite app_assoc.
Qed.
Lemma parse_log i es lines : Forall2 (λ e line, to_vec e = Ok line) es lines →
  match parse_lines i lines with
  | Ok es' => Forall2 event_alike es es'
  | Err failure => ∃ n e error, failure = InvalidEvent (i + S n) error ∧ es !! n = Some e ∧ has_float e
  end.
Proof.
  intros H. revert i. induction H as [|e line es lines He _ IH]; intros i; [constructor|]. cbn [parse_lines].
  destruct (event_text _ _ He) as (_ & _ & _ & ->). destruct (from_slice line) as [e'|error] eqn:Er; cbn [map_err mbind result_bind].
  - specialize (IH (S i)). destruct (parse_lines (S i) lines) as [es'|failure]; cbn [mbind result_bind].
    + constructor; [by eapply event_read|done].
    + destruct IH as (n & e0 & error & -> & Hn & Hf). exists (S n), e0, error. split_and!; [f_equal; lia|done|done].
  - exists 0, e, error. split_and!; [f_equal; lia|done|]. by eapply event_refused.
Qed.
Lemma log_text es lines : Forall2 (λ e line, to_vec e = Ok line) es lines →
  let text := concat ((λ line, line ++ [x0a]) <$> lines) in utf8_valid text = true ∧ str_lines text = lines.
Proof.
  intros H text. split.
  - unfold text. induction H as [|e line es lines He _ IH]; [done|]. cbn [fmap list_fmap concat].
    destruct (event_text _ _ He) as (Hu & _). by repeat apply utf8_valid_app.
  - apply str_lines_written. clear text. induction H as [|e line es lines He _ IH]; constructor; [|done]. by destruct (event_text _ _ He) as (_ & ? & ? & _).
Qed.
End log.

(** C31: what the local log holds is what inspection reports.  Events that
    have an encoding, exported to a new events file in any number of batches,
    are read back in order, each the same but for the floats among its
    attributes, and the report of the file is exactly the report of the events.
    Reading fails only at the line of an event that has a float attribute;
    events without one are read back exactly. *)
Theorem inspect_reads_log {JE : SerdeJson Event} {EJ : EventJsonLaws JE} (batches : list (list Event)) (diff : option (str * str)) :
  Forall (λ e, is_ok (to_vec e) = true) (concat batches) →
  let log := foldl (λ x es, (export x es).1) (mkJsonl ([] : str)) batches in
  (match read_events (Ok (jsonl_file log)) with
   | Ok es => Forall2 event_alike (concat batches) es ∧
       inspect_run (Ok (jsonl_file log)) diff =
         Ok match diff with
            | Some (a, b) => render_diff (summarize (concat batches)) a b
            | None => render_summary (summarize (concat batches))
            end
   | Err failure => inspect_run (Ok (jsonl_file log)) diff = Err failure ∧
       ∃ n e error, failure = InvalidEvent (S n) error ∧ concat batches !! n = Some e ∧ has_float e
   end) ∧
  (Forall (λ e, ¬ has_float e) (concat batches) → read_events (Ok (jsonl_file log)) = Ok (concat batches)).
Proof.
  intros (lines & Hl)%log_lines log. destruct (log_text _ _ Hl) as [Hu Hlines].
  assert (read_events (Ok (jsonl_file log)) = parse_lines 0 lines) as Hr.
  { unfold log. rewrite (log_batches _ _ _ Hl). cbn [jsonl_file app]. unfold read_events, from_utf8. cbn [map_err mbind result_bind].
    rewrite Hu. cbn [ok_or mbind result_bind]. by rewrite Hlines. }
  unfold inspect_run. rewrite Hr. pose proof (parse_log 0 _ _ Hl) as Hp. destruct (parse_lines 0 lines) as [es|failure].
  - split; [split; [done|]; cbn [mbind result_bind]; rewrite (summarize_alike _ _ Hp); by destruct diff as [[]|]|].
    intros Hn. f_equal. clear -Hp Hn. induction Hp as [|e e' l l' He _ IH]; [done|]. apply Forall_cons in Hn as [? ?].
    f_equal; [by apply alike_without_float|by apply IH].
  - destruct Hp as (n & e & error & -> & Hn & Hf). split; [split; [done|]; by exists n, e, error|].
    intros Hall. destruct (proj1 (Forall_lookup _ _) Hall n e Hn Hf).
Qed.
End properties.

Section witnesses.
#[local] Existing Instances crockford_ulid.

Definition sample_text : str := bs "{event}".
Definition sample_event : Event := Scripted.ev 1.
#[local] Instance sample_json : SerdeJson Event := Single.codec sample_text sample_event.
Lemma sample_json_laws : EventJsonLaws sample_json.
Proof.
  constructor.
  - intros e line [_ ->]%Single.single_written. vm_compute. split_and!; [done|..|done]; intros H; repeat (apply elem_of_cons in H as [[=]|H]); by apply not_elem_of_nil in H.
  - intros e e' line [-> ->]%Single.single_written. unfold sample_json. rewrite Single.single_reads. intros [= <-]. split; [|by destruct sample_event].
    apply attributes_alike_refl.
  - intros e line error [-> ->]%Single.single_written. unfold sample_json. by rewrite Single.single_reads.
Qed.

Lemma inspect_reads_log_witness :
  let log := foldl (λ x es, (export x es).1) (mkJsonl ([] : str)) [[sample_event]; [sample_event; sample_event]] in
  jsonl_file log = concat (replicate 3 (sample_text ++ [x0a])) ∧
  read_events (Ok (jsonl_file log)) = Ok [sample_event; sample_event; sample_event] ∧
  inspect_run (Ok (jsonl_file log)) (Some (bs "a", bs "b")) = Ok (render_diff (summarize [sample_event; sample_event; sample_event]) (bs "a") (bs "b")).
Proof.
  intros log. split; [vm_compute; reflexivity|].
  destruct (inspect_reads_log (EJ := sample_json_laws) [[sample_event]; [sample_event; sample_event]] (Some (bs "a", bs "b"))) as [Hi Hr].
  { repeat constructor; vm_compute; reflexivity. }
  assert (¬ has_float sample_event) as Hf.
  { intros (k & f & Hk). assert (attributes sample_event = ∅) as Ha by (vm_compute; reflexivity). rewrite Ha, lookup_empty in Hk. discriminate. }
  specialize (Hr (Forall_cons_2 (λ e, ¬ has_float e) _ _ Hf (Forall_cons_2 (λ e, ¬ has_float e) _ _ Hf (Forall_cons_2 (λ e, ¬ has_float e) _ _ Hf (Forall_nil_2 _))))).
  split; [exact Hr|]. fold log in Hi, Hr. rewrite Hr in Hi. exact (proj2 Hi).
Defined.
End witnesses.
