(* ===== verification/GatewayWorker.v ===== *)
(** * The gateway worker and the supervisor inside (crates/hiloop-interceptor/src/netns/gateway.rs, ingress.rs, udp_ingress.rs)

    What the two helpers of a transparent run do when they start: the worker
    takes its configuration and the descriptors it inherits, connects what it
    serves with, reports ready and serves until one of its tasks ends; the
    supervisor inside takes its options and runs the command captured.  Both are
    programs over calls (see Programs); the calls of the inherited descriptors
    are the ones of Listener. *)
From Stdlib Require Import Strings.Byte.
From S2P Require Import Prelude Text Net Identity Event Spool Seams Egress Substrate Redact Anomaly Pipeline Protocol NetCapture Relay Child NetSession.
From S2P Require Import ProxyMeta ProxyTee ProxyHandler Routing Udp DnsRelay Programs Listener Manager Gateway GatewayConfig.

Section worker.
Context {L : UrlLib} {N : IpNetLib} {U : UlidLib} {J : ConfigJson}.

(** The tasks the worker waits for, in the order of its [select!]. *)
Inductive gateway_task := PipelineTask | EventPump | TcpTask | DnsTask | UdpTask | SummaryTask.
Inductive worker_call :=
| OfSys (c : sys_call)
| LocalSocket (fd : Z)
| SetSocketNonblocking (fd : Z)
| RegisterSocket (fd : Z)
| EnvVariable (name : str)
| ReadFile (path : str)
| CreateNewFile (path : str)
| WriteNewFile (path contents : str)
| ConnectExporter (socket token : str)
| ConnectWorkload (socket token : str)
| GenerateCa
| CreateBlobStore (directory : str)
| ConnectDnsRelay (path : str)
| BindDnsUdp (address : SocketAddr)
| BindDnsTcp (address : SocketAddr)
| CloneBroker
| NewChildSink
| Serve (context : RunContext) (attributes : Attributes) (handler : HandlerConfig)
| RunCaptured (options : Options).
(** [ReadFile] answers what [std::fs::read] does, [GenerateCa] the certificate,
    [Serve] the first task that ended and how, [RunCaptured] the exit code. *)
Definition worker_answer (c : worker_call) : Type :=
  match c with
  | OfSys c => answer c
  | LocalSocket _ => result IoError SocketAddr
  | EnvVariable _ | ReadFile _ => option str
  | GenerateCa => result IoError str
  | Serve _ _ _ => gateway_task * result IoError unit
  | RunCaptured _ => result IoError Z
  | _ => result IoError unit
  end.
Abbreviation wprogram := (prog worker_answer).
Definition call_ (c : worker_call) : wprogram (worker_answer c) := perform c.
(** A program of Listener. *)
Fixpoint of_sys {A} (p : Listener.program A) : wprogram A :=
  match p with
  | Ret a => Ret a
  | Unfinished => Unfinished
  | Call c k => Call (answer := worker_answer) (OfSys c) (λ r, of_sys (k r))
  end.

(** [read_system_ca_roots], and [write_ca_bundle] *)
Fixpoint first_readable (candidates : list str) : wprogram (option str) :=
  match candidates with
  | [] => Ret None
  | candidate :: candidates =>
      bytes ⟵ call_ (ReadFile candidate);
      match read_nonempty (λ _, bytes) candidate with Some b => Ret (Some b) | None => first_readable candidates end
  end.
Definition system_ca_roots : wprogram (option str) :=
  variable ⟵ call_ (EnvVariable (bs "SSL_CERT_FILE"));
  first_readable (option_list variable ++ SYSTEM_CA_BUNDLE_CANDIDATES).
Definition write_ca_bundle (path ca_pem : str) : wprogram (result IoError unit) :=
  roots ⟵ system_ca_roots;
  _ ⇠ call_ (CreateNewFile path);
  call_ (WriteNewFile path (union_ca_bundle roots ca_pem)).

(** [TransparentTcpIngress::from_std] and [TransparentUdpIngress::from_std] *)
Definition register_pair (ipv4 ipv6 : Z) : wprogram (result IoError unit) :=
  _ ⇠ call_ (SetSocketNonblocking ipv4);
  _ ⇠ call_ (SetSocketNonblocking ipv6);
  _ ⇠ call_ (RegisterSocket ipv4);
  call_ (RegisterSocket ipv6).
Definition tcp_from_std (ipv4 ipv6 : Z) : wprogram (result IoError unit) :=
  let refused := io_error InvalidInput (bs "transparent ingress requires IPv4 then IPv6 listeners") in
  first ⇠ call_ (LocalSocket ipv4);
  if negb (sock_is_ipv4 first) then Ret (Err refused)
  else
    second ⇠ call_ (LocalSocket ipv6);
    if sock_is_ipv4 second then Ret (Err refused) else register_pair ipv4 ipv6.
Definition udp_from_std (ipv4 ipv6 : Z) : wprogram (result IoError unit) :=
  first ⇠ call_ (LocalSocket ipv4);
  second ⇠ call_ (LocalSocket ipv6);
  if negb (sock_is_ipv4 first) || sock_is_ipv4 second || negb (sock_port first =? sock_port second)%Z
  then Ret (Err (io_error InvalidInput (bs "transparent UDP ingress requires matching IPv4 and IPv6 listener ports")))
  else register_pair ipv4 ipv6.

(** [DnsRelayClient::connect_from_environment] and [GatewayDnsRelay::bind] *)
Definition connect_dns_relay : wprogram (result IoError unit) :=
  path ⟵ call_ (EnvVariable DNS_RELAY_SOCKET_ENV);
  match path with
  | None => Ret (Err (io_error NotFound (DNS_RELAY_SOCKET_ENV ++ bs " is not set")))
  | Some path => call_ (ConnectDnsRelay path)
  end.
Definition bind_gateway_dns : wprogram (result IoError unit) :=
  let ipv4 := SockV4 GATEWAY_IPV4 DNS_PORT in
  let ipv6 := SockV6 GATEWAY_IPV6 DNS_PORT 0 0 in
  _ ⇠ call_ (BindDnsUdp ipv4);
  _ ⇠ call_ (BindDnsUdp ipv6);
  _ ⇠ call_ (BindDnsTcp ipv4);
  call_ (BindDnsTcp ipv6).

(** [require_gateway_task], and what the end of each task makes of the worker *)
Definition require_gateway_task (component : string) (r : result IoError unit) : result IoError unit :=
  match r with Ok _ => Err (io_other (bs component ++ bs " stopped unexpectedly")) | Err error => Err error end.
Definition worker_end (ended : gateway_task * result IoError unit) : result IoError Z :=
  _ ← match ended.1 with
      | TcpTask => require_gateway_task "TCP gateway" ended.2
      | DnsTask => require_gateway_task "DNS gateway" ended.2
      | UdpTask => require_gateway_task "UDP gateway" ended.2
      | _ => ended.2
      end;
  Err (io_other (bs "gateway worker stopped unexpectedly")).

(** [run_gateway] *)
Definition gateway_setup (c : GatewayConfig) : wprogram (result IoError HandlerConfig) :=
  _ ⇠ of_sys from_inherited_fds;
  _ ⇠ call_ (ConnectExporter (gc_event_socket c) (gc_event_token c));
  certificate ⇠ call_ GenerateCa;
  _ ⇠ write_ca_bundle (gc_ca_bundle c) certificate;
  handler ⇠ Ret (gateway_handler_config c);
  _ ⇠ call_ (CreateBlobStore (gc_blob_dir c));
  _ ⇠ connect_dns_relay;
  _ ⇠ bind_gateway_dns;
  Ret (Ok handler).
Definition gateway_serving (c : GatewayConfig) (handler : HandlerConfig) : wprogram (result IoError Z) :=
  _ ⇠ tcp_from_std IPV4_LISTENER_FD IPV6_LISTENER_FD;
  _ ⇠ udp_from_std IPV4_UDP_FD IPV6_UDP_FD;
  _ ⇠ call_ CloneBroker;
  _ ⇠ call_ NewChildSink;
  ended ⟵ call_ (Serve (gc_context c) (gc_attributes c) handler);
  Ret (worker_end ended).
Definition run_gateway (c : GatewayConfig) : wprogram (result IoError Z) :=
  handler ⇠ gateway_setup c;
  _ ⇠ of_sys notify_ready;
  gateway_serving c handler.
(** [gateway_worker_entrypoint]: from the environment it starts with. *)
Definition gateway_worker_entrypoint (environment : str → option str) : wprogram (result IoError Z) :=
  config ⇠ Ret (take_bootstrap_config (T := GatewayConfig) environment GATEWAY_CONFIG_ENV);
  run_gateway config.1.

(** [captured_workload_entrypoint]: the command is what follows the role among
    the arguments. *)
Definition captured_workload_entrypoint (environment : str → option str) (arguments : list str) (invocation : str) : wprogram (result IoError Z) :=
  config ⇠ Ret (take_bootstrap_config (T := WorkloadConfig) environment WORKLOAD_CONFIG_ENV);
  _ ⇠ of_sys (sys DenyInspection);
  _ ⇠ call_ (ConnectWorkload (wc_event_socket config.1) (wc_event_token config.1));
  call_ (RunCaptured (workload_options config.1 (drop 2 arguments) invocation)).
End worker.

(** ** Specification *)

Section worker_spec.
Context {L : UrlLib} {N : IpNetLib} {U : UlidLib} {J : ConfigJson}.

(** The calls the worker makes for others to rely on: its readiness, and
    serving. *)
Definition committal (e : entry worker_answer) : Prop :=
  match en_call e with OfSys (SendReady _) | Serve _ _ _ => True | _ => False end.
Definition answered {c : worker_call} (r : worker_answer c) : entry worker_answer → Prop := eq (mkEntry c r).
(** What an entry of serving serves with. *)
Definition served (e : entry worker_answer) : option (RunContext * Attributes * HandlerConfig) :=
  match en_call e with Serve context attributes handler => Some (context, attributes, handler) | _ => None end.
(** What the worker has done before it reports ready. *)
Definition setup_done (c : GatewayConfig) (certificate relay : str) (roots : option str) : list (entry worker_answer → Prop) :=
  let ipv4 := SockV4 GATEWAY_IPV4 DNS_PORT in
  let ipv6 := SockV6 GATEWAY_IPV6 DNS_PORT 0 0 in
  [answered (c := OfSys DenyInspection) (Ok tt); answered (c := ConnectExporter (gc_event_socket c) (gc_event_token c)) (Ok tt);
   answered (c := GenerateCa) (Ok certificate); answered (c := CreateNewFile (gc_ca_bundle c)) (Ok tt);
   answered (c := WriteNewFile (gc_ca_bundle c) (union_ca_bundle roots certificate)) (Ok tt);
   answered (c := CreateBlobStore (gc_blob_dir c)) (Ok tt); answered (c := ConnectDnsRelay relay) (Ok tt);
   answered (c := BindDnsUdp ipv4) (Ok tt); answered (c := BindDnsUdp ipv6) (Ok tt);
   answered (c := BindDnsTcp ipv4) (Ok tt); answered (c := BindDnsTcp ipv6) (Ok tt)].
Definition ready_sent : entry worker_answer → Prop := answered (c := OfSys (SendReady x01)) (Ok 1%Z).
End worker_spec.

(** ** Lemmas *)

Section worker_lemmas.
Context {L : UrlLib} {N : IpNetLib} {U : UlidLib} {J : ConfigJson}.

(** A program of Listener as one of the worker's: what it shows. *)
Definition lift_entry (e : entry answer) : entry worker_answer := mkEntry (call := worker_call) (answer := worker_answer) (OfSys (en_call e)) (en_answer e).
Lemma runs_of_sys {A} (p : Listener.program A) log o : runs (of_sys p) log o → ∃ log', log = lift_entry <$> log' ∧ runs p log' o.
Proof.
  revert log. induction p as [a| |c k IH]; intros log; simpl.
  - intros [-> Ho]. by exists [].
  - intros [-> ->]. by exists [].
  - intros [[-> ->]|(r & rest & -> & (rest' & -> & Hr)%IH)]; [exists []; auto|]. exists (mkEntry c r :: rest'). split; [done|]. right. eauto.
Qed.
Lemma shows_lift (hs log : list (entry answer)) : shows (eq <$> hs) log → shows ((eq ∘ lift_entry) <$> hs) (lift_entry <$> log).
Proof.
  intros H. remember (eq <$> hs) as es eqn:He. revert hs He. induction H as [log|es e log _ IH|P es e log HP _ IH]; intros [|h hs] He; simplify_eq/=;
    [constructor..|by constructor| |]; [apply shows_skip, (IH (h :: hs)), eq_refl|apply shows_take; auto].
Qed.
Lemma wp_of_sys {A} (p : Listener.program A) (hs : A → list (entry answer)) (Φ : list (entry worker_answer → Prop) → A → Prop) :
  wp (λ e, committal (lift_entry e)) p (λ es a, es ⊑ₑ (eq <$> hs a)) →
  (∀ a, Φ ((eq ∘ lift_entry) <$> hs a) a) → wp committal (of_sys p) Φ.
Proof.
  intros Hp HΦ log o (log' & -> & Hr)%runs_of_sys. destruct (Hp _ _ Hr) as [Hno Hs]. split; [by apply Forall_fmap|].
  intros a ->. destruct (Hs a eq_refl) as (es & Hsh & Hes). eexists. split; [|apply (HΦ a)]. by apply shows_lift, Hes.
Qed.
End worker_lemmas.

Section worker_theorems.
Context {L : UrlLib} {N : IpNetLib} {U : UlidLib} {J : ConfigJson}.

Ltac call_step :=
  lazymatch goal with
  | |- wp ?P (call_ ?c) _ => refine (wp_perform P c _ _ _); [intros ? []|intros ?]
  | |- wp ?P (sys ?c) _ => refine (wp_perform P c _ _ _); [intros ? []|intros ?]
  | _ => wp_rule
  end.
Ltac call_steps := repeat (call_step; cbn [app]).

Lemma inherited_option_quiet fd o expected d (Φ : _ → _ → Prop) :
  (∀ es r, Φ es r) → wp (λ e, committal (lift_entry e)) (require_socket_option fd o expected d) Φ.
Proof. intros HΦ. unfold require_socket_option, socket_option. call_steps; apply HΦ. Qed.
Ltac inherited := repeat first [apply inherited_option_quiet; intros ? [[]|?] | call_step]; intros; simplify_eq/=.

Lemma inherited_denied :
  wp (λ e, committal (lift_entry e)) from_inherited_fds
    (λ es r, es ⊑ₑ (eq <$> match r with Ok _ => [mkEntry (answer := answer) DenyInspection (Ok tt)] | Err _ => [] end)).
Proof.
  unfold from_inherited_fds, validate_listener_descriptor, validate_datagram_descriptor, validate_connected_unix_descriptor,
    descriptor_flags, peer_socket_family, set_descriptor_close_on_exec.
  inherited; try apply entails_nil.
  all: repeat rewrite <- app_assoc; repeat first [reflexivity | apply entails_take; [done|apply entails_nil] | apply entails_skip | apply entails_later].
Qed.

Ltac shown :=
  cbn [app fmap list_fmap]; repeat rewrite <- app_assoc;
  repeat first [match goal with H : ?es ⊑ₑ ?F |- ?es ++ _ ⊑ₑ _ => refine (entails_app es F _ _ H _) end
               | apply entails_take; [solve [by intros ? <-]|] | apply entails_skip | apply entails_nil].
Lemma first_readable_wp candidates (Φ : _ → _ → Prop) : (∀ es r, Φ es r) → wp committal (first_readable candidates) Φ.
Proof.
  revert Φ. induction candidates as [|candidate l IH]; intros Φ HΦ; cbn [first_readable]; [by apply wp_ret|].
  call_steps; [apply HΦ|]. apply IH. intros. apply HΦ.
Qed.
Lemma ca_roots_wp (Φ : _ → _ → Prop) : (∀ es r, Φ es r) → wp committal system_ca_roots Φ.
Proof. intros HΦ. unfold system_ca_roots. apply wp_pbind. call_step. by apply first_readable_wp. Qed.
Lemma write_ca_bundle_wp path certificate :
  wp committal (write_ca_bundle path certificate) (λ es r, ∀ u, r = Ok u → ∃ roots, es ⊑ₑ [answered (c := CreateNewFile path) (Ok tt); answered (c := WriteNewFile path (union_ca_bundle roots certificate)) (Ok tt)]).
Proof.
  unfold write_ca_bundle. apply wp_pbind, ca_roots_wp. intros es roots. call_steps; intros u Hu; simplify_eq. destruct u. exists roots. by apply entails_later.
Qed.

Lemma gateway_setup_wp c :
  wp committal (gateway_setup c) (λ es r, ∀ handler, r = Ok handler →
    gateway_handler_config c = Ok handler ∧ ∃ certificate relay roots, es ⊑ₑ setup_done c certificate relay roots).
Proof.
  unfold gateway_setup, connect_dns_relay, bind_gateway_dns. apply wp_ptry. eapply wp_of_sys; [apply inherited_denied|]. intros [u|e]; [|done].
  call_steps; try done.
  eapply wp_mono; [apply write_ca_bundle_wp|]. intros es [[]|e] H; [|done]. destruct (H tt eq_refl) as [roots Hes].
  call_steps; try done. intros handler [= <-]. split; [done|]. exists a, l, roots. unfold setup_done. shown.

Qed.

Lemma tcp_from_std_wp a b (Φ : _ → _ → Prop) : (∀ es r, Φ es r) → wp committal (tcp_from_std a b) Φ.
Proof. intros HΦ. unfold tcp_from_std, register_pair. call_steps; apply HΦ. Qed.
Lemma udp_from_std_wp a b (Φ : _ → _ → Prop) : (∀ es r, Φ es r) → wp committal (udp_from_std a b) Φ.
Proof. intros HΦ. unfold udp_from_std, register_pair. call_steps; apply HΦ. Qed.

(** The worker serves what its configuration says, and nothing else it does
    counts as serving. *)
Lemma gateway_serving_located c handler :
  located committal (gateway_serving c handler)
    (λ _ s, ∃ ended, s = mkEntry (answer := worker_answer) (Serve (gc_context c) (gc_attributes c) handler) ended).
Proof.
  unfold gateway_serving. apply located_ptry, tcp_from_std_wp. intros es1 [[]|]; [|done].
  apply located_ptry, udp_from_std_wp. intros es2 [[]|]; [|done].
  apply located_ptry. call_step. destruct r as [[]|]; [|done]. apply located_ptry. call_step. destruct r as [[]|]; [|done].
  apply located_Call; [eauto|]. intros r. eapply located_quiet, (wp_ret _ _ (λ _ _, True)). done.
Qed.

(** The captured run starts once the supervisor inside has given up being
    inspected and reached the events of the run, with the options sent. *)
Definition captured_run (e : entry worker_answer) : Prop := match en_call e with RunCaptured _ => True | _ => False end.
Lemma captured_workload_denied environment arguments invocation :
  located captured_run (captured_workload_entrypoint environment arguments invocation) (λ es s,
    ∃ c rest r, take_bootstrap_config environment WORKLOAD_CONFIG_ENV = Ok (c, rest) ∧
      es ⊑ₑ [answered (c := OfSys DenyInspection) (Ok tt); answered (c := ConnectWorkload (wc_event_socket c) (wc_event_token c)) (Ok tt)] ∧
      s = mkEntry (answer := worker_answer) (RunCaptured (workload_options c (drop 2 arguments) invocation)) r).
Proof.
  unfold captured_workload_entrypoint. apply located_ptry, wp_ret. destruct (take_bootstrap_config _ _) as [[c rest]|e]; [|done].
  apply located_ptry. cbn [of_sys sys perform fst]. apply wp_Call; [by intros r []|]. intros r. apply wp_ret. destruct r as [[]|e]; [|done].
  apply located_ptry. call_step. destruct r as [[]|e]; [|done]. apply located_Call; [|intros r s; eapply located_quiet, (wp_ret _ _ (λ _ _, True)); done].
  intros r. exists c, rest, r. split_and!; [done| |done]. repeat (apply entails_take; [by intros ? <-|]). apply entails_nil.
Qed.

(** A program that returns no success. *)
Definition fails {A} (p : prog worker_answer (result IoError A)) : Prop := ∀ log r, runs p log (Some r) → ∃ e, r = Err e.
Lemma ptry_fails {A B} (p : prog worker_answer (result IoError A)) (f : A → prog worker_answer (result IoError B)) : (∀ a, fails (f a)) → fails (ptry p f).
Proof. intros Hf log r [[[=] _]|[(e & _ & [[=]|[= ->]])|(l1 & a & l2 & _ & _ & H)]]%runs_ptry; [by eexists|by eapply Hf]. Qed.
Lemma worker_end_err ended : ∃ e, worker_end ended = Err e.
Proof. destruct ended as [[] [[]|e]]; by eexists. Qed.
Lemma run_gateway_fails c : fails (run_gateway c).
Proof.
  unfold run_gateway, gateway_serving. do 6 (apply ptry_fails; intros ?). intros log r [[[=] _]|(l1 & ended & l2 & _ & _ & -> & [[=]|[= ->]])]%runs_pbind.
  apply worker_end_err.
Qed.

Definition ready_after (c : GatewayConfig) (es : list (entry worker_answer → Prop)) (s : entry worker_answer) : Prop :=
  ∃ certificate relay roots, es ⊑ₑ setup_done c certificate relay roots ∧
    ∀ context attributes handler, served s = Some (context, attributes, handler) →
      context = gc_context c ∧ attributes = gc_attributes c ∧ gateway_handler_config c = Ok handler ∧
      es ⊑ₑ setup_done c certificate relay roots ++ [ready_sent].
Lemma run_gateway_located c : located committal (run_gateway c) (ready_after c).
Proof.
  unfold run_gateway. apply located_ptry. eapply wp_mono; [apply gateway_setup_wp|]. intros es [handler|e] H; [|done].
  destruct (H handler eq_refl) as (Hh & certificate & relay & roots & Hes). unfold ready_after.
  apply located_Call; [intros r; exists certificate, relay, roots; rewrite app_nil_r; split; [done|intros ??? [=]]|].
  intros [sent|e]; cbn [of_sys pbind]; [|eapply located_quiet, (wp_ret _ _ (λ _ _, True)); done].
  destruct (Z.eqb_spec sent 1) as [->|]; [|eapply located_quiet, (wp_ret _ _ (λ _ _, True)); done].
  eapply located_mono; [apply gateway_serving_located|]. intros es' s [ended ->]. exists certificate, relay, roots.
  split; [by apply entails_first|]. intros ??? [= <- <- <-]. split_and!; [done..|]. apply entails_app; [done|].
  apply entails_take; [by intros ? <-|apply entails_nil].
Qed.

(** C29: the gateway worker reports ready only after it has given up being
    inspected, connected to the events of the run with its token, written the
    bundle that trusts its certificate and the system's, created its blob
    store, connected the DNS relay and bound the four DNS listeners; it serves
    after the readiness was sent, with the context, the attributes and the
    handler its configuration gives; and it never ends well. *)
Theorem worker_ready_after_setup environment log o :
  runs (gateway_worker_entrypoint environment) log o →
  (∀ r, o = Some r → ∃ e, r = Err e) ∧
  ∀ pre s post, log = pre ++ s :: post → committal s →
    ∃ c rest certificate relay roots, take_bootstrap_config environment GATEWAY_CONFIG_ENV = Ok (c, rest) ∧
      shows (setup_done c certificate relay roots) pre ∧
      ∀ context attributes handler, served s = Some (context, attributes, handler) →
        context = gc_context c ∧ attributes = gc_attributes c ∧ gateway_handler_config c = Ok handler ∧
        shows (setup_done c certificate relay roots ++ [ready_sent]) pre.
Proof.
  unfold gateway_worker_entrypoint. intros Hr. split.
  - intros r ->. revert Hr. apply ptry_fails. intros config. apply run_gateway_fails.
  - intros pre s post -> HP. apply runs_ptry in Hr as [[_ [Hn _]]|[(e & [Hn _] & _)|(l1 & config & l2 & Hl & [-> Hc] & Hr)]]; [by destruct pre..|].
    destruct Hc as [|[= Hc]]; [done|]. destruct config as [c rest]. cbn [fst] in Hr. simpl in Hl.
    destruct (run_gateway_located c _ _ Hr _ _ _ (eq_sym Hl) HP) as (es & Hsh & certificate & relay & roots & Hes & Hs).
    exists c, rest, certificate, relay, roots. split_and!; [done|by apply Hes|]. intros context attributes handler Heq.
    destruct (Hs _ _ _ Heq) as (-> & -> & Hh & Hready). split_and!; [done..|]. by apply Hready.
Qed.
End worker_theorems.

(** ** A sample run

    A worker whose calls all succeed until the TCP gateway ends. *)
Section witnesses.
#[local] Existing Instances SampleConfig.url_lib Sample.ipnet_lib crockford_ulid.

Definition inherited_option (fd option : Z) : Z :=
  if (option =? SO_TYPE)%Z then (if (fd <? 5)%Z then SOCK_STREAM else SOCK_DGRAM)
  else if (option =? SO_DOMAIN)%Z then (if bool_decide (fd ∈ [3; 5]%Z) then AF_INET else if (fd <? 7)%Z then AF_INET6 else AF_UNIX)
  else if (fd <? 5)%Z then 1%Z else 0%Z.
Definition worker_env (before : list (entry worker_answer)) (c : worker_call) : worker_answer c :=
  match c with
  | OfSys c => match c with GetSocketOption fd option => Ok (inherited_option fd option, 4%Z) | c => sample_env [] c end
  | LocalSocket fd => Ok (if bool_decide (fd ∈ [3; 5]%Z) then SockV4 GATEWAY_IPV4 40000 else SockV6 GATEWAY_IPV6 40000 0 0)
  | EnvVariable name => if bool_decide (name = DNS_RELAY_SOCKET_ENV) then Some (bs "/run/dns.sock") else None
  | ReadFile _ => Some (bs "roots")
  | GenerateCa => Ok (bs "certificate")
  | Serve _ _ _ => (TcpTask, Ok tt)
  | RunCaptured _ => Ok 0%Z
  | _ => Ok tt
  end.
Definition worker_environment : str → option str := λ n, if bool_decide (n = GATEWAY_CONFIG_ENV) then Some (bs "{gateway}") else None.
Definition is_serve (e : entry worker_answer) : bool := match en_call e with Serve _ _ _ => true | _ => false end.
Definition worker_run : list (entry worker_answer) * option (result IoError Z) :=
  exec worker_env [] (gateway_worker_entrypoint (J := SampleConfig.config_json sample_gateway_config sample_workload_config) worker_environment).
Definition served_at : nat := default 0 (position is_serve worker_run.1).

Definition served_handler : HandlerConfig :=
  default (worker_config None RedactionPolicy_default EgressPolicy_default AnomalyConfig_default)
    (match gateway_handler_config sample_gateway_config with Ok h => Some h | Err _ => None end).

Lemma worker_ready_after_setup_witness :
  let J := SampleConfig.config_json sample_gateway_config sample_workload_config in
  worker_run.2 = Some (Err (io_other (bs "TCP gateway stopped unexpectedly"))) ∧
  ∃ c certificate relay roots, shows (setup_done c certificate relay roots ++ [ready_sent]) (take served_at worker_run.1).
Proof.
  intros J. assert (worker_run.2 = Some (Err (io_other (bs "TCP gateway stopped unexpectedly")))) as Hend by vm_refl. split; [exact Hend|].
  destruct (worker_ready_after_setup (J := SampleConfig.config_json sample_gateway_config sample_workload_config) worker_environment worker_run.1 worker_run.2)
    as [_ Hready]; [apply (exec_runs worker_env []); unfold worker_run; by destruct (exec _ _ _)|].
  assert (worker_run.1 = take served_at worker_run.1 ++ mkEntry (answer := worker_answer) (Serve (gc_context sample_gateway_config) (gc_attributes sample_gateway_config) served_handler) (TcpTask, Ok tt) :: drop (S served_at) worker_run.1)
    as Hl by vm_refl.
  destruct (Hready _ _ _ Hl I) as (c & rest & certificate & relay & roots & _ & _ & Hs).
  destruct (Hs _ _ _ eq_refl) as (_ & _ & _ & Hsh). by exists c, certificate, relay, roots.
Defined.
End witnesses.
