(* ===== verification/Cli.v ===== *)
(** * The command line (crates/hiloop-interceptor/src/cli.rs)

    What the flags of [run] and [inspect] mean once clap has split them: the
    options of the run, or why they are refused, and the command they are for.
    clap's own part (names, defaults, environment fallbacks, typed values) is
    the reading of a [RunArgs] and is not modelled; the parser of the one flag
    with its own rule, [--anomaly-base64-ratio], is. *)
From Stdlib Require Import Strings.Byte.
From Stdlib Require Import Floats.SpecFloat.
From S2P Require Import Prelude Text Utf8 Net Identity Event Spool Seams Egress Substrate Redact Anomaly Pipeline Protocol NetCapture NetnsRun.
From S2P Require Import ProxyTee Exporters Inspect GatewayConfig.

(** ** Fractions

    [str::parse::<f64>]: correctly rounded from the decimal, or one of the
    names of infinity and of not-a-number. *)
Fixpoint span_digits (s : str) : str * str :=
  match s with
  | b :: rest => if is_ascii_digit b then let '(ds, r) := span_digits rest in (b :: ds, r) else ([], s)
  | [] => ([], [])
  end.
Definition digits_value (ds : str) : Z := foldl (λ acc b, acc * 10 + (bz b - 48))%Z 0%Z ds.
Definition split_sign (s : str) : bool * str :=
  match s with x2d :: rest => (true, rest) | x2b :: rest => (false, rest) | _ => (false, s) end.
(** The exponent after the digits; nothing may follow it. *)
Definition parse_exponent (s : str) : option Z :=
  match s with
  | [] => Some 0%Z
  | b :: rest =>
      if byte_is x65 b || byte_is x45 b then
        let '(negative, rest) := split_sign rest in
        match span_digits rest with
        | ([], _) => None
        | (ds, []) => Some (if negative then - digits_value ds else digits_value ds)%Z
        | _ => None
        end
      else None
  end.
Definition f64_of_decimal (negative : bool) (m exponent : Z) : f64 :=
  match m with
  | Z.pos m =>
      if (0 <=? exponent)%Z then
        binary_normalize f64_prec f64_emax ((if negative then Z.neg m else Z.pos m) * 10 ^ exponent) 0 negative
      else
        let '(q, e, rest) := SFdiv_core_binary f64_prec f64_emax (Z.pos m) 0 (10 ^ (- exponent)) 0 in
        binary_round_aux f64_prec f64_emax negative q e rest
  | _ => S754_zero negative
  end.
Definition parse_decimal (negative : bool) (s : str) : option f64 :=
  let '(integral, rest) := span_digits s in
  let '(fraction, rest) := match rest with x2e :: rest => span_digits rest | _ => ([], rest) end in
  match integral ++ fraction with
  | [] => None
  | ds => e ← parse_exponent rest; Some (f64_of_decimal negative (digits_value ds) (e - Z.of_nat (length fraction)))
  end.
Definition parse_f64 (s : str) : option f64 :=
  let '(negative, rest) := split_sign s in
  match parse_decimal negative rest with
  | Some v => Some v
  | None =>
      if eq_ignore_ascii_case rest (bs "inf") || eq_ignore_ascii_case rest (bs "infinity") then Some (S754_infinity negative)
      else if eq_ignore_ascii_case rest (bs "nan") then Some S754_nan
      else None
  end.

Definition quoted (raw : str) : str := bs "`" ++ raw ++ bs "`".
Definition parse_base64_ratio (raw : str) : result str f64 :=
  ratio ← ok_or (parse_f64 raw) (quoted raw ++ bs " is not a number");
  if negb (is_finite ratio) then Err (bs "must be a finite number, got " ++ quoted raw)
  else if negb (SFleb f64_zero ratio && SFleb ratio f64_one) then Err (bs "must be within 0.0..=1.0, got " ++ quoted raw)
  else Ok ratio.

(** ** Arguments *)

Section cli.
Context {L : UrlLib} {N : IpNetLib} {U : UlidLib}.

Record RunArgs := mkRunArgs {
  ra_run_id : option RunId; ra_lineage_path : option LineagePath;
  ra_events_jsonl : option str; ra_raw_jsonl : option str; ra_blob_dir : option str;
  ra_otlp : bool; ra_proxy : bool; ra_max_capture_bytes : option Z; ra_no_redact : bool;
  ra_egress_mode : EgressMode; ra_egress_domain : list str; ra_egress_cidr : list str;
  ra_detect_anomalies : bool; ra_block_anomalies : bool; ra_anomaly_min_base64_bytes : Z; ra_anomaly_base64_ratio : f64;
  ra_anomaly_max_upload_bytes : Z; ra_anomaly_suspicious_content_type : list str;
  ra_export_grpc : option str; ra_insecure_grpc : bool; ra_project_id : str; ra_tenant_id : option str;
  ra_export_batch_size : nat; ra_export_flush_interval_ms : Z; ra_env_allowlist : list str; ra_verbose : bool; ra_command : list str }.

Record GrpcExportOptions := mkGrpcExport { ge_endpoint : str; ge_insecure : bool; ge_tenant_id : option str; ge_project_id : str; ge_bearer_refresh : bool }.
(** The run's options: the part that crosses to the helpers ([Options]), the
    part that chooses the run ([NetnsRun.RunOptions]), and the rest. *)
Record CliOptions := mkCliOptions { co_options : Options; co_run : RunOptions; co_export_grpc : option GrpcExportOptions; co_verbose : bool }.

Inductive CliError :=
| BadContext (e : IdentityError)
| RunIdMismatch (run_id : RunId) (lineage_path : LineagePath)
| BadEgress (e : EgressPolicyError)
| BlockWithoutDetect.


Definition build_anomaly_config (detect block : bool) (min_base64_bytes : Z) (ratio : f64) (max_upload_bytes : Z)
    (suspicious_content_types : list str) : result CliError AnomalyConfig :=
  if negb detect then (if block then Err BlockWithoutDetect else Ok AnomalyConfig_default)
  else
    let config :=
      with_max_upload_bytes (with_base64_ratio (with_min_base64_bytes (with_block_on_match AnomalyConfig_enabled block) min_base64_bytes) ratio)
        max_upload_bytes in
    Ok (match suspicious_content_types with [] => config | types => with_suspicious_content_types config types end).

(** [minted] is the identifier a fresh run gets; [None] is the panic of
    [LineagePath::run_id]. *)
Definition resolve_run_context (run_id : option RunId) (lineage_path : option LineagePath) (minted : RunId) : option (result CliError RunContext) :=
  match run_id, lineage_path with
  | None, None => Some (Ok (RunContext_new_local_root minted))
  | Some run_id, None => map_err BadContext <$> RunContext_new run_id (LineagePath_root run_id)
  | None, Some path => run_id ← LineagePath_run_id path; map_err BadContext <$> RunContext_new run_id path
  | Some run_id, Some path =>
      leaf ← LineagePath_run_id path;
      if bool_decide (leaf ≠ run_id) then Some (Err (RunIdMismatch run_id path)) else map_err BadContext <$> RunContext_new run_id path
  end.

Definition resolve_max_capture_bytes (flag : option Z) : option Z :=
  match flag with
  | None => Some DEFAULT_MAX_CAPTURE_BYTES
  | Some n => if (n =? 0)%Z then None else Some n
  end.

(** [into_run_options]; [invocation] is the identifier [RunOptions::new] mints. *)
Definition options_of (a : RunArgs) (context : RunContext) (egress : EgressPolicy) (anomaly : AnomalyConfig) (invocation : str) : CliOptions :=
  let network := if ra_proxy a then NetworkCapture_proxy else CaptureOff in
  let export := (λ endpoint, mkGrpcExport endpoint (ra_insecure_grpc a)
                   (t ← ra_tenant_id a; if bool_decide (t = []) then None else Some t) (ra_project_id a) false) <$> ra_export_grpc a in
  let interval := if (0 <? ra_export_flush_interval_ms a)%Z then Some (millis (ra_export_flush_interval_ms a)) else None in
  let o := Options_new context (ra_command a) (ra_otlp a) (resolve_max_capture_bytes (ra_max_capture_bytes a)) invocation in
  let o := with_export_flush_interval (with_export_batch_size o (ra_export_batch_size a)) interval in
  let o := with_redaction o (if ra_no_redact a then RedactionPolicy_disabled else RedactionPolicy_enabled) in
  let o := with_env_allowlist (with_anomaly_detection (with_egress o egress) anomaly) (ra_env_allowlist a) in
  mkCliOptions o
    (mkRunOptions (ra_command a) network (ra_events_jsonl a) (ra_raw_jsonl a) (ra_blob_dir a) (ra_otlp a) (is_some export) egress anomaly)
    export (ra_verbose a).
Definition into_run_options (a : RunArgs) (minted : RunId) (invocation : str) : option (result CliError CliOptions) :=
  context ← resolve_run_context (ra_run_id a) (ra_lineage_path a) minted;
  Some (context ← context;
        egress ← map_err BadEgress (EgressPolicy_new (ra_egress_mode a) (ra_egress_domain a) (ra_egress_cidr a));
        anomaly ← build_anomaly_config (ra_detect_anomalies a) (ra_block_anomalies a) (ra_anomaly_min_base64_bytes a)
                    (ra_anomaly_base64_ratio a) (ra_anomaly_max_upload_bytes a) (ra_anomaly_suspicious_content_type a);
        Ok (options_of a context egress anomaly invocation)).

(** [execute]: what each command does; [inspect]'s two paths are the values of
    [--diff]. *)
Inductive Command := CommandRun (args : RunArgs) | CommandInspect (events_jsonl : str) (diff : option (list str)).
Inductive Execution := ExecuteRun (plan : result RunRefusal RunPlan) (options : CliOptions) | RefuseRun (e : CliError) | ExecuteInspect (r : result InspectError str).
Definition diff_paths (diff : option (list str)) : option (option (str * str)) :=
  match diff with
  | None => Some None
  | Some paths => a ← paths !! 0; b ← paths !! 1; Some (Some (a, b))
  end.
Definition execute {JE : SerdeJson Event} (c : Command) (minted : RunId) (invocation : str) (read : str → result IoError str) : option Execution :=
  match c with
  | CommandRun a =>
      options ← into_run_options a minted invocation;
      Some match options with Ok o => ExecuteRun (run_plan (co_run o)) o | Err e => RefuseRun e end
  | CommandInspect events_jsonl diff =>
      diff ← diff_paths diff;
      Some (ExecuteInspect (inspect_run (read events_jsonl) diff))
  end.
End cli.

(** The default ratio is read back as itself. *)
Example default_ratio_parsed : parse_base64_ratio (bs "0.95") = Ok DEFAULT_BASE64_RATIO.
Proof. vm_compute. reflexivity. Qed.
Example ratio_forms : parse_f64 (bs "1.5e-1") = parse_f64 (bs "+.15").
Proof. vm_compute. reflexivity. Qed.
Example ratio_grammar : parse_f64 (bs "1.") = Some f64_one ∧ parse_f64 (bs ".") = None ∧ parse_f64 (bs "-") = None ∧ parse_f64 (bs "-InF") = Some (S754_infinity true).
Proof. vm_compute. done. Qed.
Example ratio_refused : parse_f64 (bs "0.3") = Some (SFdiv f64_prec f64_emax (f64_of_u64 3) (f64_of_u64 10)) ∧ (∃ e, parse_base64_ratio (bs "NaN") = Err e) ∧  (∃ e, parse_base64_ratio (bs "1.5") = Err e).
Proof. vm_compute. split_and!; eauto. Qed.

(** ** Lemmas *)

Lemma SFcompare_swap x y : SFcompare y x = CompOpp <$> SFcompare x y.
Proof.
  destruct x as [[]|[]| |[] m e], y as [[]|[]| |[] m' e']; try done; cbn; rewrite (Z.compare_antisym e e'); destruct (Z.compare e e') eqn:E; try done; cbn;
    rewrite (Pos.compare_cont_antisym m m' Eq); by destruct (Pos.compare_cont Eq m m').
Qed.
Lemma SFleb_not_ltb x y : SFleb x y = true → SFltb y x = false.
Proof. unfold SFleb, SFltb. rewrite (SFcompare_swap x y). by destruct (SFcompare x y) as [[]|]. Qed.

(** A ratio the flag accepts is used as it is. *)
Lemma parsed_ratio_kept raw ratio c :
  parse_base64_ratio raw = Ok ratio → is_finite ratio = true ∧ Anomaly.base64_ratio (with_base64_ratio c ratio) = ratio.
Proof.
  unfold parse_base64_ratio. destruct (parse_f64 raw) as [v|]; [|done]. cbn [ok_or mbind result_bind]. destruct (is_finite v) eqn:Hf; [|done]. cbn [negb].
  destruct (SFleb f64_zero v && SFleb v f64_one) eqn:E; [|done]. intros [= <-]. split; [done|]. cbn [with_base64_ratio Anomaly.base64_ratio].
  apply andb_true_iff in E as [E1 E2]. unfold f64_clamp. by rewrite (SFleb_not_ltb _ _ E1), (SFleb_not_ltb _ _ E2).
Qed.

Section cli_lemmas.
Context {L : UrlLib} {N : IpNetLib} {U : UlidLib}.

Lemma RunContext_new_Ok r p c : RunContext_new r p = Some (Ok c) → c = mkRunContext r p ∧ LineagePath_run_id p = Some r.
Proof.
  unfold RunContext_new. intros (leaf & Hl & H)%bind_Some. destruct (decide (leaf ≠ r)) as [|Hd]; [done|]. apply dec_stable in Hd as ->. by simplify_eq.
Qed.
(** The context of the flags. *)
Definition context_of (run_id : option RunId) (path : option LineagePath) (minted : RunId) (c : RunContext) : Prop :=
  LineagePath_run_id (ctx_lineage_path c) = Some (ctx_run_id c) ∧
  match path with Some p => ctx_lineage_path c = p | None => ctx_lineage_path c = LineagePath_root (default minted run_id) end ∧
  ∀ r, run_id = Some r → ctx_run_id c = r.
Lemma resolve_context_of run_id path minted c : resolve_run_context run_id path minted = Some (Ok c) → context_of run_id path minted c.
Proof.
  unfold resolve_run_context, context_of.
  assert (∀ r p, map_err BadContext <$> RunContext_new r p = Some (Ok c) → c = mkRunContext r p ∧ LineagePath_run_id p = Some r) as Hnew.
  { intros r p (x & Hn & Hx)%fmap_Some. destruct x as [x|]; [|done]. injection Hx as ->. by apply RunContext_new_Ok. }
  destruct run_id as [r|], path as [p|]; [|by intros [-> ?]%Hnew; split_and!; try intros ? [= <-]| |].
  - intros (leaf & Hl & H)%bind_Some. destruct (bool_decide (leaf ≠ r)) eqn:E; [done|]. apply Hnew in H as [-> ?]. split_and!; try done. by intros ? [= <-].
  - intros (leaf & Hl & H)%bind_Some. apply Hnew in H as [-> ?]. split_and!; done.
  - intros [= <-]. split_and!; done.
Qed.
Lemma resolve_context_refused run_id path minted :
  (∀ p, path = Some p → path_wf p) →
  ∃ r, resolve_run_context run_id path minted = Some r ∧
    ((∃ e, r = Err e) ↔ ∃ i p, run_id = Some i ∧ path = Some p ∧ LineagePath_run_id p ≠ Some i).
Proof.
  intros Hwf. unfold resolve_run_context, RunContext_new.
  assert (∀ p, path = Some p → ∃ leaf, LineagePath_run_id p = Some leaf) as Hleaf.
  { intros p Hp. specialize (Hwf p Hp). unfold path_wf, depth in Hwf. unfold LineagePath_run_id. destruct (segments p) as [|i l]; [cbn in Hwf; lia|].
    destruct (last (i :: l)) eqn:E; [by eexists|]. by apply last_None in E. }
  destruct run_id as [r|], path as [p|]; [| | |].
  - destruct (Hleaf p eq_refl) as [leaf Hl]. rewrite Hl. cbn. case_bool_decide as Hd.
    + eexists. split; [done|]. split; [|by eexists]. intros _. exists r, p. split_and!; [done..|]. congruence.
    + subst leaf. rewrite decide_False by (by intros []). eexists. split; [done|]. split; [by intros [? ?]|].
      intros (? & ? & [= <-] & [= <-] & ?). done.
  - cbn. rewrite decide_False by (by intros []). eexists. split; [done|]. split; [by intros [? ?]|]. by intros (? & ? & _ & ? & _).
  - destruct (Hleaf p eq_refl) as [leaf Hl]. rewrite Hl. cbn. rewrite decide_False by (by intros []).
    eexists. split; [done|]. split; [by intros [? ?]|]. by intros (? & ? & ? & _).
  - eexists. split; [done|]. split; [by intros [? ?]|]. by intros (? & ? & ? & _).
Qed.

Lemma anomaly_config_of detect block m ratio u types c :
  build_anomaly_config detect block m ratio u types = Ok c → anomaly_enabled c = detect ∧ blocks_on_match c = block.
Proof.
  unfold build_anomaly_config. destruct detect; cbn; [|by destruct block; intros [= <-]]. intros [= <-]. by destruct types.
Qed.

Lemma anomaly_config_exact raw detect block m ratio u types c :
  parse_base64_ratio raw = Ok ratio → build_anomaly_config detect block m ratio u types = Ok c →
  c = if detect
      then mkAnomaly true block m ratio u match types with [] => DEFAULT_SUSPICIOUS_CONTENT_TYPES | _ => to_ascii_lowercase <$> types end
      else AnomalyConfig_default.
Proof.
  intros Hraw. destruct (parsed_ratio_kept raw ratio AnomalyConfig_default Hraw) as [_ Hk].
  change (f64_clamp ratio f64_zero f64_one = ratio) in Hk. unfold build_anomaly_config.
  destruct detect; cbn [negb]; [|by destruct block; intros [= <-]]. intros [= <-].
  match goal with |- ?l = ?f m ratio u ?t => transitivity (f m (f64_clamp ratio f64_zero f64_one) u t); [by destruct types|by rewrite Hk] end.
Qed.

(** A plan of a run that is not transparent. *)
Lemma plan_enforces (o : RunOptions) plan :
  netns_runner (ro_network o) = None → run_plan o = Ok plan →
  plan ≠ NetnsPlan ∧ (is_allow_all (ro_egress o) = false ∨ anomaly_enabled (ro_anomaly o) = true →
    uses_proxy (ro_network o) = true ∧ ∃ raw, plan = CapturedPlan (sinks_of o) raw ∧ sinks_of o ≠ []).
Proof.
  unfold run_plan. intros ->. destruct (bool_decide (ro_command o = [])); [done|].
  destruct (_ && negb _) eqn:?; [done|]. destruct (ro_otlp o && _); [done|].
  destruct (uses_proxy (ro_network o)) eqn:Hp; cbn.
  - destruct (ro_events_jsonl o) as [p|] eqn:He, (ro_export_grpc o) eqn:Hg, (ro_blob_dir o); cbn; try done; rewrite ?andb_false_r; cbn; intros [= <-];
      (split; [done|]); intros _; split; try done; eexists; (split; [done|]); unfold sinks_of; rewrite He, Hg; done.
  - destruct (is_allow_all (ro_egress o)); cbn; [|done]. destruct (anomaly_enabled (ro_anomaly o)); cbn; [done|].
    destruct (_ || _); intros [= <-]; (split; [done|]); by intros [|].
Qed.
End cli_lemmas.

(** ** The command line means what it says *)

Section cli_theorems.
Context {L : UrlLib} {N : IpNetLib} {U : UlidLib}.

(** C30: whatever options the flags give: the run is the one [--run-id] and
    [--lineage-path] name, and a fresh root without them; the command, the
    receiver and the environment's names are those given; captured copies end
    at the limit given, at 8 MiB without one, and nowhere for 0, and are scrubbed
    unless told not to be; batches have at least one event, and are flushed at
    the interval given unless it is 0; anomalies are looked for, and block,
    exactly as asked, with exactly the thresholds given (the ratio being one the
    flag accepts) and the content types given, in lower case, or the default
    ones; without detection the configuration is the default one.  The plan these
    options lead to is never the transparent one, and when egress rules or
    anomaly detection are set it is a captured run with a sink, through the
    proxy that enforces them.  The options are refused (never by a panic, the
    lineage path being one the parser gives) only when the path's leaf is
    another run, an egress rule does not parse, or [--block-anomalies] comes
    without [--detect-anomalies]. *)
Theorem cli_options_faithful a minted invocation :
  (∀ p, ra_lineage_path a = Some p → path_wf p) →
  ∃ r, into_run_options a minted invocation = Some r ∧
  ((∃ e, r = Err e) ↔
     (∃ i p, ra_run_id a = Some i ∧ ra_lineage_path a = Some p ∧ LineagePath_run_id p ≠ Some i) ∨
     (∃ e, EgressPolicy_new (ra_egress_mode a) (ra_egress_domain a) (ra_egress_cidr a) = Err e) ∨
     (ra_block_anomalies a = true ∧ ra_detect_anomalies a = false)) ∧
  ∀ o, r = Ok o →
    context_of (ra_run_id a) (ra_lineage_path a) minted (op_context (co_options o)) ∧
    op_max_capture_bytes (co_options o) =
      match ra_max_capture_bytes a with None => Some 8388608%Z | Some n => if bool_decide (n = 0%Z) then None else Some n end ∧
    policy_enabled (op_redaction (co_options o)) = negb (ra_no_redact a) ∧
    (∀ raw, parse_base64_ratio raw = Ok (ra_anomaly_base64_ratio a) →
       op_anomaly (co_options o) =
         if ra_detect_anomalies a
         then mkAnomaly true (ra_block_anomalies a) (ra_anomaly_min_base64_bytes a) (ra_anomaly_base64_ratio a) (ra_anomaly_max_upload_bytes a)
                match ra_anomaly_suspicious_content_type a with
                | [] => DEFAULT_SUSPICIOUS_CONTENT_TYPES | _ => to_ascii_lowercase <$> ra_anomaly_suspicious_content_type a
                end
         else AnomalyConfig_default) ∧
    anomaly_enabled (op_anomaly (co_options o)) = ra_detect_anomalies a ∧ blocks_on_match (op_anomaly (co_options o)) = ra_block_anomalies a ∧
    op_command (co_options o) = ra_command a ∧ op_otlp (co_options o) = ra_otlp a ∧ op_env_allowlist (co_options o) = ra_env_allowlist a ∧
    op_export_batch_size (co_options o) = Nat.max (ra_export_batch_size a) 1 ∧
    op_export_flush_interval (co_options o) =
      (if (0 <? ra_export_flush_interval_ms a)%Z then Some (ra_export_flush_interval_ms a * 1000000)%Z else None) ∧
    EgressPolicy_new (ra_egress_mode a) (ra_egress_domain a) (ra_egress_cidr a) = Ok (op_egress (co_options o)) ∧
    ∀ plan, run_plan (co_run o) = Ok plan →
      plan ≠ NetnsPlan ∧
      (is_allow_all (op_egress (co_options o)) = false ∨ ra_detect_anomalies a = true →
        ra_proxy a = true ∧ ∃ sinks raw, plan = CapturedPlan sinks raw ∧ sinks ≠ []).
Proof.
  intros Hwf. destruct (resolve_context_refused (ra_run_id a) (ra_lineage_path a) minted Hwf) as (rc & Hrc & Href).
  unfold into_run_options. rewrite Hrc. cbn [mbind option_bind]. eexists. split; [done|].
  destruct rc as [c|e]; cbn [mbind result_bind].
  2:{ split; [|done]. split; [intros _; left; by apply Href; eexists|by eexists]. }
  assert (¬ ∃ i p, ra_run_id a = Some i ∧ ra_lineage_path a = Some p ∧ LineagePath_run_id p ≠ Some i) as Hno by (by intros [? ?]%Href).
  destruct (EgressPolicy_new _ _ _) as [egress|e] eqn:He; cbn [map_err].
  2:{ split; [|done]. split; [intros _; right; left; by eexists|by eexists]. }
  destruct (build_anomaly_config _ _ _ _ _ _) as [anomaly|e] eqn:Ha.
  2:{ split; [|done]. split; [intros _; right; right|by eexists]. unfold build_anomaly_config in Ha. by destruct (ra_detect_anomalies a), (ra_block_anomalies a). }
  apply resolve_context_of in Hrc.
  pose proof (anomaly_config_of _ _ _ _ _ _ _ Ha) as [Hd Hb]. split.
  - split; [by intros [? ?]|]. intros [?|[[? [=]]|[Hblock Hdetect]]]; [done|]. unfold build_anomaly_config in Ha. by rewrite Hblock, Hdetect in Ha.
  - intros o [= <-]. split_and!; try done.
    + cbn. unfold resolve_max_capture_bytes. destruct (ra_max_capture_bytes a) as [n|]; [|done]. by rewrite bool_decide_decide; destruct (Z.eqb_spec n 0), (decide _).
    + cbn. by destruct (ra_no_redact a).
    + intros raw Hraw. exact (anomaly_config_exact raw _ _ _ _ _ _ _ Hraw Ha).
    + cbn. destruct (Z.ltb_spec 0 (ra_export_flush_interval_ms a)) as [H|H]; [|done]. cbn [mbind option_bind]. unfold millis.
      destruct (Z.eqb_spec (ra_export_flush_interval_ms a * 1000000) 0); [lia|done].
    + intros plan Hp. apply plan_enforces in Hp as [Hn Hp]; [|by unfold options_of; cbn; destruct (ra_proxy a)]. split; [done|].
      intros H. destruct Hp as (Hproxy & raw & -> & ?); [cbn; rewrite Hd; exact H|]. split; [|by eexists _, _].
      revert Hproxy. unfold options_of. cbn. by destruct (ra_proxy a).
Qed.

(** What the command line makes of a run's arguments is what [run] plans. *)
Lemma execute_run {JE : SerdeJson Event} a minted invocation read o :
  into_run_options a minted invocation = Some (Ok o) → execute (CommandRun a) minted invocation read = Some (ExecuteRun (run_plan (co_run o)) o).
Proof. unfold execute. by intros ->. Qed.
End cli_theorems.

(** Deny by default, but for one domain, blocking anomalies, through the proxy
    into a file. *)
Section witnesses.
#[local] Existing Instances SampleConfig.url_lib Sample.ipnet_lib crockford_ulid.

Definition sample_run_id : RunId := Identity.sample_run [12; 1; 25].
Definition sample_args : RunArgs :=
  mkRunArgs None (Some (mkLineagePath [Identity.sample_run [7]; sample_run_id])) (Some (bs "events.jsonl")) None (Some (bs "blobs")) false true (Some 0%Z) false
    ModeDeny [bs "Example.com:443"] [] true true DEFAULT_MIN_BASE64_BYTES DEFAULT_BASE64_RATIO DEFAULT_MAX_UPLOAD_BYTES []
    None false (bs "default") None 512 1000 [] false [bs "agent"].

Lemma cli_options_faithful_witness :
  ∃ o, into_run_options sample_args (Identity.sample_run [9]) (bs "inv") = Some (Ok o) ∧ ctx_run_id (op_context (co_options o)) = sample_run_id ∧
    op_max_capture_bytes (co_options o) = None ∧ blocks_on_match (op_anomaly (co_options o)) = true ∧
    run_plan (co_run o) = Ok (CapturedPlan [JsonlSink (bs "events.jsonl")] None) ∧ ra_proxy sample_args = true.
Proof.
  destruct (cli_options_faithful sample_args (Identity.sample_run [9]) (bs "inv")) as (r & Hr & _ & Hok).
  { intros p [= <-]. by vm_compute. }
  pose (o := match into_run_options sample_args (Identity.sample_run [9]) (bs "inv") with Some (Ok o) => o | _ => options_of sample_args (RunContext_new_local_root (Identity.sample_run [9])) EgressPolicy_default AnomalyConfig_default [] end).
  assert (into_run_options sample_args (Identity.sample_run [9]) (bs "inv") = Some (Ok o)) as Ho by vm_refl.
  assert (run_plan (co_run o) = Ok (CapturedPlan [JsonlSink (bs "events.jsonl")] None)) as Hplan by vm_refl.
  rewrite Ho in Hr. injection Hr as <-. destruct (Hok o eq_refl) as ((_ & _ & _) & Hcap & _ & _ & _ & Hblock & _ & _ & _ & _ & _ & _ & Hp).
  exists o. split_and!; [done|vm_refl|rewrite Hcap; reflexivity|exact Hblock|done|].
  destruct (Hp _ Hplan) as [_ Henf]. destruct Henf as [Hproxy _]; [by right|exact Hproxy].
Defined.
End witnesses.
