(* ===== verification/Session.v ===== *)
(** * Capture sessions (crates/hiloop-interceptor/src/session.rs)

    One capture pipeline and the handles that attach sources to it and shut it
    down.  The threads that hold the handles, the sources and the pipeline
    interleave: [session_step] is one step of any of them, on the state they
    share (the bounded channel of signals, the sender kept for new sources, the
    watched shutdown flag).  What the pipeline does with the signals it takes
    is Pipeline. *)
From S2P Require Import Prelude.

Section session.
Context {A : Type}.

(** A [watch::Receiver] in the future [shutdown_signal] makes: the version it
    has seen, and whether the future has been polled and waits for a change. *)
Record watcher := mkWatcher { seen : nat; waiting : bool }.
(** [NotFinished]: [finish] has not been called. *)
Inductive phase := NotFinished | Draining | Over (drained : bool).

(** [signal_tx]: the sender is still there; [closing]: the calls of [shutdown]
    that have taken it and have not raised the flag; [controls]: the handles
    besides the session's own; [senders]: the other senders (with their clones),
    with the watcher of an attached source whose signal is not done. *)
Record session := mkSession {
  capacity : nat; channel : list A; signal_tx : bool; closing : nat; controls : nat; flag : bool; version : nat;
  senders : gmap nat (option watcher); next_sender : nat; stage : phase; sent : list A; taken : list A }.

Definition session_start (raw_queue_capacity : nat) : session :=
  mkSession raw_queue_capacity [] true 0 0 false 0 ∅ 0 NotFinished [] [].

Definition set_channel (s : session) (channel sent taken : list A) : session :=
  mkSession (capacity s) channel (signal_tx s) (closing s) (controls s) (flag s) (version s) (senders s) (next_sender s) (stage s) sent taken.
Definition set_senders (s : session) (senders : gmap nat (option watcher)) (next : nat) : session :=
  mkSession (capacity s) (channel s) (signal_tx s) (closing s) (controls s) (flag s) (version s) senders next (stage s) (sent s) (taken s).
Definition set_control (s : session) (signal_tx : bool) (closing controls : nat) : session :=
  mkSession (capacity s) (channel s) signal_tx closing controls (flag s) (version s) (senders s) (next_sender s) (stage s) (sent s) (taken s).
Definition set_flag (s : session) (flag : bool) (version : nat) : session :=
  mkSession (capacity s) (channel s) (signal_tx s) (closing s) (controls s) flag version (senders s) (next_sender s) (stage s) (sent s) (taken s).
Definition set_stage (s : session) (stage : phase) : session :=
  mkSession (capacity s) (channel s) (signal_tx s) (closing s) (controls s) (flag s) (version s) (senders s) (next_sender s) stage (sent s) (taken s).

Definition is_over (p : phase) : bool := match p with Over _ => true | _ => false end.
(** Someone holds the [ControlInner]. *)
Definition held (s : session) : bool := Nat.ltb 0 (controls s) || Nat.ltb 0 (closing s) || negb (is_over (stage s)).
Definition release (s : session) : session := if held s then s else set_control s false (closing s) (controls s).

(** [signal_sender], and [attach], which also subscribes to the flag; the
    result is the new sender, or [CaptureSessionError::Closed]. *)
Definition add_sender (s : session) (w : option watcher) : session := set_senders s (<[next_sender s := w]> (senders s)) (S (next_sender s)).
Definition signal_sender (s : session) (subscribes : bool) : option session :=
  if signal_tx s then Some (add_sender s (if subscribes then Some (mkWatcher (version s) false) else None)) else None.

(** Polling [shutdown_signal]: [true] when it is done. *)
Definition poll_changed (s : session) (w : watcher) : watcher * bool :=
  if Nat.eqb (version s) (seen w) then (mkWatcher (seen w) true, negb (held s))
  else (mkWatcher (version s) true, flag s || negb (held s)).
Definition poll_signal (s : session) (w : watcher) : watcher * bool :=
  if negb (waiting w) && flag s then (w, true) else poll_changed s w.

Inductive session_event :=
| Attach | AttachRefused | CloneControl | DropControl | TakeSender | RaiseFlag
| Send (sender : nat) (a : A) | SendRefused (sender : nat) | PollSignal (sender : nat) | SenderEnds (sender : nat)
| TakeClone | Finish | Receive | StreamEnds | PipelineFails | DropSession.

(** The session's own handle goes as [finish] returns: [ShutdownOnDrop]. *)
Definition shutdown_on_drop (s : session) (drained : bool) : session := set_control (set_stage s (Over drained)) false (S (closing s)) (controls s).

Definition session_step (s : session) (e : session_event) : option session :=
  match e with
  | Attach => if held s then signal_sender s true else None
  | TakeClone => if held s then signal_sender s false else None
  | AttachRefused => if held s && negb (signal_tx s) then Some s else None
  | CloneControl => if held s then Some (set_control s (signal_tx s) (closing s) (S (controls s))) else None
  | DropControl => if Nat.ltb 0 (controls s) then Some (release (set_control s (signal_tx s) (closing s) (controls s - 1))) else None
  | TakeSender => if Nat.ltb 0 (controls s) then Some (set_control s false (S (closing s)) (controls s)) else None
  | RaiseFlag => if Nat.ltb 0 (closing s) then Some (set_flag (set_control s (signal_tx s) (closing s - 1) (controls s)) true (S (version s))) else None
  | Send i a =>
      if bool_decide (is_Some (senders s !! i)) && Nat.ltb (length (channel s)) (capacity s) && negb (is_over (stage s))
      then Some (set_channel s (channel s ++ [a]) (sent s ++ [a]) (taken s)) else None
  | SendRefused i => if bool_decide (is_Some (senders s !! i)) && is_over (stage s) then Some s else None
  | PollSignal i =>
      match senders s !! i with
      | Some (Some w) => let '(w, done) := poll_signal s w in Some (set_senders s (<[i := if done then None else Some w]> (senders s)) (next_sender s))
      | _ => None
      end
  | SenderEnds i => match senders s !! i with Some _ => Some (set_senders s (delete i (senders s)) (next_sender s)) | None => None end
  | Finish => match stage s with NotFinished => Some (set_stage s Draining) | _ => None end
  | Receive =>
      match stage s, channel s with
      | Draining, a :: channel => Some (set_channel s channel (sent s) (taken s ++ [a]))
      | _, _ => None
      end
  | StreamEnds =>
      match stage s, channel s with
      | Draining, [] => if signal_tx s || negb (bool_decide (senders s = ∅)) then None else Some (shutdown_on_drop s true)
      | _, _ => None
      end
  | PipelineFails => match stage s with Draining => Some (shutdown_on_drop s false) | _ => None end
  | DropSession => match stage s with NotFinished => Some (release (set_stage s (Over false))) | _ => None end
  end.

Fixpoint session_run (s : session) (events : list session_event) : option session :=
  match events with
  | [] => Some s
  | e :: events => s ← session_step s e; session_run s events
  end.
End session.
Arguments session A : clear implicits.
Arguments session_event A : clear implicits.

(** ** Specification *)

Section session_spec.
Context {A : Type}.
Implicit Types (s : session A) (e : session_event A).

(** A new sender joins; and the session closes to them. *)
Definition joins e : Prop := match e with Attach | TakeClone => True | _ => False end.
Definition closes e : Prop := match e with TakeSender | StreamEnds | PipelineFails => True | _ => False end.

(** A watcher that waits has not seen a raised flag. *)
Definition watcher_inv s (w : watcher) : Prop := seen w ≤ version s ∧ (waiting w = true → flag s = true → seen w < version s).
Record session_inv s : Prop := {
  order_kept : sent s = taken s ++ channel s;
  flag_closed : flag s = true → signal_tx s = false;
  closing_closed : 0 < closing s → signal_tx s = false;
  flag_version : flag s = false → version s = 0;
  drained_empty : stage s = Over true → channel s = [] ∧ senders s = ∅ ∧ signal_tx s = false;
  watchers_wait : ∀ i w, senders s !! i = Some (Some w) → watcher_inv s w }.

Lemma session_start_inv capacity : session_inv (session_start capacity).
Proof. split; cbn; try done; lia. Qed.
Lemma release_channel s : channel (release s) = channel s ∧ sent (release s) = sent s ∧ taken (release s) = taken s ∧ senders (release s) = senders s ∧
  flag (release s) = flag s ∧ version (release s) = version s ∧ stage (release s) = stage s ∧ closing (release s) = closing s ∧
  (signal_tx (release s) = true → signal_tx s = true).
Proof. unfold release. by destruct (held s). Qed.
Lemma release_inv s : session_inv s → session_inv (release s).
Proof.
  destruct (release_channel s) as (Hc & Hse & Ht & Hsn & Hf & Hv & Hst & Hcl & Htx).
  assert (signal_tx s = false → signal_tx (release s) = false) as Htx'.
  { intros H. destruct (signal_tx (release s)); [|done]. by rewrite Htx in H. }
  intros [? ? ? ? Hd Hw]. split; rewrite ?Hc, ?Hse, ?Ht, ?Hsn, ?Hf, ?Hv, ?Hst, ?Hcl; auto.
  - intros H. destruct (Hd H) as (? & ? & ?). auto.
  - intros i w Hi. destruct (Hw i w Hi). split; by rewrite ?Hv, ?Hf.
Qed.
Lemma poll_signal_inv s w : (flag s = false → version s = 0) → watcher_inv s w → (poll_signal s w).2 = false → watcher_inv s (poll_signal s w).1.
Proof.
  intros Hv [Hle Hlt]. unfold poll_signal, poll_changed. destruct (negb (waiting w) && flag s) eqn:E; [done|].
  destruct (Nat.eqb_spec (version s) (seen w)) as [Heq|Hne]; cbn.
  - intros _. split; cbn; [done|]. intros _ Hf. rewrite Hf, andb_true_r in E. apply negb_false_iff in E. specialize (Hlt E Hf). lia.
  - destruct (flag s) eqn:Hf; [done|]. intros _. split; cbn; [done|]. by rewrite Hf.
Qed.
Lemma add_sender_inv s w s' :
  session_inv s → signal_tx s = true → (∀ x, w = Some x → watcher_inv s x) → stage s ≠ Over true → session_inv (add_sender s w).
Proof.
  intros [] Htx Hw Hst. split; cbn; auto; [by intros ?|]. intros i x. rewrite lookup_insert_Some. intros [[_ Hx]|[_ Hx]]; [by apply Hw|eauto].
Qed.

Lemma session_step_inv s e s' : session_inv s → session_step s e = Some s' → session_inv s'.
Proof.
  intros Hi. pose proof Hi as [Ho Hf Hc Hv Hd Hw]. destruct e; cbn [session_step].
  - destruct (held s); [|done]. unfold signal_sender. destruct (signal_tx s) eqn:Htx; [|done]. intros [= <-].
    apply add_sender_inv; try done; [intros x [= <-]; by split|]. intros H. by destruct (Hd H) as (_ & _ & ?).
  - destruct (held s && _); [|done]. by intros [= <-].
  - destruct (held s); [|done]. intros [= <-]. by split.
  - destruct (Nat.ltb_spec 0 (controls s)); [|done]. intros [= <-]. apply release_inv. by split.
  - destruct (Nat.ltb 0 (controls s)); [|done]. intros [= <-]. split; try done. intros H. by destruct (Hd H) as (? & ? & ?).
  - destruct (Nat.ltb_spec 0 (closing s)); [|done]. intros [= <-]. split; cbn; auto; [done|].
    intros i w Hl. destruct (Hw i w Hl). split; cbn; [lia|intros; lia].
  - destruct (bool_decide (is_Some (senders s !! sender))) eqn:Hb; [|done]. destruct (Nat.ltb (length (channel s)) (capacity s)); [|done].
    destruct (is_over (stage s)) eqn:Hover; [done|]. cbn. intros [= <-]. split; cbn; auto; [by rewrite Ho, app_assoc|].
    intros H. by rewrite H in Hover.
  - destruct (_ && _); [|done]. by intros [= <-].
  - destruct (senders s !! sender) as [[w|]|] eqn:Hs; [|done..]. destruct (poll_signal s w) as [w' done] eqn:Hp. intros [= <-].
    assert (stage s ≠ Over true) as Hst. { intros H. destruct (Hd H) as (_ & He & _). by rewrite He, lookup_empty in Hs. }
    split; cbn; auto; [by intros ?|]. intros i x. rewrite lookup_insert_Some. intros [[_ Hx]|[_ Hx]]; [|eauto]. destruct done; [done|]. simplify_eq.
    pose proof (poll_signal_inv s w Hv (Hw _ _ Hs)) as H. rewrite Hp in H. by apply H.
  - destruct (senders s !! sender) eqn:Hs; [|done]. intros [= <-].
    assert (stage s ≠ Over true) as Hst. { intros H. destruct (Hd H) as (_ & He & _). by rewrite He, lookup_empty in Hs. }
    split; cbn; auto; [by intros ?|]. intros i x. rewrite lookup_delete_Some. intros [_ Hx]. eauto.
  - destruct (held s); [|done]. unfold signal_sender. destruct (signal_tx s) eqn:Htx; [|done]. intros [= <-].
    apply add_sender_inv; try done. intros H. by destruct (Hd H) as (_ & _ & ?).
  - destruct (stage s); [|done..]. intros [= <-]. by split.
  - destruct (stage s) eqn:Hst; [done| |done]. destruct (channel s) as [|a l] eqn:Hch; [done|]. intros [= <-]. split; cbn; auto; [by rewrite Ho, <- app_assoc|by rewrite Hst].
  - destruct (stage s) eqn:Hst; [done| |done]. destruct (channel s) as [|a l] eqn:Hch; [|done]. destruct (signal_tx s) eqn:Htx; [done|]. cbn.
    destruct (bool_decide_reflect (senders s = ∅)) as [He|]; [|done]. intros [= <-]. split; cbn; auto. by rewrite Hch.
  - destruct (stage s); [done| |done]. intros [= <-]. by split; cbn; auto.
  - destruct (stage s); [|done..]. intros [= <-]. apply release_inv. by split.
Qed.
End session_spec.

(** ** A session drains what was captured *)

Section session_theorems.
Context {A : Type}.
Implicit Types (s : session A) (e : session_event A).

Lemma session_run_app s es1 es2 : session_run s (es1 ++ es2) = s ← session_run s es1; session_run s es2.
Proof. revert s. induction es1 as [|e es1 IH]; intros s; [done|]. cbn. destruct (session_step s e); [apply IH|done]. Qed.
Lemma session_run_ind s0 (P : list (session_event A) → session A → Prop) :
  P [] s0 → (∀ es s e s', P es s → session_step s e = Some s' → P (es ++ [e]) s') → ∀ es s, session_run s0 es = Some s → P es s.
Proof.
  intros H0 Hstep es. induction es as [|e es IH] using rev_ind; intros s; [by intros [= <-]|]. rewrite session_run_app.
  intros (s1 & H1 & (s2 & H2 & [= ->])%bind_Some)%bind_Some. eauto.
Qed.
Lemma session_run_inv capacity es s : session_run (session_start capacity) es = Some s → session_inv s.
Proof. apply (session_run_ind _ (λ _, session_inv)); [apply session_start_inv|]. intros ??????. by eapply session_step_inv. Qed.

(** The sender is never put back, and once it is gone no sender joins. *)
Lemma session_step_tx s e s' : session_step s e = Some s' → signal_tx s' = true → signal_tx s = true ∧ ¬ closes e.
Proof.
  destruct e; cbn [session_step]; unfold signal_sender; intros Hs Htx; repeat case_match; simplify_eq/=;
    try (split; [done|by intros []]).
  all: match type of Htx with signal_tx (release ?x) = true => destruct (release_channel x) as (_ & _ & _ & _ & _ & _ & _ & _ & Hrel) end.
  all: split; [exact (Hrel Htx)|by intros []].
Qed.
Lemma session_closed_run s es s' : signal_tx s = false → session_run s es = Some s' → Forall (λ e, ¬ joins e) es ∧ signal_tx s' = false.
Proof.
  revert s. induction es as [|e es IH]; intros s Htx; cbn; [by intros [= <-]|]. intros (s1 & H1 & Hr)%bind_Some.
  assert (signal_tx s1 = false) as Htx1.
  { destruct (signal_tx s1) eqn:E; [|done]. destruct (session_step_tx _ _ _ H1 E) as [H _]. by rewrite Htx in H. }
  destruct (IH s1 Htx1 Hr) as [Hno ?]. split; [|done]. constructor; [|done]. intros Hj. destruct e; try done; cbn in H1; unfold signal_sender in H1; rewrite Htx in H1;
    by destruct (held s).
Qed.
Lemma release_held s : held s = true → release s = s.
Proof. unfold release. by intros ->. Qed.
Lemma session_step_over s e s' : session_step s e = Some s' → stage s' = Over true → stage s = Over true ∨ stage s = Draining ∧ signal_tx s = false.
Proof.
  destruct e; cbn [session_step]; unfold signal_sender, release; intros Hs Hst; repeat case_match; simplify_eq/=; auto; try congruence.
  right. split; [done|]. by destruct (signal_tx s).
Qed.
Lemma session_step_open s e s' : session_step s e = Some s' → signal_tx s' = false → is_over (stage s') = false →
  signal_tx s = false ∧ is_over (stage s) = false ∨ e = TakeSender.
Proof.
  destruct e; cbn [session_step]; unfold signal_sender; intros Hs Htx Hst; try (repeat case_match; simplify_eq/=; solve [auto | congruence]).
  - destruct (Nat.ltb 0 (controls s)); simplify_eq. left. destruct (release_channel (set_control s (signal_tx s) (closing s) (controls s - 1)))
      as (_ & _ & _ & _ & _ & _ & Hst' & _). rewrite Hst' in Hst. cbn in Hst. rewrite release_held in Htx; [by cbn in Htx|].
    unfold held. cbn. by rewrite Hst, orb_true_r.
  - destruct (stage s); simplify_eq. by destruct (release_channel (set_stage s (Over false))) as (_ & _ & _ & _ & _ & _ & Hst' & _); rewrite Hst' in Hst.
Qed.
Lemma session_taken capacity es s :
  session_run (session_start capacity) es = Some s →
  (signal_tx s = false → is_over (stage s) = false → TakeSender ∈ es) ∧ (stage s = Over true → TakeSender ∈ es).
Proof.
  apply (session_run_ind _ (λ es s, (signal_tx s = false → is_over (stage s) = false → TakeSender ∈ es) ∧ (stage s = Over true → TakeSender ∈ es))); [by split|].
  intros es' s1 e s2 [H1 H2] Hs. split.
  - intros Htx Hst. apply elem_of_app. destruct (session_step_open _ _ _ Hs Htx Hst) as [[? ?]| ->]; [left; auto|right; left].
  - intros Hst. apply elem_of_app. left. destruct (session_step_over _ _ _ Hs Hst) as [?|[Hd Htx]]; [auto|]. apply H1; [done|by rewrite Hd].
Qed.
Lemma session_drained s l : stage s = Draining → signal_tx s = false → senders s = ∅ → channel s = l →
  ∃ s', session_run s (replicate (length l) Receive ++ [StreamEnds]) = Some s' ∧ stage s' = Over true ∧ taken s' = taken s ++ l.
Proof.
  revert s. induction l as [|a l IH]; intros s Hst Htx Hsn Hch; cbn [length replicate app session_run session_step]; rewrite Hst, Hch.
  - rewrite Htx, bool_decide_true by done. cbn. eexists. split_and!; [done..|]. by rewrite app_nil_r.
  - cbn [mbind option_bind]. destruct (IH (set_channel s l (sent s) (taken s ++ [a]))) as (s' & Hr & ? & Ht); [done..|].
    exists s'. split_and!; [exact Hr|done|]. rewrite Ht. cbn. by rewrite <- app_assoc.
Qed.

(** C9: a capture session, whatever its handles, sources and pipeline do and in
    whatever order.  Once anyone has begun to shut it down, or its pipeline is
    over, no source joins.  It ends of itself only after a shutdown, when every
    sender has gone, and then its pipeline has taken every signal sent, in
    order.  As long as anyone holds the session, a source's shutdown signal is
    done when it is polled exactly when the flag is raised: none stops early,
    and none that subscribed or was polled before, between or after misses it.
    And a session being shut down whose sources have ended does end, after
    taking the signals left. *)
Theorem session_drains capacity events s :
  session_run (session_start capacity) events = Some s →
  (∀ pre e post, events = pre ++ e :: post → closes e → Forall (λ x, ¬ joins x) post) ∧
  (stage s = Over true → TakeSender ∈ events ∧ senders s = ∅ ∧ taken s = sent s) ∧
  (∀ i w, senders s !! i = Some (Some w) → held s = true → (poll_signal s w).2 = flag s) ∧
  (TakeSender ∈ events → stage s = Draining → senders s = ∅ →
     ∃ s', session_run s (replicate (length (channel s)) Receive ++ [StreamEnds]) = Some s' ∧ stage s' = Over true ∧ taken s' = sent s).
Proof.
  intros Hr. pose proof (session_run_inv _ _ _ Hr) as Hi. destruct (session_taken _ _ _ Hr) as [Hopen Hover].
  assert (∀ pre e post, events = pre ++ e :: post → closes e → Forall (λ x, ¬ joins x) post ∧ signal_tx s = false) as Hclosed.
  { intros pre e post -> He. rewrite session_run_app in Hr. apply bind_Some in Hr as (s1 & _ & (s2 & Hs & Hp)%bind_Some). apply (session_closed_run s2); [|done].
    destruct (signal_tx s2) eqn:E; [|done]. by destruct (session_step_tx _ _ _ Hs E). }
  split_and!.
  - intros pre e post Heq He. by eapply Hclosed.
  - intros Hst. destruct (drained_empty _ Hi Hst) as (Hc & ? & _). split_and!; [auto|done|]. by rewrite (order_kept _ Hi), Hc, app_nil_r.
  - intros i w Hw Hh. destruct (watchers_wait _ Hi i w Hw) as [Hle Hlt]. unfold poll_signal, poll_changed. rewrite Hh.
    destruct (flag s) eqn:Hf; [|rewrite andb_false_r; destruct (Nat.eqb_spec (version s) (seen w)); done].
    destruct (waiting w); [|done]. cbn. destruct (Nat.eqb_spec (version s) (seen w)); [|done]. specialize (Hlt eq_refl eq_refl). lia.
  - intros (pre & post & Heq)%list_elem_of_split Hst Hsn. destruct (Hclosed _ _ _ Heq I) as [_ Htx].
    destruct (session_drained s (channel s)) as (s' & ? & ? & Ht); [done..|]. exists s'. split_and!; [done..|]. by rewrite Ht, (order_kept _ Hi).
Qed.
End session_theorems.

(** Two sources; the flag is raised between the second's subscription and its
    first poll; both send, both end, and the pipeline takes both signals. *)
Definition sample_events : list (session_event nat) :=
  [CloneControl; Attach; Finish; Send 0 1; PollSignal 0; Attach; TakeSender; AttachRefused; RaiseFlag; PollSignal 1; Send 1 2; PollSignal 0;
   SenderEnds 0; SenderEnds 1; Receive; Receive; StreamEnds].

Lemma session_drains_witness :
  ∃ s, session_run (session_start 2) sample_events = Some s ∧ stage s = Over true ∧ TakeSender ∈ sample_events ∧ taken s = [1; 2] ∧
    Forall (λ e, ¬ joins e) (drop 7 sample_events).
Proof.
  destruct (session_run (session_start 2) sample_events) as [s|] eqn:E; [|by vm_compute in E]. exists s.
  destruct (session_drains 2 sample_events s E) as (Hclosed & Hover & _ & _).
  assert (stage s = Over true ∧ sent s = [1; 2]) as [Hst Hsent] by (vm_compute in E; by injection E as <-).
  destruct (Hover Hst) as (Htake & _ & Htaken). split_and!; [done..|by rewrite Htaken|].
  by apply (Hclosed (take 6 sample_events) TakeSender).
Defined.
