(* ===== verification/RawLog.v ===== *)
(** * Raw observation storage (crates/hiloop-interceptor/src/raw.rs)

    The store of raw observations a run may keep ([JsonlRawStore]): one line
    per observation in a new file, under an identifier of its own.  It is a
    [RawStore] of Pipeline.  serde_json and base64 are interfaces. *)
From Stdlib Require Import Strings.Byte.
From S2P Require Import Prelude Text Utf8 Protocol Identity Event Spool Seams Pipeline Exporters Stdio.

Section raw.
Context {U : UlidLib} {B : Base64}.

(** ** The record *)

Record ProcessRecord := mkProcessRecord { pr_pid : option Z; pr_command : option str; pr_argv : list str; pr_cwd : option str }.
(** The object's fields; [schema] and [body_encoding] are constants. *)
Record RawRecord := mkRawRecord {
  rr_schema : str; rr_id : str; rr_run_id : RunId; rr_lineage_path : LineagePath; rr_observed_at : Hlc; rr_source : str; rr_kind : str;
  rr_attributes : gmap str str; rr_body_base64 : str; rr_body_encoding : str; rr_wrapper : WrapperContext; rr_process : option ProcessRecord }.
#[export] Instance process_record_eq_dec : EqDecision ProcessRecord.
Proof. solve_decision. Defined.
#[export] Instance wrapper_context_eq_dec : EqDecision WrapperContext.
Proof. solve_decision. Defined.
#[export] Instance raw_record_eq_dec : EqDecision RawRecord.
Proof. solve_decision. Defined.

(** [Path::display] replaces what is not Unicode. *)
Definition process_record (context : NormalizationContext) : option ProcessRecord :=
  process ← nx_process context;
  Some (mkProcessRecord (pc_pid process) (from_utf8_lossy <$> pc_command process) (pc_argv process) (from_utf8_lossy <$> pc_cwd process)).
Definition raw_record (raw_ref : RawObservationRef) (context : NormalizationContext) (raw : RawSignal) : RawRecord :=
  let run := run_context context in
  mkRawRecord (bs "hiloop.raw_observation.v1") (observation_id raw_ref) (ctx_run_id run) (ctx_lineage_path run) (observed_at raw) (raw_source raw)
    (raw_kind raw) (raw_attributes raw) (b64_encode (raw_body raw)) (bs "base64") (wrapper context) (process_record context).

(** ** The store

    The file, and the counter of identifiers, which wraps. *)
Context {JR : SerdeJson RawRecord} {F : Type} {FW : Write F}.
Record JsonlRawStore := mkJsonlRaw { raw_file : F; next_id : Z }.
Definition JsonlRawStore_create (file : F) : JsonlRawStore := mkJsonlRaw file 1.

Definition raw_io_error (message : string) : RawStoreError := RawStoreOther (bs "raw-jsonl") (bs message).
Definition raw_id (n : Z) : str := bs "raw-jsonl-" ++ show_uint n.
Definition jsonl_raw_store_one (s : JsonlRawStore) (context : NormalizationContext) (raw : RawSignal)
    : JsonlRawStore * result RawStoreError RawObservationRef :=
  let taken := mkJsonlRaw (raw_file s) ((next_id s + 1) mod 2 ^ 64) in
  match RawObservationRef_new (raw_id (next_id s)) with
  | Err e => (taken, Err e)
  | Ok raw_ref =>
      match to_vec (raw_record raw_ref context raw) with
      | Err _ => (taken, Err (raw_io_error "failed to encode raw observation"))
      | Ok line =>
          let '(file, r) := write_line (raw_file s) line in
          (mkJsonlRaw file (next_id taken), match r with Ok _ => Ok raw_ref | Err _ => Err (raw_io_error "failed to write raw observation") end)
      end
  end.
Definition jsonl_raw_flush (s : JsonlRawStore) : JsonlRawStore * result RawStoreError unit :=
  let '(file, r) := flush (raw_file s) in (mkJsonlRaw file (next_id s), map_err (λ _, raw_io_error "failed to flush raw observations") r).
Definition jsonl_raw_store : RawStore JsonlRawStore := mkRawStore jsonl_raw_store_one jsonl_raw_flush.

Fixpoint store_all (s : JsonlRawStore) (l : list (NormalizationContext * RawSignal)) : JsonlRawStore * list (result RawStoreError RawObservationRef) :=
  match l with
  | [] => (s, [])
  | (context, raw) :: l =>
      let '(s, r) := store jsonl_raw_store s context raw in
      let '(s, rs) := store_all s l in (s, r :: rs)
  end.
End raw.
Arguments JsonlRawStore F : clear implicits.

(** ** Lemmas *)

Section raw_lemmas.
Context {U : UlidLib} {B : Base64} {JR : SerdeJson RawRecord}.

Lemma raw_id_inj a b : (0 ≤ a < 2 ^ 64)%Z → (0 ≤ b < 2 ^ 64)%Z → raw_id a = raw_id b → a = b.
Proof.
  intros Ha Hb H. apply app_inv_head in H. assert (parse_uint u64_max (show_uint a) = parse_uint u64_max (show_uint b)) as Hp by (by rewrite H).
  rewrite !parse_show_uint in Hp by (unfold u64_max; lia). congruence.
Qed.
Lemma raw_ref_new n : RawObservationRef_new (raw_id n) = Ok (mkObservationRef (raw_id n)).
Proof. done. Qed.

(** Identifiers are taken in turn, whatever becomes of the observation. *)
Section any_file.
Context {F : Type} {FW : Write F}.
Lemma store_one_id (s : JsonlRawStore F) context raw s' r :
  store jsonl_raw_store s context raw = (s', r) → next_id s' = ((next_id s + 1) mod 2 ^ 64)%Z ∧ ∀ ref, r = Ok ref → observation_id ref = raw_id (next_id s).
Proof.
  cbn [store jsonl_raw_store]. unfold jsonl_raw_store_one. rewrite raw_ref_new. destruct (to_vec _) as [line|e]; [|by intros [= <- <-]].
  destruct (write_line _ _) as [file [[]|e]]; intros [= <- <-]; (split; [done|]); [by intros ref [= <-]|done].
Qed.
Lemma store_all_ids (s : JsonlRawStore F) l s' rs :
  (0 ≤ next_id s)%Z → (next_id s + Z.of_nat (length l) < 2 ^ 64)%Z → store_all s l = (s', rs) →
  ∀ i ref, rs !! i = Some (Ok ref) → observation_id ref = raw_id (next_id s + Z.of_nat i).
Proof.
  revert s rs. induction l as [|[context raw] l IH]; intros s rs H0 Hmax; cbn [store_all]; [by intros [= <- <-]|].
  destruct (store jsonl_raw_store s context raw) as [s1 r] eqn:Hs. destruct (store_all s1 l) as [s2 rs'] eqn:Hr. intros [= <- <-].
  destruct (store_one_id _ _ _ _ _ Hs) as [Hn Hid]. cbn [length] in Hmax. rewrite Z.mod_small in Hn by lia.
  intros [|i] ref; cbn [lookup list_lookup]; [intros [= ->]; by rewrite Z.add_0_r, (Hid ref)|].
  intros Hi. rewrite (IH s1 rs' ltac:(lia) ltac:(lia) Hr i ref Hi), Hn. f_equal. lia.
Qed.
End any_file.

(** On a file that takes every byte. *)
Lemma store_one_vec (s : JsonlRawStore str) context raw line :
  to_vec (raw_record (mkObservationRef (raw_id (next_id s))) context raw) = Ok line →
  store jsonl_raw_store s context raw =
    (mkJsonlRaw (raw_file s ++ line ++ [x0a]) ((next_id s + 1) mod 2 ^ 64), Ok (mkObservationRef (raw_id (next_id s)))).
Proof.
  intros Hl. cbn [store jsonl_raw_store]. unfold jsonl_raw_store_one. rewrite raw_ref_new, Hl. unfold write_line. cbn. by rewrite app_assoc.
Qed.
End raw_lemmas.

(** ** What a reference names *)

Section raw_theorems.
Context {U : UlidLib} {B : Base64} {JR : SerdeJson RawRecord}.

(** Whatever becomes of each write, no two references a store gives are the
    same. *)
Lemma raw_refs_distinct {F} {FW : Write F} (file : F) l s rs i j ref :
  (Z.of_nat (length l) < 2 ^ 64 - 1)%Z → store_all (JsonlRawStore_create file) l = (s, rs) →
  rs !! i = Some (Ok ref) → rs !! j = Some (Ok ref) → i < length l → j < length l → i = j.
Proof.
  intros Hmax Hr Hi Hj Hil Hjl. pose proof (store_all_ids (JsonlRawStore_create file) l s rs ltac:(done) ltac:(cbn [next_id JsonlRawStore_create]; lia) Hr) as H.
  pose proof (H i ref Hi) as H1. rewrite (H j ref Hj) in H1. cbn [next_id JsonlRawStore_create] in H1. apply raw_id_inj in H1; lia.
Qed.

Fixpoint raw_refs (n : Z) (k : nat) : list RawObservationRef :=
  match k with O => [] | S k => mkObservationRef (raw_id n) :: raw_refs (n + 1) k end.
Definition raw_records (n : Z) (l : list (NormalizationContext * RawSignal)) : list RawRecord :=
  zip_with (λ ref p, raw_record ref p.1 p.2) (raw_refs n (length l)) l.

Lemma raw_refs_in n k ref : ref ∈ raw_refs n k → ∃ i, (n ≤ i < n + Z.of_nat k)%Z ∧ ref = mkObservationRef (raw_id i).
Proof.
  revert n. induction k as [|k IH]; intros n; cbn [raw_refs]; [by intros ?%not_elem_of_nil|]. intros [->|(i & ? & ->)%IH]%elem_of_cons; eexists; (split; [|done]); lia.
Qed.
Lemma raw_refs_NoDup n k : (0 ≤ n)%Z → (n + Z.of_nat k ≤ 2 ^ 64)%Z → NoDup (raw_refs n k).
Proof.
  revert n. induction k as [|k IH]; intros n Hn Hk; cbn [raw_refs]; constructor; [|apply IH; lia].
  intros (i & ? & H)%raw_refs_in. assert (raw_id n = raw_id i) as Hid by congruence. apply raw_id_inj in Hid; lia.
Qed.

Lemma store_all_vec (s : JsonlRawStore str) l lines :
  (0 ≤ next_id s)%Z → (next_id s + Z.of_nat (length l) < 2 ^ 64)%Z →
  Forall2 (λ r line, to_vec r = Ok line) (raw_records (next_id s) l) lines →
  store_all s l = (mkJsonlRaw (raw_file s ++ concat ((λ line, line ++ [x0a]) <$> lines)) (next_id s + Z.of_nat (length l)),
                   Ok <$> raw_refs (next_id s) (length l)).
Proof.
  revert s lines. induction l as [|[context raw] l IH]; intros s lines H0 Hmax Henc.
  { apply Forall2_nil_inv_l in Henc as ->. cbn. rewrite app_nil_r, Z.add_0_r. by destruct s. }
  cbn [length] in Hmax. unfold raw_records in Henc. cbn [length raw_refs zip_with] in Henc. apply Forall2_cons_inv_l in Henc as (line & rest & Hline & Henc & ->).
  cbn [fst snd] in Hline. cbn [store_all]. rewrite (store_one_vec _ _ _ _ Hline), (Z.mod_small (next_id s + 1)) by lia.
  rewrite (IH (mkJsonlRaw (raw_file s ++ line ++ [x0a]) (next_id s + 1)) rest); cbn [next_id raw_file]; [|lia|lia|exact Henc].
  cbn [fmap list_fmap concat length raw_refs]. rewrite <- !app_assoc. do 2 f_equal. lia.
Qed.

(** The texts serde_json writes have no line breaks. *)
Class RawText : Prop := raw_text : ∀ (r : RawRecord) line, to_vec r = Ok line → x0a ∉ line ∧ x0d ∉ line.
Context {SL : SerdeLaws RawRecord} {BL : @Base64Laws B} {RT : RawText}.

(** C32: a raw log is faithful.  Observations that have an encoding, stored in a
    new file, are all accepted, each under a reference of its own; read back
    line by line, the file holds one record per observation, in order, under
    its reference, with the run, the time, the source, the kind and the
    attributes of the signal, and a body that decodes to the signal's. *)
Theorem raw_log_faithful l :
  (Z.of_nat (length l) < 2 ^ 64 - 1)%Z → Forall (λ r, is_ok (to_vec r) = true) (raw_records 1 l) →
  ∃ s refs records, store_all (JsonlRawStore_create ([] : str)) l = (s, Ok <$> refs) ∧ NoDup refs ∧
    mapM from_slice (str_lines (raw_file s)) = Ok records ∧ rr_id <$> records = observation_id <$> refs ∧
    Forall2 (λ r p, rr_run_id r = ctx_run_id (run_context p.1) ∧ rr_lineage_path r = ctx_lineage_path (run_context p.1) ∧
               rr_observed_at r = observed_at p.2 ∧ rr_source r = raw_source p.2 ∧ rr_kind r = raw_kind p.2 ∧ rr_attributes r = raw_attributes p.2 ∧
               b64_decode (rr_body_base64 r) = Some (raw_body p.2)) records l.
Proof.
  intros Hmax Henc. assert (∃ lines, Forall2 (λ r line, to_vec r = Ok line) (raw_records 1 l) lines) as [lines Hl].
  { induction Henc as [|r rs Hr _ [lines IH]]; [by exists []|]. destruct (to_vec r) as [line|] eqn:E; [|done]. exists (line :: lines). by constructor. }
  pose proof (store_all_vec (JsonlRawStore_create []) l lines ltac:(done) ltac:(cbn [next_id JsonlRawStore_create]; lia) Hl) as Hs.
  cbn [next_id raw_file JsonlRawStore_create app] in Hs. eexists _, (raw_refs 1 (length l)), (raw_records 1 l). split_and!; [exact Hs|apply raw_refs_NoDup; lia|..].
  - cbn [raw_file]. rewrite str_lines_written.
    + apply mapM_Ok, Forall2_flip. eapply Forall2_impl; [exact Hl|]. intros r line Hr. by apply from_slice_to_vec.
    + clear Hs. induction Hl as [|r line rs lines Hr _ IH]; constructor; [by eapply raw_text|]. apply IH; by inversion Henc.
  - clear. unfold raw_records. generalize 1%Z. induction l as [|p l IH]; intros n; [done|]. cbn. f_equal. apply IH.
  - clear -BL. unfold raw_records. generalize 1%Z. induction l as [|p l IH]; intros n; cbn; constructor; [|apply IH]. split_and!; try done. apply b64_roundtrip.
Qed.
End raw_theorems.

Section witnesses.
#[local] Existing Instances crockford_ulid.

(** The least that keeps the law: an encoding that changes nothing. *)
Definition plain_base64 : Base64 := {| b64_encode s := s; b64_decode := Some |}.
Lemma plain_base64_laws : @Base64Laws plain_base64.
Proof. done. Qed.
#[local] Existing Instances plain_base64 plain_base64_laws.

Definition stored_context : NormalizationContext := NormalizationContext_new Scripted.ctx.
Definition stored_signal : RawSignal := RawSignal_with_attribute (RawSignal_new (bs "stdio") (bs "stdout") (mkHlc 1 0) (bs "hello")) (bs "stream") (bs "stdout").
Definition stored_record : RawRecord := raw_record (mkObservationRef (bs "raw-jsonl-1")) stored_context stored_signal.
#[local] Instance stored_codec : SerdeJson RawRecord := Single.codec (bs "{raw}") stored_record.
#[local] Instance stored_codec_laws : SerdeLaws RawRecord := Single.single_laws (bs "{raw}") stored_record.
Lemma stored_text : RawText.
Proof. intros r line [-> ->]%Single.single_written. split; apply (bool_decide_unpack _); vm_compute; exact I. Qed.

Lemma raw_log_faithful_witness :
  ∃ s refs r, store_all (JsonlRawStore_create ([] : str)) [(stored_context, stored_signal)] = (s, Ok <$> refs) ∧ NoDup refs ∧
    raw_file s = bs "{raw}" ++ [x0a] ∧ mapM from_slice (str_lines (raw_file s)) = Ok [r] ∧ b64_decode (rr_body_base64 r) = Some (bs "hello").
Proof.
  destruct (raw_log_faithful (RT := stored_text) [(stored_context, stored_signal)]) as (s & refs & records & Hs & Hn & Hr & _ & Hf); [done| |].
  { repeat constructor. }
  apply Forall2_cons_inv_r in Hf as (r & rs & (_ & _ & _ & _ & _ & _ & Hb) & Hnil & ->). apply Forall2_nil_inv_r in Hnil as ->.
  exists s, refs, r. split_and!; [done..| |exact Hr|exact Hb].
  assert (raw_file (store_all (JsonlRawStore_create ([] : str)) [(stored_context, stored_signal)]).1 = bs "{raw}" ++ [x0a]) as Hx by (vm_compute; reflexivity).
  by rewrite Hs in Hx.
Defined.
End witnesses.
